(* ===== verification/_CoqProject ===== *)
-Q . S2P
Prelude.v
Lists.v
HashMaps.v
Bundles.v
Messages.v
ByteArrays.v
ByteBuffers.v
Streams.v
BufferedInputs.v
DataStreams.v
Parcels.v
LogBuffers.v
MessageQueues.v
Handlers.v
RefCounts.v
Strings.v
Numbers.v
StringBuilders.v
URIs.v
Base64s.v
Executors.v
SerialExecutors.v
Promises.v
PromiseCompletions.v
Packages.v
Services.v
ServiceLifecycles.v
Preferences.v
Configurations.v
Runtimes.v
Registries.v
SocketStreams.v
RemoteMessages.v
Transactions.v
FileHandlers.v
