(* ===== verification/Prelude.v ===== *)
(** * Mindroid.cpp: a verification library

    The development models the core of Mindroid.cpp, the message passing, the containers and the
    serialization under src/mindroid, and proves what makes them correct.  Paths below are
    relative to src/src/mindroid.

    ** The program

    A Mindroid process is a set of threads that each run a [Looper].  A looper takes messages off
    its [MessageQueue] and hands them to the [Handler] they were sent to; everything else (binder
    calls, services, promises) is built on posting to a handler.  Messages carry [Bundle]s, which
    are hash maps from strings to [Variant]s, and are recycled through a global pool.  A binder
    call carries a [Parcel], which is a [DataOutputStream] over a [ByteArrayOutputStream] on the
    writer's side and a [DataInputStream] over a [ByteArrayInputStream] on the reader's side.  The
    log keeps its records in a ring of bytes, the [LogBuffer], through a [ByteBuffer].

    ** The files

    - [Prelude]: results and exceptions, the state and exception monad, machine integers, generic
      lemmas, the tactic [mstep] and the rewrite databases [monad] and [words].
    - [Lists] (util/ArrayList.h, util/LinkedList.h): the two list classes, each for plain elements
      ([ArrayList], [LinkedList]) and for pointers to objects ([ObjectsArrayList],
      [ObjectsLinkedList]); [ListSpec] is the sequence both implement.
    - [HashMaps] (util/HashMap.h): [HashMap<sp<K>, sp<V>>] over a finite map; the class
      [IterationOrder] leaves the iteration order open.
    - [Bundles] (util/Variant.h, util/Variant.cpp, os/Bundle.h, os/Bundle.cpp): [Variant] and
      [Bundle] with all typed puts and getters.
    - [Messages] (os/Message.h, os/Message.cpp): the store of message objects, [Message] and the
      pool, a linked list threaded through the store.  [dseg] is the doubly linked segment used
      by the queue.
    - [MessageQueues] (os/MessageQueue.cpp): the queue as a doubly linked list in the store, and
      its specification, a list of messages sorted by [when].  [step] interleaves producers, the
      consumer, timeouts, quits and removals.
    - [Handlers] (os/Handler.h, os/Handler.cpp, os/Looper.cpp): posting and sending, dispatch,
      the loop.  What a message does when dispatched is the class [UserCode].
    - [ByteArrays] (lang/ByteArray.cpp, lang/System.cpp): the store of byte arrays, checked and
      raw accesses, [arraycopy]; integers as bytes in both byte orders.
    - [ByteBuffers] (nio/Buffer.cpp, nio/ByteBuffer.cpp, nio/ByteArrayBuffer.cpp): byte buffers.
    - [Streams] (io/OutputStream, io/InputStream, io/ByteArrayOutputStream,
      io/ByteArrayInputStream, io/BufferedOutputStream): the classes [OutputStream] and
      [InputStream] are the operations of the two interfaces, [OutputStreamSpec] and
      [InputStreamSpec] what a stream owes its clients.
    - [DataStreams] (io/DataOutputStream.cpp, io/DataInputStream.cpp): the typed streams, proved
      once against the interfaces of [Streams].
    - [Parcels] (os/Parcel.h, os/Parcel.cpp): the parcel, an instance of the above.
    - [BufferedInputs] (io/BufferedInputStream): the buffered stream with mark and reset, over
      any stream that keeps [InputStreamSpec].
    - [LogBuffers] (util/logging/LogBuffer.cpp): the ring of log records.
    - [Executors] (util/concurrent/LinkedBlockingQueue.h, ThreadPoolExecutor.cpp): the blocking
      queue on a heap of nodes; the thread pool, whose [step] interleaves the workers, the
      submitters and the shutdown.
    - [SerialExecutors] (util/concurrent/SerialExecutor.cpp): the executor of one thread, on
      [Handlers].
    - [RefCounts] (lang/Object.cpp): the strong and weak reference counters, every atomic
      operation a step of its own.
    - [Strings] (lang/String.cpp): [CString] is what the code uses of the C library on zero
      terminated strings, [Str] the class [String].
    - [Numbers] (lang/Integer.cpp and its siblings): numbers from strings.
    - [StringBuilders] (lang/StringBuilder.cpp, lang/StringArray.cpp).
    - [URIs] (net/URI.cpp): the parser, the constructors, equality and the hash string.
    - [Base64s] (util/Base64.cpp): the encoder and the decoder.
    - [Promises] (util/concurrent/Promise.h, Thenable.h): promises and the actions that make one
      depend on another, in a store; a completion runs actions, which complete further promises.
    - [PromiseCompletions]: what a promise owes those that depend on it, over [Promises].
    - [Packages] (content/pm): manifests, the services they declare, what a component resolves to.
    - [Services] (os/ServiceManager.cpp, os/Process.cpp and their binder interfaces): the service
      manager, the processes and the process manager as threads with queues; [step] interleaves
      them with clients and timeouts.  It asks [Packages] through the class [PackageManager].
    - [ServiceLifecycles]: the invariant of [Services] and what follows from it.
    - [Preferences] (app/SharedPreferencesImpl.cpp): the map, the editor, the document and the two
      files on a disk; every call of the operating system can fail, and a crash can come between
      any two.
    - [Configurations] (runtime/system/ServiceDiscoveryConfigurationReader.cpp): the reader of the
      file that says which nodes, plugins and services there are.
    - [Runtimes] (runtime/system/Runtime.cpp, os/Binder.cpp): binders, the numbers and names the
      runtime keeps them under, services and the proxies for those of other nodes.  It takes the
      configuration from [Configurations] and names from [URIs].
    - [Registries]: the invariant of [Runtimes] and what follows from it.
    - [SocketStreams] (net/Socket.cpp): the streams of a connected socket implement the interfaces of
      [Streams], over a class of what the operating system answers.
    - [RemoteMessages] (Mindroid::Message in runtime/system/Mindroid.cpp): the messages between nodes
      as bytes, written and read with [DataStreams] over any stream.
    - [Transactions] (the client and the server of runtime/system/Mindroid.cpp): the calls of one node
      on a connection, carried out by the binders of another, which [Runtimes] finds.
    - [FileHandlers] (util/logging/FileHandler.cpp, io/File.cpp): the log in a rotating set of files,
      on a disk that maps paths to contents.

    ** Correspondence

    A comment before a definition, a file with lines and a symbol, names the code it translates.
    A C++ class is a record with the members' names; a member function is a definition with the
    function's name, an overload has a suffix.  A call is a function of the monad [M S] on the
    state [S] of its component, or just a [result] where it has none: it ends with a value
    ([Ok]), an exception ([Throw], the writes made before it stay), undefined behaviour ([Undef]: a
    null dereference, an access outside an array, a [memcpy] on overlapping ranges) or without
    fuel ([Diverge]).  Objects that are shared and mutable (messages, byte arrays, queue nodes)
    live in a store indexed by object numbers; an [sp<T>] is an optional number and [None] is
    [nullptr].  Objects nobody else refers to are values.  Strings are values.

    Integers are values of [Z] with the wrap of their width written out ([u8] to [u64], [i8] to
    [i64]); [size_t] has 64 bits and the host is little-endian.  A [float] or a [double] is its
    bit pattern.  Memory is assumed to be available: no allocation fails.

    Fuel: the functions on a linked list take the number of objects of the store plus one as fuel,
    which is more than the length of any list in it, since a list has no object twice.  The
    theorems state [Ok] or [Throw] for these functions, which includes that they end.
    [Looper::loop] and [dequeueMessage] wait for messages: [dequeueMessage] takes the readings of
    the clock, one per iteration, and [loop] a list of readings for each of its iterations; where
    the readings end, the call is still waiting.  The relation [MessageQueue.step] makes each
    iteration a step of its own, interleaved with the other threads.

    ** The theorems

    - The queue: [enqueue_refines], [dequeue_refines], [removal_refines] and [quit_refines] relate
      each operation on the linked list to the sorted list of messages; [queue_safe] and
      [no_lost_wakeup] are invariants of every interleaving; [delivery_order] and
      [dequeue_returns] say what the consumer gets and when.
    - Handlers and loopers: [post_delivers], [loop_safe], [loop_dispatches]; the last one says what an
      iteration runs whatever the application's code does, and what the whole loop does where that
      leaves the queue alone.
    - Messages and bundles: [pool_reuse], [put_get].
    - Promises: [promise_once] for any functions of the application; [promises_complete] for
      functions that keep to an order of the promises, without which [nested_completion].
    - Executors: [blockingqueue_refines]; [pool_order], [pool_wakeup] and [pool_shutdown] for
      every interleaving of a thread pool; [serial_order] from the executor down to the loop.
    - Services: [services_safe] and [services_consistent] are invariants of every interleaving;
      [service_lifecycle] says in which order an instance is called, [services_answered] that
      requests are answered, [resolve_declared] what a component resolves to.  [early_quit] and
      [stale_failure] are runs, computed from the definitions, in which the code fails its clients.
    - Preferences: [prefs_crash_safe] and [prefs_durable] for crashes, the first on a file system
      that keeps the order of the changes made to a directory (otherwise [unordered_unlink]), the
      second on any; [prefs_roundtrip] for what is written, [commit_applies] for the editor;
      [full_disk_loses], [sync_ignored] and [backup_outlives] are how a commit that reports success
      is lost.
    - Binders: [binders_found] is an invariant of the registry where its callers are [careful],
      [attach_fresh] says that a new binder gets a number nobody has, [service_reached] that the name
      of a service leads from another node to its binder, [configuration_sound] what a configuration
      holds.  [stale_destructor], [copy_detaches] and [asked_too_early] are how a binder is lost
      where they are not.
    - Calls between nodes: [message_roundtrip] and [any_bytes] for the messages; [answers_matched] and
      [calls_answered] for every interleaving of a connection in which no two threads are in the
      unlocked [mTransactions] at a time, which nothing in the code provides for, as the first one
      says too; [request_reaches] leads from the URI in a message to the binder.  [connection_lost]
      and [bad_uri] are how each end fails.
    - Log files: [log_rotates] says that the files hold the newest generations of the log, whole and in
      order, [volume_kept] that a limit of the data volume holds over the runs of a program;
      [parseFileName_ok] what a pattern stands for, [clear_first_only] and [single_grows] where the
      handler falls short.
    - Reference counts: [refcount_safe] and [refcount_no_leak] for every interleaving of the
      counters' atomic operations, [promote_alone] for the loop that promotes a weak reference.
    - Bytes: [stream_roundtrip] and [buffer_safe] for the byte buffers; [data_roundtrip] for the
      data streams over any stream; [mark_reset] for the buffered stream; [parcel_rewind],
      [parcel_transfer] and [parcel_underflow] for the parcels; [log_put] and [log_get] for the
      ring; [base64_encode] and [base64_roundtrip].
    - Text: [indexOf_first] and [split_parts] for strings, [integer_roundtrip]; [parse_refines] and
      [uri_components] for URIs.
    - Containers: [lists_refine] and [objects_refine].
    - Where the code differs from what it means to do, a theorem states what it does:
      [arraycopy_overlap], [mark_overlap], [flip_past_capacity], [compact_wraps], [index_wraps],
      [compare_slices],
      [close_discards], [empty_string_lost], [full_ring_lost], [clear_null],
      [retainBasicTypes_drops_bundles], [postDelayed_truncates], [send_in_use_retargets],
      [split_empty], [equals_cuts], [regionMatches_wraps], [integer_truncates],
      [builder_indexOf], [builder_regions], [uri_empty].

    A theorem with hypotheses is followed by its [_witness], which applies it to a concrete case.

    ** Not modelled

    Threads, locks and the clock are the C library's: every operation that holds a lock for its
    whole duration is one atomic step.  What no lock protects is not: the accesses to
    [mTransactions] are steps with a begin and an end ([Transactions]), a worker of a pool takes a
    runnable in one step and starts it in another ([Executors]).  The stores of messages and byte arrays never free an
    object; the counters that would are modelled on their own, in [RefCounts].  Of the promises, the
    timeouts and the completion by several threads at once are not modelled.  Of the service
    manager, its shutdown and the table of system services are left out, and an intent is assumed
    to be made for one request, since handlers write to it.  The hash maps over keys that are not
    objects and hash sets are left out; making and closing sockets and most of the file classes
    wrap the operating system, and of the log files, dump and failures to open or rename are left out.  Of the runtime, the plugins' start and stop and what they are told of
    binders and proxies are left out, and of the plugin for other nodes, making the connections.
    Regular expressions, formatted printing and floating point arithmetic belong to the C++ library.
    Vendored code (src/tinyxml2, googletest), the tests and the examples are left out. *)

From stdpp Require Export base gmap list strings.
From Stdlib Require Export ZArith Lia.

#[export] Set Default Goal Selector "!".
Open Scope Z_scope.

(** ** Exceptions and results

    The exception classes of src/mindroid/lang, src/mindroid/io and src/mindroid/nio that the
    modelled code throws.  [EOFException] derives from [IOException]. *)

Inductive exn :=
  | NullPointerException
  | IndexOutOfBoundsException
  | IllegalArgumentException
  | IllegalStateException
  | RuntimeException
  | RemoteException
  | IOException
  | EOFException
  | BufferOverflowException
  | BufferUnderflowException
  | NumberFormatException
  | NoSuchElementException
  | URISyntaxException
  (** What [std::string] throws. *)
  | StdOutOfRange.

#[export] Instance exn_eq_dec : EqDecision exn.
Proof. solve_decision. Defined.

(** The outcome of a C++ call: a value, a thrown exception, undefined behaviour (an access
    outside an object, a null dereference, an overlapping [memcpy]), or a loop that did not end
    within the fuel the model gives it.  No [catch] clause sees [Undef] or [Diverge]; theorems
    say that a call gives [Ok] or [Throw], which excludes both. *)
Inductive result (A : Type) :=
  | Ok (a : A)
  | Throw (e : exn)
  | Undef
  | Diverge.
Arguments Ok {A} a.
Arguments Throw {A} e.
Arguments Undef {A}.
Arguments Diverge {A}.

#[export] Instance result_eq_dec {A} `{EqDecision A} : EqDecision (result A).
Proof. solve_decision. Defined.

(** Calls without a state of their own compose as results. *)
#[export] Instance result_ret : MRet result := @Ok.
#[export] Instance result_bind : MBind result := fun A B f r =>
  match r with Ok a => f a | Throw e => Throw e | Undef => Undef | Diverge => Diverge end.

Lemma result_bind_Ok {A B} (r : result A) (f : A -> result B) b :
  r ≫= f = Ok b <-> exists a, r = Ok a /\ f a = Ok b.
Proof.
  destruct r; cbn; split; try (intros (? & ? & ?); congruence); try discriminate. by eauto.
Qed.

(** ** The state and exception monad

    A call maps the state at entry to an outcome and the state at exit: an exception keeps the
    writes made before it was thrown. *)

Definition M (S A : Type) : Type := S -> result A * S.

#[export] Instance M_ret {S} : MRet (M S) := fun A a s => (Ok a, s).
#[export] Instance M_bind {S} : MBind (M S) := fun A B f m s =>
  match m s with
  | (Ok a, s') => f a s'
  | (Throw e, s') => (Throw e, s')
  | (Undef, s') => (Undef, s')
  | (Diverge, s') => (Diverge, s')
  end.

#[export] Instance M_fmap {S} : FMap (M S) := fun A B f m => m ≫= fun a => mret (f a).

Definition throw {S A} (e : exn) : M S A := fun s => (Throw e, s).
Definition undefined {S A} : M S A := fun s => (Undef, s).
Definition diverge {S A} : M S A := fun s => (Diverge, s).
Definition get_state {S} : M S S := fun s => (Ok s, s).
Definition put_state {S} (s : S) : M S unit := fun _ => (Ok tt, s).
Definition gets {S A} (f : S -> A) : M S A := fun s => (Ok (f s), s).
Definition modify {S} (f : S -> S) : M S unit := fun s => (Ok tt, f s).

(** [if (b) throw e;] *)
Definition throw_if {S} (b : bool) (e : exn) : M S unit := if b then throw e else mret tt.

(** [try { m } catch (const C& e) { throw e'; }] for the classes [p] of exceptions. *)
Definition rethrow_as {S A} (p : exn -> bool) (e' : exn) (m : M S A) : M S A := fun s =>
  match m s with
  | (Throw e, s') => if p e then (Throw e', s') else (Throw e, s')
  | r => r
  end.

(** Runs a call on a component [T] of the state [S] (a field of the object). *)
Definition zoom {S T A} (g : S -> T) (p : T -> S -> S) (m : M T A) : M S A := fun s =>
  let '(r, t) := m (g s) in (r, p t s).

(** The state the call leaves behind, and the outcome. *)
Definition exec {S A} (m : M S A) (s : S) : S := snd (m s).
Definition outcome {S A} (m : M S A) (s : S) : result A := fst (m s).

Section monad_laws.
Context {S A B : Type}.

Lemma bind_Ok (m : M S A) (f : A -> M S B) s a s' :
  m s = (Ok a, s') -> (m ≫= f) s = f a s'.
Proof. intros H. unfold mbind, M_bind. by rewrite H. Qed.

Lemma bind_Throw (m : M S A) (f : A -> M S B) s e s' :
  m s = (Throw e, s') -> (m ≫= f) s = (Throw e, s').
Proof. intros H. unfold mbind, M_bind. by rewrite H. Qed.

Lemma bind_Undef (m : M S A) (f : A -> M S B) s s' :
  m s = (Undef, s') -> (m ≫= f) s = (Undef, s').
Proof. intros H. unfold mbind, M_bind. by rewrite H. Qed.

Lemma bind_assoc {C} (m : M S A) (f : A -> M S B) (g : B -> M S C) s :
  ((m ≫= f) ≫= g) s = (m ≫= (fun a => f a ≫= g)) s.
Proof. unfold mbind, M_bind. by destruct (m s) as [[] ?]. Qed.

Lemma bind_ret (a : A) (f : A -> M S B) s : (mret a ≫= f) s = f a s.
Proof. reflexivity. Qed.

Lemma bind_gets (g : S -> A) (f : A -> M S B) s : (gets g ≫= f) s = f (g s) s.
Proof. reflexivity. Qed.

Lemma bind_modify (g : S -> S) (f : unit -> M S B) s : (modify g ≫= f) s = f tt (g s).
Proof. reflexivity. Qed.

Lemma throw_if_false (b : bool) e (f : unit -> M S B) s :
  b = false -> (throw_if b e ≫= f) s = f tt s.
Proof. intros ->. reflexivity. Qed.

Lemma throw_if_true (b : bool) e (f : unit -> M S B) s :
  b = true -> (throw_if b e ≫= f) s = (Throw e, s).
Proof. intros ->. reflexivity. Qed.

(** The same where the check ends the call. *)
Lemma throw_if_false_last (b : bool) e (s : S) : b = false -> throw_if b e s = (Ok tt, s).
Proof. intros ->. reflexivity. Qed.

Lemma throw_if_true_last (b : bool) e (s : S) : b = true -> throw_if b e s = (Throw e, s).
Proof. intros ->. reflexivity. Qed.

Lemma rethrow_Ok p e (m : M S A) s a s' :
  m s = (Ok a, s') -> rethrow_as p e m s = (Ok a, s').
Proof. intros H. unfold rethrow_as. by rewrite H. Qed.
End monad_laws.

Create Rewrite HintDb monad.
#[export] Hint Rewrite @bind_ret @bind_gets @bind_modify : monad.

(** Runs the first call of a sequence whose equation is at hand, then goes on. *)
Ltac step_with H := rewrite (bind_Ok _ _ _ _ _ H); cbn beta.
Tactic Notation "mstep" constr(H) := step_with H.

(** ** Machine integers: values in [Z], the wrap written out *)

Definition u8 (z : Z) : Z := z mod 2 ^ 8.
Definition u16 (z : Z) : Z := z mod 2 ^ 16.
Definition u32 (z : Z) : Z := z mod 2 ^ 32.
Definition u64 (z : Z) : Z := z mod 2 ^ 64.
Definition i8 (z : Z) : Z := (z + 2 ^ 7) mod 2 ^ 8 - 2 ^ 7.
Definition i16 (z : Z) : Z := (z + 2 ^ 15) mod 2 ^ 16 - 2 ^ 15.
Definition i32 (z : Z) : Z := (z + 2 ^ 31) mod 2 ^ 32 - 2 ^ 31.
Definition i64 (z : Z) : Z := (z + 2 ^ 63) mod 2 ^ 64 - 2 ^ 63.

(** [size_t] is 64 bits wide. *)
Definition SIZE_MAX : Z := 2 ^ 64 - 1.

Lemma u8_id z : 0 <= z < 2 ^ 8 -> u8 z = z.
Proof. apply Z.mod_small. Qed.
Lemma u16_id z : 0 <= z < 2 ^ 16 -> u16 z = z.
Proof. apply Z.mod_small. Qed.
Lemma u32_id z : 0 <= z < 2 ^ 32 -> u32 z = z.
Proof. apply Z.mod_small. Qed.
Lemma u64_id z : 0 <= z < 2 ^ 64 -> u64 z = z.
Proof. apply Z.mod_small. Qed.
Lemma i8_id z : - 2 ^ 7 <= z < 2 ^ 7 -> i8 z = z.
Proof. intros H. unfold i8. rewrite Z.mod_small; lia. Qed.
Lemma i16_id z : - 2 ^ 15 <= z < 2 ^ 15 -> i16 z = z.
Proof. intros H. unfold i16. rewrite Z.mod_small; lia. Qed.
Lemma i32_id z : - 2 ^ 31 <= z < 2 ^ 31 -> i32 z = z.
Proof. intros H. unfold i32. rewrite Z.mod_small; lia. Qed.
Lemma i64_id z : - 2 ^ 63 <= z < 2 ^ 63 -> i64 z = z.
Proof. intros H. unfold i64. rewrite Z.mod_small; lia. Qed.
Lemma i32_range z : - 2 ^ 31 <= i32 z < 2 ^ 31.
Proof. unfold i32. pose proof (Z.mod_pos_bound (z + 2 ^ 31) (2 ^ 32)). lia. Qed.
Lemma u64_range z : 0 <= u64 z < 2 ^ 64.
Proof. apply Z.mod_pos_bound. lia. Qed.
Lemma u32_range z : 0 <= u32 z < 2 ^ 32.
Proof. apply Z.mod_pos_bound. lia. Qed.
Lemma u16_range z : 0 <= u16 z < 2 ^ 16.
Proof. apply Z.mod_pos_bound. lia. Qed.
Lemma u8_range z : 0 <= u8 z < 2 ^ 8.
Proof. apply Z.mod_pos_bound. lia. Qed.

(** A two's complement value is determined by its residue. *)
Lemma signed_wrap (w : Z) v :
  0 < w -> - 2 ^ (w - 1) <= v < 2 ^ (w - 1) ->
  (v mod 2 ^ w + 2 ^ (w - 1)) mod 2 ^ w - 2 ^ (w - 1) = v.
Proof.
  intros Hw Hv. assert (2 ^ w = 2 * 2 ^ (w - 1)) as E.
  { rewrite <- (Z.pow_succ_r 2 (w - 1)) by lia. f_equal. lia. }
  rewrite Zplus_mod_idemp_l. rewrite Z.mod_small; lia.
Qed.

Lemma signed_mod w z : 0 < w -> ((z + 2 ^ (w - 1)) mod 2 ^ w - 2 ^ (w - 1)) mod 2 ^ w = z mod 2 ^ w.
Proof. intros Hw. rewrite Zminus_mod_idemp_l. f_equal. lia. Qed.

Create Rewrite HintDb words.
#[export] Hint Rewrite u8_id u16_id u32_id u64_id i8_id i16_id i32_id i64_id
  using lia : words.

(** Proves a decidable proposition by evaluating it. *)
Ltac decided :=
  lazymatch goal with |- ?P => apply (proj1 (bool_decide_eq_true P)); vm_compute; reflexivity end.

(** A [uint8_t]. *)
Definition is_byte (b : Z) : Prop := 0 <= b < 2 ^ 8.
#[export] Instance is_byte_dec b : Decision (is_byte b).
Proof. unfold is_byte. apply _. Defined.

(** ** Lists *)

Section filters.
Context {A : Type} (P : A -> Prop) `{!forall x, Decision (P x)}.

Lemma filter_all l : Forall P l -> filter P l = l.
Proof. induction 1; [done|]. rewrite filter_cons_True by done. congruence. Qed.

Lemma filter_none l : Forall (fun x => ~ P x) l -> filter P l = [].
Proof. induction 1; [done|]. by rewrite filter_cons_False. Qed.
End filters.
