(* ===== verification/Lists.v ===== *)
(** * util/ArrayList.h, util/LinkedList.h: lists

    Both templates have a general version, whose elements are compared with [==], and a version
    for pointers to objects, whose elements are compared with [equals].  A list is the sequence of
    its elements, a pointer to an object is the value [equals] looks at, [None] being [nullptr].
    The loops walk an iterator and a counter over the elements; the model walks the elements. *)

From S2P Require Import Prelude.
Open Scope Z_scope.

Module Loops.
Section loops.
Context {T : Type}.

(** [mList.insert(itr, value)] where the counter is at [index]. *)
Fixpoint insertAt (l : list T) (i index : Z) (value : T) : list T :=
  match l with
  | [] => []
  | x :: l => if i =? index then value :: x :: l else x :: insertAt l (i + 1) index value
  end.

(** The element at [index] and the list without it. *)
Fixpoint eraseAt (l : list T) (i index : Z) : option (T * list T) :=
  match l with
  | [] => None
  | x :: l =>
      if i =? index then Some (x, l)
      else '(y, l) ← eraseAt l (i + 1) index; Some (y, x :: l)
  end.

(** The element at [index] and the list with [value] in its place. *)
Fixpoint assignAt (l : list T) (i index : Z) (value : T) : option (T * list T) :=
  match l with
  | [] => None
  | x :: l =>
      if i =? index then Some (x, value :: l)
      else '(y, l) ← assignAt l (i + 1) index value; Some (y, x :: l)
  end.

(** The iterator at [index]; the end is not dereferenced. *)
Fixpoint walkTo {S} (l : list T) (i index : Z) : M S T :=
  match l with
  | [] => undefined
  | x :: l => if i =? index then mret x else walkTo l (i + 1) index
  end.

(** The first position whose element passes the test, or -1. *)
Fixpoint indexWhere {S} (test : T -> M S bool) (l : list T) (i : Z) : M S Z :=
  match l with
  | [] => mret (-1)
  | x :: l => b ← test x; if (b : bool) then mret i else indexWhere test l (i + 1)
  end.

(** Whether an element passes the test. *)
Fixpoint anyWhere {S} (test : T -> M S bool) (l : list T) : M S bool :=
  match l with
  | [] => mret false
  | x :: l => b ← test x; if (b : bool) then mret true else anyWhere test l
  end.

(** The list without the first element that passes the test, if one does. *)
Fixpoint eraseWhere {S} (test : T -> M S bool) (l : list T) : M S (option (list T)) :=
  match l with
  | [] => mret None
  | x :: l =>
      b ← test x;
      if (b : bool) then mret (Some l)
      else r ← eraseWhere test l; mret (cons x <$> r)
  end.
End loops.

(** [*itr == value], and [( *itr)->equals(value)]. *)
Definition same {S T} `{EqDecision T} (value x : T) : M S bool := mret (bool_decide (x = value)).
Definition equals {S T} `{EqDecision T} (value x : option T) : M S bool :=
  match x, value with
  | Some x, Some v => mret (bool_decide (x = v))
  | Some _, None => mret false
  | None, _ => undefined
  end.
End Loops.

(** ** [ArrayList<T>] *)
Module ArrayList.
Import Loops.
Section list.
Context {T : Type} `{!EqDecision T}.

(* util/ArrayList.h:180-182 ArrayList::size *)
Definition size : M (list T) Z := gets (fun l => Z.of_nat (length l)).

(* util/ArrayList.h:136-138 ArrayList::isEmpty *)
Definition isEmpty : M (list T) bool := gets (fun l => bool_decide (l = [])).

(* util/ArrayList.h:101-103 ArrayList::clear *)
Definition clear : M (list T) unit := put_state [].

(* util/ArrayList.h:76-79 ArrayList::add(value) *)
Definition add (value : T) : M (list T) bool := modify (fun l => l ++ [value]);; mret true.

(* util/ArrayList.h:81-99 ArrayList::add(index, value) *)
Definition add_at (index : Z) (value : T) : M (list T) unit :=
  n ← size;
  throw_if (n <? index) IndexOutOfBoundsException;;
  if index <? n then modify (fun l => insertAt l 0 index value) else add value;; mret tt.

(* util/ArrayList.h:105-114 ArrayList::contains *)
Definition contains (value : T) : M (list T) bool := l ← get_state; anyWhere (same value) l.

(** [mList.at(index)] *)
Definition at_ (index : Z) : M (list T) (T) :=
  l ← get_state; match l !! Z.to_nat index with Some x => mret x | None => undefined end.

(* util/ArrayList.h:116-121 ArrayList::get *)
Definition get (index : Z) : M (list T) (T) :=
  n ← size; throw_if (n <=? index) IndexOutOfBoundsException;; at_ index.

(* util/ArrayList.h:123-134 ArrayList::indexOf *)
Definition indexOf (value : T) : M (list T) Z := l ← get_state; indexWhere (same value) l 0.

(** The loop always finds the index; [return nullptr] behind it is not reached. *)
(* util/ArrayList.h:140-156 ArrayList::remove(index) *)
Definition remove_at (index : Z) : M (list T) (T) :=
  n ← size;
  throw_if (n <=? index) IndexOutOfBoundsException;;
  l ← get_state;
  match eraseAt l 0 index with
  | Some (x, l') => put_state l';; mret x
  | None => undefined
  end.

(* util/ArrayList.h:158-168 ArrayList::remove(value) *)
Definition remove (value : T) : M (list T) bool :=
  l ← get_state;
  r ← eraseWhere (same value) l;
  match r with Some l' => put_state l';; mret true | None => mret false end.

(* util/ArrayList.h:170-178 ArrayList::set *)
Definition set (index : Z) (value : T) : M (list T) (T) :=
  n ← size;
  throw_if (n <=? index) IndexOutOfBoundsException;;
  oldValue ← at_ index;
  modify (fun l => <[Z.to_nat index := value]> l);;
  mret oldValue.
End list.
End ArrayList.

(** ** [ArrayList<sp<T>>] *)
Module ObjectsArrayList.
Import Loops.
Section list.
Context {T : Type} `{!EqDecision T}.

(* util/ArrayList.h:419-421 ArrayList::size *)
Definition size : M (list (option T)) Z := gets (fun l => Z.of_nat (length l)).

(* util/ArrayList.h:372-374 ArrayList::isEmpty *)
Definition isEmpty : M (list (option T)) bool := gets (fun l => bool_decide (l = [])).

(* util/ArrayList.h:333-335 ArrayList::clear *)
Definition clear : M (list (option T)) unit := put_state [].

(* util/ArrayList.h:308-311 ArrayList::add(value) *)
Definition add (value : option T) : M (list (option T)) bool := modify (fun l => l ++ [value]);; mret true.

(* util/ArrayList.h:313-331 ArrayList::add(index, value) *)
Definition add_at (index : Z) (value : option T) : M (list (option T)) unit :=
  n ← size;
  throw_if (n <? index) IndexOutOfBoundsException;;
  if index <? n then modify (fun l => insertAt l 0 index value) else add value;; mret tt.

(* util/ArrayList.h:337-349 ArrayList::contains *)
Definition contains (value : option T) : M (list (option T)) bool :=
  match value with
  | Some _ => l ← get_state; anyWhere (equals value) l
  | None => mret false
  end.

(** [mList.at(index)] *)
Definition at_ (index : Z) : M (list (option T)) (option T) :=
  l ← get_state; match l !! Z.to_nat index with Some x => mret x | None => undefined end.

(* util/ArrayList.h:351-356 ArrayList::get *)
Definition get (index : Z) : M (list (option T)) (option T) :=
  n ← size; throw_if (n <=? index) IndexOutOfBoundsException;; at_ index.

(* util/ArrayList.h:358-370 ArrayList::indexOf *)
Definition indexOf (value : option T) : M (list (option T)) Z := l ← get_state; indexWhere (equals value) l 0.

(** The loop always finds the index; [return nullptr] behind it is not reached. *)
(* util/ArrayList.h:376-392 ArrayList::remove(index) *)
Definition remove_at (index : Z) : M (list (option T)) (option T) :=
  n ← size;
  throw_if (n <=? index) IndexOutOfBoundsException;;
  l ← get_state;
  match eraseAt l 0 index with
  | Some (x, l') => put_state l';; mret x
  | None => mret None
  end.

(* util/ArrayList.h:394-407 ArrayList::remove(value) *)
Definition remove (value : option T) : M (list (option T)) bool :=
  match value with
  | Some _ =>
      l ← get_state;
      r ← eraseWhere (equals value) l;
      match r with Some l' => put_state l';; mret true | None => mret false end
  | None => mret false
  end.

(* util/ArrayList.h:409-417 ArrayList::set *)
Definition set (index : Z) (value : option T) : M (list (option T)) (option T) :=
  n ← size;
  throw_if (n <=? index) IndexOutOfBoundsException;;
  oldValue ← at_ index;
  modify (fun l => <[Z.to_nat index := value]> l);;
  mret oldValue.
End list.
End ObjectsArrayList.

(** ** [LinkedList<T>] *)
Module LinkedList.
Import Loops.
Section list.
Context {T : Type} `{!EqDecision T}.

(* util/LinkedList.h:179-181 LinkedList::size *)
Definition size : M (list T) Z := gets (fun l => Z.of_nat (length l)).

(* util/LinkedList.h:127-129 LinkedList::isEmpty *)
Definition isEmpty : M (list T) bool := gets (fun l => bool_decide (l = [])).

(* util/LinkedList.h:83-85 LinkedList::clear *)
Definition clear : M (list T) unit := put_state [].

(* util/LinkedList.h:58-61 LinkedList::add(value) *)
Definition add (value : T) : M (list T) bool := modify (fun l => l ++ [value]);; mret true.

(* util/LinkedList.h:63-81 LinkedList::add(index, value) *)
Definition add_at (index : Z) (value : T) : M (list T) unit :=
  n ← size;
  throw_if (n <? index) IndexOutOfBoundsException;;
  if index <? n then modify (fun l => insertAt l 0 index value) else add value;; mret tt.

(* util/LinkedList.h:87-96 LinkedList::contains *)
Definition contains (value : T) : M (list T) bool := l ← get_state; anyWhere (same value) l.

(* util/LinkedList.h:98-112 LinkedList::get *)
Definition get (index : Z) : M (list T) (T) :=
  n ← size;
  throw_if (n <=? index) IndexOutOfBoundsException;;
  l ← get_state; walkTo l 0 index.

(* util/LinkedList.h:114-125 LinkedList::indexOf *)
Definition indexOf (value : T) : M (list T) Z := l ← get_state; indexWhere (same value) l 0.

(** The loop always finds the index; [return nullptr] behind it is not reached. *)
(* util/LinkedList.h:131-147 LinkedList::remove(index) *)
Definition remove_at (index : Z) : M (list T) (T) :=
  n ← size;
  throw_if (n <=? index) IndexOutOfBoundsException;;
  l ← get_state;
  match eraseAt l 0 index with
  | Some (x, l') => put_state l';; mret x
  | None => undefined
  end.

(* util/LinkedList.h:149-159 LinkedList::remove(value) *)
Definition remove (value : T) : M (list T) bool :=
  l ← get_state;
  r ← eraseWhere (same value) l;
  match r with Some l' => put_state l';; mret true | None => mret false end.

(* util/LinkedList.h:161-177 LinkedList::set *)
Definition set (index : Z) (value : T) : M (list T) (T) :=
  n ← size;
  throw_if (n <=? index) IndexOutOfBoundsException;;
  l ← get_state;
  match assignAt l 0 index value with
  | Some (x, l') => put_state l';; mret x
  | None => undefined
  end.
End list.
End LinkedList.

(** ** [LinkedList<sp<T>>] *)
Module ObjectsLinkedList.
Import Loops.
Section list.
Context {T : Type} `{!EqDecision T}.

(* util/LinkedList.h:416-418 LinkedList::size *)
Definition size : M (list (option T)) Z := gets (fun l => Z.of_nat (length l)).

(* util/LinkedList.h:361-363 LinkedList::isEmpty *)
Definition isEmpty : M (list (option T)) bool := gets (fun l => bool_decide (l = [])).

(* util/LinkedList.h:313-315 LinkedList::clear *)
Definition clear : M (list (option T)) unit := put_state [].

(* util/LinkedList.h:288-291 LinkedList::add(value) *)
Definition add (value : option T) : M (list (option T)) bool := modify (fun l => l ++ [value]);; mret true.

(* util/LinkedList.h:293-311 LinkedList::add(index, value) *)
Definition add_at (index : Z) (value : option T) : M (list (option T)) unit :=
  n ← size;
  throw_if (n <? index) IndexOutOfBoundsException;;
  if index <? n then modify (fun l => insertAt l 0 index value) else add value;; mret tt.

(* util/LinkedList.h:317-329 LinkedList::contains *)
Definition contains (value : option T) : M (list (option T)) bool :=
  match value with
  | Some _ => l ← get_state; anyWhere (equals value) l
  | None => mret false
  end.

(* util/LinkedList.h:331-345 LinkedList::get *)
Definition get (index : Z) : M (list (option T)) (option T) :=
  n ← size;
  throw_if (n <=? index) IndexOutOfBoundsException;;
  l ← get_state; walkTo l 0 index.

(* util/LinkedList.h:347-359 LinkedList::indexOf *)
Definition indexOf (value : option T) : M (list (option T)) Z := l ← get_state; indexWhere (equals value) l 0.

(** The loop always finds the index; [return nullptr] behind it is not reached. *)
(* util/LinkedList.h:365-381 LinkedList::remove(index) *)
Definition remove_at (index : Z) : M (list (option T)) (option T) :=
  n ← size;
  throw_if (n <=? index) IndexOutOfBoundsException;;
  l ← get_state;
  match eraseAt l 0 index with
  | Some (x, l') => put_state l';; mret x
  | None => mret None
  end.

(* util/LinkedList.h:383-396 LinkedList::remove(value) *)
Definition remove (value : option T) : M (list (option T)) bool :=
  match value with
  | Some _ =>
      l ← get_state;
      r ← eraseWhere (equals value) l;
      match r with Some l' => put_state l';; mret true | None => mret false end
  | None => mret false
  end.

(* util/LinkedList.h:398-414 LinkedList::set *)
Definition set (index : Z) (value : option T) : M (list (option T)) (option T) :=
  n ← size;
  throw_if (n <=? index) IndexOutOfBoundsException;;
  l ← get_state;
  match assignAt l 0 index value with
  | Some (x, l') => put_state l';; mret x
  | None => mret None
  end.
End list.
End ObjectsLinkedList.

(** ** Specification: a finite sequence

    Positions outside the list throw [IndexOutOfBoundsException]; searches find the first element
    that is equal. *)
Module ListSpec.
Import Loops.

Inductive op (E : Type) :=
  | Add (v : E)
  | AddAt (i : Z) (v : E)
  | Clear
  | Contains (v : E)
  | Get (i : Z)
  | IndexOf (v : E)
  | IsEmpty
  | RemoveAt (i : Z)
  | Remove (v : E)
  | Set_ (i : Z) (v : E)
  | Size.
Arguments Add {E} v.
Arguments AddAt {E} i v.
Arguments Clear {E}.
Arguments Contains {E} v.
Arguments Get {E} i.
Arguments IndexOf {E} v.
Arguments IsEmpty {E}.
Arguments RemoveAt {E} i.
Arguments Remove {E} v.
Arguments Set_ {E} i v.
Arguments Size {E}.

Inductive answer (E : Type) :=
  | AUnit
  | ABool (b : bool)
  | AInt (z : Z)
  | AValue (v : E).
Arguments AUnit {E}.
Arguments ABool {E} b.
Arguments AInt {E} z.
Arguments AValue {E} v.

Definition index_ok {E} (o : op E) : Prop :=
  match o with AddAt i _ | Get i | RemoveAt i | Set_ i _ => 0 <= i | _ => True end.

Section spec.
Context {T : Type} `{!EqDecision T}.

Definition runArrayList (o : op T) : M (list T) (answer T) :=
  match o with
  | Add v => b ← ArrayList.add v; mret (ABool b)
  | AddAt i v => ArrayList.add_at i v;; mret AUnit
  | Clear => ArrayList.clear;; mret AUnit
  | Contains v => b ← ArrayList.contains v; mret (ABool b)
  | Get i => x ← ArrayList.get i; mret (AValue x)
  | IndexOf v => i ← ArrayList.indexOf v; mret (AInt i)
  | IsEmpty => b ← ArrayList.isEmpty; mret (ABool b)
  | RemoveAt i => x ← ArrayList.remove_at i; mret (AValue x)
  | Remove v => b ← ArrayList.remove v; mret (ABool b)
  | Set_ i v => x ← ArrayList.set i v; mret (AValue x)
  | Size => n ← ArrayList.size; mret (AInt n)
  end.

Definition runLinkedList (o : op T) : M (list T) (answer T) :=
  match o with
  | Add v => b ← LinkedList.add v; mret (ABool b)
  | AddAt i v => LinkedList.add_at i v;; mret AUnit
  | Clear => LinkedList.clear;; mret AUnit
  | Contains v => b ← LinkedList.contains v; mret (ABool b)
  | Get i => x ← LinkedList.get i; mret (AValue x)
  | IndexOf v => i ← LinkedList.indexOf v; mret (AInt i)
  | IsEmpty => b ← LinkedList.isEmpty; mret (ABool b)
  | RemoveAt i => x ← LinkedList.remove_at i; mret (AValue x)
  | Remove v => b ← LinkedList.remove v; mret (ABool b)
  | Set_ i v => x ← LinkedList.set i v; mret (AValue x)
  | Size => n ← LinkedList.size; mret (AInt n)
  end.

Definition runObjectsArrayList (o : op (option T)) : M (list (option T)) (answer (option T)) :=
  match o with
  | Add v => b ← ObjectsArrayList.add v; mret (ABool b)
  | AddAt i v => ObjectsArrayList.add_at i v;; mret AUnit
  | Clear => ObjectsArrayList.clear;; mret AUnit
  | Contains v => b ← ObjectsArrayList.contains v; mret (ABool b)
  | Get i => x ← ObjectsArrayList.get i; mret (AValue x)
  | IndexOf v => i ← ObjectsArrayList.indexOf v; mret (AInt i)
  | IsEmpty => b ← ObjectsArrayList.isEmpty; mret (ABool b)
  | RemoveAt i => x ← ObjectsArrayList.remove_at i; mret (AValue x)
  | Remove v => b ← ObjectsArrayList.remove v; mret (ABool b)
  | Set_ i v => x ← ObjectsArrayList.set i v; mret (AValue x)
  | Size => n ← ObjectsArrayList.size; mret (AInt n)
  end.

Definition runObjectsLinkedList (o : op (option T)) : M (list (option T)) (answer (option T)) :=
  match o with
  | Add v => b ← ObjectsLinkedList.add v; mret (ABool b)
  | AddAt i v => ObjectsLinkedList.add_at i v;; mret AUnit
  | Clear => ObjectsLinkedList.clear;; mret AUnit
  | Contains v => b ← ObjectsLinkedList.contains v; mret (ABool b)
  | Get i => x ← ObjectsLinkedList.get i; mret (AValue x)
  | IndexOf v => i ← ObjectsLinkedList.indexOf v; mret (AInt i)
  | IsEmpty => b ← ObjectsLinkedList.isEmpty; mret (ABool b)
  | RemoveAt i => x ← ObjectsLinkedList.remove_at i; mret (AValue x)
  | Remove v => b ← ObjectsLinkedList.remove v; mret (ABool b)
  | Set_ i v => x ← ObjectsLinkedList.set i v; mret (AValue x)
  | Size => n ← ObjectsLinkedList.size; mret (AInt n)
  end.

Fixpoint first (v : T) (l : list T) : option nat :=
  match l with
  | [] => None
  | x :: l => if bool_decide (x = v) then Some 0%nat else S <$> first v l
  end.

Definition spec (o : op T) (l : list T) : result (answer T) * list T :=
  match o with
  | Add v => (Ok (ABool true), l ++ [v])
  | AddAt i v =>
      if Z.of_nat (length l) <? i then (Throw IndexOutOfBoundsException, l)
      else (Ok AUnit, take (Z.to_nat i) l ++ v :: drop (Z.to_nat i) l)
  | Clear => (Ok AUnit, [])
  | Contains v => (Ok (ABool (bool_decide (v ∈ l))), l)
  | Get i =>
      match l !! Z.to_nat i with
      | Some x => (Ok (AValue x), l)
      | None => (Throw IndexOutOfBoundsException, l)
      end
  | IndexOf v => (Ok (AInt match first v l with Some n => Z.of_nat n | None => -1 end), l)
  | IsEmpty => (Ok (ABool (bool_decide (l = []))), l)
  | RemoveAt i =>
      match l !! Z.to_nat i with
      | Some x => (Ok (AValue x), delete (Z.to_nat i) l)
      | None => (Throw IndexOutOfBoundsException, l)
      end
  | Remove v =>
      match first v l with
      | Some n => (Ok (ABool true), delete n l)
      | None => (Ok (ABool false), l)
      end
  | Set_ i v =>
      match l !! Z.to_nat i with
      | Some x => (Ok (AValue x), <[Z.to_nat i := v]> l)
      | None => (Throw IndexOutOfBoundsException, l)
      end
  | Size => (Ok (AInt (Z.of_nat (length l))), l)
  end.
End spec.

(** *** The loops *)

Section loops.
Context {E : Type}.

Lemma insertAt_eq (l : list E) : forall i n v,
  (n < length l)%nat -> insertAt l i (i + Z.of_nat n) v = take n l ++ v :: drop n l.
Proof.
  induction l as [|x l IH]; intros i n v Hn; [cbn in Hn; lia|]. cbn [insertAt].
  destruct n as [|n]; [by rewrite Z.add_0_r, Z.eqb_refl|].
  rewrite (proj2 (Z.eqb_neq _ _)) by lia. cbn [take drop app]. f_equal.
  replace (i + Z.of_nat (S n)) with (i + 1 + Z.of_nat n) by lia. apply IH. cbn in Hn. lia.
Qed.

Lemma eraseAt_eq (l : list E) : forall i n x,
  l !! n = Some x -> eraseAt l i (i + Z.of_nat n) = Some (x, delete n l).
Proof.
  induction l as [|y l IH]; intros i n x Hx; [done|]. cbn [eraseAt].
  destruct n as [|n]; [injection Hx as ->; by rewrite Z.add_0_r, Z.eqb_refl|].
  rewrite (proj2 (Z.eqb_neq _ _)) by lia.
  replace (i + Z.of_nat (S n)) with (i + 1 + Z.of_nat n) by lia. by rewrite (IH _ _ _ Hx).
Qed.

Lemma assignAt_eq (l : list E) v : forall i n x,
  l !! n = Some x -> assignAt l i (i + Z.of_nat n) v = Some (x, <[n := v]> l).
Proof.
  induction l as [|y l IH]; intros i n x Hx; [done|]. cbn [assignAt].
  destruct n as [|n]; [injection Hx as ->; by rewrite Z.add_0_r, Z.eqb_refl|].
  rewrite (proj2 (Z.eqb_neq _ _)) by lia.
  replace (i + Z.of_nat (S n)) with (i + 1 + Z.of_nat n) by lia. by rewrite (IH _ _ _ Hx).
Qed.

Lemma walkTo_eq {S'} (l : list E) (s : S') : forall i n x,
  l !! n = Some x -> walkTo l i (i + Z.of_nat n) s = (Ok x, s).
Proof.
  induction l as [|y l IH]; intros i n x Hx; [done|]. cbn [walkTo].
  destruct n as [|n]; [injection Hx as ->; by rewrite Z.add_0_r, Z.eqb_refl|].
  rewrite (proj2 (Z.eqb_neq _ _)) by lia.
  replace (i + Z.of_nat (S n)) with (i + 1 + Z.of_nat n) by lia. by apply IH.
Qed.
End loops.

Section search.
Context {T : Type} `{!EqDecision T}.

(** A test that decides equality with [v] on the elements [f x] of the list. *)
Lemma anyWhere_eq {E S'} (f : T -> E) (test : E -> M S' bool) v (s : S') l :
  (forall x, test (f x) s = (Ok (bool_decide (x = v)), s)) ->
  anyWhere test (f <$> l) s = (Ok (bool_decide (v ∈ l)), s).
Proof.
  intros Ht. induction l as [|x l IH]; [done|]. rewrite fmap_cons. cbn [anyWhere].
  rewrite (bind_Ok _ _ _ _ _ (Ht x)). destruct (decide (x = v)) as [->|Hne].
  - rewrite !bool_decide_eq_true_2 by (done || constructor). done.
  - rewrite bool_decide_eq_false_2, IH by done. do 2 f_equal. apply bool_decide_ext.
    rewrite elem_of_cons. naive_solver.
Qed.

Lemma indexWhere_eq {E S'} (f : T -> E) (test : E -> M S' bool) v (s : S') l : forall i,
  (forall x, test (f x) s = (Ok (bool_decide (x = v)), s)) ->
  indexWhere test (f <$> l) i s =
    (Ok (match first v l with Some n => i + Z.of_nat n | None => -1 end), s).
Proof.
  intros i Ht. revert i. induction l as [|x l IH]; intros i; [done|]. rewrite fmap_cons.
  cbn [indexWhere first]. rewrite (bind_Ok _ _ _ _ _ (Ht x)). case_bool_decide.
  - by rewrite Z.add_0_r.
  - rewrite IH. destruct (first v l) as [n|]; [|done]. cbn. do 2 f_equal. lia.
Qed.

Lemma eraseWhere_eq {E S'} (f : T -> E) (test : E -> M S' bool) v (s : S') l :
  (forall x, test (f x) s = (Ok (bool_decide (x = v)), s)) ->
  eraseWhere test (f <$> l) s =
    (Ok ((fun n => f <$> delete n l) <$> first v l), s).
Proof.
  intros Ht. induction l as [|x l IH]; [done|]. rewrite fmap_cons. cbn [eraseWhere first].
  rewrite (bind_Ok _ _ _ _ _ (Ht x)). case_bool_decide; [done|].
  rewrite (bind_Ok _ _ _ _ _ IH). by destruct (first v l).
Qed.

Lemma same_ok {S'} (v : T) (s : S') x : same v (id x) s = (Ok (bool_decide (x = v)), s).
Proof. done. Qed.

Lemma equals_ok {S'} (v : T) (s : S') x : equals (Some v) (Some x) s = (Ok (bool_decide (x = v)), s).
Proof. done. Qed.

(** A null element met by the search is dereferenced. *)
Lemma anyWhere_null {S'} (v : T) (s : S') l1 l2 :
  v ∉ l1 -> anyWhere (equals (Some v)) ((Some <$> l1) ++ None :: l2) s = (Undef, s).
Proof.
  induction l1 as [|x l IH]; intros Hv; [done|]. rewrite fmap_cons. cbn [app anyWhere].
  rewrite (bind_Ok _ _ _ _ _ (equals_ok v s x)). apply not_elem_of_cons in Hv as [Hne Hv].
  rewrite bool_decide_eq_false_2 by done. by apply IH.
Qed.

Lemma indexWhere_null {S'} (v : T) (s : S') l1 l2 i :
  v ∉ l1 -> indexWhere (equals (Some v)) ((Some <$> l1) ++ None :: l2) i s = (Undef, s).
Proof.
  revert i. induction l1 as [|x l IH]; intros i Hv; [done|]. rewrite fmap_cons. cbn [app indexWhere].
  rewrite (bind_Ok _ _ _ _ _ (equals_ok v s x)). apply not_elem_of_cons in Hv as [Hne Hv].
  rewrite bool_decide_eq_false_2 by done. by apply IH.
Qed.

Lemma eraseWhere_null {S'} (v : T) (s : S') l1 l2 :
  v ∉ l1 -> eraseWhere (equals (Some v)) ((Some <$> l1) ++ None :: l2) s = (Undef, s).
Proof.
  induction l1 as [|x l IH]; intros Hv; [done|]. rewrite fmap_cons. cbn [app eraseWhere].
  rewrite (bind_Ok _ _ _ _ _ (equals_ok v s x)). apply not_elem_of_cons in Hv as [Hne Hv].
  rewrite bool_decide_eq_false_2 by done. exact (bind_Undef _ _ _ _ (IH Hv)).
Qed.
End search.

(** *** Positions *)

Section positions.
Context {E : Type}.

(** What an operation at [i] does: [f] at a position of the list, else it throws. *)
Lemma at_position {A} (l : list E) (i : Z) (m : M (list E) A) r :
  0 <= i -> (forall x, l !! Z.to_nat i = Some x -> m l = r x) ->
  (n ← gets (fun l => Z.of_nat (length l)); throw_if (n <=? i) IndexOutOfBoundsException;; m) l =
  match l !! Z.to_nat i with Some x => r x | None => (Throw IndexOutOfBoundsException, l) end.
Proof.
  intros Hi Hm. rewrite bind_gets. destruct (Z.leb_spec (Z.of_nat (length l)) i) as [Hle|Hgt].
  - rewrite throw_if_true by done. by rewrite lookup_ge_None_2 by lia.
  - rewrite throw_if_false by done.
    destruct (lookup_lt_is_Some_2 l (Z.to_nat i)) as [x Hx]; [lia|]. rewrite Hx. by apply Hm.
Qed.

Lemma insert_position (l : list E) (i : Z) v :
  0 <= i < Z.of_nat (length l) -> insertAt l 0 i v = take (Z.to_nat i) l ++ v :: drop (Z.to_nat i) l.
Proof.
  intros Hi. rewrite <- (insertAt_eq l 0 (Z.to_nat i) v) by lia. f_equal. lia.
Qed.

Lemma erase_position (l : list E) (i : Z) x :
  0 <= i -> l !! Z.to_nat i = Some x -> eraseAt l 0 i = Some (x, delete (Z.to_nat i) l).
Proof. intros Hi Hx. rewrite <- (eraseAt_eq l 0 _ x Hx). f_equal. lia. Qed.

Lemma assign_position (l : list E) (i : Z) v x :
  0 <= i -> l !! Z.to_nat i = Some x -> assignAt l 0 i v = Some (x, <[Z.to_nat i := v]> l).
Proof. intros Hi Hx. rewrite <- (assignAt_eq l v 0 _ x Hx). f_equal. lia. Qed.

Lemma walk_position {S'} (l : list E) (s : S') (i : Z) x :
  0 <= i -> l !! Z.to_nat i = Some x -> walkTo l 0 i s = (Ok x, s).
Proof. intros Hi Hx. rewrite <- (walkTo_eq l s 0 _ x Hx). f_equal. lia. Qed.

Lemma add_position (l : list E) (i : Z) v (add : M (list E) bool) :
  0 <= i -> add l = (Ok true, l ++ [v]) ->
  (n ← gets (fun l => Z.of_nat (length l)); throw_if (n <? i) IndexOutOfBoundsException;;
   if i <? n then modify (fun l => insertAt l 0 i v) else add;; mret tt) l =
  if Z.of_nat (length l) <? i then (Throw IndexOutOfBoundsException, l)
  else (Ok tt, take (Z.to_nat i) l ++ v :: drop (Z.to_nat i) l).
Proof.
  intros Hi Hadd. rewrite bind_gets. destruct (Z.ltb_spec (Z.of_nat (length l)) i) as [Hlt|Hge].
  - by rewrite throw_if_true.
  - rewrite throw_if_false by done. destruct (Z.ltb_spec i (Z.of_nat (length l))).
    + unfold modify. by rewrite insert_position by lia.
    + rewrite (bind_Ok _ _ _ _ _ Hadd). by rewrite take_ge, drop_ge by lia.
Qed.
End positions.

(** *** Each list implements the sequence *)

Section refine.
Context {T : Type} `{!EqDecision T}.

(** A call whose answer is the value at a position. *)
Lemma value_at {E} (m : M (list E) E) (l : list E) i (f : E -> list E) :
  m l = match l !! Z.to_nat i with
        | Some x => (Ok x, f x) | None => (Throw IndexOutOfBoundsException, l) end ->
  (x ← m; mret (AValue x)) l =
    match l !! Z.to_nat i with
    | Some x => (Ok (AValue x), f x) | None => (Throw IndexOutOfBoundsException, l) end.
Proof. intros Hm. unfold mbind, M_bind. rewrite Hm. by destruct (l !! Z.to_nat i). Qed.

Lemma added_at {E} (m : M (list E) unit) (l l' : list E) (b : bool) :
  m l = (if b then (Throw IndexOutOfBoundsException, l) else (Ok tt, l')) ->
  (m;; mret AUnit) l = if b then (Throw IndexOutOfBoundsException, l) else (Ok (AUnit (E := E)), l').
Proof. intros Hm. unfold mbind, M_bind. rewrite Hm. by destruct b. Qed.

Lemma array_at {E} (l : list E) i x : l !! Z.to_nat i = Some x ->
  (l0 ← get_state; match l0 !! Z.to_nat i with Some x => mret x | None => undefined end) l = (Ok x, l).
Proof. intros Hx. change (match l !! Z.to_nat i with Some x => mret x | None => undefined end l = (Ok x, l)). by rewrite Hx. Qed.

Lemma first_elem (v : T) l : first v l = None <-> v ∉ l.
Proof.
  induction l as [|x l IH]; cbn [first]; [split; [intros _; apply not_elem_of_nil|done]|].
  rewrite not_elem_of_cons. case_bool_decide; [naive_solver|].
  rewrite fmap_None, IH. naive_solver.
Qed.

Lemma search_same (v : T) (l : list T) :
  anyWhere (same v) l l = (Ok (bool_decide (v ∈ l)), l) /\
  indexWhere (same v) l 0 l = (Ok (match first v l with Some n => Z.of_nat n | None => -1 end), l) /\
  eraseWhere (same v) l l = (Ok ((fun n => delete n l) <$> first v l), l).
Proof.
  split; [|split].
  - rewrite <- (list_fmap_id l) at 1. by apply (anyWhere_eq id).
  - rewrite <- (list_fmap_id l) at 1. rewrite (indexWhere_eq id) with (v := v) by done.
    by destruct (first v l).
  - rewrite <- (list_fmap_id l) at 1. rewrite (eraseWhere_eq id) with (v := v) by done.
    do 2 f_equal. destruct (first v l); cbn; [|done]. f_equal. apply list_fmap_id.
Qed.

(** the array list and the linked list are the same finite sequence: every
    operation of both gives the answer, the exception and the new contents of the
    specification. *)
Theorem lists_refine (o : op T) (l : list T) :
  index_ok o -> runArrayList o l = spec o l /\ runLinkedList o l = spec o l.
Proof.
  intros Hi. destruct o as [v|i v| |v|i|v| |i|v|i v|]; cbn [index_ok] in Hi.
  - by split.
  - split; (apply added_at; apply add_position; [done|reflexivity]).
  - by split.
  - destruct (search_same v l) as (Hc & _ & _).
    split; exact (eq_trans (bind_Ok _ _ _ _ _ Hc) eq_refl).
  - split; apply (value_at _ l i (fun _ => l)); apply (at_position l i _ (fun x => (Ok x, l)) Hi);
      intros x Hx; [by apply array_at|]. exact (walk_position l l i x Hi Hx).
  - destruct (search_same v l) as (_ & Hc & _).
    split; exact (eq_trans (bind_Ok _ _ _ _ _ Hc) eq_refl).
  - by split.
  - split; apply (value_at _ l i (fun _ => delete (Z.to_nat i) l));
      apply (at_position l i _ (fun x => (Ok x, delete (Z.to_nat i) l)) Hi);
      intros x Hx; unfold mbind at 1, M_bind, get_state; by rewrite (erase_position l i x Hi Hx).
  - destruct (search_same v l) as (_ & _ & Hc). cbn [spec].
    split; [unfold runArrayList, ArrayList.remove|unfold runLinkedList, LinkedList.remove];
      unfold mbind, M_bind, get_state; rewrite Hc; by destruct (first v l).
  - split; apply (value_at _ l i (fun _ => <[Z.to_nat i := v]> l));
      apply (at_position l i _ (fun x => (Ok x, <[Z.to_nat i := v]> l)) Hi); intros x Hx.
    + by rewrite (bind_Ok _ _ _ _ _ (array_at l i x Hx)).
    + unfold mbind at 1, M_bind, get_state. by rewrite (assign_position l i v x Hi Hx).
  - by split.
Qed.

(** The lists of pointers without a null element behave in the same way. *)

Definition some_op (o : op T) : op (option T) :=
  match o with
  | Add v => Add (Some v)
  | AddAt i v => AddAt i (Some v)
  | Clear => Clear
  | Contains v => Contains (Some v)
  | Get i => Get i
  | IndexOf v => IndexOf (Some v)
  | IsEmpty => IsEmpty
  | RemoveAt i => RemoveAt i
  | Remove v => Remove (Some v)
  | Set_ i v => Set_ i (Some v)
  | Size => Size
  end.

Definition some_answer (r : result (answer T) * list T) : result (answer (option T)) * list (option T) :=
  (match fst r with
   | Ok AUnit => Ok AUnit
   | Ok (ABool b) => Ok (ABool b)
   | Ok (AInt z) => Ok (AInt z)
   | Ok (AValue v) => Ok (AValue (Some v))
   | Throw e => Throw e
   | Undef => Undef
   | Diverge => Diverge
   end, Some <$> snd r).

Lemma search_equals (v : T) (l : list T) (s := Some <$> l) :
  anyWhere (equals (Some v)) s s = (Ok (bool_decide (v ∈ l)), s) /\
  indexWhere (equals (Some v)) s 0 s = (Ok (match first v l with Some n => Z.of_nat n | None => -1 end), s) /\
  eraseWhere (equals (Some v)) s s = (Ok ((fun n => Some <$> delete n l) <$> first v l), s).
Proof.
  split; [by apply (anyWhere_eq Some)|split; [|by apply (eraseWhere_eq Some)]].
  unfold s at 1. rewrite (indexWhere_eq Some) with (v := v) by done. by destruct (first v l).
Qed.

Lemma some_value (l : list T) i (f : T -> list T) (f' : option T -> list (option T)) :
  (forall x, l !! i = Some x -> f' (Some x) = Some <$> f x) ->
  match (Some <$> l) !! i with
  | Some x => (Ok (AValue x), f' x) | None => (Throw IndexOutOfBoundsException, Some <$> l) end =
  some_answer match l !! i with
    | Some x => (Ok (AValue x), f x) | None => (Throw IndexOutOfBoundsException, l) end.
Proof.
  intros Hf. rewrite list_lookup_fmap. destruct (l !! i) as [x|] eqn:Hx; [|done].
  cbn. unfold some_answer. cbn. by rewrite (Hf x eq_refl).
Qed.

Lemma fmap_delete {A B} (f : A -> B) (l : list A) i : f <$> delete i l = delete i (f <$> l).
Proof. revert i. induction l as [|x l IH]; intros [|i]; [done..|]. cbn. f_equal. apply IH. Qed.

(** a list of pointers that holds no null pointer is the same finite sequence
    under [equals].  A null element makes every search that reaches it dereference a null
    pointer; looking for a null pointer is not guarded in [indexOf] as it is in [contains] and
    [remove]. *)
Theorem objects_refine :
  (forall (o : op T) (l : list T), index_ok o ->
    runObjectsArrayList (some_op o) (Some <$> l) = some_answer (spec o l) /\
    runObjectsLinkedList (some_op o) (Some <$> l) = some_answer (spec o l)) /\
  (forall (v : T) l1 l2 (l := (Some <$> l1) ++ None :: l2), v ∉ l1 ->
    ObjectsArrayList.contains (Some v) l = (Undef, l) /\
    ObjectsArrayList.indexOf (Some v) l = (Undef, l) /\
    ObjectsArrayList.remove (Some v) l = (Undef, l) /\
    ObjectsLinkedList.contains (Some v) l = (Undef, l) /\
    ObjectsLinkedList.indexOf (Some v) l = (Undef, l) /\
    ObjectsLinkedList.remove (Some v) l = (Undef, l)).
Proof.
  split.
  - intros o l Hi. destruct o as [v|i v| |v|i|v| |i|v|i v|]; cbn [index_ok] in Hi; cbn [some_op spec].
    + split; unfold some_answer; cbn; by rewrite fmap_app.
    + assert (forall b : bool, (if b then (Throw IndexOutOfBoundsException, Some <$> l)
        else (Ok (AUnit (E := option T)), take (Z.to_nat i) (Some <$> l) ++ Some v :: drop (Z.to_nat i) (Some <$> l))) =
        some_answer (if b then (Throw IndexOutOfBoundsException, l)
          else (Ok AUnit, take (Z.to_nat i) l ++ v :: drop (Z.to_nat i) l))) as E.
      { intros []; [done|]. unfold some_answer. cbn. by rewrite fmap_app, fmap_cons, fmap_take, fmap_drop. }
      rewrite <- E. replace (length l) with (length (Some <$> l)) by apply length_fmap.
      split; (apply added_at; apply add_position; [done|reflexivity]).
    + by split.
    + destruct (search_equals v l) as (Hc & _ & _).
      split; exact (eq_trans (bind_Ok _ _ _ _ _ Hc) eq_refl).
    + rewrite <- (some_value l (Z.to_nat i) (fun _ => l) (fun _ => Some <$> l)) by done.
      split; apply (value_at _ (Some <$> l) i (fun _ => Some <$> l));
        apply (at_position (Some <$> l) i _ (fun x => (Ok x, Some <$> l)) Hi);
        intros x Hx; [by apply array_at|]. exact (walk_position _ _ i x Hi Hx).
    + destruct (search_equals v l) as (_ & Hc & _).
      split; exact (eq_trans (bind_Ok _ _ _ _ _ Hc) eq_refl).
    + split; by destruct l.
    + rewrite <- (some_value l (Z.to_nat i) (fun _ => delete (Z.to_nat i) l) (fun _ => delete (Z.to_nat i) (Some <$> l)))
        by (intros; by rewrite fmap_delete).
      split; apply (value_at _ (Some <$> l) i (fun _ => delete (Z.to_nat i) (Some <$> l)));
        apply (at_position (Some <$> l) i _ (fun x => (Ok x, delete (Z.to_nat i) (Some <$> l))) Hi);
        intros x Hx; unfold mbind at 1, M_bind, get_state; by rewrite (erase_position _ i x Hi Hx).
    + destruct (search_equals v l) as (_ & _ & Hc).
      split; [unfold runObjectsArrayList, ObjectsArrayList.remove|
          unfold runObjectsLinkedList, ObjectsLinkedList.remove];
        unfold mbind, M_bind, get_state; rewrite Hc; unfold some_answer; by destruct (first v l).
    + rewrite <- (some_value l (Z.to_nat i) (fun _ => <[Z.to_nat i := v]> l) (fun _ => <[Z.to_nat i := Some v]> (Some <$> l)))
        by (intros; by rewrite list_fmap_insert).
      split; apply (value_at _ (Some <$> l) i (fun _ => <[Z.to_nat i := Some v]> (Some <$> l)));
        apply (at_position (Some <$> l) i _ (fun x => (Ok x, <[Z.to_nat i := Some v]> (Some <$> l))) Hi);
        intros x Hx.
      * by rewrite (bind_Ok _ _ _ _ _ (array_at _ i x Hx)).
      * unfold mbind at 1, M_bind, get_state. by rewrite (assign_position _ i (Some v) x Hi Hx).
    + split; exact (f_equal (fun n => (Ok (AInt (Z.of_nat n)), Some <$> l)) (length_fmap Some l)).
  - intros v l1 l2 l Hv. pose proof (anyWhere_null v l l1 l2 Hv) as Ha.
    pose proof (indexWhere_null v l l1 l2 0 Hv) as Hx. pose proof (eraseWhere_null v l l1 l2 Hv) as He.
    repeat split; unfold ObjectsArrayList.contains, ObjectsLinkedList.contains, ObjectsArrayList.indexOf,
      ObjectsLinkedList.indexOf, ObjectsArrayList.remove, ObjectsLinkedList.remove.
    1, 4: exact Ha.
    1, 3: exact Hx.
    all: exact (bind_Undef _ _ _ _ He).
Qed.
End refine.

Lemma lists_refine_witness :
  runArrayList (AddAt 1 9) [4; 5] = (Ok AUnit, [4; 9; 5]) /\
  runLinkedList (AddAt 1 9) [4; 5] = (Ok AUnit, [4; 9; 5]).
Proof. apply (lists_refine (AddAt 1 9) [4; 5]). cbn. lia. Defined.

Lemma objects_refine_witness :
  runObjectsArrayList (Get 1) [Some 4; Some 5] = (Ok (AValue (Some 5)), [Some 4; Some 5]) /\
  ObjectsArrayList.indexOf (Some 5) [Some 4; None; Some 5] = (Undef, [Some 4; None; Some 5]).
Proof.
  destruct (objects_refine (T := Z)) as [Hop Hnull]. split.
  - apply (Hop (Get 1) [4; 5]). cbn. lia.
  - apply (Hnull 5 [4] [Some 5]). intros H. apply list_elem_of_singleton in H. lia.
Defined.
End ListSpec.
