(* ===== verification/HashMaps.v ===== *)
(** * util/HashMap.h: the hash maps of mindroid objects

    [HashMap<sp<K>, sp<V>>] wraps [std::unordered_map] with [K::hashCode] and [K::equals].  A key
    object is modelled by its value (the equality [equals] decides), a value by the pointer the
    map stores, [None] being [nullptr].  Both a lookup and an insertion hash the key, so a null
    key is a null dereference.  The iteration order of [std::unordered_map] is unspecified: the
    model takes it from the class [IterationOrder] and the theorems hold for every order. *)

From S2P Require Import Prelude.
From stdpp Require Import gmap fin_maps.

(** The order in which a map's entries are visited: any permutation of the entries. *)
Class IterationOrder (K V : Type) `{Countable K} := {
  entries : gmap K V -> list (K * V);
  entries_perm : forall m, entries m ≡ₚ map_to_list m;
}.

#[export] Instance default_order K V `{Countable K} : IterationOrder K V | 100 :=
  {| entries := map_to_list; entries_perm := fun m => reflexivity (map_to_list m) |}.

(** ** Iterators

    The iterators of every container of the library share one protocol: [mForwardIterator] says
    whether [next] has already delivered the element [mIterator] stands at.  The model keeps the
    elements from [mIterator] to the end; [erase] drops the first of them. *)
Module Iterator.
Section iterator.
Context {E : Type}.

Record Iterator := mkIterator {
  mForwardIterator : bool;
  mIterator : list E;
}.

(* util/HashMap.h:813-817 Iterator::Iterator *)
Definition iterator (l : list E) : Iterator :=
  {| mForwardIterator := false; mIterator := l |}.

(* util/HashMap.h:828-835 Iterator::hasNext *)
Definition hasNext (i : Iterator) : bool :=
  if negb (mForwardIterator i) then negb (bool_decide (length (mIterator i) = 0%nat))
  else negb (bool_decide (length (tail (mIterator i)) = 0%nat)).

(* util/HashMap.h:837-845 Iterator::next *)
Definition next : M Iterator E :=
  i ← get_state;
  (if negb (mForwardIterator i)
   then put_state (mkIterator true (mIterator i))
   else put_state (mkIterator true (tail (mIterator i))));;
  j ← get_state;
  match mIterator j with
  | e :: _ => mret e
  | [] => undefined
  end.

(** [remove] tells the container which element goes: the one [next] delivered last. *)
(* util/HashMap.h:847-854 Iterator::remove *)
Definition remove : M Iterator (option E) :=
  i ← get_state;
  if mForwardIterator i then
    match mIterator i with
    | e :: l => put_state (mkIterator false l);; mret (Some e)
    | [] => undefined
    end
  else mret None.
End iterator.
Arguments Iterator : clear implicits.
End Iterator.

(** ** [HashMap<sp<K>, sp<V>>] *)
Module HashMap.
Section hash_map.
Context {K V : Type} `{Countable K} `{!IterationOrder K (option V)}.

(** [mMap.find(key)]: [None] is [mMap.end()]. *)
Definition find (key : option K) : M (gmap K (option V)) (option (option V)) :=
  match key with
  | Some k => gets (fun m => m !! k)
  | None => undefined
  end.

(* util/HashMap.h:690-692 HashMap::clear *)
Definition clear : M (gmap K (option V)) unit := put_state ∅.

(* util/HashMap.h:694-700 HashMap::containsKey *)
Definition containsKey (key : option K) : M (gmap K (option V)) bool :=
  match key with
  | Some _ => itr ← find key; mret (bool_decide (is_Some itr))
  | None => mret false
  end.

(* util/HashMap.h:713-720 HashMap::get *)
Definition get (key : option K) : M (gmap K (option V)) (option V) :=
  itr ← find key;
  match itr with
  | Some second => mret second
  | None => mret None
  end.

(* util/HashMap.h:722-724 HashMap::isEmpty *)
Definition isEmpty : M (gmap K (option V)) bool := gets (fun m => bool_decide (m = ∅)).

(** [mMap[key] = value] *)
Definition assign (key : option K) (value : option V) : M (gmap K (option V)) unit :=
  match key with
  | Some k => modify (fun m => <[k := value]> m)
  | None => undefined
  end.

(* util/HashMap.h:736-745 HashMap::put *)
Definition put (key : option K) (value : option V) : M (gmap K (option V)) (option V) :=
  itr ← find key;
  let oldValue := match itr with Some second => second | None => None end in
  assign key value;;
  mret oldValue.

Fixpoint putEntries (l : list (K * option V)) : M (gmap K (option V)) unit :=
  match l with
  | [] => mret tt
  | (k, v) :: l' => put (Some k) v;; putEntries l'
  end.

(* util/HashMap.h:747-753 HashMap::putAll *)
Definition putAll (map : gmap K (option V)) : M (gmap K (option V)) unit :=
  putEntries (entries map).

(* util/HashMap.h:755-764 HashMap::remove *)
Definition remove (key : option K) : M (gmap K (option V)) (option V) :=
  itr ← find key;
  let oldValue := match itr with Some second => second | None => None end in
  match key with
  | Some k => modify (fun m => delete k m)
  | None => undefined
  end;;
  mret oldValue.

(* util/HashMap.h:766-768 HashMap::size *)
Definition size : M (gmap K (option V)) nat := gets base.size.

(* util/HashMap.h:726-734 HashMap::keySet *)
Definition keySet : M (gmap K (option V)) (gset K) :=
  gets (fun m => foldl (fun keys entry => {[entry.1]} ∪ keys) ∅ (entries m)).

(* util/HashMap.h:770-778 HashMap::values *)
Definition values : M (gmap K (option V)) (list (option V)) :=
  gets (fun m => foldl (fun values entry => values ++ [entry.2]) [] (entries m)).

(** *** Lemmas *)

Lemma find_eq k m : find (Some k) m = (Ok (m !! k), m).
Proof. reflexivity. Qed.

Lemma lookup_eq k m : get (Some k) m = (Ok (m !! k ≫= id), m).
Proof. unfold get. mstep (find_eq k m). by destruct (m !! k). Qed.

Lemma put_eq k v m : put (Some k) v m = (Ok (m !! k ≫= id), <[k := v]> m).
Proof. unfold put. mstep (find_eq k m). by destruct (m !! k). Qed.

Lemma remove_eq k m : remove (Some k) m = (Ok (m !! k ≫= id), delete k m).
Proof. unfold remove. mstep (find_eq k m). by destruct (m !! k). Qed.

Lemma putEntries_eq l m :
  NoDup l.*1 -> putEntries l m = (Ok tt, list_to_map l ∪ m).
Proof.
  revert m; induction l as [|[k v] l IH]; intros m Hnd; simpl.
  - by rewrite (left_id_L ∅ (∪)).
  - apply NoDup_cons in Hnd as [Hk Hnd].
    rewrite (bind_Ok _ _ _ _ _ (put_eq k v m)), IH by done.
    f_equal. rewrite <- insert_union_l. symmetry.
    apply insert_union_r. by apply not_elem_of_list_to_map_1.
Qed.

(** [putAll] gives the same map whatever the iteration order: the entries of the argument win. *)
Lemma putAll_eq map m : putAll map m = (Ok tt, map ∪ m).
Proof.
  unfold putAll.
  assert (NoDup (entries map).*1) as Hnd.
  { eapply NoDup_Permutation_proper; [by rewrite entries_perm|]. apply NoDup_fst_map_to_list. }
  rewrite putEntries_eq by done. f_equal.
  rewrite (list_to_map_proper _ (map_to_list map)); [by rewrite list_to_map_to_list|done|].
  apply entries_perm.
Qed.

Lemma keySet_eq m : keySet m = (Ok (dom m), m).
Proof.
  unfold keySet, gets. do 2 f_equal.
  assert (forall (l : list (K * option V)) (acc : gset K),
    foldl (fun keys e => {[e.1]} ∪ keys) acc l = list_to_set l.*1 ∪ acc) as Hf.
  { induction l as [|e l IH]; intros acc; simpl; [by rewrite (left_id_L ∅ (∪))|].
    rewrite IH. rewrite !(assoc_L (∪)). by rewrite (comm_L (∪) {[e.1]} (list_to_set _)). }
  rewrite Hf, (right_id_L ∅ (∪)). apply set_eq. intros x.
  rewrite elem_of_list_to_set, entries_perm, elem_of_dom, list_elem_of_fmap.
  split.
  - intros ([k v] & -> & Hin%elem_of_map_to_list). by exists v.
  - intros [v Hv]. exists (x, v). by rewrite elem_of_map_to_list.
Qed.
End hash_map.
End HashMap.
