(* ===== verification/Bundles.v ===== *)
(** * util/Variant.h, os/Bundle.cpp: tagged values and bundles

    [Variant] is the tagged union; its getters read the union, so a getter called on another tag
    is undefined.  [Bundle] owns a [HashMap<sp<String>, sp<Variant>>] through the pointer [mMap];
    the model of a bundle is that pointer ([None] is [nullptr]) with the map's contents.  Strings
    are values (a string object is immutable), other objects are references tagged with whether
    their dynamic class is [Bundle].  A [float] or [double] is its bit pattern. *)

From S2P Require Import Prelude HashMaps.
From stdpp Require Import gmap.
Open Scope Z_scope.

(** An [Object*]: the class matters only for casts to [Bundle]. *)
Inductive object :=
  | BundleObject (id : nat)
  | OtherObject (id : nat).

#[export] Instance object_eq_dec : EqDecision object.
Proof. solve_decision. Defined.

Module Variant.

(* util/Variant.h:33-53 Variant::Type, Variant::mValue *)
Inductive Variant :=
  | Null
  | Bool (b : bool)
  | Byte (z : Z)
  | Char (z : Z)
  | Short (z : Z)
  | UnsignedShort (z : Z)
  | Int (z : Z)
  | UnsignedInt (z : Z)
  | Long (z : Z)
  | UnsignedLong (z : Z)
  | Float (bits : Z)
  | Double (bits : Z)
  | String (s : option string)
  | StringSet (p : option nat)
  | StringArrayList (p : option nat)
  | IntegerArrayList (p : option nat)
  | Object (o : option object)
  | Bundle (p : option nat)
  | Binder (p : option nat).

#[export] Instance variant_eq_dec : EqDecision Variant.
Proof. solve_decision. Defined.

(* util/Variant.h:179-181 Variant::isBool *)
Definition isBool (v : Variant) : bool :=
  match v with Bool _ => true | _ => false end.

(* util/Variant.h:183-185 Variant::getBool *)
Definition getBool {S} (v : Variant) : M S (bool) :=
  match v with Bool x => mret x | _ => undefined end.

(* util/Variant.h:187-189 Variant::isByte *)
Definition isByte (v : Variant) : bool :=
  match v with Byte _ => true | _ => false end.

(* util/Variant.h:191-193 Variant::getByte *)
Definition getByte {S} (v : Variant) : M S (Z) :=
  match v with Byte x => mret x | _ => undefined end.

(* util/Variant.h:195-197 Variant::isChar *)
Definition isChar (v : Variant) : bool :=
  match v with Char _ => true | _ => false end.

(* util/Variant.h:199-201 Variant::getChar *)
Definition getChar {S} (v : Variant) : M S (Z) :=
  match v with Char x => mret x | _ => undefined end.

(* util/Variant.h:203-205 Variant::isShort *)
Definition isShort (v : Variant) : bool :=
  match v with Short _ => true | _ => false end.

(* util/Variant.h:207-209 Variant::getShort *)
Definition getShort {S} (v : Variant) : M S (Z) :=
  match v with Short x => mret x | _ => undefined end.

(* util/Variant.h:211-213 Variant::isUnsignedShort *)
Definition isUnsignedShort (v : Variant) : bool :=
  match v with UnsignedShort _ => true | _ => false end.

(* util/Variant.h:215-217 Variant::getUnsignedShort *)
Definition getUnsignedShort {S} (v : Variant) : M S (Z) :=
  match v with UnsignedShort x => mret x | _ => undefined end.

(* util/Variant.h:219-221 Variant::isInt *)
Definition isInt (v : Variant) : bool :=
  match v with Int _ => true | _ => false end.

(* util/Variant.h:223-225 Variant::getInt *)
Definition getInt {S} (v : Variant) : M S (Z) :=
  match v with Int x => mret x | _ => undefined end.

(* util/Variant.h:227-229 Variant::isUnsignedInt *)
Definition isUnsignedInt (v : Variant) : bool :=
  match v with UnsignedInt _ => true | _ => false end.

(* util/Variant.h:231-233 Variant::getUnsignedInt *)
Definition getUnsignedInt {S} (v : Variant) : M S (Z) :=
  match v with UnsignedInt x => mret x | _ => undefined end.

(* util/Variant.h:235-237 Variant::isLong *)
Definition isLong (v : Variant) : bool :=
  match v with Long _ => true | _ => false end.

(* util/Variant.h:239-241 Variant::getLong *)
Definition getLong {S} (v : Variant) : M S (Z) :=
  match v with Long x => mret x | _ => undefined end.

(* util/Variant.h:243-245 Variant::isUnsignedLong *)
Definition isUnsignedLong (v : Variant) : bool :=
  match v with UnsignedLong _ => true | _ => false end.

(* util/Variant.h:247-249 Variant::getUnsignedLong *)
Definition getUnsignedLong {S} (v : Variant) : M S (Z) :=
  match v with UnsignedLong x => mret x | _ => undefined end.

(* util/Variant.h:251-253 Variant::isFloat *)
Definition isFloat (v : Variant) : bool :=
  match v with Float _ => true | _ => false end.

(* util/Variant.h:255-257 Variant::getFloat *)
Definition getFloat {S} (v : Variant) : M S (Z) :=
  match v with Float x => mret x | _ => undefined end.

(* util/Variant.h:259-261 Variant::isDouble *)
Definition isDouble (v : Variant) : bool :=
  match v with Double _ => true | _ => false end.

(* util/Variant.h:263-265 Variant::getDouble *)
Definition getDouble {S} (v : Variant) : M S (Z) :=
  match v with Double x => mret x | _ => undefined end.

(* util/Variant.h:267-269 Variant::isString *)
Definition isString (v : Variant) : bool :=
  match v with String _ => true | _ => false end.

(* util/Variant.h:271-273 Variant::getString *)
Definition getString {S} (v : Variant) : M S (option string) :=
  match v with String x => mret x | _ => undefined end.

(* util/Variant.h:275-277 Variant::isStringSet *)
Definition isStringSet (v : Variant) : bool :=
  match v with StringSet _ => true | _ => false end.

(* util/Variant.h:279-281 Variant::getStringSet *)
Definition getStringSet {S} (v : Variant) : M S (option nat) :=
  match v with StringSet x => mret x | _ => undefined end.

(* util/Variant.h:283-285 Variant::isStringArrayList *)
Definition isStringArrayList (v : Variant) : bool :=
  match v with StringArrayList _ => true | _ => false end.

(* util/Variant.h:287-289 Variant::getStringArrayList *)
Definition getStringArrayList {S} (v : Variant) : M S (option nat) :=
  match v with StringArrayList x => mret x | _ => undefined end.

(* util/Variant.h:291-293 Variant::isIntegerArrayList *)
Definition isIntegerArrayList (v : Variant) : bool :=
  match v with IntegerArrayList _ => true | _ => false end.

(* util/Variant.h:295-297 Variant::getIntegerArrayList *)
Definition getIntegerArrayList {S} (v : Variant) : M S (option nat) :=
  match v with IntegerArrayList x => mret x | _ => undefined end.

(* util/Variant.h:299-301 Variant::isObject *)
Definition isObject (v : Variant) : bool :=
  match v with Object _ => true | _ => false end.

(* util/Variant.h:303-305 Variant::getObject *)
Definition getObject {S} (v : Variant) : M S (option object) :=
  match v with Object x => mret x | _ => undefined end.

(* util/Variant.h:307-309 Variant::isBundle *)
Definition isBundle (v : Variant) : bool :=
  match v with Bundle _ => true | _ => false end.

(* util/Variant.h:313-315 Variant::isBinder *)
Definition isBinder (v : Variant) : bool :=
  match v with Binder _ => true | _ => false end.

(* util/Variant.h:317-323 Variant::getBinder *)
Definition getBinder {S} (v : Variant) : M S (option nat) :=
  match v with Binder p => mret p | _ => mret None end.

(* util/Variant.h:333-347 Variant::isBasicType *)
Definition isBasicType (v : Variant) : bool :=
  match v with
  | Null | Bool _ | Byte _ | Char _ | Short _ | UnsignedShort _ | Int _ | UnsignedInt _
  | Long _ | UnsignedLong _ | Float _ | Double _ | String _ => true
  | _ => false
  end.

(* util/Variant.cpp:161-167 Variant::hashCode(seed, data, size) *)
Definition hashBytes (seed : Z) (data : list Z) : Z :=
  fold_left (fun hash b => u64 (31 * hash + b)) data seed.
End Variant.

Module Bundle.
Import Variant.

Abbreviation map := (gmap string (option Variant)).

Record Bundle := mkBundle { mMap : option map }.

Section bundle.
Context `{!IterationOrder string (option Variant)}.

(** [mMap->f(...)]: a call through the pointer [mMap]. *)
Definition onMap {A} (m : M map A) : M Bundle A := fun b =>
  match mMap b with
  | Some f => let '(r, f') := m f in (r, mkBundle (Some f'))
  | None => (Undef, b)
  end.

(* os/Bundle.cpp:22-24 Bundle::Bundle() *)
Definition new : Bundle := mkBundle (Some ∅).

(* os/Bundle.cpp:57-60 Bundle::putAll *)
Definition putAll (bundle : Bundle) : M Bundle unit :=
  match mMap bundle with
  | Some m => onMap (HashMap.putAll m)
  | None => undefined
  end.

(* os/Bundle.cpp:30-32 Bundle::Bundle(const sp<Bundle>&) *)
Definition copy (other : Bundle) : result unit * Bundle := putAll other new.

(** [mMap.clear()] is [sp::clear]: it drops the pointer, not the entries. *)
(* os/Bundle.h:52-55 Bundle::clear *)
Definition clear : M Bundle unit := put_state (mkBundle None).

(* os/Bundle.h:62-64 Bundle::size *)
Definition size : M Bundle nat := onMap HashMap.size.

(* os/Bundle.h:69-71 Bundle::isEmpty *)
Definition isEmpty : M Bundle bool := onMap HashMap.isEmpty.

(* os/Bundle.cpp:34-46 Bundle::keySet *)
Definition keySet : M Bundle (option (gset string)) :=
  empty ← onMap HashMap.isEmpty;
  if (empty : bool) then mret None else Some <$> onMap HashMap.keySet.

(* os/Bundle.cpp:48-50 Bundle::containsKey *)
Definition containsKey (key : option string) : M Bundle bool := onMap (HashMap.containsKey key).

(* os/Bundle.h:100-102 Bundle::get *)
Definition get (key : option string) : M Bundle (option Variant) := onMap (HashMap.get key).

(* os/Bundle.cpp:52-55 Bundle::remove *)
Definition remove (key : option string) : M Bundle unit := onMap (HashMap.remove key);; mret tt.

(** [mMap->put(key, new Variant(value)); return this;] *)
Definition putVariant (key : option string) (v : Variant) : M Bundle unit :=
  onMap (HashMap.put key (Some v));; mret tt.

(* os/Bundle.cpp:62-65 Bundle::putBinder *)
Definition putBinder (key : option string) (value : option nat) : M Bundle unit :=
  putVariant key (Binder value).

(* os/Bundle.cpp:67-70 Bundle::putBoolean *)
Definition putBoolean (key : option string) (value : bool) : M Bundle unit :=
  putVariant key (Bool value).

(* os/Bundle.cpp:72-75 Bundle::putBundle *)
Definition putBundle (key : option string) (value : option nat) : M Bundle unit :=
  putVariant key (Object (BundleObject <$> value)).

(* os/Bundle.cpp:77-80 Bundle::putByte *)
Definition putByte (key : option string) (value : Z) : M Bundle unit :=
  putVariant key (Byte value).

(* os/Bundle.cpp:82-85 Bundle::putChar *)
Definition putChar (key : option string) (value : Z) : M Bundle unit :=
  putVariant key (Char value).

(* os/Bundle.cpp:87-90 Bundle::putDouble *)
Definition putDouble (key : option string) (value : Z) : M Bundle unit :=
  putVariant key (Double value).

(* os/Bundle.cpp:92-95 Bundle::putFloat *)
Definition putFloat (key : option string) (value : Z) : M Bundle unit :=
  putVariant key (Float value).

(* os/Bundle.cpp:97-100 Bundle::putInt *)
Definition putInt (key : option string) (value : Z) : M Bundle unit :=
  putVariant key (Int value).

(* os/Bundle.cpp:102-105 Bundle::putUnsignedInt *)
Definition putUnsignedInt (key : option string) (value : Z) : M Bundle unit :=
  putVariant key (UnsignedInt value).

(* os/Bundle.cpp:107-110 Bundle::putIntegerArrayList *)
Definition putIntegerArrayList (key : option string) (value : option nat) : M Bundle unit :=
  putVariant key (IntegerArrayList value).

(* os/Bundle.cpp:112-115 Bundle::putLong *)
Definition putLong (key : option string) (value : Z) : M Bundle unit :=
  putVariant key (Long value).

(* os/Bundle.cpp:117-120 Bundle::putUnsignedLong *)
Definition putUnsignedLong (key : option string) (value : Z) : M Bundle unit :=
  putVariant key (UnsignedLong value).

(* os/Bundle.cpp:122-125 Bundle::putObject *)
Definition putObject (key : option string) (value : option object) : M Bundle unit :=
  putVariant key (Object value).

(* os/Bundle.cpp:127-130 Bundle::putShort *)
Definition putShort (key : option string) (value : Z) : M Bundle unit :=
  putVariant key (Short value).

(* os/Bundle.cpp:132-135 Bundle::putUnsignedShort *)
Definition putUnsignedShort (key : option string) (value : Z) : M Bundle unit :=
  putVariant key (UnsignedShort value).

(* os/Bundle.cpp:137-140 Bundle::putString *)
Definition putString (key : option string) (value : option string) : M Bundle unit :=
  putVariant key (String value).

(* os/Bundle.cpp:142-145 Bundle::putStringArrayList *)
Definition putStringArrayList (key : option string) (value : option nat) : M Bundle unit :=
  putVariant key (StringArrayList value).

(** The shape every typed getter of Bundle.cpp has: look the key up, test the tag, read the
    value, and fall back to [defaultValue]. *)
Definition getTyped {A} (key : option string) (isT : Variant -> bool) (read : Variant -> M Bundle A)
    (defaultValue : A) : M Bundle A :=
  value ← onMap (HashMap.get key);
  match value with
  | Some v => if isT v then read v else mret defaultValue
  | None => mret defaultValue
  end.

(* os/Bundle.cpp:147-157 Bundle::getBinder(key) *)
Definition getBinder (key : option string) : M Bundle (option nat) :=
  getTyped key isBinder Variant.getBinder None.

(* os/Bundle.cpp:159-169 Bundle::getBoolean(key, defaultValue) *)
Definition getBoolean (key : option string) (defaultValue : bool) : M Bundle (bool) :=
  getTyped key isBool Variant.getBool defaultValue.

(* os/Bundle.cpp:183-193 Bundle::getByte(key, defaultValue) *)
Definition getByte (key : option string) (defaultValue : Z) : M Bundle (Z) :=
  getTyped key isByte Variant.getByte defaultValue.

(* os/Bundle.cpp:195-205 Bundle::getChar(key, defaultValue) *)
Definition getChar (key : option string) (defaultValue : Z) : M Bundle (Z) :=
  getTyped key isChar Variant.getChar defaultValue.

(* os/Bundle.cpp:207-217 Bundle::getDouble(key, defaultValue) *)
Definition getDouble (key : option string) (defaultValue : Z) : M Bundle (Z) :=
  getTyped key isDouble Variant.getDouble defaultValue.

(* os/Bundle.cpp:219-229 Bundle::getFloat(key, defaultValue) *)
Definition getFloat (key : option string) (defaultValue : Z) : M Bundle (Z) :=
  getTyped key isFloat Variant.getFloat defaultValue.

(* os/Bundle.cpp:231-241 Bundle::getInt(key, defaultValue) *)
Definition getInt (key : option string) (defaultValue : Z) : M Bundle (Z) :=
  getTyped key isInt Variant.getInt defaultValue.

(* os/Bundle.cpp:243-253 Bundle::getUnsignedInt(key, defaultValue) *)
Definition getUnsignedInt (key : option string) (defaultValue : Z) : M Bundle (Z) :=
  getTyped key isUnsignedInt Variant.getUnsignedInt defaultValue.

(* os/Bundle.cpp:255-265 Bundle::getIntegerArrayList(key) *)
Definition getIntegerArrayList (key : option string) : M Bundle (option nat) :=
  getTyped key isIntegerArrayList Variant.getIntegerArrayList None.

(* os/Bundle.cpp:267-277 Bundle::getLong(key, defaultValue) *)
Definition getLong (key : option string) (defaultValue : Z) : M Bundle (Z) :=
  getTyped key isLong Variant.getLong defaultValue.

(* os/Bundle.cpp:279-289 Bundle::getUnsignedLong(key, defaultValue) *)
Definition getUnsignedLong (key : option string) (defaultValue : Z) : M Bundle (Z) :=
  getTyped key isUnsignedLong Variant.getUnsignedLong defaultValue.

(* os/Bundle.cpp:291-301 Bundle::getObject(key) *)
Definition getObject (key : option string) : M Bundle (option object) :=
  getTyped key isObject Variant.getObject None.

(* os/Bundle.cpp:315-325 Bundle::getShort(key, defaultValue) *)
Definition getShort (key : option string) (defaultValue : Z) : M Bundle (Z) :=
  getTyped key isShort Variant.getShort defaultValue.

(* os/Bundle.cpp:327-337 Bundle::getUnsignedShort(key, defaultValue) *)
Definition getUnsignedShort (key : option string) (defaultValue : Z) : M Bundle (Z) :=
  getTyped key isUnsignedShort Variant.getUnsignedShort defaultValue.

(* os/Bundle.cpp:339-349 Bundle::getString(key) *)
Definition getString (key : option string) : M Bundle (option string) :=
  getTyped key isString Variant.getString None.

(* os/Bundle.cpp:363-373 Bundle::getStringArrayList(key) *)
Definition getStringArrayList (key : option string) : M Bundle (option nat) :=
  getTyped key isStringArrayList Variant.getStringArrayList None.

(** [object_cast] is a [static_cast]: on an object of another class it is undefined. *)
Definition object_cast_Bundle {S} (o : option object) : M S (option nat) :=
  match o with
  | Some (BundleObject b) => mret (Some b)
  | Some (OtherObject _) => undefined
  | None => mret None
  end.

(* os/Bundle.cpp:171-181 Bundle::getBundle *)
Definition getBundle (key : option string) : M Bundle (option nat) :=
  getTyped key isObject (fun v => Variant.getObject v ≫= object_cast_Bundle) None.

(** The default value is not used. *)
(* os/Bundle.cpp:303-313 Bundle::getObject(key, defaultValue) *)
Definition getObject_or (key : option string) (defaultValue : option object)
    : M Bundle (option object) :=
  getTyped key isObject Variant.getObject None.

(* os/Bundle.cpp:351-361 Bundle::getString(key, defaultValue) *)
Definition getString_or (key : option string) (defaultValue : option string)
    : M Bundle (option string) :=
  getTyped key isString Variant.getString defaultValue.

(** The overload that takes the key as a [const char*] reads a signed short. *)
(* os/Bundle.h:647-649 Bundle::getUnsignedShort(const char*, defaultValue) *)
Definition getUnsignedShort_cstr (key : string) (defaultValue : Z) : M Bundle Z :=
  u16 <$> getShort (Some key) (i16 defaultValue).

(** The loop over the entries: [keep] stands for [continue], [drop] for [itr.remove()].  An
    entry whose value is null is a null dereference; a nested [Bundle] would be cast from the
    variant itself. *)
Fixpoint retainEntries (l : list (string * option Variant)) : M map unit :=
  match l with
  | [] => mret tt
  | (k, Some v) :: l' =>
      if isBasicType v then retainEntries l'
      else if isBundle v then undefined
      else modify (fun m => delete k m);; retainEntries l'
  | (_, None) :: _ => undefined
  end.

(* os/Bundle.cpp:380-397 Bundle::retainBasicTypes *)
Definition retainBasicTypes : M Bundle unit := fun b =>
  match mMap b with
  | Some m => onMap (retainEntries (entries m)) b
  | None => (Ok tt, b)
  end.

(** ** Specification: one accessor pair per tag *)

Inductive kind :=
  | KBoolean | KByte | KChar | KShort | KUnsignedShort | KInt | KUnsignedInt | KLong
  | KUnsignedLong | KFloat | KDouble | KString | KStringArrayList | KIntegerArrayList
  | KObject | KBinder.

#[export] Instance kind_eq_dec : EqDecision kind.
Proof. solve_decision. Defined.

Definition carrier (k : kind) : Type :=
  match k with
  | KBoolean => bool
  | KString => option string
  | KStringArrayList | KIntegerArrayList | KBinder => option nat
  | KObject => option object
  | _ => Z
  end.

Definition putK (k : kind) : option string -> carrier k -> M Bundle unit :=
  match k with
  | KBoolean => putBoolean | KByte => putByte | KChar => putChar | KShort => putShort
  | KUnsignedShort => putUnsignedShort | KInt => putInt | KUnsignedInt => putUnsignedInt
  | KLong => putLong | KUnsignedLong => putUnsignedLong | KFloat => putFloat
  | KDouble => putDouble | KString => putString | KStringArrayList => putStringArrayList
  | KIntegerArrayList => putIntegerArrayList | KObject => putObject | KBinder => putBinder
  end.

(** The getter of the kind, the default given where the getter takes one, and the default it
    falls back to. *)
Definition getK (k : kind) : option string -> carrier k -> M Bundle (carrier k) :=
  match k with
  | KBoolean => getBoolean | KByte => getByte | KChar => getChar | KShort => getShort
  | KUnsignedShort => getUnsignedShort | KInt => getInt | KUnsignedInt => getUnsignedInt
  | KLong => getLong | KUnsignedLong => getUnsignedLong | KFloat => getFloat
  | KDouble => getDouble | KString => getString_or
  | KStringArrayList => fun key _ => getStringArrayList key
  | KIntegerArrayList => fun key _ => getIntegerArrayList key
  | KObject => getObject_or
  | KBinder => fun key _ => getBinder key
  end.

Definition fallback (k : kind) : carrier k -> carrier k :=
  match k with
  | KStringArrayList | KIntegerArrayList | KBinder => fun _ => None
  | KObject => fun _ => None
  | _ => fun d => d
  end.

Lemma onMap_Ok {A} (f : M map A) m a m' :
  f m = (Ok a, m') -> onMap f (mkBundle (Some m)) = (Ok a, mkBundle (Some m')).
Proof. intros H. unfold onMap; cbn [mMap]. by rewrite H. Qed.

Lemma putVariant_eq key v m :
  putVariant (Some key) v (mkBundle (Some m)) = (Ok tt, mkBundle (Some (<[key := Some v]> m))).
Proof. unfold putVariant. by mstep (onMap_Ok _ _ _ _ (HashMap.put_eq key (Some v) m)). Qed.

Lemma getTyped_eq {A} key isT (read : Variant -> M Bundle A) d m :
  getTyped (Some key) isT read d (mkBundle (Some m)) =
  match m !! key ≫= id with
  | Some v => if isT v then read v (mkBundle (Some m)) else (Ok d, mkBundle (Some m))
  | None => (Ok d, mkBundle (Some m))
  end.
Proof.
  unfold getTyped. mstep (onMap_Ok _ _ _ _ (HashMap.lookup_eq key m)).
  destruct (m !! key ≫= id) as [v|]; [|done]. by destruct (isT v).
Qed.

(** The map of a bundle built through the public methods: no null value, no [Bundle] tag. *)
Definition wf_map (m : map) : Prop :=
  map_Forall (fun _ o => exists v, o = Some v /\ isBundle v = false) m.

Definition wf (b : Bundle) : Prop := exists m, mMap b = Some m /\ wf_map m.

Lemma wf_map_insert key v m : isBundle v = false -> wf_map m -> wf_map (<[key := Some v]> m).
Proof. intros Hv Hm. apply map_Forall_insert_2; eauto. Qed.

Lemma putK_eq k key (v : carrier k) m :
  exists w, isBundle w = false /\
    putK k (Some key) v (mkBundle (Some m)) = (Ok tt, mkBundle (Some (<[key := Some w]> m))) /\
    forall k' (d : carrier k'), getK k' (Some key) d (mkBundle (Some (<[key := Some w]> m)))
      = (Ok (match decide (k = k') with
             | left e => eq_rect k carrier v k' e
             | right _ => fallback k' d
             end), mkBundle (Some (<[key := Some w]> m))).
Proof.
  destruct k; simpl in v; eexists; (split; [|split; [apply putVariant_eq|]]); try reflexivity.
  all: intros k' d; destruct k'; simpl; cbv [getBoolean getByte getChar getShort
    getUnsignedShort getInt getUnsignedInt getLong getUnsignedLong getFloat getDouble
    getString_or getStringArrayList getIntegerArrayList getObject_or getBinder].
  all: rewrite getTyped_eq, lookup_insert_eq; reflexivity.
Qed.

(** The entries [retainBasicTypes] keeps. *)
Definition basicEntry (o : option Variant) : bool :=
  match o with Some v => isBasicType v | None => false end.

Definition basicTypes (m : map) : map := filter (fun e => basicEntry e.2 = true) m.

Lemma retainEntries_spec l m :
  NoDup l.*1 ->
  Forall (fun e => exists v, e.2 = Some v /\ isBundle v = false) l ->
  Forall (fun e => m !! e.1 = Some e.2) l ->
  exists m', retainEntries l m = (Ok tt, m') /\
    forall k, m' !! k = if decide (k ∈ l.*1) then basicTypes m !! k else m !! k.
Proof.
  revert m; induction l as [|[k o] l IH]; intros m Hnd Hl Hm; simpl.
  { exists m. split; [done|]. intros k. done. }
  apply NoDup_cons in Hnd as [Hk Hnd]. simpl in *.
  apply Forall_cons in Hl as [(v & Ho & Hv) Hl]; apply Forall_cons in Hm as [Hkm Hm].
  simpl in Ho, Hkm; subst o.
  assert (forall j, (j = k -> basicEntry (Some v) = true) ->
    (if decide (j ∈ l.*1) then basicTypes m !! j else m !! j)
      = if decide (j ∈ k :: l.*1) then basicTypes m !! j else m !! j) as Hkeep.
  { intros j Hj. destruct (decide (j = k)) as [->|Hne].
    - rewrite decide_False, decide_True by (try apply list_elem_of_here; done).
      unfold basicTypes. rewrite Hkm. symmetry. apply map_lookup_filter_Some_2; simpl; auto.
    - destruct (decide (j ∈ l.*1)), (decide (j ∈ k :: l.*1)); rewrite ?elem_of_cons in *; tauto. }
  destruct (isBasicType v) eqn:Hb.
  { destruct (IH m Hnd Hl Hm) as (m' & Heq & Hlk). exists m'. split; [done|].
    intros j. rewrite Hlk. apply Hkeep. by intros ->. }
  rewrite Hv, bind_modify. destruct (IH (delete k m) Hnd Hl) as (m' & Heq & Hlk).
  { apply Forall_forall. intros e He. rewrite Forall_forall in Hm.
    rewrite lookup_delete_ne; [by apply Hm|]. intros ->. by apply Hk, list_elem_of_fmap_2. }
  exists m'. split; [done|]. intros j. rewrite Hlk. destruct (decide (j = k)) as [->|Hne].
  - rewrite !decide_False by done. rewrite decide_True by apply list_elem_of_here.
    rewrite lookup_delete_eq. symmetry. apply map_lookup_filter_None. right.
    intros o Ho. rewrite Hkm in Ho. injection Ho as <-. simpl. by rewrite Hb.
  - rewrite <- Hkeep by done. rewrite lookup_delete_ne by done.
    unfold basicTypes. destruct (decide (j ∈ l.*1)); [|done].
    apply option_eq. intros o. rewrite !map_lookup_filter_Some, lookup_delete_ne by done. done.
Qed.

Lemma getK_eq k key (d : carrier k) m :
  getK k (Some key) d (mkBundle (Some m)) =
    (outcome (getK k (Some key) d) (mkBundle (Some m)), mkBundle (Some m)) /\
  forall m', m' !! key = m !! key ->
    outcome (getK k (Some key) d) (mkBundle (Some m'))
      = outcome (getK k (Some key) d) (mkBundle (Some m)).
Proof.
  unfold outcome.
  destruct k; simpl; cbv [getBoolean getByte getChar getShort
    getUnsignedShort getInt getUnsignedInt getLong getUnsignedLong getFloat getDouble
    getString_or getStringArrayList getIntegerArrayList getObject_or getBinder].
  all: rewrite !getTyped_eq; split;
    [ destruct (m !! key ≫= id) as [[]|]; reflexivity
    | intros m' Hm; rewrite getTyped_eq, Hm; destruct (m !! key ≫= id) as [[]|]; reflexivity ].
Qed.

(** ** Properties *)

(** every typed [put] of a bundle succeeds; afterwards the getter of the same kind
    reads the value back, a getter of another kind falls back to its default, and every getter
    of another key answers as before. *)
Theorem put_get k key (v : carrier k) m :
  exists m', putK k (Some key) v (mkBundle (Some m)) = (Ok tt, mkBundle (Some m')) /\
    forall key' k' (d : carrier k'),
      getK k' (Some key') d (mkBundle (Some m')) =
        (if decide (key = key')
         then Ok (match decide (k = k') with
                  | left e => eq_rect k carrier v k' e
                  | right _ => fallback k' d
                  end)
         else outcome (getK k' (Some key') d) (mkBundle (Some m)), mkBundle (Some m')).
Proof.
  destruct (putK_eq k key v m) as (w & _ & Hput & Hget).
  exists (<[key := Some w]> m). split; [done|]. intros key' k' d.
  destruct (decide (key = key')) as [<-|Hne]; [apply Hget|].
  destruct (getK_eq k' key' d (<[key := Some w]> m)) as [-> _].
  destruct (getK_eq k' key' d m) as [_ Hm]. f_equal. apply Hm. by rewrite lookup_insert_ne.
Qed.

Lemma copy_eq m : copy (mkBundle (Some m)) = (Ok tt, mkBundle (Some m)).
Proof.
  unfold copy, putAll, new; cbn [mMap].
  rewrite (onMap_Ok _ _ _ _ (HashMap.putAll_eq _ _)). by rewrite (right_id_L ∅ (∪)).
Qed.

(** copying a bundle gives a bundle with the same entries, and [putAll] keeps
    the entries of the argument where both have the key, whatever order the entries are
    visited in. *)
Theorem putAll_copy m1 m2 :
  copy (mkBundle (Some m1)) = (Ok tt, mkBundle (Some m1)) /\
  putAll (mkBundle (Some m2)) (mkBundle (Some m1)) = (Ok tt, mkBundle (Some (m2 ∪ m1))).
Proof.
  split; [apply copy_eq|]. unfold putAll; cbn [mMap].
  by rewrite (onMap_Ok _ _ _ _ (HashMap.putAll_eq _ _)).
Qed.

Lemma retainBasicTypes_eq m :
  wf_map m -> retainBasicTypes (mkBundle (Some m)) = (Ok tt, mkBundle (Some (basicTypes m))).
Proof.
  intros Hm.
  destruct (retainEntries_spec (entries m) m) as (m' & Heq & Hlk).
  { eapply NoDup_Permutation_proper; [by rewrite entries_perm|]. apply NoDup_fst_map_to_list. }
  { apply Forall_forall. intros [k o]. rewrite entries_perm, elem_of_map_to_list.
    intros Hk. by apply (Hm k o). }
  { apply Forall_forall. intros [k o]. by rewrite entries_perm, elem_of_map_to_list. }
  assert (m' = basicTypes m) as ->.
  { apply map_eq. intros k. rewrite Hlk. destruct (decide _) as [|Hk]; [done|].
    destruct (m !! k) as [o|] eqn:Ho;
      [|symmetry; apply map_lookup_filter_None; by left].
    destruct Hk. rewrite entries_perm, list_elem_of_fmap. exists (k, o).
    by rewrite elem_of_map_to_list. }
  unfold retainBasicTypes; cbn [mMap]. by rewrite (onMap_Ok _ _ _ _ Heq).
Qed.

(** on a bundle built by the public methods [retainBasicTypes]
    terminates without an error and keeps exactly the entries of a basic type; the bundle stays
    well formed. *)
Theorem retainBasicTypes_spec b :
  wf b ->
  exists m, mMap b = Some m /\
    retainBasicTypes b = (Ok tt, mkBundle (Some (basicTypes m))) /\
    wf (mkBundle (Some (basicTypes m))).
Proof.
  intros (m & Hb & Hm). exists m. split; [done|]. destruct b as [bm]; simpl in Hb; subst bm.
  split; [by apply retainBasicTypes_eq|]. exists (basicTypes m). split; [done|]. intros k o.
  unfold basicTypes. rewrite map_lookup_filter_Some. intros [Ho _]. by apply (Hm k o).
Qed.

(** a nested bundle does not survive [retainBasicTypes]:
    [putBundle] tags it [Object], so the branch for bundles is never taken. *)
Theorem retainBasicTypes_drops_bundles key value m :
  wf_map m ->
  exists b1 b2, putBundle (Some key) value (mkBundle (Some m)) = (Ok tt, b1) /\
    getBundle (Some key) b1 = (Ok value, b1) /\
    retainBasicTypes b1 = (Ok tt, b2) /\
    getBundle (Some key) b2 = (Ok None, b2) /\ containsKey (Some key) b2 = (Ok false, b2).
Proof.
  intros Hm. set (m1 := <[key := Some (Object (BundleObject <$> value))]> m).
  assert (wf_map m1) as Hwf by by apply wf_map_insert.
  pose proof (retainBasicTypes_eq _ Hwf) as Hret.
  assert (basicTypes m1 !! key = None) as Hgone.
  { apply map_lookup_filter_None. right. unfold m1. intros o. rewrite lookup_insert_eq.
    by intros [= <-]. }
  exists (mkBundle (Some m1)), (mkBundle (Some (basicTypes m1))).
  split; [apply putVariant_eq|]. unfold getBundle. rewrite !getTyped_eq. unfold m1 at 1.
  rewrite lookup_insert_eq, Hgone. cbn. split; [by destruct value|]. split; [done|].
  split; [done|]. unfold containsKey, onMap, HashMap.containsKey; cbn [mMap].
  mstep (HashMap.find_eq key (basicTypes m1)). by rewrite Hgone.
Qed.

(** [Bundle::clear] leaves the bundle without a map: whatever it held, every
    later query, insertion and typed read dereferences a null pointer. *)
Theorem clear_null b :
  exists b', clear b = (Ok tt, b') /\
    outcome size b' = Undef /\ outcome isEmpty b' = Undef /\ outcome keySet b' = Undef /\
    forall key, outcome (containsKey key) b' = Undef /\ outcome (get key) b' = Undef /\
      outcome (remove key) b' = Undef /\
      forall k (v : carrier k), outcome (putK k key v) b' = Undef /\
        outcome (getK k key v) b' = Undef.
Proof.
  exists (mkBundle None). split; [done|]. do 3 (split; [done|]). intros key.
  do 3 (split; [done|]). intros k v. by destruct k.
Qed.
End bundle.

Definition sample : map := {["k"%string := Some (Int 7)]}.

Lemma sample_wf : wf_map sample.
Proof.
  intros k o Hk. unfold sample in Hk. apply lookup_singleton_Some in Hk as [<- <-].
  by exists (Int 7).
Qed.

Lemma retainBasicTypes_spec_witness :
  exists m, mMap (mkBundle (Some sample)) = Some m /\
    retainBasicTypes (mkBundle (Some sample)) = (Ok tt, mkBundle (Some (basicTypes m))) /\
    wf (mkBundle (Some (basicTypes m))).
Proof.
  apply (retainBasicTypes_spec (mkBundle (Some sample))).
  exists sample. split; [reflexivity|]. apply sample_wf.
Defined.

Lemma retainBasicTypes_drops_bundles_witness :
  exists b1 b2, putBundle (Some "b"%string) (Some 3%nat) (mkBundle (Some sample)) = (Ok tt, b1) /\
    getBundle (Some "b"%string) b1 = (Ok (Some 3%nat), b1) /\
    retainBasicTypes b1 = (Ok tt, b2) /\
    getBundle (Some "b"%string) b2 = (Ok None, b2) /\
    containsKey (Some "b"%string) b2 = (Ok false, b2).
Proof. apply (retainBasicTypes_drops_bundles "b" (Some 3%nat) sample), sample_wf. Defined.
End Bundle.
