(* ===== verification/Messages.v ===== *)
(** * os/Message.cpp, os/Message.h: messages and the global message pool

    Messages are shared mutable objects: the queue, the pool and their users hold pointers to
    them.  The model keeps them in one store, [msgs], indexed by an object number; a [sp<Message>]
    is an optional index.  The pool is the singly linked list that [sMessagePool.pool] heads,
    threaded through [nextMessage] in the same store.  Handlers, runnables, objects and results
    are opaque references.  Cancelling a result is recorded in [cancelled]; the continuations of
    the cancelled promise are not run by the model. *)

From S2P Require Import Prelude HashMaps Bundles.
From stdpp Require Import gmap.
Open Scope Z_scope.

Module Message.

(* os/Message.h:62-79 Message (public fields) *)
Record Message := mkMessage {
  what : Z;
  arg1 : Z;
  arg2 : Z;
  obj : option nat;
  flags : Z;
  when : Z;
  data : option nat;
  target : option nat;
  callback : option nat;
  prevMessage : option nat;
  nextMessage : option nat;
  result : option nat;
}.

(* os/Message.h:33-41 MessagePool *)
Record MessagePool := mkMessagePool {
  MAX_SIZE : Z;
  pool : option nat;
  size : Z;
}.

(** The state the messages live in: the objects, the bundles they point to, the pool, and the
    results that were cancelled, oldest first. *)
Record world := mkWorld {
  msgs : list Message;
  bundles : list Bundle.Bundle;
  sMessagePool : MessagePool;
  cancelled : list nat;
}.

Definition set_msgs f w := mkWorld (f (msgs w)) (bundles w) (sMessagePool w) (cancelled w).
Definition set_bundles f w := mkWorld (msgs w) (f (bundles w)) (sMessagePool w) (cancelled w).
Definition set_pool f w := mkWorld (msgs w) (bundles w) (f (sMessagePool w)) (cancelled w).
Definition set_cancelled f w := mkWorld (msgs w) (bundles w) (sMessagePool w) (f (cancelled w)).

Definition set_what v m := mkMessage v (arg1 m) (arg2 m) (obj m) (flags m) (when m) (data m)
  (target m) (callback m) (prevMessage m) (nextMessage m) (result m).
Definition set_arg1 v m := mkMessage (what m) v (arg2 m) (obj m) (flags m) (when m) (data m)
  (target m) (callback m) (prevMessage m) (nextMessage m) (result m).
Definition set_arg2 v m := mkMessage (what m) (arg1 m) v (obj m) (flags m) (when m) (data m)
  (target m) (callback m) (prevMessage m) (nextMessage m) (result m).
Definition set_obj v m := mkMessage (what m) (arg1 m) (arg2 m) v (flags m) (when m) (data m)
  (target m) (callback m) (prevMessage m) (nextMessage m) (result m).
Definition set_flags v m := mkMessage (what m) (arg1 m) (arg2 m) (obj m) v (when m) (data m)
  (target m) (callback m) (prevMessage m) (nextMessage m) (result m).
Definition set_when v m := mkMessage (what m) (arg1 m) (arg2 m) (obj m) (flags m) v (data m)
  (target m) (callback m) (prevMessage m) (nextMessage m) (result m).
Definition set_data v m := mkMessage (what m) (arg1 m) (arg2 m) (obj m) (flags m) (when m) v
  (target m) (callback m) (prevMessage m) (nextMessage m) (result m).
Definition set_target v m := mkMessage (what m) (arg1 m) (arg2 m) (obj m) (flags m) (when m)
  (data m) v (callback m) (prevMessage m) (nextMessage m) (result m).
Definition set_callback v m := mkMessage (what m) (arg1 m) (arg2 m) (obj m) (flags m) (when m)
  (data m) (target m) v (prevMessage m) (nextMessage m) (result m).
Definition set_prev v m := mkMessage (what m) (arg1 m) (arg2 m) (obj m) (flags m) (when m)
  (data m) (target m) (callback m) v (nextMessage m) (result m).
Definition set_next v m := mkMessage (what m) (arg1 m) (arg2 m) (obj m) (flags m) (when m)
  (data m) (target m) (callback m) (prevMessage m) v (result m).

Definition set_result v m := mkMessage (what m) (arg1 m) (arg2 m) (obj m) (flags m) (when m)
  (data m) (target m) (callback m) (prevMessage m) (nextMessage m) v.

(** *** Memory accesses *)

(** [p->...] on a smart pointer. *)
Definition deref {S} (p : option nat) : M S nat :=
  match p with Some l => mret l | None => undefined end.

Definition readMsg (l : nat) : M world Message := fun w =>
  match msgs w !! l with
  | Some m => (Ok m, w)
  | None => (Undef, w)
  end.

Definition writeMsg (l : nat) (f : Message -> Message) : M world unit := fun w =>
  match msgs w !! l with
  | Some m => (Ok tt, set_msgs (<[l := f m]>) w)
  | None => (Undef, w)
  end.

(** *** The operations *)

(* os/Message.h:264-264 Message::FLAG_IN_USE *)
Definition FLAG_IN_USE : Z := Z.shiftl 1 0.

(* os/Message.h:250-252 Message::isInUse *)
Definition isInUse (m : Message) : bool := Z.land (flags m) FLAG_IN_USE =? FLAG_IN_USE.

(* os/Message.h:254-256 Message::markInUse *)
Definition markInUse (this : nat) : M world unit :=
  writeMsg this (fun m => set_flags (Z.lor (flags m) FLAG_IN_USE) m).

(* os/Message.cpp:26-30 MessagePool::MessagePool *)
Definition initialPool : MessagePool := mkMessagePool 42 None 0.

(* os/Message.cpp:39-51 Message::Message *)
Definition blank : Message := mkMessage 0 0 0 None 0 0 None None None None None None.

(** [new Message()] *)
Definition newMessage : M world nat := fun w =>
  (Ok (length (msgs w)), set_msgs (fun ms => ms ++ [blank]) w).

(* os/Message.cpp:53-66 Message::obtain() *)
Definition obtain : M world nat :=
  p ← gets sMessagePool;
  match pool p with
  | Some message =>
      m ← readMsg message;
      modify (set_pool (fun p => mkMessagePool (MAX_SIZE p) (nextMessage m) (size p)));;
      writeMsg message (set_next None);;
      writeMsg message (set_flags 0);;
      modify (set_pool (fun p => mkMessagePool (MAX_SIZE p) (pool p) (u32 (size p - 1))));;
      mret message
  | None => newMessage
  end.

(** [new Bundle(b)] *)
Definition newBundle (b : nat) : M world nat := fun w =>
  match bundles w !! b with
  | Some other =>
      match Bundle.copy other with
      | (Ok _, c) => (Ok (length (bundles w)), set_bundles (fun bs => bs ++ [c]) w)
      | (Throw e, _) => (Throw e, w)
      | (Undef, _) => (Undef, w)
      | (Diverge, _) => (Diverge, w)
      end
  | None => (Undef, w)
  end.

(* os/Message.cpp:68-81 Message::obtain(origMessage) *)
Definition obtain_copy (origMessage : option nat) : M world nat :=
  message ← obtain;
  orig ← deref origMessage;
  o ← readMsg orig;
  writeMsg message (set_what (what o));;
  writeMsg message (set_arg1 (arg1 o));;
  writeMsg message (set_arg2 (arg2 o));;
  writeMsg message (set_obj (obj o));;
  match data o with
  | Some b => c ← newBundle b; writeMsg message (set_data (Some c))
  | None => mret tt
  end;;
  writeMsg message (set_target (target o));;
  writeMsg message (set_callback (callback o));;
  mret message.

(* os/Message.cpp:83-87 Message::obtain(handler) *)
Definition obtain_handler (handler : option nat) : M world nat :=
  message ← obtain;
  writeMsg message (set_target handler);;
  mret message.

(* os/Message.cpp:89-94 Message::obtain(handler, callback) *)
Definition obtain_callback (handler runnable : option nat) : M world nat :=
  message ← obtain;
  writeMsg message (set_target handler);;
  writeMsg message (set_callback runnable);;
  mret message.

(* os/Message.cpp:96-101 Message::obtain(handler, what) *)
Definition obtain_what (handler : option nat) (w : Z) : M world nat :=
  message ← obtain;
  writeMsg message (set_target handler);;
  writeMsg message (set_what w);;
  mret message.

(* os/Message.cpp:103-109 Message::obtain(handler, what, obj) *)
Definition obtain_obj (handler : option nat) (w : Z) (o : option nat) : M world nat :=
  message ← obtain;
  writeMsg message (set_target handler);;
  writeMsg message (set_what w);;
  writeMsg message (set_obj o);;
  mret message.

(* os/Message.cpp:111-118 Message::obtain(handler, what, arg1, arg2) *)
Definition obtain_args (handler : option nat) (w a1 a2 : Z) : M world nat :=
  message ← obtain;
  writeMsg message (set_target handler);;
  writeMsg message (set_what w);;
  writeMsg message (set_arg1 a1);;
  writeMsg message (set_arg2 a2);;
  mret message.

(* os/Message.cpp:120-128 Message::obtain(handler, what, arg1, arg2, obj) *)
Definition obtain_args_obj (handler : option nat) (w a1 a2 : Z) (o : option nat) : M world nat :=
  message ← obtain;
  writeMsg message (set_target handler);;
  writeMsg message (set_what w);;
  writeMsg message (set_arg1 a1);;
  writeMsg message (set_arg2 a2);;
  writeMsg message (set_obj o);;
  mret message.

(** [result->cancel()] *)
Definition cancelResult (r : nat) : M world unit := modify (set_cancelled (fun c => c ++ [r])).

(** The fields [recycle] resets, lines 139-150. *)
Definition recycled : Message := mkMessage 0 0 0 None FLAG_IN_USE 0 None None None None None None.

(* os/Message.cpp:134-160 Message::recycle *)
Definition recycle (this : nat) : M world unit :=
  m ← readMsg this;
  match result m with
  | Some r => cancelResult r
  | None => mret tt
  end;;
  writeMsg this (fun _ => recycled);;
  p ← gets sMessagePool;
  if size p <? MAX_SIZE p then
    writeMsg this (set_next (pool p));;
    modify (set_pool (fun p => mkMessagePool (MAX_SIZE p) (Some this) (u32 (size p + 1))))
  else mret tt.

(* os/Message.cpp:162-172 Message::copyFrom *)
Definition copyFrom (this : nat) (otherMessage : option nat) : M world unit :=
  other ← deref otherMessage;
  o ← readMsg other;
  writeMsg this (set_what (what o));;
  writeMsg this (set_arg1 (arg1 o));;
  writeMsg this (set_arg2 (arg2 o));;
  writeMsg this (set_obj (obj o));;
  match data o with
  | Some b => c ← newBundle b; writeMsg this (set_data (Some c))
  | None => writeMsg this (set_data None)
  end.

(* os/Message.h:214-219 Message::getData *)
Definition getData (this : nat) : M world (option nat) :=
  m ← readMsg this;
  match data m with
  | Some b => mret (Some b)
  | None =>
      b ← gets (fun w => length (bundles w));
      modify (set_bundles (fun bs => bs ++ [Bundle.new]));;
      writeMsg this (set_data (Some b));;
      mret (Some b)
  end.

(** ** The pool invariant *)

(** A pooled message is reset and marked in use; [ls] are the pooled messages, in order. *)
Fixpoint chain (ms : list Message) (ls : list nat) : Prop :=
  match ls with
  | [] => True
  | l :: ls' => ms !! l = Some (set_next (head ls') recycled) /\ chain ms ls'
  end.

Record pool_rep (w : world) (ls : list nat) : Prop := {
  pr_head : pool (sMessagePool w) = head ls;
  pr_size : size (sMessagePool w) = Z.of_nat (length ls);
  pr_max : MAX_SIZE (sMessagePool w) = 42;
  pr_bound : Z.of_nat (length ls) <= 42;
  pr_nodup : NoDup ls;
  pr_chain : chain (msgs w) ls;
}.

(** No message but those of [ls] changes. *)
Definition unchanged_except (ls : list nat) (w w' : world) : Prop :=
  forall l m, l ∉ ls -> msgs w !! l = Some m -> msgs w' !! l = Some m.

Lemma unchanged_trans ls1 ls2 w1 w2 w3 :
  unchanged_except ls1 w1 w2 -> unchanged_except ls2 w2 w3 ->
  unchanged_except (ls1 ++ ls2) w1 w3.
Proof.
  intros H1 H2 l m Hl Hm. rewrite elem_of_app in Hl.
  apply H2; [tauto|]. apply H1; tauto.
Qed.

Lemma lookup_write_eq (ms : list Message) l m x : ms !! l = Some m -> <[l := x]> ms !! l = Some x.
Proof. intros H. apply list_lookup_insert_eq. by eapply lookup_lt_Some. Qed.

Lemma lookup_write_ne (ms : list Message) l l' x : l <> l' -> <[l := x]> ms !! l' = ms !! l'.
Proof. intros H. by apply list_lookup_insert_ne. Qed.

Lemma chain_write ms ls l x : l ∉ ls -> chain ms ls -> chain (<[l := x]> ms) ls.
Proof.
  induction ls as [|l' ls IH]; simpl; [done|]. rewrite not_elem_of_cons.
  intros [Hne Hin] [Hl Hc]. split; [by rewrite lookup_write_ne|auto].
Qed.

Lemma chain_app ms ms' ls : chain ms ls -> chain (ms ++ ms') ls.
Proof.
  induction ls as [|l' ls IH]; simpl; [done|]. intros [Hl Hc]. split; [|auto].
  by apply lookup_app_l_Some.
Qed.

Lemma chain_lookup ms ls l : chain ms ls -> l ∈ ls -> exists n, ms !! l = Some (set_next n recycled).
Proof.
  induction ls as [|l' ls IH]; simpl; [by intros _ ?%not_elem_of_nil|].
  intros [Hl Hc] [->|Hin]%elem_of_cons; eauto.
Qed.

Lemma readMsg_eq w l m : msgs w !! l = Some m -> readMsg l w = (Ok m, w).
Proof. intros H. unfold readMsg. by rewrite H. Qed.

Lemma writeMsg_eq w l m f :
  msgs w !! l = Some m -> writeMsg l f w = (Ok tt, set_msgs (<[l := f m]>) w).
Proof. intros H. unfold writeMsg. by rewrite H. Qed.

(** Runs the read or the write at the head of the call, given the message it reaches. *)
Ltac mread H :=
  match goal with
  | |- context [mbind ?k (readMsg ?l) ?w] =>
      rewrite (bind_Ok (readMsg l) k w _ _ (readMsg_eq w l _ H)); cbn beta
  end.
Ltac mwrite H :=
  match goal with
  | |- context [mbind ?k (writeMsg ?l ?f) ?w] =>
      rewrite (bind_Ok (writeMsg l f) k w _ _ (writeMsg_eq w l _ f H)); cbn beta
  end.

(** The same, when the calls that follow access the message again: [H] says what it holds. *)
Ltac mwrite_in H :=
  match goal with
  | |- context [mbind ?k (writeMsg ?l ?f) ?w] =>
      mwrite H; let m := match type of H with _ = Some ?m => m end in
      apply (fun E => lookup_write_eq _ _ _ (f m) E) in H
  end.

Lemma pool_rep_write w ls l x :
  l ∉ ls -> pool_rep w ls -> pool_rep (set_msgs (<[l := x]>) w) ls.
Proof. intros Hl []. split; cbn; try done. by apply chain_write. Qed.

(** The pool depends on its own cells. *)
Lemma pool_rep_ext w w' ls :
  pool_rep w ls -> sMessagePool w' = sMessagePool w ->
  (forall j, j ∈ ls -> msgs w' !! j = msgs w !! j) -> pool_rep w' ls.
Proof.
  intros [] Hp Hms. split; rewrite ?Hp; try done. clear -pr_chain0 Hms.
  induction ls as [|l ls IH]; simpl in *; [done|]. destruct pr_chain0 as [Hl Hc].
  split; [rewrite Hms; [done|apply list_elem_of_here]|].
  apply IH; [done|]. intros j Hj. apply Hms. by apply list_elem_of_further.
Qed.

Lemma pool_rep_bundles w ls f : pool_rep w ls -> pool_rep (set_bundles f w) ls.
Proof. by intros []. Qed.

(** *** The operations on the pool *)

Lemma obtain_eq w ls :
  pool_rep w ls ->
  exists l w', obtain w = (Ok l, w') /\ msgs w' !! l = Some blank /\ pool_rep w' (tail ls) /\
    l ∉ tail ls /\ l = default (length (msgs w)) (head ls) /\
    (msgs w' = <[l := blank]> (msgs w) \/ (ls = [] /\ msgs w' = msgs w ++ [blank])) /\
    bundles w' = bundles w /\ cancelled w' = cancelled w.
Proof.
  intros [Hh Hs Hx Hb Hn Hc]. destruct w as [ms bs [mx p sz] cs]; cbn [sMessagePool msgs
    bundles cancelled pool size MAX_SIZE] in *.
  destruct ls as [|l ls]; simpl in Hh; subst p.
  { exists (length ms). eexists. split; [reflexivity|]. cbn.
    rewrite list_lookup_middle by done. split; [done|]. split; [by split|].
    split; [apply not_elem_of_nil|]. split; [done|]. split; [by right|done]. }
  destruct Hc as [Hl Hc]. apply NoDup_cons in Hn as [Hnl Hn].
  exists l. eexists. unfold obtain. rewrite bind_gets; cbn [sMessagePool pool].
  mread Hl. rewrite bind_modify. mwrite Hl. cbn [set_pool set_msgs msgs].
  pose proof (lookup_write_eq _ _ _ (set_next None (set_next (head ls) recycled)) Hl) as Hl2.
  mwrite Hl2. rewrite bind_modify. split; [reflexivity|].
  cbn -[u32 Z.sub]. rewrite list_insert_insert_eq.
  split; [by eapply lookup_write_eq|].
  split; [|split; [done|split; [done|split; [by left|done]]]].
  cbn [length] in *. split; cbn -[u32 Z.sub]; try done.
  - rewrite u32_id; lia.
  - lia.
  - by apply chain_write, chain_write.
Qed.

Lemma recycle_eq w ls l m :
  pool_rep w ls -> msgs w !! l = Some m -> l ∉ ls ->
  exists w', recycle l w = (Ok tt, w') /\
    let ls' := if decide (Z.of_nat (length ls) < 42) then l :: ls else ls in
    pool_rep w' ls' /\
    msgs w' = <[l := if decide (Z.of_nat (length ls) < 42) then set_next (head ls) recycled
                     else recycled]> (msgs w) /\
    bundles w' = bundles w /\ cancelled w' = cancelled w ++ option_list (result m).
Proof.
  intros [Hh Hs Hx Hb Hn Hc] Hl Hin. destruct w as [ms bs [mx p sz] cs].
  cbn [sMessagePool msgs bundles cancelled pool size MAX_SIZE] in *. subst mx p sz.
  pose proof (lookup_write_eq _ _ _ recycled Hl) as Hl2.
  assert ((match result m with Some r => cancelResult r | None => mret tt end)
      (mkWorld ms bs (mkMessagePool 42 (head ls) (Z.of_nat (length ls))) cs)
    = (Ok tt, mkWorld ms bs (mkMessagePool 42 (head ls) (Z.of_nat (length ls)))
                (cs ++ option_list (result m)))) as Hcancel.
  { destruct (result m); [done|]. cbn. by rewrite app_nil_r. }
  unfold recycle. mread Hl. mstep Hcancel.
  mwrite Hl. rewrite bind_gets. cbn [sMessagePool size MAX_SIZE pool set_msgs].
  destruct (decide (Z.of_nat (length ls) < 42)) as [Hlt|Hge].
  - rewrite (proj2 (Z.ltb_lt _ _) Hlt). mwrite Hl2. eexists. split; [reflexivity|].
    cbn -[u32 Z.add recycled]. rewrite list_insert_insert_eq. split; [|done].
    split; cbn -[u32 Z.add recycled]; try done.
    + rewrite u32_id; lia.
    + lia.
    + by apply NoDup_cons.
    + split; [by eapply lookup_write_eq|]. by apply chain_write, chain_write.
  - rewrite (proj2 (Z.ltb_ge _ _)) by lia. eexists. split; [reflexivity|]. cbn -[recycled].
    split; [|done]. split; try done. by apply chain_write.
Qed.

(** ** Properties of the pool *)

(** the pool holds at most 42 messages and never hands out stale data.
    Recycling a message and obtaining the next one gives a message equal to a new one; it is
    the recycled object when the pool had room, and the pool is then as before. *)
Theorem pool_reuse w ls l m :
  pool_rep w ls -> msgs w !! l = Some m -> l ∉ ls ->
  exists w1 w2 l2, recycle l w = (Ok tt, w1) /\ obtain w1 = (Ok l2, w2) /\
    msgs w2 !! l2 = Some blank /\
    (Z.of_nat (length ls) < 42 -> l2 = l /\ pool_rep w2 ls) /\
    (Z.of_nat (length ls) = 42 -> head ls = Some l2 /\ pool_rep w2 (tail ls)).
Proof.
  intros Hp Hl Hin. destruct (recycle_eq w ls l m Hp Hl Hin) as (w1 & Hr & Hp1 & _).
  destruct (obtain_eq _ _ Hp1) as (l2 & w2 & Ho & Hblank & Hp2 & _ & Hl2 & _).
  exists w1, w2, l2. split; [done|]. split; [done|]. split; [done|].
  destruct (decide _) as [Hlt|Hge]; (split; [intros Hlen|intros Hlen]); try lia; [done|].
  destruct ls as [|x ls]; [done|]. by simpl in Hl2; subst x.
Qed.

Definition payload (m : Message) := (what m, arg1 m, arg2 m, obj m, target m, callback m).

(** The message [m] with every field a user sees taken from [o]; [d] is the copied bundle. *)
Definition copied (o : Message) (d : option nat) : Message :=
  mkMessage (what o) (arg1 o) (arg2 o) (obj o) 0 0 d (target o) (callback o) None None None.

Lemma newBundle_eq w b bm :
  bundles w !! b = Some (Bundle.mkBundle (Some bm)) ->
  newBundle b w = (Ok (length (bundles w)),
                   set_bundles (fun bs => bs ++ [Bundle.mkBundle (Some bm)]) w).
Proof.
  intros Hb. unfold newBundle. rewrite Hb.
  by rewrite Bundle.copy_eq.
Qed.

(** the copy of a message is a fresh message with the user-visible
    fields of the original; its bundle is a new bundle with the same entries, so later changes
    to either bundle do not reach the other.  No other message changes and the pool stays
    valid. *)
Theorem obtain_copy_isolated w ls orig o :
  pool_rep w ls -> msgs w !! orig = Some o -> orig ∉ ls ->
  (forall b, data o = Some b -> exists bm, bundles w !! b = Some (Bundle.mkBundle (Some bm))) ->
  exists l w', obtain_copy (Some orig) w = (Ok l, w') /\ l <> orig /\
    pool_rep w' (tail ls) /\ unchanged_except [l] w w' /\
    match data o with
    | None => msgs w' !! l = Some (copied o None) /\ bundles w' = bundles w
    | Some b => msgs w' !! l = Some (copied o (Some (length (bundles w)))) /\
        exists bm, bundles w !! b = Some bm /\ bundles w' = bundles w ++ [bm]
    end.
Proof.
  intros Hp Ho Hin Hdata.
  destruct (obtain_eq w ls Hp) as (l & w1 & Hobt & Hl & Hp1 & Hnl & Hl2 & Hmsgs & Hbs & Hcs).
  assert (l <> orig) as Hne.
  { intros ->. destruct ls as [|x ls]; simpl in Hl2; subst.
    - apply lookup_lt_Some in Ho. lia.
    - apply Hin, list_elem_of_here. }
  assert (unchanged_except [l] w w1) as Hu1.
  { intros j mj Hj Hmj. destruct Hmsgs as [->|[_ ->]]; [|by apply lookup_app_l_Some].
    rewrite lookup_write_ne; [done|]. intros ->. apply Hj, list_elem_of_here. }
  assert (msgs w1 !! orig = Some o) as Ho1.
  { apply Hu1; [|done]. intros [->|?%not_elem_of_nil]%elem_of_cons; done. }
  assert (forall w2 x, msgs w2 = <[l := x]> (msgs w1) -> unchanged_except [l] w w2) as Hu2.
  { intros w2 x Hw2 j mj Hj Hmj. rewrite Hw2, lookup_write_ne; [by apply Hu1|].
    intros ->. apply Hj, list_elem_of_here. }
  unfold obtain_copy. mstep Hobt. cbn [deref]. rewrite bind_ret. mread Ho1.
  do 4 mwrite_in Hl.
  match goal with |- context [mbind _ _ ?w] => set (wc := w) in * end.
  assert (bundles wc = bundles w) as Hbc by (by unfold wc; cbn; rewrite Hbs).
  destruct (data o) as [b|] eqn:Hd.
  - destruct (Hdata b eq_refl) as (bm & Hb). rewrite <- Hbc in Hb.
    set (wd := set_bundles (fun bs => bs ++ [Bundle.mkBundle (Some bm)]) wc).
    assert (msgs wd !! l = Some (set_obj (obj o) (set_arg2 (arg2 o) (set_arg1 (arg1 o)
              (set_what (what o) blank))))) as Hd0 by exact Hl.
    pose proof (bind_Ok _ (fun c => writeMsg l (set_data (Some c))) wc _ _
      (newBundle_eq wc b bm Hb)) as Hrun.
    cbn beta in Hrun. fold wd in Hrun. rewrite (writeMsg_eq wd l _ _ Hd0) in Hrun. mstep Hrun.
    pose proof (lookup_write_eq _ _ _ (set_data (Some (length (bundles wc)))
      (set_obj (obj o) (set_arg2 (arg2 o) (set_arg1 (arg1 o) (set_what (what o) blank))))) Hd0)
      as Hd1.
    do 2 mwrite_in Hd1. do 2 eexists. split; [reflexivity|]. split; [done|].
    split; [repeat (apply pool_rep_write; [done|]); apply pool_rep_bundles;
            repeat (apply pool_rep_write; [done|]); done|].
    split; [eapply Hu2; subst wd wc; cbn [set_msgs set_bundles msgs];
            rewrite !list_insert_insert_eq; reflexivity|].
    cbn [set_msgs msgs bundles]. rewrite Hd1, Hbc. split; [done|].
    exists (Bundle.mkBundle (Some bm)). rewrite <- Hbc at 1. split; [done|].
    subst wd. cbn [set_bundles bundles]. by rewrite Hbc.
  - rewrite bind_ret. subst wc. do 2 mwrite_in Hl. do 2 eexists.
    split; [reflexivity|]. split; [done|].
    split; [repeat (apply pool_rep_write; [done|]); done|].
    split; [eapply Hu2; cbn [set_msgs msgs]; rewrite !list_insert_insert_eq; reflexivity|].
    split; [exact Hl|exact Hbs].
Qed.

(** *** Concrete instances *)

Definition w0 : world := mkWorld [blank; set_data (Some 0%nat) (set_what 7 blank)]
  [Bundle.new] (mkMessagePool 42 None 0) [].

Lemma w0_pool : pool_rep w0 [].
Proof. split; cbn; try done. apply NoDup_nil_2. Defined.

Lemma pool_reuse_witness :
  exists w1 w2 l2, recycle 0 w0 = (Ok tt, w1) /\ obtain w1 = (Ok l2, w2) /\
    msgs w2 !! l2 = Some blank /\
    (Z.of_nat (@length nat []) < 42 -> l2 = 0%nat /\ pool_rep w2 []) /\
    (Z.of_nat (@length nat []) = 42 -> head [] = Some l2 /\ pool_rep w2 (tail [])).
Proof.
  apply (pool_reuse w0 [] 0 blank); [apply w0_pool|reflexivity|apply not_elem_of_nil].
Defined.

Lemma obtain_copy_isolated_witness :
  exists l w', obtain_copy (Some 1%nat) w0 = (Ok l, w') /\ l <> 1%nat /\
    pool_rep w' (tail []) /\ unchanged_except [l] w0 w' /\
    msgs w' !! l = Some (copied (set_data (Some 0%nat) (set_what 7 blank)) (Some 1%nat)) /\
    exists bm, bundles w0 !! 0%nat = Some bm /\ bundles w' = bundles w0 ++ [bm].
Proof.
  apply (obtain_copy_isolated w0 [] 1 (set_data (Some 0%nat) (set_what 7 blank)));
    [apply w0_pool|reflexivity|apply not_elem_of_nil|].
  intros b [= <-]. eexists. reflexivity.
Defined.
End Message.
