(* ===== verification/ByteArrays.v ===== *)
(** * lang/ByteArray.cpp, lang/System.cpp: byte arrays and their copies

    Byte arrays are shared mutable objects.  They live in one store, indexed by an object number;
    a [sp<ByteArray>] is an optional index.  Sizes and positions are [size_t]: sums wrap at 2^64.
    Raw accesses through [c_arr()] outside the array are undefined behaviour, and so is a
    [memcpy] between overlapping ranges. *)

From S2P Require Import Prelude.
Open Scope Z_scope.

(** ** Integers as bytes *)

Module Bytes.
(** Little-endian: the [n] low bytes of [z], and back. *)
Fixpoint le_split (n : nat) (z : Z) : list Z :=
  match n with
  | O => []
  | S n => Z.land z 255 :: le_split n (Z.shiftr z 8)
  end.

Fixpoint le_combine (bs : list Z) : Z :=
  match bs with
  | [] => 0
  | b :: bs => Z.lor b (Z.shiftl (le_combine bs) 8)
  end.

(** Big-endian. *)
Definition be_split (n : nat) (z : Z) : list Z := reverse (le_split n z).
Definition be_combine (bs : list Z) : Z := le_combine (reverse bs).

Lemma land_255 z : Z.land z 255 = z mod 2 ^ 8.
Proof. change 255 with (Z.ones 8). apply Z.land_ones. lia. Qed.

Lemma length_le_split n z : length (le_split n z) = n.
Proof. revert z. induction n; intros; simpl; auto. Qed.

Lemma le_split_bytes n z : Forall is_byte (le_split n z).
Proof.
  revert z. induction n as [|n IH]; intros z; simpl; constructor; [|apply IH].
  rewrite land_255. apply Z.mod_pos_bound. lia.
Qed.

Lemma lor_shiftl b z : is_byte b -> Z.lor b (Z.shiftl z 8) = b + 2 ^ 8 * z.
Proof.
  intros Hb. unfold is_byte in Hb. rewrite Z.shiftl_mul_pow2, (Z.mul_comm z) by lia.
  symmetry. apply Z.add_nocarry_lor. apply Z.bits_inj'. intros n Hn.
  rewrite Z.land_spec, Z.bits_0, Z.mul_comm. destruct (Z.ltb_spec n 8).
  - rewrite Z.mul_pow2_bits_low by lia. apply andb_false_r.
  - destruct (Z.eq_dec b 0) as [->|]; [by rewrite Z.bits_0|].
    rewrite (Z.bits_above_log2 b n); [done|lia|].
    apply Z.log2_lt_pow2; [lia|]. apply Z.lt_le_trans with (2 ^ 8); [lia|].
    apply Z.pow_le_mono_r; lia.
Qed.

Lemma le_combine_range bs : Forall is_byte bs -> 0 <= le_combine bs < 2 ^ (8 * Z.of_nat (length bs)).
Proof.
  induction 1 as [|b bs Hb _ IH]; simpl le_combine; [simpl; lia|].
  rewrite lor_shiftl by done. cbn [length]. rewrite Nat2Z.inj_succ, Z.mul_succ_r, Z.pow_add_r by lia.
  unfold is_byte in Hb. nia.
Qed.

Lemma combine_split n z : le_combine (le_split n z) = z mod 2 ^ (8 * Z.of_nat n).
Proof.
  revert z. induction n as [|n IH]; intros z; [by rewrite Z.mod_1_r|].
  cbn [le_split le_combine]. rewrite IH, lor_shiftl, land_255, Z.shiftr_div_pow2 by
    (lia || (rewrite land_255; apply Z.mod_pos_bound; lia)).
  rewrite Nat2Z.inj_succ, Z.mul_succ_r, Z.add_comm, Z.pow_add_r, (Z.mul_comm (2 ^ (8 * _))) by lia.
  rewrite Z.rem_mul_r by lia. lia.
Qed.

Lemma split_combine bs : Forall is_byte bs -> le_split (length bs) (le_combine bs) = bs.
Proof.
  induction 1 as [|b bs Hb _ IH]; [done|]. cbn [length le_split le_combine].
  rewrite lor_shiftl, land_255, Z.shiftr_div_pow2 by (done || lia). unfold is_byte in Hb. f_equal.
  - rewrite Z.mul_comm, Z.mod_add by lia. by apply Z.mod_small.
  - rewrite Z.mul_comm, Z.div_add, Z.div_small by lia. done.
Qed.

Lemma length_be_split n z : length (be_split n z) = n.
Proof. unfold be_split. by rewrite length_reverse, length_le_split. Qed.

Lemma be_split_bytes n z : Forall is_byte (be_split n z).
Proof. apply Forall_reverse, le_split_bytes. Qed.

Lemma be_combine_split n z : be_combine (be_split n z) = z mod 2 ^ (8 * Z.of_nat n).
Proof. unfold be_combine, be_split. by rewrite reverse_involutive, combine_split. Qed.

(** The low bytes do not see a wrap. *)
Lemma le_split_mod n z z' :
  z mod 2 ^ (8 * Z.of_nat n) = z' mod 2 ^ (8 * Z.of_nat n) -> le_split n z = le_split n z'.
Proof.
  intros E. rewrite <- (combine_split n z), <- (combine_split n z') in E.
  rewrite <- (split_combine (le_split n z)) by apply le_split_bytes.
  rewrite <- (split_combine (le_split n z')) by apply le_split_bytes.
  by rewrite !length_le_split, E.
Qed.
End Bytes.

Module ByteArray.

Definition heap : Type := list (list Z).

(** [n] bytes from position [off], and the array with [xs] written there. *)
Definition slice (off n : Z) (bs : list Z) : list Z := take (Z.to_nat n) (drop (Z.to_nat off) bs).
Definition splice (off : Z) (xs bs : list Z) : list Z :=
  take (Z.to_nat off) bs ++ xs ++ drop (Z.to_nat off + length xs) bs.
Definition zlen (bs : list Z) : Z := Z.of_nat (length bs).

Definition deref {S} (p : option nat) : M S nat :=
  match p with Some l => mret l | None => undefined end.

Definition load (b : nat) : M heap (list Z) := fun h =>
  match h !! b with Some bs => (Ok bs, h) | None => (Undef, h) end.
Definition store (b : nat) (bs : list Z) : M heap unit := fun h => (Ok tt, <[b := bs]> h).
Definition alloc (bs : list Z) : M heap nat := fun h => (Ok (length h), h ++ [bs]).

(* lang/ByteArray.cpp:25-26 ByteArray::ByteArray(size) *)
Definition new (size : Z) : M heap nat := alloc (replicate (Z.to_nat size) 0).

(* lang/ByteArray.cpp:28-32 ByteArray::ByteArray(other) *)
Definition new_copy (other : nat) : M heap nat := bs ← load other; alloc bs.

(** The bytes [[off, off + n)] through [c_arr()]. *)
Definition readRaw (b : nat) (off n : Z) : M heap (list Z) :=
  bs ← load b;
  if (0 <=? off) && (0 <=? n) && (off + n <=? zlen bs) then mret (slice off n bs) else undefined.

Definition writeRaw (b : nat) (off : Z) (xs : list Z) : M heap unit :=
  bs ← load b;
  if (0 <=? off) && (off + zlen xs <=? zlen bs) then store b (splice off xs bs) else undefined.

(* lang/ByteArray.cpp:34-35 ByteArray::ByteArray(buffer, size) *)
Definition new_prefix (buffer : nat) (size : Z) : M heap nat :=
  bs ← readRaw buffer 0 size; alloc bs.

(* lang/ByteArray.cpp:41-43 ByteArray::size *)
Definition size (this : nat) : M heap Z := bs ← load this; mret (zlen bs).

(* lang/ByteArray.cpp:65-67 ByteArray::clone *)
Definition clone (this : nat) : M heap nat := bs ← load this; alloc bs.

(* lang/ByteArray.cpp:83-88 ByteArray::get *)
Definition get (this : nat) (position : Z) : M heap Z :=
  bs ← load this;
  throw_if (zlen bs <=? position) IndexOutOfBoundsException;;
  match bs !! Z.to_nat position with Some b => mret b | None => undefined end.

(* lang/ByteArray.cpp:90-95 ByteArray::set *)
Definition set (this : nat) (position value : Z) : M heap unit :=
  bs ← load this;
  throw_if (zlen bs <=? position) IndexOutOfBoundsException;;
  store this (<[Z.to_nat position := value]> bs).

(* lang/ByteArray.cpp:104-113 ByteArray::operator== *)
Definition equals (this : nat) (other : option nat) : M heap bool :=
  match other with
  | None => mret false
  | Some o => a ← load this; b ← load o; mret (bool_decide (a = b))
  end.

(** [std::memmove], and [std::memcpy], which must not overlap. *)
Definition memmove (dest : nat) (dOff : Z) (src : nat) (sOff n : Z) : M heap unit :=
  xs ← readRaw src sOff n; writeRaw dest dOff xs.

Definition overlap (dest : nat) (dOff : Z) (src : nat) (sOff n : Z) : bool :=
  bool_decide (dest = src) && (dOff <? sOff + n) && (sOff <? dOff + n).

Definition memcpy (dest : nat) (dOff : Z) (src : nat) (sOff n : Z) : M heap unit :=
  if overlap dest dOff src sOff n then undefined else memmove dest dOff src sOff n.

(* lang/System.cpp:67-76 System::arraycopy *)
Definition arraycopy (src : option nat) (srcPos : Z) (dest : option nat) (destPos length : Z) :
    M heap unit :=
  match src, dest with
  | Some s, Some d =>
      ss ← size s;
      ds ← size d;
      throw_if ((ss <? u64 (srcPos + length)) || (ds <? u64 (destPos + length)))
        IndexOutOfBoundsException;;
      memcpy d destPos s srcPos length
  | _, _ => throw NullPointerException
  end.

(** *** Their equations *)

Lemma zlen_nonneg bs : 0 <= zlen bs.
Proof. unfold zlen. lia. Qed.

Lemma zlen_app a b : zlen (a ++ b) = zlen a + zlen b.
Proof. unfold zlen. rewrite length_app. lia. Qed.

Lemma zlen_slice off n bs : 0 <= off -> 0 <= n -> off + n <= zlen bs -> zlen (slice off n bs) = n.
Proof. unfold zlen, slice. rewrite length_take, length_drop. lia. Qed.

Lemma zlen_splice off xs bs : 0 <= off -> off + zlen xs <= zlen bs -> zlen (splice off xs bs) = zlen bs.
Proof. unfold zlen, splice. rewrite !length_app, length_take, length_drop. lia. Qed.

Lemma slice_all bs : slice 0 (zlen bs) bs = bs.
Proof. unfold slice, zlen. rewrite Nat2Z.id. apply firstn_all. Qed.

Lemma slice_splice off xs bs :
  0 <= off -> off + zlen xs <= zlen bs -> slice off (zlen xs) (splice off xs bs) = xs.
Proof.
  unfold slice, splice, zlen. intros H0 H. rewrite Nat2Z.id, drop_app_length'.
  - by rewrite take_app_length.
  - rewrite length_take. lia.
Qed.

(** Bytes outside the written range keep their values. *)
Lemma splice_lookup_out off xs bs i :
  0 <= off -> off + zlen xs <= zlen bs ->
  (Z.of_nat i < off \/ off + zlen xs <= Z.of_nat i) -> splice off xs bs !! i = bs !! i.
Proof.
  unfold splice, zlen. intros H0 H [Hi|Hi].
  - rewrite lookup_app_l by (rewrite length_take; lia). apply lookup_take_lt. lia.
  - rewrite lookup_app_r by (rewrite length_take; lia). rewrite length_take.
    rewrite lookup_app_r by lia. rewrite lookup_drop. f_equal. lia.
Qed.

Lemma slice_lookup off n bs i :
  0 <= off -> (i < Z.to_nat n)%nat -> slice off n bs !! i = bs !! (Z.to_nat off + i)%nat.
Proof. intros H Hi. unfold slice. rewrite lookup_take_lt, lookup_drop by lia. done. Qed.

(** A slice that the write does not touch. *)
Lemma slice_splice_out off n off' xs bs :
  0 <= off -> 0 <= n -> off + n <= zlen bs -> 0 <= off' -> off' + zlen xs <= zlen bs ->
  (off + n <= off' \/ off' + zlen xs <= off) -> slice off n (splice off' xs bs) = slice off n bs.
Proof.
  intros H0 Hn Hl H0' Hl' Hd. apply list_eq_same_length with (n := Z.to_nat n).
  - pose proof (zlen_slice off n bs H0 Hn Hl). unfold zlen in *. lia.
  - pose proof (zlen_slice off n (splice off' xs bs) H0 Hn) as E.
    rewrite zlen_splice in E by done. specialize (E Hl). unfold zlen in *. lia.
  - intros i x y Hi Hx Hy. rewrite slice_lookup in Hx, Hy by lia.
    rewrite splice_lookup_out in Hx by lia. congruence.
Qed.

(** Adjacent writes are one write. *)
Lemma splice_app off xs ys bs :
  0 <= off -> off + zlen xs + zlen ys <= zlen bs ->
  splice (off + zlen xs) ys (splice off xs bs) = splice off (xs ++ ys) bs.
Proof.
  unfold zlen. intros H0 H. unfold splice at 1.
  replace (Z.to_nat (off + Z.of_nat (length xs))) with (Z.to_nat off + length xs)%nat by lia.
  unfold splice. set (a := take (Z.to_nat off) bs).
  assert (length (a ++ xs) = Z.to_nat off + length xs)%nat as Ha.
  { unfold a. rewrite length_app, length_take. lia. }
  rewrite (app_assoc a xs), take_app_length' by done. rewrite <- !app_assoc. do 3 f_equal.
  rewrite app_assoc, drop_app_ge by lia. rewrite drop_drop, Ha, length_app. f_equal. lia.
Qed.

Lemma slice_app off a b bs :
  0 <= off -> 0 <= a -> 0 <= b -> slice off (a + b) bs = slice off a bs ++ slice (off + a) b bs.
Proof.
  intros H0 Ha Hb. unfold slice. rewrite !Z2Nat.inj_add by lia.
  rewrite <- drop_drop, <- take_take_drop. done.
Qed.

Lemma splice_Forall (P : Z -> Prop) off xs bs :
  Forall P bs -> Forall P xs -> Forall P (splice off xs bs).
Proof.
  intros Hb Hx. unfold splice. apply Forall_app. split; [by apply Forall_take|].
  apply Forall_app. split; [done|by apply Forall_drop].
Qed.

Lemma drop_slice p n k bs :
  0 <= p -> 0 <= k <= n -> drop (Z.to_nat k) (slice p n bs) = slice (p + k) (n - k) bs.
Proof.
  intros Hp Hk. unfold slice.
  rewrite skipn_firstn_comm, drop_drop. f_equal; [lia|]. f_equal. lia.
Qed.

Lemma take_slice p n k bs : 0 <= k <= n -> take (Z.to_nat k) (slice p n bs) = slice p k bs.
Proof. intros Hk. unfold slice. rewrite take_take. f_equal. lia. Qed.

Lemma slice_bytes off n bs : Forall is_byte bs -> Forall is_byte (slice off n bs).
Proof. intros Hb. by apply Forall_take, Forall_drop. Qed.

Lemma heap_insert_id (h : heap) b bs : h !! b = Some bs -> <[b := bs]> h = h.
Proof. apply list_insert_id. Qed.
Lemma heap_insert_twice (h : heap) b bs bs' : <[b := bs']> (<[b := bs]> h) = <[b := bs']> h.
Proof. apply list_insert_insert_eq. Qed.
Lemma heap_lookup_eq (h : heap) b bs bs' : h !! b = Some bs -> <[b := bs']> h !! b = Some bs'.
Proof. intros H. apply list_lookup_insert_eq. by eapply lookup_lt_Some. Qed.
Lemma heap_lookup_ne (h : heap) b b' bs : b <> b' -> <[b := bs]> h !! b' = h !! b'.
Proof. apply list_lookup_insert_ne. Qed.

Lemma load_eq h b bs : h !! b = Some bs -> load b h = (Ok bs, h).
Proof. intros H. unfold load. by rewrite H. Qed.

Lemma size_eq h b bs : h !! b = Some bs -> size b h = (Ok (zlen bs), h).
Proof. intros H. unfold size. by mstep (load_eq _ _ _ H). Qed.

Lemma readRaw_eq h b bs off n :
  h !! b = Some bs -> 0 <= off -> 0 <= n -> off + n <= zlen bs ->
  readRaw b off n h = (Ok (slice off n bs), h).
Proof.
  intros H H0 Hn Hl. unfold readRaw. mstep (load_eq _ _ _ H).
  by rewrite (proj2 (Z.leb_le _ _) H0), (proj2 (Z.leb_le _ _) Hn), (proj2 (Z.leb_le _ _) Hl).
Qed.

Lemma writeRaw_eq h b bs off xs :
  h !! b = Some bs -> 0 <= off -> off + zlen xs <= zlen bs ->
  writeRaw b off xs h = (Ok tt, <[b := splice off xs bs]> h).
Proof.
  intros H H0 Hl. unfold writeRaw. mstep (load_eq _ _ _ H).
  by rewrite (proj2 (Z.leb_le _ _) H0), (proj2 (Z.leb_le _ _) Hl).
Qed.

Lemma get_eq h b bs i v :
  h !! b = Some bs -> 0 <= i -> bs !! Z.to_nat i = Some v -> get b i h = (Ok v, h).
Proof.
  intros H H0 Hv. unfold get. mstep (load_eq _ _ _ H). apply lookup_lt_Some in Hv as Hlt.
  rewrite throw_if_false by (apply Z.leb_gt; unfold zlen; lia). by rewrite Hv.
Qed.

Lemma get_out h b bs i :
  h !! b = Some bs -> zlen bs <= i -> get b i h = (Throw IndexOutOfBoundsException, h).
Proof.
  intros H Hi. unfold get. mstep (load_eq _ _ _ H). by rewrite throw_if_true by by apply Z.leb_le.
Qed.

Lemma set_eq h b bs i v :
  h !! b = Some bs -> 0 <= i < zlen bs ->
  set b i v h = (Ok tt, <[b := <[Z.to_nat i := v]> bs]> h).
Proof.
  intros H Hi. unfold set. mstep (load_eq _ _ _ H).
  by rewrite throw_if_false by (apply Z.leb_gt; lia).
Qed.

(** A byte stored is a splice of one byte. *)
Lemma insert_splice i v bs :
  0 <= i < zlen bs -> <[Z.to_nat i := v]> bs = splice i [v] bs.
Proof.
  intros Hi. unfold splice, zlen in *. rewrite insert_take_drop by lia.
  cbn [app length]. do 3 f_equal. lia.
Qed.

Lemma memmove_eq h d ds dOff s ss sOff n :
  h !! s = Some ss -> h !! d = Some ds -> 0 <= sOff -> 0 <= dOff -> 0 <= n ->
  sOff + n <= zlen ss -> dOff + n <= zlen ds ->
  memmove d dOff s sOff n h = (Ok tt, <[d := splice dOff (slice sOff n ss) ds]> h).
Proof.
  intros Hs Hd H1 H2 Hn Hl1 Hl2. unfold memmove. mstep (readRaw_eq _ _ _ _ _ Hs H1 Hn Hl1).
  apply (writeRaw_eq _ _ _ _ _ Hd H2). by rewrite zlen_slice.
Qed.

(** A copy within bounds that does not overlap: the destination gets the bytes. *)
Lemma arraycopy_eq h d ds dOff s ss sOff n :
  h !! s = Some ss -> h !! d = Some ds -> 0 <= sOff -> 0 <= dOff -> 0 <= n ->
  sOff + n <= zlen ss -> dOff + n <= zlen ds -> zlen ss < 2 ^ 64 -> zlen ds < 2 ^ 64 ->
  overlap d dOff s sOff n = false ->
  arraycopy (Some s) sOff (Some d) dOff n h =
    (Ok tt, <[d := splice dOff (slice sOff n ss) ds]> h).
Proof.
  intros Hs Hd H1 H2 Hn Hl1 Hl2 Hw1 Hw2 Ho. unfold arraycopy.
  mstep (size_eq _ _ _ Hs). mstep (size_eq _ _ _ Hd). rewrite throw_if_false.
  - unfold memcpy. rewrite Ho. by apply memmove_eq.
  - rewrite !u64_id by lia. rewrite (proj2 (Z.ltb_ge _ _) Hl1). by apply Z.ltb_ge.
Qed.

Lemma overlap_ne d dOff s sOff n : d <> s -> overlap d dOff s sOff n = false.
Proof. intros H. unfold overlap. by rewrite bool_decide_eq_false_2. Qed.

(** [memcpy] between overlapping ranges. *)
Lemma arraycopy_overlaps h b bs sOff dOff n :
  h !! b = Some bs -> 0 <= sOff -> 0 <= dOff -> 0 <= n -> sOff + n <= zlen bs ->
  dOff + n <= zlen bs -> zlen bs < 2 ^ 64 -> dOff < sOff + n -> sOff < dOff + n ->
  arraycopy (Some b) sOff (Some b) dOff n h = (Undef, h).
Proof.
  intros Hb H1 H2 Hn Hl1 Hl2 Hw Ha Hb'. unfold arraycopy. do 2 mstep (size_eq _ _ _ Hb).
  rewrite throw_if_false.
  - unfold memcpy, overlap. rewrite bool_decide_eq_true_2 by done.
    by rewrite (proj2 (Z.ltb_lt _ _) Ha), (proj2 (Z.ltb_lt _ _) Hb').
  - rewrite !u64_id by lia. rewrite (proj2 (Z.ltb_ge _ _) Hl1). by apply Z.ltb_ge.
Qed.

(** [arraycopy] within one array copies correctly only between disjoint
    ranges; for overlapping ranges within bounds it runs [memcpy] on overlapping memory, which
    is undefined behaviour, where its description promises a copy as if through a temporary
    array. *)
Theorem arraycopy_overlap h b bs sOff dOff n :
  h !! b = Some bs -> 0 <= sOff -> 0 <= dOff -> 0 <= n -> sOff + n <= zlen bs ->
  dOff + n <= zlen bs -> zlen bs < 2 ^ 64 ->
  (sOff + n <= dOff \/ dOff + n <= sOff ->
    arraycopy (Some b) sOff (Some b) dOff n h = (Ok tt, <[b := splice dOff (slice sOff n bs) bs]> h)) /\
  (dOff < sOff + n -> sOff < dOff + n ->
    outcome (arraycopy (Some b) sOff (Some b) dOff n) h = Undef).
Proof.
  intros Hb H1 H2 Hn Hl1 Hl2 Hw. split.
  - intros Hd. apply arraycopy_eq; try done. unfold overlap. rewrite bool_decide_eq_true_2 by done.
    destruct (Z.ltb_spec dOff (sOff + n)), (Z.ltb_spec sOff (dOff + n)); (done || lia).
  - intros Ha Hb'. unfold outcome. by rewrite (arraycopy_overlaps h b bs).
Qed.

Lemma arraycopy_overlap_witness :
  arraycopy (Some 0%nat) 0 (Some 0%nat) 2 2 [[1; 2; 3; 4]] = (Ok tt, [[1; 2; 1; 2]]) /\
  outcome (arraycopy (Some 0%nat) 1 (Some 0%nat) 0 3) [[1; 2; 3; 4]] = Undef.
Proof.
  split.
  - apply (arraycopy_overlap [[1; 2; 3; 4]] 0 [1; 2; 3; 4] 0 2 2); done || (by left).
  - apply (arraycopy_overlap [[1; 2; 3; 4]] 0 [1; 2; 3; 4] 1 0 3); done.
Defined.
End ByteArray.
