(* ===== verification/ByteBuffers.v ===== *)
(** * nio/Buffer.cpp, nio/ByteBuffer.cpp, nio/ByteArrayBuffer.cpp: byte buffers

    A buffer is a window on a byte array of the store of [ByteArrays]: the state of an operation
    is the store and the buffer's fields.  Buffers made by [duplicate] and [slice] name the same
    array.  Positions and limits are [size_t] and wrap.  Typed accesses are made through a
    [reinterpret_cast] on the array's memory: the model takes a little-endian host that allows
    unaligned accesses; [float] and [double] values are their bit patterns. *)

From S2P Require Import Prelude ByteArrays.
Open Scope Z_scope.

Module ByteBuffer.
Import Bytes ByteArray.

(* nio/Buffer.h:101-105 Buffer (fields), with mBuffer and mOffset of ByteBuffer.h:287-288 *)
Record ByteBuffer := mkBuffer {
  mPosition : Z;
  mLimit : Z;
  mCapacity : Z;
  mReadOnly : bool;
  mBuffer : nat;
  mOffset : Z;
}.

Definition state : Type := heap * ByteBuffer.

Definition set_position p b := mkBuffer p (mLimit b) (mCapacity b) (mReadOnly b) (mBuffer b) (mOffset b).
Definition set_limit l b := mkBuffer (mPosition b) l (mCapacity b) (mReadOnly b) (mBuffer b) (mOffset b).

(** A call on the byte arrays; the fields of [this]; a write to them. *)
Definition onHeap {A} (m : M heap A) : M state A := zoom fst (fun h s => (h, snd s)) m.
Definition this {A} (f : ByteBuffer -> A) : M state A := gets (fun s => f (snd s)).
Definition update (f : ByteBuffer -> ByteBuffer) : M state unit := modify (fun s => (fst s, f (snd s))).

(** ** Buffer *)

(* nio/Buffer.cpp:29-31 Buffer::capacity *)
Definition capacity : M state Z := this mCapacity.

(* nio/Buffer.cpp:33-37 Buffer::clear *)
Definition clear : M state unit := update (fun b => set_position 0 (set_limit (mCapacity b) b)).

(* nio/Buffer.cpp:39-43 Buffer::flip *)
Definition flip : M state unit := update (fun b => set_position 0 (set_limit (mPosition b) b)).

(* nio/Buffer.cpp:45-47 Buffer::hasRemaining *)
Definition hasRemaining : M state bool := this (fun b => mPosition b <? mLimit b).

(* nio/Buffer.cpp:49-51 Buffer::isReadOnly *)
Definition isReadOnly : M state bool := this mReadOnly.

(* nio/Buffer.cpp:53-55 Buffer::limit *)
Definition limit : M state Z := this mLimit.

(* nio/Buffer.cpp:57-63 Buffer::limit(newLimit) *)
Definition limit_set (newLimit : Z) : M state unit :=
  cap ← this mCapacity;
  throw_if (cap <? newLimit) BufferOverflowException;;
  update (set_limit newLimit).

(* nio/Buffer.cpp:65-67 Buffer::position *)
Definition position : M state Z := this mPosition.

(* nio/Buffer.cpp:69-75 Buffer::position(newPosition) *)
Definition position_set (newPosition : Z) : M state unit :=
  lim ← this mLimit;
  throw_if (lim <? newPosition) BufferOverflowException;;
  update (set_position newPosition).

(** The bytes left, of a buffer's fields. *)
(* nio/Buffer.cpp:77-79 Buffer::remaining *)
Definition remaining (b : ByteBuffer) : Z :=
  if mPosition b <? mLimit b then mLimit b - mPosition b else 0.

(* nio/Buffer.cpp:81-84 Buffer::rewind *)
Definition rewind : M state unit := update (set_position 0).

(** ** ByteBuffer *)

(** The constructor, on the array's size. *)
(* nio/ByteBuffer.cpp:31-45 ByteBuffer::ByteBuffer *)
Definition newBuffer (buffer : nat) (pos lim cap : Z) (readOnly : bool) (off : Z) : M heap ByteBuffer :=
  throw_if (lim <? pos) IndexOutOfBoundsException;;
  throw_if (cap <? lim) IndexOutOfBoundsException;;
  n ← size buffer;
  throw_if (n <? cap) IndexOutOfBoundsException;;
  throw_if (n <? u64 (off + lim)) IndexOutOfBoundsException;;
  mret (mkBuffer pos lim cap readOnly buffer off).

(* nio/ByteArrayBuffer.cpp:30-32 ByteArrayBuffer::ByteArrayBuffer(byteArray, offset, size) *)
Definition wrap_range (buffer : nat) (off sz : Z) : M heap ByteBuffer :=
  newBuffer buffer 0 sz sz false off.

(* nio/ByteArrayBuffer.cpp:26-28 ByteArrayBuffer::ByteArrayBuffer(byteArray) *)
Definition wrap (buffer : nat) : M heap ByteBuffer :=
  n ← size buffer; wrap_range buffer 0 n.

(* nio/ByteArrayBuffer.cpp:22-24 ByteArrayBuffer::ByteArrayBuffer(capacity) *)
Definition allocate (cap : Z) : M heap ByteBuffer :=
  b ← ByteArray.new cap; wrap b.

(* nio/ByteBuffer.cpp:51-53 ByteBuffer::arrayOffset *)
Definition arrayOffset : M state Z := this mOffset.

(** The sum wraps. *)
(* nio/ByteBuffer.cpp:293-297 ByteBuffer::checkBufferOverflow *)
Definition checkBufferOverflow (index amount : Z) : M state unit :=
  lim ← this mLimit;
  throw_if (lim <? u64 (index + amount)) BufferOverflowException.

(* nio/ByteBuffer.cpp:299-303 ByteBuffer::checkBufferUnderflow *)
Definition checkBufferUnderflow (index amount : Z) : M state unit :=
  lim ← this mLimit;
  throw_if (lim <? u64 (index + amount)) BufferUnderflowException.

(** [*reinterpret_cast<T*>(mBuffer->c_arr() + mOffset + index)], the [n] bytes of a [T]; the
    address is computed modulo 2^64. *)
Definition loadScalar (index : Z) (n : nat) : M state Z :=
  b ← this mBuffer;
  off ← this mOffset;
  bs ← onHeap (readRaw b (i64 (off + index)) (Z.of_nat n));
  mret (le_combine bs).

Definition storeScalar (index : Z) (n : nat) (value : Z) : M state unit :=
  b ← this mBuffer;
  off ← this mOffset;
  onHeap (writeRaw b (i64 (off + index)) (le_split n value)).

(** [mPosition += n] *)
Definition advance (n : Z) : M state unit :=
  update (fun b => set_position (u64 (mPosition b + n)) b).

(* nio/ByteBuffer.cpp:95-98 ByteBuffer::get(index) *)
Definition get_at (index : Z) : M state Z :=
  checkBufferUnderflow index 1;;
  b ← this mBuffer;
  off ← this mOffset;
  onHeap (ByteArray.get b (u64 (off + index))).

(** The position moves before the bounds check. *)
(* nio/ByteBuffer.cpp:91-93 ByteBuffer::get *)
Definition get : M state Z :=
  p ← this mPosition; advance 1;; get_at p.

(* nio/ByteBuffer.cpp:106-109 ByteBuffer::getChar(index) *)
Definition getChar_at (index : Z) : M state Z :=
  checkBufferUnderflow index 1;;
  b ← this mBuffer;
  off ← this mOffset;
  v ← onHeap (ByteArray.get b (u64 (off + index)));
  mret (i8 v).

(* nio/ByteBuffer.cpp:100-104 ByteBuffer::getChar *)
Definition getChar : M state Z :=
  p ← this mPosition; v ← getChar_at p; advance 1;; mret v.

(* nio/ByteBuffer.cpp:117-120 ByteBuffer::getDouble(index) *)
Definition getDouble_at (index : Z) : M state Z :=
  checkBufferUnderflow index 8;; loadScalar index 8.

(* nio/ByteBuffer.cpp:111-115 ByteBuffer::getDouble *)
Definition getDouble : M state Z :=
  p ← this mPosition; v ← getDouble_at p; advance 8;; mret v.

(* nio/ByteBuffer.cpp:128-131 ByteBuffer::getFloat(index) *)
Definition getFloat_at (index : Z) : M state Z :=
  checkBufferUnderflow index 4;; loadScalar index 4.

(* nio/ByteBuffer.cpp:122-126 ByteBuffer::getFloat *)
Definition getFloat : M state Z :=
  p ← this mPosition; v ← getFloat_at p; advance 4;; mret v.

(* nio/ByteBuffer.cpp:139-142 ByteBuffer::getInt(index) *)
Definition getInt_at (index : Z) : M state Z :=
  checkBufferUnderflow index 4;; v ← loadScalar index 4; mret (i32 v).

(* nio/ByteBuffer.cpp:133-137 ByteBuffer::getInt *)
Definition getInt : M state Z :=
  p ← this mPosition; v ← getInt_at p; advance 4;; mret v.

(* nio/ByteBuffer.cpp:150-153 ByteBuffer::getLong(index) *)
Definition getLong_at (index : Z) : M state Z :=
  checkBufferUnderflow index 8;; v ← loadScalar index 8; mret (i64 v).

(* nio/ByteBuffer.cpp:144-148 ByteBuffer::getLong *)
Definition getLong : M state Z :=
  p ← this mPosition; v ← getLong_at p; advance 8;; mret v.

(* nio/ByteBuffer.cpp:161-164 ByteBuffer::getShort(index) *)
Definition getShort_at (index : Z) : M state Z :=
  checkBufferUnderflow index 2;; v ← loadScalar index 2; mret (i16 v).

(* nio/ByteBuffer.cpp:155-159 ByteBuffer::getShort *)
Definition getShort : M state Z :=
  p ← this mPosition; v ← getShort_at p; advance 2;; mret v.

(* nio/ByteBuffer.cpp:171-182 ByteBuffer::get(dst, offset, count) *)
Definition get_range (dst : option nat) (offset count : Z) : M state unit :=
  match dst with
  | None => throw NullPointerException
  | Some d =>
      n ← onHeap (size d);
      throw_if (n <? u64 (offset + count)) IndexOutOfBoundsException;;
      p ← this mPosition;
      checkBufferUnderflow p count;;
      b ← this mBuffer;
      off ← this mOffset;
      onHeap (arraycopy (Some b) (u64 (off + p)) dst offset count);;
      advance count
  end.

(* nio/ByteBuffer.cpp:166-169 ByteBuffer::get(dst) *)
Definition get_array (dst : option nat) : M state unit :=
  d ← deref dst; n ← onHeap (size d); get_range dst 0 n.

(* nio/ByteBuffer.cpp:188-192 ByteBuffer::put(index, value) *)
Definition put_at (index value : Z) : M state unit :=
  checkBufferOverflow index 1;;
  b ← this mBuffer;
  off ← this mOffset;
  onHeap (set b (u64 (off + index)) (u8 value)).

(* nio/ByteBuffer.cpp:184-186 ByteBuffer::put *)
Definition put (value : Z) : M state unit :=
  p ← this mPosition; advance 1;; put_at p value.

(* nio/ByteBuffer.cpp:198-202 ByteBuffer::putChar(index, value) *)
Definition putChar_at (index value : Z) : M state unit :=
  checkBufferOverflow index 1;;
  b ← this mBuffer;
  off ← this mOffset;
  onHeap (set b (u64 (off + index)) (u8 value)).

(* nio/ByteBuffer.cpp:194-196 ByteBuffer::putChar *)
Definition putChar (value : Z) : M state unit :=
  p ← this mPosition; advance 1;; put_at p value.

(* nio/ByteBuffer.cpp:210-214 ByteBuffer::putDouble(index, value) *)
Definition putDouble_at (index value : Z) : M state unit :=
  checkBufferOverflow index 8;; storeScalar index 8 value.

(* nio/ByteBuffer.cpp:204-208 ByteBuffer::putDouble *)
Definition putDouble (value : Z) : M state unit :=
  p ← this mPosition; putDouble_at p value;; advance 8.

(* nio/ByteBuffer.cpp:222-226 ByteBuffer::putFloat(index, value) *)
Definition putFloat_at (index value : Z) : M state unit :=
  checkBufferOverflow index 4;; storeScalar index 4 value.

(* nio/ByteBuffer.cpp:216-220 ByteBuffer::putFloat *)
Definition putFloat (value : Z) : M state unit :=
  p ← this mPosition; putFloat_at p value;; advance 4.

(* nio/ByteBuffer.cpp:234-238 ByteBuffer::putInt(index, value) *)
Definition putInt_at (index value : Z) : M state unit :=
  checkBufferOverflow index 4;; storeScalar index 4 value.

(* nio/ByteBuffer.cpp:228-232 ByteBuffer::putInt *)
Definition putInt (value : Z) : M state unit :=
  p ← this mPosition; putInt_at p value;; advance 4.

(* nio/ByteBuffer.cpp:246-250 ByteBuffer::putLong(index, value) *)
Definition putLong_at (index value : Z) : M state unit :=
  checkBufferOverflow index 8;; storeScalar index 8 value.

(* nio/ByteBuffer.cpp:240-244 ByteBuffer::putLong *)
Definition putLong (value : Z) : M state unit :=
  p ← this mPosition; putLong_at p value;; advance 8.

(* nio/ByteBuffer.cpp:258-262 ByteBuffer::putShort(index, value) *)
Definition putShort_at (index value : Z) : M state unit :=
  checkBufferOverflow index 2;; storeScalar index 2 value.

(* nio/ByteBuffer.cpp:252-256 ByteBuffer::putShort *)
Definition putShort (value : Z) : M state unit :=
  p ← this mPosition; putShort_at p value;; advance 2.

(* nio/ByteBuffer.cpp:268-279 ByteBuffer::put(src, offset, size) *)
Definition put_range (src : option nat) (offset sz : Z) : M state unit :=
  match src with
  | None => throw NullPointerException
  | Some s =>
      n ← onHeap (size s);
      throw_if (n <? u64 (offset + sz)) IndexOutOfBoundsException;;
      p ← this mPosition;
      checkBufferOverflow p sz;;
      b ← this mBuffer;
      off ← this mOffset;
      onHeap (arraycopy src offset (Some b) (u64 (off + p)) sz);;
      advance sz
  end.

(* nio/ByteBuffer.cpp:264-266 ByteBuffer::put(byteArray) *)
Definition put_array (src : option nat) : M state unit :=
  s ← deref src; n ← onHeap (size s); put_range src 0 n.

(** [std::memcmp]: the sign of the first difference. *)
Fixpoint memcmp (a b : list Z) : Z :=
  match a, b with
  | x :: a, y :: b => if x =? y then memcmp a b else if x <? y then -1 else 1
  | _, _ => 0
  end.

(** The bytes are read at the positions of the two buffers, without their offsets; the
    difference of the lengths is converted to [int32_t]. *)
(* nio/ByteBuffer.cpp:62-70 ByteBuffer::compareTo *)
Definition compareTo (other : ByteBuffer) : M state Z :=
  b ← this id;
  let count := if remaining b <? remaining other then remaining b else remaining other in
  xs ← onHeap (readRaw (mBuffer b) (mPosition b) count);
  ys ← onHeap (readRaw (mBuffer other) (mPosition other) count);
  let comparison := memcmp xs ys in
  if negb (comparison =? 0) then mret comparison
  else mret (i32 (u64 (remaining b - remaining other))).

(* nio/ByteBuffer.cpp:55-60 ByteBuffer::compareTo (pointer) *)
Definition compareTo_ptr (other : option ByteBuffer) : M state Z :=
  match other with
  | None => mret 0
  | Some o => compareTo o
  end.

(* nio/ByteBuffer.cpp:83-85 ByteBuffer::operator== *)
Definition equals (other : ByteBuffer) : M state bool :=
  c ← compareTo other; mret (c =? 0).

(* nio/ByteArrayBuffer.cpp:42-47 ByteArrayBuffer::compact *)
Definition compact : M state unit :=
  b ← this id;
  onHeap (memmove (mBuffer b) (mOffset b) (mBuffer b) (u64 (mOffset b + mPosition b)) (remaining b));;
  update (fun b => set_position (u64 (mLimit b - mPosition b)) b);;
  update (fun b => set_limit (mCapacity b) b).

(* nio/ByteArrayBuffer.cpp:49-51 ByteArrayBuffer::duplicate *)
Definition duplicate : M state ByteBuffer :=
  b ← this id;
  onHeap (newBuffer (mBuffer b) (mPosition b) (mLimit b) (mCapacity b) false (mOffset b)).

(* nio/ByteArrayBuffer.cpp:53-55 ByteArrayBuffer::slice *)
Definition slice : M state ByteBuffer :=
  b ← this id;
  onHeap (newBuffer (mBuffer b) 0 (remaining b) (remaining b) false (u64 (mPosition b + mOffset b))).

(** ** The window invariant *)

(** The buffer is a window of capacity [mCapacity] inside its array [bs].  The position may
    exceed the limit (the limit can be lowered below it) but not the capacity. *)
Record wf (s : state) (bs : list Z) : Prop := {
  wf_array : fst s !! mBuffer (snd s) = Some bs;
  wf_bytes : Forall is_byte bs;
  wf_offset : 0 <= mOffset (snd s);
  wf_limit : 0 <= mLimit (snd s) <= mCapacity (snd s);
  wf_window : mOffset (snd s) + mCapacity (snd s) <= zlen bs;
  wf_size : zlen bs < 2 ^ 63;
  wf_position : 0 <= mPosition (snd s) <= mCapacity (snd s);
}.

(** The scalar types and their operations. *)
Inductive scalar := SByte | SChar | SShort | SInt | SLong | SFloat | SDouble.

#[export] Instance scalar_eq_dec : EqDecision scalar.
Proof. solve_decision. Defined.

Definition width (k : scalar) : nat :=
  match k with SByte | SChar => 1 | SShort => 2 | SInt | SFloat => 4 | SLong | SDouble => 8 end.

Definition in_range (k : scalar) (v : Z) : Prop :=
  match k with
  | SByte => 0 <= v < 2 ^ 8
  | SChar => - 2 ^ 7 <= v < 2 ^ 7
  | SShort => - 2 ^ 15 <= v < 2 ^ 15
  | SInt => - 2 ^ 31 <= v < 2 ^ 31
  | SLong => - 2 ^ 63 <= v < 2 ^ 63
  | SFloat => 0 <= v < 2 ^ 32
  | SDouble => 0 <= v < 2 ^ 64
  end.

(** The value of the bytes, as the type reads it. *)
Definition decode (k : scalar) (z : Z) : Z :=
  match k with
  | SByte | SFloat | SDouble => z
  | SChar => i8 z
  | SShort => i16 z
  | SInt => i32 z
  | SLong => i64 z
  end.

Definition getAt (k : scalar) : Z -> M state Z :=
  match k with
  | SByte => get_at | SChar => getChar_at | SShort => getShort_at | SInt => getInt_at
  | SLong => getLong_at | SFloat => getFloat_at | SDouble => getDouble_at
  end.

Definition putAt (k : scalar) : Z -> Z -> M state unit :=
  match k with
  | SByte => put_at | SChar => putChar_at | SShort => putShort_at | SInt => putInt_at
  | SLong => putLong_at | SFloat => putFloat_at | SDouble => putDouble_at
  end.

Definition getS (k : scalar) : M state Z :=
  match k with
  | SByte => get | SChar => getChar | SShort => getShort | SInt => getInt
  | SLong => getLong | SFloat => getFloat | SDouble => getDouble
  end.

Definition putS (k : scalar) : Z -> M state unit :=
  match k with
  | SByte => put | SChar => putChar | SShort => putShort | SInt => putInt
  | SLong => putLong | SFloat => putFloat | SDouble => putDouble
  end.

Definition enc (k : scalar) (v : Z) : list Z := le_split (width k) v.
Definition zwidth (k : scalar) : Z := Z.of_nat (width k).

(** Reading the bytes of a value of the type gives the value. *)
Lemma decode_enc k v : in_range k v -> decode k (le_combine (enc k v)) = v.
Proof.
  unfold enc. intros Hv. rewrite combine_split.
  destruct k; cbn [in_range decode width] in *;
    first [apply (signed_wrap 8); lia|apply (signed_wrap 16); lia|apply (signed_wrap 32); lia
      |apply (signed_wrap 64); lia|apply Z.mod_small; cbn; lia].
Qed.

Lemma zlen_enc k v : zlen (enc k v) = zwidth k.
Proof. unfold zlen, enc. by rewrite length_le_split. Qed.

Lemma zwidth_pos k : 0 < zwidth k <= 8.
Proof. destruct k; unfold zwidth; cbn; lia. Qed.

(** *** Accesses inside the window *)

Ltac widths :=
  change (Z.of_nat 1) with 1 in *; change (Z.of_nat 2) with 2 in *;
  change (Z.of_nat 4) with 4 in *; change (Z.of_nat 8) with 8 in *.

Lemma check_over s bs i n :
  wf s bs -> 0 <= i -> 0 <= n -> i + n <= mLimit (snd s) -> checkBufferOverflow i n s = (Ok tt, s).
Proof.
  intros H Hi Hn Hl. destruct H. unfold checkBufferOverflow, this. rewrite bind_gets.
  rewrite u64_id by lia. by rewrite (proj2 (Z.ltb_ge _ _) Hl).
Qed.

Lemma check_under s bs i n :
  wf s bs -> 0 <= i -> 0 <= n -> i + n <= mLimit (snd s) -> checkBufferUnderflow i n s = (Ok tt, s).
Proof.
  intros H Hi Hn Hl. destruct H. unfold checkBufferUnderflow, this. rewrite bind_gets.
  rewrite u64_id by lia. by rewrite (proj2 (Z.ltb_ge _ _) Hl).
Qed.

(** The array after a write through the buffer. *)
Definition wrote (i : Z) (xs bs : list Z) (s : state) : state :=
  (<[mBuffer (snd s) := splice (mOffset (snd s) + i) xs bs]> (fst s), snd s).

Lemma buffer_onHeap_eq {A} (m : M heap A) s r h' : m (fst s) = (r, h') -> onHeap m s = (r, (h', snd s)).
Proof. intros H. unfold onHeap, zoom. by rewrite H. Qed.

Lemma buffer_onHeap_read {A} (m : M heap A) s r : m (fst s) = (r, fst s) -> onHeap m s = (r, s).
Proof. intros H. rewrite (buffer_onHeap_eq _ _ _ _ H). by destruct s. Qed.

Lemma slice_one off bs b : 0 <= off -> bs !! Z.to_nat off = Some b -> ByteArray.slice off 1 bs = [b].
Proof.
  intros H Hb. apply list_eq. intros [|i].
  - rewrite slice_lookup by lia. by rewrite Nat.add_0_r.
  - unfold ByteArray.slice. cbn [lookup list_lookup]. change (Z.to_nat 1) with 1%nat.
    rewrite lookup_take_ge by lia. by destruct i.
Qed.

Lemma getAt_eq k s bs i :
  wf s bs -> 0 <= i -> i + zwidth k <= mLimit (snd s) ->
  getAt k i s = (Ok (decode k (le_combine (ByteArray.slice (mOffset (snd s) + i) (zwidth k) bs))), s).
Proof.
  intros H Hi Hl. pose proof H as [Hb Hbytes Ho Hlim Hw Hsz _]. pose proof (zwidth_pos k) as Hk.
  assert (forall n, (0 < n)%nat -> i + Z.of_nat n <= mLimit (snd s) ->
    loadScalar i n s = (Ok (le_combine (ByteArray.slice (mOffset (snd s) + i) (Z.of_nat n) bs)), s)) as Hload.
  { intros n Hn Hin. unfold loadScalar, this. rewrite !bind_gets. rewrite i64_id by lia.
    by mstep (buffer_onHeap_read _ s _ (readRaw_eq _ _ _ (mOffset (snd s) + i) (Z.of_nat n) Hb
      ltac:(lia) ltac:(lia) ltac:(lia))). }
  assert (zwidth k = 1 -> exists b, is_byte b /\
    onHeap (ByteArray.get (mBuffer (snd s)) (u64 (mOffset (snd s) + i))) s = (Ok b, s) /\
    le_combine (ByteArray.slice (mOffset (snd s) + i) 1 bs) = b) as Hbyte.
  { intros E. unfold zlen in *.
    destruct (lookup_lt_is_Some_2 bs (Z.to_nat (mOffset (snd s) + i))) as [b Hbi]; [lia|].
    exists b. split; [|split].
    - rewrite Forall_forall in Hbytes. by apply Hbytes, list_elem_of_lookup_2 with (Z.to_nat (mOffset (snd s) + i)).
    - apply buffer_onHeap_read. rewrite u64_id by lia. by eapply get_eq; [|lia|].
    - rewrite (slice_one _ _ b) by (done || lia). apply Z.lor_0_r. }
  pose proof (check_under s bs i (zwidth k) H Hi ltac:(lia) Hl) as Hc.
  destruct k; unfold zwidth in *; cbn [width] in *; widths; cbn [getAt decode].
  1: destruct (Hbyte eq_refl) as (b & _ & Hg & ->); unfold get_at, this; mstep Hc;
     rewrite !bind_gets; exact Hg.
  1: destruct (Hbyte eq_refl) as (b & _ & Hg & ->); unfold getChar_at, this; mstep Hc;
     rewrite !bind_gets; by mstep Hg.
  - unfold getShort_at. mstep Hc. by mstep (Hload 2%nat ltac:(lia) Hl).
  - unfold getInt_at. mstep Hc. by mstep (Hload 4%nat ltac:(lia) Hl).
  - unfold getLong_at. mstep Hc. by mstep (Hload 8%nat ltac:(lia) Hl).
  - unfold getFloat_at. mstep Hc. exact (Hload 4%nat ltac:(lia) Hl).
  - unfold getDouble_at. mstep Hc. exact (Hload 8%nat ltac:(lia) Hl).
Qed.

Lemma putAt_eq k s bs i v :
  wf s bs -> 0 <= i -> i + zwidth k <= mLimit (snd s) ->
  putAt k i v s = (Ok tt, wrote i (enc k v) bs s).
Proof.
  intros H Hi Hl. pose proof H as [Hb Hbytes Ho Hlim Hw Hsz _]. pose proof (zwidth_pos k) as Hk.
  assert (forall n, i + Z.of_nat n <= mLimit (snd s) ->
    storeScalar i n v s = (Ok tt, wrote i (le_split n v) bs s)) as Hstore.
  { intros n Hin. unfold storeScalar, this. rewrite !bind_gets. rewrite i64_id by lia.
    apply buffer_onHeap_eq. apply writeRaw_eq; [done|lia|].
    unfold zlen at 1. rewrite length_le_split. lia. }
  assert (zwidth k = 1 -> onHeap (set (mBuffer (snd s)) (u64 (mOffset (snd s) + i)) (u8 v)) s =
    (Ok tt, wrote i (le_split 1 v) bs s)) as Hbyte.
  { intros E. apply buffer_onHeap_eq. rewrite u64_id by lia.
    rewrite (set_eq _ _ bs) by (done || lia). rewrite insert_splice by lia.
    cbn [le_split]. rewrite land_255. done. }
  pose proof (check_over s bs i (zwidth k) H Hi ltac:(lia) Hl) as Hc. unfold enc.
  destruct k; unfold zwidth in *; cbn [width] in *; widths; cbn [putAt].
  - unfold put_at, this. mstep Hc. rewrite !bind_gets. by apply Hbyte.
  - unfold putChar_at, this. mstep Hc. rewrite !bind_gets. by apply Hbyte.
  - unfold putShort_at. mstep Hc. by apply Hstore.
  - unfold putInt_at. mstep Hc. by apply Hstore.
  - unfold putLong_at. mstep Hc. by apply Hstore.
  - unfold putFloat_at. mstep Hc. by apply Hstore.
  - unfold putDouble_at. mstep Hc. by apply Hstore.
Qed.

Lemma wf_wrote s bs i xs :
  wf s bs -> Forall is_byte xs -> 0 <= i -> i + zlen xs <= mLimit (snd s) ->
  wf (wrote i xs bs s) (splice (mOffset (snd s) + i) xs bs).
Proof.
  intros [Hb Hby Ho Hl Hw Hs Hp] Hx Hi Hn. unfold wrote. split; cbn [fst snd]; try done.
  - by apply list_lookup_insert_eq, lookup_lt_Some with bs.
  - by apply splice_Forall.
  - by rewrite zlen_splice by lia.
  - by rewrite zlen_splice by lia.
Qed.

Lemma scalar_bytes k v : Forall is_byte (enc k v).
Proof. apply le_split_bytes. Qed.

Lemma check_fails s bs i k :
  wf s bs -> 0 <= i < 2 ^ 63 -> mLimit (snd s) < i + zwidth k ->
  getAt k i s = (Throw BufferUnderflowException, s) /\
  forall v, putAt k i v s = (Throw BufferOverflowException, s).
Proof.
  intros H Hi Hl. pose proof (zwidth_pos k) as Hk.
  assert (checkBufferUnderflow i (zwidth k) s = (Throw BufferUnderflowException, s)) as Hu.
  { unfold checkBufferUnderflow, this. rewrite bind_gets, u64_id by lia.
    by rewrite (proj2 (Z.ltb_lt _ _) Hl). }
  assert (checkBufferOverflow i (zwidth k) s = (Throw BufferOverflowException, s)) as Ho.
  { unfold checkBufferOverflow, this. rewrite bind_gets, u64_id by lia.
    by rewrite (proj2 (Z.ltb_lt _ _) Hl). }
  destruct k; unfold zwidth in *; cbn [width] in *; widths; (split; [|intros v]);
    (exact (bind_Throw _ _ _ _ _ Hu) || exact (bind_Throw _ _ _ _ _ Ho)).
Qed.

(** for each scalar type, a value put at an index inside the limit is what a
    get at that index returns; the put changes only the bytes of the value, and neither moves
    the position.  Outside the limit both throw and change nothing. *)
Theorem scalar_put_get k s bs i v :
  wf s bs -> in_range k v -> 0 <= i < 2 ^ 63 ->
  (i + zwidth k <= mLimit (snd s) ->
    exists h' bs', putAt k i v s = (Ok tt, (h', snd s)) /\ wf (h', snd s) bs' /\
      getAt k i (h', snd s) = (Ok v, (h', snd s)) /\
      (forall b, b <> mBuffer (snd s) -> h' !! b = fst s !! b) /\
      forall j, Z.of_nat j < mOffset (snd s) + i \/ mOffset (snd s) + i + zwidth k <= Z.of_nat j ->
        bs' !! j = bs !! j) /\
  (mLimit (snd s) < i + zwidth k ->
    putAt k i v s = (Throw BufferOverflowException, s) /\
    getAt k i s = (Throw BufferUnderflowException, s)).
Proof.
  intros H Hv Hi. split; [|intros Hl; split; by eapply check_fails].
  intros Hl. rewrite <- (zlen_enc k v) in Hl.
  pose proof (wf_wrote s bs i _ H (scalar_bytes k v) ltac:(lia) Hl) as H'.
  eexists _, _. rewrite (putAt_eq k s bs i v H) by (rewrite zlen_enc in Hl; lia).
  split; [reflexivity|]. change (<[_ := _]> (fst s), snd s) with (wrote i (enc k v) bs s).
  split; [exact H'|]. destruct H as [Hb Hby Ho Hlim Hw Hsz Hp]. split; [|split].
  - rewrite (getAt_eq k _ _ i H') by (cbn; rewrite zlen_enc in Hl; lia).
    cbn [wrote snd]. rewrite <- (zlen_enc k v), slice_splice by lia. by rewrite decode_enc.
  - intros b Hbne. by apply list_lookup_insert_ne.
  - intros j Hj. apply splice_lookup_out; [lia|lia|]. rewrite zlen_enc. lia.
Qed.

(** *** Relative operations *)

Lemma buffer_advance_eq s n :
  0 <= mPosition (snd s) + n < 2 ^ 64 ->
  advance n s = (Ok tt, (fst s, set_position (mPosition (snd s) + n) (snd s))).
Proof. intros H. unfold advance, update, modify. by rewrite u64_id. Qed.

(** The state with the position moved over [n] bytes. *)
Definition moved (n : Z) (s : state) : state :=
  (fst s, set_position (mPosition (snd s) + n) (snd s)).

Lemma wf_moved s bs n :
  wf s bs -> 0 <= mPosition (snd s) + n <= mCapacity (snd s) -> wf (moved n s) bs.
Proof. intros [] Hn. by split. Qed.

Lemma getS_eq k s bs :
  wf s bs -> mPosition (snd s) + zwidth k <= mLimit (snd s) ->
  getS k s = (Ok (decode k (le_combine (ByteArray.slice
    (mOffset (snd s) + mPosition (snd s)) (zwidth k) bs))), moved (zwidth k) s).
Proof.
  intros H Hl. pose proof (zwidth_pos k) as Hk. pose proof (wf_position _ _ H) as Hp.
  pose proof (wf_limit _ _ H). pose proof (wf_window _ _ H). pose proof (wf_size _ _ H).
  pose proof (wf_offset _ _ H).
  pose proof (getAt_eq k s bs (mPosition (snd s)) H ltac:(lia) Hl) as Hg.
  pose proof (buffer_advance_eq s (zwidth k) ltac:(lia)) as Ha.
  pose proof (getAt_eq k _ bs (mPosition (snd s)) (wf_moved s bs (zwidth k) H ltac:(lia))
    ltac:(lia) Hl) as Hg2.
  destruct k; unfold zwidth in *; cbn [width] in *; widths; cbn [getAt decode] in *.
  1: unfold getS, get, this; rewrite bind_gets; mstep Ha; exact Hg2.
  all: cbn [getS]; unfold getChar, getShort, getInt, getLong, getFloat, getDouble, this;
    rewrite bind_gets; mstep Hg; by mstep Ha.
Qed.

Lemma putS_eq k v s bs :
  wf s bs -> mPosition (snd s) + zwidth k <= mLimit (snd s) ->
  putS k v s = (Ok tt, moved (zwidth k) (wrote (mPosition (snd s)) (enc k v) bs s)).
Proof.
  intros H Hl. pose proof (zwidth_pos k) as Hk. pose proof (wf_position _ _ H) as Hp.
  pose proof (wf_limit _ _ H). pose proof (wf_window _ _ H). pose proof (wf_size _ _ H).
  pose proof (wf_offset _ _ H).
  pose proof (putAt_eq k s bs (mPosition (snd s)) v H ltac:(lia) Hl) as Hg.
  pose proof (buffer_advance_eq s (zwidth k) ltac:(lia)) as Ha.
  pose proof (buffer_advance_eq (wrote (mPosition (snd s)) (enc k v) bs s) (zwidth k) ltac:(cbn; lia)) as Ha2.
  pose proof (putAt_eq SByte _ bs (mPosition (snd s)) v (wf_moved s bs (zwidth k) H ltac:(lia))
    ltac:(lia)) as Hg2.
  destruct k; unfold zwidth in *; cbn [width] in *; widths; cbn [putAt] in *.
  1-2: unfold putS, put, putChar, this; rewrite bind_gets; mstep Ha; exact (Hg2 Hl).
  all: cbn [putS]; unfold putShort, putInt, putLong, putFloat, putDouble, this;
    rewrite bind_gets; mstep Hg; exact Ha2.
Qed.

(** A record of scalars: written in order, read in order. *)
Fixpoint putAll (vs : list (scalar * Z)) : M state unit :=
  match vs with
  | [] => mret tt
  | (k, v) :: vs => putS k v;; putAll vs
  end.

Fixpoint getAll (ks : list scalar) : M state (list Z) :=
  match ks with
  | [] => mret []
  | k :: ks => v ← getS k; vs ← getAll ks; mret (v :: vs)
  end.

Definition encs (vs : list (scalar * Z)) : list Z := vs ≫= fun kv => enc (fst kv) (snd kv).

Lemma scalars_cons k v vs : encs ((k, v) :: vs) = enc k v ++ encs vs.
Proof. done. Qed.

Lemma encs_bytes vs : Forall is_byte (encs vs).
Proof.
  induction vs as [|[k v] vs IH]; [constructor|]. rewrite scalars_cons.
  apply Forall_app. split; [apply scalar_bytes|done].
Qed.

Lemma putAll_run vs : forall s bs,
  wf s bs -> mPosition (snd s) + zlen (encs vs) <= mLimit (snd s) ->
  putAll vs s = (Ok tt, moved (zlen (encs vs)) (wrote (mPosition (snd s)) (encs vs) bs s)).
Proof.
  induction vs as [|[k v] vs IH]; intros [h b] bs H Hl; cbn [putAll].
  - pose proof (wf_array _ _ H) as Hb. cbn in Hb. unfold moved, wrote, mret, M_ret.
    cbn [fst snd encs mbind list_bind zlen length].
    assert (splice (mOffset b + mPosition b) [] bs = bs) as ->.
    { unfold splice. cbn [app length]. rewrite Nat.add_0_r. apply take_drop. }
    rewrite (heap_insert_id h (mBuffer b) bs Hb). unfold zlen. cbn [length]. rewrite Z.add_0_r. by destruct b.
  - rewrite scalars_cons, zlen_app, zlen_enc in *. pose proof (zlen_nonneg (encs vs)).
    pose proof (zwidth_pos k). pose proof (wf_position _ _ H) as Hp. pose proof (wf_limit _ _ H).
    pose proof (wf_window _ _ H). pose proof (wf_offset _ _ H). cbn [fst snd] in *.
    assert (wf (moved (zwidth k) (wrote (mPosition b) (enc k v) bs (h, b)))
      (splice (mOffset b + mPosition b) (enc k v) bs)) as Hw1.
    { apply wf_moved; [|cbn [snd] in *; cbn; lia].
      by apply wf_wrote; [|apply scalar_bytes|lia|rewrite zlen_enc; cbn [snd] in *; lia]. }
    mstep (putS_eq k v (h, b) bs H ltac:(cbn [snd] in *; lia)). cbn [snd].
    rewrite (IH _ _ Hw1) by (cbn [snd moved wrote set_position mPosition mLimit fst] in *; lia).
    unfold moved, wrote. cbn [fst snd set_position mBuffer mOffset mPosition] in *.
    rewrite heap_insert_twice, (Z.add_assoc (mOffset b)).
    rewrite <- (zlen_enc k v) at 1. rewrite splice_app by (rewrite ?zlen_enc; lia).
    by rewrite Z.add_assoc.
Qed.

Lemma getAll_eq vs : forall s bs,
  wf s bs -> mPosition (snd s) + zlen (encs vs) <= mLimit (snd s) ->
  Forall (fun kv => in_range (fst kv) (snd kv)) vs ->
  ByteArray.slice (mOffset (snd s) + mPosition (snd s)) (zlen (encs vs)) bs = encs vs ->
  getAll vs.*1 s = (Ok vs.*2, moved (zlen (encs vs)) s).
Proof.
  induction vs as [|[k v] vs IH]; intros s bs H Hl Hr Hs.
  - unfold moved. cbn. unfold zlen. cbn. rewrite Z.add_0_r. by destruct s as [h []].
  - rewrite scalars_cons, zlen_app, zlen_enc in *. pose proof (zlen_nonneg (encs vs)).
    pose proof (zwidth_pos k). pose proof (wf_position _ _ H). pose proof (wf_limit _ _ H).
    pose proof (wf_window _ _ H). pose proof (wf_offset _ _ H).
    apply Forall_cons in Hr as [Hv Hr]. cbn [fst snd] in Hv.
    rewrite slice_app in Hs by lia.
    assert (length (ByteArray.slice (mOffset (snd s) + mPosition (snd s)) (zwidth k) bs) =
      length (enc k v)) as Hlen.
    { apply Nat2Z.inj. change (zlen (ByteArray.slice (mOffset (snd s) + mPosition (snd s))
        (zwidth k) bs) = zlen (enc k v)). by rewrite zlen_slice, zlen_enc by lia. }
    apply app_inj_1 in Hs as [Hs1 Hs2]; [|done].
    cbn [fmap list_fmap fst snd getAll]. mstep (getS_eq k s bs H ltac:(lia)).
    rewrite Hs1, decode_enc by done.
    mstep (IH (moved (zwidth k) s) bs (wf_moved s bs (zwidth k) H ltac:(lia)) ltac:(cbn; lia) Hr
      ltac:(cbn; by rewrite Z.add_assoc)).
    unfold moved. cbn. by rewrite Z.add_assoc.
Qed.

(** a sequence of scalars of any types put into a cleared buffer that has
    room for it, after [flip], is read back by the gets of the same types as the same values,
    and then nothing remains. *)
Theorem stream_roundtrip s bs vs :
  wf s bs -> zlen (encs vs) <= mCapacity (snd s) ->
  Forall (fun kv => in_range (fst kv) (snd kv)) vs ->
  exists s1 s2 s3, (clear;; putAll vs) s = (Ok tt, s1) /\ flip s1 = (Ok tt, s2) /\
    getAll vs.*1 s2 = (Ok vs.*2, s3) /\ hasRemaining s3 = (Ok false, s3) /\
    mPosition (snd s3) = zlen (encs vs).
Proof.
  intros H Hc Hr. pose proof (wf_limit _ _ H) as Hlim. pose proof (wf_position _ _ H) as Hp.
  pose proof (wf_window _ _ H). pose proof (wf_offset _ _ H). pose proof (zlen_nonneg (encs vs)).
  set (s0 := (fst s, set_position 0 (set_limit (mCapacity (snd s)) (snd s)))).
  assert (wf s0 bs) as Hw0 by (destruct H; split; cbn; try done; lia).
  assert (wf (wrote 0 (encs vs) bs s0) (splice (mOffset (snd s0) + 0) (encs vs) bs)) as Hw1
    by (apply wf_wrote; [done|apply encs_bytes|lia|done]).
  set (s2 := (fst (wrote 0 (encs vs) bs s0), set_position 0 (set_limit (zlen (encs vs)) (snd s0)))).
  assert (wf s2 (splice (mOffset (snd s0) + 0) (encs vs) bs)) as Hw2.
  { destruct Hw1. split; cbn in *; try done; lia. }
  exists (moved (zlen (encs vs)) (wrote 0 (encs vs) bs s0)), s2, (moved (zlen (encs vs)) s2).
  split; [|split; [done|split; [|split]]].
  - change (putAll vs s0 = (Ok tt, moved (zlen (encs vs)) (wrote 0 (encs vs) bs s0))).
    exact (putAll_run vs s0 bs Hw0 Hc).
  - apply (getAll_eq vs s2 _ Hw2); [cbn; lia|done|]. cbn. apply slice_splice; lia.
  - unfold hasRemaining, this, gets. cbn. by rewrite Z.ltb_irrefl.
  - done.
Qed.

(** *** Bulk operations *)

Lemma put_range_eq s bs src ss off n :
  wf s bs -> fst s !! src = Some ss -> src <> mBuffer (snd s) -> zlen ss < 2 ^ 63 ->
  0 <= off -> 0 <= n -> off + n <= zlen ss -> mPosition (snd s) + n <= mLimit (snd s) ->
  put_range (Some src) off n s =
    (Ok tt, moved n (wrote (mPosition (snd s)) (ByteArray.slice off n ss) bs s)).
Proof.
  intros H Hs Hne Hsz Ho Hn Hl Hp. pose proof H as [Hb Hby Hoff Hlim Hw Hbz Hpos].
  unfold put_range. mstep (buffer_onHeap_read _ _ _ (size_eq _ _ _ Hs)).
  rewrite throw_if_false by (apply Z.ltb_ge; rewrite u64_id; lia).
  unfold this. rewrite bind_gets. mstep (check_over _ _ _ _ H (proj1 Hpos) Hn Hp).
  rewrite !bind_gets, u64_id by lia.
  assert (arraycopy (Some src) off (Some (mBuffer (snd s))) (mOffset (snd s) + mPosition (snd s)) n (fst s) =
    (Ok tt, <[mBuffer (snd s) := splice (mOffset (snd s) + mPosition (snd s))
      (ByteArray.slice off n ss) bs]> (fst s))) as Hrun.
  { apply arraycopy_eq; try done; try lia. apply overlap_ne. congruence. }
  mstep (buffer_onHeap_eq _ _ _ _ Hrun). by rewrite buffer_advance_eq by (cbn; lia).
Qed.

Lemma get_range_eq s bs dst ds off n :
  wf s bs -> fst s !! dst = Some ds -> dst <> mBuffer (snd s) -> zlen ds < 2 ^ 63 ->
  0 <= off -> 0 <= n -> off + n <= zlen ds -> mPosition (snd s) + n <= mLimit (snd s) ->
  get_range (Some dst) off n s =
    (Ok tt, moved n (<[dst := splice off (ByteArray.slice
      (mOffset (snd s) + mPosition (snd s)) n bs) ds]> (fst s), snd s)).
Proof.
  intros H Hs Hne Hsz Ho Hn Hl Hp. pose proof H as [Hb Hby Hoff Hlim Hw Hbz Hpos].
  unfold get_range. mstep (buffer_onHeap_read _ _ _ (size_eq _ _ _ Hs)).
  rewrite throw_if_false by (apply Z.ltb_ge; rewrite u64_id; lia).
  unfold this. rewrite bind_gets. mstep (check_under _ _ _ _ H (proj1 Hpos) Hn Hp).
  rewrite !bind_gets, u64_id by lia.
  assert (arraycopy (Some (mBuffer (snd s))) (mOffset (snd s) + mPosition (snd s)) (Some dst) off n (fst s) =
    (Ok tt, <[dst := splice off (ByteArray.slice (mOffset (snd s) + mPosition (snd s)) n bs) ds]>
      (fst s))) as Hrun.
  { apply arraycopy_eq; try done; try lia. by apply overlap_ne. }
  mstep (buffer_onHeap_eq _ _ _ _ Hrun). by rewrite buffer_advance_eq by (cbn; lia).
Qed.

(** bytes put from one array and got back into another at the same position
    are the bytes of the source, the rest of the destination is unchanged, and the position
    moves by the count each time. *)
Theorem bulk_roundtrip s bs src ss dst ds so d n :
  wf s bs -> fst s !! src = Some ss -> Forall is_byte ss -> fst s !! dst = Some ds ->
  src <> mBuffer (snd s) -> dst <> mBuffer (snd s) -> zlen ss < 2 ^ 63 -> zlen ds < 2 ^ 63 ->
  0 <= so -> 0 <= d -> 0 <= n -> so + n <= zlen ss -> d + n <= zlen ds ->
  mPosition (snd s) + n <= mLimit (snd s) ->
  exists s1 s2 s3, put_range (Some src) so n s = (Ok tt, s1) /\
    position_set (mPosition (snd s)) s1 = (Ok tt, s2) /\
    get_range (Some dst) d n s2 = (Ok tt, s3) /\
    fst s3 !! dst = Some (splice d (ByteArray.slice so n ss) ds) /\
    mPosition (snd s3) = mPosition (snd s) + n.
Proof.
  intros H Hs Hsb Hd Hns Hnd Hss Hds Hso Hdo Hn Hls Hld Hl.
  pose proof H as [Hb Hby Hoff Hlim Hw Hbz Hpos].
  set (xs := ByteArray.slice so n ss).
  assert (zlen xs = n) as Hx by by apply zlen_slice.
  set (s1 := moved n (wrote (mPosition (snd s)) xs bs s)).
  set (s2 := (fst s1, set_position (mPosition (snd s)) (snd s1))).
  set (bs' := splice (mOffset (snd s) + mPosition (snd s)) xs bs).
  assert (fst s2 = <[mBuffer (snd s) := bs']> (fst s)) as Ef by done.
  exists s1, s2. eexists. split; [by apply put_range_eq|]. split.
  { unfold position_set, this. rewrite bind_gets.
    rewrite throw_if_false by (apply Z.ltb_ge; cbn; lia). done. }
  assert (Forall is_byte xs) as Hxb.
  { unfold xs, ByteArray.slice. apply Forall_take, Forall_drop, Hsb. }
  assert (wf s2 bs') as Hs2.
  { destruct (wf_wrote s bs (mPosition (snd s)) xs H Hxb) as []; [lia|lia|].
    by split; cbn in *. }
  pose proof (get_range_eq s2 bs' dst ds d n Hs2 ltac:(rewrite Ef; by rewrite heap_lookup_ne)
    Hnd Hds Hdo Hn Hld Hl) as Hrun.
  split; [exact Hrun|]. split; [|done]. cbn [moved fst snd s2 s1 set_position mOffset mPosition wrote].
  unfold bs'. rewrite <- Hx at 1. rewrite slice_splice by lia.
  eapply heap_lookup_eq. by rewrite heap_lookup_ne.
Qed.

(** [compact] moves the remaining bytes to the front of the window,
    sets the position behind them and the limit to the capacity, and touches no byte outside
    the window. *)
Theorem compact_keeps_remaining s bs :
  wf s bs -> mPosition (snd s) <= mLimit (snd s) ->
  exists h' b' bs', compact s = (Ok tt, (h', b')) /\ wf (h', b') bs' /\ zlen bs' = zlen bs /\
    mPosition b' = mLimit (snd s) - mPosition (snd s) /\ mLimit b' = mCapacity (snd s) /\
    ByteArray.slice (mOffset b') (mPosition b') bs' =
      ByteArray.slice (mOffset (snd s) + mPosition (snd s)) (mLimit (snd s) - mPosition (snd s)) bs /\
    forall j, Z.of_nat j < mOffset b' \/ mOffset b' + mPosition b' <= Z.of_nat j -> bs' !! j = bs !! j.
Proof.
  intros H Hpl. pose proof H as [Hb Hby Hoff Hlim Hw Hbz Hpos]. destruct s as [h b].
  cbn [fst snd] in *. set (n := mLimit b - mPosition b).
  set (xs := ByteArray.slice (mOffset b + mPosition b) n bs).
  assert (zlen xs = n) as Hx by (apply zlen_slice; unfold n; lia).
  assert (remaining b = n) as Hr.
  { unfold remaining, n. destruct (Z.ltb_spec (mPosition b) (mLimit b)); lia. }
  exists (<[mBuffer b := splice (mOffset b) xs bs]> h), (set_limit (mCapacity b) (set_position n b)),
    (splice (mOffset b) xs bs).
  split; [|split; [|split; [|split; [done|split; [done|split]]]]].
  - unfold compact, this. rewrite bind_gets. cbn [id snd]. rewrite Hr.
    rewrite u64_id by lia.
    erewrite (bind_Ok (onHeap _)).
    2: { apply buffer_onHeap_eq. cbn [fst]. apply (memmove_eq h _ bs _ _ bs); try done; unfold n; lia. }
    cbn beta. unfold update, modify. unfold mbind, M_bind. cbn -[u64].
    rewrite u64_id by (unfold n in *; lia). done.
  - split; cbn; try done; rewrite ?zlen_splice by (rewrite ?Hx; unfold n; lia); try done; try (unfold n; lia).
    + by eapply heap_lookup_eq.
    + apply splice_Forall; [done|]. unfold xs, ByteArray.slice. by apply Forall_take, Forall_drop.
  - rewrite zlen_splice; unfold n in *; lia.
  - cbn [set_limit set_position mPosition mOffset]. rewrite <- Hx. apply slice_splice; [lia|]. unfold n in *. lia.
  - cbn [set_limit set_position mPosition mOffset]. intros j Hj. apply splice_lookup_out; unfold n in *; lia.
Qed.

(** [slice] is a window on the remaining bytes: its capacity is what remains,
    and a scalar put through it is read by the original buffer at the position plus the index,
    and the other way round by a [duplicate]. *)
Theorem slice_shares k s bs i v :
  wf s bs -> mPosition (snd s) <= mLimit (snd s) -> in_range k v -> 0 <= i ->
  mPosition (snd s) + i + zwidth k <= mLimit (snd s) ->
  exists c d, slice s = (Ok c, s) /\ wf (fst s, c) bs /\ duplicate s = (Ok d, s) /\
    wf (fst s, d) bs /\ mCapacity c = mLimit (snd s) - mPosition (snd s) /\
    exists h', putAt k i v (fst s, c) = (Ok tt, (h', c)) /\
      getAt k (mPosition (snd s) + i) (h', snd s) = (Ok v, (h', snd s)) /\
      getAt k (mPosition (snd s) + i) (h', d) = (Ok v, (h', d)).
Proof.
  intros H Hpl Hv Hi Hl. pose proof H as [Hb Hby Hoff Hlim Hw Hbz Hpos]. destruct s as [h b].
  cbn [fst snd] in *. pose proof (zwidth_pos k) as Hk.
  assert (remaining b = mLimit b - mPosition b) as Hr.
  { unfold remaining. destruct (Z.ltb_spec (mPosition b) (mLimit b)); lia. }
  set (c := mkBuffer 0 (mLimit b - mPosition b) (mLimit b - mPosition b) false (mBuffer b)
    (mPosition b + mOffset b)).
  set (d := mkBuffer (mPosition b) (mLimit b) (mCapacity b) false (mBuffer b) (mOffset b)).
  assert (wf (h, c) bs) as Hc by (split; cbn; try done; lia).
  assert (wf (h, d) bs) as Hd by (split; cbn; try done; lia).
  assert (forall pos lim cap off, 0 <= pos <= lim -> lim <= cap -> off + cap <= zlen bs -> 0 <= off ->
    newBuffer (mBuffer b) pos lim cap false off h = (Ok (mkBuffer pos lim cap false (mBuffer b) off), h)) as Hnew.
  { intros pos lim cap off H1 H2 H3 H4. unfold newBuffer.
    rewrite !throw_if_false by (apply Z.ltb_ge; lia). mstep (size_eq _ _ _ Hb).
    rewrite !throw_if_false by (apply Z.ltb_ge; rewrite ?u64_id; lia). done. }
  exists c, d. split.
  { unfold slice, this. rewrite bind_gets. cbn [id snd]. rewrite Hr, u64_id by lia.
    apply buffer_onHeap_read, Hnew; lia. }
  split; [done|]. split.
  { unfold duplicate, this. rewrite bind_gets. apply buffer_onHeap_read, Hnew; cbn; lia. }
  split; [done|]. split; [done|].
  set (bs' := splice (mOffset c + i) (enc k v) bs).
  exists (<[mBuffer b := bs']> h). split; [by rewrite (putAt_eq k _ bs i v Hc) by (cbn; lia)|].
  assert (forall e : ByteBuffer, mBuffer e = mBuffer b -> mOffset e = mOffset b ->
    mLimit e = mLimit b -> wf (h, e) bs ->
    getAt k (mPosition b + i) (<[mBuffer b := bs']> h, e) = (Ok v, (<[mBuffer b := bs']> h, e))) as Hget.
  { intros e E1 E2 E3 He.
    assert (wf (<[mBuffer b := bs']> h, e) bs') as He'.
    { destruct He. split; cbn in *; try done; unfold bs'; rewrite ?zlen_splice by
        (rewrite ?zlen_enc; cbn; lia); try done.
      - rewrite E1. by eapply heap_lookup_eq.
      - apply splice_Forall; [done|apply scalar_bytes]. }
    rewrite (getAt_eq k _ _ _ He') by (cbn; lia). cbn [snd]. rewrite E2. unfold bs'. cbn [c mOffset].
    rewrite <- (zlen_enc k v).
    replace (mOffset b + (mPosition b + i)) with (mPosition b + mOffset b + i) by lia.
    rewrite slice_splice by (rewrite ?zlen_enc; lia). by rewrite decode_enc. }
  split; by apply Hget.
Qed.

(** ** Memory safety *)

Inductive op :=
  | OpClear | OpFlip | OpRewind
  | OpLimit (n : Z) | OpPosition (n : Z)
  | OpGet (k : scalar) | OpPut (k : scalar) (v : Z)
  | OpGetAt (k : scalar) (i : Z) | OpPutAt (k : scalar) (i v : Z)
  | OpGetRange (dst : option nat) (off n : Z) | OpPutRange (src : option nat) (off n : Z)
  | OpGetArray (dst : option nat) | OpPutArray (src : option nat)
  | OpCompact | OpSlice | OpDuplicate
  | OpCompareTo (other : option ByteBuffer) | OpEquals (other : ByteBuffer).

(** After [slice] and [duplicate] the state goes on with the new buffer. *)
Definition run (o : op) : M state unit :=
  match o with
  | OpClear => clear
  | OpFlip => flip
  | OpRewind => rewind
  | OpLimit n => limit_set n
  | OpPosition n => position_set n
  | OpGet k => getS k;; mret tt
  | OpPut k v => putS k v
  | OpGetAt k i => getAt k i;; mret tt
  | OpPutAt k i v => putAt k i v
  | OpGetRange dst off n => get_range dst off n
  | OpPutRange src off n => put_range src off n
  | OpGetArray dst => get_array dst
  | OpPutArray src => put_array src
  | OpCompact => compact
  | OpSlice => c ← slice; update (fun _ => c)
  | OpDuplicate => c ← duplicate; update (fun _ => c)
  | OpCompareTo other => compareTo_ptr other;; mret tt
  | OpEquals other => equals other;; mret tt
  end.

(** An array to copy from or to: not the buffer's own. *)
Definition other_array (a : option nat) (s : state) : Prop :=
  match a with
  | None => True
  | Some a => a <> mBuffer (snd s) /\ exists xs, fst s !! a = Some xs /\ Forall is_byte xs /\ zlen xs < 2 ^ 63
  end.

(** Indices, offsets and counts below 2^63; the byte operations, which move the position before they check it, not
    at the end of the window; copies from and to other arrays than the buffer's, and for a whole array not from or to
    a null pointer; [compact] with the position not behind the
    limit; a comparison with a window. *)
Definition permitted (o : op) (s : state) : Prop :=
  match o with
  | OpLimit n | OpPosition n => 0 <= n < 2 ^ 64
  | OpGetAt _ i | OpPutAt _ i _ => 0 <= i < 2 ^ 63
  | OpGet SByte | OpPut SByte _ | OpPut SChar _ => mPosition (snd s) < mCapacity (snd s)
  | OpGetRange a off n | OpPutRange a off n => other_array a s /\ 0 <= off < 2 ^ 63 /\ 0 <= n < 2 ^ 63
  | OpGetArray a | OpPutArray a => is_Some a /\ other_array a s
  | OpCompact => mPosition (snd s) <= mLimit (snd s)
  | OpCompareTo (Some other) | OpEquals other => exists xs, wf (fst s, other) xs
  | _ => True
  end.

Lemma get_fails s bs :
  wf s bs -> mLimit (snd s) < mPosition (snd s) + 1 ->
  get s = (Throw BufferUnderflowException, moved 1 s) /\
  forall v, put v s = (Throw BufferOverflowException, moved 1 s) /\
    putChar v s = (Throw BufferOverflowException, moved 1 s).
Proof.
  intros [] Hl. unfold get, put, putChar, this. rewrite !bind_gets.
  mstep (buffer_advance_eq s 1 ltac:(lia)). unfold get_at, put_at, checkBufferUnderflow, checkBufferOverflow, this.
  assert ((mLimit (snd s) <? u64 (mPosition (snd s) + 1)) = true) as E.
  { rewrite u64_id by lia. by apply Z.ltb_lt. }
  split; [|intros v; split]; rewrite ?bind_gets;
    try (mstep (buffer_advance_eq s 1 ltac:(lia)));
    (erewrite bind_Throw; [reflexivity|]); rewrite bind_gets; cbn [snd set_position mLimit];
    unfold throw_if; by rewrite E.
Qed.

Lemma getS_fails k s bs :
  wf s bs -> mLimit (snd s) < mPosition (snd s) + zwidth k -> k <> SByte ->
  getS k s = (Throw BufferUnderflowException, s).
Proof.
  intros H Hl Hk. destruct (check_fails s bs (mPosition (snd s)) k H) as [Hg _]; [destruct H; lia|done|].
  destruct k; try done; cbn [getS getAt] in *;
    unfold getChar, getShort, getInt, getLong, getFloat, getDouble, this; rewrite bind_gets;
    exact (bind_Throw _ _ _ _ _ Hg).
Qed.

Lemma putS_fails k v s bs :
  wf s bs -> mLimit (snd s) < mPosition (snd s) + zwidth k -> k <> SByte -> k <> SChar ->
  putS k v s = (Throw BufferOverflowException, s).
Proof.
  intros H Hl Hk Hk'. destruct (check_fails s bs (mPosition (snd s)) k H) as [_ Hg]; [destruct H; lia|done|].
  specialize (Hg v). destruct k; try done; cbn [putS putAt] in *;
    unfold putShort, putInt, putLong, putFloat, putDouble, this; rewrite bind_gets;
    exact (bind_Throw _ _ _ _ _ Hg).
Qed.

(** The call succeeds or throws, and leaves a window on an array of the same size. *)
Definition safe (m : M state unit) (s : state) (bs : list Z) : Prop :=
  exists r s' bs', m s = (r, s') /\ (r = Ok tt \/ exists e, r = Throw e) /\ wf s' bs' /\
    zlen bs' = zlen bs.

Lemma safe_ok m s bs s' bs' : m s = (Ok tt, s') -> wf s' bs' -> zlen bs' = zlen bs -> safe m s bs.
Proof. intros H Hw Hz. exists (Ok tt), s', bs'. split; [done|]. split; [by left|done]. Qed.

Lemma safe_throw m s bs e s' : m s = (Throw e, s') -> wf s' bs -> safe m s bs.
Proof. intros H Hw. exists (Throw e), s', bs. split; [done|]. split; [right; by exists e|done]. Qed.

Lemma wf_enc s bs i k v :
  wf s bs -> 0 <= i -> i + zwidth k <= mLimit (snd s) ->
  wf (wrote i (enc k v) bs s) (splice (mOffset (snd s) + i) (enc k v) bs) /\
  zlen (splice (mOffset (snd s) + i) (enc k v) bs) = zlen bs.
Proof.
  intros H Hi Hl. split; [apply wf_wrote; [done|apply scalar_bytes|done|by rewrite zlen_enc]|].
  destruct H. rewrite zlen_splice; rewrite ?zlen_enc; lia.
Qed.

Lemma safe_get k s bs : wf s bs -> permitted (OpGet k) s -> safe (run (OpGet k)) s bs.
Proof.
  intros H Hok. pose proof H as [_ _ _ Hlim _ _ Hp]. pose proof (zwidth_pos k) as Hk.
  cbn [run]. destruct (Z.le_gt_cases (mPosition (snd s) + zwidth k) (mLimit (snd s))) as [Hl|Hl].
  - eapply safe_ok; [exact (bind_Ok _ _ _ _ _ (getS_eq k s bs H Hl))|apply wf_moved; [done|lia]|done].
  - destruct (decide (k = SByte)) as [->|Hne].
    + destruct (get_fails s bs H) as [Hf _]; [unfold zwidth in Hl; cbn in Hl; lia|].
      eapply safe_throw; [exact (bind_Throw _ _ _ _ _ Hf)|apply wf_moved; [done|]].
      cbn [permitted] in Hok. lia.
    + eapply safe_throw; [|exact H].
      exact (bind_Throw _ _ _ _ _ (getS_fails k s bs H ltac:(lia) Hne)).
Qed.

Lemma safe_put k v s bs : wf s bs -> permitted (OpPut k v) s -> safe (run (OpPut k v)) s bs.
Proof.
  intros H Hok. pose proof H as [_ _ _ Hlim _ _ Hp]. pose proof (zwidth_pos k) as Hk. cbn [run].
  destruct (Z.le_gt_cases (mPosition (snd s) + zwidth k) (mLimit (snd s))) as [Hl|Hl].
  - destruct (wf_enc s bs (mPosition (snd s)) k v H ltac:(lia) Hl) as [Hw1 Hw2].
    eapply safe_ok; [exact (putS_eq k v s bs H Hl)|apply wf_moved; [exact Hw1|cbn; lia]|done].
  - pose proof (get_fails s bs H) as Hf.
    destruct (decide (k = SByte)) as [->|Hne]; [|destruct (decide (k = SChar)) as [->|Hne']].
    1-2: destruct Hf as [_ Hf]; [unfold zwidth in Hl; cbn in Hl; lia|]; cbn [permitted] in Hok;
      eapply safe_throw; [apply Hf|apply wf_moved; [done|lia]].
    eapply safe_throw; [|exact H]. by eapply putS_fails; [|lia|..].
Qed.

Lemma safe_get_range a off n s bs :
  wf s bs -> other_array a s -> 0 <= off < 2 ^ 63 -> 0 <= n < 2 ^ 63 -> safe (get_range a off n) s bs.
Proof.
  intros H Ha Ho Hn. pose proof H as [Hb Hby Hoff Hlim Hw Hbz Hpos]. destruct a as [a|]; [|by eapply safe_throw].
  destruct Ha as (Hne & xs & Hx & Hxb & Hxz).
  destruct (Z.le_gt_cases (off + n) (zlen xs)) as [H1|H1]; [destruct (Z.le_gt_cases (mPosition (snd s) + n) (mLimit (snd s))) as [H2|H2]|].
  - eapply safe_ok; [apply (get_range_eq s bs a xs off n); (done || lia)|apply wf_moved; [|cbn; lia]|done].
    split; cbn; try done. by rewrite heap_lookup_ne.
  - eapply safe_throw; [|exact H]. unfold get_range. mstep (buffer_onHeap_read _ _ _ (size_eq _ _ _ Hx)).
    rewrite throw_if_false by (apply Z.ltb_ge; rewrite u64_id; lia). unfold this. rewrite bind_gets.
    erewrite bind_Throw; [reflexivity|]. unfold checkBufferUnderflow, this. rewrite bind_gets, u64_id by lia.
    by apply throw_if_true_last, Z.ltb_lt.
  - eapply safe_throw; [|exact H]. unfold get_range. mstep (buffer_onHeap_read _ _ _ (size_eq _ _ _ Hx)).
    by rewrite throw_if_true by (apply Z.ltb_lt; rewrite u64_id; lia).
Qed.

Lemma safe_put_range a off n s bs :
  wf s bs -> other_array a s -> 0 <= off < 2 ^ 63 -> 0 <= n < 2 ^ 63 -> safe (put_range a off n) s bs.
Proof.
  intros H Ha Ho Hn. pose proof H as [Hb Hby Hoff Hlim Hw Hbz Hpos]. destruct a as [a|]; [|by eapply safe_throw].
  destruct Ha as (Hne & xs & Hx & Hxb & Hxz).
  destruct (Z.le_gt_cases (off + n) (zlen xs)) as [H1|H1]; [destruct (Z.le_gt_cases (mPosition (snd s) + n) (mLimit (snd s))) as [H2|H2]|].
  - assert (zlen (ByteArray.slice off n xs) = n) as Hz by (apply zlen_slice; lia).
    eapply safe_ok; [apply (put_range_eq s bs a xs off n); (done || lia)|apply wf_moved; [|cbn; lia]|].
    + apply wf_wrote; [done|unfold ByteArray.slice; by apply Forall_take, Forall_drop|lia|by rewrite Hz].
    + rewrite zlen_splice; lia.
  - eapply safe_throw; [|exact H]. unfold put_range. mstep (buffer_onHeap_read _ _ _ (size_eq _ _ _ Hx)).
    rewrite throw_if_false by (apply Z.ltb_ge; rewrite u64_id; lia). unfold this. rewrite bind_gets.
    erewrite bind_Throw; [reflexivity|]. unfold checkBufferOverflow, this. rewrite bind_gets, u64_id by lia.
    by apply throw_if_true_last, Z.ltb_lt.
  - eapply safe_throw; [|exact H]. unfold put_range. mstep (buffer_onHeap_read _ _ _ (size_eq _ _ _ Hx)).
    by rewrite throw_if_true by (apply Z.ltb_lt; rewrite u64_id; lia).
Qed.

Lemma safe_arrays a s bs :
  wf s bs -> is_Some a /\ other_array a s -> safe (get_array a) s bs /\ safe (put_array a) s bs.
Proof.
  intros H [[a' ->] Ha]. rename a' into a.
  assert (exists xs, fst s !! a = Some xs /\ zlen xs < 2 ^ 63) as (xs & Hx & Hz) by (destruct Ha as (_ & xs & ? & _ & ?); eauto).
  pose proof (Zle_0_nat (List.length xs)) as H0.
  destruct (safe_get_range (Some a) 0 (zlen xs) s bs H Ha ltac:(lia) ltac:(unfold zlen in *; lia)) as (r & s' & bs' & E & Hr).
  destruct (safe_put_range (Some a) 0 (zlen xs) s bs H Ha ltac:(lia) ltac:(unfold zlen in *; lia)) as (r2 & s2 & bs2 & E2 & Hr2).
  split; [exists r, s', bs'|exists r2, s2, bs2]; (split; [|done]); unfold get_array, put_array, deref; rewrite bind_ret;
    by mstep (buffer_onHeap_read _ _ _ (size_eq _ _ _ Hx)).
Qed.

Lemma newBuffer_ok h b bs pos lim cap off :
  h !! b = Some bs -> zlen bs < 2 ^ 63 -> 0 <= lim -> lim <= cap -> off + cap <= zlen bs -> 0 <= off ->
  newBuffer b pos lim cap false off h =
    (if lim <? pos then Throw IndexOutOfBoundsException else Ok (mkBuffer pos lim cap false b off), h).
Proof.
  intros Hb Hz H1 H2 H3 H4. unfold newBuffer. destruct (lim <? pos); [done|].
  rewrite !throw_if_false by (done || apply Z.ltb_ge; lia). mstep (size_eq _ _ _ Hb).
  by rewrite !throw_if_false by (apply Z.ltb_ge; rewrite ?u64_id; lia).
Qed.

Lemma remaining_range s bs : wf s bs -> 0 <= remaining (snd s) /\ mPosition (snd s) + remaining (snd s) <= mCapacity (snd s).
Proof. intros []. unfold remaining. destruct (Z.ltb_spec (mPosition (snd s)) (mLimit (snd s))); lia. Qed.

Lemma safe_windows s bs :
  wf s bs -> safe (c ← slice; update (fun _ => c)) s bs /\ safe (c ← duplicate; update (fun _ => c)) s bs.
Proof.
  intros H. pose proof H as [Hb Hby Hoff Hlim Hw Hbz Hpos]. pose proof (remaining_range s bs H) as [Hr1 Hr2]. destruct s as [h b]. cbn [fst snd] in *. split.
  - assert (slice (h, b) = (Ok (mkBuffer 0 (remaining b) (remaining b) false (mBuffer b) (mPosition b + mOffset b)), (h, b))) as E.
    { unfold slice, this. rewrite bind_gets. cbn [id snd]. apply buffer_onHeap_read. cbn [fst]. rewrite u64_id by lia.
      rewrite (newBuffer_ok h _ bs) by (done || lia). by rewrite (proj2 (Z.ltb_ge _ _) Hr1). }
    eapply safe_ok; [mstep E; reflexivity|split; cbn; try done; lia|done].
  - assert (duplicate (h, b) = (if mLimit b <? mPosition b then Throw IndexOutOfBoundsException
      else Ok (mkBuffer (mPosition b) (mLimit b) (mCapacity b) false (mBuffer b) (mOffset b)), (h, b))) as E.
    { unfold duplicate, this. rewrite bind_gets. cbn [id snd]. apply buffer_onHeap_read. cbn [fst].
      by rewrite (newBuffer_ok h _ bs) by (done || lia). }
    destruct (mLimit b <? mPosition b); [eapply safe_throw; [by rewrite (bind_Throw _ _ _ _ _ E)|done]|].
    eapply safe_ok; [mstep E; reflexivity|split; cbn; try done; lia|done].
Qed.

(** A comparison reads the arrays within their bounds, if not at the right place. *)
Lemma compareTo_ok s bs other xs : wf s bs -> wf (fst s, other) xs -> exists z, compareTo other s = (Ok z, s).
Proof.
  intros H H'. pose proof (remaining_range _ _ H) as [Hr1 Hr2]. pose proof (remaining_range _ _ H') as [Hr1' Hr2'].
  destruct H as [Hb Hby Hoff Hlim Hw Hbz Hpos], H' as [Hb' Hby' Hoff' Hlim' Hw' Hbz' Hpos']. destruct s as [h b]. cbn [fst snd] in *.
  unfold compareTo, this. rewrite bind_gets. cbn [id snd].
  set (count := if remaining b <? remaining other then remaining b else remaining other).
  assert (0 <= count <= remaining b /\ count <= remaining other) as [Hc1 Hc2].
  { unfold count. destruct (Z.ltb_spec (remaining b) (remaining other)); lia. }
  mstep (buffer_onHeap_read (readRaw (mBuffer b) (mPosition b) count) (h, b) _ (readRaw_eq h (mBuffer b) bs (mPosition b) count Hb ltac:(lia) ltac:(lia) ltac:(lia))).
  mstep (buffer_onHeap_read (readRaw (mBuffer other) (mPosition other) count) (h, b) _ (readRaw_eq h (mBuffer other) xs (mPosition other) count Hb' ltac:(lia) ltac:(lia) ltac:(lia))).
  destruct (negb _); eexists; reflexivity.
Qed.

(** C40: Within the discipline of [permitted] no operation of a byte buffer touches memory outside its arrays: each succeeds or
    throws, the window stays well-formed, as are the windows of slices and duplicates, and the array keeps its size.
    [permitted] asks that indices, offsets and counts are below 2^63, that a byte operation does not start at the end of
    the window, that bulk operations copy from or to another array (which may be null where a range is given), and that [compact] does not start with the position
    behind the limit. *)
Theorem buffer_safe o s bs :
  wf s bs -> permitted o s ->
  exists r s' bs', run o s = (r, s') /\ (r = Ok tt \/ exists e, r = Throw e) /\ wf s' bs' /\
    zlen bs' = zlen bs.
Proof.
  intros H Hok. pose proof H as [Hb Hby Ho Hlim Hw Hsz Hp]. change (safe (run o) s bs).
  destruct o as [| | |n|n|k|k v|k i|k i v|a off n|a off n|a|a| | | |other|other];
    try solve [by apply safe_get|by apply safe_put];
    cbn [run permitted] in *.
  1-3: eapply safe_ok; [reflexivity|split; cbn; try done; lia|done].
  - unfold safe, limit_set, this. rewrite bind_gets. destruct (Z.ltb_spec (mCapacity (snd s)) n);
      [eapply safe_throw; [reflexivity|done]|].
    eapply safe_ok; [reflexivity|split; cbn; try done; lia|done].
  - unfold safe, position_set, this. rewrite bind_gets. destruct (Z.ltb_spec (mLimit (snd s)) n);
      [eapply safe_throw; [reflexivity|done]|].
    eapply safe_ok; [reflexivity|split; cbn; try done; lia|done].
  - destruct (Z.le_gt_cases (i + zwidth k) (mLimit (snd s))) as [Hl|Hl].
    + by eapply safe_ok; [exact (bind_Ok _ _ _ _ _ (getAt_eq k s bs i H (proj1 Hok) Hl))|..].
    + by eapply safe_throw; [exact (bind_Throw _ _ _ _ _ (proj1 (check_fails s bs i k H Hok Hl)))|].
  - destruct (Z.le_gt_cases (i + zwidth k) (mLimit (snd s))) as [Hl|Hl].
    + destruct (wf_enc s bs i k v H (proj1 Hok) Hl).
      by eapply safe_ok; [exact (putAt_eq k s bs i v H (proj1 Hok) Hl)|..].
    + by eapply safe_throw; [exact (proj2 (check_fails s bs i k H Hok Hl) v)|].
  - destruct Hok as (Ha & Hoff & Hn). by apply safe_get_range.
  - destruct Hok as (Ha & Hoff & Hn). by apply safe_put_range.
  - by apply safe_arrays.
  - by apply safe_arrays.
  - destruct (compact_keeps_remaining s bs H Hok) as (h' & b' & bs' & E & Hwf & Hz & _). by eapply safe_ok.
  - by apply safe_windows.
  - by apply safe_windows.
  - destruct other as [other|]; [|by eapply safe_ok]. destruct Hok as [xs Hx]. destruct (compareTo_ok s bs other xs H Hx) as [z E].
    eapply safe_ok; [cbn [compareTo_ptr]; mstep E; reflexivity|done|done].
  - destruct Hok as [xs Hx]. destruct (compareTo_ok s bs other xs H Hx) as [z E].
    eapply safe_ok; [unfold equals; rewrite bind_assoc; mstep E; reflexivity|done|done].
Qed.

(** [compact] with the position behind the limit sets the position to a value beyond the capacity: the limit has been
    lowered below the position, nothing remains, and the difference of the two wraps. *)
Theorem compact_wraps s bs :
  wf s bs -> mLimit (snd s) < mPosition (snd s) ->
  exists s', compact s = (Ok tt, s') /\ mCapacity (snd s') < mPosition (snd s').
Proof.
  intros H Hl. pose proof H as [Hb Hby Hoff Hlim Hw Hbz Hpos]. destruct s as [h b]. cbn [fst snd] in *.
  assert (remaining b = 0) as Hr by (unfold remaining; by rewrite (proj2 (Z.ltb_ge _ _)) by lia).
  eexists. split.
  - unfold compact, this. rewrite bind_gets. cbn [id snd]. rewrite Hr, u64_id by lia.
    erewrite (bind_Ok (onHeap _)).
    2: { apply buffer_onHeap_eq. cbn [fst]. apply (memmove_eq h _ bs _ _ bs); try done; lia. }
    reflexivity.
  - cbn -[u64]. unfold u64. rewrite <- (Z.mod_unique (mLimit b - mPosition b) (2 ^ 64) (-1) (mLimit b - mPosition b + 2 ^ 64)) by lia. lia.
Qed.

(** the byte operations move the position even when they throw, so after
    four failed gets at the end of a full-size window [flip] sets the limit four past the
    capacity, and the next [putInt] at the capacity passes the check and writes past the end
    of the array. *)
Theorem flip_past_capacity s bs v :
  wf s bs -> mPosition (snd s) = mCapacity (snd s) -> mLimit (snd s) = mCapacity (snd s) ->
  mOffset (snd s) + mCapacity (snd s) = zlen bs ->
  let s' := exec flip (exec get (exec get (exec get (exec get s)))) in
  mCapacity (snd s') = mCapacity (snd s) /\ mLimit (snd s') = mCapacity (snd s) + 4 /\
  outcome (putInt_at (mCapacity (snd s)) v) s' = Undef.
Proof.
  intros [Hb Hby Ho Hlim Hw Hsz Hp] Hpos Hl Hend.
  assert (forall t, mLimit (snd t) = mLimit (snd s) -> mLimit (snd s) <= mPosition (snd t) < 2 ^ 63 + 4 ->
    exec get t = moved 1 t) as Hget.
  { intros t Ht Hpt. unfold exec, get, this. rewrite bind_gets. mstep (buffer_advance_eq t 1 ltac:(lia)).
    unfold get_at, checkBufferUnderflow, this. erewrite bind_Throw; [reflexivity|].
    rewrite bind_gets. apply throw_if_true_last. cbn. rewrite Ht, u64_id by lia. apply Z.ltb_lt. lia. }
  rewrite (Hget s), (Hget (moved 1 s)), (Hget (moved 1 (moved 1 s))),
    (Hget (moved 1 (moved 1 (moved 1 s)))) by (cbn; lia).
  cbn zeta. split; [done|]. split; [cbn; lia|].
  unfold outcome, putInt_at. erewrite bind_Ok.
  2: { unfold checkBufferOverflow, this. rewrite bind_gets. apply throw_if_false_last. cbn.
       rewrite u64_id by lia. apply Z.ltb_ge. lia. }
  cbn beta. unfold storeScalar, this. rewrite !bind_gets. unfold onHeap, zoom, writeRaw.
  cbn -[le_split i64].
  rewrite i64_id by lia. mstep (load_eq _ _ _ Hb).
  rewrite (zlen_enc SInt v : zlen (le_split 4 v) = 4).
  rewrite (proj2 (Z.leb_gt (mOffset (snd s) + mCapacity (snd s) + 4) (zlen bs))) by lia.
  by rewrite andb_false_r.
Qed.

(** the bounds check adds the index and the size modulo 2^64: an index just
    below 2^64 passes it, and the access lands before the array. *)
Theorem index_wraps s bs v :
  wf s bs -> mOffset (snd s) = 0 -> 2 <= mLimit (snd s) ->
  outcome (getInt_at (2 ^ 64 - 2)) s = Undef /\ outcome (putInt_at (2 ^ 64 - 2) v) s = Undef.
Proof.
  intros [Hb Hby Ho Hlim Hw Hsz Hp] H0 Hl.
  assert (u64 (2 ^ 64 - 2 + 4) = 2) as Eu by done.
  assert (i64 (2 ^ 64 - 2) = -2) as Ei by done.
  unfold outcome, getInt_at, putInt_at. split; (erewrite bind_Ok;
    [|unfold checkBufferUnderflow, checkBufferOverflow, this; rewrite bind_gets;
      apply throw_if_false_last; rewrite Eu; apply Z.ltb_ge; lia]); cbn beta;
    unfold loadScalar, storeScalar, this.
  - erewrite bind_Undef; [reflexivity|]. rewrite !bind_gets, H0, Z.add_0_l, Ei.
    erewrite bind_Undef; [reflexivity|]. unfold onHeap, zoom, readRaw. by mstep (load_eq _ _ _ Hb).
  - rewrite !bind_gets, H0, Z.add_0_l, Ei. unfold onHeap, zoom, writeRaw. by mstep (load_eq _ _ _ Hb).
Qed.

(** [compareTo] reads both arrays from the positions without the offsets: two
    slices with different contents compare as equal, and two with equal contents as different. *)
Theorem compare_slices :
  let h : heap := [[7; 7; 1; 2]; [7; 7; 3; 4]; [8; 8; 1; 2]] in
  let sl a := mkBuffer 0 2 2 false a 2 in
  wf (h, sl 0%nat) [7; 7; 1; 2] /\ wf (h, sl 1%nat) [7; 7; 3; 4] /\ wf (h, sl 2%nat) [8; 8; 1; 2] /\
  equals (sl 1%nat) (h, sl 0%nat) = (Ok true, (h, sl 0%nat)) /\
  equals (sl 2%nat) (h, sl 0%nat) = (Ok false, (h, sl 0%nat)).
Proof.
  assert (forall l, forallb (fun b => (0 <=? b) && (b <? 256)) l = true -> Forall is_byte l) as Hb.
  { intros l Hl. apply Forall_forall. intros x Hx. rewrite forallb_forall in Hl.
    specialize (Hl x (proj1 (list_elem_of_In _ _) Hx)). unfold is_byte. lia. }
  cbn zeta. split_and!; [by split; [|apply Hb|..]..|reflexivity|reflexivity].
Qed.

(** *** Concrete instances *)

Definition bs0 : list Z := [10; 20; 30; 40; 50; 60].
Definition s0 : state := ([bs0; [1; 2; 3]; [0; 0; 0]], mkBuffer 1 5 5 false 0 1).

Lemma s0_wf : wf s0 bs0.
Proof. split; try done. repeat constructor; done. Defined.

Lemma scalar_put_get_witness :
  exists h', putAt SShort 2 (-2) s0 = (Ok tt, (h', snd s0)) /\
    getAt SShort 2 (h', snd s0) = (Ok (-2), (h', snd s0)).
Proof.
  destruct (scalar_put_get SShort s0 bs0 2 (-2) s0_wf) as [H _]; [done..|].
  destruct H as (h' & bs' & ? & _ & ? & _); [done|]. by exists h'.
Defined.

Lemma stream_roundtrip_witness :
  exists s1 s2 s3, (clear;; putAll [(SShort, -5); (SChar, 3)]) s0 = (Ok tt, s1) /\
    flip s1 = (Ok tt, s2) /\ getAll [SShort; SChar] s2 = (Ok [-5; 3], s3) /\
    hasRemaining s3 = (Ok false, s3) /\ mPosition (snd s3) = 3.
Proof.
  apply (stream_roundtrip s0 bs0 [(SShort, -5); (SChar, 3)] s0_wf); [done|].
  repeat constructor; cbn; lia.
Defined.

Lemma bulk_roundtrip_witness :
  exists s1 s2 s3, put_range (Some 1%nat) 1 2 s0 = (Ok tt, s1) /\
    position_set 1 s1 = (Ok tt, s2) /\ get_range (Some 2%nat) 0 2 s2 = (Ok tt, s3) /\
    fst s3 !! 2%nat = Some [2; 3; 0] /\ mPosition (snd s3) = 3.
Proof.
  apply (bulk_roundtrip s0 bs0 1 [1; 2; 3] 2 [0; 0; 0] 1 0 2 s0_wf); try done.
  repeat constructor; done.
Defined.

Lemma compact_keeps_remaining_witness :
  exists h' b', compact s0 = (Ok tt, (h', b')) /\ mPosition b' = 4 /\ mLimit b' = 5.
Proof.
  destruct (compact_keeps_remaining s0 bs0 s0_wf) as (h' & b' & bs' & ? & _ & _ & ? & ? & _); [done|].
  by exists h', b'.
Defined.

Lemma slice_shares_witness :
  exists c, slice s0 = (Ok c, s0) /\
    exists h', putAt SShort 1 513 (fst s0, c) = (Ok tt, (h', c)) /\
      getAt SShort 2 (h', snd s0) = (Ok 513, (h', snd s0)).
Proof.
  destruct (slice_shares SShort s0 bs0 1 513 s0_wf) as (c & d & ? & _ & _ & _ & _ & h' & ? & ? & _);
    [done..|]. exists c. split; [done|]. by exists h'.
Defined.

Lemma buffer_safe_witness :
  exists r s' bs', run (OpPutRange (Some 1%nat) 1 2) s0 = (r, s') /\ (r = Ok tt \/ exists e, r = Throw e) /\
    wf s' bs' /\ zlen bs' = 6.
Proof.
  apply (buffer_safe (OpPutRange (Some 1%nat) 1 2) s0 bs0 s0_wf). split; [|split; split; (done || reflexivity)].
  split; [discriminate|]. exists [1; 2; 3]. split; [reflexivity|]. split; [repeat constructor; done|reflexivity].
Defined.

Lemma flip_past_capacity_witness :
  outcome (putInt_at 5 1) (exec flip (exec get (exec get (exec get (exec get
    (fst s0, set_position 5 (snd s0))))))) = Undef.
Proof.
  assert (wf (fst s0, set_position 5 (snd s0)) bs0) as H by (destruct s0_wf; by split).
  apply (flip_past_capacity _ bs0 1 H); done.
Defined.

Lemma index_wraps_witness :
  let s := (fst s0, mkBuffer 0 5 5 false 0 0) in
  outcome (getInt_at (2 ^ 64 - 2)) s = Undef /\ outcome (putInt_at (2 ^ 64 - 2) 1) s = Undef.
Proof.
  apply (index_wraps (fst s0, mkBuffer 0 5 5 false 0 0) bs0 1); [|done..].
  destruct s0_wf. by split.
Defined.
End ByteBuffer.
