(* ===== verification/Streams.v ===== *)
(** * io/: output and input streams

    A stream operation runs on the byte arrays and the stream's own fields.  [OutputStream] and
    [InputStream] are the two abstract classes: their operations, and the laws a stream owes its
    clients.  An output stream promises that it appends what is written to its [sink]; an input
    stream promises that reads take the front of its [rest], or return -1 at its end.  The data
    streams are proved against the interfaces; the byte array streams and the buffered output
    stream implement them.

    A wrapping stream holds the stream it wraps, so the model keeps the wrapped object inside the
    wrapper; nobody else uses it meanwhile. *)

From S2P Require Import Prelude ByteArrays.
Open Scope Z_scope.

Module Streams.
Import Bytes ByteArray.

Section ops.
Context {S : Type}.

Definition onHeap {A} (m : M heap A) : M (heap * S) A := zoom fst (fun h s => (h, snd s)) m.
Definition this {A} (f : S -> A) : M (heap * S) A := gets (fun s => f (snd s)).
Definition update (f : S -> S) : M (heap * S) unit := modify (fun s => (fst s, f (snd s))).

(** A call on a stream [T] that the object holds. *)
Definition inner {T A} (g : S -> T) (p : T -> S -> S) (m : M (heap * T) A) : M (heap * S) A :=
  zoom (fun s => (fst s, g (snd s))) (fun t s => (fst t, p (snd t) (snd s))) m.

Lemma onHeap_eq {A} (m : M heap A) s r h' : m (fst s) = (r, h') -> onHeap m s = (r, (h', snd s)).
Proof. intros H. unfold onHeap, zoom. by rewrite H. Qed.

Lemma onHeap_read {A} (m : M heap A) s r : m (fst s) = (r, fst s) -> onHeap m s = (r, s).
Proof. intros H. rewrite (onHeap_eq _ _ _ _ H). by destruct s. Qed.

Lemma inner_eq {T A} (g : S -> T) p (m : M (heap * T) A) h s r h' t' :
  m (h, g s) = (r, (h', t')) -> inner g p m (h, s) = (r, (h', p t' s)).
Proof. intros H. unfold inner, zoom. cbn. by rewrite H. Qed.
End ops.

(** Arrays outside [o] keep their contents, and stay outside the stream's arrays [o']. *)
Definition preserves (o o' : nat -> Prop) (h h' : heap) : Prop :=
  forall b bs, ~ o b -> h !! b = Some bs -> h' !! b = Some bs /\ ~ o' b.

Lemma preserves_refl o h : preserves o o h h.
Proof. by intros b bs Hb Hl. Qed.

Lemma preserves_trans o1 o2 o3 h1 h2 h3 :
  preserves o1 o2 h1 h2 -> preserves o2 o3 h2 h3 -> preserves o1 o3 h1 h3.
Proof. intros H1 H2 b bs Hb Hl. destruct (H1 b bs Hb Hl). by apply H2. Qed.

(** More arrays may be written than the call writes. *)
Lemma preserves_more (o1 o1' o2 o2' : nat -> Prop) h h' :
  (forall c, o1 c -> o2 c) -> (forall c, o2' c -> o1' c \/ o2 c) ->
  preserves o1 o1' h h' -> preserves o2 o2' h h'.
Proof.
  intros H1 H2 Hp b bs Hb Hl. destruct (Hp b bs) as [? Hn]; [auto|done|]. split; [done|].
  intros Hc. by destruct (H2 b Hc).
Qed.

(** No array that existed becomes one the stream depends on. *)
Definition apart (o o' : nat -> Prop) (h h' : heap) : Prop :=
  (length h <= length h')%nat /\ forall b, (b < length h)%nat -> ~ o b -> ~ o' b.

Lemma apart_refl o h : apart o o h h.
Proof. by split. Qed.

Lemma apart_trans o1 o2 o3 h1 h2 h3 : apart o1 o2 h1 h2 -> apart o2 o3 h2 h3 -> apart o1 o3 h1 h3.
Proof.
  intros [Hl1 H1] [Hl2 H2]. split; [lia|]. intros b Hb Hn. apply H2; [lia|]. by apply H1.
Qed.

(** The size up to which streams are used: no sum of sizes and counts wraps below it. *)
Definition MAX : Z := 2 ^ 60.

(** ** The interfaces *)

(* io/OutputStream.h:51-117 OutputStream *)
Class OutputStream (S : Type) := {
  write_array : option nat -> Z -> Z -> M (heap * S) unit;
  write_byte : Z -> M (heap * S) unit;
  flush : M (heap * S) unit;
}.

Class OutputStreamSpec (S : Type) `{OutputStream S} := {
  ovalid : heap -> S -> Prop;
  sink : heap -> S -> list Z;
  oowned : S -> nat -> Prop;
  write_array_ok : forall h s b bs off n,
    ovalid h s -> h !! b = Some bs -> ~ oowned s b -> Forall is_byte bs -> zlen bs < MAX ->
    0 <= off -> 0 <= n -> off + n <= zlen bs -> zlen (sink h s) + n < MAX ->
    exists h' s', write_array (Some b) off n (h, s) = (Ok tt, (h', s')) /\ ovalid h' s' /\
      sink h' s' = sink h s ++ slice off n bs /\ preserves (oowned s) (oowned s') h h';
  write_byte_ok : forall h s v,
    ovalid h s -> zlen (sink h s) + 1 < MAX ->
    exists h' s', write_byte v (h, s) = (Ok tt, (h', s')) /\ ovalid h' s' /\
      sink h' s' = sink h s ++ [u8 v] /\ preserves (oowned s) (oowned s') h h';
  flush_ok : forall h s,
    ovalid h s -> zlen (sink h s) < MAX ->
    exists h' s', flush (h, s) = (Ok tt, (h', s')) /\ ovalid h' s' /\
      sink h' s' = sink h s /\ preserves (oowned s) (oowned s') h h';
  (** Changes to arrays the stream does not own do not concern it. *)
  ovalid_frame : forall h h' s, ovalid h s ->
    (forall b bs, oowned s b -> h !! b = Some bs -> h' !! b = Some bs) ->
    ovalid h' s /\ sink h' s = sink h s;
  oowned_alloc : forall h s b, ovalid h s -> oowned s b -> (b < length h)%nat;
}.

(* io/InputStream.h:57-212 InputStream *)
Class InputStream (S : Type) := {
  read_array : option nat -> Z -> Z -> M (heap * S) Z;
  read_byte : M (heap * S) Z;
  available : M (heap * S) Z;
  skip : Z -> M (heap * S) Z;
}.

Class InputStreamSpec (S : Type) `{InputStream S} := {
  ivalid : heap -> S -> Prop;
  rest : heap -> S -> list Z;
  (** The arrays the stream depends on, and those of them it writes to. *)
  iowned : S -> nat -> Prop;
  iwrites : S -> nat -> Prop;
  iwrites_owned : forall s b, iwrites s b -> iowned s b;
  rest_bytes : forall h s, ivalid h s -> Forall is_byte (rest h s);
  (** A read of [n > 0] bytes stores between 1 and [n] of the next bytes, or returns -1. *)
  read_array_ok : forall h s b bs off n,
    ivalid h s -> h !! b = Some bs -> ~ iowned s b -> zlen bs < MAX ->
    0 <= off -> 0 < n -> off + n <= zlen bs ->
    exists r h' s', read_array (Some b) off n (h, s) = (Ok r, (h', s')) /\ ivalid h' s' /\
      ((rest h s = [] /\ r = -1 /\ rest h' s' = [] /\ h' !! b = Some bs) \/
       (0 < r <= n /\ r <= zlen (rest h s) /\ rest h' s' = drop (Z.to_nat r) (rest h s) /\
        h' !! b = Some (splice off (take (Z.to_nat r) (rest h s)) bs))) /\
      preserves (fun c => iwrites s c \/ c = b) (fun c => iwrites s' c \/ c = b) h h' /\
      apart (iowned s) (iowned s') h h';
  read_byte_ok : forall h s,
    ivalid h s ->
    exists r h' s', read_byte (h, s) = (Ok r, (h', s')) /\ ivalid h' s' /\
      match rest h s with
      | [] => r = -1 /\ rest h' s' = []
      | v :: vs => r = v /\ rest h' s' = vs
      end /\ preserves (iwrites s) (iwrites s') h h' /\ apart (iowned s) (iowned s') h h';
  (** A lower bound of the bytes left. *)
  available_ok : forall h s,
    ivalid h s -> exists n, available (h, s) = (Ok n, (h, s)) /\ 0 <= n <= zlen (rest h s);
  ivalid_frame : forall h h' s, ivalid h s ->
    (forall b bs, iowned s b -> h !! b = Some bs -> h' !! b = Some bs) ->
    ivalid h' s /\ rest h' s = rest h s;
  iowned_alloc : forall h s b, ivalid h s -> iowned s b -> (b < length h)%nat;
}.

(** The base class implementations. *)

Section defaults.
Context {S : Type} `{OutputStream S}.

(* io/OutputStream.cpp:34-36 OutputStream::write (loop) *)
Fixpoint writeEach (fuel : nat) (b : nat) (i : Z) : M (heap * S) unit :=
  match fuel with
  | O => mret tt
  | Datatypes.S fuel =>
      v ← onHeap (ByteArray.get b i);
      write_byte v;;
      writeEach fuel b (i + 1)
  end.

(* io/OutputStream.cpp:23-37 OutputStream::write *)
Definition write_default (buffer : option nat) (offset count : Z) : M (heap * S) unit :=
  match buffer with
  | None => throw NullPointerException
  | Some b =>
      n ← onHeap (size b);
      throw_if (n <? u64 (offset + count)) IndexOutOfBoundsException;;
      if count =? 0 then mret tt else writeEach (Z.to_nat count) b offset
  end.

(* io/OutputStream.h:84-86 OutputStream::write(buffer) *)
Definition write_all (buffer : option nat) : M (heap * S) unit :=
  b ← deref buffer; n ← onHeap (size b); write_array buffer 0 n.
End defaults.

Section idefaults.
Context {S : Type} `{InputStream S}.

(* io/InputStream.cpp:33-40 InputStream::read (loop) *)
Fixpoint readEach (fuel : nat) (b : nat) (offset i count : Z) : M (heap * S) Z :=
  match fuel with
  | O => mret count
  | Datatypes.S fuel =>
      c ← read_byte;
      if c =? -1 then mret (if i =? 0 then -1 else i)
      else onHeap (ByteArray.set b (u64 (offset + i)) (u8 c));; readEach fuel b offset (i + 1) count
  end.

(* io/InputStream.cpp:25-41 InputStream::read *)
Definition read_default (buffer : option nat) (offset count : Z) : M (heap * S) Z :=
  match buffer with
  | None => throw NullPointerException
  | Some b =>
      n ← onHeap (size b);
      throw_if (n <? u64 (offset + count)) IndexOutOfBoundsException;;
      readEach (Z.to_nat count) b offset 0 count
  end.

(* io/InputStream.h:163-165 InputStream::read(buffer) *)
Definition read_all (buffer : option nat) : M (heap * S) Z :=
  b ← deref buffer; n ← onHeap (size b); read_array buffer 0 n.
End idefaults.

(** [skip] of the base class over the [read] of the stream's own class. *)
Section skip.
Context {S : Type} (read : option nat -> Z -> Z -> M (heap * S) Z).

(** A round that goes on has skipped at least one byte: [count] rounds are enough. *)
(* io/InputStream.cpp:51-61 InputStream::skip (loop) *)
Fixpoint skipLoop (fuel : nat) (buffer : nat) (skipped count : Z) : M (heap * S) Z :=
  if count <=? skipped then mret skipped else
  match fuel with
  | O => diverge
  | Datatypes.S fuel =>
      n ← onHeap (size buffer);
      let sz := Z.min (u64 (count - skipped)) n in
      result ← read (Some buffer) 0 sz;
      if result =? -1 then mret skipped
      else if u64 result <? sz then mret (u64 (skipped + result))
      else skipLoop fuel buffer (u64 (skipped + result)) count
  end.

(* io/InputStream.cpp:47-64 InputStream::skip *)
Definition skip_default (count : Z) : M (heap * S) Z :=
  buffer ← onHeap (ByteArray.new 4096);
  skipLoop (Z.to_nat count) buffer 0 count.
End skip.

Section skip_spec.
Context {S : Type} `{InputStreamSpec S}.

(** What a call skips is at the front of what is left, and is something unless nothing is left. *)
Definition skips (m : M (heap * S) Z) (count : Z) h s : Prop :=
  exists r h' s', m (h, s) = (Ok r, (h', s')) /\ ivalid h' s' /\ 0 <= r <= count /\ r <= zlen (rest h s) /\
    rest h' s' = drop (Z.to_nat r) (rest h s) /\ (0 < count -> rest h s <> [] -> 0 < r).

Lemma skipLoop_ok fuel b bs : forall h s k count,
  ivalid h s -> h !! b = Some bs -> zlen bs = 4096 -> ~ iowned s b -> 0 <= k <= count -> count < MAX ->
  (Z.to_nat (count - k) <= fuel)%nat ->
  exists r h' s', skipLoop read_array fuel b k count (h, s) = (Ok r, (h', s')) /\ ivalid h' s' /\
    k <= r <= count /\ r - k <= zlen (rest h s) /\ rest h' s' = drop (Z.to_nat (r - k)) (rest h s) /\
    (k < count -> rest h s <> [] -> k < r).
Proof.
  revert bs. induction fuel as [|fuel IH]; intros bs h s k count Hv Hb Hz Hno Hk Hm Hf; cbn [skipLoop];
    (destruct (Z.leb_spec count k);
      [exists k, h, s; rewrite Z.sub_diag; split; [done|split; [done|split; [lia|split; [apply zlen_nonneg|split; [done|lia]]]]]|]);
    [lia|].
  unfold MAX in Hm. mstep (onHeap_read _ (h, s) _ (size_eq _ _ _ Hb)). rewrite u64_id by lia.
  destruct (read_array_ok h s b bs 0 (Z.min (count - k) (zlen bs)) Hv Hb Hno) as
    (r & h1 & s1 & Hrun & Hv1 & Hcase & Hp & Ha); [unfold MAX; lia|lia..|].
  mstep Hrun. destruct Hcase as [(Hr & -> & Hr1 & Hb1)|(Hr & Hle & Hr1 & Hb1)].
  { exists k, h1, s1. rewrite Z.sub_diag, Hr. repeat split; try done; lia. }
  destruct (Z.eqb_spec r (-1)); [lia|]. rewrite !u64_id by lia.
  destruct (Z.ltb_spec r (Z.min (count - k) (zlen bs))).
  { exists (k + r), h1, s1. replace (k + r - k) with r by lia. repeat split; try done; lia. }
  destruct (IH (splice 0 (take (Z.to_nat r) (rest h s)) bs) h1 s1 (k + r) count) as
    (r2 & h2 & s2 & Hrun2 & Hv2 & Hr2 & Hle2 & Hd2 & _); try done; try lia.
  { rewrite zlen_splice; [done|lia|]. unfold zlen in *. rewrite length_take. lia. }
  { apply Ha; [by eapply lookup_lt_Some|done]. }
  exists r2, h2, s2. split; [done|]. split; [done|]. split; [lia|].
  assert (zlen (rest h1 s1) = zlen (rest h s) - r) as Hz1 by (rewrite Hr1; unfold zlen in *; rewrite length_drop; lia).
  split; [lia|]. split; [|lia]. rewrite Hd2, Hr1, drop_drop. f_equal. lia.
Qed.

Lemma skip_default_ok h s count : ivalid h s -> 0 <= count < MAX -> skips (skip_default read_array count) count h s.
Proof.
  intros Hv Hc. set (zs := replicate (Z.to_nat 4096) 0). set (h1 := (h ++ [zs] : heap)).
  destruct (ivalid_frame h h1 s Hv) as [Hv1 Hr1]; [intros; by apply lookup_app_l_Some|].
  assert (~ iowned s (length h)) as Hno by (intros Ho; pose proof (iowned_alloc _ _ _ Hv Ho); lia).
  destruct (skipLoop_ok (Z.to_nat count) (length h) zs h1 s 0 count) as (r & h' & s' & Hrun & Hv' & Hr & Hle & Hd & Hp);
    try done; try lia.
  { by apply list_lookup_middle. }
  rewrite Z.sub_0_r, Hr1 in *. exists r, h', s'. by split.
Qed.
End skip_spec.
End Streams.

(** ** io/ByteArrayOutputStream.cpp *)

Module ByteArrayOutputStream.
Import Bytes ByteArray Streams.

(* io/ByteArrayOutputStream.h:128-136 ByteArrayOutputStream *)
Record ByteArrayOutputStream := mkOut {
  mBuffer : nat;
  mCount : Z;
}.

(* io/ByteArrayOutputStream.cpp:24-27 ByteArrayOutputStream::ByteArrayOutputStream() *)
Definition new_default : M heap ByteArrayOutputStream :=
  b ← ByteArray.new 64; mret (mkOut b 0).

(* io/ByteArrayOutputStream.cpp:29-32 ByteArrayOutputStream::ByteArrayOutputStream(size) *)
Definition new (sz : Z) : M heap ByteArrayOutputStream :=
  b ← ByteArray.new sz; mret (mkOut b 0).

(* io/ByteArrayOutputStream.cpp:34-37 ByteArrayOutputStream::ByteArrayOutputStream(buffer) *)
Definition new_on (buffer : nat) : M heap ByteArrayOutputStream :=
  n ← size buffer; mret (mkOut buffer n).

(* io/ByteArrayOutputStream.cpp:46-48 ByteArrayOutputStream::reset *)
Definition reset : M (heap * ByteArrayOutputStream) unit := update (fun o => mkOut (mBuffer o) 0).

(* io/ByteArrayOutputStream.cpp:50-52 ByteArrayOutputStream::size *)
Definition size : M (heap * ByteArrayOutputStream) Z := this mCount.

(* io/ByteArrayOutputStream.cpp:54-56 ByteArrayOutputStream::toByteArray *)
Definition toByteArray : M (heap * ByteArrayOutputStream) nat :=
  b ← this mBuffer; n ← this mCount; onHeap (new_prefix b n).

(* io/ByteArrayOutputStream.h:80-82 ByteArrayOutputStream::getByteArray *)
Definition getByteArray : M (heap * ByteArrayOutputStream) nat := this mBuffer.

(* io/ByteArrayOutputStream.cpp:85-93 ByteArrayOutputStream::expand *)
Definition expand (i : Z) : M (heap * ByteArrayOutputStream) unit :=
  b ← this mBuffer;
  n ← this mCount;
  sz ← onHeap (ByteArray.size b);
  if u64 (n + i) <=? sz then mret tt else
  buffer ← onHeap (ByteArray.new (u64 (u64 (n + i) * 2)));
  onHeap (arraycopy (Some b) 0 (Some buffer) 0 n);;
  update (fun o => mkOut buffer (mCount o)).

(* io/ByteArrayOutputStream.cpp:62-76 ByteArrayOutputStream::write(buffer, offset, count) *)
Definition write_array (buffer : option nat) (offset count : Z) :
    M (heap * ByteArrayOutputStream) unit :=
  match buffer with
  | None => throw NullPointerException
  | Some src =>
      sz ← onHeap (ByteArray.size src);
      throw_if (sz <? u64 (offset + count)) IndexOutOfBoundsException;;
      if count =? 0 then mret tt else
      expand count;;
      b ← this mBuffer;
      n ← this mCount;
      onHeap (arraycopy buffer offset (Some b) n count);;
      update (fun o => mkOut (mBuffer o) (u64 (mCount o + count)))
  end.

(* io/ByteArrayOutputStream.cpp:58-60 ByteArrayOutputStream::write(buffer) *)
Definition write (buffer : option nat) : M (heap * ByteArrayOutputStream) unit :=
  b ← deref buffer; n ← onHeap (ByteArray.size b); write_array buffer 0 n.

(* io/ByteArrayOutputStream.cpp:78-83 ByteArrayOutputStream::write(b) *)
Definition write_byte (v : Z) : M (heap * ByteArrayOutputStream) unit :=
  b ← this mBuffer;
  n ← this mCount;
  sz ← onHeap (ByteArray.size b);
  (if n =? sz then expand 1 else mret tt);;
  b ← this mBuffer;
  n ← this mCount;
  update (fun o => mkOut (mBuffer o) (u64 (mCount o + 1)));;
  onHeap (ByteArray.set b n (u8 v)).

(* io/ByteArrayOutputStream.cpp:43-44 ByteArrayOutputStream::flush *)
Definition flush : M (heap * ByteArrayOutputStream) unit := mret tt.

#[export] Instance ops : OutputStream ByteArrayOutputStream :=
  {| Streams.write_array := write_array; Streams.write_byte := write_byte; Streams.flush := flush |}.

(** *** It implements the interface *)

Definition valid (h : heap) (o : ByteArrayOutputStream) : Prop :=
  exists bs, h !! mBuffer o = Some bs /\ 0 <= mCount o <= zlen bs /\ zlen bs < 2 ^ 62.

Definition contents (h : heap) (o : ByteArrayOutputStream) : list Z :=
  slice 0 (mCount o) (default [] (h !! mBuffer o)).

Definition owned (o : ByteArrayOutputStream) (b : nat) : Prop := b = mBuffer o.

Lemma contents_eq h o bs : h !! mBuffer o = Some bs -> contents h o = slice 0 (mCount o) bs.
Proof. intros Hb. unfold contents. by rewrite Hb. Qed.

Lemma contents_zlen h o : valid h o -> zlen (contents h o) = mCount o.
Proof. intros (bs & Hb & Hc & _). unfold contents. rewrite Hb. cbn. apply zlen_slice; lia. Qed.

(** After [expand] there is room for [i] more bytes; what was written is kept. *)
Lemma expand_ok h o i :
  valid h o -> 0 <= i -> mCount o + i < MAX ->
  exists h' o', expand i (h, o) = (Ok tt, (h', o')) /\ valid h' o' /\
    contents h' o' = contents h o /\ mCount o' = mCount o /\
    preserves (owned o) (owned o') h h' /\
    exists bs, h' !! mBuffer o' = Some bs /\ mCount o + i <= zlen bs.
Proof.
  intros (bs & Hb & Hc & Hsz) Hi Hm. unfold MAX in Hm. unfold expand, this. rewrite !bind_gets. cbn [snd].
  mstep (onHeap_read _ (h, o) _ (size_eq _ _ _ Hb)). rewrite (u64_id (mCount o + i)) by lia.
  destruct (Z.leb_spec (mCount o + i) (zlen bs)) as [Hle|Hgt].
  { exists h, o. split; [done|]. split; [by exists bs|]. split; [done|]. split; [done|].
    split; [apply preserves_refl|by exists bs]. }
  set (zs := replicate (Z.to_nat ((mCount o + i) * 2)) 0).
  assert (zlen zs = (mCount o + i) * 2) as Hz by (unfold zlen, zs; rewrite length_replicate; lia).
  rewrite u64_id by lia.
  erewrite (bind_Ok (onHeap (ByteArray.new _))); [|apply onHeap_eq; reflexivity]. cbn beta. cbn [fst snd].
  set (h1 := (h ++ [zs] : heap)).
  assert (h1 !! length h = Some zs) as Hzs by by apply list_lookup_middle.
  assert (h1 !! mBuffer o = Some bs) as Hb' by by apply lookup_app_l_Some.
  assert (mBuffer o < length h)%nat as Hlt by by eapply lookup_lt_Some.
  set (ns := splice 0 (slice 0 (mCount o) bs) zs).
  assert (zlen (slice 0 (mCount o) bs) = mCount o) as Hsl by (apply zlen_slice; lia).
  assert (zlen ns = (mCount o + i) * 2) as Hns by (unfold ns; rewrite zlen_splice; lia).
  erewrite (bind_Ok (onHeap (arraycopy _ _ _ _ _))).
  2: { apply onHeap_eq. cbn [fst]. apply (arraycopy_eq _ _ zs _ _ bs); try done; try lia.
       apply overlap_ne. lia. }
  cbn beta. fold ns. unfold update, modify. cbn [fst snd].
  assert (<[length h := ns]> h1 !! length h = Some ns) as Hn by by eapply heap_lookup_eq.
  eexists _, (mkOut (length h) (mCount o)). split; [reflexivity|]. split; [|split; [|split; [done|split]]].
  - exists ns. cbn. split; [done|]. lia.
  - rewrite (contents_eq h o bs Hb). etrans; [exact (contents_eq (<[length h := ns]> h1) (mkOut (length h) (mCount o)) ns Hn)|]. cbn [mCount].
    unfold ns. rewrite <- Hsl at 1. apply slice_splice; lia.
  - intros b bs' Hb'' Hl. unfold owned in *. cbn. apply lookup_lt_Some in Hl as Hlb. split; [|lia].
    rewrite heap_lookup_ne by lia. by apply lookup_app_l_Some.
  - exists ns. cbn. split; [done|lia].
Qed.

(** Writing [xs] behind the contents. *)
Lemma contents_append h o bs xs :
  h !! mBuffer o = Some bs -> 0 <= mCount o -> mCount o + zlen xs <= zlen bs ->
  contents (<[mBuffer o := splice (mCount o) xs bs]> h) (mkOut (mBuffer o) (mCount o + zlen xs)) =
  contents h o ++ xs.
Proof.
  intros Hb H0 Hl. rewrite (contents_eq _ _ _ Hb).
  etrans; [exact (contents_eq (<[mBuffer o := splice (mCount o) xs bs]> h)
    (mkOut (mBuffer o) (mCount o + zlen xs)) _ (heap_lookup_eq _ _ _ _ Hb))|]. cbn [mCount].
  pose proof (zlen_nonneg xs). rewrite slice_app, Z.add_0_l by lia.
  rewrite slice_splice by lia. f_equal. apply slice_splice_out; lia.
Qed.

Lemma preserves_write (o : ByteArrayOutputStream) h bs n :
  preserves (owned o) (owned (mkOut (mBuffer o) n)) h (<[mBuffer o := bs]> h).
Proof.
  intros b bs' Hb Hl. unfold owned in *. cbn. split; [|done]. rewrite heap_lookup_ne; [done|].
  intros E. by symmetry in E.
Qed.

Lemma write_array_ok h o b bs off n :
  valid h o -> h !! b = Some bs -> ~ owned o b -> zlen bs < 2 ^ 62 -> 0 <= off -> 0 <= n ->
  off + n <= zlen bs -> mCount o + n < MAX ->
  exists h' o', write_array (Some b) off n (h, o) = (Ok tt, (h', o')) /\ valid h' o' /\
    contents h' o' = contents h o ++ slice off n bs /\ preserves (owned o) (owned o') h h'.
Proof.
  intros Hv Hb Hno Hsz Ho Hn Hl Hm. unfold MAX in *. unfold write_array.
  mstep (onHeap_read _ (h, o) _ (size_eq _ _ _ Hb)).
  rewrite throw_if_false by (apply Z.ltb_ge; rewrite u64_id; lia).
  destruct (Z.eqb_spec n 0) as [->|Hn0].
  { exists h, o. split; [done|]. split; [done|]. split; [by rewrite app_nil_r|apply preserves_refl]. }
  destruct (expand_ok h o n Hv Hn Hm) as (h1 & o1 & Hrun & Hv1 & Hc1 & Hn1 & Hp1 & bs1 & Hb1 & Hr1).
  mstep Hrun. unfold this. rewrite !bind_gets. cbn [snd].
  destruct (Hp1 b bs Hno Hb) as [Hb2 Hno2]. destruct Hv1 as (? & Hb1' & Hc & Hsz1).
  rewrite Hb1 in Hb1'. injection Hb1' as <-.
  assert (zlen (slice off n bs) = n) as Hx by (apply zlen_slice; lia).
  erewrite (bind_Ok (onHeap (arraycopy _ _ _ _ _))).
  2: { apply onHeap_eq. cbn [fst]. apply (arraycopy_eq _ _ bs1 _ _ bs); try done; try lia.
       apply overlap_ne. unfold owned in Hno2. congruence. }
  cbn beta. unfold update, modify. cbn [fst snd]. rewrite u64_id by lia.
  do 2 eexists. split; [reflexivity|]. split; [|split].
  - eexists. cbn. split; [by eapply heap_lookup_eq|]. rewrite zlen_splice; lia.
  - rewrite <- Hc1. rewrite <- Hx at 2. by rewrite contents_append by (done || lia).
  - eapply preserves_trans; [exact Hp1|apply preserves_write].
Qed.

Lemma write_byte_ok h o v :
  valid h o -> mCount o + 1 < MAX ->
  exists h' o', write_byte v (h, o) = (Ok tt, (h', o')) /\ valid h' o' /\
    contents h' o' = contents h o ++ [u8 v] /\ preserves (owned o) (owned o') h h'.
Proof.
  intros Hv Hm. unfold write_byte, this. rewrite !bind_gets. cbn [snd].
  pose proof Hv as (bs & Hb & Hc & Hsz). mstep (onHeap_read _ (h, o) _ (size_eq _ _ _ Hb)).
  assert (exists h1 o1, (if mCount o =? zlen bs then expand 1 else mret tt) (h, o) = (Ok tt, (h1, o1)) /\
    valid h1 o1 /\ contents h1 o1 = contents h o /\ mCount o1 = mCount o /\
    preserves (owned o) (owned o1) h h1 /\
    exists bs1, h1 !! mBuffer o1 = Some bs1 /\ mCount o + 1 <= zlen bs1)
    as (h1 & o1 & Hrun & Hv1 & Hc1 & Hn1 & Hp1 & bs1 & Hb1 & Hr1).
  { destruct (Z.eqb_spec (mCount o) (zlen bs)) as [E|E]; [apply expand_ok; [done|lia|done]|].
    exists h, o. do 4 (split; [done|]). split; [apply preserves_refl|].
    exists bs. split; [done|lia]. }
  mstep Hrun. rewrite !bind_gets. cbn [snd]. unfold update. rewrite bind_modify. cbn [fst snd].
  destruct Hv1 as (? & Hb1' & Hc2 & Hsz1). rewrite Hb1 in Hb1'. injection Hb1' as <-.
  unfold MAX in Hm. rewrite u64_id by lia.
  erewrite onHeap_eq.
  2: { cbn [fst]. apply set_eq; [exact Hb1|lia]. }
  rewrite insert_splice by lia. cbn [snd]. do 2 eexists. split; [reflexivity|]. split; [|split].
  - eexists. cbn. split; [by eapply heap_lookup_eq|].
    rewrite zlen_splice; change (zlen [u8 v]) with 1; lia.
  - rewrite <- Hc1. apply (contents_append h1 o1 bs1 [u8 v] Hb1); change (zlen [u8 v]) with 1; lia.
  - eapply preserves_trans; [exact Hp1|apply preserves_write].
Qed.

#[export] Program Instance spec : OutputStreamSpec ByteArrayOutputStream :=
  {| ovalid := valid; sink := contents; oowned := owned |}.
Next Obligation.
  intros h o b bs off n Hv Hb Hno _ Hsz Ho Hn Hl Hm. rewrite contents_zlen in Hm by done.
  apply write_array_ok; try done. unfold MAX in Hsz. lia.
Qed.
Next Obligation.
  intros h o v Hv Hm. rewrite contents_zlen in Hm by done. by apply write_byte_ok.
Qed.
Next Obligation. intros h o Hv _. exists h, o. do 3 (split; [done|]). apply preserves_refl. Qed.
Next Obligation.
  intros h h' o (bs & Hb & Hc) Hf. pose proof (Hf _ _ eq_refl Hb) as Hb'.
  split; [by exists bs|]. unfold contents. by rewrite Hb, Hb'.
Qed.
Next Obligation. intros h o b (bs & Hb & _) ->. by eapply lookup_lt_Some. Qed.
End ByteArrayOutputStream.

(** ** io/BufferedOutputStream.cpp *)

Module BufferedOutputStream.
Import Bytes ByteArray Streams.

Section BufferedOutputStream.
Context {S : Type} `{OutputStream S}.

(** [mOutputStream] is null once the stream is closed. *)
(* io/BufferedOutputStream.h:42-44 BufferedOutputStream *)
Record BufferedOutputStream := mkBuffered {
  mOutputStream : option S;
  mBuffer : option nat;
  mCount : Z;
}.

Definition set_count n o := mkBuffered (mOutputStream o) (mBuffer o) n.

(** A call on the wrapped stream. *)
Definition wrapped {A} (m : M (heap * S) A) : M (heap * BufferedOutputStream) A := fun s =>
  match mOutputStream (snd s) with
  | Some o =>
      let '(r, (h, o')) := m (fst s, o) in
      (r, (h, mkBuffered (Some o') (mBuffer (snd s)) (mCount (snd s))))
  | None => (Undef, s)
  end.

(* io/BufferedOutputStream.cpp:25-31 BufferedOutputStream::BufferedOutputStream *)
Definition new (outputStream : S) (sz : Z) : M heap BufferedOutputStream :=
  throw_if (sz =? 0) IllegalArgumentException;;
  b ← ByteArray.new sz;
  mret (mkBuffered (Some outputStream) (Some b) 0).

(** The result is the wrapped stream as [close] leaves it. *)
(* io/BufferedOutputStream.cpp:33-40 BufferedOutputStream::close *)
Definition close : M (heap * BufferedOutputStream) (option S) :=
  update (fun o => mkBuffered (mOutputStream o) None (mCount o));;
  localOutputStream ← this mOutputStream;
  update (fun o => mkBuffered None (mBuffer o) (mCount o));;
  mret localOutputStream.

(* io/BufferedOutputStream.cpp:85-89 BufferedOutputStream::checkValidity *)
Definition checkValidity : M (heap * BufferedOutputStream) unit :=
  b ← this mBuffer;
  o ← this mOutputStream;
  match b, o with
  | Some _, Some _ => mret tt
  | _, _ => throw IOException
  end.

(* io/BufferedOutputStream.cpp:91-96 BufferedOutputStream::flushBuffer *)
Definition flushBuffer : M (heap * BufferedOutputStream) unit :=
  n ← this mCount;
  if 0 <? n then
    b ← this mBuffer;
    wrapped (Streams.write_array b 0 n);;
    update (set_count 0)
  else mret tt.

(* io/BufferedOutputStream.cpp:42-46 BufferedOutputStream::flush *)
Definition flush : M (heap * BufferedOutputStream) unit :=
  checkValidity;; flushBuffer;; wrapped Streams.flush.

(* io/BufferedOutputStream.cpp:48-72 BufferedOutputStream::write(buffer, offset, count) *)
Definition write_array (buffer : option nat) (offset count : Z) :
    M (heap * BufferedOutputStream) unit :=
  localBuffer ← this mBuffer;
  checkValidity;;
  match buffer with
  | None => throw NullPointerException
  | Some src =>
      lb ← deref localBuffer;
      lsz ← onHeap (size lb);
      if lsz <=? count then flushBuffer;; wrapped (Streams.write_array buffer offset count)
      else
        sz ← onHeap (size src);
        throw_if ((sz <? offset) || (u64 (sz - offset) <? count)) IndexOutOfBoundsException;;
        n ← this mCount;
        (if u64 (lsz - n) <? count then flushBuffer else mret tt);;
        n ← this mCount;
        onHeap (arraycopy buffer offset localBuffer n count);;
        update (fun o => set_count (u64 (mCount o + count)) o)
  end.

(* io/BufferedOutputStream.cpp:74-83 BufferedOutputStream::write(b) *)
Definition write_byte (v : Z) : M (heap * BufferedOutputStream) unit :=
  checkValidity;;
  b ← this mBuffer;
  lb ← deref b;
  sz ← onHeap (size lb);
  n ← this mCount;
  (if n =? sz then wrapped (Streams.write_array b 0 n);; update (set_count 0) else mret tt);;
  n ← this mCount;
  update (fun o => set_count (u64 (mCount o + 1)) o);;
  onHeap (ByteArray.set lb n (u8 v)).

#[export] Instance ops : OutputStream BufferedOutputStream :=
  {| Streams.write_array := write_array; Streams.write_byte := write_byte; Streams.flush := flush |}.
End BufferedOutputStream.
Arguments BufferedOutputStream : clear implicits.

(** *** It implements the interface, over any stream that does *)

Section spec.
Context {S : Type} `{OutputStreamSpec S}.

(** The wrapped stream [o], the buffer [b] and its bytes. *)
Record holds (h : heap) (s : BufferedOutputStream S) (o : S) (b : nat) (bs : list Z) : Prop := {
  ho_stream : mOutputStream s = Some o;
  ho_buffer : mBuffer s = Some b;
  ho_valid : ovalid h o;
  ho_apart : ~ oowned o b;
  ho_array : h !! b = Some bs;
  ho_count : 0 <= mCount s <= zlen bs;
  ho_size : 0 < zlen bs < MAX;
  ho_bytes : Forall is_byte bs;
}.

Definition valid (h : heap) (s : BufferedOutputStream S) : Prop := exists o b bs, holds h s o b bs.

(** The bytes accepted: those passed on, then those still in the buffer. *)
Definition accepted (h : heap) (s : BufferedOutputStream S) : list Z :=
  match mOutputStream s, mBuffer s with
  | Some o, Some b => sink h o ++ slice 0 (mCount s) (default [] (h !! b))
  | _, _ => []
  end.

Definition owned (s : BufferedOutputStream S) (c : nat) : Prop :=
  mBuffer s = Some c \/ exists o, mOutputStream s = Some o /\ oowned o c.

Lemma accepted_eq h s o b bs :
  holds h s o b bs -> accepted h s = sink h o ++ slice 0 (mCount s) bs.
Proof. intros []. unfold accepted. by rewrite ho_stream0, ho_buffer0, ho_array0. Qed.

Lemma accepted_zlen h s o b bs :
  holds h s o b bs -> zlen (accepted h s) = zlen (sink h o) + mCount s.
Proof.
  intros Hs. rewrite (accepted_eq _ _ _ _ _ Hs), zlen_app. destruct Hs.
  rewrite zlen_slice; lia.
Qed.

Lemma owned_eq h s o b bs c : holds h s o b bs -> owned s c <-> c = b \/ oowned o c.
Proof.
  intros []. unfold owned. rewrite ho_stream0, ho_buffer0. split.
  - intros [[= ->]|(o' & [= <-] & ?)]; auto.
  - intros [->|?]; eauto.
Qed.

Lemma wrapped_eq {A} (m : M (heap * S) A) h s o r h' o' :
  mOutputStream s = Some o -> m (h, o) = (r, (h', o')) ->
  wrapped m (h, s) = (r, (h', mkBuffered (Some o') (mBuffer s) (mCount s))).
Proof. intros Ho Hm. unfold wrapped. cbn. by rewrite Ho, Hm. Qed.

Lemma checkValidity_eq h s o b bs : holds h s o b bs -> checkValidity (h, s) = (Ok tt, (h, s)).
Proof.
  intros []. unfold checkValidity, this. rewrite !bind_gets. cbn. by rewrite ho_buffer0, ho_stream0.
Qed.

(** The wrapped stream wrote an array that is not its own: the buffer is as it was. *)
Lemma holds_passed h s o b bs h' o' n :
  holds h s o b bs -> ovalid h' o' -> preserves (oowned o) (oowned o') h h' -> 0 <= n <= zlen bs ->
  holds h' (mkBuffered (Some o') (Some b) n) o' b bs /\
  preserves (owned s) (owned (mkBuffered (Some o') (Some b) n)) h h'.
Proof.
  intros Hs Hv Hp Hn. destruct (Hp b bs (ho_apart _ _ _ _ _ Hs) (ho_array _ _ _ _ _ Hs)) as [Hb Ha].
  assert (holds h' (mkBuffered (Some o') (Some b) n) o' b bs) as Hs' by (destruct Hs; by split).
  split; [done|]. intros c cs Hc Hl. rewrite (owned_eq _ _ _ _ _ _ Hs) in Hc.
  rewrite (owned_eq _ _ _ _ _ _ Hs'). destruct (Hp c cs) as [? ?]; [tauto|done|]. tauto.
Qed.

(** Passing the buffer on. *)
Lemma pass_ok h s o b bs :
  holds h s o b bs -> zlen (accepted h s) < MAX ->
  exists h' o', wrapped (Streams.write_array (Some b) 0 (mCount s)) (h, s) =
      (Ok tt, (h', mkBuffered (Some o') (Some b) (mCount s))) /\
    holds h' (mkBuffered (Some o') (Some b) 0) o' b bs /\
    accepted h' (mkBuffered (Some o') (Some b) 0) = accepted h s /\
    preserves (owned s) (owned (mkBuffered (Some o') (Some b) 0)) h h'.
Proof.
  intros Hs Hm. pose proof Hs as [Hst Hbu Hv Ha Hb Hc Hsz Hby].
  rewrite (accepted_zlen _ _ _ _ _ Hs) in Hm.
  destruct (write_array_ok h o b bs 0 (mCount s) Hv Hb Ha Hby) as (h' & o' & Hrun & Hv' & Hsink & Hp);
    [lia..|].
  exists h', o'. rewrite (wrapped_eq _ _ _ _ _ _ _ Hst Hrun), Hbu. split; [done|].
  destruct (holds_passed _ _ _ _ _ _ _ 0 Hs Hv' Hp ltac:(lia)) as [Hs' Hp'].
  split; [done|]. split; [|done]. rewrite (accepted_eq _ _ _ _ _ Hs'), (accepted_eq _ _ _ _ _ Hs).
  cbn [mCount]. rewrite Hsink. by rewrite app_nil_r.
Qed.

Lemma flushBuffer_ok h s o b bs :
  holds h s o b bs -> zlen (accepted h s) < MAX ->
  exists h' o', flushBuffer (h, s) = (Ok tt, (h', mkBuffered (Some o') (Some b) 0)) /\
    holds h' (mkBuffered (Some o') (Some b) 0) o' b bs /\
    accepted h' (mkBuffered (Some o') (Some b) 0) = accepted h s /\
    preserves (owned s) (owned (mkBuffered (Some o') (Some b) 0)) h h'.
Proof.
  intros Hs Hm. pose proof Hs as [Hst Hbu Hv Ha Hb Hc Hsz Hby].
  unfold flushBuffer, this. rewrite bind_gets. cbn [snd].
  destruct (Z.ltb_spec 0 (mCount s)) as [Hpos|Hpos].
  - rewrite bind_gets. cbn [snd]. rewrite Hbu.
    destruct (pass_ok _ _ _ _ _ Hs Hm) as (h' & o' & Hrun & ?). mstep Hrun. by exists h', o'.
  - assert (s = mkBuffered (Some o) (Some b) 0) as ->.
    { destruct s as [so sb sc]. cbn in *. subst. f_equal. lia. }
    exists h, o. split; [done|]. split; [done|]. split; [done|apply preserves_refl].
Qed.

(** Appending to the buffer, where there is room. *)
Lemma append_ok h s o b bs xs :
  holds h s o b bs -> mCount s + zlen xs <= zlen bs -> Forall is_byte xs ->
  let h' := <[b := splice (mCount s) xs bs]> h in
  let s' := set_count (mCount s + zlen xs) s in
  valid h' s' /\ accepted h' s' = accepted h s ++ xs /\ preserves (owned s) (owned s') h h'.
Proof.
  intros Hs Hl Hx h' s'. pose proof Hs as [Hst Hbu Hv Ha Hb Hc Hsz Hby].
  pose proof (zlen_nonneg xs).
  assert (forall c cs, oowned o c -> h !! c = Some cs -> h' !! c = Some cs) as Hframe.
  { intros c cs Hoc Hcs. unfold h'. rewrite heap_lookup_ne; [done|]. by intros ->. }
  destruct (ovalid_frame h h' o Hv Hframe) as [Hv' Hsink].
  assert (holds h' s' o b (splice (mCount s) xs bs)) as Hs'.
  { split; try done; try (cbn; rewrite ?zlen_splice; lia).
    - by eapply heap_lookup_eq.
    - by apply splice_Forall. }
  split; [by exists o, b, (splice (mCount s) xs bs)|]. split.
  - rewrite (accepted_eq _ _ _ _ _ Hs'), (accepted_eq _ _ _ _ _ Hs), Hsink, <- app_assoc. f_equal.
    cbn [set_count mCount s']. rewrite slice_app, Z.add_0_l by lia.
    rewrite slice_splice by lia. f_equal. apply slice_splice_out; lia.
  - intros c cs Hoc Hcs. rewrite (owned_eq _ _ _ _ _ _ Hs) in Hoc.
    rewrite (owned_eq _ _ _ _ _ _ Hs'). split; [|done]. unfold h'.
    rewrite heap_lookup_ne; [done|]. intros ->. tauto.
Qed.

Lemma buffered_array_ok h s b bs off n :
  valid h s -> h !! b = Some bs -> ~ owned s b -> Forall is_byte bs -> zlen bs < MAX ->
  0 <= off -> 0 <= n -> off + n <= zlen bs -> zlen (accepted h s) + n < MAX ->
  exists h' s', write_array (Some b) off n (h, s) = (Ok tt, (h', s')) /\ valid h' s' /\
    accepted h' s' = accepted h s ++ slice off n bs /\ preserves (owned s) (owned s') h h'.
Proof.
  intros (o & lb & ls & Hs) Hb Hno Hby Hsz Ho Hn Hl Hm.
  pose proof Hs as [Hst Hbu Hv Ha Hlb Hc Hlsz Hlby].
  assert (zlen (slice off n bs) = n) as Hx by (apply zlen_slice; lia).
  unfold MAX in Hsz, Hlsz.
  unfold write_array, this. rewrite bind_gets. cbn [snd]. rewrite Hbu.
  mstep (checkValidity_eq _ _ _ _ _ Hs). cbn [deref]. rewrite bind_ret.
  mstep (onHeap_read _ (h, s) _ (size_eq _ _ _ Hlb)).
  destruct (Z.leb_spec (zlen ls) n) as [Hbig|Hsmall].
  - destruct (flushBuffer_ok _ _ _ _ _ Hs ltac:(lia)) as (h1 & o1 & Hrun & Hs1 & Hacc & Hp1).
    mstep Hrun. destruct (Hp1 b bs Hno Hb) as [Hb1 Hno1].
    rewrite (owned_eq _ _ _ _ _ _ Hs1) in Hno1.
    rewrite <- Hacc, (accepted_zlen _ _ _ _ _ Hs1) in Hm. cbn [mCount] in Hm.
    destruct (write_array_ok h1 o1 b bs off n (ho_valid _ _ _ _ _ Hs1) Hb1) as
      (h2 & o2 & Hrun2 & Hv2 & Hsink2 & Hp2); [tauto|done|done|lia..|].
    rewrite (wrapped_eq _ _ _ _ _ _ _ (ho_stream _ _ _ _ _ Hs1) Hrun2). cbn [mBuffer mCount].
    destruct (holds_passed _ _ _ _ _ _ _ 0 Hs1 Hv2 Hp2 ltac:(lia)) as [Hs2 Hp3].
    do 2 eexists. split; [reflexivity|]. split; [by exists o2, lb, ls|]. split.
    + rewrite <- Hacc, (accepted_eq _ _ _ _ _ Hs1), (accepted_eq _ _ _ _ _ Hs2), Hsink2.
      cbn [mCount]. by rewrite !app_nil_r.
    + by eapply preserves_trans.
  - mstep (onHeap_read _ (h, s) _ (size_eq _ _ _ Hb)).
    rewrite throw_if_false.
    2: { rewrite u64_id by lia. rewrite (proj2 (Z.ltb_ge _ _)) by lia. apply Z.ltb_ge. lia. }
    rewrite bind_gets. cbn [snd].
    assert (exists h1 o1 n1, (if u64 (zlen ls - mCount s) <? n then flushBuffer else mret tt) (h, s) =
        (Ok tt, (h1, mkBuffered (Some o1) (Some lb) n1)) /\
      holds h1 (mkBuffered (Some o1) (Some lb) n1) o1 lb ls /\ n1 + n <= zlen ls /\
      accepted h1 (mkBuffered (Some o1) (Some lb) n1) = accepted h s /\
      preserves (owned s) (owned (mkBuffered (Some o1) (Some lb) n1)) h h1)
      as (h1 & o1 & n1 & Hrun & Hs1 & Hr & Hacc & Hp1).
    { rewrite u64_id by lia. destruct (Z.ltb_spec (zlen ls - mCount s) n).
      - destruct (flushBuffer_ok _ _ _ _ _ Hs ltac:(lia)) as (h1 & o1 & Hrun & Hs1 & Hacc & Hp1).
        exists h1, o1, 0. by split_and!; [..|lia| |].
      - exists h, o, (mCount s). assert (s = mkBuffered (Some o) (Some lb) (mCount s)) as <- by
          (destruct s; cbn in *; by subst).
        split; [done|]. split; [done|]. split; [lia|]. split; [done|apply preserves_refl]. }
    mstep Hrun. rewrite bind_gets. cbn [snd mCount].
    destruct (Hp1 b bs Hno Hb) as [Hb1 Hno1]. rewrite (owned_eq _ _ _ _ _ _ Hs1) in Hno1.
    pose proof (ho_count _ _ _ _ _ Hs1) as Hn1. cbn [mCount] in Hn1.
    erewrite (bind_Ok (onHeap (arraycopy _ _ _ _ _))).
    2: { apply onHeap_eq. cbn [fst]. apply (arraycopy_eq _ _ ls _ _ bs); try done; try lia.
         - apply (ho_array _ _ _ _ _ Hs1).
         - apply overlap_ne. intros ->. tauto. }
    cbn beta. unfold update, modify. cbn [fst snd mCount]. rewrite u64_id by lia.
    destruct (append_ok h1 _ o1 lb ls (slice off n bs) Hs1) as (Hv2 & Hacc2 & Hp2);
      [cbn [mCount]; lia|by apply slice_bytes|].
    cbn [mCount] in Hv2, Hacc2, Hp2. rewrite Hx in Hv2, Hacc2, Hp2.
    do 2 eexists. split; [reflexivity|]. split; [exact Hv2|]. split.
    + by rewrite <- Hacc.
    + eapply preserves_trans; [exact Hp1|exact Hp2].
Qed.

Lemma u8_byte v : Forall is_byte [u8 v].
Proof. constructor; [apply u8_range|constructor]. Qed.

Lemma buffered_byte_ok h s v :
  valid h s -> zlen (accepted h s) + 1 < MAX ->
  exists h' s', write_byte v (h, s) = (Ok tt, (h', s')) /\ valid h' s' /\
    accepted h' s' = accepted h s ++ [u8 v] /\ preserves (owned s) (owned s') h h'.
Proof.
  intros (o & lb & ls & Hs) Hm. pose proof Hs as [Hst Hbu Hv Ha Hlb Hc Hlsz Hlby].
  unfold MAX in Hlsz. unfold write_byte, this. mstep (checkValidity_eq _ _ _ _ _ Hs).
  rewrite bind_gets. cbn [snd]. rewrite Hbu. cbn [deref]. rewrite bind_ret.
  mstep (onHeap_read _ (h, s) _ (size_eq _ _ _ Hlb)). rewrite bind_gets. cbn [snd].
  assert (exists h1 o1 n1, (if mCount s =? zlen ls
        then wrapped (Streams.write_array (Some lb) 0 (mCount s));; update (set_count 0)
        else mret tt) (h, s) = (Ok tt, (h1, mkBuffered (Some o1) (Some lb) n1)) /\
      holds h1 (mkBuffered (Some o1) (Some lb) n1) o1 lb ls /\ n1 + 1 <= zlen ls /\
      accepted h1 (mkBuffered (Some o1) (Some lb) n1) = accepted h s /\
      preserves (owned s) (owned (mkBuffered (Some o1) (Some lb) n1)) h h1)
      as (h1 & o1 & n1 & Hrun & Hs1 & Hr & Hacc & Hp1).
  { destruct (Z.eqb_spec (mCount s) (zlen ls)) as [E|E].
    - destruct (pass_ok _ _ _ _ _ Hs ltac:(lia)) as (h1 & o1 & Hrun & Hs1 & Hacc & Hp1).
      exists h1, o1, 0. mstep Hrun. by split_and!; [..|lia| |].
    - exists h, o, (mCount s). assert (s = mkBuffered (Some o) (Some lb) (mCount s)) as <- by
        (destruct s; cbn in *; by subst).
      split; [done|]. split; [done|]. split; [lia|]. split; [done|apply preserves_refl]. }
  mstep Hrun. rewrite bind_gets. unfold update. rewrite bind_modify. cbn [fst snd mCount].
  pose proof (ho_count _ _ _ _ _ Hs1) as Hn1. cbn [mCount] in Hn1. rewrite u64_id by lia.
  erewrite onHeap_eq.
  2: { cbn [fst]. apply set_eq; [apply (ho_array _ _ _ _ _ Hs1)|lia]. }
  rewrite insert_splice by lia. cbn [snd].
  destruct (append_ok h1 _ o1 lb ls [u8 v] Hs1) as (Hv2 & Hacc2 & Hp2);
    [change (zlen [u8 v]) with 1; cbn; lia|apply u8_byte|].
  do 2 eexists. split; [reflexivity|]. split; [exact Hv2|]. split; [by rewrite <- Hacc|].
  eapply preserves_trans; [exact Hp1|exact Hp2].
Qed.

Lemma buffered_flush_ok h s :
  valid h s -> zlen (accepted h s) < MAX ->
  exists h' s', flush (h, s) = (Ok tt, (h', s')) /\ valid h' s' /\ accepted h' s' = accepted h s /\
    preserves (owned s) (owned s') h h'.
Proof.
  intros (o & b & bs & Hs) Hm. unfold flush. rewrite (bind_Ok _ _ _ _ _ (checkValidity_eq _ _ _ _ _ Hs)).
  destruct (flushBuffer_ok _ _ _ _ _ Hs Hm) as (h1 & o1 & Hrun1 & Hs1 & Hacc1 & Hp1). mstep Hrun1.
  rewrite <- Hacc1, (accepted_eq _ _ _ _ _ Hs1), app_nil_r in *.
  destruct (flush_ok h1 o1 (ho_valid _ _ _ _ _ Hs1)) as (h2 & o2 & Hrun2 & Hv2 & Hsink2 & Hp2); [done|].
  destruct (holds_passed _ _ _ _ _ _ _ 0 Hs1 Hv2 Hp2) as [Hs2 Hp2']; [pose proof (ho_size _ _ _ _ _ Hs1); lia|].
  exists h2, (mkBuffered (Some o2) (Some b) 0). split; [by apply (wrapped_eq _ _ (mkBuffered (Some o1) (Some b) 0) _ _ _ _ eq_refl Hrun2)|].
  split; [by exists o2, b, bs|]. split; [|by eapply preserves_trans].
  by rewrite (accepted_eq _ _ _ _ _ Hs2), app_nil_r, Hsink2.
Qed.

#[export] Program Instance spec : OutputStreamSpec (BufferedOutputStream S) :=
  {| ovalid := valid; sink := accepted; oowned := owned |}.
Next Obligation. intros. by apply buffered_array_ok. Qed.
Next Obligation. intros. by apply buffered_byte_ok. Qed.
Next Obligation. intros. by apply buffered_flush_ok. Qed.
Next Obligation.
  intros h h' s (o & b & bs & Hs) Hf. pose proof Hs as [Hst Hbu Hv Ha Hlb Hc Hlsz Hlby].
  pose proof (Hf b bs ltac:(by left) Hlb) as Hb'.
  destruct (ovalid_frame h h' o Hv) as [Hv' Hsink].
  { intros c cs Hoc. apply Hf. right. by exists o. }
  assert (holds h' s o b bs) as Hs' by by split.
  split; [by exists o, b, bs|]. cbn.
  by rewrite (accepted_eq _ _ _ _ _ Hs'), (accepted_eq _ _ _ _ _ Hs), Hsink.
Qed.
Next Obligation.
  intros h s b (o & lb & bs & Hs) Ho. rewrite (owned_eq _ _ _ _ _ _ Hs) in Ho.
  destruct Ho as [->|Ho]; [|by eapply oowned_alloc, Ho; apply (ho_valid _ _ _ _ _ Hs)].
  by eapply lookup_lt_Some, (ho_array _ _ _ _ _ Hs).
Qed.

(** [flush] passes every accepted byte on; [close] does not flush: bytes
    still in the buffer never reach the wrapped stream. *)
Theorem close_discards h s o b bs :
  holds h s o b bs -> zlen (accepted h s) < MAX ->
  (exists h' o', flushBuffer (h, s) = (Ok tt, (h', mkBuffered (Some o') (Some b) 0)) /\
    sink h' o' = accepted h s) /\
  close (h, s) = (Ok (Some o), (h, mkBuffered None None (mCount s))) /\
  sink h o = take (length (sink h o)) (accepted h s) /\
  zlen (accepted h s) = zlen (sink h o) + mCount s.
Proof.
  intros Hs Hm. split; [|split; [|split]].
  - destruct (flushBuffer_ok _ _ _ _ _ Hs Hm) as (h' & o' & Hrun & Hs' & Hacc & _).
    exists h', o'. split; [done|]. rewrite <- Hacc, (accepted_eq _ _ _ _ _ Hs'). cbn [mCount].
    by rewrite app_nil_r.
  - unfold close, this, update. rewrite bind_modify, bind_gets, bind_modify. cbn.
    by rewrite (ho_stream _ _ _ _ _ Hs).
  - rewrite (accepted_eq _ _ _ _ _ Hs). by rewrite take_app_length.
  - by apply accepted_zlen with b bs.
Qed.
End spec.
End BufferedOutputStream.

(** ** io/ByteArrayInputStream.cpp *)

Module ByteArrayInputStream.
Import Bytes ByteArray Streams.

(* io/ByteArrayInputStream.h:126-146 ByteArrayInputStream *)
Record ByteArrayInputStream := mkIn {
  mBuffer : nat;
  mPosition : Z;
  mMark : Z;
  mCount : Z;
}.

Definition set_position p i := mkIn (mBuffer i) p (mMark i) (mCount i).

(* io/ByteArrayInputStream.cpp:24-33 ByteArrayInputStream::ByteArrayInputStream(buffer) *)
Definition new (buffer : option nat) : M heap ByteArrayInputStream :=
  match buffer with
  | None => throw NullPointerException
  | Some b => n ← size b; mret (mkIn b 0 0 n)
  end.

(* io/ByteArrayInputStream.cpp:35-44 ByteArrayInputStream::ByteArrayInputStream(buffer, offset, count) *)
Definition new_range (buffer : option nat) (offset count : Z) : M heap ByteArrayInputStream :=
  match buffer with
  | None => throw NullPointerException
  | Some b =>
      n ← size b;
      mret (mkIn b offset offset (if n <? u64 (offset + count) then n else u64 (offset + count)))
  end.

(* io/ByteArrayInputStream.cpp:46-48 ByteArrayInputStream::available *)
Definition available : M (heap * ByteArrayInputStream) Z :=
  this (fun i => u64 (mCount i - mPosition i)).

(* io/ByteArrayInputStream.cpp:54-56 ByteArrayInputStream::mark *)
Definition mark (limit : Z) : M (heap * ByteArrayInputStream) unit :=
  update (fun i => mkIn (mBuffer i) (mPosition i) (mPosition i) (mCount i)).

(* io/ByteArrayInputStream.cpp:91-93 ByteArrayInputStream::reset *)
Definition reset : M (heap * ByteArrayInputStream) unit :=
  update (fun i => set_position (mMark i) i).

(* io/ByteArrayInputStream.cpp:62-64 ByteArrayInputStream::read *)
Definition read_byte : M (heap * ByteArrayInputStream) Z :=
  i ← this id;
  if mPosition i <? mCount i then
    update (fun i => set_position (u64 (mPosition i + 1)) i);;
    v ← onHeap (ByteArray.get (mBuffer i) (mPosition i));
    mret (Z.land v 255)
  else mret (-1).

(* io/ByteArrayInputStream.cpp:70-89 ByteArrayInputStream::read(buffer, offset, count) *)
Definition read_array (buffer : option nat) (offset count : Z) : M (heap * ByteArrayInputStream) Z :=
  match buffer with
  | None => throw NullPointerException
  | Some b =>
      n ← onHeap (size b);
      throw_if (n <? u64 (offset + count)) IndexOutOfBoundsException;;
      i ← this id;
      if mCount i <=? mPosition i then mret (-1) else
      if count =? 0 then mret 0 else
      let left := u64 (mCount i - mPosition i) in
      let count := if left <? count then left else count in
      onHeap (arraycopy (Some (mBuffer i)) (mPosition i) buffer offset count);;
      update (fun i => set_position (u64 (mPosition i + count)) i);;
      mret (i64 count)
  end.

(* io/ByteArrayInputStream.cpp:66-68 ByteArrayInputStream::read(buffer) *)
Definition read (buffer : option nat) : M (heap * ByteArrayInputStream) Z :=
  b ← deref buffer; n ← onHeap (size b); read_array buffer 0 n.

(* io/ByteArrayInputStream.cpp:95-102 ByteArrayInputStream::skip *)
Definition skip (count : Z) : M (heap * ByteArrayInputStream) Z :=
  if count <=? 0 then mret 0 else
  i ← this id;
  let p := if u64 (mCount i - mPosition i) <? count then mCount i else u64 (mPosition i + count) in
  update (set_position p);;
  mret (u64 (p - mPosition i)).

#[export] Instance ops : InputStream ByteArrayInputStream :=
  {| Streams.read_array := read_array; Streams.read_byte := read_byte;
     Streams.available := available; Streams.skip := skip |}.

(** *** It implements the interface *)

Definition valid (h : heap) (i : ByteArrayInputStream) : Prop :=
  exists bs, h !! mBuffer i = Some bs /\ Forall is_byte (take (Z.to_nat (mCount i)) bs) /\
    zlen bs < 2 ^ 62 /\ 0 <= mPosition i <= mCount i /\ mCount i <= zlen bs.

Definition remaining (h : heap) (i : ByteArrayInputStream) : list Z :=
  slice (mPosition i) (mCount i - mPosition i) (default [] (h !! mBuffer i)).

Definition owned (i : ByteArrayInputStream) (b : nat) : Prop := b = mBuffer i.

(** The stream only reads its array. *)
Definition writes (i : ByteArrayInputStream) (b : nat) : Prop := False.

Lemma remaining_eq h i bs :
  h !! mBuffer i = Some bs -> remaining h i = slice (mPosition i) (mCount i - mPosition i) bs.
Proof. intros Hb. unfold remaining. by rewrite Hb. Qed.

Lemma remaining_zlen h i : valid h i -> zlen (remaining h i) = mCount i - mPosition i.
Proof.
  intros (bs & Hb & _ & _ & Hp & Hc). rewrite (remaining_eq _ _ _ Hb). apply zlen_slice; lia.
Qed.

(** The stream after [k] more bytes were taken. *)
Lemma advance_ok h i k bs :
  h !! mBuffer i = Some bs -> valid h i -> 0 <= k <= mCount i - mPosition i ->
  valid h (set_position (mPosition i + k) i) /\
  remaining h (set_position (mPosition i + k) i) = drop (Z.to_nat k) (remaining h i).
Proof.
  intros Hb (bs' & Hb' & Hby & Hsz & Hp & Hc) Hk. rewrite Hb in Hb'. injection Hb' as <-. split.
  - exists bs. cbn. split; [done|]. split; [done|]. split; [done|]. lia.
  - rewrite (remaining_eq h i bs Hb). etrans; [exact (remaining_eq h (set_position _ i) bs Hb)|].
    cbn [set_position mPosition mCount]. rewrite drop_slice by lia. f_equal. lia.
Qed.

Lemma read_array_ok' h i b bs off n :
  valid h i -> h !! b = Some bs -> ~ owned i b -> zlen bs < MAX ->
  0 <= off -> 0 < n -> off + n <= zlen bs ->
  exists r h' i', read_array (Some b) off n (h, i) = (Ok r, (h', i')) /\ valid h' i' /\
    ((remaining h i = [] /\ r = -1 /\ remaining h' i' = [] /\ h' !! b = Some bs) \/
     (r = Z.min n (zlen (remaining h i)) /\ 0 < r /\
      remaining h' i' = drop (Z.to_nat r) (remaining h i) /\
      h' !! b = Some (splice off (take (Z.to_nat r) (remaining h i)) bs))) /\
    preserves (fun c => writes i c \/ c = b) (fun c => writes i' c \/ c = b) h h' /\
    apart (owned i) (owned i') h h'.
Proof.
  intros Hv Hb Hno Hsz Ho Hn Hl. pose proof Hv as (ss & Hs & Hby & Hssz & Hp & Hc).
  unfold MAX in *. unfold read_array. mstep (onHeap_read _ (h, i) _ (size_eq _ _ _ Hb)).
  rewrite throw_if_false by (apply Z.ltb_ge; rewrite u64_id; lia).
  unfold this. rewrite bind_gets. cbn [id snd].
  destruct (Z.leb_spec (mCount i) (mPosition i)) as [Hend|Hleft].
  { exists (-1), h, i. split; [done|]. split; [done|]. split; [|split; [apply preserves_refl|apply apart_refl]].
    left. assert (remaining h i = []) as E; [|done].
    apply nil_length_inv, Nat2Z.inj. pose proof (remaining_zlen _ _ Hv). unfold zlen in *. cbn. lia. }
  destruct (Z.eqb_spec n 0); [lia|]. rewrite u64_id by lia.
  set (k := if mCount i - mPosition i <? n then mCount i - mPosition i else n).
  assert (0 < k <= n /\ k <= mCount i - mPosition i) as Hk.
  { unfold k. destruct (Z.ltb_spec (mCount i - mPosition i) n); lia. }
  assert (b <> mBuffer i) as Hne by done.
  erewrite (bind_Ok (onHeap (arraycopy _ _ _ _ _))).
  2: { apply onHeap_eq. cbn [fst]. apply (arraycopy_eq _ _ bs _ _ ss); try done; try lia.
       by apply overlap_ne. }
  cbn beta. unfold update. rewrite bind_modify. cbn [fst snd]. rewrite u64_id, i64_id by lia.
  set (h' := <[b := splice off (slice (mPosition i) k ss) bs]> h).
  assert (h' !! mBuffer i = Some ss) as Hs' by (unfold h'; by rewrite heap_lookup_ne).
  assert (valid h' i) as Hv' by (exists ss; done).
  assert (remaining h' i = remaining h i) as Hr by by rewrite (remaining_eq _ _ _ Hs), (remaining_eq _ _ _ Hs').
  destruct (advance_ok h' i k ss Hs' Hv' ltac:(lia)) as [Hv2 Hr2]. rewrite Hr in Hr2.
  exists k, h', (set_position (mPosition i + k) i). split; [done|]. split; [done|].
  split; [|split].
  - right. rewrite (remaining_zlen _ _ Hv). split.
    { unfold k. destruct (Z.ltb_spec (mCount i - mPosition i) n); lia. }
    split; [lia|]. split; [done|].
    unfold h'. rewrite (remaining_eq _ _ _ Hs), take_slice by lia. by eapply heap_lookup_eq.
  - intros c cs Hoc Hcs. split; [|exact Hoc]. unfold h'. rewrite heap_lookup_ne; [done|].
    intros ->. tauto.
  - split; [|by intros c _]. unfold h'. apply Nat.eq_le_incl. symmetry. apply length_insert.
Qed.

Lemma read_array_zero h i b bs off :
  h !! b = Some bs -> 0 <= off <= zlen bs -> zlen bs < MAX ->
  exists r, read_array (Some b) off 0 (h, i) = (Ok r, (h, i)).
Proof.
  intros Hb Ho Hsz. unfold MAX in Hsz. unfold read_array.
  setoid_rewrite (bind_Ok _ _ _ _ _ (onHeap_read _ (h, i) _ (size_eq _ _ _ Hb))).
  setoid_rewrite throw_if_false; [|apply Z.ltb_ge; rewrite u64_id; lia].
  unfold this. setoid_rewrite bind_gets. cbn [id snd].
  destruct (mCount i <=? mPosition i); by eexists.
Qed.

Lemma read_byte_ok' h i :
  valid h i ->
  exists r h' i', read_byte (h, i) = (Ok r, (h', i')) /\ valid h' i' /\
    match remaining h i with
    | [] => r = -1 /\ remaining h' i' = []
    | v :: vs => r = v /\ remaining h' i' = vs
    end /\ preserves (writes i) (writes i') h h' /\ apart (owned i) (owned i') h h'.
Proof.
  intros Hv. pose proof Hv as (ss & Hs & Hby & Hssz & Hp & Hc). unfold MAX in *.
  pose proof (remaining_zlen _ _ Hv) as Hz. unfold read_byte, this. rewrite bind_gets. cbn [id snd].
  destruct (Z.ltb_spec (mPosition i) (mCount i)) as [Hlt|Hge].
  - unfold update. rewrite bind_modify. cbn [fst snd]. rewrite u64_id by lia.
    destruct (advance_ok h i 1 ss Hs Hv ltac:(lia)) as [Hv2 Hr2].
    assert (remaining h i !! 0%nat = ss !! Z.to_nat (mPosition i)) as Hr0.
    { rewrite (remaining_eq _ _ _ Hs), slice_lookup by lia. f_equal. lia. }
    destruct (remaining h i) as [|v vs] eqn:Er; [unfold zlen in Hz; cbn in Hz; lia|].
    cbn in Hr0. symmetry in Hr0.
    assert (is_byte v) as Hbv.
    { rewrite Forall_forall in Hby. apply Hby, list_elem_of_lookup_2 with (Z.to_nat (mPosition i)).
      by rewrite lookup_take_lt by lia. }
    erewrite bind_Ok; [|apply onHeap_read; exact (get_eq h (mBuffer i) ss (mPosition i) v Hs (proj1 Hp) Hr0)]. cbn beta.
    rewrite land_255, Z.mod_small by exact Hbv.
    do 3 eexists. split; [reflexivity|]. split; [done|]. split; [|split; [apply preserves_refl|by split]].
    split; [done|]. by rewrite Hr2.
  - exists (-1), h, i. split; [done|]. split; [done|]. split; [|split; [apply preserves_refl|by split]].
    destruct (remaining h i); [done|]. unfold zlen in Hz. cbn in Hz. lia.
Qed.

#[export] Program Instance spec : InputStreamSpec ByteArrayInputStream :=
  {| ivalid := valid; rest := remaining; iowned := owned; iwrites := writes |}.
Next Obligation. done. Qed.
Next Obligation.
  intros h i (bs & Hb & Hby & _ & Hp & _). rewrite (remaining_eq _ _ _ Hb).
  assert (slice (mPosition i) (mCount i - mPosition i) bs =
    drop (Z.to_nat (mPosition i)) (take (Z.to_nat (mCount i)) bs)) as ->.
  { unfold slice. rewrite skipn_firstn_comm. f_equal. lia. }
  by apply Forall_drop.
Qed.
Next Obligation.
  intros h i b bs off n Hv Hb Hno Hsz Ho Hn Hl.
  destruct (read_array_ok' h i b bs off n Hv Hb Hno Hsz Ho Hn Hl) as
    (r & h' & i' & ? & ? & [?|(Hr & Hpos & Hrest & Harr)] & ?); exists r, h', i';
    (split; [done|]); (split; [done|]); (split; [|done]); [by left|right].
  split; [lia|]. split; [lia|]. done.
Qed.
Next Obligation. intros. by apply read_byte_ok'. Qed.
Next Obligation.
  intros h i Hv. exists (u64 (mCount i - mPosition i)). split; [done|].
  rewrite (remaining_zlen _ _ Hv). destruct Hv as (bs & _ & _ & Hsz & Hp & Hc).
  rewrite u64_id; lia.
Qed.
Next Obligation.
  intros h h' i (bs & Hb & Hc) Hf. pose proof (Hf _ _ eq_refl Hb) as Hb'.
  split; [by exists bs|]. unfold remaining. by rewrite Hb, Hb'.
Qed.
Next Obligation. intros h i b (bs & Hb & _) ->. by eapply lookup_lt_Some. Qed.
End ByteArrayInputStream.

(** ** Buffered over byte arrays *)

Module BufferedExample.
Import Bytes ByteArray Streams ByteArrayOutputStream.

(** A buffered stream of 4 bytes holding two bytes, over a byte array stream that got one. *)
Definition h0 : heap := [[7; 0; 0; 0]; [8; 9; 0; 0]].
Definition o0 : ByteArrayOutputStream := mkOut 0 1.
Definition s0 : BufferedOutputStream.BufferedOutputStream ByteArrayOutputStream :=
  BufferedOutputStream.mkBuffered (Some o0) (Some 1%nat) 2.

Lemma s0_holds : BufferedOutputStream.holds h0 s0 o0 1 [8; 9; 0; 0].
Proof.
  split; try reflexivity; [|by intros [=]|done|done|].
  - exists [7; 0; 0; 0]. split; [reflexivity|]. split; [|done]. cbn. by unfold zlen.
  - by repeat (constructor; [by unfold is_byte|]).
Qed.

Lemma close_discards_witness :
  zlen (sink h0 o0) = 1 /\ zlen (BufferedOutputStream.accepted h0 s0) = zlen (sink h0 o0) + 2.
Proof.
  split; [reflexivity|].
  apply (BufferedOutputStream.close_discards h0 s0 o0 1 [8; 9; 0; 0]); [apply s0_holds|reflexivity].
Defined.
End BufferedExample.
