(* ===== verification/BufferedInputs.v ===== *)
(** * io/BufferedInputStream.cpp: the buffered input stream

    A buffer over any input stream that keeps the laws of [Streams]: the buffered stream keeps them
    too.  A marked position is kept as long as no more than the announced number of bytes is read. *)

From S2P Require Import Prelude ByteArrays Streams.
Open Scope Z_scope.

Module BufferedInputStream.
Import Bytes ByteArray Streams.

Section BufferedInputStream.
Context {S : Type} `{InputStream S}.

(** [mInputStream] and [mBuffer] are null once the stream is closed. *)
(* io/BufferedInputStream.h:70-75 BufferedInputStream *)
Record BufferedInputStream := mkBuffered {
  mInputStream : option S;
  mBuffer : option nat;
  mCount : Z;
  mMarkLimit : Z;
  mMarkPosition : Z;
  mPosition : Z;
}.

Definition set_stream i s :=
  mkBuffered i (mBuffer s) (mCount s) (mMarkLimit s) (mMarkPosition s) (mPosition s).
Definition set_buffer b s :=
  mkBuffered (mInputStream s) b (mCount s) (mMarkLimit s) (mMarkPosition s) (mPosition s).
Definition set_count n s :=
  mkBuffered (mInputStream s) (mBuffer s) n (mMarkLimit s) (mMarkPosition s) (mPosition s).
Definition set_limit n s :=
  mkBuffered (mInputStream s) (mBuffer s) (mCount s) n (mMarkPosition s) (mPosition s).
Definition set_mark p s :=
  mkBuffered (mInputStream s) (mBuffer s) (mCount s) (mMarkLimit s) p (mPosition s).
Definition set_position p s :=
  mkBuffered (mInputStream s) (mBuffer s) (mCount s) (mMarkLimit s) (mMarkPosition s) p.

(** A call on the wrapped stream. *)
Definition wrapped {A} (m : M (heap * S) A) : M (heap * BufferedInputStream) A := fun s =>
  match mInputStream (snd s) with
  | Some i => let '(r, (h, i')) := m (fst s, i) in (r, (h, set_stream (Some i') (snd s)))
  | None => (Undef, s)
  end.

(* io/BufferedInputStream.cpp:234-236 BufferedInputStream::failWithIoException *)
Definition failWithIoException {A} : M (heap * BufferedInputStream) A := throw IOException.

(* io/BufferedInputStream.cpp:25-31 BufferedInputStream::BufferedInputStream *)
Definition new (inputStream : S) (sz : Z) : M heap BufferedInputStream :=
  throw_if (sz =? 0) IllegalArgumentException;;
  b ← ByteArray.new sz;
  mret (mkBuffered (Some inputStream) (Some b) 0 0 (-1) 0).

(* io/BufferedInputStream.cpp:33-40 BufferedInputStream::available *)
Definition available : M (heap * BufferedInputStream) Z :=
  s ← this id;
  match mBuffer s, mInputStream s with
  | Some _, Some _ => n ← wrapped Streams.available; mret (u64 (mCount s - mPosition s + n))
  | _, _ => failWithIoException
  end.

(** The result is the wrapped stream, which the call closes. *)
(* io/BufferedInputStream.cpp:42-49 BufferedInputStream::close *)
Definition close : M (heap * BufferedInputStream) (option S) :=
  update (set_buffer None);;
  localInputStream ← this mInputStream;
  update (set_stream None);;
  mret localInputStream.

(* io/BufferedInputStream.cpp:51-54 BufferedInputStream::mark *)
Definition mark (limit : Z) : M (heap * BufferedInputStream) unit :=
  update (set_limit limit);;
  update (fun s => set_mark (i64 (mPosition s)) s).

(** Room for the bytes since the mark: the buffer is doubled, or its tail moved to the front. *)
(* io/BufferedInputStream.cpp:214-225 BufferedInputStream::fillBuffer (room) *)
Definition makeRoom (buffer : nat) : M (heap * BufferedInputStream) nat :=
  s ← this id;
  n ← onHeap (size buffer);
  if (mMarkPosition s =? 0) && (n <? mMarkLimit s) then
    let newSize := u64 (n * 2) in
    let newSize := if mMarkLimit s <? newSize then mMarkLimit s else newSize in
    newBuffer ← onHeap (ByteArray.new newSize);
    onHeap (arraycopy (Some buffer) 0 (Some newBuffer) 0 n);;
    update (set_buffer (Some newBuffer));;
    mret newBuffer
  else if 0 <? mMarkPosition s then
    onHeap (arraycopy (Some buffer) (mMarkPosition s) (Some buffer) 0 (u64 (n - mMarkPosition s)));;
    mret buffer
  else mret buffer.

(** The result comes with the buffer, which the caller passes by reference. *)
(* io/BufferedInputStream.cpp:203-232 BufferedInputStream::fillBuffer *)
Definition fillBuffer (buffer : nat) : M (heap * BufferedInputStream) (Z * nat) :=
  s ← this id;
  if (mMarkPosition s =? -1) || (mMarkLimit s <=? u64 (mPosition s - mMarkPosition s)) then
    result ← wrapped (read_all (Some buffer));
    (if 0 <? result then
       update (set_mark (-1));; update (set_position 0);; update (set_count result)
     else mret tt);;
    mret (result, buffer)
  else
    buffer ← makeRoom buffer;
    update (fun s => set_position (u64 (mPosition s - mMarkPosition s)) s);;
    update (set_mark 0);;
    update (set_count 0);;
    p ← this mPosition;
    n ← onHeap (size buffer);
    result ← wrapped (Streams.read_array (Some buffer) p (u64 (n - p)));
    let sz := i32 result in
    update (set_count (if sz <=? 0 then p else u64 (p + sz)));;
    mret (sz, buffer).

(* io/BufferedInputStream.cpp:60-84 BufferedInputStream::read() *)
Definition read_byte : M (heap * BufferedInputStream) Z :=
  s ← this id;
  match mBuffer s, mInputStream s with
  | Some localBuffer, Some _ =>
      r ← (if mCount s <=? mPosition s then '(r, _) ← fillBuffer localBuffer; mret r else mret 0);
      if r =? -1 then mret (-1) else
      b ← this mBuffer;
      match b with
      | None => failWithIoException
      | Some localBuffer =>
          s ← this id;
          if 0 <? u64 (mCount s - mPosition s) then
            update (set_position (u64 (mPosition s + 1)));;
            onHeap (ByteArray.get localBuffer (mPosition s))
          else mret (-1)
      end
  | _, _ => failWithIoException
  end.

(** One iteration of the loop of [read]: the result of the call, or the bytes read and the
    buffer. *)
(* io/BufferedInputStream.cpp:119-142 BufferedInputStream::read (iteration) *)
Definition readSome (localBuffer : nat) (buffer : option nat) (offset requiredStreamCount count : Z) :
    M (heap * BufferedInputStream) (Z + Z * nat) :=
  let atEnd := inl (if requiredStreamCount =? count then -1 else i64 (count - requiredStreamCount)) in
  s ← this id;
  n ← onHeap (size localBuffer);
  if (mMarkPosition s =? -1) && (n <=? requiredStreamCount) then
    sz ← wrapped (Streams.read_array buffer offset requiredStreamCount);
    mret (if sz =? -1 then atEnd else inr (sz, localBuffer))
  else
    '(r, _) ← fillBuffer localBuffer;
    if r =? -1 then mret atEnd else
    b ← this mBuffer;
    match b with
    | None => failWithIoException
    | Some localBuffer =>
        s ← this id;
        let left := u64 (mCount s - mPosition s) in
        let sz := if requiredStreamCount <=? left then requiredStreamCount else left in
        onHeap (arraycopy (Some localBuffer) (mPosition s) buffer offset sz);;
        update (set_position (u64 (mPosition s + sz)));;
        mret (inr (sz, localBuffer))
    end.

(* io/BufferedInputStream.cpp:118-151 BufferedInputStream::read (loop) *)
Fixpoint readLoop (fuel : nat) (localBuffer : nat) (buffer : option nat)
    (offset requiredStreamCount count : Z) : M (heap * BufferedInputStream) Z :=
  match fuel with
  | O => diverge
  | Datatypes.S fuel =>
      r ← readSome localBuffer buffer offset requiredStreamCount count;
      match r with
      | inl result => mret result
      | inr (sz, localBuffer) =>
          let requiredStreamCount := u64 (requiredStreamCount - sz) in
          if requiredStreamCount =? 0 then mret (i64 count) else
          n ← wrapped Streams.available;
          if n =? 0 then mret (i64 (count - requiredStreamCount)) else
          readLoop fuel localBuffer buffer (u64 (offset + sz)) requiredStreamCount count
      end
  end.

(** Every iteration that does not end the loop reads a byte: [count] iterations are enough. *)
(* io/BufferedInputStream.cpp:86-152 BufferedInputStream::read(buffer, offset, count) *)
Definition read_array (buffer : option nat) (offset count : Z) : M (heap * BufferedInputStream) Z :=
  s ← this id;
  match mBuffer s with
  | None => failWithIoException
  | Some localBuffer =>
      b ← deref buffer;
      n ← onHeap (size b);
      throw_if ((n <? offset) || (u64 (n - offset) <? count)) IndexOutOfBoundsException;;
      if count =? 0 then mret 0 else
      match mInputStream s with
      | None => failWithIoException
      | Some _ =>
          if mPosition s <? mCount s then
            let left := u64 (mCount s - mPosition s) in
            let sz := if count <=? left then count else left in
            onHeap (arraycopy (Some localBuffer) (mPosition s) buffer offset sz);;
            update (set_position (u64 (mPosition s + sz)));;
            if sz =? count then mret (i64 sz) else
            n ← wrapped Streams.available;
            if n =? 0 then mret (i64 sz) else
            readLoop (Z.to_nat count) localBuffer buffer (u64 (offset + sz)) (u64 (count - sz)) count
          else readLoop (Z.to_nat count) localBuffer buffer offset count count
      end
  end.

(* io/BufferedInputStream.cpp:154-162 BufferedInputStream::reset *)
Definition reset : M (heap * BufferedInputStream) unit :=
  s ← this id;
  match mBuffer s with
  | None => throw IOException
  | Some _ =>
      throw_if (mMarkPosition s =? -1) IOException;;
      update (set_position (u64 (mMarkPosition s)))
  end.

(* io/BufferedInputStream.cpp:164-201 BufferedInputStream::skip *)
Definition skip (count : Z) : M (heap * BufferedInputStream) Z :=
  s ← this id;
  match mBuffer s with
  | None => failWithIoException
  | Some localBuffer =>
      if count <? 1 then mret 0 else
      match mInputStream s with
      | None => failWithIoException
      | Some _ =>
          let sz := u64 (mCount s - mPosition s) in
          if count <=? sz then
            update (set_position (u64 (mPosition s + count)));; mret count
          else
            update (set_position (mCount s));;
            if negb (mMarkPosition s =? -1) && (count <=? mMarkLimit s) then
              '(r, _) ← fillBuffer localBuffer;
              if r =? -1 then mret sz else
              s ← this id;
              let left := u64 (mCount s - mPosition s) in
              if u64 (count - sz) <=? left then
                update (set_position (u64 (mPosition s + u64 (count - sz))));; mret count
              else
                update (set_position (mCount s));; mret (u64 (sz + left))
            else
              n ← wrapped (Streams.skip (u64 (count - sz)));
              mret (u64 (sz + n))
      end
  end.

#[export] Instance ops : InputStream BufferedInputStream :=
  {| Streams.read_array := read_array; Streams.read_byte := read_byte;
     Streams.available := available; Streams.skip := skip |}.
End BufferedInputStream.
Arguments BufferedInputStream : clear implicits.

(** ** It implements the interface, over any stream that does *)

Section spec.
Context {S : Type} `{InputStreamSpec S}.

(** The wrapped stream [i], the buffer [b] and its bytes.  A mark that is not at the front of the
    buffer is in its second half: moving the bytes behind it to the front is then a copy between
    disjoint ranges. *)
Record holds (h : heap) (s : BufferedInputStream S) (i : S) (b : nat) (bs : list Z) : Prop := {
  hi_stream : mInputStream s = Some i;
  hi_buffer : mBuffer s = Some b;
  hi_valid : ivalid h i;
  hi_apart : ~ iowned i b;
  hi_array : h !! b = Some bs;
  hi_count : 0 <= mPosition s <= mCount s /\ mCount s <= zlen bs;
  hi_size : 0 < zlen bs < 2 ^ 31;
  hi_bytes : Forall is_byte bs;
  hi_limit : 0 <= mMarkLimit s < 2 ^ 31;
  hi_mark : mMarkPosition s = -1 \/ (0 <= mMarkPosition s <= mPosition s /\
    (mMarkPosition s = 0 \/ zlen bs <= 2 * mMarkPosition s));
}.

Definition valid (h : heap) (s : BufferedInputStream S) : Prop := exists i b bs, holds h s i b bs.

(** The bytes not yet read: those in the buffer, then those of the wrapped stream. *)
Definition unread (h : heap) (s : BufferedInputStream S) : list Z :=
  match mInputStream s, mBuffer s with
  | Some i, Some b => slice (mPosition s) (mCount s - mPosition s) (default [] (h !! b)) ++ rest h i
  | _, _ => []
  end.

(** The bytes read since the mark. *)
Definition replay (h : heap) (s : BufferedInputStream S) : list Z :=
  match mBuffer s with
  | Some b => slice (mMarkPosition s) (mPosition s - mMarkPosition s) (default [] (h !! b))
  | None => []
  end.

Definition owned (s : BufferedInputStream S) (c : nat) : Prop :=
  mBuffer s = Some c \/ exists i, mInputStream s = Some i /\ iowned i c.
Definition writes (s : BufferedInputStream S) (c : nat) : Prop :=
  mBuffer s = Some c \/ exists i, mInputStream s = Some i /\ iwrites i c.

Lemma unread_eq h s i b bs :
  holds h s i b bs -> unread h s = slice (mPosition s) (mCount s - mPosition s) bs ++ rest h i.
Proof. intros []. unfold unread. by rewrite hi_stream0, hi_buffer0, hi_array0. Qed.

Lemma replay_eq h s i b bs :
  holds h s i b bs -> replay h s = slice (mMarkPosition s) (mPosition s - mMarkPosition s) bs.
Proof. intros []. unfold replay. by rewrite hi_buffer0, hi_array0. Qed.

Lemma in_owned_eq h s i b bs c : holds h s i b bs -> owned s c <-> c = b \/ iowned i c.
Proof.
  intros []. unfold owned. rewrite hi_stream0, hi_buffer0. split.
  - intros [[= ->]|(o' & [= <-] & ?)]; auto.
  - intros [->|?]; eauto.
Qed.

Lemma writes_eq h s i b bs c : holds h s i b bs -> writes s c <-> c = b \/ iwrites i c.
Proof.
  intros []. unfold writes. rewrite hi_stream0, hi_buffer0. split.
  - intros [[= ->]|(o' & [= <-] & ?)]; auto.
  - intros [->|?]; eauto.
Qed.

Lemma in_wrapped_eq {A} (m : M (heap * S) A) h s i r h' i' :
  mInputStream s = Some i -> m (h, i) = (r, (h', i')) ->
  wrapped m (h, s) = (r, (h', set_stream (Some i') s)).
Proof. intros Hi Hm. unfold wrapped. cbn. by rewrite Hi, Hm. Qed.
(** What a call may do to the arrays: it writes those the stream writes and those of [P], and no
    array that existed becomes one of the stream's. *)
Definition framed (P : nat -> Prop) (h : heap) (s : BufferedInputStream S) (h' : heap)
    (s' : BufferedInputStream S) : Prop :=
  preserves (fun c => writes s c \/ P c) (fun c => writes s' c \/ P c) h h' /\
  apart (owned s) (owned s') h h'.

Lemma framed_refl P h s : framed P h s h s.
Proof. split; [apply preserves_refl|apply apart_refl]. Qed.

Lemma framed_trans P h1 s1 h2 s2 h3 s3 :
  framed P h1 s1 h2 s2 -> framed P h2 s2 h3 s3 -> framed P h1 s1 h3 s3.
Proof. intros [] []. split; [by eapply preserves_trans|by eapply apart_trans]. Qed.

Lemma framed_weaken (P Q : nat -> Prop) h s h' s' :
  (forall c, P c -> Q c) -> framed P h s h' s' -> framed Q h s h' s'.
Proof.
  intros Hpq [Hp Ha]. split; [|done]. eapply preserves_more, Hp; intros c [?|?]; auto.
Qed.

(** The frame of a call that leaves the array [d] to the caller. *)
Lemma framed_array P h s i b bs h' s' d ds :
  framed P h s h' s' -> holds h s i b bs -> h !! d = Some ds -> ~ owned s d -> ~ owned s' d.
Proof. intros [_ [_ Ha]] _ Hd Hn. apply Ha; [by eapply lookup_lt_Some|done]. Qed.

(** [xs] was read: the mark is kept where its limit allows it. *)
Definition kept (xs : list Z) (h : heap) (s : BufferedInputStream S) (h' : heap)
    (s' : BufferedInputStream S) : Prop :=
  mMarkLimit s' = mMarkLimit s /\
  (mMarkPosition s <> -1 -> zlen (replay h s) + zlen xs <= mMarkLimit s ->
    mMarkPosition s' <> -1 /\ replay h' s' = replay h s ++ xs).

Lemma kept_refl h s : kept [] h s h s.
Proof. split; [done|]. intros Hm _. by rewrite app_nil_r. Qed.

Lemma kept_trans xs ys h1 s1 h2 s2 h3 s3 :
  kept xs h1 s1 h2 s2 -> kept ys h2 s2 h3 s3 -> kept (xs ++ ys) h1 s1 h3 s3.
Proof.
  intros [Hl1 H1] [Hl2 H2]. split; [congruence|]. rewrite zlen_app. pose proof (zlen_nonneg ys).
  intros Hm Hz. destruct H1 as [Hm2 Hr2]; [done|lia|]. rewrite Hr2, zlen_app, Hl1 in H2.
  destruct H2 as [? Hr3]; [done|lia|]. split; [done|]. by rewrite Hr3, app_assoc.
Qed.

Lemma replay_zlen h s i b bs :
  holds h s i b bs -> mMarkPosition s <> -1 -> zlen (replay h s) = mPosition s - mMarkPosition s.
Proof.
  intros Hs Hm. rewrite (replay_eq _ _ _ _ _ Hs). destruct Hs as [_ _ _ _ _ Hc _ _ _ [?|[? _]]].
  - done.
  - apply zlen_slice; lia.
Qed.

(** The wrapped stream after an array it does not depend on was changed or made. *)
Lemma wrapped_frame h s i b bs h' :
  holds h s i b bs -> (forall c cs, c <> b -> h !! c = Some cs -> h' !! c = Some cs) ->
  ivalid h' i /\ rest h' i = rest h i.
Proof.
  intros Hs Hf. apply ivalid_frame; [apply (hi_valid _ _ _ _ _ Hs)|].
  intros c cs Hc. apply Hf. intros ->. by apply (hi_apart _ _ _ _ _ Hs).
Qed.

Lemma set_buffer_id (s : BufferedInputStream S) b : mBuffer s = Some b -> set_buffer (Some b) s = s.
Proof. destruct s. cbn. by intros ->. Qed.

Lemma set_stream_id (s : BufferedInputStream S) i : mInputStream s = Some i -> set_stream (Some i) s = s.
Proof. destruct s. cbn. by intros ->. Qed.

(** What [makeRoom] achieves: the bytes since the mark at the front of the new buffer [b']. *)
Definition roomy (h : heap) (s : BufferedInputStream S) (i : S) (bs : list Z) (h' : heap) (b' : nat)
    (bs' : list Z) : Prop :=
  h' !! b' = Some bs' /\ ~ iowned i b' /\ ivalid h' i /\ rest h' i = rest h i /\
  mPosition s - mMarkPosition s < zlen bs' < 2 ^ 31 /\ Forall is_byte bs' /\
  slice 0 (mPosition s - mMarkPosition s) bs' =
    slice (mMarkPosition s) (mPosition s - mMarkPosition s) bs /\
  framed (fun _ => False) h s h' (set_buffer (Some b') s).

Lemma grow_room h s i b bs n :
  holds h s i b bs -> mMarkPosition s = 0 -> zlen bs < n < 2 ^ 31 ->
  roomy h s i bs (<[length h := splice 0 bs (replicate (Z.to_nat n) 0)]>
    (h ++ [replicate (Z.to_nat n) 0])) (length h) (splice 0 bs (replicate (Z.to_nat n) 0)).
Proof.
  intros Hs Hm Hn. set (zs := replicate (Z.to_nat n) 0). set (h' := <[length h := _]> _).
  pose proof Hs as [Hst Hbu Hv Ha Hb Hc Hsz Hby Hlim Hmark]. pose proof (zlen_nonneg bs).
  assert (zlen zs = n) as Hzs by (unfold zs, zlen; rewrite length_replicate; lia).
  assert (forall c, (c < length h)%nat -> h' !! c = h !! c) as Hold.
  { intros c Hlt. unfold h'. rewrite heap_lookup_ne by lia. by apply lookup_app_l. }
  assert (forall c cs, h !! c = Some cs -> h' !! c = Some cs /\ c <> length h) as Hkeep.
  { intros c cs Hl. pose proof (lookup_lt_Some _ _ _ Hl). rewrite Hold by done. split; [done|lia]. }
  destruct (wrapped_frame h s i b bs h' Hs) as [Hv' Hr'].
  { intros c cs _ Hl. by apply Hkeep. }
  split; [|split; [|split; [done|split; [done|split; [|split; [|split]]]]]].
  - unfold h'. apply list_lookup_insert_eq. rewrite length_app. cbn. lia.
  - intros Ho. pose proof (iowned_alloc _ _ _ Hv Ho). lia.
  - rewrite zlen_splice by lia. lia.
  - apply splice_Forall; [|done]. apply Forall_replicate. by unfold is_byte.
  - rewrite Hm, Z.sub_0_r. rewrite <- (take_slice 0 (zlen bs) (mPosition s)) by lia.
    rewrite slice_splice by lia. by unfold slice.
  - split; [|split].
    + intros c cs Hw Hl. destruct (Hkeep c cs Hl) as [Hl' Hne]. split; [done|].
      intros [Hw'|[]]. apply Hw. left. unfold writes in *. cbn in Hw'. destruct Hw' as [[= <-]|Hw'];
        [done|by right].
    + unfold h'. change (list Z) with (list Z). rewrite length_insert, length_app. lia.
    + intros c Hlt Hn' [[= <-]|Ho]; [lia|]. apply Hn'. by right.
Qed.

Lemma shift_room h s i b bs :
  holds h s i b bs -> 0 < mMarkPosition s ->
  roomy h s i bs (<[b := splice 0 (slice (mMarkPosition s) (zlen bs - mMarkPosition s) bs) bs]> h) b
    (splice 0 (slice (mMarkPosition s) (zlen bs - mMarkPosition s) bs) bs).
Proof.
  intros Hs Hm. set (h' := <[b := _]> h).
  pose proof Hs as [Hst Hbu Hv Ha Hb Hc Hsz Hby Hlim Hmark].
  assert (mMarkPosition s <= mPosition s) as Hle by lia.
  assert (zlen (slice (mMarkPosition s) (zlen bs - mMarkPosition s) bs) = zlen bs - mMarkPosition s)
    as Hz by (apply zlen_slice; lia).
  destruct (wrapped_frame h s i b bs h' Hs) as [Hv' Hr'].
  { intros c cs Hne Hl. unfold h'. by rewrite heap_lookup_ne. }
  split; [|split; [done|split; [done|split; [done|split; [|split; [|split]]]]]].
  - unfold h'. by eapply heap_lookup_eq.
  - rewrite zlen_splice by lia. lia.
  - apply splice_Forall; [done|by apply Forall_take, Forall_drop].
  - set (xs := slice (mMarkPosition s) (zlen bs - mMarkPosition s) bs) in *.
    rewrite <- (take_slice 0 (zlen xs)) by lia. rewrite slice_splice by lia.
    unfold xs. apply take_slice. lia.
  - split; [|split].
    + intros c cs Hw Hl. split; [|unfold writes in *; cbn; by rewrite <- Hbu].
      unfold h'. rewrite heap_lookup_ne; [done|]. intros ->. apply Hw. left. by left.
    + unfold h'. apply Nat.eq_le_incl. symmetry. apply length_insert.
    + intros c Hlt Hn'. unfold owned in *. cbn. by rewrite <- Hbu.
Qed.

Lemma same_room h s i b bs :
  holds h s i b bs -> mMarkPosition s = 0 -> mPosition s < mMarkLimit s -> mMarkLimit s <= zlen bs ->
  roomy h s i bs h b bs.
Proof.
  intros Hs Hm Hp Hl. pose proof Hs as [Hst Hbu Hv Ha Hb Hc Hsz Hby Hlim Hmark].
  split; [done|]. split; [done|]. split; [done|]. split; [done|]. split; [lia|]. split; [done|].
  split; [by rewrite Hm|]. rewrite (set_buffer_id _ _ Hbu).
  apply framed_refl.
Qed.

Lemma room_made h s i b bs :
  holds h s i b bs -> mMarkPosition s <> -1 -> mPosition s - mMarkPosition s < mMarkLimit s ->
  exists h' b' bs', makeRoom b (h, s) = (Ok b', (h', set_buffer (Some b') s)) /\
    roomy h s i bs h' b' bs'.
Proof.
  intros Hs Hm Hlt. pose proof Hs as [Hst Hbu Hv Ha Hb Hc Hsz Hby Hlim Hmark].
  pose proof (set_buffer_id _ _ Hbu) as Hid.
  unfold makeRoom, this. rewrite bind_gets. cbn [id snd].
  mstep (onHeap_read _ (h, s) _ (size_eq _ _ _ Hb)).
  destruct (Z.eqb_spec (mMarkPosition s) 0) as [E|E]; cbn [andb].
  - destruct (Z.ltb_spec (zlen bs) (mMarkLimit s)) as [Hg|Hg].
    + rewrite u64_id by lia. set (n := if mMarkLimit s <? zlen bs * 2 then mMarkLimit s else zlen bs * 2).
      assert (zlen bs < n < 2 ^ 31) as Hn.
      { unfold n. destruct (Z.ltb_spec (mMarkLimit s) (zlen bs * 2)); lia. }
      erewrite (bind_Ok (onHeap (ByteArray.new n))); [|apply onHeap_eq; reflexivity]. cbn beta.
      cbn [fst snd]. set (zs := replicate (Z.to_nat n) 0).
      assert (zlen zs = n) as Hzs by (unfold zs, zlen; rewrite length_replicate; lia).
      pose proof (lookup_lt_Some _ _ _ Hb) as Hlb.
      erewrite (bind_Ok (onHeap (arraycopy _ _ _ _ _))).
      2: { apply onHeap_eq. cbn [fst]. apply (arraycopy_eq _ _ zs _ _ bs); try lia.
           - by apply lookup_app_l_Some.
           - by apply list_lookup_middle.
           - apply overlap_ne. lia. }
      cbn beta. unfold update. rewrite bind_modify. cbn [fst snd]. rewrite slice_all.
      do 3 eexists. split; [reflexivity|]. by eapply grow_room.
    + rewrite (proj2 (Z.ltb_ge 0 (mMarkPosition s))) by lia. exists h, b, bs. rewrite Hid.
      split; [done|]. apply (same_room _ _ _ _ _ Hs); lia.
  - rewrite (proj2 (Z.ltb_lt 0 (mMarkPosition s))) by lia. rewrite u64_id by lia.
    erewrite (bind_Ok (onHeap (arraycopy _ _ _ _ _))).
    2: { apply onHeap_eq. cbn [fst]. apply (arraycopy_eq _ _ bs _ _ bs); try done; try lia.
         unfold overlap. rewrite bool_decide_eq_true_2 by done. cbn [andb].
         apply andb_false_iff. right. apply Z.ltb_ge. lia. }
    cbn beta. cbn [snd]. do 3 eexists. rewrite Hid. split; [reflexivity|].
    by apply (shift_room _ _ _ _ _ Hs); lia.
Qed.

Lemma framed_inner P h s i b h' s' i' :
  mInputStream s = Some i -> mBuffer s = Some b -> mInputStream s' = Some i' -> mBuffer s' = Some b ->
  preserves (fun c => iwrites i c \/ c = b \/ P c) (fun c => iwrites i' c \/ c = b \/ P c) h h' ->
  apart (iowned i) (iowned i') h h' -> framed P h s h' s'.
Proof.
  intros Hi Hb Hi' Hb' Hp [Hl Ha]. split; [|split; [done|]].
  - eapply preserves_more, Hp; unfold writes; rewrite ?Hi, ?Hb, ?Hi', ?Hb'; intros c.
    + intros [?|[->|?]]; [left; right; by exists i|left; by left|by right].
    + intros [[[= <-]|(o & [= <-] & ?)]|?]; auto.
  - intros c Hlt Hn. unfold owned in *. rewrite Hi, Hb in Hn. rewrite Hi', Hb'.
    intros [[= <-]|(o & [= <-] & Ho)]; [tauto|]. apply (Ha c); [done| |done].
    intros Ho'. apply Hn. right. by exists i.
Qed.

(** A read of the wrapped stream into the free part of the buffer. *)
Lemma load_ok h i b bs p :
  ivalid h i -> ~ iowned i b -> h !! b = Some bs -> 0 <= p < zlen bs -> zlen bs < 2 ^ 31 ->
  Forall is_byte bs ->
  exists r h' i' bs', Streams.read_array (Some b) p (zlen bs - p) (h, i) = (Ok r, (h', i')) /\
    ivalid h' i' /\ ~ iowned i' b /\ h' !! b = Some bs' /\ zlen bs' = zlen bs /\
    Forall is_byte bs' /\ slice 0 p bs' = slice 0 p bs /\
    ((r = -1 /\ rest h i = [] /\ rest h' i' = [] /\ bs' = bs) \/
     (0 < r <= zlen bs - p /\ slice p r bs' ++ rest h' i' = rest h i)) /\
    preserves (fun c => iwrites i c \/ c = b) (fun c => iwrites i' c \/ c = b) h h' /\
    apart (iowned i) (iowned i') h h'.
Proof.
  intros Hv Hn Hb Hp Hsz Hby.
  destruct (read_array_ok h i b bs p (zlen bs - p)) as
    (r & h' & i' & Hrun & Hv' & Hr & Hpr & Hap); try done; try (unfold MAX; lia).
  assert (~ iowned i' b) as Hn'.
  { destruct Hap as [_ Ha]. apply Ha; [by eapply lookup_lt_Some|done]. }
  destruct Hr as [(He & -> & He' & Hb')|(Hr & Hle & Hrest & Hb')].
  - exists (-1), h', i', bs. split_and!; try done. by left.
  - assert (zlen (take (Z.to_nat r) (rest h i)) = r) as Hz.
    { unfold zlen in *. rewrite length_take. lia. }
    exists r, h', i', (splice p (take (Z.to_nat r) (rest h i)) bs).
    split_and!; try done.
    + apply zlen_splice; lia.
    + apply splice_Forall; [done|]. apply Forall_take, rest_bytes, Hv.
    + apply slice_splice_out; lia.
    + right. split; [lia|]. rewrite <- Hz at 1. rewrite slice_splice by lia. rewrite Hrest.
      apply take_drop.
Qed.

(** The outcome of a fill: the end of the stream, or bytes in the buffer. *)
Record filled (h : heap) (s : BufferedInputStream S) (r : Z) (b : nat) (h' : heap)
    (s' : BufferedInputStream S) : Prop := {
  fi_holds : exists i bs, holds h' s' i b bs;
  fi_unread : unread h' s' = unread h s;
  fi_result : (r = -1 /\ unread h s = [] /\ mCount s' = mPosition s') \/
    (0 < r /\ mCount s' = mPosition s' + r);
  fi_limit : mMarkLimit s' = mMarkLimit s;
  fi_mark : mMarkPosition s <> -1 -> r = -1 \/ zlen (replay h s) < mMarkLimit s ->
    mMarkPosition s' <> -1 /\ replay h' s' = replay h s;
  fi_framed : framed (fun _ => False) h s h' s';
}.

Lemma fill_unmarked h s i b bs :
  holds h s i b bs -> mCount s = mPosition s ->
  mMarkPosition s = -1 \/ mMarkLimit s <= mPosition s - mMarkPosition s ->
  exists r h' s', fillBuffer b (h, s) = (Ok (r, b), (h', s')) /\ filled h s r b h' s'.
Proof.
  intros Hs Hempty Hm. pose proof Hs as [Hst Hbu Hv Ha Hb Hc Hsz Hby Hlim Hmark].
  assert (unread h s = rest h i) as Hu.
  { rewrite (unread_eq _ _ _ _ _ Hs), Hempty, Z.sub_diag. done. }
  destruct (load_ok h i b bs 0 Hv Ha Hb ltac:(lia) ltac:(lia) Hby) as
    (r & h' & i' & bs' & Hrun & Hv' & Hn' & Hb' & Hz' & Hby' & _ & Hr & Hp & Hap).
  assert (forall s', mInputStream s' = Some i' -> mBuffer s' = Some b ->
    framed (fun _ => False) h s h' s') as Hf.
  { intros s' Hi' Hbu'. eapply framed_inner; [done..| |done].
    eapply preserves_more, Hp; intros c; cbn; tauto. }
  unfold fillBuffer, this. rewrite bind_gets. cbn [id snd].
  replace ((mMarkPosition s =? -1) || (mMarkLimit s <=? u64 (mPosition s - mMarkPosition s))) with true.
  2: { symmetry. destruct (Z.eqb_spec (mMarkPosition s) (-1)) as [E|E]; [done|]. cbn [orb].
       destruct Hm as [?|Hm]; [done|]. apply Z.leb_le. rewrite u64_id; lia. }
  assert (read_all (Some b) (h, i) = (Ok r, (h', i'))) as Hall.
  { unfold read_all. cbn [deref]. rewrite bind_ret.
    mstep (onHeap_read _ (h, i) _ (size_eq _ _ _ Hb)). by rewrite Z.sub_0_r in Hrun. }
  mstep (in_wrapped_eq _ _ _ _ _ _ _ Hst Hall).
  destruct Hr as [(-> & He & He' & ->)|[Hr Hrest]].
  - erewrite bind_Ok; [|reflexivity]. cbn beta. do 3 eexists. split; [reflexivity|].
    assert (holds h' (set_stream (Some i') s) i' b bs) as Hs' by by split.
    split; [by exists i', bs| | |done| |by apply Hf].
    + rewrite (unread_eq _ _ _ _ _ Hs'), Hu, He, He'. cbn. by rewrite Hempty, Z.sub_diag.
    + left. by rewrite Hu.
    + intros Hmk _. split; [done|].
      by rewrite (replay_eq _ _ _ _ _ Hs), (replay_eq _ _ _ _ _ Hs').
  - rewrite (proj2 (Z.ltb_lt 0 r)) by lia. erewrite bind_Ok; [|reflexivity]. cbn beta.
    cbn [update modify fst snd].
    set (s' := set_count r _). exists r, h', s'. split; [reflexivity|].
    assert (holds h' s' i' b bs') as Hs'.
    { split; try done; cbn; try lia; by left. }
    split; [by exists i', bs'| | |done| |by apply Hf].
    + rewrite (unread_eq _ _ _ _ _ Hs'), Hu, <- Hrest. cbn. by rewrite Z.sub_0_r.
    + right. cbn. lia.
    + intros Hmk [->|Hz]; [lia|]. rewrite (replay_zlen _ _ _ _ _ Hs Hmk) in Hz. lia.
Qed.

Lemma fill_marked h s i b bs :
  holds h s i b bs -> mCount s = mPosition s ->
  mMarkPosition s <> -1 -> mPosition s - mMarkPosition s < mMarkLimit s ->
  exists r b' h' s', fillBuffer b (h, s) = (Ok (r, b'), (h', s')) /\ filled h s r b' h' s'.
Proof.
  intros Hs Hempty Hm Hlt. pose proof Hs as [Hst Hbu Hv Ha Hb Hc Hsz Hby Hlim Hmark].
  assert (unread h s = rest h i) as Hu.
  { rewrite (unread_eq _ _ _ _ _ Hs), Hempty, Z.sub_diag. done. }
  destruct (room_made h s i b bs Hs Hm Hlt) as
    (h1 & b1 & bs1 & Hroom & Hb1 & Hn1 & Hv1 & Hr1 & Hsz1 & Hby1 & Hsl1 & Hf1).
  set (p := mPosition s - mMarkPosition s) in *.
  destruct (load_ok h1 i b1 bs1 p Hv1 Hn1 Hb1 ltac:(lia) ltac:(lia) Hby1) as
    (r & h' & i' & bs' & Hrun & Hv' & Hn' & Hb' & Hz' & Hby' & Hsl' & Hr & Hp & Hap).
  unfold fillBuffer, this. rewrite bind_gets. cbn [id snd].
  replace ((mMarkPosition s =? -1) || (mMarkLimit s <=? u64 (mPosition s - mMarkPosition s))) with false.
  2: { symmetry. apply orb_false_iff. split; [by apply Z.eqb_neq|]. apply Z.leb_gt.
       rewrite u64_id; lia. }
  mstep Hroom. unfold update. do 3 rewrite bind_modify. cbn [fst snd].
  rewrite bind_gets. cbn [snd set_count set_mark set_position mPosition mMarkPosition set_buffer].
  fold p. rewrite (u64_id p) by lia. set (s1 := set_count 0 _).
  mstep (onHeap_read _ (h1, s1) _ (size_eq _ _ _ Hb1)). rewrite u64_id by lia.
  assert (mInputStream s1 = Some i) as Hst1 by done.
  mstep (in_wrapped_eq _ _ _ _ _ _ _ Hst1 Hrun).
  assert (i32 r = r) as Hi by (apply i32_id; lia).
  rewrite Hi. rewrite bind_modify. cbn [fst snd].
  set (n := if r <=? 0 then p else u64 (p + r)).
  assert (n = Z.max p (p + r)) as Hn.
  { unfold n. destruct (Z.leb_spec r 0); [lia|]. rewrite u64_id; lia. }
  set (s' := set_count n _).
  assert (holds h' s' i' b1 bs') as Hs'.
  { split; try done; cbn; try lia; right; lia. }
  assert (replay h' s' = replay h s) as Hrep.
  { rewrite (replay_eq _ _ _ _ _ Hs), (replay_eq _ _ _ _ _ Hs'). cbn.
    rewrite Z.sub_0_r, Hsl', Hsl1. done. }
  exists r, b1, h', s'. split; [reflexivity|].
  split; [by exists i', bs'| | |done|by intros _ _|].
  - rewrite (unread_eq _ _ _ _ _ Hs'), Hu, <- Hr1. cbn.
    destruct Hr as [(-> & He & He' & _)|[Hr Hrest]].
    + rewrite He, He', Hn, Z.max_l, Z.sub_diag by lia. done.
    + rewrite <- Hrest, Hn, Z.max_r by lia. do 2 f_equal. lia.
  - rewrite Hu, <- Hr1. cbn. destruct Hr as [(-> & He & He' & _)|[Hr Hrest]]; [left|right].
    + split; [done|]. split; [done|lia].
    + lia.
  - eapply framed_trans; [exact Hf1|]. eapply framed_inner; [exact Hst|reflexivity..| |done].
    eapply preserves_more, Hp; intros c; cbn; tauto.
Qed.

Lemma fill_ok h s i b bs :
  holds h s i b bs -> mCount s = mPosition s ->
  exists r b' h' s', fillBuffer b (h, s) = (Ok (r, b'), (h', s')) /\ filled h s r b' h' s'.
Proof.
  intros Hs He. destruct (decide (mMarkPosition s = -1)) as [Hm|Hm];
    [|destruct (decide (mMarkLimit s <= mPosition s - mMarkPosition s)) as [Hl|Hl]].
  - destruct (fill_unmarked _ _ _ _ _ Hs He) as (r & h' & s' & ?); [by left|]. by exists r, b, h', s'.
  - destruct (fill_unmarked _ _ _ _ _ Hs He) as (r & h' & s' & ?); [by right|]. by exists r, b, h', s'.
  - apply (fill_marked _ _ _ _ _ Hs He Hm). lia.
Qed.

(** The bytes of the buffer are the first unread ones. *)
Lemma take_unread h s i b bs n :
  holds h s i b bs -> 0 <= n <= mCount s - mPosition s ->
  slice (mPosition s) n bs = take (Z.to_nat n) (unread h s).
Proof.
  intros Hs Hn. rewrite (unread_eq _ _ _ _ _ Hs).
  pose proof (hi_count _ _ _ _ _ Hs) as Hc.
  assert (length (slice (mPosition s) (mCount s - mPosition s) bs) = Z.to_nat (mCount s - mPosition s))
    as Hl by (pose proof (zlen_slice (mPosition s) (mCount s - mPosition s) bs); unfold zlen in *; lia).
  rewrite take_app_le by lia. by rewrite take_slice.
Qed.

(** The stream after [n] bytes of the buffer were taken, in a store where its arrays are as
    before. *)
Lemma moved_ok h s i b bs h' n :
  holds h s i b bs -> 0 <= n <= mCount s - mPosition s ->
  (forall c cs, owned s c -> h !! c = Some cs -> h' !! c = Some cs) ->
  let s' := set_position (mPosition s + n) s in
  holds h' s' i b bs /\ unread h' s' = drop (Z.to_nat n) (unread h s) /\
  kept (take (Z.to_nat n) (unread h s)) h s h' s'.
Proof.
  intros Hs Hn Hf s'. pose proof Hs as [Hst Hbu Hv Ha Hb Hc Hsz Hby Hlim Hmark].
  destruct (ivalid_frame h h' i Hv) as [Hv' Hr'].
  { intros c cs Hc'. apply Hf. right. by exists i. }
  assert (holds h' s' i b bs) as Hs'.
  { split; try done; cbn; try lia. apply Hf; [by left|done]. }
  split; [done|]. split.
  - rewrite (unread_eq _ _ _ _ _ Hs), (unread_eq _ _ _ _ _ Hs'), Hr'. cbn.
    assert (length (slice (mPosition s) (mCount s - mPosition s) bs) = Z.to_nat (mCount s - mPosition s))
      as Hl by (pose proof (zlen_slice (mPosition s) (mCount s - mPosition s) bs); unfold zlen in *; lia).
    rewrite drop_app_le by lia. rewrite drop_slice by lia. do 2 f_equal. lia.
  - split; [done|]. intros Hm _. split; [done|].
    rewrite (replay_eq _ _ _ _ _ Hs), (replay_eq _ _ _ _ _ Hs'), <- (take_unread _ _ _ _ _ _ Hs Hn). cbn.
    replace (mPosition s + n - mMarkPosition s) with (mPosition s - mMarkPosition s + n) by lia.
    rewrite slice_app by lia. do 2 f_equal. lia.
Qed.

Lemma copy_out h s i b bs d ds off n :
  holds h s i b bs -> h !! d = Some ds -> ~ owned s d -> zlen ds < MAX -> 0 <= off ->
  0 <= n <= mCount s - mPosition s -> off + n <= zlen ds ->
  let h' := <[d := splice off (take (Z.to_nat n) (unread h s)) ds]> h in
  let s' := set_position (mPosition s + n) s in
  onHeap (arraycopy (Some b) (mPosition s) (Some d) off n) (h, s) = (Ok tt, (h', s)) /\
  holds h' s' i b bs /\ unread h' s' = drop (Z.to_nat n) (unread h s) /\
  kept (take (Z.to_nat n) (unread h s)) h s h' s' /\ framed (fun c => c = d) h s h' s'.
Proof.
  intros Hs Hd Hn Hsz Ho Hk Hl h' s'. pose proof Hs as [Hst Hbu Hv Ha Hb Hc Hbsz Hby Hlim Hmark].
  unfold MAX in Hsz. assert (d <> b) as Hne by (intros ->; apply Hn; by left). split.
  - apply onHeap_eq. cbn [fst]. unfold h'. rewrite <- (take_unread _ _ _ _ _ _ Hs Hk).
    apply (arraycopy_eq _ _ ds _ _ bs); try done; try lia. by apply overlap_ne.
  - destruct (moved_ok h s i b bs h' n Hs Hk) as (? & ? & ?).
    { intros c cs Hc' Hcs. unfold h'. rewrite heap_lookup_ne; [done|]. by intros ->. }
    split; [done|]. split; [done|]. split; [done|]. split; [|split].
    + intros c cs Hw Hcs. split; [|exact Hw]. unfold h'. rewrite heap_lookup_ne; [done|].
      intros ->. tauto.
    + unfold h'. apply Nat.eq_le_incl. symmetry. apply length_insert.
    + intros c _ Hc'. exact Hc'.
Qed.

(** A filled buffer is the stream's. *)
Lemma filled_holds h s r b h' s' :
  filled h s r b h' s' -> exists i b' bs, holds h' s' i b' bs /\ mBuffer s' = Some b'.
Proof. intros [(i & bs & Hs) _ _ _ _ _]. exists i, b, bs. split; [done|]. apply (hi_buffer _ _ _ _ _ Hs). Qed.

(** What one more byte or array read from [s] gives: [xs], from the front of [unread]. *)
Record took (P : nat -> Prop) (xs : list Z) (h : heap) (s : BufferedInputStream S) (h' : heap)
    (s' : BufferedInputStream S) : Prop := {
  to_unread : unread h s = xs ++ unread h' s';
  to_kept : kept xs h s h' s';
  to_framed : framed P h s h' s';
}.

Lemma took_trans P xs ys h1 s1 h2 s2 h3 s3 :
  took P xs h1 s1 h2 s2 -> took P ys h2 s2 h3 s3 -> took P (xs ++ ys) h1 s1 h3 s3.
Proof.
  intros [Hu1 Hk1 Hf1] [Hu2 Hk2 Hf2]. split.
  - by rewrite Hu1, Hu2, app_assoc.
  - by eapply kept_trans.
  - by eapply framed_trans.
Qed.

(** A fill before a read of at least one byte. *)
Lemma filled_took P xs h s r b h1 s1 h2 s2 :
  filled h s r b h1 s1 -> took P xs h1 s1 h2 s2 -> 0 < zlen xs -> took P xs h s h2 s2.
Proof.
  intros [_ Hu _ Hl Hm Hf] [Hu2 [Hl2 Hk2] Hf2] Hx. split.
  - by rewrite <- Hu.
  - split; [congruence|]. intros Hmk Hz. destruct (Hm Hmk) as [Hmk1 Hr1]; [right; lia|].
    rewrite Hl, Hr1 in Hk2. by apply Hk2.
  - eapply framed_trans; [|exact Hf2]. eapply framed_weaken; [|exact Hf]. done.
Qed.

(** The end of the stream: nothing is read. *)
Lemma filled_end P h s b h' s' : filled h s (-1) b h' s' -> took P [] h s h' s'.
Proof.
  intros [_ Hu _ Hl Hm Hf]. split; [by rewrite Hu| |by eapply framed_weaken, Hf].
  split; [done|]. intros Hmk _. rewrite app_nil_r. apply Hm; [done|by left].
Qed.

Lemma writes_owned s c : writes s c -> owned s c.
Proof. intros [?|(i & ? & ?)]; [by left|right]. exists i. split; [done|]. by apply iwrites_owned. Qed.

(** An array the stream does not own, through a call that does not write it. *)
Lemma framed_other h s h' s' d ds :
  framed (fun _ => False) h s h' s' -> h !! d = Some ds -> ~ owned s d ->
  h' !! d = Some ds /\ ~ owned s' d.
Proof.
  intros [Hp [_ Ha]] Hd Hn. split.
  - apply (Hp d ds); [|done]. intros [Hw|[]]. by apply Hn, writes_owned.
  - apply Ha; [by eapply lookup_lt_Some|done].
Qed.

(** One iteration: the end of the stream, or [n] bytes in the caller's array. *)
Definition somes (h : heap) (s : BufferedInputStream S) (d : nat) (ds : list Z) (off req cnt : Z)
    (r : result (Z + Z * nat)) (h' : heap) (s' : BufferedInputStream S) : Prop :=
  (unread h s = [] /\ r = Ok (inl (if req =? cnt then -1 else i64 (cnt - req))) /\ valid h' s' /\
    took (fun c => c = d) [] h s h' s' /\ h' !! d = Some ds) \/
  exists n i b bs, r = Ok (inr (n, b)) /\ 0 < n <= req /\ n <= zlen (unread h s) /\ holds h' s' i b bs /\
    took (fun c => c = d) (take (Z.to_nat n) (unread h s)) h s h' s' /\
    h' !! d = Some (splice off (take (Z.to_nat n) (unread h s)) ds) /\
    (n = req \/ mCount s' = mPosition s').

Lemma some_direct h s i b bs d ds off req cnt :
  holds h s i b bs -> mCount s = mPosition s -> mMarkPosition s = -1 -> zlen bs <= req ->
  h !! d = Some ds -> ~ owned s d -> zlen ds < MAX -> 0 <= off -> 0 < req <= cnt ->
  off + req <= zlen ds ->
  exists r h' s', readSome b (Some d) off req cnt (h, s) = (r, (h', s')) /\
    somes h s d ds off req cnt r h' s'.
Proof.
  intros Hs He Hm Hbig Hd Hn Hsz Ho Hreq Hl. pose proof Hs as [Hst Hbu Hv Ha Hb Hc Hbsz Hby Hlim Hmark].
  assert (unread h s = rest h i) as Hu by by rewrite (unread_eq _ _ _ _ _ Hs), He, Z.sub_diag.
  assert (~ iowned i d) as Hni by (intros ?; apply Hn; right; eauto).
  assert (d <> b) as Hne by (intros ->; apply Hn; by left).
  unfold readSome, this. rewrite bind_gets. cbn [id snd].
  mstep (onHeap_read _ (h, s) _ (size_eq _ _ _ Hb)).
  rewrite (proj2 (Z.eqb_eq _ _) Hm), (proj2 (Z.leb_le _ _) Hbig). cbn [andb].
  destruct (read_array_ok h i d ds off req Hv Hd Hni Hsz Ho ltac:(lia) Hl) as
    (n & h' & i' & Hrun & Hv' & Hr & Hp & Hap).
  mstep (in_wrapped_eq _ _ _ _ _ _ _ Hst Hrun). do 3 eexists. split; [reflexivity|].
  assert (~ iowned i' b) as Hn' by (destruct Hap as [_ Hap]; apply Hap; [by eapply lookup_lt_Some|done]).
  assert (h' !! b = Some bs) as Hb'.
  { apply (Hp b bs); [|done]. intros [Hw|Hw]; [|congruence]. by apply Ha, iwrites_owned. }
  assert (holds h' (set_stream (Some i') s) i' b bs) as Hs' by by split.
  assert (unread h' (set_stream (Some i') s) = rest h' i') as Hu'.
  { rewrite (unread_eq _ _ _ _ _ Hs'). cbn. by rewrite He, Z.sub_diag. }
  assert (framed (fun c => c = d) h s h' (set_stream (Some i') s)) as Hf.
  { eapply framed_inner; [done..| |done].
    eapply preserves_more, Hp; intros c; cbn; tauto. }
  assert (forall xs, kept xs h s h' (set_stream (Some i') s)) as Hk by (intros xs; by split).
  destruct Hr as [(Hz & -> & Hz' & Hd')|(Hr & Hle & Hr' & Hd')].
  - left. rewrite Hu. split; [done|]. split; [done|]. split; [by exists i', b, bs|]. split; [|done].
    split; [by rewrite Hu, Hu', Hz, Hz'|done..].
  - right. exists n, i', b, bs. rewrite Hu. destruct (Z.eqb_spec n (-1)); [lia|].
    split; [done|]. split; [lia|]. split; [lia|]. split; [done|].
    split; [|split; [done|by right]]. split; [|done..]. rewrite Hu, Hu', Hr'. by rewrite take_drop.
Qed.

Lemma some_filled h s i b bs d ds off req cnt :
  holds h s i b bs -> mCount s = mPosition s -> mMarkPosition s <> -1 \/ req < zlen bs ->
  h !! d = Some ds -> ~ owned s d -> zlen ds < MAX -> 0 <= off -> 0 < req <= cnt ->
  off + req <= zlen ds ->
  exists r h' s', readSome b (Some d) off req cnt (h, s) = (r, (h', s')) /\
    somes h s d ds off req cnt r h' s'.
Proof.
  intros Hs He Hm Hd Hn Hsz Ho Hreq Hl.
  destruct (fill_ok _ _ _ _ _ Hs He) as (r & b1 & h1 & s1 & Hfill & Hfi).
  destruct (framed_other _ _ _ _ _ _ (fi_framed _ _ _ _ _ _ Hfi) Hd Hn) as [Hd1 Hn1].
  unfold readSome, this. rewrite bind_gets. cbn [id snd].
  mstep (onHeap_read _ (h, s) _ (size_eq _ _ _ (hi_array _ _ _ _ _ Hs))).
  replace ((mMarkPosition s =? -1) && (zlen bs <=? req)) with false.
  2: { symmetry. apply andb_false_iff. destruct Hm; [left; by apply Z.eqb_neq|right; by apply Z.leb_gt]. }
  mstep Hfill.
  destruct (fi_result _ _ _ _ _ _ Hfi) as [(-> & Hz & _)|[Hr Hc1]].
  - cbn. do 3 eexists. split; [reflexivity|]. left. split; [done|]. split; [done|].
    destruct (fi_holds _ _ _ _ _ _ Hfi) as (i1 & bs1 & Hs1). split; [by exists i1, b1, bs1|].
    split; [|done]. by eapply filled_end.
  - rewrite (proj2 (Z.eqb_neq r (-1))) by lia. destruct (fi_holds _ _ _ _ _ _ Hfi) as (i1 & bs1 & Hs1).
    rewrite bind_gets. cbn [snd]. rewrite (hi_buffer _ _ _ _ _ Hs1), bind_gets. cbn [id snd].
    pose proof (hi_count _ _ _ _ _ Hs1) as Hc. pose proof (hi_size _ _ _ _ _ Hs1) as Hsz1.
    rewrite u64_id by lia.
    set (n := if req <=? mCount s1 - mPosition s1 then req else mCount s1 - mPosition s1).
    assert (n = Z.min req (mCount s1 - mPosition s1)) as Hn'.
    { unfold n. destruct (Z.leb_spec req (mCount s1 - mPosition s1)); lia. }
    destruct (copy_out h1 s1 i1 b1 bs1 d ds off n Hs1 Hd1 Hn1 Hsz Ho ltac:(lia) ltac:(lia)) as
      (Hcopy & Hs2 & Hu2 & Hk2 & Hf2).
    mstep Hcopy. unfold update. rewrite bind_modify. cbn [fst snd]. rewrite u64_id by lia.
    do 3 eexists. split; [reflexivity|]. right. exists n, i1, b1, bs1.
    rewrite <- (fi_unread _ _ _ _ _ _ Hfi).
    assert (n <= zlen (unread h1 s1)) as Hle.
    { rewrite (unread_eq _ _ _ _ _ Hs1), zlen_app, zlen_slice by lia.
      pose proof (zlen_nonneg (rest h1 i1)). lia. }
    split_and!; try done; try lia.
    + eapply filled_took; [exact Hfi| |].
      * split; [|exact Hk2|exact Hf2]. by rewrite Hu2, take_drop.
      * unfold zlen in *. rewrite length_take. lia.
    + by eapply heap_lookup_eq.
    + cbn. lia.
Qed.

Lemma readSome_ok h s i b bs d ds off req cnt :
  holds h s i b bs -> mCount s = mPosition s -> h !! d = Some ds -> ~ owned s d ->
  zlen ds < MAX -> 0 <= off -> 0 < req <= cnt -> off + req <= zlen ds ->
  exists r h' s', readSome b (Some d) off req cnt (h, s) = (r, (h', s')) /\
    somes h s d ds off req cnt r h' s'.
Proof.
  intros Hs He. intros.
  destruct (decide (mMarkPosition s = -1)); [destruct (decide (zlen bs <= req))|].
  - by eapply some_direct.
  - eapply some_filled; try done. lia.
  - eapply some_filled; try done. by left.
Qed.

(** [k] bytes in the caller's array. *)
Record stored (h : heap) (s : BufferedInputStream S) (d : nat) (ds : list Z) (off k : Z) (h' : heap)
    (s' : BufferedInputStream S) : Prop := {
  st_valid : valid h' s';
  st_count : 0 <= k <= zlen (unread h s);
  st_took : took (fun c => c = d) (take (Z.to_nat k) (unread h s)) h s h' s';
  st_array : h' !! d = Some (splice off (take (Z.to_nat k) (unread h s)) ds);
}.

Lemma zlen_take k (xs : list Z) : 0 <= k <= zlen xs -> zlen (take (Z.to_nat k) xs) = k.
Proof. unfold zlen. rewrite length_take. lia. Qed.

Lemma splice_nil off bs : 0 <= off <= zlen bs -> splice off [] bs = bs.
Proof. intros _. unfold splice. cbn. rewrite Nat.add_0_r. apply take_drop. Qed.

Lemma stored_trans h s d ds off k h1 s1 k1 h2 s2 :
  stored h s d ds off k h1 s1 ->
  stored h1 s1 d (splice off (take (Z.to_nat k) (unread h s)) ds) (off + k) k1 h2 s2 ->
  0 <= off -> off + k + k1 <= zlen ds -> stored h s d ds off (k + k1) h2 s2.
Proof.
  intros [Hv1 Hc1 Ht1 Hd1] [Hv2 Hc2 Ht2 Hd2] Ho Hl.
  pose proof (to_unread _ _ _ _ _ _ Ht1) as Hu.
  assert (unread h1 s1 = drop (Z.to_nat k) (unread h s)) as Hu1.
  { apply (app_inv_head (take (Z.to_nat k) (unread h s))). by rewrite <- Hu, take_drop. }
  assert (take (Z.to_nat (k + k1)) (unread h s) =
    take (Z.to_nat k) (unread h s) ++ take (Z.to_nat k1) (unread h1 s1)) as E.
  { rewrite Hu1, Z2Nat.inj_add by lia. symmetry. apply take_take_drop. }
  assert (zlen (unread h s) = k + zlen (unread h1 s1)) as Hz.
  { rewrite Hu, zlen_app, zlen_take; lia. }
  split; [done|lia| |].
  - rewrite E. by eapply took_trans.
  - rewrite E, Hd2. f_equal. pose proof (zlen_take k _ Hc1) as Hzk. rewrite <- Hzk at 1.
    apply splice_app; [lia|]. rewrite Hzk, zlen_take by lia. lia.
Qed.

Lemma bufferedLoop_ok fuel : forall h s i b bs d ds off req cnt,
  holds h s i b bs -> mCount s = mPosition s -> h !! d = Some ds -> ~ owned s d ->
  zlen ds < MAX -> 0 <= off -> 0 < req <= cnt -> off + req <= zlen ds -> cnt < MAX ->
  req <= Z.of_nat fuel ->
  exists k h' s', readLoop fuel b (Some d) off req cnt (h, s) =
      (Ok (if (req =? cnt) && (k =? 0) then -1 else cnt - req + k), (h', s')) /\
    k <= req /\ (k = 0 -> unread h s = []) /\ stored h s d ds off k h' s'.
Proof.
  induction fuel as [|fuel IH]; intros h s i b bs d ds off req cnt Hs He Hd Hn Hsz Ho Hreq Hl Hcnt Hf;
    [lia|]. unfold MAX in Hsz, Hcnt. cbn [readLoop].
  destruct (readSome_ok h s i b bs d ds off req cnt) as (r & h1 & s1 & Hrun & Hsome); try done.
  destruct Hsome as [(Hz & -> & Hv1 & Ht & Hd1)|(n & i1 & b1 & bs1 & -> & Hn1 & Hle & Hs1 & Ht & Hd1 & Hor)].
  - mstep Hrun. exists 0, h1, s1. rewrite andb_true_r. split.
    { destruct (Z.eqb_spec req cnt); [done|]. rewrite i64_id by lia. rewrite Z.add_0_r. done. }
    split; [lia|]. split; [done|]. split; [done|by rewrite Hz|by rewrite Hz|].
    rewrite Hz. cbn. by rewrite splice_nil by lia.
  - mstep Hrun. rewrite (u64_id (req - n)) by lia.
    assert (stored h s d ds off n h1 s1) as Hst by (split; try done; [by exists i1, b1, bs1|lia]).
    pose proof (framed_array _ _ _ _ _ _ _ _ _ _ (to_framed _ _ _ _ _ _ Ht) Hs Hd Hn) as Hn1'.
    destruct (Z.eqb_spec (req - n) 0) as [E|E].
    { exists n, h1, s1. rewrite i64_id by lia. split; [|split; [lia|split; [lia|done]]].
      rewrite (proj2 (Z.eqb_neq n 0)), andb_false_r by lia.
      unfold mret, M_ret. repeat f_equal. lia. }
    destruct (available_ok h1 i1 (hi_valid _ _ _ _ _ Hs1)) as (a & Hav & _).
    mstep (in_wrapped_eq _ _ _ _ _ _ _ (hi_stream _ _ _ _ _ Hs1) Hav).
    rewrite (set_stream_id _ _ (hi_stream _ _ _ _ _ Hs1)).
    destruct (a =? 0).
    { exists n, h1, s1. rewrite i64_id by lia. split; [|split; [lia|split; [lia|done]]].
      rewrite (proj2 (Z.eqb_neq n 0)), andb_false_r by lia.
      unfold mret, M_ret. repeat f_equal. lia. }
    rewrite u64_id by lia.
    assert (zlen (splice off (take (Z.to_nat n) (unread h s)) ds) = zlen ds) as Hzs.
    { apply zlen_splice; [lia|]. rewrite zlen_take; lia. }
    destruct (IH h1 s1 i1 b1 bs1 d _ (off + n) (req - n) cnt Hs1 ltac:(lia) Hd1 Hn1') as
      (k & h2 & s2 & Hrun2 & Hk & Hk0 & Hst2); [unfold MAX; lia..|].
    rewrite Hrun2. pose proof (st_count _ _ _ _ _ _ _ _ Hst2).
    exists (n + k), h2, s2. split; [|split; [lia|split; [lia|]]].
    + rewrite (proj2 (Z.eqb_neq (req - n) cnt)) by lia.
      rewrite (proj2 (Z.eqb_neq (n + k) 0)), andb_false_r by lia. cbn [andb].
      by replace (cnt - (req - n) + k) with (cnt - req + (n + k)) by lia.
    + eapply stored_trans; [done|done|lia|lia].
Qed.

Lemma buffered_read_ok h s b bs off n :
  valid h s -> h !! b = Some bs -> ~ owned s b -> zlen bs < MAX -> 0 <= off -> 0 < n ->
  off + n <= zlen bs ->
  exists k h' s', read_array (Some b) off n (h, s) = (Ok (if k =? 0 then -1 else k), (h', s')) /\
    k <= n /\ (k = 0 -> unread h s = []) /\ stored h s b bs off k h' s'.
Proof.
  intros (i & lb & ls & Hs) Hb Hn Hsz Ho Hpos Hl. pose proof Hsz as HszM. unfold MAX in Hsz.
  pose proof Hs as [Hst Hbu Hv Ha Hlb Hc Hlsz Hby Hlim Hmark].
  unfold read_array, this. rewrite bind_gets. cbn [id snd]. rewrite Hbu. cbn [deref]. rewrite bind_ret.
  mstep (onHeap_read _ (h, s) _ (size_eq _ _ _ Hb)).
  rewrite throw_if_false.
  2: { rewrite (proj2 (Z.ltb_ge _ _)), u64_id by lia. apply Z.ltb_ge. lia. }
  rewrite (proj2 (Z.eqb_neq n 0)), Hst by lia.
  destruct (Z.ltb_spec (mPosition s) (mCount s)) as [Hlt|Hge].
  - rewrite u64_id by lia.
    set (sz := if n <=? mCount s - mPosition s then n else mCount s - mPosition s).
    assert (sz = Z.min n (mCount s - mPosition s)) as Hsz'.
    { unfold sz. destruct (Z.leb_spec n (mCount s - mPosition s)); lia. }
    destruct (copy_out h s i lb ls b bs off sz Hs Hb Hn HszM Ho ltac:(lia) ltac:(lia)) as
      (Hcopy & Hs1 & Hu1 & Hk1 & Hf1).
    mstep Hcopy. unfold update. rewrite bind_modify. cbn [fst snd]. rewrite (u64_id (mPosition s + sz)) by lia.
    set (h1 := <[b := _]> h) in *. set (s1 := set_position _ s) in *.
    assert (sz <= zlen (unread h s)) as Hle.
    { rewrite (unread_eq _ _ _ _ _ Hs), zlen_app, zlen_slice by lia.
      pose proof (zlen_nonneg (rest h i)). lia. }
    assert (stored h s b bs off sz h1 s1) as Hst1.
    { split; [by exists i, lb, ls|lia| |by eapply heap_lookup_eq].
      split; [by rewrite Hu1, take_drop|done..]. }
    destruct (Z.eqb_spec sz n) as [E|E].
    { exists sz, h1, s1. rewrite i64_id, (proj2 (Z.eqb_neq sz 0)) by lia.
      split; [done|]. split; [lia|]. split; [lia|done]. }
    destruct (available_ok h1 i (hi_valid _ _ _ _ _ Hs1)) as (a & Hav & _).
    assert (mInputStream s1 = Some i) as Hsti by done.
    mstep (in_wrapped_eq _ _ _ _ _ _ _ Hsti Hav). rewrite (set_stream_id _ _ Hsti).
    destruct (a =? 0).
    { exists sz, h1, s1. rewrite i64_id, (proj2 (Z.eqb_neq sz 0)) by lia.
      split; [done|]. split; [lia|]. split; [lia|done]. }
    rewrite !u64_id by lia. pose proof (st_array _ _ _ _ _ _ _ _ Hst1) as Hb1.
    assert (zlen (splice off (take (Z.to_nat sz) (unread h s)) bs) = zlen bs) as Hzs.
    { apply zlen_splice; [lia|]. rewrite zlen_take; lia. }
    destruct (bufferedLoop_ok (Z.to_nat n) h1 s1 i lb ls b
        (splice off (take (Z.to_nat sz) (unread h s)) bs) (off + sz) (n - sz) n Hs1) as
      (k & h2 & s2 & Hrun & Hk & _ & Hst2); try done; try (unfold MAX; cbn; lia).
    pose proof (st_count _ _ _ _ _ _ _ _ Hst2) as Hkc. rewrite Hrun.
    exists (sz + k), h2, s2. split; [|split; [lia|split; [lia|]]].
    + rewrite (proj2 (Z.eqb_neq (n - sz) n)), (proj2 (Z.eqb_neq (sz + k) 0)) by lia.
      cbn [andb]. repeat f_equal. lia.
    + eapply stored_trans; [done|done|lia|lia].
  - destruct (bufferedLoop_ok (Z.to_nat n) h s i lb ls b bs off n n Hs) as
      (k & h2 & s2 & Hrun & Hk & Hk0 & Hst2); try done; try (unfold MAX; lia).
    rewrite Hrun, Z.eqb_refl. cbn [andb]. exists k, h2, s2. split; [|done].
    destruct (Z.eqb_spec k 0); [done|]. repeat f_equal. lia.
Qed.

(** The byte at the position, once the buffer holds one. *)
Lemma next_byte h s i b bs :
  holds h s i b bs -> mPosition s < mCount s ->
  exists v vs, unread h s = v :: vs /\
    (update (set_position (u64 (mPosition s + 1)));; onHeap (ByteArray.get b (mPosition s))) (h, s) =
      (Ok v, (h, set_position (mPosition s + 1) s)) /\
    holds h (set_position (mPosition s + 1) s) i b bs /\
    took (fun _ => False) [v] h s h (set_position (mPosition s + 1) s).
Proof.
  intros Hs Hlt. pose proof (hi_count _ _ _ _ _ Hs) as Hc. pose proof (hi_size _ _ _ _ _ Hs) as Hsz.
  destruct (moved_ok h s i b bs h 1 Hs ltac:(lia)) as (Hs2 & Hu2 & Hk2); [done|].
  pose proof (take_unread _ _ _ _ _ 1 Hs ltac:(lia)) as Ht.
  destruct (lookup_lt_is_Some_2 bs (Z.to_nat (mPosition s))) as [v Hv]; [unfold zlen in *; lia|].
  assert (slice (mPosition s) 1 bs = [v]) as Hsl.
  { unfold slice. change (Z.to_nat 1) with 1%nat. by rewrite (drop_S _ v _ Hv). }
  rewrite Hsl in Ht. change (Z.to_nat 1) with 1%nat in *.
  destruct (unread h s) as [|v' vs] eqn:Hu; [done|]. injection Ht as ->.
  exists v', vs. split; [done|]. split; [|split; [done|]].
  - unfold update. rewrite bind_modify. cbn [fst snd]. rewrite u64_id by lia.
    apply onHeap_read. apply (get_eq h b bs); [apply (hi_array _ _ _ _ _ Hs)|lia|done].
  - split; [by rewrite Hu, Hu2|done|]. split; [by intros c cs Hw Hl|by split].
Qed.

Lemma buffered_read_byte_ok h s :
  valid h s ->
  exists r h' s', read_byte (h, s) = (Ok r, (h', s')) /\ valid h' s' /\
    match unread h s with
    | [] => r = -1 /\ took (fun _ => False) [] h s h' s'
    | v :: vs => r = v /\ took (fun _ => False) [v] h s h' s'
    end.
Proof.
  intros (i & b & bs & Hs). pose proof Hs as [Hst Hbu Hv Ha Hb Hc Hsz Hby Hlim Hmark].
  unfold read_byte, this. rewrite bind_gets. cbn [id snd]. rewrite Hbu, Hst.
  destruct (Z.leb_spec (mCount s) (mPosition s)) as [Hge|Hlt].
  - destruct (fill_ok _ _ _ _ _ Hs ltac:(lia)) as (r & b1 & h1 & s1 & Hfill & Hfi).
    assert ((fillBuffer b ≫= (fun '(r, _) => mret r)) (h, s) = (Ok r, (h1, s1))) as Hf' by by mstep Hfill.
    mstep Hf'. destruct (fi_holds _ _ _ _ _ _ Hfi) as (i1 & bs1 & Hs1).
    destruct (fi_result _ _ _ _ _ _ Hfi) as [(-> & Hz & _)|[Hr Hc1]].
    + change (-1 =? -1) with true. cbn iota. exists (-1), h1, s1. split; [done|].
      split; [by exists i1, b1, bs1|]. rewrite Hz. split; [done|]. by eapply filled_end.
    + rewrite (proj2 (Z.eqb_neq r (-1))) by lia. rewrite bind_gets. cbn [snd].
      rewrite (hi_buffer _ _ _ _ _ Hs1), bind_gets. cbn [id snd].
      pose proof (hi_count _ _ _ _ _ Hs1). pose proof (hi_size _ _ _ _ _ Hs1).
      rewrite (proj2 (Z.ltb_lt 0 _)) by (rewrite u64_id; lia).
      destruct (next_byte h1 s1 i1 b1 bs1 Hs1 ltac:(lia)) as (v & vs & Hu & Hrun & Hs2 & Ht).
      rewrite Hrun. do 3 eexists. split; [reflexivity|]. split; [by do 3 eexists|].
      rewrite <- (fi_unread _ _ _ _ _ _ Hfi), Hu. split; [done|]. by eapply filled_took.
  - erewrite bind_Ok; [|reflexivity]. cbn beta. change (0 =? -1) with false. cbn iota.
    rewrite bind_gets. cbn [snd]. rewrite Hbu, bind_gets. cbn [id snd].
    rewrite (proj2 (Z.ltb_lt 0 _)) by (rewrite u64_id; lia).
    destruct (next_byte h s i b bs Hs Hlt) as (v & vs & Hu & Hrun & Hs2 & Ht).
    rewrite Hrun. do 3 eexists. split; [reflexivity|]. split; [by do 3 eexists|].
    by rewrite Hu.
Qed.

#[export] Program Instance spec : InputStreamSpec (BufferedInputStream S) :=
  {| ivalid := valid; rest := unread; iowned := owned; iwrites := writes |}.
Next Obligation. intros. by apply writes_owned. Qed.
Next Obligation.
  intros h s (i & b & bs & Hs). rewrite (unread_eq _ _ _ _ _ Hs). apply Forall_app. split.
  - apply slice_bytes, (hi_bytes _ _ _ _ _ Hs).
  - apply rest_bytes, (hi_valid _ _ _ _ _ Hs).
Qed.
Next Obligation.
  intros h s b bs off n Hv Hb Hno Hsz Ho Hn Hl.
  destruct (buffered_read_ok h s b bs off n Hv Hb Hno Hsz Ho Hn Hl) as
    (k & h' & s' & Hrun & Hk & Hk0 & [Hv' Hc [Hu _ [Hp Ha]] Hb']).
  exists (if k =? 0 then -1 else k), h', s'. split; [done|]. split; [done|]. split; [|done].
  destruct (Z.eqb_spec k 0) as [->|E].
  - left. pose proof (Hk0 eq_refl) as Hz. rewrite Hz in Hu, Hb'. cbn in Hu, Hb'.
    rewrite splice_nil in Hb' by lia. by split_and!.
  - right. split; [lia|]. split; [lia|]. split; [|done].
    apply (app_inv_head (take (Z.to_nat k) (unread h s))). by rewrite <- Hu, take_drop.
Qed.
Next Obligation.
  intros h s Hv. destruct (buffered_read_byte_ok h s Hv) as (r & h' & s' & Hrun & Hv' & Hr).
  exists r, h', s'. split; [done|]. split; [done|].
  assert (forall xs, took (fun _ => False) xs h s h' s' ->
    preserves (writes s) (writes s') h h' /\ apart (owned s) (owned s') h h') as Hf.
  { intros xs [_ _ [Hp Ha]]. split; [|done]. intros c cs Hc Hl.
    destruct (Hp c cs) as [? ?]; [tauto|done|]. tauto. }
  destruct (unread h s) as [|v vs] eqn:Hu; destruct Hr as [-> Ht]; (split; [|by eapply Hf]);
    pose proof (to_unread _ _ _ _ _ _ Ht) as Hu'; rewrite Hu in Hu'; cbn in Hu'.
  - done.
  - by injection Hu' as ->.
Qed.
Next Obligation.
  intros h s (i & b & bs & Hs). pose proof (hi_count _ _ _ _ _ Hs) as Hc.
  pose proof (hi_size _ _ _ _ _ Hs) as Hsz. cbn.
  destruct (available_ok h i (hi_valid _ _ _ _ _ Hs)) as (n & Hrun & Hn).
  exists (u64 (mCount s - mPosition s + n)). unfold available, this. rewrite bind_gets. cbn [id snd].
  rewrite (hi_buffer _ _ _ _ _ Hs), (hi_stream _ _ _ _ _ Hs).
  mstep (in_wrapped_eq _ _ _ _ _ _ _ (hi_stream _ _ _ _ _ Hs) Hrun).
  rewrite (set_stream_id _ _ (hi_stream _ _ _ _ _ Hs)). split; [done|].
  rewrite (unread_eq _ _ _ _ _ Hs), zlen_app, zlen_slice by lia.
  split; [apply u64_range|]. etrans; [apply Z.mod_le; lia|]. lia.
Qed.
Next Obligation.
  intros h h' s (i & b & bs & Hs) Hf. pose proof Hs as [Hst Hbu Hv Ha Hb Hc Hsz Hby Hlim Hmark].
  destruct (ivalid_frame h h' i Hv) as [Hv' Hr'].
  { intros c cs Hc'. apply Hf. right. by exists i. }
  assert (holds h' s i b bs) as Hs' by (split; try done; apply Hf; [by left|done]).
  split; [by exists i, b, bs|]. cbn.
  by rewrite (unread_eq _ _ _ _ _ Hs), (unread_eq _ _ _ _ _ Hs'), Hr'.
Qed.
Next Obligation.
  intros h s b (i & lb & bs & Hs) Ho. rewrite (in_owned_eq _ _ _ _ _ _ Hs) in Ho.
  destruct Ho as [->|Ho]; [|by eapply iowned_alloc, Ho; apply (hi_valid _ _ _ _ _ Hs)].
  by eapply lookup_lt_Some, (hi_array _ _ _ _ _ Hs).
Qed.

(** ** Mark and reset *)

(** Reads of [ns] bytes each, at the front of the array [d]. *)
Fixpoint readTimes (d : nat) (ns : list Z) : M (heap * BufferedInputStream S) unit :=
  match ns with
  | [] => mret tt
  | n :: ns => read_array (Some d) 0 n;; readTimes d ns
  end.

Fixpoint total (ns : list Z) : Z := match ns with [] => 0 | n :: ns => n + total ns end.

Lemma readTimes_ok d ns : forall h s ds,
  valid h s -> h !! d = Some ds -> ~ owned s d -> zlen ds < MAX ->
  Forall (fun n => 0 < n) ns -> Forall (fun n => n <= zlen ds) ns ->
  exists xs h' s', readTimes d ns (h, s) = (Ok tt, (h', s')) /\ valid h' s' /\
    zlen xs <= total ns /\ took (fun c => c = d) xs h s h' s'.
Proof.
  induction ns as [|n ns IH]; intros h s ds Hv Hd Hn Hsz Hpos Hle; cbn [readTimes].
  { exists [], h, s. split; [done|]. split; [done|]. split; [done|]. split; [done|apply kept_refl|].
    apply framed_refl. }
  apply Forall_cons in Hpos as [Hp Hpos], Hle as [Hl Hle].
  destruct (buffered_read_ok h s d ds 0 n Hv Hd Hn Hsz) as (k & h1 & s1 & Hrun & Hk & _ & Hst); [lia..|].
  mstep Hrun. pose proof Hst as [Hv1 Hc Ht Hd1]. pose proof Hv as (i & b & bs & Hs).
  pose proof (framed_array _ _ _ _ _ _ _ _ _ _ (to_framed _ _ _ _ _ _ Ht) Hs Hd Hn) as Hn1.
  assert (zlen (splice 0 (take (Z.to_nat k) (unread h s)) ds) = zlen ds) as Hz.
  { apply zlen_splice; [lia|]. rewrite zlen_take; lia. }
  destruct (IH h1 s1 _ Hv1 Hd1 Hn1) as (xs & h2 & s2 & Hrun2 & Hv2 & Hx & Ht2);
    [by rewrite Hz|done|by rewrite Hz|].
  exists (take (Z.to_nat k) (unread h s) ++ xs), h2, s2. split; [done|]. split; [done|].
  rewrite zlen_app, zlen_take by lia. split; [cbn; lia|]. by eapply took_trans.
Qed.

(** The position can be marked: at the front of the buffer, or in its second half. *)
Definition markable (h : heap) (s : BufferedInputStream S) : Prop :=
  mPosition s = 0 \/ forall b bs, mBuffer s = Some b -> h !! b = Some bs -> zlen bs <= 2 * mPosition s.

Lemma mark_ok h s limit :
  valid h s -> 0 <= limit < 2 ^ 31 -> markable h s ->
  exists s', mark limit (h, s) = (Ok tt, (h, s')) /\ valid h s' /\ unread h s' = unread h s /\
    replay h s' = [] /\ mMarkPosition s' <> -1 /\ mMarkLimit s' = limit /\
    (forall c, owned s' c <-> owned s c).
Proof.
  intros (i & b & bs & Hs) Hl Hm. pose proof Hs as [Hst Hbu Hv Ha Hb Hc Hsz Hby Hlim Hmark].
  unfold mark, update. rewrite bind_modify. cbn [modify fst snd]. unfold modify. cbn [fst snd].
  rewrite i64_id by (cbn; lia). set (s' := set_mark _ _). exists s'. split; [done|].
  assert (holds h s' i b bs) as Hs'.
  { split; try done. cbn. right. split; [lia|]. destruct Hm as [?|Hm]; [by left|right]. by eapply Hm. }
  split; [by exists i, b, bs|]. split; [by rewrite (unread_eq _ _ _ _ _ Hs), (unread_eq _ _ _ _ _ Hs')|].
  split; [|split; [cbn; lia|split; [done|done]]].
  rewrite (replay_eq _ _ _ _ _ Hs'). cbn. by rewrite Z.sub_diag.
Qed.

(** a marked position is kept: after [mark] and any reads of at most the announced
    number of bytes altogether, through refills that grow or shift the buffer and at the end of
    the stream, [reset] succeeds and the same bytes are read again. *)
Theorem mark_reset h s limit d ds ns :
  valid h s -> 0 <= limit < 2 ^ 31 -> markable h s ->
  h !! d = Some ds -> ~ owned s d -> zlen ds < MAX ->
  Forall (fun n => 0 < n) ns -> Forall (fun n => n <= zlen ds) ns -> total ns <= limit ->
  exists h' s', (mark limit;; readTimes d ns;; reset) (h, s) = (Ok tt, (h', s')) /\ valid h' s' /\
    unread h' s' = unread h s.
Proof.
  intros Hv Hl Hm Hd Hn Hsz Hpos Hle Ht.
  destruct (mark_ok h s limit Hv Hl Hm) as (s1 & Hmark & Hv1 & Hu1 & Hr1 & Hm1 & Hl1 & Ho1).
  mstep Hmark.
  destruct (readTimes_ok d ns h s1 ds Hv1 Hd) as (xs & h2 & s2 & Hrun & (i & b & bs & Hs2) & Hx & Htk);
    [by rewrite Ho1|done..|].
  mstep Hrun. destruct (to_kept _ _ _ _ _ _ Htk) as [_ Hk].
  destruct Hk as [Hm2 Hr2]; [done|rewrite Hr1, Hl1; change (zlen []) with 0; lia|]. rewrite Hr1 in Hr2. cbn in Hr2.
  unfold reset, this. rewrite bind_gets. cbn [id snd]. rewrite (hi_buffer _ _ _ _ _ Hs2).
  rewrite throw_if_false by by apply Z.eqb_neq. unfold update, modify. cbn [fst snd].
  pose proof Hs2 as [Hst Hbu Hv2 Ha Hb Hc Hbsz Hby Hlim Hmk].
  destruct Hmk as [?|[Hmr Hmk]]; [done|]. rewrite u64_id by lia.
  set (s3 := set_position _ s2). exists h2, s3. split; [done|].
  assert (holds h2 s3 i b bs) as Hs3.
  { split; try done; cbn; try lia. }
  split; [by exists i, b, bs|].
  rewrite <- Hu1, (to_unread _ _ _ _ _ _ Htk), <- Hr2.
  rewrite (replay_eq _ _ _ _ _ Hs2), (unread_eq _ _ _ _ _ Hs2), (unread_eq _ _ _ _ _ Hs3), app_assoc.
  f_equal. cbn. replace (mCount s2 - mMarkPosition s2) with
    (mPosition s2 - mMarkPosition s2 + (mCount s2 - mPosition s2)) by lia.
  rewrite slice_app by lia. do 2 f_equal. lia.
Qed.

(** a position marked in the first half of the buffer, but not at its front, is a
    trap: once the buffer is used up within the limit, the refill moves the bytes behind the mark
    to the front with [memcpy] between overlapping ranges, which is undefined behaviour. *)
Theorem mark_overlap h s b bs :
  mBuffer s = Some b -> h !! b = Some bs -> mCount s <= zlen bs < 2 ^ 31 ->
  0 < mMarkPosition s <= mPosition s -> mCount s <= mPosition s -> 2 * mMarkPosition s < zlen bs ->
  mPosition s - mMarkPosition s < mMarkLimit s -> mPosition s < 2 ^ 31 ->
  mInputStream s <> None -> outcome read_byte (h, s) = Undef.
Proof.
  intros Hbu Hb Hc Hm He H2 Hl Hp Hi. unfold outcome, read_byte, this. rewrite bind_gets. cbn [id snd].
  rewrite Hbu. destruct (mInputStream s) as [i|]; [|done]. rewrite (proj2 (Z.leb_le _ _) He).
  assert (makeRoom b (h, s) = (Undef, (h, s))) as Hroom.
  { unfold makeRoom, this. rewrite bind_gets. cbn [id snd].
    mstep (onHeap_read _ (h, s) _ (size_eq _ _ _ Hb)).
    rewrite (proj2 (Z.eqb_neq _ 0)), (proj2 (Z.ltb_lt 0 (mMarkPosition s))) by lia. cbn [andb].
    rewrite u64_id by lia.
    apply bind_Undef, onHeap_eq. cbn [fst]. apply (arraycopy_overlaps _ _ bs); (done || lia). }
  assert (fillBuffer b (h, s) = (Undef, (h, s))) as Hfill.
  { unfold fillBuffer, this. rewrite bind_gets. cbn [id snd].
    rewrite (proj2 (Z.eqb_neq _ _)), u64_id, (proj2 (Z.leb_gt _ _)) by lia. cbn [orb].
    by apply bind_Undef. }
  erewrite bind_Undef; [reflexivity|]. by apply bind_Undef.
Qed.
End spec.
End BufferedInputStream.

(** ** Buffered over a byte array *)

Module BufferedInputExample.
Import Bytes ByteArray Streams ByteArrayInputStream.

(** A buffer of two bytes over an array of five, and an array of three to read to. *)
Definition hb : heap := [[1; 2; 3; 4; 5]; [0; 0]; [0; 0; 0]].
Definition sb : BufferedInputStream.BufferedInputStream ByteArrayInputStream :=
  BufferedInputStream.mkBuffered (Some (mkIn 0 0 0 5)) (Some 1%nat) 0 0 (-1) 0.

Lemma sb_valid : BufferedInputStream.valid hb sb.
Proof.
  exists (mkIn 0 0 0 5), 1%nat, [0; 0]. split; try done; [| |by left].
  - exists [1; 2; 3; 4; 5]. cbn. unfold is_byte. split_and!; try done. by repeat (constructor; [done|]).
  - by repeat (constructor; [done|]).
Qed.

Lemma mark_reset_witness :
  exists h' s', (BufferedInputStream.mark 3;; BufferedInputStream.readTimes 2 [1; 2];;
      BufferedInputStream.reset) (hb, sb) = (Ok tt, (h', s')) /\
    BufferedInputStream.valid h' s' /\ BufferedInputStream.unread h' s' = [1; 2; 3; 4; 5].
Proof.
  apply (BufferedInputStream.mark_reset hb sb 3 2 [0; 0; 0] [1; 2] sb_valid); try done.
  - by left.
  - by intros [[=]|(i & [= <-] & [=])].
  - by repeat constructor.
  - by repeat constructor.
Defined.

Lemma mark_overlap_witness :
  outcome BufferedInputStream.read_byte ([[1; 2; 3; 4; 5; 6]; [1; 2; 3; 4]],
    BufferedInputStream.mkBuffered (Some (mkIn 0 4 0 6)) (Some 1%nat) 4 10 1 4) = Undef.
Proof. by apply (BufferedInputStream.mark_overlap _ _ 1 [1; 2; 3; 4]). Defined.
End BufferedInputExample.
