(* ===== verification/DataStreams.v ===== *)
(** * io/DataOutputStream.cpp, io/DataInputStream.cpp: typed values over byte streams

    Both are proved against the stream interfaces of [Streams], for any stream that keeps its
    promises.  Values are big-endian; a string is the list of its bytes; a [float] or [double] is
    its bit pattern. *)

From S2P Require Import Prelude ByteArrays Streams.
From Stdlib Require Import Btauto.
Open Scope Z_scope.

Module DataOutputStream.
Import Bytes ByteArray Streams.

Section DataOutputStream.
Context {S : Type} `{OutputStream S}.

(* io/DataOutputStream.h:132-139 DataOutputStream *)
Record DataOutputStream := mkData {
  mOutputStream : S;
  mScratchpad : nat;
}.

Definition stream {A} (m : M (heap * S) A) : M (heap * DataOutputStream) A :=
  inner mOutputStream (fun o d => mkData o (mScratchpad d)) m.

(* io/DataOutputStream.cpp:24-27 DataOutputStream::DataOutputStream *)
Definition new (outputStream : S) : M heap DataOutputStream :=
  b ← ByteArray.new 8; mret (mkData outputStream b).

(* io/DataOutputStream.cpp:34-36 DataOutputStream::flush *)
Definition flush : M (heap * DataOutputStream) unit := stream Streams.flush.

(* io/DataOutputStream.cpp:42-44 DataOutputStream::write *)
Definition write_array (buffer : option nat) (offset count : Z) : M (heap * DataOutputStream) unit :=
  stream (Streams.write_array buffer offset count).

(* io/DataOutputStream.cpp:46-48 DataOutputStream::write *)
Definition write_byte (b : Z) : M (heap * DataOutputStream) unit := stream (Streams.write_byte b).

(* io/DataOutputStream.cpp:50-52 DataOutputStream::writeBoolean *)
Definition writeBoolean (value : bool) : M (heap * DataOutputStream) unit :=
  stream (Streams.write_byte (if value then 1 else 0)).

(* io/DataOutputStream.cpp:54-56 DataOutputStream::writeByte *)
Definition writeByte (value : Z) : M (heap * DataOutputStream) unit :=
  stream (Streams.write_byte value).

(** [mOutputStream->write(string->getBytes())], a new array. *)
Definition writeString (string : list Z) : M (heap * DataOutputStream) unit :=
  b ← onHeap (alloc string);
  stream (write_all (Some b)).

(* io/DataOutputStream.cpp:58-66 DataOutputStream::writeBytes *)
Definition writeBytes (string : option (list Z)) : M (heap * DataOutputStream) unit :=
  match string with
  | None => throw NullPointerException
  | Some bs => if zlen bs =? 0 then mret tt else writeString bs
  end.

(* io/DataOutputStream.cpp:68-70 DataOutputStream::writeChar *)
Definition writeChar (value : Z) : M (heap * DataOutputStream) unit := writeByte (u8 value).

(* io/DataOutputStream.cpp:72-80 DataOutputStream::writeChars *)
Definition writeChars (string : option (list Z)) : M (heap * DataOutputStream) unit :=
  match string with
  | None => throw NullPointerException
  | Some bs => if zlen bs =? 0 then mret tt else writeString bs
  end.

(** The bytes [xs] stored in the scratchpad, then written. *)
Definition writeScratch (xs : list Z) : M (heap * DataOutputStream) unit :=
  s ← this mScratchpad;
  onHeap (writeRaw s 0 xs);;
  stream (Streams.write_array (Some s) 0 (zlen xs)).

(* io/DataOutputStream.cpp:90-95 DataOutputStream::writeShort *)
Definition writeShort (value : Z) : M (heap * DataOutputStream) unit :=
  writeScratch [u8 (Z.land (Z.shiftr value 8) 255); u8 (Z.land (Z.shiftr value 0) 255)].

(* io/DataOutputStream.cpp:97-104 DataOutputStream::writeInt *)
Definition writeInt (value : Z) : M (heap * DataOutputStream) unit :=
  writeScratch [u8 (Z.land (Z.shiftr value 24) 255); u8 (Z.land (Z.shiftr value 16) 255);
    u8 (Z.land (Z.shiftr value 8) 255); u8 (Z.land (Z.shiftr value 0) 255)].

(* io/DataOutputStream.cpp:106-117 DataOutputStream::writeLong *)
Definition writeLong (value : Z) : M (heap * DataOutputStream) unit :=
  writeScratch [u8 (Z.land (Z.shiftr value 56) 255); u8 (Z.land (Z.shiftr value 48) 255);
    u8 (Z.land (Z.shiftr value 40) 255); u8 (Z.land (Z.shiftr value 32) 255);
    u8 (Z.land (Z.shiftr value 24) 255); u8 (Z.land (Z.shiftr value 16) 255);
    u8 (Z.land (Z.shiftr value 8) 255); u8 (Z.land (Z.shiftr value 0) 255)].

(** [value != value]: the bit pattern is a NaN's. *)
Definition isNaN64 (bits : Z) : bool := Z.land bits (2 ^ 63 - 1) >? Z.shiftl 2047 52.
Definition isNaN32 (bits : Z) : bool := Z.land bits (2 ^ 31 - 1) >? Z.shiftl 255 23.

(* lang/Double.h:90-96 Double::doubleToLongBits *)
Definition doubleToLongBits (value : Z) : Z := if isNaN64 value then 0x7ff8000000000000 else value.

(* lang/Float.h:88-94 Float::floatToIntBits *)
Definition floatToIntBits (value : Z) : Z := if isNaN32 value then 0x7fc00000 else value.

(* io/DataOutputStream.cpp:82-84 DataOutputStream::writeDouble *)
Definition writeDouble (value : Z) : M (heap * DataOutputStream) unit :=
  writeLong (i64 (doubleToLongBits value)).

(* io/DataOutputStream.cpp:86-88 DataOutputStream::writeFloat *)
Definition writeFloat (value : Z) : M (heap * DataOutputStream) unit :=
  writeInt (i32 (floatToIntBits value)).

(* io/DataOutputStream.cpp:119-128 DataOutputStream::writeUTF *)
Definition writeUTF (string : option (list Z)) : M (heap * DataOutputStream) unit :=
  match string with
  | None => throw NullPointerException
  | Some bs =>
      if zlen bs =? 0 then mret tt
      else writeShort (i16 (zlen bs));; writeString bs
  end.
End DataOutputStream.
Arguments DataOutputStream : clear implicits.

(** *** What is appended *)

Section spec.
Context {S : Type} `{OutputStreamSpec S}.

Record dvalid (h : heap) (d : DataOutputStream S) : Prop := {
  dv_stream : ovalid h (mOutputStream d);
  dv_apart : ~ oowned (mOutputStream d) (mScratchpad d);
  dv_pad : exists pad, h !! mScratchpad d = Some pad /\ zlen pad = 8 /\ Forall is_byte pad;
}.

Definition dsink (h : heap) (d : DataOutputStream S) : list Z := sink h (mOutputStream d).
Definition downed (d : DataOutputStream S) (b : nat) : Prop :=
  b = mScratchpad d \/ oowned (mOutputStream d) b.

Definition appends (m : M (heap * DataOutputStream S) unit) (xs : list Z) h d : Prop :=
  exists h' d', m (h, d) = (Ok tt, (h', d')) /\ dvalid h' d' /\ dsink h' d' = dsink h d ++ xs /\
    preserves (downed d) (downed d') h h'.

(** After the stream took bytes, the scratchpad is as it was. *)
Lemma dvalid_after h d h' o' :
  dvalid h d -> ovalid h' o' -> preserves (oowned (mOutputStream d)) (oowned o') h h' ->
  dvalid h' (mkData o' (mScratchpad d)) /\
  preserves (downed d) (downed (mkData o' (mScratchpad d))) h h'.
Proof.
  intros [Hv Ha (pad & Hp & Hz & Hb)] Hv' Hpr. destruct (Hpr _ _ Ha Hp) as [Hp' Ha'].
  split; [split; try done; by exists pad|]. intros b bs Hno Hl. unfold downed in *. cbn.
  destruct (Hpr b bs) as [? ?]; [tauto|done|]. tauto.
Qed.

Lemma out_stream_eq {A} (m : M (heap * S) A) h d r h' o' :
  m (h, mOutputStream d) = (r, (h', o')) -> stream m (h, d) = (r, (h', mkData o' (mScratchpad d))).
Proof. intros Hm. unfold stream. by erewrite inner_eq by exact Hm. Qed.

Lemma byte_appends h d v :
  dvalid h d -> zlen (dsink h d) + 1 < MAX -> appends (stream (Streams.write_byte v)) [u8 v] h d.
Proof.
  intros Hd Hm. destruct (write_byte_ok h (mOutputStream d) v (dv_stream _ _ Hd) Hm)
    as (h' & o' & Hrun & Hv & Hs & Hp).
  destruct (dvalid_after _ _ _ _ Hd Hv Hp). do 2 eexists. by rewrite (out_stream_eq _ _ _ _ _ _ Hrun).
Qed.

Lemma array_appends h d b bs n :
  dvalid h d -> h !! b = Some bs -> ~ oowned (mOutputStream d) b -> Forall is_byte bs ->
  zlen bs < MAX -> 0 <= n <= zlen bs -> zlen (dsink h d) + n < MAX ->
  appends (stream (Streams.write_array (Some b) 0 n)) (slice 0 n bs) h d.
Proof.
  intros Hd Hb Hno Hby Hsz Hn Hm.
  destruct (write_array_ok h (mOutputStream d) b bs 0 n (dv_stream _ _ Hd) Hb Hno Hby Hsz)
    as (h' & o' & Hrun & Hv & Hs & Hp); [lia..|done|].
  destruct (dvalid_after _ _ _ _ Hd Hv Hp). do 2 eexists. by rewrite (out_stream_eq _ _ _ _ _ _ Hrun).
Qed.

Lemma scratch_appends h d xs :
  dvalid h d -> Forall is_byte xs -> zlen xs <= 8 -> zlen (dsink h d) + zlen xs < MAX ->
  appends (writeScratch xs) xs h d.
Proof.
  intros Hd Hx Hl Hm. pose proof Hd as [Hv Ha (pad & Hp & Hz & Hb)]. pose proof (zlen_nonneg xs).
  set (pad' := splice 0 xs pad). set (h1 := <[mScratchpad d := pad']> h).
  assert (zlen pad' = 8) as Hz' by (unfold pad'; rewrite zlen_splice; lia).
  assert (Forall is_byte pad') as Hb' by by apply splice_Forall.
  assert (h1 !! mScratchpad d = Some pad') as Hp1 by by eapply heap_lookup_eq.
  destruct (ovalid_frame h h1 (mOutputStream d) Hv) as [Hv1 Hs1].
  { intros b bs Hob Hbs. unfold h1. rewrite heap_lookup_ne; [done|]. by intros <-. }
  assert (dvalid h1 d) as Hd1 by (split; try done; by exists pad').
  assert (dsink h1 d = dsink h d) as Hs1' by exact Hs1.
  destruct (array_appends h1 d (mScratchpad d) pad' (zlen xs) Hd1 Hp1 Ha Hb') as
    (h2 & d2 & Hrun & Hd2 & Hs2 & Hpr2); [unfold MAX; lia|lia|by rewrite Hs1'|].
  exists h2, d2. split.
  - unfold writeScratch, this. rewrite bind_gets. cbn [snd].
    erewrite (bind_Ok (onHeap _)); [|apply onHeap_eq, (writeRaw_eq h _ pad); [done|lia|lia]].
    exact Hrun.
  - split; [done|]. split.
    + rewrite Hs2, Hs1'. f_equal. apply slice_splice; lia.
    + intros b bs Hno Hbs. apply Hpr2; [done|]. unfold h1. rewrite heap_lookup_ne; [done|].
      intros E. apply Hno. by left.
Qed.

Lemma string_appends h d bs :
  dvalid h d -> Forall is_byte bs -> zlen (dsink h d) + zlen bs < MAX ->
  appends (writeString bs) bs h d.
Proof.
  intros Hd Hx Hm. pose proof Hd as [Hv Ha (pad & Hp & Hz & Hb)].
  pose proof (zlen_nonneg bs). pose proof (zlen_nonneg (dsink h d)).
  set (h1 := (h ++ [bs] : heap)).
  assert (h1 !! length h = Some bs) as Hl by by apply list_lookup_middle.
  assert (forall b xs, h !! b = Some xs -> h1 !! b = Some xs) as Hkeep by
    (intros; by apply lookup_app_l_Some).
  destruct (ovalid_frame h h1 (mOutputStream d) Hv) as [Hv1 Hs1]; [auto|].
  assert (dvalid h1 d) as Hd1 by (split; [done|done|exists pad; auto]).
  assert (dsink h1 d = dsink h d) as Hs1' by exact Hs1.
  destruct (array_appends h1 d (length h) bs (zlen bs) Hd1 Hl) as (h2 & d2 & Hrun & Hd2 & Hs2 & Hpr2);
    [|done|lia|lia|by rewrite Hs1'|].
  { intros Ho. pose proof (oowned_alloc _ _ _ Hv Ho). lia. }
  exists h2, d2. split; [|split; [done|split]].
  - unfold writeString. erewrite (bind_Ok (onHeap _)); [|apply onHeap_eq; reflexivity].
    cbn [fst snd]. fold h1. unfold write_all. cbn [deref].
    rewrite <- Hrun. unfold stream, inner, zoom. cbn [fst snd].
    rewrite bind_ret. by rewrite (bind_Ok _ _ _ _ _ (onHeap_read _ (h1, mOutputStream d) _ (size_eq _ _ _ Hl))).
  - by rewrite Hs2, Hs1', slice_all.
  - intros b xs Hno Hbs. apply Hpr2; auto.
Qed.

Lemma appends_seq m1 m2 xs ys h d :
  appends m1 xs h d ->
  (forall h' d', dvalid h' d' -> dsink h' d' = dsink h d ++ xs -> appends m2 ys h' d') ->
  appends (m1;; m2) (xs ++ ys) h d.
Proof.
  intros (h1 & d1 & Hrun1 & Hd1 & Hs1 & Hp1) H2.
  destruct (H2 h1 d1 Hd1 Hs1) as (h2 & d2 & Hrun2 & Hd2 & Hs2 & Hp2).
  exists h2, d2. rewrite (bind_Ok _ _ _ _ _ Hrun1). split; [done|]. split; [done|].
  split; [by rewrite Hs2, Hs1, app_assoc|by eapply preserves_trans].
Qed.
End spec.
End DataOutputStream.

Module DataInputStream.
Import Bytes ByteArray Streams.

Section DataInputStream.
Context {S : Type} `{InputStream S}.

(* io/DataInputStream.h:158-165 DataInputStream *)
Record DataInputStream := mkData {
  mInputStream : S;
  mScratchpad : nat;
}.

Definition stream {A} (m : M (heap * S) A) : M (heap * DataInputStream) A :=
  inner mInputStream (fun i d => mkData i (mScratchpad d)) m.

(* io/DataInputStream.cpp:26-29 DataInputStream::DataInputStream *)
Definition new (inputStream : S) : M heap DataInputStream :=
  b ← ByteArray.new 8; mret (mkData inputStream b).

(* io/DataInputStream.cpp:31-33 DataInputStream::available *)
Definition available : M (heap * DataInputStream) Z := stream Streams.available.

(* io/DataInputStream.cpp:47-49 DataInputStream::read *)
Definition read_byte : M (heap * DataInputStream) Z := stream Streams.read_byte.

(* io/DataInputStream.cpp:55-57 DataInputStream::read *)
Definition read_array (buffer : option nat) (offset count : Z) : M (heap * DataInputStream) Z :=
  stream (Streams.read_array buffer offset count).

(* io/DataInputStream.cpp:63-65 DataInputStream::skip *)
Definition skip (count : Z) : M (heap * DataInputStream) Z := stream (Streams.skip count).

(* io/DataInputStream.cpp:67-73 DataInputStream::readBoolean *)
Definition readBoolean : M (heap * DataInputStream) bool :=
  value ← stream Streams.read_byte;
  throw_if (value <? 0) EOFException;;
  mret (negb (value =? 0)).

(* io/DataInputStream.cpp:75-81 DataInputStream::readByte *)
Definition readByte : M (heap * DataInputStream) Z :=
  value ← stream Streams.read_byte;
  throw_if (value <? 0) EOFException;;
  mret (u8 value).

(* io/DataInputStream.cpp:83-85 DataInputStream::readChar *)
Definition readChar : M (heap * DataInputStream) Z := v ← readByte; mret (i8 v).

(* io/DataInputStream.cpp:149-155 DataInputStream::readUnsignedByte *)
Definition readUnsignedByte : M (heap * DataInputStream) Z :=
  value ← stream Streams.read_byte;
  throw_if (value <? 0) EOFException;;
  mret (u8 value).

(* io/DataInputStream.cpp:110-117 DataInputStream::readFully (loop) *)
Fixpoint readLoop (fuel : nat) (b : nat) (offset count : Z) : M (heap * DataInputStream) unit :=
  if count <=? 0 then mret tt else
  match fuel with
  | O => diverge
  | Datatypes.S fuel =>
      sz ← stream (Streams.read_array (Some b) offset count);
      throw_if (sz <? 0) EOFException;;
      readLoop fuel b (offset + sz) (count - sz)
  end.

(** Each read stores at least one byte: [count] iterations are enough. *)
(* io/DataInputStream.cpp:99-118 DataInputStream::readFully *)
Definition readFully (buffer : option nat) (offset count : Z) : M (heap * DataInputStream) unit :=
  if count =? 0 then mret tt else
  match buffer with
  | None => throw NullPointerException
  | Some b =>
      n ← onHeap (size b);
      throw_if (n <? u64 (offset + count)) IndexOutOfBoundsException;;
      readLoop (Z.to_nat count) b offset count
  end.

(** The first [n] bytes of the scratchpad after [readFully]. *)
Definition readScratch (n : Z) : M (heap * DataInputStream) (list Z) :=
  s ← this mScratchpad;
  readFully (Some s) 0 n;;
  onHeap (readRaw s 0 n).

Definition byte (bs : list Z) (i : nat) : Z := nth i bs 0.

(* io/DataInputStream.cpp:120-124 DataInputStream::readShort *)
Definition readShort : M (heap * DataInputStream) Z :=
  s ← readScratch 2;
  mret (i16 (Z.lor (Z.shiftl (byte s 0) 8) (Z.land (byte s 1) 255))).

(* io/DataInputStream.cpp:126-133 DataInputStream::readInt *)
Definition readInt : M (heap * DataInputStream) Z :=
  s ← readScratch 4;
  mret (i32 (Z.lor (Z.lor (Z.lor
    (Z.shiftl (Z.land (byte s 0) 255) 24)
    (Z.shiftl (Z.land (byte s 1) 255) 16))
    (Z.shiftl (Z.land (byte s 2) 255) 8))
    (Z.shiftl (Z.land (byte s 3) 255) 0))).

(* io/DataInputStream.cpp:135-147 DataInputStream::readLong *)
Definition readLong : M (heap * DataInputStream) Z :=
  s ← readScratch 8;
  mret (i64 (Z.lor (Z.lor (Z.lor (Z.lor (Z.lor (Z.lor (Z.lor
    (Z.shiftl (Z.land (byte s 0) 255) 56)
    (Z.shiftl (Z.land (byte s 1) 255) 48))
    (Z.shiftl (Z.land (byte s 2) 255) 40))
    (Z.shiftl (Z.land (byte s 3) 255) 32))
    (Z.shiftl (Z.land (byte s 4) 255) 24))
    (Z.shiftl (Z.land (byte s 5) 255) 16))
    (Z.shiftl (Z.land (byte s 6) 255) 8))
    (Z.shiftl (Z.land (byte s 7) 255) 0))).

(* io/DataInputStream.cpp:87-89 DataInputStream::readDouble *)
Definition readDouble : M (heap * DataInputStream) Z := v ← readLong; mret (u64 v).

(* io/DataInputStream.cpp:91-93 DataInputStream::readFloat *)
Definition readFloat : M (heap * DataInputStream) Z := v ← readInt; mret (u32 v).

(* io/DataInputStream.cpp:157-159 DataInputStream::readUnsignedShort *)
Definition readUnsignedShort : M (heap * DataInputStream) Z :=
  v ← readShort; mret (Z.land (u16 v) 65535).

(* io/DataInputStream.cpp:161-166 DataInputStream::readUTF *)
Definition readUTF : M (heap * DataInputStream) (list Z) :=
  sz ← readUnsignedShort;
  string ← onHeap (ByteArray.new sz);
  readFully (Some string) 0 sz;;
  onHeap (readRaw string 0 sz).

(** The wrapped [skip] is asked again until it skips nothing; [fuel] bounds the calls. *)
(* io/DataInputStream.cpp:168-175 DataInputStream::skipBytes *)
Fixpoint skipBytes (fuel : nat) (skipped count : Z) : M (heap * DataInputStream) Z :=
  if count <=? skipped then mret skipped else
  match fuel with
  | O => diverge
  | Datatypes.S fuel =>
      result ← stream (Streams.skip (count - skipped));
      if result =? 0 then mret skipped else skipBytes fuel (skipped + result) count
  end.
End DataInputStream.
Arguments DataInputStream : clear implicits.

(** *** What is read *)

Section spec.
Context {S : Type} `{InputStreamSpec S}.

Record dvalid (h : heap) (d : DataInputStream S) : Prop := {
  dv_stream : ivalid h (mInputStream d);
  dv_apart : ~ iowned (mInputStream d) (mScratchpad d);
  dv_pad : exists pad, h !! mScratchpad d = Some pad /\ zlen pad = 8;
}.

Definition drest (h : heap) (d : DataInputStream S) : list Z := rest h (mInputStream d).

Lemma in_stream_eq {A} (m : M (heap * S) A) h d r h' i' :
  m (h, mInputStream d) = (r, (h', i')) -> stream m (h, d) = (r, (h', mkData i' (mScratchpad d))).
Proof. intros Hm. unfold stream. by erewrite inner_eq by exact Hm. Qed.

(** The arrays a read may write to. *)
Definition dwrites (d : DataInputStream S) (b : nat) : Prop :=
  b = mScratchpad d \/ iwrites (mInputStream d) b.

(** The loop stores the next [n] bytes, or comes to the end of the stream. *)
Lemma readLoop_ok fuel b : forall h d bs off n,
  ivalid h (mInputStream d) -> h !! b = Some bs -> ~ iowned (mInputStream d) b -> zlen bs < MAX ->
  0 <= off -> 0 <= n <= Z.of_nat fuel -> off + n <= zlen bs ->
  exists h' i', let d' := mkData i' (mScratchpad d) in
    ivalid h' i' /\ apart (iowned (mInputStream d)) (iowned i') h h' /\
    preserves (fun c => iwrites (mInputStream d) c \/ c = b) (fun c => iwrites i' c \/ c = b) h h' /\
    ((n <= zlen (drest h d) /\ readLoop fuel b off n (h, d) = (Ok tt, (h', d')) /\
      drest h' d' = drop (Z.to_nat n) (drest h d) /\
      h' !! b = Some (splice off (take (Z.to_nat n) (drest h d)) bs)) \/
     (zlen (drest h d) < n /\ readLoop fuel b off n (h, d) = (Throw EOFException, (h', d')) /\
      drest h' d' = [] /\ exists bs', h' !! b = Some bs' /\ zlen bs' = zlen bs)).
Proof.
  induction fuel as [|fuel IH]; intros h d bs off n Hv Hb Hno Hsz Ho Hn Hl; cbn [readLoop].
  - destruct (Z.leb_spec n 0); [|lia]. exists h, (mInputStream d). split; [done|]. split; [apply apart_refl|].
    split; [apply preserves_refl|]. left. assert (n = 0) as -> by lia.
    split; [apply zlen_nonneg|]. split; [by destruct d|]. split; [done|].
    rewrite Hb. f_equal. unfold splice. cbn [take app length Z.to_nat].
    rewrite Nat.add_0_r. symmetry. apply take_drop.
  - destruct (Z.leb_spec n 0) as [Hz|Hpos].
    { exists h, (mInputStream d). split; [done|]. split; [apply apart_refl|].
      split; [apply preserves_refl|]. left. assert (n = 0) as -> by lia.
      split; [apply zlen_nonneg|]. split; [by destruct d|]. split; [done|].
      rewrite Hb. f_equal. unfold splice. cbn [take app length Z.to_nat].
      rewrite Nat.add_0_r. symmetry. apply take_drop. }
    destruct (read_array_ok h (mInputStream d) b bs off n Hv Hb Hno Hsz Ho Hpos Hl)
      as (r & h1 & i1 & Hrun & Hv1 & Hcase & Hp1 & Hap1).
    assert (~ iowned i1 b) as Hno1 by (apply Hap1; [by eapply lookup_lt_Some|done]).
    mstep (in_stream_eq _ _ _ _ _ _ Hrun). set (d1 := mkData i1 (mScratchpad d)).
    destruct Hcase as [(Hr & -> & Hr1 & Hb1)|(Hr & Hrl & Hr1 & Hb1)].
    + exists h1, i1. split; [done|]. split; [done|]. split; [done|]. right.
      unfold drest. rewrite Hr. split; [unfold zlen; cbn; lia|]. split; [done|].
      split; [done|]. by exists bs.
    + rewrite throw_if_false by (apply Z.ltb_ge; lia).
      set (taken := take (Z.to_nat r) (rest h (mInputStream d))) in *.
      assert (zlen taken = r) as Ht by (unfold taken, zlen in *; rewrite length_take; lia).
      destruct (IH h1 d1 (splice off taken bs) (off + r) (n - r)) as
        (h2 & i2 & Hv2 & Hap2 & Hp2 & Hres); try done; try lia.
      { rewrite zlen_splice; lia. }
      { rewrite zlen_splice; lia. }
      exists h2, i2. split; [done|]. split; [by eapply apart_trans|].
      split; [by eapply preserves_trans|].
      assert (drest h1 d1 = drop (Z.to_nat r) (drest h d)) as Hd1 by exact Hr1.
      assert (zlen (drest h1 d1) = zlen (drest h d) - r) as Hz1.
      { rewrite Hd1. unfold zlen, drest in *. rewrite length_drop. lia. }
      destruct Hres as [(Hn1 & Hrun1 & Hrest1 & Hb2)|(Hn1 & Hrun1 & Hrest1 & bs' & Hb2 & Hz2)].
      * left. split; [lia|]. split; [exact Hrun1|]. rewrite Hd1 in Hrest1, Hb2. split.
        -- etrans; [exact Hrest1|]. rewrite drop_drop. f_equal. lia.
        -- rewrite Hb2. f_equal. rewrite <- Ht at 1.
           assert (zlen (take (Z.to_nat (n - r)) (drop (Z.to_nat r) (drest h d))) = n - r) as Hz3.
           { unfold zlen, drest in *. rewrite length_take, length_drop. lia. }
           rewrite splice_app by (rewrite ?Hz3; lia). f_equal. unfold taken.
           change (rest h (mInputStream d)) with (drest h d).
           rewrite take_take_drop. f_equal. lia.
      * right. split; [lia|]. split; [exact Hrun1|]. split; [done|]. exists bs'.
        split; [done|]. rewrite Hz2. apply zlen_splice; lia.
Qed.

(** The outcome of reading [n] bytes of the stream and making [v] of them. *)
Definition takes {A} (m : M (heap * DataInputStream S) A) (n : Z) (v : list Z -> A) h d : Prop :=
  exists h' d', dvalid h' d' /\ preserves (dwrites d) (dwrites d') h h' /\
    ((n <= zlen (drest h d) /\ m (h, d) = (Ok (v (take (Z.to_nat n) (drest h d))), (h', d')) /\
      drest h' d' = drop (Z.to_nat n) (drest h d)) \/
     (zlen (drest h d) < n /\ m (h, d) = (Throw EOFException, (h', d')) /\ drest h' d' = [])).

Lemma scratch_takes h d n :
  dvalid h d -> 0 < n <= 8 -> takes (readScratch n) n (fun bs => bs) h d.
Proof.
  intros [Hv Ha (pad & Hp & Hz)] Hn.
  destruct (readLoop_ok (Z.to_nat n) (mScratchpad d) h d pad 0 n Hv Hp Ha) as
    (h' & i' & Hv' & Hap & Hpr & Hres); [unfold MAX; lia|lia..|].
  assert (~ iowned i' (mScratchpad d)) as Hno' by (apply Hap; [by eapply lookup_lt_Some|done]).
  assert (preserves (dwrites d) (dwrites (mkData i' (mScratchpad d))) h h') as Hpd.
  { eapply preserves_more, Hpr; unfold dwrites; cbn; tauto. }
  assert (forall r s', readLoop (Z.to_nat n) (mScratchpad d) 0 n (h, d) = (r, s') ->
    readFully (Some (mScratchpad d)) 0 n (h, d) = (r, s')) as Hfull.
  { intros r s' Hrun. unfold readFully. destruct (Z.eqb_spec n 0); [lia|].
    mstep (onHeap_read _ (h, d) _ (size_eq _ _ _ Hp)).
    rewrite throw_if_false; [done|]. apply Z.ltb_ge. rewrite u64_id; lia. }
  unfold takes, readScratch, this. setoid_rewrite bind_gets. cbn [snd].
  exists h', (mkData i' (mScratchpad d)).
  destruct Hres as [(Hn1 & Hrun & Hrest & Hb)|(Hn1 & Hrun & Hrest & bs' & Hb & Hz')].
  - assert (zlen (take (Z.to_nat n) (drest h d)) = n) as Ht by
      (unfold zlen in *; rewrite length_take; lia).
    split; [|split; [exact Hpd|]].
    { split; cbn; try done. eexists. split; [exact Hb|]. rewrite zlen_splice; lia. }
    left. split; [done|]. split; [|done]. mstep (Hfull _ _ Hrun).
    apply onHeap_read. cbn [fst]. rewrite (readRaw_eq _ _ _ 0 n Hb); [|lia..|rewrite zlen_splice; lia].
    rewrite <- Ht at 1. by rewrite slice_splice by lia.
  - split; [split; cbn; try done; exists bs'; split; [done|lia]|]. split; [exact Hpd|].
    right. split; [done|]. split; [|done]. exact (bind_Throw _ _ _ _ _ (Hfull _ _ Hrun)).
Qed.

Lemma byte_takes {A} h d (f : Z -> A) :
  dvalid h d ->
  takes (value ← stream Streams.read_byte; throw_if (value <? 0) EOFException;; mret (f value)) 1
    (fun bs => f (byte bs 0)) h d.
Proof.
  intros [Hv Ha (pad & Hp & Hz)].
  destruct (read_byte_ok h (mInputStream d) Hv) as (r & h' & i' & Hrun & Hv' & Hcase & Hpr & Hap).
  destruct (Hpr (mScratchpad d) pad) as [Hp' Hw']; [intros Hw; by apply Ha, iwrites_owned|done|].
  assert (~ iowned i' (mScratchpad d)) as Ha' by (apply Hap; [by eapply lookup_lt_Some|done]).
  exists h', (mkData i' (mScratchpad d)). split; [split; try done; by exists pad|].
  split.
  { intros b bs Hno Hl. unfold dwrites in *. cbn in *. destruct (Hpr b bs); [tauto|done|]. tauto. }
  rewrite (bind_Ok _ _ _ _ _ (in_stream_eq _ _ _ _ _ _ Hrun)). cbn beta. unfold drest in *.
  pose proof (rest_bytes _ _ Hv) as Hby. cbn [mInputStream].
  destruct (rest h (mInputStream d)) as [|v vs].
  - destruct Hcase as [-> Hr]. right. split; [done|]. split; [done|exact Hr].
  - destruct Hcase as [-> Hr]. left. apply Forall_cons in Hby as [Hv0 _]. unfold is_byte in Hv0.
    split; [unfold zlen; cbn; lia|]. rewrite throw_if_false by (apply Z.ltb_ge; lia).
    split; [done|exact Hr].
Qed.

Lemma takes_map {A B} (m : M (heap * DataInputStream S) A) n v (f : A -> B) h d :
  takes m n v h d -> takes (x ← m; mret (f x)) n (fun bs => f (v bs)) h d.
Proof.
  intros (h' & d' & Hd & Hp & [(Hn & Hrun & Hr)|(Hn & Hrun & Hr)]); exists h', d';
    (split; [done|]); (split; [done|]).
  - left. split; [done|]. split; [|done]. by mstep Hrun.
  - right. split; [done|]. split; [|done]. exact (bind_Throw _ _ _ _ _ Hrun).
Qed.
End spec.
End DataInputStream.

(** ** Records of typed values *)

Module DataValues.
Import Bytes ByteArray Streams.

Inductive value :=
  | VBoolean (b : bool)
  | VByte (v : Z)
  | VChar (v : Z)
  | VShort (v : Z)
  | VInt (v : Z)
  | VLong (v : Z)
  | VFloat (bits : Z)
  | VDouble (bits : Z)
  | VUTF (bs : list Z).

Inductive kind := KBoolean | KByte | KChar | KShort | KInt | KLong | KFloat | KDouble | KUTF.

Definition kind_of (v : value) : kind :=
  match v with
  | VBoolean _ => KBoolean | VByte _ => KByte | VChar _ => KChar | VShort _ => KShort
  | VInt _ => KInt | VLong _ => KLong | VFloat _ => KFloat | VDouble _ => KDouble | VUTF _ => KUTF
  end.

(** The values of the type; strings that are not empty and whose length the two length bytes
    hold; NaNs in the canonical pattern. *)
Definition in_range (v : value) : Prop :=
  match v with
  | VBoolean _ => True
  | VByte v => 0 <= v < 2 ^ 8
  | VChar v => - 2 ^ 7 <= v < 2 ^ 7
  | VShort v => - 2 ^ 15 <= v < 2 ^ 15
  | VInt v => - 2 ^ 31 <= v < 2 ^ 31
  | VLong v => - 2 ^ 63 <= v < 2 ^ 63
  | VFloat bits => 0 <= bits < 2 ^ 32 /\ DataOutputStream.floatToIntBits bits = bits
  | VDouble bits => 0 <= bits < 2 ^ 64 /\ DataOutputStream.doubleToLongBits bits = bits
  | VUTF bs => Forall is_byte bs /\ 0 < zlen bs < 2 ^ 16
  end.

(** The bytes of a value. *)
Definition enc (v : value) : list Z :=
  match v with
  | VBoolean b => [if b then 1 else 0]
  | VByte v => [v]
  | VChar v => [u8 v]
  | VShort v => be_split 2 v
  | VInt v => be_split 4 v
  | VLong v => be_split 8 v
  | VFloat bits => be_split 4 bits
  | VDouble bits => be_split 8 bits
  | VUTF bs => be_split 2 (zlen bs) ++ bs
  end.

Definition encs (vs : list value) : list Z := vs ≫= enc.

Section write.
Context {S : Type} `{OutputStreamSpec S}.
Import DataOutputStream.

Definition write (v : value) : M (heap * DataOutputStream S) unit :=
  match v with
  | VBoolean b => writeBoolean b
  | VByte v => writeByte v
  | VChar v => writeChar v
  | VShort v => writeShort v
  | VInt v => writeInt v
  | VLong v => writeLong v
  | VFloat bits => writeFloat bits
  | VDouble bits => writeDouble bits
  | VUTF bs => writeUTF (Some bs)
  end.

Fixpoint writeAll (vs : list value) : M (heap * DataOutputStream S) unit :=
  match vs with
  | [] => mret tt
  | v :: vs => write v;; writeAll vs
  end.

Lemma u8_land z : u8 (Z.land z 255) = Z.land z 255.
Proof. rewrite land_255. apply u8_id, Z.mod_pos_bound. lia. Qed.

Lemma writeShort_eq v : writeShort (S := S) v = writeScratch (be_split 2 v).
Proof.
  unfold writeShort. rewrite !u8_land. unfold be_split. cbn [le_split reverse rev_append].
  by rewrite Z.shiftr_0_r.
Qed.

Lemma writeInt_eq v : writeInt (S := S) v = writeScratch (be_split 4 v).
Proof.
  unfold writeInt. rewrite !u8_land. unfold be_split. cbn [le_split reverse rev_append].
  by rewrite !Z.shiftr_shiftr, Z.shiftr_0_r by lia.
Qed.

Lemma writeLong_eq v : writeLong (S := S) v = writeScratch (be_split 8 v).
Proof.
  unfold writeLong. rewrite !u8_land. unfold be_split. cbn [le_split reverse rev_append].
  by rewrite !Z.shiftr_shiftr, Z.shiftr_0_r by lia.
Qed.

Lemma write_appends v h d :
  dvalid h d -> in_range v -> zlen (dsink h d) + zlen (enc v) < MAX -> appends (write v) (enc v) h d.
Proof.
  intros Hd Hv Hm.
  assert (forall n z, (n <= 8)%nat -> zlen (be_split n z) = Z.of_nat n) as Hlen by
    (intros n z _; unfold zlen; by rewrite length_be_split).
  assert (forall n z, (n <= 8)%nat -> zlen (dsink h d) + Z.of_nat n < MAX ->
    appends (writeScratch (be_split n z)) (be_split n z) h d) as Hscratch.
  { intros n z Hn Hm'. apply scratch_appends; [done|apply be_split_bytes|rewrite Hlen; lia..]. }
  destruct v as [b|v|v|v|v|v|v|v|bs]; cbn [write enc in_range] in *.
  - unfold writeBoolean. replace [if b then 1 else 0] with [u8 (if b then 1 else 0)] by by destruct b.
    by apply byte_appends.
  - unfold writeByte. rewrite <- (u8_id v) at 2 by done. by apply byte_appends.
  - unfold writeChar, writeByte. rewrite <- (u8_id (u8 v)) at 2 by apply u8_range.
    by apply byte_appends.
  - rewrite writeShort_eq. apply Hscratch; [lia|by rewrite Hlen in Hm by lia].
  - rewrite writeInt_eq. apply Hscratch; [lia|by rewrite Hlen in Hm by lia].
  - rewrite writeLong_eq. apply Hscratch; [lia|by rewrite Hlen in Hm by lia].
  - unfold writeFloat. rewrite writeInt_eq. destruct Hv as [_ ->].
    replace (be_split 4 (i32 v)) with (be_split 4 v); [apply Hscratch; [lia|by rewrite Hlen in Hm by lia]|].
    unfold be_split. f_equal. apply le_split_mod. symmetry. by apply (signed_mod 32).
  - unfold writeDouble. rewrite writeLong_eq. destruct Hv as [_ ->].
    replace (be_split 8 (i64 v)) with (be_split 8 v); [apply Hscratch; [lia|by rewrite Hlen in Hm by lia]|].
    unfold be_split. f_equal. apply le_split_mod. symmetry. by apply (signed_mod 64).
  - destruct Hv as [Hb Hz]. unfold writeUTF. destruct (Z.eqb_spec (zlen bs) 0); [lia|].
    rewrite writeShort_eq. rewrite zlen_app, Hlen in Hm by lia.
    replace (be_split 2 (i16 (zlen bs))) with (be_split 2 (zlen bs)).
    2: { unfold be_split. f_equal. apply le_split_mod. symmetry. by apply (signed_mod 16). }
    apply appends_seq; [apply Hscratch; lia|]. intros h' d' Hd' Hs'.
    apply string_appends; [done|done|]. rewrite Hs', zlen_app, Hlen by lia. lia.
Qed.

Lemma encs_cons v vs : encs (v :: vs) = enc v ++ encs vs.
Proof. reflexivity. Qed.

Lemma writeAll_appends vs : forall h d,
  dvalid h d -> Forall in_range vs -> zlen (dsink h d) + zlen (encs vs) < MAX ->
  appends (writeAll vs) (encs vs) h d.
Proof.
  induction vs as [|v vs IH]; intros h d Hd Hv Hm; cbn [writeAll].
  - exists h, d. split; [done|]. split; [done|]. split; [by rewrite app_nil_r|apply preserves_refl].
  - apply Forall_cons in Hv as [Hv Hvs]. rewrite encs_cons, zlen_app in *.
    pose proof (zlen_nonneg (encs vs)).
    apply appends_seq; [apply write_appends; [done|done|lia]|]. intros h' d' Hd' Hs'.
    apply IH; [done|done|]. rewrite Hs', zlen_app. lia.
Qed.
End write.

Section read.
Context {S : Type} `{InputStreamSpec S}.
Import DataInputStream.

Definition read (k : kind) : M (heap * DataInputStream S) value :=
  match k with
  | KBoolean => v ← readBoolean; mret (VBoolean v)
  | KByte => v ← readByte; mret (VByte v)
  | KChar => v ← readChar; mret (VChar v)
  | KShort => v ← readShort; mret (VShort v)
  | KInt => v ← readInt; mret (VInt v)
  | KLong => v ← readLong; mret (VLong v)
  | KFloat => v ← readFloat; mret (VFloat v)
  | KDouble => v ← readDouble; mret (VDouble v)
  | KUTF => v ← readUTF; mret (VUTF v)
  end.

Fixpoint readAll (ks : list kind) : M (heap * DataInputStream S) (list value) :=
  match ks with
  | [] => mret []
  | k :: ks => v ← read k; vs ← readAll ks; mret (v :: vs)
  end.

(** [m] reads the bytes [xs] at the front of the stream as [v]. *)
Definition reads {A} (m : M (heap * DataInputStream S) A) (xs : list Z) (v : A) : Prop :=
  forall h d tl, dvalid h d -> drest h d = xs ++ tl ->
    exists h' d', m (h, d) = (Ok v, (h', d')) /\ dvalid h' d' /\ drest h' d' = tl /\
      preserves (dwrites d) (dwrites d') h h'.

Lemma takes_reads {A} (m : M (heap * DataInputStream S) A) n (f : list Z -> A) xs v :
  (forall h d, dvalid h d -> takes m n f h d) -> n = zlen xs -> f xs = v -> reads m xs v.
Proof.
  intros Hm -> <- h d tl Hd Hr. destruct (Hm h d Hd) as (h' & d' & Hd' & Hp & [(Hn & Hrun & Hr')|(Hn & _)]).
  - exists h', d'. rewrite Hrun, Hr'. rewrite Hr. unfold zlen. rewrite Nat2Z.id.
    by rewrite take_app_length, drop_app_length.
  - rewrite Hr, zlen_app in Hn. pose proof (zlen_nonneg tl). lia.
Qed.

Lemma reads_map {A B} (m : M (heap * DataInputStream S) A) xs v (f : A -> B) :
  reads m xs v -> reads (x ← m; mret (f x)) xs (f v).
Proof.
  intros Hm h d tl Hd Hr. destruct (Hm h d tl Hd Hr) as (h' & d' & Hrun & ?).
  exists h', d'. split; [|done]. by mstep Hrun.
Qed.

Lemma reads_scratch n xs : (0 < n <= 8)%nat -> length xs = n -> reads (readScratch (Z.of_nat n)) xs xs.
Proof.
  intros Hn <-. apply (takes_reads _ (zlen xs) (fun bs => bs)); [|done|done]. intros h d Hd.
  apply scratch_takes; [done|unfold zlen; lia].
Qed.

Lemma byte_land bs i : Forall is_byte bs -> Z.land (byte bs i) 255 = byte bs i.
Proof.
  intros Hb. rewrite land_255. apply Z.mod_small. unfold byte.
  destruct (Nat.lt_ge_cases i (length bs)) as [Hi|Hi]; [|by rewrite nth_overflow].
  rewrite Forall_forall in Hb. apply Hb. apply list_elem_of_In, nth_In. lia.
Qed.

(** The shifts of the readers put the bytes together, most significant first. *)
Ltac combine_shifts Hb :=
  rewrite ?(byte_land _ _ Hb); unfold be_combine; cbn [reverse rev_append le_combine byte nth];
  rewrite ?Z.shiftl_0_l, ?Z.shiftl_0_r, ?Z.lor_0_r, ?Z.shiftl_lor, ?Z.shiftl_shiftl by lia;
  cbv [Z.add Pos.add Pos.succ Pos.add_carry];
  apply Z.bits_inj'; intros ? _; rewrite ?Z.lor_spec; btauto.

Lemma short_combine b0 b1 :
  Forall is_byte [b0; b1] ->
  Z.lor (Z.shiftl (byte [b0; b1] 0) 8) (Z.land (byte [b0; b1] 1) 255) = be_combine [b0; b1].
Proof. intros Hb. combine_shifts Hb. Qed.

Lemma int_combine b0 b1 b2 b3 (s := [b0; b1; b2; b3]) :
  Forall is_byte s ->
  Z.lor (Z.lor (Z.lor
    (Z.shiftl (Z.land (byte s 0) 255) 24) (Z.shiftl (Z.land (byte s 1) 255) 16))
    (Z.shiftl (Z.land (byte s 2) 255) 8)) (Z.shiftl (Z.land (byte s 3) 255) 0) = be_combine s.
Proof. intros Hb. subst s. combine_shifts Hb. Qed.

Lemma long_combine b0 b1 b2 b3 b4 b5 b6 b7 (s := [b0; b1; b2; b3; b4; b5; b6; b7]) :
  Forall is_byte s ->
  Z.lor (Z.lor (Z.lor (Z.lor (Z.lor (Z.lor (Z.lor
    (Z.shiftl (Z.land (byte s 0) 255) 56) (Z.shiftl (Z.land (byte s 1) 255) 48))
    (Z.shiftl (Z.land (byte s 2) 255) 40)) (Z.shiftl (Z.land (byte s 3) 255) 32))
    (Z.shiftl (Z.land (byte s 4) 255) 24)) (Z.shiftl (Z.land (byte s 5) 255) 16))
    (Z.shiftl (Z.land (byte s 6) 255) 8)) (Z.shiftl (Z.land (byte s 7) 255) 0) = be_combine s.
Proof. intros Hb. subst s. combine_shifts Hb. Qed.

Lemma reads_short v : reads readShort (be_split 2 v) (i16 v).
Proof.
  pose proof (be_split_bytes 2 v) as Hb. pose proof (length_be_split 2 v) as Hl.
  pose proof (be_combine_split 2 v) as Hc. change (8 * Z.of_nat 2) with 16 in Hc.
  unfold readShort. replace (i16 v) with (i16 (v mod 2 ^ 16)) by
    (unfold i16; by rewrite Zplus_mod_idemp_l). rewrite <- Hc.
  pose proof (reads_scratch 2 _ ltac:(lia) Hl) as Hr.
  destruct (be_split 2 v) as [|b0 [|b1 [|]]]; try done.
  rewrite <- short_combine by done. by apply (reads_map _ _ _ (fun s =>
    i16 (Z.lor (Z.shiftl (byte s 0) 8) (Z.land (byte s 1) 255)))).
Qed.

Lemma reads_int v : reads readInt (be_split 4 v) (i32 v).
Proof.
  pose proof (be_split_bytes 4 v) as Hb. pose proof (length_be_split 4 v) as Hl.
  pose proof (be_combine_split 4 v) as Hc. change (8 * Z.of_nat 4) with 32 in Hc.
  unfold readInt. replace (i32 v) with (i32 (v mod 2 ^ 32)) by
    (unfold i32; by rewrite Zplus_mod_idemp_l). rewrite <- Hc.
  pose proof (reads_scratch 4 _ ltac:(lia) Hl) as Hr.
  destruct (be_split 4 v) as [|b0 [|b1 [|b2 [|b3 [|]]]]]; try done.
  rewrite <- int_combine by done. by apply (reads_map _ _ _ (fun s => i32 _)).
Qed.

Lemma reads_long v : reads readLong (be_split 8 v) (i64 v).
Proof.
  pose proof (be_split_bytes 8 v) as Hb. pose proof (length_be_split 8 v) as Hl.
  pose proof (be_combine_split 8 v) as Hc. change (8 * Z.of_nat 8) with 64 in Hc.
  unfold readLong. replace (i64 v) with (i64 (v mod 2 ^ 64)) by
    (unfold i64; by rewrite Zplus_mod_idemp_l). rewrite <- Hc.
  pose proof (reads_scratch 8 _ ltac:(lia) Hl) as Hr.
  destruct (be_split 8 v) as [|b0 [|b1 [|b2 [|b3 [|b4 [|b5 [|b6 [|b7 [|]]]]]]]]]; try done.
  rewrite <- long_combine by done. by apply (reads_map _ _ _ (fun s => i64 _)).
Qed.

Lemma reads_byte {A} v (f : Z -> A) :
  reads (value ← stream Streams.read_byte; throw_if (value <? 0) EOFException;; mret (f value))
    [v] (f v).
Proof. eapply takes_reads; [intros; by apply byte_takes|done|done]. Qed.

(** A new array filled from the stream: with the next bytes, or not at all. *)
Lemma array_read n h d :
  dvalid h d -> 0 <= n < MAX ->
  let h1 : heap := h ++ [replicate (Z.to_nat n) 0] in
  onHeap (ByteArray.new n) (h, d) = (Ok (length h), (h1, d)) /\
  exists h' d', dvalid h' d' /\ preserves (dwrites d) (dwrites d') h h' /\
    ((n <= zlen (drest h d) /\ readFully (Some (length h)) 0 n (h1, d) = (Ok tt, (h', d')) /\
      drest h' d' = drop (Z.to_nat n) (drest h d) /\ h' !! length h = Some (take (Z.to_nat n) (drest h d)) /\
      ~ dwrites d' (length h)) \/
     (zlen (drest h d) < n /\ readFully (Some (length h)) 0 n (h1, d) = (Throw EOFException, (h', d')) /\
      drest h' d' = [])).
Proof.
  intros [Hv Ha (pad & Hp & Hpz)] Hn h1. split; [done|].
  set (zs := replicate (Z.to_nat n) 0) in *.
  assert (zlen zs = n) as Hzs by (unfold zs, zlen; rewrite length_replicate; lia).
  assert (h1 !! length h = Some zs) as Hl by by apply list_lookup_middle.
  assert (forall b xs, h !! b = Some xs -> h1 !! b = Some xs) as Hkeep by
    (intros; by apply lookup_app_l_Some).
  destruct (ivalid_frame h h1 (mInputStream d) Hv) as [Hv1 Hr1]; [auto|].
  assert (~ iowned (mInputStream d) (length h)) as Hno.
  { intros Ho. pose proof (iowned_alloc _ _ _ Hv Ho). lia. }
  destruct (readLoop_ok (Z.to_nat n) (length h) h1 d zs 0 n Hv1 Hl Hno) as
    (h2 & i2 & Hv2 & Hap & Hpr & Hres); [unfold MAX in *; lia|lia..|].
  assert (drest h1 d = drest h d) as Hr' by exact Hr1. rewrite Hr' in Hres.
  apply lookup_lt_Some in Hp as Hplt.
  assert (dvalid h2 (mkData i2 (mScratchpad d))) as Hd2.
  { destruct (Hpr (mScratchpad d) pad) as [Hp2 Ha2]; [intros [?|?]; [by apply Ha, iwrites_owned|lia]|by apply Hkeep|].
    split; cbn; [done| |by exists pad]. apply Hap; [|done]. by eapply lookup_lt_Some, Hkeep, Hp. }
  assert (forall r s', readLoop (Z.to_nat n) (length h) 0 n (h1, d) = (r, s') ->
    readFully (Some (length h)) 0 n (h1, d) = (r, s')) as Hfull.
  { intros r s' Hrun. unfold readFully. destruct (Z.eqb_spec n 0) as [->|]; [exact Hrun|].
    mstep (onHeap_read _ (h1, d) _ (size_eq _ _ _ Hl)).
    rewrite throw_if_false; [done|]. apply Z.ltb_ge. rewrite u64_id; unfold MAX in *; lia. }
  exists h2, (mkData i2 (mScratchpad d)). split; [done|]. split.
  { intros b xs Hb' Hl'. unfold dwrites in *. cbn. apply lookup_lt_Some in Hl' as Hlt.
    destruct (Hpr b xs) as [? Hw]; [intros [?|?]; [tauto|lia]|by apply Hkeep|]. tauto. }
  destruct Hres as [(Hle & Hrun & Hrest & Hb)|(Hlt & Hrun & Hrest & _)]; [left|right]; (split; [done|]).
  - split; [by apply Hfull|]. split; [exact Hrest|]. split.
    + rewrite Hb. f_equal. unfold splice. cbn [take app Z.to_nat Nat.add].
      rewrite drop_ge; [by rewrite app_nil_r|]. unfold zlen in *. rewrite length_take. lia.
    + unfold dwrites. cbn. intros [E|Hw]; [lia|]. apply iwrites_owned in Hw. revert Hw. apply Hap; [|done].
      unfold h1. rewrite length_app. cbn. lia.
  - split; [by apply Hfull|exact Hrest].
Qed.

(** The bytes of a string: a new array, filled from the stream. *)
Lemma reads_string bs :
  zlen bs < 2 ^ 16 ->
  reads (string ← onHeap (ByteArray.new (zlen bs)); readFully (Some string) 0 (zlen bs);;
    onHeap (readRaw string 0 (zlen bs))) bs bs.
Proof.
  intros Hz h d tl Hd Hr. pose proof (zlen_nonneg bs). pose proof (zlen_nonneg tl).
  destruct (array_read (zlen bs) h d Hd) as (E & h' & d' & Hd' & Hp & Hres); [unfold MAX; lia|].
  rewrite Hr, zlen_app in Hres. destruct Hres as [(_ & Hrun & Hr' & Hb & _)|(Hlt & _)]; [|lia].
  unfold zlen in Hr', Hb. rewrite Nat2Z.id in Hr', Hb. rewrite drop_app_length in Hr'. rewrite take_app_length in Hb.
  exists h', d'. split; [|by split; [|split]]. mstep E. mstep Hrun. apply onHeap_read. cbn [fst].
  rewrite (readRaw_eq _ _ _ 0 (zlen bs) Hb) by lia. by rewrite slice_all.
Qed.

Lemma reads_seq {A B} (m : M (heap * DataInputStream S) A) (f : A -> M (heap * DataInputStream S) B)
    xs ys v w : reads m xs v -> reads (f v) ys w -> reads (m ≫= f) (xs ++ ys) w.
Proof.
  intros Hm Hf h d tl Hd Hr. rewrite <- app_assoc in Hr.
  destruct (Hm h d (ys ++ tl) Hd Hr) as (h1 & d1 & Hrun1 & Hd1 & Hr1 & Hp1).
  destruct (Hf h1 d1 tl Hd1 Hr1) as (h2 & d2 & Hrun2 & Hd2 & Hr2 & Hp2).
  exists h2, d2. split; [by mstep Hrun1|]. split; [done|]. split; [done|].
  by eapply preserves_trans.
Qed.

Lemma unsigned_short_len n : 0 < n < 2 ^ 16 -> Z.land (u16 (i16 n)) 65535 = n.
Proof.
  intros Hn. change 65535 with (Z.ones 16). rewrite Z.land_ones by lia. unfold u16, i16.
  rewrite (signed_mod 16), Z.mod_mod by lia. apply Z.mod_small. lia.
Qed.

Lemma reads_unsigned_short n : 0 < n < 2 ^ 16 -> reads readUnsignedShort (be_split 2 n) n.
Proof.
  intros Hn. rewrite <- (unsigned_short_len n Hn) at 2.
  apply (reads_map _ _ (i16 n) (fun v => Z.land (u16 v) 65535)), reads_short.
Qed.

Lemma reads_UTF bs : 0 < zlen bs < 2 ^ 16 -> reads readUTF (be_split 2 (zlen bs) ++ bs) bs.
Proof.
  intros Hz. apply reads_seq with (zlen bs); [by apply reads_unsigned_short|]. apply reads_string. lia.
Qed.

Lemma read_enc v : in_range v -> reads (read (kind_of v)) (enc v) v.
Proof.
  destruct v as [b|v|v|v|v|v|v|v|bs]; cbn [in_range read kind_of enc]; intros Hv.
  - apply (reads_map _ _ b VBoolean). unfold readBoolean.
    replace b with (negb ((if b then 1 else 0) =? 0)) at 2 by by destruct b.
    apply (reads_byte _ (fun v => negb (v =? 0))).
  - apply (reads_map _ _ v VByte). rewrite <- (u8_id v Hv) at 2. apply (reads_byte _ u8).
  - apply (reads_map _ _ v VChar). rewrite <- (signed_wrap 8 v) at 2 by (done || lia).
    apply (reads_map _ _ (v mod 2 ^ 8) i8). rewrite <- (u8_id (v mod 2 ^ 8)) by apply u8_range.
    apply (reads_byte _ u8).
  - apply (reads_map _ _ v VShort). rewrite <- (i16_id v Hv) at 2. apply reads_short.
  - apply (reads_map _ _ v VInt). rewrite <- (i32_id v Hv) at 2. apply reads_int.
  - apply (reads_map _ _ v VLong). rewrite <- (i64_id v Hv) at 2. apply reads_long.
  - destruct Hv as [Hv _]. apply (reads_map _ _ v VFloat).
    replace v with (u32 (i32 v)) at 2; [apply (reads_map _ _ (i32 v) u32), reads_int|].
    unfold u32, i32. rewrite (signed_mod 32) by lia. by apply Z.mod_small.
  - destruct Hv as [Hv _]. apply (reads_map _ _ v VDouble).
    replace v with (u64 (i64 v)) at 2; [apply (reads_map _ _ (i64 v) u64), reads_long|].
    unfold u64, i64. rewrite (signed_mod 64) by lia. by apply Z.mod_small.
  - destruct Hv as [_ Hz]. by apply (reads_map _ _ bs VUTF), reads_UTF.
Qed.

Lemma readAll_encs vs : Forall in_range vs -> reads (readAll (kind_of <$> vs)) (encs vs) vs.
Proof.
  induction 1 as [|v vs Hv _ IH].
  { intros h d tl Hd Hr. exists h, d. do 3 (split; [done|]). apply preserves_refl. }
  rewrite fmap_cons, encs_cons. cbn [readAll].
  apply reads_seq with v; [by apply read_enc|].
  by apply (reads_map _ _ vs (fun vs => v :: vs)).
Qed.

(** The bytes a read of the kind takes at least. *)
Definition width (k : kind) : Z :=
  match k with
  | KBoolean | KByte | KChar => 1
  | KShort | KUTF => 2
  | KInt | KFloat => 4
  | KLong | KDouble => 8
  end.

Definition underflows {A} (m : M (heap * DataInputStream S) A) h d : Prop :=
  exists h' d', m (h, d) = (Throw EOFException, (h', d')) /\ dvalid h' d' /\ drest h' d' = [] /\
    preserves (dwrites d) (dwrites d') h h'.

Lemma underflows_bind {A B} (m : M (heap * DataInputStream S) A)
    (f : A -> M (heap * DataInputStream S) B) h d : underflows m h d -> underflows (m ≫= f) h d.
Proof.
  intros (h' & d' & Hrun & ?). exists h', d'. split; [|done]. exact (bind_Throw _ _ _ _ _ Hrun).
Qed.

Lemma takes_underflows {A} (m : M (heap * DataInputStream S) A) n v h d :
  takes m n v h d -> zlen (drest h d) < n -> underflows m h d.
Proof.
  intros (h' & d' & Hd & Hp & [(Hn & _)|(_ & Hrun & Hr)]) Hlt; [lia|]. by exists h', d'.
Qed.

Lemma read_underflows k h d : dvalid h d -> zlen (drest h d) < width k -> underflows (read k) h d.
Proof.
  intros Hd Hk.
  assert (forall n, 0 < n <= 8 -> zlen (drest h d) < n -> underflows (readScratch n) h d) as Hs.
  { intros n Hn. eapply takes_underflows. by apply scratch_takes. }
  assert (forall A (f : Z -> A), zlen (drest h d) < 1 ->
    underflows (value ← stream Streams.read_byte; throw_if (value <? 0) EOFException;; mret (f value)) h d) as Hb.
  { intros A f. eapply takes_underflows. by apply byte_takes. }
  destruct k; cbn [width] in Hk; unfold read.
  - by apply underflows_bind, (Hb _ (fun v => negb (v =? 0))).
  - by apply underflows_bind, (Hb _ u8).
  - by apply underflows_bind, underflows_bind, (Hb _ u8).
  - by apply underflows_bind, underflows_bind, Hs.
  - by apply underflows_bind, underflows_bind, Hs.
  - by apply underflows_bind, underflows_bind, Hs.
  - by apply underflows_bind, underflows_bind, underflows_bind, Hs.
  - by apply underflows_bind, underflows_bind, underflows_bind, Hs.
  - by apply underflows_bind, underflows_bind, underflows_bind, underflows_bind, Hs.
Qed.

(** reading a value from a stream with fewer bytes left than the value
    has throws [EOFException], after consuming what was left; it never returns a value made of
    stale bytes, and the stream stays valid. *)
Theorem short_stream_is_eof k h d :
  dvalid h d -> zlen (drest h d) < width k ->
  exists h' d', read k (h, d) = (Throw EOFException, (h', d')) /\ dvalid h' d' /\ drest h' d' = [].
Proof.
  intros Hd Hk. destruct (read_underflows k h d Hd Hk) as (h' & d' & ? & ? & ? & _).
  by exists h', d'.
Qed.
End read.

Section roundtrip.
Context {O I : Type} `{OutputStreamSpec O} `{InputStreamSpec I}.
Import DataOutputStream DataInputStream.

(** C10: Booleans, integers of their width (chars of 7 bits and a sign, bytes from 0 to 255),
    floats and doubles, and strings of 1 to 2^16 - 1 bytes, written one after the other through a
    data output stream, over any stream that keeps the [OutputStream] contract, are appended as their
    big-endian bytes; a data input stream over any stream that keeps the [InputStream] contract
    and delivers those bytes reads back the same values and stops behind them.  Two kinds of values
    do not come back and are excluded: the empty string, which is written as nothing (see
    [empty_string_lost]), and NaNs other than the one pattern that [floatToIntBits] and
    [doubleToLongBits] make of them all; longer strings are not covered. *)
Theorem data_roundtrip (h : heap) (d : DataOutputStream O) (hi : heap) (i : DataInputStream I) vs tl :
  DataOutputStream.dvalid h d -> DataInputStream.dvalid hi i -> Forall in_range vs ->
  zlen (dsink h d) + zlen (encs vs) < MAX -> drest hi i = encs vs ++ tl ->
  (exists h' d', writeAll vs (h, d) = (Ok tt, (h', d')) /\ DataOutputStream.dvalid h' d' /\
    dsink h' d' = dsink h d ++ encs vs) /\
  exists hi' i', readAll (kind_of <$> vs) (hi, i) = (Ok vs, (hi', i')) /\
    DataInputStream.dvalid hi' i' /\ drest hi' i' = tl.
Proof.
  intros Hd Hi Hvs Hm Hr. split.
  - destruct (writeAll_appends vs h d Hd Hvs Hm) as (h' & d' & ? & ? & ? & _). by exists h', d'.
  - destruct (readAll_encs vs Hvs hi i tl Hi Hr) as (hi' & i' & ? & ? & ? & _). by exists hi', i'.
Qed.

(** [writeUTF] of an empty string writes nothing, not even the length
    that [readUTF] reads: the reader takes the two bytes of the next value for the length, and
    at the end of the stream it throws. *)
Theorem empty_string_lost (h : heap) (d : DataOutputStream O) (hi : heap) (i : DataInputStream I) :
  DataOutputStream.dvalid h d -> DataInputStream.dvalid hi i -> drest hi i = [] ->
  writeUTF (Some []) (h, d) = (Ok tt, (h, d)) /\ outcome readUTF (hi, i) = Throw EOFException.
Proof.
  intros Hd Hi Hr. split; [done|].
  destruct (takes_map _ 2 (fun bs => bs) (fun s : list Z =>
    i16 (Z.lor (Z.shiftl (byte s 0) 8) (Z.land (byte s 1) 255))) hi i (scratch_takes hi i 2 Hi ltac:(lia)))
    as (h' & d' & _ & _ & [(Hn & _)|(_ & Hrun & _)]).
  { rewrite Hr in Hn. unfold zlen in Hn. cbn in Hn. lia. }
  unfold outcome, readUTF, readUnsignedShort.
  erewrite bind_Throw; [reflexivity|]. exact (bind_Throw _ _ _ _ _ Hrun).
Qed.
End roundtrip.

(** Over byte array streams: an output stream of 4 bytes, and input streams on given bytes. *)

#[local] Existing Instances ByteArrayOutputStream.ops ByteArrayOutputStream.spec
  ByteArrayInputStream.ops ByteArrayInputStream.spec.

Definition out_heap : heap := [replicate 4 0; replicate 8 0].
Definition out : DataOutputStream.DataOutputStream ByteArrayOutputStream.ByteArrayOutputStream :=
  DataOutputStream.mkData (ByteArrayOutputStream.mkOut 0 0) 1.

Definition in_heap (bs : list Z) : heap := [bs; replicate 8 0].
Definition in_on (bs : list Z) :
    DataInputStream.DataInputStream ByteArrayInputStream.ByteArrayInputStream :=
  DataInputStream.mkData (ByteArrayInputStream.mkIn 0 0 0 (zlen bs)) 1.

Lemma out_valid : DataOutputStream.dvalid out_heap out.
Proof.
  split; [|by intros [=]|].
  - exists (replicate 4 0). split; [reflexivity|]. cbn. unfold zlen. cbn. lia.
  - exists (replicate 8 0). split; [reflexivity|]. split; [reflexivity|].
    by repeat (constructor; [by unfold is_byte|]).
Qed.

Lemma in_valid bs : Forall is_byte bs -> zlen bs < MAX -> DataInputStream.dvalid (in_heap bs) (in_on bs).
Proof.
  intros Hb Hm. split; [|by intros [=]|].
  - exists bs. split; [reflexivity|]. split; [by apply Forall_take|]. unfold MAX in Hm. cbn.
    pose proof (zlen_nonneg bs). lia.
  - exists (replicate 8 0). by split.
Qed.

Lemma in_rest bs : DataInputStream.drest (in_heap bs) (in_on bs) = bs.
Proof.
  unfold DataInputStream.drest. cbn. unfold ByteArrayInputStream.remaining. cbn.
  rewrite Z.sub_0_r. unfold slice, zlen. rewrite Nat2Z.id. cbn. apply firstn_all.
Qed.

Definition sample : list value := [VInt (-2); VUTF [104; 105]; VBoolean true].

Lemma sample_in_range : Forall in_range sample.
Proof.
  repeat constructor; cbn; try lia. all: unfold is_byte; lia.
Qed.

Lemma sample_bytes : Forall is_byte (encs sample).
Proof. apply (bool_decide_unpack _). vm_compute. exact I. Qed.

Lemma data_roundtrip_witness :
  exists hi' i', readAll (kind_of <$> sample) (in_heap (encs sample), in_on (encs sample)) =
      (Ok sample, (hi', i')) /\
    DataInputStream.dvalid hi' i' /\ DataInputStream.drest hi' i' = [].
Proof.
  apply (data_roundtrip out_heap out (in_heap (encs sample)) (in_on (encs sample)) sample []);
    [apply out_valid|apply in_valid; [apply sample_bytes|reflexivity]|apply sample_in_range|
     reflexivity|reflexivity].
Defined.

Lemma empty_string_lost_witness :
  DataOutputStream.writeUTF (Some []) (out_heap, out) = (Ok tt, (out_heap, out)) /\
  outcome DataInputStream.readUTF (in_heap [], in_on []) = Throw EOFException.
Proof.
  apply (empty_string_lost out_heap out (in_heap []) (in_on []));
    [apply out_valid|apply in_valid; [constructor|reflexivity]|reflexivity].
Defined.

Lemma short_stream_is_eof_witness :
  exists h' d', read KInt (in_heap [1; 2; 3], in_on [1; 2; 3]) = (Throw EOFException, (h', d')) /\
    DataInputStream.dvalid h' d' /\ DataInputStream.drest h' d' = [].
Proof.
  apply (short_stream_is_eof KInt (in_heap [1; 2; 3]) (in_on [1; 2; 3])).
  - apply in_valid; [|reflexivity]. by repeat (constructor; [by unfold is_byte|]).
  - rewrite in_rest. reflexivity.
Defined.
End DataValues.
