(* ===== verification/Parcels.v ===== *)
(** * os/Parcel.cpp: parcels

    A parcel is a byte array output stream with a data output stream over it, and in input mode a
    byte array input stream over the same bytes with a data input stream over that.  The parcel
    holds both layers; they share one object, which the model keeps once, inside the outer layer.
    [mInputStream] and [mDataInputStream] are null together.  [putBinder], [getBinder], [toUri]
    and [fromUri] need [URI] and the runtime and are left out. *)

From S2P Require Import Prelude HashMaps Bundles ByteArrays Streams DataStreams.
From stdpp Require Import gmap.
Open Scope Z_scope.

Module Parcel.
Import Bytes ByteArray Streams.
#[local] Existing Instances ByteArrayOutputStream.ops ByteArrayOutputStream.spec
  ByteArrayInputStream.ops ByteArrayInputStream.spec.

Abbreviation ByteArrayOutputStream := ByteArrayOutputStream.ByteArrayOutputStream.
Abbreviation ByteArrayInputStream := ByteArrayInputStream.ByteArrayInputStream.
Abbreviation DataOutputStream := (DataOutputStream.DataOutputStream ByteArrayOutputStream).
Abbreviation DataInputStream := (DataInputStream.DataInputStream ByteArrayInputStream).

(* os/Parcel.h:749-758 Parcel *)
Record Parcel := mkParcel {
  mDataOutputStream : DataOutputStream;
  mDataInputStream : option DataInputStream;
  mExtras : option Bundle.Bundle;
}.

Definition mOutputStream (p : Parcel) : ByteArrayOutputStream :=
  DataOutputStream.mOutputStream (mDataOutputStream p).
Definition mInputStream (p : Parcel) : option ByteArrayInputStream :=
  DataInputStream.mInputStream <$> mDataInputStream p.

Definition set_out o p := mkParcel o (mDataInputStream p) (mExtras p).
Definition set_in i p := mkParcel (mDataOutputStream p) i (mExtras p).
Definition set_extras e p := mkParcel (mDataOutputStream p) (mDataInputStream p) e.

(** [mDataOutputStream->f(...)], [mDataInputStream->f(...)]. *)
Definition output {A} (m : M (heap * DataOutputStream) A) : M (heap * Parcel) A :=
  inner mDataOutputStream set_out m.
Definition input {A} (m : M (heap * DataInputStream) A) : M (heap * Parcel) A := fun s =>
  match mDataInputStream (snd s) with
  | Some i => let '(r, (h, i')) := m (fst s, i) in (r, (h, set_in (Some i') (snd s)))
  | None => (Undef, s)
  end.

(** [catch (const IOException& e) { throw RemoteException(e); }] *)
Definition isIOException (e : exn) : bool :=
  match e with IOException | EOFException => true | _ => false end.
Definition remote {S A} (m : M S A) : M S A := rethrow_as isIOException RemoteException m.

(** ** Construction and modes *)

(* os/Parcel.cpp:292-298 Parcel::asInputStream *)
Definition asInputStream : M (heap * Parcel) (option ByteArrayInputStream) :=
  i ← this mInputStream;
  match i with
  | Some _ => mret i
  | None =>
      o ← this mOutputStream;
      i ← onHeap (ByteArrayInputStream.new_range (Some (ByteArrayOutputStream.mBuffer o)) 0
        (ByteArrayOutputStream.mCount o));
      d ← onHeap (DataInputStream.new i);
      update (set_in (Some d));;
      mret (Some i)
  end.

(* os/Parcel.cpp:300-306 Parcel::asOutputStream *)
Definition asOutputStream : M (heap * Parcel) ByteArrayOutputStream :=
  i ← this mInputStream;
  match i with Some _ => update (set_in None) | None => mret tt end;;
  this mOutputStream.

(* os/Parcel.cpp:308-311 Parcel::asInput *)
Definition asInput : M (heap * Parcel) unit := asInputStream;; mret tt.

(* os/Parcel.cpp:313-316 Parcel::asOutput *)
Definition asOutput : M (heap * Parcel) unit := asOutputStream;; mret tt.

(* os/Parcel.cpp:318-322 Parcel::checkOutput *)
Definition checkOutput : M (heap * Parcel) unit :=
  i ← this mInputStream;
  match i with Some _ => throw IllegalStateException | None => mret tt end.

(* os/Parcel.cpp:324-328 Parcel::checkInput *)
Definition checkInput : M (heap * Parcel) unit :=
  i ← this mInputStream;
  match i with None => throw IllegalStateException | Some _ => mret tt end.

(** A call on an object under construction, which is given up if the call fails. *)
Definition finish {S T A} (r : result A) (t : T) : M S T :=
  match r with
  | Ok _ => mret t
  | Throw e => throw e
  | Undef => undefined
  | Diverge => diverge
  end.
Definition construct {T A} (t : T) (m : M (heap * T) A) : M heap T := fun h =>
  let '(r, (h', t')) := m (h, t) in finish r t' h'.

(** A parcel in output mode on the stream [o]. *)
Definition over (o : ByteArrayOutputStream) : M heap Parcel :=
  d ← DataOutputStream.new o; mret (mkParcel d None None).

(* os/Parcel.cpp:28-31 Parcel::Parcel() *)
Definition new : M heap Parcel := o ← ByteArrayOutputStream.new_default; over o.

(* os/Parcel.cpp:33-36 Parcel::Parcel(size) *)
Definition new_size (size : Z) : M heap Parcel := o ← ByteArrayOutputStream.new size; over o.

(* os/Parcel.cpp:38-47 Parcel::Parcel(buffer, offset, size) *)
Definition new_buffer (buffer : nat) (offset sz : Z) : M heap Parcel :=
  n ← size buffer;
  o ← (if (offset =? 0) && (sz =? n) then ByteArrayOutputStream.new_on buffer
       else
         o ← ByteArrayOutputStream.new sz;
         construct o (ByteArrayOutputStream.write_array (Some buffer) offset sz));
  p ← over o;
  construct p asInputStream.

(* os/Parcel.cpp:49-51 Parcel::obtain() *)
Definition obtain : M heap Parcel := new.

(* os/Parcel.cpp:53-55 Parcel::obtain(size) *)
Definition obtain_size (size : Z) : M heap Parcel := new_size size.

(* os/Parcel.cpp:57-62 Parcel::obtain(buffer) *)
Definition obtain_buffer (buffer : option nat) : M heap Parcel :=
  match buffer with
  | None => throw NullPointerException
  | Some b => n ← size b; new_buffer b 0 n
  end.

(* os/Parcel.cpp:64-69 Parcel::obtain(buffer, offset, size) *)
Definition obtain_range (buffer : option nat) (offset sz : Z) : M heap Parcel :=
  match buffer with
  | None => throw NullPointerException
  | Some b => new_buffer b offset sz
  end.

(* os/Parcel.h:66-68 Parcel::size *)
Definition size : M (heap * Parcel) Z := this (fun p => ByteArrayOutputStream.mCount (mOutputStream p)).

(* os/Parcel.cpp:288-290 Parcel::getByteArray *)
Definition getByteArray : M (heap * Parcel) nat :=
  this (fun p => ByteArrayOutputStream.mBuffer (mOutputStream p)).

(** ** Typed values *)

(* os/Parcel.cpp:71-78 Parcel::putBoolean *)
Definition putBoolean (value : bool) : M (heap * Parcel) unit :=
  checkOutput;; remote (output (DataOutputStream.writeBoolean value)).

(** The overload for the boxed value: a null box is a null dereference. *)
(* os/Parcel.h:80-82 Parcel::putBoolean(Boolean) *)
Definition putBooleanBox (value : option bool) : M (heap * Parcel) unit :=
  match value with Some v => putBoolean v | None => undefined end.

(* os/Parcel.cpp:80-87 Parcel::putByte *)
Definition putByte (value : Z) : M (heap * Parcel) unit :=
  checkOutput;; remote (output (DataOutputStream.writeByte value)).

(** The overload for the boxed value: a null box is a null dereference. *)
(* os/Parcel.h:94-96 Parcel::putByte(Byte) *)
Definition putByteBox (value : option Z) : M (heap * Parcel) unit :=
  match value with Some v => putByte v | None => undefined end.

(* os/Parcel.cpp:89-96 Parcel::putChar *)
Definition putChar (value : Z) : M (heap * Parcel) unit :=
  checkOutput;; remote (output (DataOutputStream.writeChar value)).

(** The overload for the boxed value: a null box is a null dereference. *)
(* os/Parcel.h:108-110 Parcel::putChar(Char) *)
Definition putCharBox (value : option Z) : M (heap * Parcel) unit :=
  match value with Some v => putChar v | None => undefined end.

(* os/Parcel.cpp:98-105 Parcel::putShort *)
Definition putShort (value : Z) : M (heap * Parcel) unit :=
  checkOutput;; remote (output (DataOutputStream.writeShort value)).

(** The overload for the boxed value: a null box is a null dereference. *)
(* os/Parcel.h:122-124 Parcel::putShort(Short) *)
Definition putShortBox (value : option Z) : M (heap * Parcel) unit :=
  match value with Some v => putShort v | None => undefined end.

(* os/Parcel.cpp:107-114 Parcel::putInt *)
Definition putInt (value : Z) : M (heap * Parcel) unit :=
  checkOutput;; remote (output (DataOutputStream.writeInt value)).

(** The overload for the boxed value: a null box is a null dereference. *)
(* os/Parcel.h:136-138 Parcel::putInt(Integer) *)
Definition putIntBox (value : option Z) : M (heap * Parcel) unit :=
  match value with Some v => putInt v | None => undefined end.

(* os/Parcel.cpp:116-123 Parcel::putLong *)
Definition putLong (value : Z) : M (heap * Parcel) unit :=
  checkOutput;; remote (output (DataOutputStream.writeLong value)).

(** The overload for the boxed value: a null box is a null dereference. *)
(* os/Parcel.h:150-152 Parcel::putLong(Long) *)
Definition putLongBox (value : option Z) : M (heap * Parcel) unit :=
  match value with Some v => putLong v | None => undefined end.

(* os/Parcel.cpp:125-132 Parcel::putFloat *)
Definition putFloat (value : Z) : M (heap * Parcel) unit :=
  checkOutput;; remote (output (DataOutputStream.writeFloat value)).

(** The overload for the boxed value: a null box is a null dereference. *)
(* os/Parcel.h:164-166 Parcel::putFloat(Float) *)
Definition putFloatBox (value : option Z) : M (heap * Parcel) unit :=
  match value with Some v => putFloat v | None => undefined end.

(* os/Parcel.cpp:134-141 Parcel::putDouble *)
Definition putDouble (value : Z) : M (heap * Parcel) unit :=
  checkOutput;; remote (output (DataOutputStream.writeDouble value)).

(** The overload for the boxed value: a null box is a null dereference. *)
(* os/Parcel.h:178-180 Parcel::putDouble(Double) *)
Definition putDoubleBox (value : option Z) : M (heap * Parcel) unit :=
  match value with Some v => putDouble v | None => undefined end.

(* os/Parcel.cpp:143-150 Parcel::putString *)
Definition putString (value : option (list Z)) : M (heap * Parcel) unit :=
  checkOutput;; remote (output (DataOutputStream.writeUTF value)).

(* os/Parcel.cpp:152-155 Parcel::putBytes(buffer) *)
Definition putBytes (buffer : option nat) : M (heap * Parcel) unit :=
  checkOutput;; output (DataOutputStream.stream (ByteArrayOutputStream.write buffer)).

(* os/Parcel.cpp:157-160 Parcel::putBytes(buffer, offset, size) *)
Definition putBytes_range (buffer : option nat) (offset size : Z) : M (heap * Parcel) unit :=
  checkOutput;;
  output (DataOutputStream.stream (ByteArrayOutputStream.write_array buffer offset size)).

(* os/Parcel.cpp:182-189 Parcel::getBoolean *)
Definition getBoolean : M (heap * Parcel) bool :=
  checkInput;; remote (input DataInputStream.readBoolean).

(* os/Parcel.cpp:191-198 Parcel::getByte *)
Definition getByte : M (heap * Parcel) Z :=
  checkInput;; remote (input DataInputStream.readByte).

(* os/Parcel.cpp:200-207 Parcel::getChar *)
Definition getChar : M (heap * Parcel) Z :=
  checkInput;; remote (input DataInputStream.readChar).

(** The result is unsigned. *)
(* os/Parcel.cpp:209-216 Parcel::getShort *)
Definition getShort : M (heap * Parcel) Z :=
  checkInput;; v ← remote (input DataInputStream.readShort); mret (u16 v).

(* os/Parcel.cpp:218-225 Parcel::getInt *)
Definition getInt : M (heap * Parcel) Z :=
  checkInput;; remote (input DataInputStream.readInt).

(** The result is unsigned. *)
(* os/Parcel.cpp:227-234 Parcel::getLong *)
Definition getLong : M (heap * Parcel) Z :=
  checkInput;; v ← remote (input DataInputStream.readLong); mret (u64 v).

(* os/Parcel.cpp:236-243 Parcel::getFloat *)
Definition getFloat : M (heap * Parcel) Z :=
  checkInput;; remote (input DataInputStream.readFloat).

(* os/Parcel.cpp:245-252 Parcel::getDouble *)
Definition getDouble : M (heap * Parcel) Z :=
  checkInput;; remote (input DataInputStream.readDouble).

(* os/Parcel.cpp:254-261 Parcel::getString *)
Definition getString : M (heap * Parcel) (list Z) :=
  checkInput;; remote (input DataInputStream.readUTF).

(* os/Parcel.cpp:263-268 Parcel::getBytes() *)
Definition getBytes : M (heap * Parcel) nat :=
  checkInput;;
  n ← input (DataInputStream.stream ByteArrayInputStream.available);
  buffer ← onHeap (ByteArray.new n);
  input (DataInputStream.stream (ByteArrayInputStream.read (Some buffer)));;
  mret buffer.

(* os/Parcel.cpp:270-276 Parcel::getBytes(size) *)
Definition getBytes_size (size : Z) : M (heap * Parcel) nat :=
  checkInput;;
  n ← input (DataInputStream.stream ByteArrayInputStream.available);
  let size := Z.min n size in
  buffer ← onHeap (ByteArray.new size);
  input (DataInputStream.stream (ByteArrayInputStream.read_array (Some buffer) 0 size));;
  mret buffer.

(** ** Extras *)

Section extras.
Context `{!IterationOrder string (option Variant.Variant)}.

(** [mExtras->f(...)] *)
Definition onExtras {A} (m : M Bundle.Bundle A) : M (heap * Parcel) A := fun s =>
  match mExtras (snd s) with
  | Some b => let '(r, b') := m b in (r, (fst s, set_extras (Some b') (snd s)))
  | None => (Undef, s)
  end.

(** [if (mExtras == nullptr) mExtras = new Bundle(); mExtras->f(...)] *)
Definition withExtras (m : M Bundle.Bundle unit) : M (heap * Parcel) unit :=
  e ← this mExtras;
  match e with Some _ => mret tt | None => update (set_extras (Some Bundle.new)) end;;
  onExtras m.

(** [mExtras == nullptr ? defaultValue : mExtras->f(...)] *)
Definition ofExtras {A} (defaultValue : A) (m : M Bundle.Bundle A) : M (heap * Parcel) A :=
  e ← this mExtras;
  match e with
  | None => mret defaultValue
  | Some _ => onExtras m
  end.

(* os/Parcel.cpp:344-350 Parcel::putExtra *)
Definition putBooleanExtra (name : option string) (value : bool) : M (heap * Parcel) unit :=
  withExtras (Bundle.putBoolean name value).

(* os/Parcel.h:286-289 Parcel::getBooleanExtra *)
Definition getBooleanExtra (name : option string) (defaultValue : bool) : M (heap * Parcel) bool :=
  ofExtras defaultValue (Bundle.getBoolean name defaultValue).

(* os/Parcel.cpp:352-358 Parcel::putExtra *)
Definition putByteExtra (name : option string) (value : Z) : M (heap * Parcel) unit :=
  withExtras (Bundle.putByte name value).

(* os/Parcel.h:306-309 Parcel::getByteExtra *)
Definition getByteExtra (name : option string) (defaultValue : Z) : M (heap * Parcel) Z :=
  ofExtras defaultValue (Bundle.getByte name defaultValue).

(* os/Parcel.cpp:360-366 Parcel::putExtra *)
Definition putCharExtra (name : option string) (value : Z) : M (heap * Parcel) unit :=
  withExtras (Bundle.putChar name value).

(* os/Parcel.h:346-349 Parcel::getCharExtra *)
Definition getCharExtra (name : option string) (defaultValue : Z) : M (heap * Parcel) Z :=
  ofExtras defaultValue (Bundle.getChar name defaultValue).

(* os/Parcel.cpp:368-374 Parcel::putExtra *)
Definition putShortExtra (name : option string) (value : Z) : M (heap * Parcel) unit :=
  withExtras (Bundle.putShort name value).

(** [defaultValue] and the result are unsigned, the bundle's are signed. *)
(* os/Parcel.h:326-329 Parcel::getShortExtra *)
Definition getShortExtra (name : option string) (defaultValue : Z) : M (heap * Parcel) Z :=
  ofExtras defaultValue (v ← Bundle.getShort name (i16 defaultValue); mret (u16 v)).

(* os/Parcel.cpp:376-382 Parcel::putExtra *)
Definition putIntExtra (name : option string) (value : Z) : M (heap * Parcel) unit :=
  withExtras (Bundle.putInt name value).

(* os/Parcel.h:366-369 Parcel::getIntExtra *)
Definition getIntExtra (name : option string) (defaultValue : Z) : M (heap * Parcel) Z :=
  ofExtras defaultValue (Bundle.getInt name defaultValue).

(* os/Parcel.cpp:384-390 Parcel::putExtra *)
Definition putLongExtra (name : option string) (value : Z) : M (heap * Parcel) unit :=
  withExtras (Bundle.putLong name value).

(* os/Parcel.h:386-389 Parcel::getLongExtra *)
Definition getLongExtra (name : option string) (defaultValue : Z) : M (heap * Parcel) Z :=
  ofExtras defaultValue (Bundle.getLong name defaultValue).

(* os/Parcel.cpp:392-398 Parcel::putExtra *)
Definition putFloatExtra (name : option string) (value : Z) : M (heap * Parcel) unit :=
  withExtras (Bundle.putFloat name value).

(* os/Parcel.h:406-409 Parcel::getFloatExtra *)
Definition getFloatExtra (name : option string) (defaultValue : Z) : M (heap * Parcel) Z :=
  ofExtras defaultValue (Bundle.getFloat name defaultValue).

(* os/Parcel.cpp:400-406 Parcel::putExtra *)
Definition putDoubleExtra (name : option string) (value : Z) : M (heap * Parcel) unit :=
  withExtras (Bundle.putDouble name value).

(* os/Parcel.h:426-429 Parcel::getDoubleExtra *)
Definition getDoubleExtra (name : option string) (defaultValue : Z) : M (heap * Parcel) Z :=
  ofExtras defaultValue (Bundle.getDouble name defaultValue).

(* os/Parcel.cpp:408-414 Parcel::putExtra *)
Definition putStringExtra (name : option string) (value : option string) : M (heap * Parcel) unit :=
  withExtras (Bundle.putString name value).

(* os/Parcel.h:444-446 Parcel::getStringExtra *)
Definition getStringExtra (name : option string) : M (heap * Parcel) (option string) :=
  ofExtras None (Bundle.getString name).

(* os/Parcel.cpp:416-422 Parcel::putIntegerArrayListExtra *)
Definition putIntegerArrayListExtra (name : option string) (value : option nat) : M (heap * Parcel) unit :=
  withExtras (Bundle.putIntegerArrayList name value).

(* os/Parcel.h:461-463 Parcel::getIntegerArrayListExtra *)
Definition getIntegerArrayListExtra (name : option string) : M (heap * Parcel) (option nat) :=
  ofExtras None (Bundle.getIntegerArrayList name).

(* os/Parcel.cpp:424-430 Parcel::putStringArrayListExtra *)
Definition putStringArrayListExtra (name : option string) (value : option nat) : M (heap * Parcel) unit :=
  withExtras (Bundle.putStringArrayList name value).

(* os/Parcel.h:478-480 Parcel::getStringArrayListExtra *)
Definition getStringArrayListExtra (name : option string) : M (heap * Parcel) (option nat) :=
  ofExtras None (Bundle.getStringArrayList name).

(* os/Parcel.cpp:432-438 Parcel::putExtra *)
Definition putBundleExtra (name : option string) (value : option nat) : M (heap * Parcel) unit :=
  withExtras (Bundle.putBundle name value).

(* os/Parcel.h:495-497 Parcel::getBundleExtra *)
Definition getBundleExtra (name : option string) : M (heap * Parcel) (option nat) :=
  ofExtras None (Bundle.getBundle name).

(* os/Parcel.h:267-269 Parcel::hasExtra *)
Definition hasExtra (name : option string) : M (heap * Parcel) bool :=
  ofExtras false (Bundle.containsKey name).

(** The result of [new Bundle(other)]: the constructor of the copy may fail. *)
Definition copied (other : Bundle.Bundle) : M (heap * Parcel) Bundle.Bundle :=
  let '(r, b) := Bundle.copy other in finish r b.

(* os/Parcel.h:505-509 Parcel::getExtras *)
Definition getExtras : M (heap * Parcel) (option Bundle.Bundle) :=
  e ← this mExtras;
  match e with
  | Some b => b' ← copied b; mret (Some b')
  | None => mret None
  end.

(* os/Parcel.cpp:440-446 Parcel::putExtras *)
Definition putExtras (extras : option Bundle.Bundle) : M (heap * Parcel) unit :=
  withExtras (match extras with Some b => Bundle.putAll b | None => undefined end).

(* os/Parcel.h:734-737 Parcel::replaceExtras *)
Definition replaceExtras (extras : option Bundle.Bundle) : M (heap * Parcel) unit :=
  match extras with
  | Some b => b' ← copied b; update (set_extras (Some b'))
  | None => update (set_extras None)
  end.

(* os/Parcel.cpp:448-455 Parcel::removeExtra *)
Definition removeExtra (name : option string) : M (heap * Parcel) unit :=
  e ← this mExtras;
  match e with
  | None => mret tt
  | Some _ =>
      onExtras (Bundle.remove name);;
      n ← onExtras Bundle.size;
      if bool_decide (n = 0%nat) then update (set_extras None) else mret tt
  end.
End extras.

(** ** Specification: what was written, what is left to read *)

Import DataValues.

Definition put (v : value) : M (heap * Parcel) unit :=
  match v with
  | VBoolean b => putBoolean b
  | VByte v => putByte v
  | VChar v => putChar v
  | VShort v => putShort v
  | VInt v => putInt v
  | VLong v => putLong v
  | VFloat bits => putFloat bits
  | VDouble bits => putDouble bits
  | VUTF bs => putString (Some bs)
  end.

Definition get (k : kind) : M (heap * Parcel) value :=
  match k with
  | KBoolean => v ← getBoolean; mret (VBoolean v)
  | KByte => v ← getByte; mret (VByte v)
  | KChar => v ← getChar; mret (VChar v)
  | KShort => v ← getShort; mret (VShort v)
  | KInt => v ← getInt; mret (VInt v)
  | KLong => v ← getLong; mret (VLong v)
  | KFloat => v ← getFloat; mret (VFloat v)
  | KDouble => v ← getDouble; mret (VDouble v)
  | KUTF => v ← getString; mret (VUTF v)
  end.

Fixpoint putEach (vs : list value) : M (heap * Parcel) unit :=
  match vs with
  | [] => mret tt
  | v :: vs => put v;; putEach vs
  end.

Fixpoint getEach (ks : list kind) : M (heap * Parcel) (list value) :=
  match ks with
  | [] => mret []
  | k :: ks => v ← get k; vs ← getEach ks; mret (v :: vs)
  end.

(** [getShort] and [getLong] return the value as unsigned. *)
Definition received (v : value) : value :=
  match v with
  | VShort v => VShort (u16 v)
  | VLong v => VLong (u64 v)
  | v => v
  end.

(** The outcome a caller sees: I/O exceptions have become [RemoteException]. *)
Definition seen {A B} (f : A -> B) (r : result A) : result B :=
  match r with
  | Ok v => Ok (f v)
  | Throw e => Throw (if isIOException e then RemoteException else e)
  | Undef => Undef
  | Diverge => Diverge
  end.

Definition rmap {A B} (f : A -> B) (r : result A) : result B :=
  match r with
  | Ok v => Ok (f v)
  | Throw e => Throw e
  | Undef => Undef
  | Diverge => Diverge
  end.

Lemma bind_mret {S A B} (m : M S A) (f : A -> B) s r s' :
  m s = (r, s') -> (v ← m; mret (f v)) s = (rmap f r, s').
Proof. intros Hm. unfold mbind, M_bind. rewrite Hm. by destruct r. Qed.

Lemma remote_eq {S A} (m : M S A) s r s' : m s = (r, s') -> remote m s = (seen id r, s').
Proof.
  intros Hm. unfold remote, rethrow_as. rewrite Hm. destruct r as [|e| |]; cbn; try done.
  by destruct (isIOException e).
Qed.

Lemma input_eq {A} (m : M (heap * DataInputStream) A) h p i r h' i' :
  mDataInputStream p = Some i -> m (h, i) = (r, (h', i')) ->
  input m (h, p) = (r, (h', set_in (Some i') p)).
Proof. intros Hi Hm. unfold input. cbn. by rewrite Hi, Hm. Qed.

Lemma checkOutput_eq h p : mDataInputStream p = None -> checkOutput (h, p) = (Ok tt, (h, p)).
Proof. intros Hi. unfold checkOutput, this. rewrite bind_gets. cbn. unfold mInputStream. by rewrite Hi. Qed.

Lemma checkInput_eq h p i : mDataInputStream p = Some i -> checkInput (h, p) = (Ok tt, (h, p)).
Proof. intros Hi. unfold checkInput, this. rewrite bind_gets. cbn. unfold mInputStream. by rewrite Hi. Qed.

Lemma put_run v h p r h' d :
  mDataInputStream p = None -> DataValues.write v (h, mDataOutputStream p) = (r, (h', d)) ->
  put v (h, p) = (seen id r, (h', set_out d p)).
Proof.
  intros Hi Hrun. destruct v; cbn [put write] in *;
    refine (eq_trans (bind_Ok _ _ _ _ _ (checkOutput_eq h p Hi)) (remote_eq _ _ _ _ _));
    exact (inner_eq _ _ _ _ _ _ _ _ Hrun).
Qed.

Lemma get_run k h p i r h' i' :
  mDataInputStream p = Some i -> DataValues.read k (h, i) = (r, (h', i')) ->
  get k (h, p) = (seen received r, (h', set_in (Some i') p)).
Proof.
  intros Hi Hrun. pose proof (checkInput_eq h p i Hi) as Hc.
  assert (forall A B (m : M (heap * DataInputStream) A) (f : A -> value) (m' : M (heap * Parcel) B)
    (g : A -> B) (f' : B -> value),
    (forall v, f' (g v) = received (f v)) ->
    (forall r0 s0, remote (input m) (h, p) = (r0, s0) -> m' (h, p) = (rmap g r0, s0)) ->
    (v ← m; mret (f v)) (h, i) = (r, (h', i')) ->
    (v ← (checkInput;; m'); mret (f' v)) (h, p) = (seen received r, (h', set_in (Some i') p))) as Hgen.
  { intros A B m f m' g f' Hf Hm' Hm. destruct (m (h, i)) as [r0 [h1 i1]] eqn:E.
    rewrite (bind_mret m f _ _ _ E) in Hm. injection Hm as <- <- <-.
    pose proof (Hm' _ _ (remote_eq _ _ _ _ (input_eq _ _ _ _ _ _ _ Hi E))) as Hrun'.
    erewrite bind_mret; [|refine (eq_trans (bind_Ok _ _ _ _ _ Hc) Hrun')].
    f_equal. destruct r0; cbn; try done. by rewrite Hf. }
  assert (forall A (r0 : result A), rmap (fun v => v) r0 = r0) as Hid by by intros A [].
  destruct k; cbn [get DataValues.read] in *.
  all: first
    [ eapply (Hgen _ _ _ _ _ (fun v => v)); [| |exact Hrun]; [done|intros ?? ->; by rewrite Hid]
    | eapply Hgen; [| |exact Hrun]; [|intros ?? Hr; by apply bind_mret]; done ].
Qed.

Definition written (h : heap) (p : Parcel) : list Z :=
  DataOutputStream.dsink h (mDataOutputStream p).

(** The arrays of the output side, which the input side must not write to. *)
Definition out_arrays (p : Parcel) (b : nat) : Prop :=
  b = ByteArrayOutputStream.mBuffer (mOutputStream p) \/
  b = DataOutputStream.mScratchpad (mDataOutputStream p).

Record reading (h : heap) (p : Parcel) (i : DataInputStream) : Prop := {
  rd_valid : DataInputStream.dvalid h i;
  rd_apart : forall b, out_arrays p b -> ~ DataInputStream.dwrites i b;
  rd_suffix : DataInputStream.drest h i `suffix_of` written h p;
}.

Record valid (h : heap) (p : Parcel) : Prop := {
  pv_out : DataOutputStream.dvalid h (mDataOutputStream p);
  pv_bytes : Forall is_byte (written h p);
  pv_in : forall i, mDataInputStream p = Some i -> reading h p i;
}.

Definition output_mode (p : Parcel) : Prop := mDataInputStream p = None.

(** The unread bytes, in input mode. *)
Definition unread (h : heap) (p : Parcel) : option (list Z) :=
  DataInputStream.drest h <$> mDataInputStream p.

(** The arrays of the output side are as they were. *)
Lemma out_frame h h' p :
  DataOutputStream.dvalid h (mDataOutputStream p) ->
  (forall b bs, out_arrays p b -> h !! b = Some bs -> h' !! b = Some bs) ->
  DataOutputStream.dvalid h' (mDataOutputStream p) /\ written h' p = written h p.
Proof.
  intros [Hv Ha (pad & Hp & Hz & Hb)] Hk.
  destruct (ovalid_frame h h' (DataOutputStream.mOutputStream (mDataOutputStream p)) Hv) as [Hv' Hs'].
  { intros b bs Ho Hl. apply Hk; [|done]. by left. }
  split; [|exact Hs']. split; [done|done|]. exists pad. split; [|done]. apply Hk; [by right|done].
Qed.

Lemma out_alloc h p b :
  DataOutputStream.dvalid h (mDataOutputStream p) -> out_arrays p b -> exists bs, h !! b = Some bs.
Proof.
  intros [(bs & Hb & _) _ (pad & Hp & _)] [->| ->]; [by exists bs|by exists pad].
Qed.

Lemma out_frame_app h p bs :
  DataOutputStream.dvalid h (mDataOutputStream p) ->
  DataOutputStream.dvalid (h ++ [bs]) (mDataOutputStream p) /\ written (h ++ [bs]) p = written h p.
Proof. intros Hd. apply out_frame; [done|]. intros b xs _ Hl. by apply lookup_app_l_Some. Qed.

Lemma value_bytes v : in_range v -> Forall is_byte (enc v).
Proof.
  destruct v as [b|v|v|v|v|v|v|v|bs]; cbn [in_range enc]; intros Hv; try apply be_split_bytes.
  - constructor; [by destruct b|done].
  - by constructor.
  - constructor; [apply u8_range|done].
  - apply Forall_app. split; [apply be_split_bytes|apply Hv].
Qed.

Lemma put_ok v h p :
  valid h p -> output_mode p -> in_range v -> zlen (written h p) + zlen (enc v) < MAX ->
  exists h' p', put v (h, p) = (Ok tt, (h', p')) /\ valid h' p' /\ output_mode p' /\
    written h' p' = written h p ++ enc v /\ mExtras p' = mExtras p.
Proof.
  intros [Ho Hb Hi] Hm Hv Hz.
  destruct (write_appends v h (mDataOutputStream p) Ho Hv Hz) as (h' & d & Hrun & Hd & Hs & _).
  exists h', (set_out d p). split; [by rewrite (put_run _ _ _ _ _ _ Hm Hrun)|].
  split; [|done]. split; [done| |].
  - change (written h' (set_out d p)) with (DataOutputStream.dsink h' d). rewrite Hs.
    apply Forall_app. split; [done|by apply value_bytes].
  - intros i Hi'. unfold output_mode in Hm. cbn in Hi'. congruence.
Qed.

Lemma putEach_ok vs : forall h p,
  valid h p -> output_mode p -> Forall in_range vs -> zlen (written h p) + zlen (encs vs) < MAX ->
  exists h' p', putEach vs (h, p) = (Ok tt, (h', p')) /\ valid h' p' /\ output_mode p' /\
    written h' p' = written h p ++ encs vs /\ mExtras p' = mExtras p.
Proof.
  induction vs as [|v vs IH]; intros h p Hp Hm Hv Hz.
  { exists h, p. split; [done|]. split; [done|]. split; [done|]. by rewrite app_nil_r. }
  apply Forall_cons in Hv as [Hv Hvs]. rewrite encs_cons, zlen_app in *. pose proof (zlen_nonneg (encs vs)).
  destruct (put_ok v h p Hp Hm Hv) as (h1 & p1 & Hrun1 & Hp1 & Hm1 & Hw1 & He1); [lia|].
  destruct (IH h1 p1 Hp1 Hm1 Hvs) as (h2 & p2 & Hrun2 & Hp2 & Hm2 & Hw2 & He2).
  { rewrite Hw1, zlen_app. lia. }
  exists h2, p2. cbn [putEach]. rewrite (bind_Ok _ _ _ _ _ Hrun1). split; [done|].
  split; [done|]. split; [done|]. split; [by rewrite Hw2, Hw1, app_assoc|congruence].
Qed.

Lemma asInput_ok h p :
  valid h p -> output_mode p ->
  exists h' p', asInput (h, p) = (Ok tt, (h', p')) /\ valid h' p' /\
    unread h' p' = Some (written h p) /\ written h' p' = written h p /\ mExtras p' = mExtras p.
Proof.
  intros [Ho Hb _] Hm. pose proof (DataOutputStream.dv_stream _ _ Ho) as (bs & Hbuf & Hc & Hsz).
  set (o := mOutputStream p). change (0 <= ByteArrayOutputStream.mCount o <= zlen bs) in Hc.
  set (h1 := (h ++ [replicate 8 0] : heap)).
  set (i := ByteArrayInputStream.mkIn (ByteArrayOutputStream.mBuffer o) 0 0 (ByteArrayOutputStream.mCount o)).
  set (d := DataInputStream.mkData i (length h)).
  assert (forall b xs, h !! b = Some xs -> h1 !! b = Some xs) as Hk by
    (intros; by apply lookup_app_l_Some).
  destruct (out_frame_app h p (replicate 8 0) Ho) as [Ho1 Hw1]. fold h1 in Ho1, Hw1.
  assert (DataInputStream.drest h1 d = written h p) as Hr.
  { etrans; [exact (ByteArrayInputStream.remaining_eq h1 i bs (Hk _ _ Hbuf))|]. cbn.
    rewrite Z.sub_0_r. symmetry. exact (ByteArrayOutputStream.contents_eq h o bs Hbuf). }
  exists h1, (set_in (Some d) p). split; [|split; [|split; [cbn; by f_equal|split; [exact Hw1|done]]]].
  - unfold asInput. refine (bind_Ok _ _ _ (Some i) _ _).
    unfold asInputStream, this. rewrite bind_gets. cbn [snd]. unfold mInputStream at 1. rewrite Hm. cbn [fmap option_fmap option_map].
    rewrite bind_gets. cbn [snd]. fold o.
    erewrite (bind_Ok (onHeap (ByteArrayInputStream.new_range _ _ _))); [|apply onHeap_read; cbn [fst];
      unfold ByteArrayInputStream.new_range; by rewrite (bind_Ok _ _ _ _ _ (size_eq _ _ _ Hbuf))].
    cbn beta. change (0 + ?n) with n. rewrite u64_id by lia.
    replace (zlen bs <? ByteArrayOutputStream.mCount o) with false
      by (symmetry; apply Z.ltb_ge; lia).
    fold i. by erewrite (bind_Ok (onHeap (DataInputStream.new i))); [|apply onHeap_eq; reflexivity].
  - split; [exact Ho1|by rewrite <- Hw1 in Hb|]. intros ? [= <-]. split.
    + split.
      * exists bs. split; [by apply Hk|]. split; [|cbn; fold o; lia].
        assert (written h p = take (Z.to_nat (ByteArrayOutputStream.mCount o)) bs) as E
          by exact (ByteArrayOutputStream.contents_eq h o bs Hbuf).
        change (Forall is_byte (take (Z.to_nat (ByteArrayOutputStream.mCount o)) bs)). by rewrite <- E.
      * intros E. change (length h = ByteArrayOutputStream.mBuffer o) in E.
        apply lookup_lt_Some in Hbuf. change (ByteArrayOutputStream.mBuffer o < length h)%nat in Hbuf. lia.
      * exists (replicate 8 0). split; [|done]. by apply list_lookup_middle.
    + intros b Hob [Hs|[]]. cbn in Hs. destruct (out_alloc h p b Ho Hob) as [xs Hl].
      apply lookup_lt_Some in Hl. lia.
    + rewrite Hr. change (written h1 (set_in (Some d) p)) with (written h1 p). by rewrite Hw1.
Qed.

Lemma unread_inv h p us :
  unread h p = Some us -> exists i, mDataInputStream p = Some i /\ DataInputStream.drest h i = us.
Proof. unfold unread. destruct (mDataInputStream p) as [i|]; [|done]. intros [= <-]. by exists i. Qed.

(** A read leaves the output side as it was. *)
Lemma valid_read h p i h' i' :
  valid h p -> mDataInputStream p = Some i -> DataInputStream.dvalid h' i' ->
  preserves (DataInputStream.dwrites i) (DataInputStream.dwrites i') h h' ->
  DataInputStream.drest h' i' `suffix_of` DataInputStream.drest h i ->
  valid h' (set_in (Some i') p) /\ written h' (set_in (Some i') p) = written h p.
Proof.
  intros [Ho Hb Hin] Hi Hd Hpr Hsuf. destruct (Hin i Hi) as [_ Hap Hsuf0].
  destruct (out_frame h h' p Ho) as [Ho' Hw].
  { intros b bs Hob Hl. by destruct (Hpr b bs (Hap b Hob) Hl). }
  split; [|exact Hw]. split; [exact Ho'|by rewrite <- Hw in Hb|]. intros ? [= <-]. split; [done| |].
  - intros b Hob. destruct (out_alloc h p b Ho Hob) as [bs Hl]. by destruct (Hpr b bs (Hap b Hob) Hl).
  - etrans; [exact Hsuf|]. change (written h' (set_in (Some i') p)) with (written h' p). by rewrite Hw.
Qed.

Lemma get_ok v tl h p :
  valid h p -> in_range v -> unread h p = Some (enc v ++ tl) ->
  exists h' p', get (kind_of v) (h, p) = (Ok (received v), (h', p')) /\ valid h' p' /\
    unread h' p' = Some tl /\ written h' p' = written h p /\ mExtras p' = mExtras p.
Proof.
  intros Hp Hv Hu. destruct (unread_inv _ _ _ Hu) as (i & Hi & Hr).
  destruct (read_enc v Hv h i tl (rd_valid _ _ _ (pv_in _ _ Hp i Hi)) Hr)
    as (h' & i' & Hrun & Hd' & Hr' & Hpr).
  destruct (valid_read h p i h' i' Hp Hi Hd' Hpr) as [Hp' Hw'].
  { rewrite Hr, Hr'. by exists (enc v). }
  exists h', (set_in (Some i') p). split; [by rewrite (get_run _ _ _ _ _ _ _ Hi Hrun)|].
  split; [done|]. split; [by cbn; f_equal|done].
Qed.

Lemma getEach_ok vs : forall tl h p,
  valid h p -> Forall in_range vs -> unread h p = Some (encs vs ++ tl) ->
  exists h' p', getEach (kind_of <$> vs) (h, p) = (Ok (received <$> vs), (h', p')) /\ valid h' p' /\
    unread h' p' = Some tl /\ written h' p' = written h p /\ mExtras p' = mExtras p.
Proof.
  induction vs as [|v vs IH]; intros tl h p Hp Hv Hu; [by exists h, p|].
  apply Forall_cons in Hv as [Hv Hvs]. rewrite encs_cons, <- app_assoc in Hu.
  destruct (get_ok v _ h p Hp Hv Hu) as (h1 & p1 & Hrun1 & Hp1 & Hu1 & Hw1 & He1).
  destruct (IH tl h1 p1 Hp1 Hvs Hu1) as (h2 & p2 & Hrun2 & Hp2 & Hu2 & Hw2 & He2).
  exists h2, p2. rewrite !fmap_cons. cbn [getEach]. rewrite (bind_Ok _ _ _ _ _ Hrun1).
  cbn beta. rewrite (bind_Ok _ _ _ _ _ Hrun2). split; [done|]. split; [done|]. split; [done|].
  split; congruence.
Qed.

Lemma asOutput_ok h p :
  valid h p ->
  exists p', asOutput (h, p) = (Ok tt, (h, p')) /\ valid h p' /\ output_mode p' /\
    written h p' = written h p /\ mExtras p' = mExtras p.
Proof.
  intros [Ho Hb Hi]. exists (set_in None p). split; [|split; [by split; [done|done|intros ? [=]]|done]].
  unfold asOutput, asOutputStream, this. unfold mInputStream.
  destruct p as [o [i|] e]; reflexivity.
Qed.

Lemma encs_app vs ws : encs (vs ++ ws) = encs vs ++ encs ws.
Proof. apply bind_app. Qed.

(** values of any types put into an empty parcel are got back in order after
    [asInput]; going back to output mode, even with values left unread, keeps what was written,
    appends the next values behind it, and the next [asInput] reads from the start again. *)
Theorem parcel_rewind h p vs us ws :
  valid h p -> output_mode p -> written h p = [] -> Forall in_range (vs ++ us ++ ws) ->
  zlen (encs (vs ++ us ++ ws)) < MAX ->
  outcome
    (putEach (vs ++ us);; asInput;; first ← getEach (kind_of <$> vs); asOutput;;
     putEach ws;; asInput;; second ← getEach (kind_of <$> (vs ++ us ++ ws)); mret (first, second)) (h, p) =
  Ok (received <$> vs, received <$> (vs ++ us ++ ws)).
Proof.
  intros Hp Hm Hw Hall Hz. rewrite app_assoc in *. rewrite encs_app, zlen_app in Hz.
  apply Forall_app in Hall as [Hvu Hws]. pose proof (zlen_nonneg (encs ws)).
  pose proof Hvu as [Hvs _]%Forall_app.
  destruct (putEach_ok (vs ++ us) h p Hp Hm Hvu) as (h1 & p1 & Hrun1 & Hp1 & Hm1 & Hw1 & _).
  { rewrite Hw. unfold zlen at 1. cbn. lia. }
  rewrite Hw, app_nil_l in Hw1.
  destruct (asInput_ok h1 p1 Hp1 Hm1) as (h2 & p2 & Hrun2 & Hp2 & Hu2 & Hw2 & _).
  rewrite Hw1, encs_app in Hu2.
  destruct (getEach_ok vs _ h2 p2 Hp2 Hvs Hu2) as (h3 & p3 & Hrun3 & Hp3 & _ & Hw3 & _).
  destruct (asOutput_ok h3 p3 Hp3) as (p4 & Hrun4 & Hp4 & Hm4 & Hw4 & _).
  assert (written h3 p4 = encs (vs ++ us)) as Hw4' by congruence.
  destruct (putEach_ok ws h3 p4 Hp4 Hm4 Hws) as (h5 & p5 & Hrun5 & Hp5 & Hm5 & Hw5 & _);
    [by rewrite Hw4'|].
  destruct (asInput_ok h5 p5 Hp5 Hm5) as (h6 & p6 & Hrun6 & Hp6 & Hu6 & _).
  rewrite Hw5, Hw4', <- encs_app, <- (app_nil_r (encs _)) in Hu6.
  destruct (getEach_ok _ [] h6 p6 Hp6 (Forall_app_2 _ _ _ Hvu Hws) Hu6) as (h7 & p7 & Hrun7 & _).
  unfold outcome. mstep Hrun1. mstep Hrun2. mstep Hrun3. mstep Hrun4. mstep Hrun5. mstep Hrun6.
  by mstep Hrun7.
Qed.

(** a parcel is either written or read: in input mode every put, and in output
    mode every get, throws [IllegalStateException] and changes nothing. *)
Theorem parcel_modes h p :
  (mDataInputStream p <> None -> forall v b off n,
    put v (h, p) = (Throw IllegalStateException, (h, p)) /\
    putBytes b (h, p) = (Throw IllegalStateException, (h, p)) /\
    putBytes_range b off n (h, p) = (Throw IllegalStateException, (h, p))) /\
  (output_mode p -> forall k n,
    get k (h, p) = (Throw IllegalStateException, (h, p)) /\
    getBytes (h, p) = (Throw IllegalStateException, (h, p)) /\
    getBytes_size n (h, p) = (Throw IllegalStateException, (h, p))).
Proof.
  split.
  - intros Hi v b off n. destruct p as [o [i|] e]; [|done]. split; [|done]. by destruct v.
  - intros Hi k n. unfold output_mode in Hi. destruct p as [o i e]; cbn in Hi; subst i.
    split; [|done]. by destruct k.
Qed.

(** a get with fewer bytes left than its type has throws [RemoteException],
    never another exception and never a value; the parcel stays usable, with nothing left. *)
Theorem parcel_underflow k h p us :
  valid h p -> unread h p = Some us -> zlen us < width k ->
  exists h' p', get k (h, p) = (Throw RemoteException, (h', p')) /\ valid h' p' /\
    unread h' p' = Some [] /\ written h' p' = written h p.
Proof.
  intros Hp Hu Hk. destruct (unread_inv _ _ _ Hu) as (i & Hi & Hr).
  destruct (read_underflows k h i (rd_valid _ _ _ (pv_in _ _ Hp i Hi))) as (h' & i' & Hrun & Hd' & Hr' & Hpr);
    [by rewrite Hr|].
  destruct (valid_read h p i h' i' Hp Hi Hd' Hpr) as [Hp' Hw'].
  { rewrite Hr'. apply suffix_nil. }
  exists h', (set_in (Some i') p). split; [by rewrite (get_run _ _ _ _ _ _ _ Hi Hrun)|].
  split; [done|]. split; [by cbn; f_equal|done].
Qed.

(** ** Construction *)

Definition keeps (h h' : heap) : Prop := forall b bs, h !! b = Some bs -> h' !! b = Some bs.

Lemma over_ok h o :
  ByteArrayOutputStream.valid h o -> Forall is_byte (ByteArrayOutputStream.contents h o) ->
  exists h' p, over o h = (Ok p, h') /\ valid h' p /\ output_mode p /\ mExtras p = None /\
    mOutputStream p = o /\ written h' p = ByteArrayOutputStream.contents h o /\ keeps h h'.
Proof.
  intros Hv Hb. set (h1 := (h ++ [replicate 8 0] : heap)).
  destruct (@ovalid_frame _ ByteArrayOutputStream.ops ByteArrayOutputStream.spec h h1 o Hv) as [Hv1 Hs1].
  { intros b bs _ Hl. by apply lookup_app_l_Some. }
  pose proof Hv as (bs & Hbuf & _). apply lookup_lt_Some in Hbuf.
  exists h1, (mkParcel (DataOutputStream.mkData o (length h)) None None).
  split; [reflexivity|]. split; [|repeat split; [exact Hs1|intros b xs Hl; by apply lookup_app_l_Some]].
  split; [|by change (Forall is_byte (sink h1 o)); rewrite Hs1|by intros ? [=]].
  split; [exact Hv1| |].
  - intros E. change (length h = ByteArrayOutputStream.mBuffer o) in E. lia.
  - exists (replicate 8 0). split; [by apply list_lookup_middle|]. split; [done|].
    by repeat (constructor; [by unfold is_byte|]).
Qed.

Lemma obtain_ok h :
  exists h' p, obtain h = (Ok p, h') /\ valid h' p /\ output_mode p /\ mExtras p = None /\
    written h' p = [].
Proof.
  set (o := ByteArrayOutputStream.mkOut (length h) 0). set (h1 := (h ++ [replicate 64 0] : heap)).
  assert (h1 !! length h = Some (replicate 64 0)) as Hl by by apply list_lookup_middle.
  assert (ByteArrayOutputStream.contents h1 o = []) as Hc by
    exact (ByteArrayOutputStream.contents_eq h1 o _ Hl).
  destruct (over_ok h1 o) as (h2 & p & Hrun & Hp & Hm & He & _ & Hw & _).
  { exists (replicate 64 0). split; [done|]. cbn. unfold zlen. cbn. lia. }
  { by rewrite Hc. }
  exists h2, p. split; [|by rewrite <- Hc]. exact Hrun.
Qed.

Lemma construct_input h p h' p' :
  asInput (h, p) = (Ok tt, (h', p')) -> construct p asInputStream h = (Ok p', h').
Proof.
  unfold asInput, construct, mbind, M_bind. destruct (asInputStream (h, p)) as [[i|e| |] s]; intros [=].
  by subst s.
Qed.

(** A new stream that the bytes [offset, offset + n) of the array are written to. *)
Lemma copy_stream h b bs off n :
  h !! b = Some bs -> zlen bs < 2 ^ 62 -> 0 <= off -> 0 <= n < MAX -> off + n <= zlen bs ->
  exists h1 o,
    (o ← ByteArrayOutputStream.new n;
     construct o (ByteArrayOutputStream.write_array (Some b) off n)) h = (Ok o, h1) /\
    ByteArrayOutputStream.valid h1 o /\ ByteArrayOutputStream.contents h1 o = slice off n bs /\
    keeps h h1.
Proof.
  intros Hb Hsz Ho Hn Hl. unfold MAX in Hn. apply lookup_lt_Some in Hb as Hlt.
  set (zs := replicate (Z.to_nat n) 0). set (h1 := (h ++ [zs] : heap)).
  set (o := ByteArrayOutputStream.mkOut (length h) 0).
  assert (h1 !! length h = Some zs) as Hz by by apply list_lookup_middle.
  assert (h1 !! b = Some bs) as Hb1 by by apply lookup_app_l_Some.
  assert (ByteArrayOutputStream.valid h1 o) as Hv by
    (exists zs; split; [done|]; cbn; unfold zs, zlen; rewrite length_replicate; lia).
  destruct (ByteArrayOutputStream.write_array_ok h1 o b bs off n Hv Hb1) as
    (h2 & o2 & Hrun & Hv2 & Hc2 & Hp2);
    [unfold ByteArrayOutputStream.owned, o; cbn; lia|lia..|unfold MAX; cbn; lia|].
  exists h2, o2. split; [|split; [done|]].
  - erewrite bind_Ok; [|reflexivity]. fold zs. fold h1. unfold construct. fold o. by rewrite Hrun.
  - rewrite (ByteArrayOutputStream.contents_eq h1 o zs Hz) in Hc2. split; [exact Hc2|].
    intros c xs Hc. destruct (Hp2 c xs) as [? _]; [|by apply lookup_app_l_Some|done].
    apply lookup_lt_Some in Hc. unfold ByteArrayOutputStream.owned, o. cbn. lia.
Qed.

(** The stream a parcel is made on holds the bytes [offset, offset + n) of the array. *)
Lemma buffer_stream h b bs off n :
  h !! b = Some bs -> zlen bs < 2 ^ 62 -> 0 <= off -> 0 <= n < MAX -> off + n <= zlen bs ->
  exists h1 o,
    (if (off =? 0) && (n =? zlen bs) then ByteArrayOutputStream.new_on b
     else o ← ByteArrayOutputStream.new n;
          construct o (ByteArrayOutputStream.write_array (Some b) off n)) h = (Ok o, h1) /\
    ByteArrayOutputStream.valid h1 o /\ ByteArrayOutputStream.contents h1 o = slice off n bs /\
    keeps h h1.
Proof.
  intros Hb Hsz Ho Hn Hl. destruct (_ && _) eqn:E; [|by apply copy_stream].
  apply andb_prop in E as [->%Z.eqb_eq ->%Z.eqb_eq].
  exists h, (ByteArrayOutputStream.mkOut b (zlen bs)). split.
  { unfold ByteArrayOutputStream.new_on. by rewrite (bind_Ok _ _ _ _ _ (size_eq _ _ _ Hb)). }
  split; [exists bs; split; [done|cbn; lia]|]. split; [|by intros c xs].
  exact (ByteArrayOutputStream.contents_eq h (ByteArrayOutputStream.mkOut b (zlen bs)) _ Hb).
Qed.

Lemma new_buffer_ok h b bs off n :
  h !! b = Some bs -> Forall is_byte (slice off n bs) -> zlen bs < 2 ^ 62 -> 0 <= off ->
  0 <= n < MAX -> off + n <= zlen bs ->
  exists h' q, new_buffer b off n h = (Ok q, h') /\ valid h' q /\
    unread h' q = Some (slice off n bs) /\ mExtras q = None.
Proof.
  intros Hb Hby Hsz Ho Hn Hl.
  destruct (buffer_stream h b bs off n Hb Hsz Ho Hn Hl) as (h1 & o & Hrun1 & Hv1 & Hc1 & _).
  destruct (over_ok h1 o Hv1) as (h2 & p & Hrun2 & Hp & Hm & He & _ & Hw & _).
  { by rewrite Hc1. }
  destruct (asInput_ok h2 p Hp Hm) as (h3 & q & Hrun3 & Hq & Hu & _ & Heq).
  exists h3, q. split; [|split; [done|split; [by rewrite Hu, Hw, Hc1|congruence]]].
  unfold new_buffer. rewrite (bind_Ok _ _ _ _ _ (size_eq _ _ _ Hb)). mstep Hrun1. mstep Hrun2.
  by apply construct_input.
Qed.

(** A parcel on the bytes [off, off + n) of an array, which are the encodings of [vs], delivers them. *)
Lemma range_read h b bs off n vs :
  h !! b = Some bs -> zlen bs < 2 ^ 62 -> 0 <= off -> 0 <= n < MAX -> off + n <= zlen bs ->
  Forall in_range vs -> slice off n bs = encs vs ->
  exists h2 q h3 q3, obtain_range (Some b) off n h = (Ok q, h2) /\
    getEach (kind_of <$> vs) (h2, q) = (Ok (received <$> vs), (h3, q3)) /\ unread h3 q3 = Some [].
Proof.
  intros Hb Hz Ho Hn Hl Hv Hs.
  assert (Forall is_byte (slice off n bs)) as Hby.
  { rewrite Hs. clear -Hv. induction Hv as [|v vs H _ IH]; [constructor|]. rewrite encs_cons. apply Forall_app.
    split; [by apply value_bytes|done]. }
  destruct (new_buffer_ok h b bs off n Hb Hby Hz Ho Hn Hl) as (h2 & q & Hrun2 & Hq & Hu & _).
  rewrite Hs, <- (app_nil_r (encs vs)) in Hu.
  destruct (getEach_ok vs [] h2 q Hq Hv Hu) as (h3 & q3 & Hrun3 & _ & Hu3 & _).
  by exists h2, q, h3, q3.
Qed.

(** C9: a receiver that makes a parcel of the sender's bytes, [getByteArray] up to [size], gets the
    values the sender put, in order and with nothing left over: all as they were put, but a
    short and a long as the unsigned numbers with the same bits, -1 as 65535.  So does a receiver that
    makes a parcel of any range of any array that has the bytes of such values: it reads that range and
    nothing else.  Strings have between 1 and 2^16 - 1 bytes (an empty one is lost, see [empty_string_lost]),
    NaNs are the one pattern that [floatToIntBits] and [doubleToLongBits] let through, and there are
    less than 2^60 bytes. *)
Theorem parcel_transfer h p vs :
  valid h p -> output_mode p -> written h p = [] -> Forall in_range vs -> zlen (encs vs) < MAX ->
  (exists h1 p1 b n, putEach vs (h, p) = (Ok tt, (h1, p1)) /\
    getByteArray (h1, p1) = (Ok b, (h1, p1)) /\ size (h1, p1) = (Ok n, (h1, p1)) /\
    n = zlen (encs vs) /\
    exists h2 q h3 q3, obtain_range (Some b) 0 n h1 = (Ok q, h2) /\
      getEach (kind_of <$> vs) (h2, q) = (Ok (received <$> vs), (h3, q3)) /\
      unread h3 q3 = Some []) /\
  (forall h1 b pre post, h1 !! b = Some (pre ++ encs vs ++ post) -> zlen (pre ++ encs vs ++ post) < 2 ^ 62 ->
    exists h2 q h3 q3, obtain_range (Some b) (zlen pre) (zlen (encs vs)) h1 = (Ok q, h2) /\
      getEach (kind_of <$> vs) (h2, q) = (Ok (received <$> vs), (h3, q3)) /\ unread h3 q3 = Some []).
Proof.
  intros Hp Hm Hw Hv Hz. split.
  - destruct (putEach_ok vs h p Hp Hm Hv) as (h1 & p1 & Hrun1 & Hp1 & Hm1 & Hw1 & _).
    { by rewrite Hw. }
    rewrite Hw, app_nil_l in Hw1. set (o := mOutputStream p1).
    pose proof (DataOutputStream.dv_stream _ _ (pv_out _ _ Hp1)) as Hv1.
    pose proof (ByteArrayOutputStream.contents_zlen h1 o Hv1) as Hn.
    assert (ByteArrayOutputStream.contents h1 o = encs vs) as Hc by exact Hw1. rewrite Hc in Hn.
    destruct Hv1 as (bs & Hbuf & Hcnt & Hsz).
    change (0 <= ByteArrayOutputStream.mCount o <= zlen bs) in Hcnt.
    rewrite (ByteArrayOutputStream.contents_eq h1 o bs Hbuf) in Hc.
    exists h1, p1, (ByteArrayOutputStream.mBuffer o), (ByteArrayOutputStream.mCount o).
    do 4 (split; [done|]). by apply (range_read h1 _ bs); [..|lia|lia| |].
  - intros h1 b pre post Hb Hl. pose proof (zlen_nonneg pre). pose proof (zlen_nonneg (encs vs)). pose proof (zlen_nonneg post).
    apply (range_read h1 b (pre ++ encs vs ++ post)); [done|done|lia|lia| |done|].
    + rewrite !zlen_app. lia.
    + unfold slice, zlen. by rewrite !Nat2Z.id, drop_app_length, take_app_length.
Qed.

(** Reading into a new array of [n] bytes, through the input side. *)
Lemma read_new h p us n :
  valid h p -> unread h p = Some us -> 0 <= n <= zlen us -> n < MAX ->
  exists r h' p', input (DataInputStream.stream (ByteArrayInputStream.read_array (Some (length h)) 0 n))
      (h ++ [replicate (Z.to_nat n) 0], p) = (Ok r, (h', p')) /\ valid h' p' /\
    unread h' p' = Some (drop (Z.to_nat n) us) /\ written h' p' = written h p /\
    mExtras p' = mExtras p /\ h' !! length h = Some (take (Z.to_nat n) us).
Proof.
  intros Hp Hu Hn Hm. destruct (unread_inv _ _ _ Hu) as (i & Hi & Hr).
  destruct (rd_valid _ _ _ (pv_in _ _ Hp i Hi)) as [Hv Ha (pad & Hpad & Hpz)].
  set (zs := replicate (Z.to_nat n) 0). set (h1 := (h ++ [zs] : heap)).
  assert (zlen zs = n) as Hz by (unfold zs, zlen; rewrite length_replicate; lia).
  assert (h1 !! length h = Some zs) as Hl by by apply list_lookup_middle.
  assert (keeps h h1) as Hk by (intros b xs Hb; by apply lookup_app_l_Some).
  set (s := DataInputStream.mInputStream i).
  destruct (ivalid_frame h h1 s Hv) as [Hv1 Hr1]; [auto|].
  assert (~ iowned s (length h)) as Hno by (intros Ho; pose proof (iowned_alloc _ _ _ Hv Ho); lia).
  assert (ByteArrayInputStream.remaining h1 s = us) as Hus by by rewrite <- Hr.
  assert (exists r h' s', ByteArrayInputStream.read_array (Some (length h)) 0 n (h1, s) = (Ok r, (h', s')) /\
    ivalid h' s' /\ ByteArrayInputStream.remaining h' s' = drop (Z.to_nat n) us /\
    h' !! length h = Some (take (Z.to_nat n) us) /\ preserves (fun c => c = length h) (fun _ => False) h1 h' /\
    apart (iowned s) (iowned s') h1 h') as (r & h' & s' & Hrun & Hv' & Hr' & Hl' & Hpr & Hap).
  { destruct (decide (n = 0)) as [->|Hn0].
    - destruct (ByteArrayInputStream.read_array_zero h1 s _ zs 0 Hl) as [r Hrun]; [lia|unfold MAX; lia|].
      exists r, h1, s. split; [done|]. split; [done|]. split; [done|]. split; [done|].
      split; [|apply apart_refl]. intros b bs _ Hb. by split; [|intros []].
    - destruct (ByteArrayInputStream.read_array_ok' h1 s _ zs 0 n Hv1 Hl Hno) as
        (r & h' & s' & Hrun & Hv' & Hcase & Hpr & Hap); [lia..|].
      rewrite Hus in Hcase. destruct Hcase as [(-> & _)|(Hrn & _ & Hr' & Hl')].
      { unfold zlen in Hn. cbn in Hn. lia. }
      assert (r = n) as -> by lia. exists n, h', s'. split; [done|]. split; [done|]. split; [done|].
      split; [|split; [|exact Hap]].
      + rewrite Hl'. f_equal. assert (zlen (take (Z.to_nat n) us) = n) as Ht by
          (unfold zlen in *; rewrite length_take; lia).
        rewrite <- (slice_all (splice 0 _ zs)), zlen_splice by lia. rewrite Hz, <- Ht at 1.
        apply slice_splice; lia.
      + intros b bs Hb Hbs. split; [|intros []]. apply Hpr; [|done]. intros [[]|?]; auto. }
  assert (forall b bs, h !! b = Some bs -> h' !! b = Some bs) as Hk'.
  { intros b bs Hb. apply Hpr; [|by apply Hk]. apply lookup_lt_Some in Hb. lia. }
  destruct (valid_read h p i h' (DataInputStream.mkData s' (DataInputStream.mScratchpad i)) Hp Hi) as [Hp' Hw'].
  { split; [done| |].
    - apply Hap; [|done]. eapply lookup_lt_Some. by apply Hk.
    - exists pad. split; [|done]. by apply Hk'. }
  { intros b bs Hb Hl2. split; [by apply Hk'|]. exact Hb. }
  { rewrite Hr. change (DataInputStream.drest h' _) with (ByteArrayInputStream.remaining h' s').
    rewrite Hr'. apply suffix_drop. }
  exists r, h', (set_in (Some (DataInputStream.mkData s' (DataInputStream.mScratchpad i))) p).
  split; [|split; [done|split; [by cbn; f_equal|done]]].
  apply input_eq with i; [done|]. exact (DataInputStream.in_stream_eq _ _ _ _ _ _ Hrun).
Qed.

Lemma available_eq h p us :
  valid h p -> unread h p = Some us -> zlen us < MAX ->
  input (DataInputStream.stream ByteArrayInputStream.available) (h, p) = (Ok (zlen us), (h, p)).
Proof.
  intros Hp Hu Hm. destruct (unread_inv _ _ _ Hu) as (i & Hi & Hr).
  pose proof (rd_valid _ _ _ (pv_in _ _ Hp i Hi)) as [Hv _ _].
  pose proof (ByteArrayInputStream.remaining_zlen h _ Hv) as E.
  change (ByteArrayInputStream.remaining h (DataInputStream.mInputStream i))
    with (DataInputStream.drest h i) in E. rewrite Hr in E.
  destruct p as [o ? e]. cbn in Hi. subst. destruct i as [s pad].
  unfold input, DataInputStream.stream, inner, zoom, ByteArrayInputStream.available, this, Prelude.gets.
  cbn in *. rewrite <- E. pose proof (zlen_nonneg (ByteArrayInputStream.remaining h s)).
  rewrite u64_id by (unfold MAX in Hm; lia). reflexivity.
Qed.

(** in input mode [getBytes] returns all unread bytes, or the first [n] of them,
    in a new array, and leaves the rest unread. *)
Theorem parcel_bytes h p us n :
  valid h p -> unread h p = Some us -> 0 <= n -> zlen us < MAX ->
  (exists h' p', getBytes (h, p) = (Ok (length h), (h', p')) /\ valid h' p' /\
    h' !! length h = Some us /\ unread h' p' = Some [] /\ written h' p' = written h p) /\
  (exists h' p', getBytes_size n (h, p) = (Ok (length h), (h', p')) /\ valid h' p' /\
    h' !! length h = Some (take (Z.to_nat n) us) /\ unread h' p' = Some (drop (Z.to_nat n) us) /\
    written h' p' = written h p).
Proof.
  intros Hp Hu Hn Hm. destruct (unread_inv _ _ _ Hu) as (i & Hi & Hr).
  pose proof (available_eq h p us Hp Hu Hm) as Hav. pose proof (checkInput_eq h p i Hi) as Hc.
  pose proof (zlen_nonneg us).
  assert (take (Z.to_nat (zlen us)) us = us) as Htake by
    (unfold zlen; rewrite Nat2Z.id; apply firstn_all).
  assert (drop (Z.to_nat (zlen us)) us = []) as Hdrop by
    (unfold zlen; rewrite Nat2Z.id; apply drop_all).
  split.
  - destruct (read_new h p us (zlen us) Hp Hu) as (r & h' & p' & Hrun & Hp' & Hu' & Hw & _ & Hl); [lia..|].
    rewrite Htake in Hl. rewrite Hdrop in Hu'. exists h', p'. split; [|done].
    unfold getBytes. mstep Hc. mstep Hav.
    erewrite (bind_Ok (onHeap _)); [|apply onHeap_eq; reflexivity]. cbn [fst snd].
    set (zs := replicate (Z.to_nat (zlen us)) 0) in *.
    assert (input (DataInputStream.stream (ByteArrayInputStream.read (Some (length h)))) (h ++ [zs], p) =
      (Ok r, (h', p'))) as Hread; [|by rewrite (bind_Ok _ _ _ _ _ Hread)].
    rewrite <- Hrun. unfold input. cbn [snd fst]. rewrite Hi.
    assert (forall s, ByteArrayInputStream.read (Some (length h)) (h ++ [zs], s) =
      ByteArrayInputStream.read_array (Some (length h)) 0 (zlen us) (h ++ [zs], s)) as E.
    { intros s. unfold ByteArrayInputStream.read. cbn [deref]. rewrite bind_ret.
      assert ((h ++ [zs] : heap) !! length h = Some zs) as Hz by by apply list_lookup_middle.
      rewrite (bind_Ok _ _ _ _ _ (onHeap_read _ (h ++ [zs], s) _ (size_eq _ _ _ Hz))).
      assert (zlen zs = zlen us) as -> by (unfold zs, zlen; rewrite length_replicate; lia).
      done. }
    unfold DataInputStream.stream, inner, zoom. cbn [fst snd]. by rewrite E.
  - set (k := Z.min (zlen us) n).
    destruct (read_new h p us k Hp Hu) as (r & h' & p' & Hrun & Hp' & Hu' & Hw & _ & Hl); [lia..|].
    assert (take (Z.to_nat k) us = take (Z.to_nat n) us /\ drop (Z.to_nat k) us = drop (Z.to_nat n) us)
      as [E1 E2].
    { destruct (Z.le_ge_cases (zlen us) n) as [Hle|Hge].
      - replace k with (zlen us) by lia. rewrite Htake, Hdrop. unfold zlen in Hle.
        by rewrite take_ge, drop_ge by lia.
      - by replace k with n by lia. }
    rewrite E1 in Hl. rewrite E2 in Hu'. exists h', p'. split; [|done].
    unfold getBytes_size. mstep Hc. mstep Hav. fold k.
    erewrite (bind_Ok (onHeap _)); [|apply onHeap_eq; reflexivity]. cbn [fst snd].
    by rewrite (bind_Ok _ _ _ _ _ Hrun).
Qed.

(** ** Extras as a map *)

Section extras_spec.
Context `{!IterationOrder string (option Variant.Variant)}.

Inductive extra :=
  | EBoolean (b : bool)
  | EByte (z : Z)
  | EChar (z : Z)
  | EShort (z : Z)
  | EInt (z : Z)
  | ELong (z : Z)
  | EFloat (bits : Z)
  | EDouble (bits : Z)
  | EString (s : option string)
  | EIntegerArrayList (p : option nat)
  | EStringArrayList (p : option nat)
  | EBundle (p : option nat).

Definition putExtra (name : option string) (e : extra) : M (heap * Parcel) unit :=
  match e with
  | EBoolean b => putBooleanExtra name b
  | EByte z => putByteExtra name z
  | EChar z => putCharExtra name z
  | EShort z => putShortExtra name z
  | EInt z => putIntExtra name z
  | ELong z => putLongExtra name z
  | EFloat bits => putFloatExtra name bits
  | EDouble bits => putDoubleExtra name bits
  | EString s => putStringExtra name s
  | EIntegerArrayList p => putIntegerArrayListExtra name p
  | EStringArrayList p => putStringArrayListExtra name p
  | EBundle p => putBundleExtra name p
  end.

(** The getter of the kind of [d], with the default [d] where the getter takes one. *)
Definition getExtra (name : option string) (d : extra) : M (heap * Parcel) extra :=
  match d with
  | EBoolean b => v ← getBooleanExtra name b; mret (EBoolean v)
  | EByte z => v ← getByteExtra name z; mret (EByte v)
  | EChar z => v ← getCharExtra name z; mret (EChar v)
  | EShort z => v ← getShortExtra name z; mret (EShort v)
  | EInt z => v ← getIntExtra name z; mret (EInt v)
  | ELong z => v ← getLongExtra name z; mret (ELong v)
  | EFloat bits => v ← getFloatExtra name bits; mret (EFloat v)
  | EDouble bits => v ← getDoubleExtra name bits; mret (EDouble v)
  | EString _ => v ← getStringExtra name; mret (EString v)
  | EIntegerArrayList _ => v ← getIntegerArrayListExtra name; mret (EIntegerArrayList v)
  | EStringArrayList _ => v ← getStringArrayListExtra name; mret (EStringArrayList v)
  | EBundle _ => v ← getBundleExtra name; mret (EBundle v)
  end.

Definition same_kind (e d : extra) : bool :=
  match e, d with
  | EBoolean _, EBoolean _ | EByte _, EByte _ | EChar _, EChar _ | EShort _, EShort _
  | EInt _, EInt _ | ELong _, ELong _ | EFloat _, EFloat _ | EDouble _, EDouble _
  | EString _, EString _ | EIntegerArrayList _, EIntegerArrayList _
  | EStringArrayList _, EStringArrayList _ | EBundle _, EBundle _ => true
  | _, _ => false
  end.

(** [getShortExtra] returns the value as unsigned. *)
Definition received_extra (e : extra) : extra :=
  match e with EShort z => EShort (u16 z) | e => e end.

Definition variant (e : extra) : Variant.Variant :=
  match e with
  | EBoolean b => Variant.Bool b
  | EByte z => Variant.Byte z
  | EChar z => Variant.Char z
  | EShort z => Variant.Short z
  | EInt z => Variant.Int z
  | ELong z => Variant.Long z
  | EFloat bits => Variant.Float bits
  | EDouble bits => Variant.Double bits
  | EString s => Variant.String s
  | EIntegerArrayList p => Variant.IntegerArrayList p
  | EStringArrayList p => Variant.StringArrayList p
  | EBundle p => Variant.Object (BundleObject <$> p)
  end.

Definition extras (p : Parcel) : Bundle.map :=
  match mExtras p with Some b => default ∅ (Bundle.mMap b) | None => ∅ end.

(** The bundle of extras, if any, has its map and is not empty. *)
Definition extras_ok (p : Parcel) : Prop :=
  match mExtras p with
  | Some b => exists m, Bundle.mMap b = Some m /\ m <> ∅
  | None => True
  end.

Definition with_extras (m : Bundle.map) (p : Parcel) : Parcel :=
  set_extras (Some (Bundle.mkBundle (Some m))) p.

Lemma putExtra_eq h p name e :
  extras_ok p ->
  putExtra (Some name) e (h, p) = (Ok tt, (h, with_extras (<[name := Some (variant e)]> (extras p)) p)).
Proof.
  intros He. assert (forall v m, Bundle.putVariant (Some name) v (Bundle.mkBundle (Some m)) =
    (Ok tt, Bundle.mkBundle (Some (<[name := Some v]> m)))) as Hput by (intros; apply Bundle.putVariant_eq).
  assert (forall v, withExtras (Bundle.putVariant (Some name) v) (h, p) =
    (Ok tt, (h, with_extras (<[name := Some v]> (extras p)) p))) as Hgen; [|destruct e; exact (Hgen _)].
  intros v. unfold withExtras, this, extras. rewrite bind_gets. cbn [snd].
  unfold extras_ok in He. destruct p as [o i [[bm]|]]; cbn [mExtras] in *.
  - destruct He as (m & Hb & _). cbn in Hb. subst bm. cbn [Bundle.mMap default from_option].
    rewrite bind_ret. unfold onExtras. cbn [mExtras snd]. by rewrite Hput.
  - unfold update. rewrite bind_modify. unfold onExtras. cbn [mExtras set_extras snd].
    unfold Bundle.new. by rewrite Hput.
Qed.

Lemma getExtra_eq h p m name e d :
  m !! name = Some (Some (variant e)) -> same_kind e d = true ->
  getExtra (Some name) d (h, with_extras m p) = (Ok (received_extra e), (h, with_extras m p)).
Proof.
  intros Hm Hk.
  assert (forall A (df : A) (g : M Bundle.Bundle A) a,
    g (Bundle.mkBundle (Some m)) = (Ok a, Bundle.mkBundle (Some m)) ->
    ofExtras df g (h, with_extras m p) = (Ok a, (h, with_extras m p))) as Hof.
  { intros A df g a Hg. unfold ofExtras, this. rewrite bind_gets. cbn [snd with_extras set_extras mExtras].
    unfold onExtras. cbn [with_extras set_extras mExtras snd]. by rewrite Hg. }
  assert (forall A isT (read : Variant.Variant -> M Bundle.Bundle A) df,
    Bundle.getTyped (Some name) isT read df (Bundle.mkBundle (Some m)) =
    if isT (variant e) then read (variant e) (Bundle.mkBundle (Some m))
    else (Ok df, Bundle.mkBundle (Some m))) as Hty.
  { intros. rewrite Bundle.getTyped_eq. by rewrite Hm. }
  assert (forall A (df : A) (g : M Bundle.Bundle A) a (f : A -> extra),
    g (Bundle.mkBundle (Some m)) = (Ok a, Bundle.mkBundle (Some m)) ->
    (v ← ofExtras df g; mret (f v)) (h, with_extras m p) = (Ok (f a), (h, with_extras m p))) as Hget.
  { intros A df g a f Hg. by rewrite (bind_Ok _ _ _ _ _ (Hof _ _ _ _ Hg)). }
  destruct e, d; try discriminate Hk; cbn [getExtra received_extra].
  4: { apply (Hget _ _ _ (u16 z) EShort). rewrite (bind_Ok _ _ _ z (Bundle.mkBundle (Some m))); [done|].
       exact (Hty _ _ _ _). }
  11: { apply (Hget _ _ _ p0 EBundle). refine (eq_trans (Hty _ _ _ _) _). by destruct p0. }
  all: apply Hget; exact (Hty _ _ _ _).
Qed.

(** an extra put under a name is there and is what the getter of its kind
    returns, whatever the default; extras under other names are untouched; [removeExtra] takes it
    away again and drops the bundle of extras with the last one. *)
Theorem parcel_extras h p name e :
  extras_ok p ->
  exists p1, putExtra (Some name) e (h, p) = (Ok tt, (h, p1)) /\ extras_ok p1 /\
    hasExtra (Some name) (h, p1) = (Ok true, (h, p1)) /\
    (forall d, same_kind e d = true ->
      getExtra (Some name) d (h, p1) = (Ok (received_extra e), (h, p1))) /\
    (forall other, other <> name -> extras p1 !! other = extras p !! other) /\
    exists p2, removeExtra (Some name) (h, p1) = (Ok tt, (h, p2)) /\ extras_ok p2 /\
      extras p2 = delete name (extras p) /\
      (mExtras p2 = None <-> delete name (extras p) = ∅).
Proof.
  intros He. set (m1 := <[name := Some (variant e)]> (extras p)).
  assert (m1 !! name = Some (Some (variant e))) as Hm1 by apply lookup_insert_eq.
  exists (with_extras m1 p). split; [by apply putExtra_eq|]. split.
  { exists m1. split; [done|]. intros E. by rewrite E in Hm1. }
  split; [|split; [intros d Hd; by apply getExtra_eq|split]].
  - unfold hasExtra, ofExtras, this. rewrite bind_gets. cbn [snd with_extras set_extras mExtras].
    unfold onExtras, Bundle.containsKey, Bundle.onMap, HashMap.containsKey.
    cbn [with_extras set_extras mExtras snd Bundle.mMap].
    rewrite (bind_Ok _ _ _ _ _ (HashMap.find_eq name m1)), Hm1. by rewrite bool_decide_eq_true_2.
  - intros other Hne. change (extras (with_extras m1 p)) with m1. unfold m1. by rewrite lookup_insert_ne.
  - assert (delete name m1 = delete name (extras p)) as Hdel by apply delete_insert_eq.
    assert (removeExtra (Some name) (h, with_extras m1 p) =
      (Ok tt, (h, if bool_decide (delete name (extras p) = ∅) then set_extras None p
                  else with_extras (delete name (extras p)) p))) as Hrun.
    { unfold removeExtra, this. rewrite bind_gets. cbn [snd with_extras set_extras mExtras].
      rewrite (bind_Ok _ _ _ tt (h, with_extras (delete name m1) p)).
      2: { unfold onExtras, Bundle.remove. cbn [with_extras set_extras mExtras snd].
           by rewrite (bind_Ok _ _ _ _ _ (Bundle.onMap_Ok _ _ _ _ (HashMap.remove_eq name m1))). }
      rewrite (bind_Ok _ _ _ (base.size (delete name m1)) (h, with_extras (delete name m1) p)) by done.
      rewrite Hdel. destruct (decide (delete name (extras p) = ∅)) as [E|E].
      - by rewrite E, !bool_decide_eq_true_2.
      - rewrite !bool_decide_eq_false_2; [done|done|]. by intros ?%map_size_empty_inv. }
    eexists. split; [exact Hrun|].
    destruct (decide (delete name (extras p) = ∅)) as [E|E].
    + rewrite bool_decide_eq_true_2 by done. split; [done|]. rewrite E. by split.
    + rewrite bool_decide_eq_false_2 by done. split; [by exists (delete name (extras p))|].
      split; [done|]. by split.
Qed.
End extras_spec.

(** ** A parcel as [obtain] makes it, and one being read *)

Definition new_heap : heap := (obtain []).2.
Definition new_parcel : Parcel := 
  match (obtain []).1 with
  | Ok p => p
  | _ => mkParcel (DataOutputStream.mkData (ByteArrayOutputStream.mkOut 0 0) 0) None None
  end.

Lemma new_ok : valid new_heap new_parcel /\ output_mode new_parcel /\ written new_heap new_parcel = [].
Proof.
  destruct (obtain_ok []) as (h & p & Hrun & Hp & Hm & _ & Hw).
  unfold new_heap, new_parcel. rewrite Hrun. done.
Qed.

Lemma reading_three :
  exists h p, valid h p /\ unread h p = Some [1; 2; 3].
Proof.
  destruct (new_buffer_ok [[1; 2; 3]] 0 [1; 2; 3] 0 3) as (h & q & _ & Hq & Hu & _);
    [reflexivity|by repeat (constructor; [by unfold is_byte|])|reflexivity|lia|by unfold MAX; lia|reflexivity|].
  by exists h, q.
Qed.

Lemma parcel_rewind_witness :
  outcome
    (putEach [VInt (-2); VBoolean true];; asInput;; first ← getEach [KInt]; asOutput;;
     putEach [VUTF [104; 105]];; asInput;; second ← getEach [KInt; KBoolean; KUTF];
     mret (first, second)) (new_heap, new_parcel) =
  Ok ([VInt (-2)], [VInt (-2); VBoolean true; VUTF [104; 105]]).
Proof.
  destruct new_ok as (Hp & Hm & Hw).
  apply (parcel_rewind new_heap new_parcel [VInt (-2)] [VBoolean true] [VUTF [104; 105]]); try done.
  repeat constructor; cbn; try lia. all: unfold is_byte; lia.
Defined.

Lemma parcel_transfer_witness :
  (exists h1 p1 b n, putEach [VShort (-1)] (new_heap, new_parcel) = (Ok tt, (h1, p1)) /\
    getByteArray (h1, p1) = (Ok b, (h1, p1)) /\ size (h1, p1) = (Ok n, (h1, p1)) /\ n = 2 /\
    exists h2 q h3 q3, obtain_range (Some b) 0 n h1 = (Ok q, h2) /\
      getEach [KShort] (h2, q) = (Ok [VShort 65535], (h3, q3)) /\ unread h3 q3 = Some []) /\
  exists h2 q h3 q3, obtain_range (Some 0%nat) 1 2 [[9; 255; 255; 9; 9]] = (Ok q, h2) /\
    getEach [KShort] (h2, q) = (Ok [VShort 65535], (h3, q3)) /\ unread h3 q3 = Some [].
Proof.
  destruct new_ok as (Hp & Hm & Hw).
  destruct (parcel_transfer new_heap new_parcel [VShort (-1)]) as [Hs Hr]; try done.
  - constructor; [cbn; lia|done].
  - split; [exact Hs|]. exact (Hr [[9; 255; 255; 9; 9]] 0%nat [9] [9; 9] eq_refl eq_refl).
Defined.

Lemma parcel_modes_witness :
  getBytes (new_heap, new_parcel) = (Throw IllegalStateException, (new_heap, new_parcel)) /\
  get KInt (new_heap, new_parcel) = (Throw IllegalStateException, (new_heap, new_parcel)).
Proof.
  destruct (parcel_modes new_heap new_parcel) as [_ Hget].
  destruct (Hget (proj1 (proj2 new_ok)) KInt 0) as (? & ? & _). by split.
Defined.

Lemma parcel_underflow_witness :
  exists h p h' p', unread h p = Some [1; 2; 3] /\
    get KInt (h, p) = (Throw RemoteException, (h', p')) /\ unread h' p' = Some [].
Proof.
  destruct reading_three as (h & p & Hp & Hu).
  destruct (parcel_underflow KInt h p [1; 2; 3] Hp Hu) as (h' & p' & ? & _ & ? & _); [reflexivity|].
  by exists h, p, h', p'.
Defined.

Lemma parcel_bytes_witness :
  exists h p h' p', unread h p = Some [1; 2; 3] /\
    getBytes_size 2 (h, p) = (Ok (length h), (h', p')) /\ h' !! length h = Some [1; 2] /\
    unread h' p' = Some [3].
Proof.
  destruct reading_three as (h & p & Hp & Hu).
  destruct (parcel_bytes h p [1; 2; 3] 2 Hp Hu) as (_ & h' & p' & ? & _ & ? & ? & _);
    [lia|reflexivity|]. by exists h, p, h', p'.
Defined.

Lemma parcel_extras_witness :
  exists p1, putExtra (Some "a"%string) (EInt 5) (new_heap, new_parcel) = (Ok tt, (new_heap, p1)) /\
    getExtra (Some "a"%string) (EInt 0) (new_heap, p1) = (Ok (EInt 5), (new_heap, p1)) /\
    exists p2, removeExtra (Some "a"%string) (new_heap, p1) = (Ok tt, (new_heap, p2)) /\
      mExtras p2 = None.
Proof.
  destruct (parcel_extras new_heap new_parcel "a" (EInt 5)) as
    (p1 & Hput & _ & _ & Hget & _ & p2 & Hrem & _ & _ & Hnone); [exact I|].
  exists p1. split; [exact Hput|]. split; [by apply (Hget (EInt 0))|]. exists p2. split; [exact Hrem|].
  apply Hnone. reflexivity.
Defined.
End Parcel.
