(* ===== verification/LogBuffers.v ===== *)
(** * util/logging/LogBuffer.cpp: the ring buffer of the log

    A log buffer keeps encoded records in a byte array used as a ring.  A record is stored as its
    length, four bytes in the byte order of the host, and its fields.  When a new record does not
    fit, the oldest ones are dropped.

    [get] answers with a promise.  The model of the promises is the sequence of calls the log
    buffer makes on them: [mPromise] is the identity of the promise that waits for a record,
    [created] counts the promises made and [completed] lists the completions, in order.  The
    functions run under [mLock]; a call is one step. *)

From S2P Require Import Prelude ByteArrays ByteBuffers Streams.
Open Scope Z_scope.

Module LogBuffer.
Import Bytes ByteArray Streams.

(** The strings are the lists of their bytes. *)
(* util/logging/LogBuffer.h:55-60 LogBuffer::LogRecord *)
Record LogRecord := mkRecord {
  mTimestamp : Z;
  mThreadId : Z;
  mPriority : Z;
  mTag : list Z;
  mMessage : list Z;
}.

(* util/logging/LogBuffer.h:85-97 LogBuffer *)
Record LogBuffer := mkLog {
  mSize : Z;
  mBuffer : nat;
  mReadIndex : Z;
  mWriteIndex : Z;
  mPromise : option nat;
  created : nat;
  completed : list (nat * option LogRecord);
}.

Definition state : Type := heap * LogBuffer.

Definition set_read i b :=
  mkLog (mSize b) (mBuffer b) i (mWriteIndex b) (mPromise b) (created b) (completed b).
Definition set_write i b :=
  mkLog (mSize b) (mBuffer b) (mReadIndex b) i (mPromise b) (created b) (completed b).
Definition set_promise p b :=
  mkLog (mSize b) (mBuffer b) (mReadIndex b) (mWriteIndex b) p (created b) (completed b).

(** [new Promise()], and [promise->complete(record)] *)
Definition newPromise : M state nat := fun '(h, b) =>
  (Ok (created b), (h, mkLog (mSize b) (mBuffer b) (mReadIndex b) (mWriteIndex b) (mPromise b)
    (S (created b)) (completed b))).
Definition complete (p : nat) (r : option LogRecord) : M state unit := update (fun b =>
  mkLog (mSize b) (mBuffer b) (mReadIndex b) (mWriteIndex b) (mPromise b) (created b)
    (completed b ++ [(p, r)])).

(** [i % mSize]: undefined for an empty buffer. *)
Definition wrapIndex (i : Z) : M state Z :=
  n ← this mSize; if n =? 0 then undefined else mret (u64 i mod n).

(* util/logging/LogBuffer.cpp:61-68 LogBuffer::LogBuffer *)
Definition new (size : Z) : M heap LogBuffer :=
  b ← ByteArray.new size; mret (mkLog size b 0 0 None 0 []).

(* util/logging/LogBuffer.cpp:70-78 LogBuffer::reset *)
Definition reset : M state unit :=
  update (set_read 0);;
  update (set_write 0);;
  p ← this mPromise;
  match p with
  | Some p => complete p None;; update (set_promise None)
  | None => mret tt
  end.

(* util/logging/LogBuffer.cpp:154-156 LogBuffer::isEmpty *)
Definition isEmpty : M state bool := this (fun b => mReadIndex b =? mWriteIndex b).

(* util/logging/LogBuffer.cpp:158-160 LogBuffer::isFull *)
Definition isFull : M state bool :=
  w ← this mWriteIndex; i ← wrapIndex (w + 1); this (fun b => i =? mReadIndex b).

(* util/logging/LogBuffer.cpp:162-168 LogBuffer::remainingCapacity *)
Definition remainingCapacity : M state Z :=
  this (fun b =>
    if mReadIndex b <=? mWriteIndex b then u64 (mSize b - (mWriteIndex b - mReadIndex b))
    else mReadIndex b - mWriteIndex b).

(* util/logging/LogBuffer.cpp:190-202 LogBuffer::readByteArray *)
Definition readByteArray (size : Z) : M state nat :=
  data ← onHeap (ByteArray.new size);
  buffer ← this mBuffer;
  r ← this mReadIndex;
  n ← this mSize;
  (if u64 (r + size) <? n then
     onHeap (arraycopy (Some buffer) r (Some data) 0 size)
   else
     let partialSize := u64 (n - r) in
     onHeap (arraycopy (Some buffer) r (Some data) 0 partialSize);;
     onHeap (arraycopy (Some buffer) 0 (Some data) partialSize (u64 (size - partialSize))));;
  i ← wrapIndex (r + size);
  update (set_read i);;
  mret data.

(* util/logging/LogBuffer.cpp:204-206 LogBuffer::intFromByteArray *)
Definition intFromByteArray (data : nat) : M state Z :=
  bs ← onHeap (readRaw data 0 4); mret (i32 (le_combine bs)).

(** The loop that drops records until [size] bytes are free. *)
(* util/logging/LogBuffer.cpp:173-177 LogBuffer::writeByteArray (loop) *)
Fixpoint makeRoom (fuel : nat) (freeCapacity size : Z) : M state unit :=
  if size <=? freeCapacity then mret tt else
  match fuel with
  | O => diverge
  | S fuel =>
      data ← readByteArray 4;
      s ← intFromByteArray data;
      r ← this mReadIndex;
      i ← wrapIndex (r + s);
      update (set_read i);;
      makeRoom fuel (u64 (freeCapacity + (s + 4))) size
  end.

(** A record dropped frees at least one byte: [size] iterations are enough. *)
(* util/logging/LogBuffer.cpp:170-188 LogBuffer::writeByteArray *)
Definition writeByteArray (data : nat) : M state unit :=
  size ← onHeap (ByteArray.size data);
  freeCapacity ← remainingCapacity;
  makeRoom (Z.to_nat size) freeCapacity size;;
  buffer ← this mBuffer;
  w ← this mWriteIndex;
  n ← this mSize;
  (if u64 (w + size) <? n then
     onHeap (arraycopy (Some data) 0 (Some buffer) w size)
   else
     let partialSize := u64 (n - w) in
     onHeap (arraycopy (Some data) 0 (Some buffer) w partialSize);;
     onHeap (arraycopy (Some data) partialSize (Some buffer) 0 (u64 (size - partialSize))));;
  i ← wrapIndex (w + size);
  update (set_write i).

(** Calls on a local byte buffer. *)
Definition withBuffer {A} (bb : ByteBuffer.ByteBuffer) (m : M ByteBuffer.state A) : M heap A := fun h =>
  let '(r, (h', _)) := m (h, bb) in (r, h').

(* util/logging/LogBuffer.cpp:84-120 LogBuffer::put *)
Definition put (timestamp threadId priority : Z) (tag message : option (list Z)) : M state bool :=
  match tag, message with
  | Some tag, Some message =>
      tagBuffer ← onHeap (alloc tag);
      messageBuffer ← onHeap (alloc message);
      let size := u32 (8 + 8 + 4 + 4 + zlen tag + 4 + zlen message) in
      n ← this mSize;
      if n <? u32 (size + 4) then mret false else
      byteBuffer ← onHeap (ByteBuffer.allocate (u32 (size + 4)));
      array ← onHeap (withBuffer byteBuffer (
        ByteBuffer.putInt size;;
        ByteBuffer.putLong timestamp;;
        ByteBuffer.putLong threadId;;
        ByteBuffer.putInt priority;;
        ByteBuffer.putInt (zlen tag);;
        ByteBuffer.put_array (Some tagBuffer);;
        ByteBuffer.putInt (zlen message);;
        ByteBuffer.put_array (Some messageBuffer);;
        ByteBuffer.this ByteBuffer.mBuffer));
      p ← this mPromise;
      match p with
      | Some p =>
          complete p (Some (mkRecord timestamp threadId priority tag message));;
          update (set_promise None)
      | None => writeByteArray array
      end;;
      mret true
  | _, _ => mret false
  end.

(** The promise [get] returns: the pending one, or a new one made with the record. *)
Inductive promise :=
  | Pending (p : nat)
  | Completed (r : LogRecord).

(** The record in an array. *)
(* util/logging/LogBuffer.cpp:139-151 LogBuffer::get (decoding) *)
Definition decode (buffer : nat) : M heap LogRecord :=
  byteBuffer ← ByteBuffer.wrap buffer;
  withBuffer byteBuffer (
    timestamp ← ByteBuffer.getLong;
    threadId ← ByteBuffer.getLong;
    priority ← ByteBuffer.getInt;
    tagSize ← ByteBuffer.getInt;
    tagData ← ByteBuffer.onHeap (ByteArray.new (u64 tagSize));
    ByteBuffer.get_array (Some tagData);;
    tag ← ByteBuffer.onHeap (load tagData);
    messageSize ← ByteBuffer.getInt;
    messageData ← ByteBuffer.onHeap (ByteArray.new (u64 messageSize));
    ByteBuffer.get_array (Some messageData);;
    message ← ByteBuffer.onHeap (load messageData);
    mret (mkRecord (u64 timestamp) (u64 threadId) priority tag message)).

(* util/logging/LogBuffer.cpp:122-152 LogBuffer::get *)
Definition get : M state promise :=
  p ← this mPromise;
  match p with
  | Some p => mret (Pending p)
  | None =>
      empty ← isEmpty;
      if (empty : bool) then
        p ← newPromise;
        update (set_promise (Some p));;
        mret (Pending p)
      else
        data ← readByteArray 4;
        size ← intFromByteArray data;
        buffer ← readByteArray (u64 size);
        r ← onHeap (decode buffer);
        mret (Completed r)
  end.

(** ** The ring *)

(** The [n] bytes from index [i], around the end of the array. *)
Definition rslice (i n : Z) (bs : list Z) : list Z := slice i n (bs ++ bs).

(** The array after [xs] was written from index [i], around the end. *)
Definition rwrite (i : Z) (xs bs : list Z) : list Z :=
  let p := zlen bs - i in
  if i + zlen xs <? zlen bs then splice i xs bs
  else splice 0 (slice p (zlen xs - p) xs) (splice i (slice 0 p xs) bs).

Lemma zlen_rslice i n bs :
  0 <= i < zlen bs -> 0 <= n <= zlen bs -> zlen (rslice i n bs) = n.
Proof. intros Hi Hn. apply zlen_slice; [lia|lia|]. rewrite zlen_app. lia. Qed.

Lemma rslice_lookup i n bs k :
  0 <= i < zlen bs -> 0 <= n <= zlen bs -> (k < Z.to_nat n)%nat ->
  rslice i n bs !! k = bs !! Z.to_nat ((i + Z.of_nat k) mod zlen bs).
Proof.
  intros Hi Hn Hk. unfold rslice. rewrite slice_lookup by lia. unfold zlen in *.
  destruct (decide (Z.to_nat i + k < length bs)%nat) as [Hlt|Hge].
  - rewrite lookup_app_l by done. f_equal. rewrite Z.mod_small by lia. lia.
  - rewrite lookup_app_r by lia. f_equal.
    rewrite <- (Z.mod_add _ (-1)) by lia. rewrite Z.mod_small by lia. lia.
Qed.

Lemma rslice_split i a b bs :
  0 <= i < zlen bs -> 0 <= a -> 0 <= b -> a + b <= zlen bs ->
  rslice i (a + b) bs = rslice i a bs ++ rslice ((i + a) mod zlen bs) b bs.
Proof.
  intros Hi Ha Hb Hab. assert (0 <= (i + a) mod zlen bs < zlen bs) by (apply Z.mod_pos_bound; lia).
  pose proof (zlen_rslice i (a + b) bs Hi ltac:(lia)) as H1.
  pose proof (zlen_rslice i a bs Hi ltac:(lia)) as H2.
  pose proof (zlen_rslice ((i + a) mod zlen bs) b bs ltac:(lia) ltac:(lia)) as H3.
  apply list_eq_same_length with (n := Z.to_nat (a + b)).
  - rewrite length_app. unfold zlen in *. lia.
  - unfold zlen in *. lia.
  - intros k x y Hk Hx Hy. rewrite rslice_lookup in Hx by lia.
    destruct (decide (k < Z.to_nat a)%nat) as [Hlt|Hge].
    + rewrite lookup_app_l in Hy by (unfold zlen in *; lia).
      rewrite rslice_lookup in Hy by lia. congruence.
    + rewrite lookup_app_r in Hy by (unfold zlen in *; lia).
      rewrite rslice_lookup in Hy by (unfold zlen in *; lia).
      rewrite Zplus_mod_idemp_l in Hy.
      replace (i + a + Z.of_nat (k - length (rslice i a bs))) with (i + Z.of_nat k) in Hy
        by (unfold zlen in *; lia). congruence.
Qed.

Lemma zlen_rwrite i xs bs :
  0 <= i < zlen bs -> zlen xs <= zlen bs -> zlen (rwrite i xs bs) = zlen bs.
Proof.
  intros Hi Hx. pose proof (zlen_nonneg xs). unfold rwrite. destruct (Z.ltb_spec (i + zlen xs) (zlen bs)).
  - apply zlen_splice; lia.
  - assert (zlen (slice 0 (zlen bs - i) xs) = zlen bs - i) by (apply zlen_slice; lia).
    assert (zlen (slice (zlen bs - i) (zlen xs - (zlen bs - i)) xs) = zlen xs - (zlen bs - i))
      by (apply zlen_slice; lia).
    rewrite zlen_splice; rewrite ?zlen_splice; lia.
Qed.

Lemma splice_lookup_in off xs bs i :
  0 <= off -> off + zlen xs <= zlen bs -> off <= Z.of_nat i < off + zlen xs ->
  splice off xs bs !! i = xs !! Z.to_nat (Z.of_nat i - off).
Proof.
  unfold splice, zlen. intros H0 H Hi. rewrite lookup_app_r by (rewrite length_take; lia).
  rewrite lookup_app_l by (rewrite length_take; lia). f_equal. rewrite length_take. lia.
Qed.

(** The byte at index [j] after a write: the distance from [i] around the ring decides. *)
Lemma rwrite_lookup i xs bs j :
  0 <= i < zlen bs -> zlen xs <= zlen bs -> (Z.of_nat j < zlen bs) ->
  rwrite i xs bs !! j =
  if (Z.of_nat j - i) mod zlen bs <? zlen xs then xs !! Z.to_nat ((Z.of_nat j - i) mod zlen bs)
  else bs !! j.
Proof.
  intros Hi Hx Hj. pose proof (zlen_nonneg xs).
  assert ((Z.of_nat j - i) mod zlen bs = if i <=? Z.of_nat j then Z.of_nat j - i
    else Z.of_nat j - i + zlen bs) as ->.
  { destruct (Z.leb_spec i (Z.of_nat j)); [apply Z.mod_small; lia|].
    rewrite <- (Z.mod_add _ 1) by lia. rewrite Z.mod_small; lia. }
  unfold rwrite. destruct (Z.ltb_spec (i + zlen xs) (zlen bs)) as [Hin|Hout].
  - destruct (Z.leb_spec i (Z.of_nat j)) as [Hle|Hgt].
    + destruct (Z.ltb_spec (Z.of_nat j - i) (zlen xs)); [apply splice_lookup_in; lia|].
      apply splice_lookup_out; lia.
    + destruct (Z.ltb_spec (Z.of_nat j - i + zlen bs) (zlen xs)); [lia|].
      apply splice_lookup_out; lia.
  - set (p := zlen bs - i).
    assert (zlen (slice 0 p xs) = p) as H1 by (apply zlen_slice; lia).
    assert (zlen (slice p (zlen xs - p) xs) = zlen xs - p) as H2 by (apply zlen_slice; lia).
    assert (zlen (splice i (slice 0 p xs) bs) = zlen bs) as H3 by (apply zlen_splice; lia).
    destruct (Z.leb_spec i (Z.of_nat j)) as [Hle|Hgt].
    + rewrite splice_lookup_out by lia. destruct (Z.ltb_spec (Z.of_nat j - i) (zlen xs)); [|lia].
      rewrite splice_lookup_in, slice_lookup by lia. f_equal.
    + destruct (Z.ltb_spec (Z.of_nat j - i + zlen bs) (zlen xs)).
      * rewrite splice_lookup_in, slice_lookup by lia. f_equal. lia.
      * rewrite splice_lookup_out by lia. apply splice_lookup_out; lia.
Qed.

(** Writing behind the [used] bytes from index [r] appends to them. *)
Lemma rslice_rwrite r used xs bs :
  0 <= r < zlen bs -> 0 <= used -> used + zlen xs <= zlen bs ->
  rslice r (used + zlen xs) (rwrite ((r + used) mod zlen bs) xs bs) = rslice r used bs ++ xs.
Proof.
  intros Hr Hu Hx. pose proof (zlen_nonneg xs).
  set (w := (r + used) mod zlen bs). assert (0 <= w < zlen bs) as Hw by (apply Z.mod_pos_bound; lia).
  pose proof (zlen_rwrite w xs bs Hw ltac:(lia)) as Hz.
  pose proof (zlen_rslice r (used + zlen xs) (rwrite w xs bs) ltac:(lia) ltac:(lia)) as H1.
  pose proof (zlen_rslice r used bs ltac:(lia) ltac:(lia)) as H2.
  apply list_eq_same_length with (n := Z.to_nat (used + zlen xs)).
  - rewrite length_app. unfold zlen in *. lia.
  - unfold zlen in *. lia.
  - intros k x y Hk Hx1 Hy. rewrite rslice_lookup in Hx1 by lia. rewrite Hz in Hx1.
    set (j := (r + Z.of_nat k) mod zlen bs) in *.
    assert (0 <= j < zlen bs) as Hj by (apply Z.mod_pos_bound; lia).
    rewrite rwrite_lookup in Hx1 by lia. rewrite Z2Nat.id in Hx1 by lia.
    replace ((j - w) mod zlen bs) with ((Z.of_nat k - used) mod zlen bs) in Hx1
      by (unfold j, w; rewrite <- Zminus_mod; f_equal; lia).
    destruct (decide (k < Z.to_nat used)%nat) as [Hlt|Hge].
    + rewrite lookup_app_l, rslice_lookup in Hy by (unfold zlen in *; lia).
      rewrite <- (Z.mod_add _ 1), Z.mod_small in Hx1 by lia.
      destruct (Z.ltb_spec (Z.of_nat k - used + 1 * zlen bs) (zlen xs)); [lia|]. unfold j in Hx1. congruence.
    + rewrite lookup_app_r in Hy by (unfold zlen in *; lia).
      rewrite Z.mod_small in Hx1 by lia.
      destruct (Z.ltb_spec (Z.of_nat k - used) (zlen xs)); [|lia].
      replace (k - length (rslice r used bs))%nat with (Z.to_nat (Z.of_nat k - used)) in Hy
        by (unfold zlen in *; lia). congruence.
Qed.

(** ** Reading and writing the ring *)

Definition keeps (h h' : heap) : Prop := forall b bs, h !! b = Some bs -> h' !! b = Some bs.

Lemma keeps_app (h : heap) bs : keeps h (h ++ [bs]).
Proof. intros b xs Hb. by apply lookup_app_l_Some. Qed.

Lemma keeps_trans h1 h2 h3 : keeps h1 h2 -> keeps h2 h3 -> keeps h1 h3.
Proof. intros H1 H2 b bs Hb. auto. Qed.

Lemma wrapIndex_eq i s : 0 < mSize (snd s) -> 0 <= i < 2 ^ 64 -> wrapIndex i s = (Ok (i mod mSize (snd s)), s).
Proof.
  intros Hn Hi. unfold wrapIndex, this. rewrite bind_gets. destruct (Z.eqb_spec (mSize (snd s)) 0); [lia|].
  by rewrite u64_id.
Qed.

(** A copy between two arrays. *)
Lemma ring_copy_eq h (b : LogBuffer) s ss d ds sOff dOff n :
  h !! s = Some ss -> h !! d = Some ds -> d <> s -> 0 <= sOff -> 0 <= dOff -> 0 <= n ->
  sOff + n <= zlen ss -> dOff + n <= zlen ds -> zlen ss < 2 ^ 62 -> zlen ds < 2 ^ 62 ->
  onHeap (arraycopy (Some s) sOff (Some d) dOff n) (h, b) =
    (Ok tt, (<[d := splice dOff (slice sOff n ss) ds]> h, b)).
Proof.
  intros. apply onHeap_eq. cbn [fst]. apply arraycopy_eq; try done; try lia. by apply overlap_ne.
Qed.

Lemma splice_whole xs bs : zlen xs = zlen bs -> splice 0 xs bs = xs.
Proof.
  unfold splice, zlen. intros E. cbn. rewrite drop_ge by lia. by rewrite app_nil_r.
Qed.

Lemma heap_insert_last (h : heap) xs ys : <[length h := ys]> (h ++ [xs] : heap) = h ++ [ys].
Proof.
  transitivity (<[(length h + 0)%nat := ys]> (h ++ [xs] : list (list Z))); [by rewrite Nat.add_0_r|].
  apply (insert_app_r (A := list Z)).
Qed.

Lemma readByteArray_eq h b bs n :
  h !! mBuffer b = Some bs -> zlen bs = mSize b -> mSize b < 2 ^ 62 -> 0 <= mReadIndex b < mSize b ->
  0 <= n <= mSize b ->
  readByteArray n (h, b) =
    (Ok (length h), (h ++ [rslice (mReadIndex b) n bs], set_read ((mReadIndex b + n) mod mSize b) b)).
Proof.
  intros Hb Hz Hs Hr Hn. apply lookup_lt_Some in Hb as Hlt.
  set (zs := replicate (Z.to_nat n) 0). set (r := mReadIndex b) in *.
  assert (zlen zs = n) as Hzs by (unfold zs, zlen; rewrite length_replicate; lia).
  assert ((h ++ [zs] : heap) !! mBuffer b = Some bs) as Hb1 by by apply lookup_app_l_Some.
  assert ((h ++ [zs] : heap) !! length h = Some zs) as Hd1 by by apply list_lookup_middle.
  unfold readByteArray. erewrite (bind_Ok (onHeap _)); [|apply onHeap_eq; reflexivity]. cbn [fst snd].
  fold zs. unfold this. rewrite !bind_gets. cbn [snd]. fold r. rewrite u64_id by lia.
  set (h2 := (h ++ [rslice r n bs] : heap)). refine (eq_trans (bind_Ok _ _ _ tt (h2, b) _) _).
  2: { by rewrite (bind_Ok _ _ _ _ _ (wrapIndex_eq (r + n) (h2, b) ltac:(cbn; lia) ltac:(lia))). }
  assert (slice r n (bs ++ bs) = rslice r n bs) as Hrs by done.
  destruct (Z.ltb_spec (r + n) (mSize b)) as [Hin|Hout].
  - rewrite (ring_copy_eq _ b (mBuffer b) bs (length h) zs) by (done || lia).
    rewrite heap_insert_last, splice_whole by (rewrite zlen_slice by lia; lia).
    unfold h2. do 5 f_equal. rewrite <- Hrs. unfold slice.
    rewrite skipn_app, take_app_le; [done|]. rewrite length_drop. unfold zlen in *. lia.
  - rewrite u64_id by lia. set (p := mSize b - r).
    rewrite (bind_Ok _ _ _ tt ((h ++ [splice 0 (slice r p bs) zs] : heap), b)).
    2: { rewrite (ring_copy_eq _ b (mBuffer b) bs (length h) zs) by (done || lia).
         by rewrite heap_insert_last. }
    rewrite u64_id by lia.
    assert (zlen (slice r p bs) = p) as Hp by (apply zlen_slice; lia).
    assert (zlen (slice 0 (n - p) bs) = n - p) as Hq by (apply zlen_slice; lia).
    assert (zlen (splice 0 (slice r p bs) zs) = n) as Hd by (rewrite zlen_splice; lia).
    rewrite (ring_copy_eq _ b (mBuffer b) bs (length h) (splice 0 (slice r p bs) zs));
      [|by apply lookup_app_l_Some|by apply list_lookup_middle|lia..].
    rewrite heap_insert_last. unfold h2. do 5 f_equal.
    replace p with (0 + zlen (slice r p bs)) at 1 by lia. rewrite splice_app by lia.
    rewrite splice_whole by (rewrite zlen_app; lia). rewrite <- Hrs.
    replace n with (p + (n - p)) at 2 by lia. rewrite slice_app by lia. f_equal.
    + unfold slice. rewrite skipn_app, take_app_le; [done|]. rewrite length_drop. unfold zlen in *. lia.
    + unfold slice. replace (r + p) with (zlen bs) by lia. unfold zlen.
      by rewrite Nat2Z.id, drop_app_length.
Qed.

(** ** The queue of records in the ring

  [ring h b q]: the ring of [b] holds the payloads [q], oldest first.  A ring that is exactly
  full cannot be told from an empty one, so the payloads never fill it. *)

Definition frame (p : list Z) : list Z := le_split 4 (zlen p) ++ p.
Definition frames (q : list (list Z)) : list Z := q ≫= frame.

Record ring (h : heap) (b : LogBuffer) (bs : list Z) (q : list (list Z)) : Prop := {
  rg_array : h !! mBuffer b = Some bs;
  rg_size : zlen bs = mSize b;
  rg_range : 0 < mSize b < 2 ^ 31;
  rg_read : 0 <= mReadIndex b < mSize b;
  rg_write : mWriteIndex b = (mReadIndex b + zlen (frames q)) mod mSize b;
  rg_room : zlen (frames q) < mSize b;
  rg_bytes : rslice (mReadIndex b) (zlen (frames q)) bs = frames q;
}.

Lemma zlen_frame p : zlen (frame p) = 4 + zlen p.
Proof. unfold frame. rewrite zlen_app. unfold zlen at 1. by rewrite length_le_split. Qed.

Lemma frames_cons p q : frames (p :: q) = frame p ++ frames q.
Proof. reflexivity. Qed.

Lemma frames_app q q' : frames (q ++ q') = frames q ++ frames q'.
Proof. apply bind_app. Qed.

(** The first frame is the length and the payload. *)
Lemma ring_front h b bs p q :
  ring h b bs (p :: q) ->
  rslice (mReadIndex b) 4 bs = le_split 4 (zlen p) /\
  rslice ((mReadIndex b + 4) mod mSize b) (zlen p) bs = p /\
  rslice ((mReadIndex b + (4 + zlen p)) mod mSize b) (zlen (frames q)) bs = frames q.
Proof.
  intros [Ha Hz Hn Hr Hw Hroom Hb]. pose proof (zlen_nonneg p). pose proof (zlen_nonneg (frames q)).
  rewrite frames_cons, zlen_app, zlen_frame in *. rewrite rslice_split in Hb by lia.
  assert (0 <= (mReadIndex b + (4 + zlen p)) mod zlen bs < zlen bs) by (apply Z.mod_pos_bound; lia).
  pose proof (zlen_rslice (mReadIndex b) (4 + zlen p) bs ltac:(lia) ltac:(lia)) as E1.
  apply app_inj_1 in Hb as [Hb1 Hb2];
    [|pose proof (zlen_frame p); unfold zlen in *; lia].
  rewrite Hz in Hb2. split; [|split; [|done]].
  all: rewrite rslice_split in Hb1 by lia; unfold frame in Hb1;
    apply app_inj_1 in Hb1 as [Hc1 Hc2];
    [|pose proof (zlen_rslice (mReadIndex b) 4 bs ltac:(lia) ltac:(lia));
      rewrite length_le_split; unfold zlen in *; lia]; rewrite ?Hz in *; done.
Qed.

Lemma ring_pop h b bs p q :
  ring h b bs (p :: q) -> ring h (set_read ((mReadIndex b + (4 + zlen p)) mod mSize b) b) bs q.
Proof.
  intros Hring. destruct (ring_front _ _ _ _ _ Hring) as (_ & _ & Hq).
  destruct Hring as [Ha Hz Hn Hr Hw Hroom Hb]. pose proof (zlen_nonneg p).
  rewrite frames_cons, zlen_app, zlen_frame in *. split; cbn; try done; try lia.
  - apply Z.mod_pos_bound. lia.
  - rewrite Hw, Zplus_mod_idemp_l. f_equal. lia.
Qed.

Lemma ring_keeps h h' b bs q : keeps h h' -> ring h b bs q -> ring h' b bs q.
Proof. intros Hk []. split; auto. Qed.

Lemma ring_read h b bs q n :
  ring h b bs q -> 0 <= n <= mSize b ->
  readByteArray n (h, b) =
    (Ok (length h), (h ++ [rslice (mReadIndex b) n bs], set_read ((mReadIndex b + n) mod mSize b) b)).
Proof. intros [] Hn. apply readByteArray_eq; (done || lia). Qed.

(** The length of the oldest record. *)
Lemma read_length {A} h b bs p q (k : Z -> M state A) :
  ring h b bs (p :: q) ->
  (data ← readByteArray 4; s ← intFromByteArray data; k s) (h, b) =
    k (zlen p) (h ++ [le_split 4 (zlen p)], set_read ((mReadIndex b + 4) mod mSize b) b).
Proof.
  intros Hring. destruct (ring_front _ _ _ _ _ Hring) as (Hf & _ & _).
  pose proof (rg_room _ _ _ _ Hring) as Hroom. pose proof (rg_range _ _ _ _ Hring).
  rewrite frames_cons, zlen_app, zlen_frame in Hroom. pose proof (zlen_nonneg p).
  pose proof (zlen_nonneg (frames q)).
  rewrite (bind_Ok _ _ _ _ _ (ring_read h b bs _ 4 Hring ltac:(lia))), Hf.
  set (d := le_split 4 (zlen p)). set (h1 := (h ++ [d] : heap)).
  set (b1 := set_read _ b). assert (h1 !! length h = Some d) as Hd by by apply list_lookup_middle.
  assert (intFromByteArray (length h) (h1, b1) = (Ok (zlen p), (h1, b1))) as Hint.
  { unfold intFromByteArray.
    rewrite (bind_Ok _ _ _ _ _ (onHeap_read _ (h1, b1) _ (readRaw_eq h1 _ d 0 4 Hd
      ltac:(lia) ltac:(lia) ltac:(unfold d, zlen; rewrite length_le_split; lia)))).
    replace (slice 0 4 d) with d by by rewrite <- (slice_all d) at 1.
    unfold d. rewrite combine_split. change (8 * Z.of_nat 4) with 32.
    rewrite Z.mod_small, i32_id by lia. done. }
  by rewrite (bind_Ok _ _ _ _ _ Hint).
Qed.

(** Dropping the oldest payloads until [n] bytes of [size] are free. *)
Fixpoint evict (size n : Z) (q : list (list Z)) : list (list Z) :=
  match q with
  | [] => []
  | p :: q' => if n <=? size - zlen (frames q) then q else evict size n q'
  end.

Lemma evict_room size n q : n <= size -> n <= size - zlen (frames (evict size n q)).
Proof.
  intros Hn. induction q as [|p q IH]; [cbn; unfold zlen; cbn; lia|]. cbn [evict].
  by destruct (Z.leb_spec n (size - zlen (frames (p :: q)))).
Qed.

Lemma makeRoom_ok fuel : forall h b bs q n,
  ring h b bs q -> 0 <= n <= mSize b -> n - (mSize b - zlen (frames q)) <= Z.of_nat fuel ->
  exists h' r, makeRoom fuel (mSize b - zlen (frames q)) n (h, b) = (Ok tt, (h', set_read r b)) /\
    keeps h h' /\ ring h' (set_read r b) bs (evict (mSize b) n q).
Proof.
  induction fuel as [|fuel IH]; intros h b bs q n Hring Hn Hf; cbn [makeRoom].
  all: destruct (Z.leb_spec n (mSize b - zlen (frames q))) as [Hle|Hgt]; [|try lia].
  1-2: exists h, (mReadIndex b); split; [by destruct b|]; split; [by intros ? ?|];
    replace (set_read (mReadIndex b) b) with b by (by destruct b);
    destruct q as [|p q]; [done|]; cbn [evict];
    by rewrite (proj2 (Z.leb_le _ _) Hle).
  destruct q as [|p q]; [unfold zlen in Hgt; cbn in Hgt; lia|].
  pose proof (rg_room _ _ _ _ Hring) as Hroom. pose proof (rg_range _ _ _ _ Hring) as Hrange.
  pose proof (rg_read _ _ _ _ Hring) as Hread.
  rewrite (read_length h b bs p q _ Hring). set (h1 := (h ++ [_] : heap)).
  set (r1 := (mReadIndex b + 4) mod mSize b).
  assert (0 <= r1 < mSize b) as Hr1 by (apply Z.mod_pos_bound; lia).
  pose proof Hroom as Hroom'. rewrite frames_cons, zlen_app, zlen_frame in Hroom'.
  pose proof (zlen_nonneg p). pose proof (zlen_nonneg (frames q)).
  unfold this. rewrite bind_gets. cbn [snd set_read mReadIndex].
  rewrite (bind_Ok _ _ _ _ _ (wrapIndex_eq (r1 + zlen p) (h1, set_read r1 b) ltac:(cbn; lia) ltac:(lia))).
  unfold update. rewrite bind_modify. cbn [fst snd]. cbn [set_read mSize].
  set (r2 := (r1 + zlen p) mod mSize b).
  assert (r2 = (mReadIndex b + (4 + zlen p)) mod mSize b) as E2.
  { unfold r2, r1. rewrite Zplus_mod_idemp_l. f_equal. lia. }
  change (set_read r2 (set_read r1 b)) with (set_read r2 b).
  pose proof (ring_pop _ _ _ _ _ Hring) as Hpop. rewrite <- E2 in Hpop.
  assert (keeps h h1) as Hk by apply keeps_app.
  rewrite frames_cons, zlen_app, zlen_frame in Hgt, Hf |- *. rewrite u64_id by lia.
  replace (mSize b - (4 + zlen p + zlen (frames q)) + (zlen p + 4)) with
    (mSize (set_read r2 b) - zlen (frames q)) by (cbn; lia).
  destruct (IH h1 (set_read r2 b) bs q n) as (h' & r & Hrun & Hk' & Hring');
    [by eapply ring_keeps|cbn; lia|cbn; lia|].
  exists h', r. split; [exact Hrun|]. split; [by eapply keeps_trans|].
  cbn [evict]. rewrite frames_cons, zlen_app, zlen_frame.
  rewrite (proj2 (Z.leb_gt _ _)) by lia. exact Hring'.
Qed.

Lemma remainingCapacity_eq h b bs q :
  ring h b bs q -> remainingCapacity (h, b) = (Ok (mSize b - zlen (frames q)), (h, b)).
Proof.
  intros [Ha Hz Hn Hr Hw Hroom Hb]. pose proof (zlen_nonneg (frames q)).
  unfold remainingCapacity, this, gets. cbn [snd]. do 2 f_equal.
  destruct (decide (mReadIndex b + zlen (frames q) < mSize b)) as [Hlt|Hge].
  - rewrite Z.mod_small in Hw by lia. rewrite (proj2 (Z.leb_le _ _)) by lia. rewrite u64_id; lia.
  - rewrite <- (Z.mod_add _ (-1)), Z.mod_small in Hw by lia.
    rewrite (proj2 (Z.leb_gt _ _)) by lia. lia.
Qed.

(** The copy into the ring, in one piece or two. *)
Lemma copy_in h b bs data xs w :
  h !! mBuffer b = Some bs -> zlen bs = mSize b -> mSize b < 2 ^ 31 -> h !! data = Some xs ->
  data <> mBuffer b -> 0 <= w < mSize b -> zlen xs <= mSize b ->
  (if u64 (w + zlen xs) <? mSize b then
     onHeap (arraycopy (Some data) 0 (Some (mBuffer b)) w (zlen xs))
   else
     let partialSize := u64 (mSize b - w) in
     onHeap (arraycopy (Some data) 0 (Some (mBuffer b)) w partialSize);;
     onHeap (arraycopy (Some data) partialSize (Some (mBuffer b)) 0 (u64 (zlen xs - partialSize)))) (h, b) =
  (Ok tt, (<[mBuffer b := rwrite w xs bs]> h, b)).
Proof.
  intros Hb Hz Hn Hd Hne Hw Hx. pose proof (zlen_nonneg xs). unfold rwrite.
  rewrite Hz, u64_id by lia. destruct (Z.ltb_spec (w + zlen xs) (mSize b)) as [Hin|Hout].
  - rewrite (ring_copy_eq h b data xs (mBuffer b) bs) by (done || lia). by rewrite slice_all.
  - cbv zeta. rewrite (u64_id (mSize b - w)) by lia. set (p := mSize b - w).
    assert (zlen (slice 0 p xs) = p) as Hp by (apply zlen_slice; lia).
    rewrite (bind_Ok _ _ _ _ _ (ring_copy_eq h b data xs (mBuffer b) bs 0 w p Hd Hb
      ltac:(congruence) ltac:(lia) ltac:(lia) ltac:(lia) ltac:(lia) ltac:(lia) ltac:(lia) ltac:(lia))).
    rewrite u64_id by lia. set (h1 := <[mBuffer b := _]> h).
    assert (h1 !! mBuffer b = Some (splice w (slice 0 p xs) bs)) as Hb1 by by eapply heap_lookup_eq.
    assert (h1 !! data = Some xs) as Hd1 by (unfold h1; by rewrite heap_lookup_ne).
    rewrite (ring_copy_eq h1 b data xs (mBuffer b) _ p 0 (zlen xs - p) Hd1 Hb1) by
      (rewrite ?zlen_splice; congruence || lia).
    unfold h1. by rewrite heap_insert_twice.
Qed.

(** The payloads after a record was stored: dropped to make room, the new one behind; nothing at
    all when that fills the ring. *)
Definition stored (size : Z) (q : list (list Z)) (p : list Z) : list (list Z) :=
  let q' := evict size (4 + zlen p) q ++ [p] in
  if zlen (frames q') =? size then [] else q'.

Lemma writeByteArray_ok h b bs q data p :
  ring h b bs q -> h !! data = Some (frame p) -> data <> mBuffer b -> 4 + zlen p <= mSize b ->
  exists h' r w bs', let b' := set_write w (set_read r b) in
    writeByteArray data (h, b) = (Ok tt, (h', b')) /\ ring h' b' bs' (stored (mSize b) q p) /\
    forall c xs, c <> mBuffer b -> h !! c = Some xs -> h' !! c = Some xs.
Proof.
  intros Hring Hd Hne Hp. pose proof (zlen_nonneg p). pose proof (zlen_frame p) as Hf.
  pose proof (rg_range _ _ _ _ Hring) as Hn. pose proof (zlen_nonneg (frames q)).
  pose proof (rg_room _ _ _ _ Hring) as Hroom.
  unfold writeByteArray. rewrite (bind_Ok _ _ _ _ _ (onHeap_read _ (h, b) _ (size_eq _ _ _ Hd))), Hf.
  rewrite (bind_Ok _ _ _ _ _ (remainingCapacity_eq _ _ _ _ Hring)).
  destruct (makeRoom_ok (Z.to_nat (4 + zlen p)) h b bs q (4 + zlen p) Hring) as
    (h1 & r & Hrun1 & Hk1 & Hring1); [lia..|]. mstep Hrun1.
  set (b1 := set_read r b) in *. set (e := evict (mSize b) (4 + zlen p) q) in *.
  pose proof (evict_room (mSize b) (4 + zlen p) q Hp) as Hevict. fold e in Hevict.
  pose proof (Hk1 _ _ Hd) as Hd1. destruct Hring1 as [Ha1 Hz1 _ Hr1 Hw1 Hroom1 Hb1].
  pose proof (zlen_nonneg (frames e)).
  unfold this. rewrite !bind_gets. cbn [snd]. change (mSize b1) with (mSize b) in *.
  change (mBuffer b1) with (mBuffer b) in *.
  assert (0 <= mWriteIndex b1 < mSize b) as Hw by (rewrite Hw1; apply Z.mod_pos_bound; lia).
  pose proof (copy_in h1 b1 bs data (frame p) (mWriteIndex b1) Ha1 Hz1 ltac:(cbn; lia) Hd1 Hne Hw
    ltac:(rewrite Hf; exact Hp)) as Hcopy.
  rewrite Hf in Hcopy. change (mSize b1) with (mSize b) in Hcopy. change (mBuffer b1) with (mBuffer b) in Hcopy.
  rewrite (bind_Ok _ _ _ _ _ Hcopy). set (bs' := rwrite _ _ bs) in *. set (h2 := <[mBuffer b := bs']> h1) in *.
  rewrite (bind_Ok _ _ _ _ _ (wrapIndex_eq (mWriteIndex b1 + (4 + zlen p)) (h2, b1) ltac:(cbn; lia) ltac:(lia))).
  unfold update, modify. cbn [fst snd]. change (mSize b1) with (mSize b).
  set (w := (mWriteIndex b1 + (4 + zlen p)) mod mSize b).
  exists h2, r, w, bs'. cbv zeta. split; [done|].
  assert (zlen bs' = mSize b) as Hz' by (unfold bs'; rewrite zlen_rwrite; lia).
  assert (h2 !! mBuffer b = Some bs') as Hb2 by by eapply heap_lookup_eq.
  assert (w = (r + (zlen (frames e) + (4 + zlen p))) mod mSize b) as Hw2.
  { unfold w. rewrite Hw1, Zplus_mod_idemp_l. f_equal. cbn. lia. }
  assert (rslice r (zlen (frames e) + (4 + zlen p)) bs' = frames e ++ frame p) as Hbytes.
  { unfold bs'. rewrite Hw1. cbn [b1 set_read mReadIndex]. rewrite <- Hz1, <- Hf.
    rewrite rslice_rwrite by (cbn in Hr1; lia). f_equal. exact Hb1. }
  assert (0 <= r < mSize b) as Hr by exact Hr1. split.
  - unfold stored. fold e. rewrite frames_app, zlen_app.
    assert (frames [p] = frame p) as Hp1 by (cbn; by rewrite app_nil_r). rewrite Hp1, Hf.
    destruct (Z.eqb_spec (zlen (frames e) + (4 + zlen p)) (mSize b)) as [Efull|Enot].
    + split; cbn; try done; try lia; change (zlen []) with 0; [|lia].
      rewrite Hw2, Efull, <- (Z.mod_add (r + 0) 1) by lia. f_equal. lia.
    + split; cbn [set_write set_read mBuffer mSize mReadIndex mWriteIndex]; try done;
        rewrite ?frames_app, ?zlen_app, ?Hp1, ?Hf; (done || lia).
  - intros c xs Hc Hl. unfold h2. rewrite heap_lookup_ne by done. by apply Hk1.
Qed.

(** ** Records as bytes *)

Definition payload (r : LogRecord) : list Z :=
  le_split 8 (mTimestamp r) ++ le_split 8 (mThreadId r) ++ le_split 4 (mPriority r) ++
  le_split 4 (zlen (mTag r)) ++ mTag r ++ le_split 4 (zlen (mMessage r)) ++ mMessage r.

Record record_ok (r : LogRecord) : Prop := {
  rec_timestamp : 0 <= mTimestamp r < 2 ^ 64;
  rec_thread : 0 <= mThreadId r < 2 ^ 64;
  rec_priority : - 2 ^ 31 <= mPriority r < 2 ^ 31;
  rec_tag : Forall is_byte (mTag r);
  rec_message : Forall is_byte (mMessage r);
  rec_size : 32 + zlen (mTag r) + zlen (mMessage r) < 2 ^ 31;
}.

Lemma zlen_le_split n z : zlen (le_split n z) = Z.of_nat n.
Proof. unfold zlen. by rewrite length_le_split. Qed.

Lemma zlen_payload r : zlen (payload r) = 28 + zlen (mTag r) + zlen (mMessage r).
Proof. unfold payload. rewrite !zlen_app, !zlen_le_split. lia. Qed.

Section encode.
Import ByteBuffer.
Variables (buf ta ma : nat) (tag msg : list Z).
Hypotheses (Hta : ta <> buf) (Hma : ma <> buf).

(** [m] appends [xs] at the position, the arrays of the strings being there. *)
Definition emits (m : M ByteBuffer.state unit) (xs : list Z) : Prop := forall s bs,
  wf s bs -> mBuffer (snd s) = buf -> fst s !! ta = Some tag -> fst s !! ma = Some msg ->
  mPosition (snd s) + zlen xs <= mLimit (snd s) ->
  m s = (Ok tt, moved (zlen xs) (wrote (mPosition (snd s)) xs bs s)) /\ Forall is_byte xs.

Lemma emits_seq m1 m2 xs ys : emits m1 xs -> emits m2 ys -> emits (m1;; m2) (xs ++ ys).
Proof.
  intros H1 H2 [h b] bs Hw Hbuf Ht Hm Hl. rewrite zlen_app in *. cbn [fst snd] in *.
  pose proof (zlen_nonneg xs). pose proof (zlen_nonneg ys).
  pose proof (wf_position _ _ Hw) as Hp. pose proof (wf_limit _ _ Hw).
  pose proof (wf_window _ _ Hw). pose proof (wf_offset _ _ Hw). cbn [fst snd] in *.
  destruct (H1 (h, b) bs Hw Hbuf Ht Hm) as [Hrun1 Hx]; [cbn; lia|].
  rewrite (bind_Ok _ _ _ _ _ Hrun1). cbn [snd].
  assert (wf (moved (zlen xs) (wrote (mPosition b) xs bs (h, b))) (splice (mOffset b + mPosition b) xs bs)) as Hw1.
  { apply wf_moved; [|cbn; lia]. apply (wf_wrote (h, b)); (done || (cbn; lia)). }
  destruct (H2 _ _ Hw1) as [Hrun2 Hy]; [done| | |cbn; lia|].
  { cbn. rewrite heap_lookup_ne; [done|congruence]. }
  { cbn. rewrite heap_lookup_ne; [done|congruence]. }
  split; [|by apply Forall_app]. rewrite Hrun2. unfold moved, wrote.
  cbn [fst snd set_position ByteBuffer.mBuffer mOffset mPosition].
  rewrite heap_insert_twice, (Z.add_assoc (mOffset b)), splice_app by lia.
  by rewrite Z.add_assoc.
Qed.

Lemma emits_scalar k v : emits (putS k v) (enc k v).
Proof.
  intros s bs Hw _ _ _ Hl. split; [|apply scalar_bytes]. rewrite zlen_enc in *. by apply putS_eq.
Qed.

Lemma emits_array a xs :
  a <> buf -> Forall is_byte xs -> zlen xs < 2 ^ 63 ->
  (forall h : heap, h !! ta = Some tag -> h !! ma = Some msg -> h !! a = Some xs) ->
  emits (put_array (Some a)) xs.
Proof.
  intros Ha Hx Hz Hl s bs Hw Hbuf Ht Hm Hp. split; [|done]. pose proof (zlen_nonneg xs).
  specialize (Hl _ Ht Hm). unfold put_array. cbn [deref]. rewrite bind_ret.
  rewrite (bind_Ok _ _ _ _ _ (onHeap_read _ s _ (size_eq _ _ _ Hl))).
  rewrite (put_range_eq s bs a xs 0 (zlen xs)) by (congruence || lia || done).
  by rewrite slice_all.
Qed.

Lemma emits_record r :
  mTag r = tag -> mMessage r = msg -> record_ok r ->
  emits (putInt (zlen (payload r));; putLong (mTimestamp r);; putLong (mThreadId r);;
    putInt (mPriority r);; putInt (zlen tag);; put_array (Some ta);; putInt (zlen msg);;
    put_array (Some ma)) (frame (payload r)).
Proof.
  intros Et Em []. unfold frame, payload at 3. rewrite Et, Em in *.
  pose proof (zlen_nonneg tag). pose proof (zlen_nonneg msg).
  apply emits_seq; [apply (emits_scalar SInt)|]. apply emits_seq; [apply (emits_scalar SLong)|].
  apply emits_seq; [apply (emits_scalar SLong)|]. apply emits_seq; [apply (emits_scalar SInt)|].
  apply emits_seq; [apply (emits_scalar SInt)|].
  apply emits_seq; [apply emits_array; [done|done|lia|by intros]|].
  apply emits_seq; [apply (emits_scalar SInt)|]. apply emits_array; [done|done|lia|by intros].
Qed.
End encode.

Lemma allocate_eq (h : heap) n :
  0 <= n < 2 ^ 62 ->
  let b := ByteBuffer.mkBuffer 0 n n false (length h) 0 in
  let bs := replicate (Z.to_nat n) 0 in
  ByteBuffer.allocate n h = (Ok b, (h ++ [bs] : heap)) /\ ByteBuffer.wf (h ++ [bs], b) bs /\ zlen bs = n.
Proof.
  intros Hn b bs. assert (zlen bs = n) as Hz by (unfold bs, zlen; rewrite length_replicate; lia).
  assert ((h ++ [bs] : heap) !! length h = Some bs) as Hl by by apply list_lookup_middle.
  split; [|split; [|done]].
  - unfold ByteBuffer.allocate. erewrite bind_Ok; [|reflexivity]. fold bs.
    unfold ByteBuffer.wrap. rewrite (bind_Ok _ _ _ _ _ (size_eq _ _ _ Hl)), Hz.
    unfold ByteBuffer.wrap_range, ByteBuffer.newBuffer.
    rewrite !throw_if_false by (apply Z.ltb_ge; lia).
    rewrite (bind_Ok _ _ _ _ _ (size_eq _ _ _ Hl)), Hz.
    rewrite !throw_if_false by (apply Z.ltb_ge; rewrite ?u64_id; lia). done.
  - split; cbn; try done; try lia. unfold bs. apply Forall_replicate. by unfold is_byte.
Qed.

Section decode.
Import ByteBuffer.

(** [m] takes the bytes [xs] at the position and makes [v] of them. *)
Definition fetches {A} (m : M ByteBuffer.state A) (xs : list Z) (v : A) : Prop := forall s bs,
  wf s bs -> mPosition (snd s) + zlen xs <= mLimit (snd s) ->
  ByteArray.slice (mOffset (snd s) + mPosition (snd s)) (zlen xs) bs = xs ->
  exists h', m s = (Ok v, moved (zlen xs) (h', snd s)) /\ keeps (fst s) h'.

Lemma fetches_seq {A B} (m : M ByteBuffer.state A) (f : A -> M ByteBuffer.state B) xs ys v w :
  fetches m xs v -> fetches (f v) ys w -> fetches (m ≫= f) (xs ++ ys) w.
Proof.
  intros H1 H2 [h b] bs Hw Hl Hs. rewrite zlen_app in *. cbn [fst snd] in *.
  pose proof (zlen_nonneg xs). pose proof (zlen_nonneg ys).
  pose proof (wf_position _ _ Hw) as Hp. pose proof (wf_limit _ _ Hw).
  pose proof (wf_window _ _ Hw). pose proof (wf_offset _ _ Hw). cbn [fst snd] in *.
  rewrite slice_app in Hs by lia.
  pose proof (zlen_slice (mOffset b + mPosition b) (zlen xs) bs ltac:(lia) ltac:(lia) ltac:(lia)) as Hz.
  apply app_inj_1 in Hs as [Hs1 Hs2]; [|unfold zlen in Hz at 1 3; lia].
  destruct (H1 (h, b) bs Hw) as (h1 & Hrun1 & Hk1); [cbn; lia|done|].
  rewrite (bind_Ok _ _ _ _ _ Hrun1). cbn [snd].
  assert (wf (moved (zlen xs) (h1, b)) bs) as Hw1.
  { apply wf_moved; [|cbn; lia]. destruct Hw. split; try done. by apply Hk1. }
  destruct (H2 _ _ Hw1) as (h2 & Hrun2 & Hk2); [cbn; lia|by cbn; rewrite Z.add_assoc|].
  exists h2. rewrite Hrun2. unfold moved. cbn. rewrite Z.add_assoc. split; [done|].
  by eapply keeps_trans.
Qed.

Lemma fetches_ext {A} (m m' : M ByteBuffer.state A) xs v :
  (forall s, m s = m' s) -> fetches m' xs v -> fetches m xs v.
Proof. intros E H s bs. rewrite E. apply H. Qed.

Lemma fetches_ret {A} (v : A) : fetches (mret v) [] v.
Proof.
  intros [h b] bs _ _ _. exists h. unfold moved, zlen. cbn. rewrite Z.add_0_r. split; [by destruct b|by intros ? ? ?].
Qed.

Lemma fetches_scalar k v : in_range k v -> fetches (getS k) (enc k v) v.
Proof.
  intros Hv s bs Hw Hl Hs. rewrite zlen_enc in *. exists (fst s).
  rewrite (getS_eq k s bs Hw Hl), Hs, decode_enc by done. split; [by destruct s|by intros ??].
Qed.

(** A new array of [n] bytes is filled and made a string. *)
Lemma fetches_array {A} xs ys n (k : list Z -> M ByteBuffer.state A) w :
  n = zlen xs -> zlen xs < 2 ^ 62 -> fetches (k xs) ys w ->
  fetches (d ← onHeap (ByteArray.new (u64 n)); get_array (Some d);; t ← onHeap (load d); k t)
    (xs ++ ys) w.
Proof.
  intros -> Hz Hk. pose proof (zlen_nonneg xs). rewrite u64_id by lia.
  apply fetches_ext with ((d ← onHeap (ByteArray.new (zlen xs)); get_array (Some d);; onHeap (load d)) ≫= k).
  { intros s. unfold mbind, M_bind. destruct (onHeap _ s) as [[d| | |] s1]; try done.
    destruct (get_array _ s1) as [[[]| | |] s2]; try done. }
  apply fetches_seq with xs; [|exact Hk]. intros [h b] bs Hw Hl Hs. cbn [fst snd] in *.
  set (zs := replicate (Z.to_nat (zlen xs)) 0). set (h1 := (h ++ [zs] : heap)).
  assert (zlen zs = zlen xs) as Hzs by (unfold zs, zlen at 1; rewrite length_replicate; lia).
  assert (h1 !! length h = Some zs) as Hl1 by by apply list_lookup_middle.
  pose proof (wf_array _ _ Hw) as Hb. cbn in Hb. apply lookup_lt_Some in Hb as Hlt.
  assert (wf (h1, b) bs) as Hw1 by (destruct Hw; split; try done; by apply keeps_app).
  erewrite (bind_Ok (onHeap _)); [|apply onHeap_eq; reflexivity]. cbn [fst snd]. fold zs. fold h1.
  exists (h ++ [xs]). split; [|apply keeps_app].
  assert (get_array (Some (length h)) (h1, b) = (Ok tt, moved (zlen xs) ((h ++ [xs] : heap), b))) as Hget.
  { unfold get_array. cbn [deref]. rewrite bind_ret.
    rewrite (bind_Ok _ _ _ _ _ (onHeap_read _ (h1, b) _ (size_eq _ _ _ Hl1))), Hzs.
    rewrite (get_range_eq (h1, b) bs (length h) zs 0 (zlen xs) Hw1 Hl1) by (cbn; lia).
    cbn [fst snd]. rewrite Hs, splice_whole by done. unfold h1. by rewrite heap_insert_last. }
  rewrite (bind_Ok _ _ _ _ _ Hget). apply onHeap_read. apply load_eq. cbn [fst moved].
  by apply list_lookup_middle.
Qed.

Lemma fetches_array_last {A} xs n (k : list Z -> M ByteBuffer.state A) w :
  n = zlen xs -> zlen xs < 2 ^ 62 -> fetches (k xs) [] w ->
  fetches (d ← onHeap (ByteArray.new (u64 n)); get_array (Some d);; t ← onHeap (load d); k t) xs w.
Proof. intros Hn Hz Hk. pose proof (fetches_array xs [] n k w Hn Hz Hk) as H. by rewrite app_nil_r in H. Qed.

(** The unsigned fields come back through a signed read. *)
Lemma enc_i64 v : enc SLong v = enc SLong (i64 v).
Proof. unfold enc. apply le_split_mod. symmetry. by apply (signed_mod 64). Qed.

Lemma u64_i64 v : 0 <= v < 2 ^ 64 -> u64 (i64 v) = v.
Proof. intros Hv. unfold u64, i64. rewrite (signed_mod 64) by lia. by apply Z.mod_small. Qed.

Lemma i64_range v : - 2 ^ 63 <= i64 v < 2 ^ 63.
Proof. unfold i64. pose proof (Z.mod_pos_bound (v + 2 ^ 63) (2 ^ 64) ltac:(lia)). lia. Qed.

Lemma decode_eq h buffer r :
  h !! buffer = Some (payload r) -> record_ok r ->
  exists h', LogBuffer.decode buffer h = (Ok r, h') /\ keeps h h'.
Proof.
  intros Hb Hr. pose proof Hr as [Ht Hi Hp Htag Hmsg Hsz].
  pose proof (zlen_nonneg (mTag r)). pose proof (zlen_nonneg (mMessage r)).
  pose proof (zlen_payload r) as Hz. set (bb := mkBuffer 0 (zlen (payload r)) (zlen (payload r)) false buffer 0).
  assert (Forall is_byte (payload r)) as Hby.
  { unfold payload. rewrite !Forall_app. pose proof le_split_bytes. by repeat split. }
  assert (wf (h, bb) (payload r)) as Hw by (split; unfold bb; cbn [fst snd mLimit mCapacity mOffset mPosition ByteBuffer.mBuffer]; (done || lia)).
  assert (ByteBuffer.wrap buffer h = (Ok bb, h)) as Hwrap.
  { unfold wrap. rewrite (bind_Ok _ _ _ _ _ (size_eq _ _ _ Hb)).
    unfold wrap_range, newBuffer. rewrite !throw_if_false by (apply Z.ltb_ge; lia).
    rewrite (bind_Ok _ _ _ _ _ (size_eq _ _ _ Hb)).
    rewrite !throw_if_false by (apply Z.ltb_ge; rewrite ?u64_id; lia). done. }
  unfold LogBuffer.decode. rewrite (bind_Ok _ _ _ _ _ Hwrap). unfold withBuffer.
  match goal with |- context [?m (h, bb)] => assert (fetches m (payload r) r) as Hf end.
  { unfold payload. change (le_split 8 (mTimestamp r)) with (enc SLong (mTimestamp r)).
    rewrite (enc_i64 (mTimestamp r)).
    change (le_split 8 (mThreadId r)) with (enc SLong (mThreadId r)). rewrite (enc_i64 (mThreadId r)).
    eapply fetches_seq; [apply (fetches_scalar SLong), i64_range|].
    eapply fetches_seq; [apply (fetches_scalar SLong), i64_range|].
    eapply fetches_seq; [apply (fetches_scalar SInt); exact Hp|].
    eapply fetches_seq; [apply (fetches_scalar SInt); cbn; lia|].
    apply fetches_array; [done|lia|].
    eapply fetches_seq; [apply (fetches_scalar SInt); cbn; lia|].
    apply fetches_array_last; [done|lia|].
    rewrite !u64_i64 by done. destruct r. apply fetches_ret. }
  destruct (Hf (h, bb) (payload r) Hw) as (h' & Hrun & Hk); [cbn; lia|by rewrite slice_all|].
  exists h'. rewrite Hrun. done.
Qed.
End decode.

(** The array [put] encodes the record in: a new array with its frame. *)
Lemma encode_eq (h : heap) ta ma r :
  h !! ta = Some (mTag r) -> h !! ma = Some (mMessage r) -> record_ok r ->
  exists bb h1 h2, ByteBuffer.allocate (u32 (zlen (payload r) + 4)) h = (Ok bb, h1) /\
    withBuffer bb (
      ByteBuffer.putInt (zlen (payload r));;
      ByteBuffer.putLong (mTimestamp r);;
      ByteBuffer.putLong (mThreadId r);;
      ByteBuffer.putInt (mPriority r);;
      ByteBuffer.putInt (zlen (mTag r));;
      ByteBuffer.put_array (Some ta);;
      ByteBuffer.putInt (zlen (mMessage r));;
      ByteBuffer.put_array (Some ma);;
      ByteBuffer.this ByteBuffer.mBuffer) h1 = (Ok (length h), h2) /\
    h2 !! length h = Some (frame (payload r)) /\ keeps h h2.
Proof.
  intros Ht Hm Hr. pose proof (zlen_payload r) as Hz. pose proof (rec_size _ Hr).
  pose proof (zlen_nonneg (mTag r)). pose proof (zlen_nonneg (mMessage r)).
  pose proof (zlen_frame (payload r)) as Hf. rewrite u32_id by lia.
  destruct (allocate_eq h (zlen (payload r) + 4) ltac:(lia)) as (Halloc & Hw & Hbs).
  set (zs := replicate _ 0) in *. set (bb := ByteBuffer.mkBuffer _ _ _ _ _ _) in *.
  set (h1 := (h ++ [zs] : heap)) in *. pose proof (lookup_lt_Some _ _ _ Ht) as Hlt.
  pose proof (lookup_lt_Some _ _ _ Hm) as Hlm.
  assert (ta <> length h) as Hta by lia. assert (ma <> length h) as Hma by lia.
  destruct (emits_record (length h) ta ma (mTag r) (mMessage r) Hta Hma r eq_refl eq_refl Hr (h1, bb) zs Hw eq_refl)
    as [Hrun _]; [by apply keeps_app|by apply keeps_app|unfold bb; cbn [snd ByteBuffer.mPosition ByteBuffer.mLimit]; lia|].
  exists bb, h1, (h ++ [frame (payload r)]). split; [exact Halloc|].
  split; [|split; [by apply list_lookup_middle|apply keeps_app]].
  assert (forall (m1 m2 m3 m4 m5 m6 m7 m8 : M ByteBuffer.state unit) s s',
    (m1;; m2;; m3;; m4;; m5;; m6;; m7;; m8) s = (Ok tt, s') ->
    (m1;; m2;; m3;; m4;; m5;; m6;; m7;; m8;; ByteBuffer.this ByteBuffer.mBuffer) s =
      (Ok (ByteBuffer.mBuffer (snd s')), s')) as Hthen.
  { intros m1 m2 m3 m4 m5 m6 m7 m8 s s'. unfold mbind, M_bind.
    destruct (m1 s) as [[?| | |] s1]; try done. destruct (m2 s1) as [[?| | |] s2]; try done.
    destruct (m3 s2) as [[?| | |] s3]; try done. destruct (m4 s3) as [[?| | |] s4]; try done.
    destruct (m5 s4) as [[?| | |] s5]; try done. destruct (m6 s5) as [[?| | |] s6]; try done.
    destruct (m7 s6) as [[?| | |] s7]; try done. by intros ->. }
  unfold withBuffer. rewrite (Hthen _ _ _ _ _ _ _ _ _ _ Hrun).
  unfold ByteBuffer.moved, ByteBuffer.wrote, bb, h1. cbn [fst snd ByteBuffer.mBuffer ByteBuffer.mOffset
    ByteBuffer.mPosition ByteBuffer.set_position].
  rewrite heap_insert_last. change (0 + 0) with 0. by rewrite splice_whole by lia.
Qed.

(** ** Specification: a queue of records

  The bytes a record takes; the records kept when [n] bytes are needed; the queue after a
  record was stored.  A queue that would take all bytes of the buffer is lost. *)

Definition bytes (r : LogRecord) : Z := 32 + zlen (mTag r) + zlen (mMessage r).

Fixpoint total (rs : list LogRecord) : Z :=
  match rs with
  | [] => 0
  | r :: rs => bytes r + total rs
  end.

Fixpoint keep (size n : Z) (rs : list LogRecord) : list LogRecord :=
  match rs with
  | [] => []
  | r :: rs' => if n <=? size - total rs then rs else keep size n rs'
  end.

Definition logged (size : Z) (rs : list LogRecord) (r : LogRecord) : list LogRecord :=
  let q := keep size (bytes r) rs ++ [r] in
  if total q =? size then [] else q.

Definition log (h : heap) (b : LogBuffer) (rs : list LogRecord) : Prop :=
  (exists bs, ring h b bs (payload <$> rs)) /\ Forall record_ok rs.

Lemma frames_total rs : zlen (frames (payload <$> rs)) = total rs.
Proof.
  induction rs as [|r rs IH]; [done|]. rewrite fmap_cons, frames_cons, zlen_app, zlen_frame, IH, zlen_payload.
  cbn. unfold bytes. lia.
Qed.

Lemma evict_keep size n rs : evict size n (payload <$> rs) = payload <$> keep size n rs.
Proof.
  induction rs as [|r rs IH]; [done|]. cbn [keep]. rewrite fmap_cons. cbn [evict].
  rewrite <- fmap_cons, frames_total, IH. by destruct (n <=? size - total (r :: rs)).
Qed.

Lemma stored_logged size rs r :
  stored size (payload <$> rs) (payload r) = payload <$> logged size rs r.
Proof.
  unfold stored, logged. rewrite evict_keep, zlen_payload.
  replace (4 + (28 + zlen (mTag r) + zlen (mMessage r))) with (bytes r) by (unfold bytes; lia).
  change [payload r] with (payload <$> [r]). rewrite <- fmap_app, frames_total.
  by destruct (total _ =? size).
Qed.

Lemma keep_ok size n rs : Forall record_ok rs -> Forall record_ok (keep size n rs).
Proof.
  induction 1 as [|r rs Hr Hrs IH]; [constructor|]. cbn [keep].
  destruct (n <=? _); [by constructor|done].
Qed.

Lemma logged_ok size rs r : Forall record_ok rs -> record_ok r -> Forall record_ok (logged size rs r).
Proof.
  intros Hrs Hr. unfold logged. destruct (total _ =? size); [constructor|].
  apply Forall_app. split; [by apply keep_ok|by constructor].
Qed.

Lemma log_keeps h h' b rs : keeps h h' -> log h b rs -> log h' b rs.
Proof. intros Hk [[bs Hring] Hrs]. split; [|done]. exists bs. by eapply ring_keeps. Qed.

Lemma log_promise h b rs p c k : log h b rs ->
  log h (mkLog (mSize b) (mBuffer b) (mReadIndex b) (mWriteIndex b) p c k) rs.
Proof. intros [[bs []] Hrs]. split; [|done]. exists bs. by split. Qed.

Definition putRecord (r : LogRecord) : M state bool :=
  put (mTimestamp r) (mThreadId r) (mPriority r) (Some (mTag r)) (Some (mMessage r)).

Lemma mkRecord_eta r : mkRecord (mTimestamp r) (mThreadId r) (mPriority r) (mTag r) (mMessage r) = r.
Proof. by destruct r. Qed.

(** The beginning of [put]: the record is refused, or its frame is in a new array. *)
Lemma put_frame h b r :
  record_ok r -> mSize b < 2 ^ 31 ->
  (mSize b < bytes r /\ exists h', putRecord r (h, b) = (Ok false, (h', b)) /\ keeps h h') \/
  (bytes r <= mSize b /\ exists h' array, keeps h h' /\ h' !! array = Some (frame (payload r)) /\
    (length h <= array)%nat /\
    putRecord r (h, b) = (match mPromise b with
      | Some p => complete p (Some r);; update (set_promise None)
      | None => writeByteArray array
      end;; mret true) (h', b)).
Proof.
  intros Hr Hn. pose proof (zlen_payload r) as Hz. pose proof (rec_size _ Hr).
  pose proof (zlen_nonneg (mTag r)). pose proof (zlen_nonneg (mMessage r)).
  set (h1 := (h ++ [mTag r] : heap)). set (h2 := (h1 ++ [mMessage r] : heap)).
  assert (keeps h h2) as Hk by (eapply keeps_trans; apply keeps_app).
  assert (h2 !! length h = Some (mTag r)) as Ht by (apply keeps_app; by apply list_lookup_middle).
  assert (h2 !! length h1 = Some (mMessage r)) as Hm by by apply list_lookup_middle.
  assert (u32 (8 + 8 + 4 + 4 + zlen (mTag r) + 4 + zlen (mMessage r)) = zlen (payload r)) as Hsize
    by (rewrite u32_id; lia).
  unfold putRecord, put.
  erewrite (bind_Ok (onHeap (alloc (mTag r)))); [|apply onHeap_eq; reflexivity]. cbn [fst snd]. fold h1.
  erewrite (bind_Ok (onHeap (alloc (mMessage r)))); [|apply onHeap_eq; reflexivity]. cbn [fst snd]. fold h2.
  rewrite Hsize. cbv zeta. unfold this. rewrite bind_gets. cbn [snd].
  rewrite (u32_id (zlen (payload r) + 4)) by lia. unfold bytes.
  destruct (Z.ltb_spec (mSize b) (zlen (payload r) + 4)) as [Hlt|Hge]; [left|right].
  { split; [lia|]. by exists h2. }
  split; [lia|].
  destruct (encode_eq h2 (length h) (length h1) r Ht Hm Hr) as (bb & h3 & h4 & Ha & Hw & Hf & Hk4).
  rewrite (u32_id (zlen (payload r) + 4)) in Ha by lia.
  exists h4, (length h2). split; [by eapply keeps_trans|]. split; [done|].
  split; [unfold h2, h1; rewrite !length_app; lia|].
  rewrite (bind_Ok _ _ _ bb (h3, b)) by by apply (onHeap_eq _ (h2, b)).
  rewrite (bind_Ok _ _ _ (length h2) (h4, b)) by by apply (onHeap_eq _ (h3, b)).
  rewrite bind_gets. cbn [snd]. by rewrite mkRecord_eta.
Qed.

Lemma put_stores h b rs r :
  log h b rs -> record_ok r -> mPromise b = None -> bytes r <= mSize b ->
  exists h' b', putRecord r (h, b) = (Ok true, (h', b')) /\ mPromise b' = None /\
    mSize b' = mSize b /\ log h' b' (logged (mSize b) rs r) /\ completed b' = completed b /\
    created b' = created b.
Proof.
  intros [[bs Hring] Hrs] Hr Hp Hfit. pose proof (rg_range _ _ _ _ Hring) as Hn.
  destruct (put_frame h b r Hr ltac:(lia)) as [(Hlt & _)|(Hle & h' & a & Hk & Ha & Hfresh & Hrun)]; [lia|].
  pose proof (lookup_lt_Some _ _ _ (rg_array _ _ _ _ Hring)).
  destruct (writeByteArray_ok h' b bs (payload <$> rs) a (payload r)) as (h2 & i & w & bs' & Hw & Hring' & _);
    [by eapply ring_keeps|done|lia|rewrite zlen_payload; unfold bytes in Hle; lia|].
  eexists h2, _. rewrite Hrun, Hp, (bind_Ok _ _ _ _ _ Hw). split; [reflexivity|]. split; [done|].
  split; [done|]. split; [|done]. split; [|by apply logged_ok]. exists bs'. by rewrite <- stored_logged.
Qed.

Lemma get_empty h b :
  log h b [] -> mPromise b = None ->
  exists b', get (h, b) = (Ok (Pending (created b)), (h, b')) /\ log h b' [] /\
    mPromise b' = Some (created b) /\ created b' = S (created b) /\ completed b' = completed b.
Proof.
  intros Hlog Hp. pose proof Hlog as [[bs Hring] _]. pose proof (rg_range _ _ _ _ Hring).
  pose proof (rg_read _ _ _ _ Hring). pose proof (rg_write _ _ _ _ Hring) as Hwrite.
  change (zlen (frames (payload <$> []))) with 0 in Hwrite.
  unfold get, this. rewrite bind_gets. cbn [snd]. rewrite Hp.
  unfold isEmpty, this. rewrite bind_gets. cbn [snd].
  rewrite Hwrite, Z.add_0_r, Z.mod_small, Z.eqb_refl by lia.
  eexists. split; [reflexivity|]. split; [by apply (log_promise h b)|done].
Qed.

(** Just as many of the oldest records go as have to. *)
Lemma keep_drop size r rs :
  bytes r <= size ->
  exists k, keep size (bytes r) rs = drop k rs /\ total (drop k rs ++ [r]) <= size /\
    forall j, (j < k)%nat -> size < total (drop j rs ++ [r]).
Proof.
  intros Hr. assert (forall q, total (q ++ [r]) = total q + bytes r) as Ht.
  { induction q as [|x q IH]; cbn [total app]; lia. }
  induction rs as [|x rs (k & E & Hk & Hmin)]; cbn [keep].
  - exists 0%nat. split; [done|]. split; [cbn; lia|lia].
  - destruct (Z.leb_spec (bytes r) (size - total (x :: rs))).
    + exists 0%nat. split; [done|]. split; [|lia]. rewrite Ht, drop_0. lia.
    + exists (S k). split; [done|]. split; [done|]. intros [|j] Hj; [rewrite Ht, drop_0; lia|]. apply Hmin. lia.
Qed.

(** C11: a record too large for the buffer is refused and nothing changes.  Otherwise it is
    accepted.  If a promise waits, it gets the record and the queue stays as it is.  If none does,
    just as many of the oldest records are dropped as the record needs room, and the record comes
    last; but if the records then fill the ring to its last byte, it looks empty, and all of them are
    lost, the new one included. *)
Theorem log_put h b rs r :
  log h b rs -> record_ok r ->
  (mSize b < bytes r -> exists h', putRecord r (h, b) = (Ok false, (h', b)) /\ log h' b rs) /\
  (bytes r <= mSize b -> exists h' b', putRecord r (h, b) = (Ok true, (h', b')) /\
    mPromise b' = None /\ mSize b' = mSize b /\
    match mPromise b with
    | Some p => log h' b' rs /\ completed b' = completed b ++ [(p, Some r)]
    | None => completed b' = completed b /\
        exists k, let q := drop k rs ++ [r] in
          total q <= mSize b /\ (forall j, (j < k)%nat -> mSize b < total (drop j rs ++ [r])) /\
          log h' b' (if total q =? mSize b then [] else q)
    end).
Proof.
  intros Hlog Hr. pose proof Hlog as [[bs Hring] Hrs]. pose proof (rg_range _ _ _ _ Hring) as Hn.
  destruct (put_frame h b r Hr ltac:(lia)) as [(Hlt & h' & Hrun & Hk)|(Hle & h' & a & Hk & Ha & Hfresh & Hrun)].
  { split; [|lia]. intros _. exists h'. split; [done|by eapply log_keeps]. }
  split; [lia|]. intros _. rewrite Hrun. destruct (mPromise b) as [p|] eqn:Hp.
  - eexists h', _. split; [reflexivity|]. split; [done|]. split; [done|]. split; [|done].
    apply (log_promise h' b), (log_keeps h); done.
  - destruct (put_stores h b rs r Hlog Hr Hp Hle) as (h2 & b2 & Hrun2 & ? & ? & ? & ? & _).
    rewrite Hrun in Hrun2. exists h2, b2. do 4 (split; [done|]).
    destruct (keep_drop (mSize b) r rs Hle) as (k & E & Htot & Hmin). exists k.
    do 2 (split; [done|]). unfold logged in *. by rewrite E in *.
Qed.

(** C12: [get] takes the oldest record off the queue and returns a promise completed with
    exactly that record, field by field; on an empty queue it returns a pending promise, the same
    one until a record completes it. *)
Theorem log_get h b rs :
  log h b rs ->
  match mPromise b, rs with
  | Some p, _ => get (h, b) = (Ok (Pending p), (h, b))
  | None, [] => exists b', get (h, b) = (Ok (Pending (created b)), (h, b')) /\ log h b' [] /\
      mPromise b' = Some (created b) /\ created b' = S (created b) /\ completed b' = completed b
  | None, r :: rs' => exists h' b', get (h, b) = (Ok (Completed r), (h', b')) /\ log h' b' rs' /\
      mPromise b' = None /\ created b' = created b /\ completed b' = completed b
  end.
Proof.
  intros Hlog. pose proof Hlog as [[bs Hring] Hrs].
  destruct (mPromise b) as [p|] eqn:Hp.
  { unfold get, this. rewrite bind_gets. cbn [snd]. by rewrite Hp. }
  destruct rs as [|r rs]; [by apply get_empty|].
  unfold get, this. rewrite bind_gets. cbn [snd]. rewrite Hp.
  pose proof (rg_range _ _ _ _ Hring) as Hn. pose proof (rg_read _ _ _ _ Hring) as Hread.
  pose proof (rg_write _ _ _ _ Hring) as Hwrite. rewrite frames_total in Hwrite.
  pose proof (rg_room _ _ _ _ Hring) as Hroom. rewrite frames_total in Hroom.
  unfold isEmpty, this. rewrite bind_gets. cbn [snd].
  apply Forall_cons in Hrs as [Hr Hrs]. pose proof (rec_size _ Hr). cbn [total] in *.
  assert (0 <= total rs) as Ht by (rewrite <- frames_total; apply zlen_nonneg).
  pose proof (zlen_nonneg (mTag r)). pose proof (zlen_nonneg (mMessage r)).
  pose proof (zlen_payload r) as Hz. unfold bytes in *.
  rewrite (proj2 (Z.eqb_neq _ _)).
  2: { rewrite Hwrite. intros E. symmetry in E.
       destruct (Z.lt_ge_cases (mReadIndex b + (32 + zlen (mTag r) + zlen (mMessage r) + total rs)) (mSize b));
         [|rewrite <- (Z.mod_add _ (-1)) in E by lia]; rewrite Z.mod_small in E; lia. }
  rewrite fmap_cons in Hring. rewrite (read_length h b bs _ _ _ Hring).
  destruct (ring_front _ _ _ _ _ Hring) as (_ & Hpay & _). pose proof (ring_pop _ _ _ _ _ Hring) as Hpop.
  set (h1 := (h ++ [_] : heap)). set (b1 := set_read _ b).
  assert (keeps h h1) as Hk1 by apply keeps_app. destruct Hring as [Hba Hbz _ _ _ _ _].
  assert (0 <= (mReadIndex b + 4) mod mSize b < mSize b) by (apply Z.mod_pos_bound; lia).
  pose proof (readByteArray_eq h1 b1 bs (zlen (payload r)) (Hk1 _ _ Hba) Hbz ltac:(cbn; lia)
    ltac:(cbn; lia) ltac:(change (mSize b1) with (mSize b); lia)) as Hrd.
  rewrite u64_id by lia. rewrite (bind_Ok _ _ _ _ _ Hrd). cbn [b1 set_read mReadIndex mSize].
  rewrite Hpay. set (h2 := (h1 ++ [payload r] : heap)).
  destruct (decode_eq h2 (length h1) r) as (h3 & Hdec & Hk3); [by apply list_lookup_middle|done|].
  erewrite (bind_Ok (onHeap (decode _))); [|apply onHeap_eq; exact Hdec]. cbn [snd].
  eexists h3, _. split; [reflexivity|]. split; [|done]. split; [|done]. exists bs.
  rewrite Zplus_mod_idemp_l, <- Z.add_assoc.
  eapply (ring_keeps h); [|exact Hpop]. eapply keeps_trans; [exact Hk1|].
  eapply keeps_trans; [apply keeps_app|exact Hk3].
Qed.

(** a record whose storing fills the ring exactly is accepted, but the full
    ring looks empty: the next [get] finds nothing, and everything stored is lost. *)
Theorem full_ring_lost h b rs r :
  log h b rs -> record_ok r -> mPromise b = None -> bytes r <= mSize b ->
  total (keep (mSize b) (bytes r) rs ++ [r]) = mSize b ->
  outcome (putRecord r;; get) (h, b) = Ok (Pending (created b)).
Proof.
  intros Hlog Hr Hp Hfit Hfull.
  destruct (put_stores h b rs r Hlog Hr Hp Hfit) as (h' & b' & Hrun & Hp' & _ & Hlog' & _ & Hc).
  unfold logged in Hlog'. rewrite Hfull, Z.eqb_refl in Hlog'.
  destruct (get_empty h' b' Hlog' Hp') as (b2 & Hget & _).
  unfold outcome. rewrite (bind_Ok _ _ _ _ _ Hrun), Hget. cbn. by rewrite Hc.
Qed.

(** ** A new log buffer *)

Definition heap0 : heap := [replicate 72 0].
Definition log0 : LogBuffer := mkLog 72 0 0 0 None 0 [].
Definition record0 : LogRecord := mkRecord 7 1 4 [84] [97; 98; 99].

Lemma log0_ok : log heap0 log0 [].
Proof.
  split; [|constructor]. exists (replicate 72 0). split; try reflexivity; cbn; try lia.
Qed.

Lemma record0_ok : record_ok record0.
Proof.
  split; cbn; try lia; [| |unfold zlen; cbn; lia]; by repeat (constructor; [by unfold is_byte|]).
Qed.

Lemma logged0 : logged (mSize log0) [] record0 = [record0].
Proof. by vm_compute. Qed.

(** With room for two records of 36 bytes: the first is stored, the second fills the ring. *)
Lemma log_put_witness :
  exists h' b', putRecord record0 (heap0, log0) = (Ok true, (h', b')) /\ log h' b' [record0] /\
    exists h2 b2, putRecord record0 (h', b') = (Ok true, (h2, b2)) /\ log h2 b2 [].
Proof.
  destruct (log_put heap0 log0 [] record0 log0_ok record0_ok) as [_ Hput].
  destruct Hput as (h' & b' & Hrun & Hp & Hs & _ & k & _ & _ & Hlog); [by vm_compute|]. rewrite drop_nil in Hlog.
  change (log h' b' [record0]) in Hlog. exists h', b'. split; [exact Hrun|]. split; [exact Hlog|].
  destruct (log_put h' b' [record0] record0 Hlog record0_ok) as [_ Hput]. rewrite Hs, Hp in Hput.
  destruct Hput as (h2 & b2 & Hrun2 & _ & _ & _ & j & _ & Hmin & Hlog2); [by vm_compute|].
  exists h2, b2. split; [exact Hrun2|]. destruct j as [|j]; [exact Hlog2|].
  exfalso. specialize (Hmin 0%nat (Nat.lt_0_succ j)). by vm_compute in Hmin.
Defined.

Lemma log_get_witness :
  exists h b h' b', log h b [record0] /\ get (h, b) = (Ok (Completed record0), (h', b')) /\ log h' b' [].
Proof.
  destruct (put_stores heap0 log0 [] record0 log0_ok record0_ok) as (h & b & _ & Hp & _ & Hlog & _);
    [done|by vm_compute|]. rewrite logged0 in Hlog.
  pose proof (log_get h b [record0] Hlog) as Hget. rewrite Hp in Hget.
  destruct Hget as (h' & b' & Hrun & Hlog' & _).
  exists h, b, h', b'. split; [exact Hlog|]. split; [exact Hrun|exact Hlog'].
Defined.

Lemma full_ring_lost_witness :
  exists h b, log h b [record0] /\ outcome (putRecord record0;; get) (h, b) = Ok (Pending 0).
Proof.
  destruct (put_stores heap0 log0 [] record0 log0_ok record0_ok) as (h & b & _ & Hp & Hs & Hlog & _ & Hc);
    [done|by vm_compute|]. rewrite logged0 in Hlog.
  exists h, b. split; [exact Hlog|]. change 0%nat with (created log0). rewrite <- Hc.
  apply (full_ring_lost h b [record0] record0 Hlog record0_ok Hp); rewrite Hs; by vm_compute.
Defined.
End LogBuffer.
