(* ===== verification/MessageQueues.v ===== *)
(** * os/MessageQueue.cpp: the message queue

    The queue is the doubly linked list of messages that [mHeadMessage] and [mTailMessage] delimit,
    threaded through the message store of [Messages].  Every operation holds [mLock], so it is one
    atomic step; [dequeueMessage] is one step per iteration, each iteration reading the clock once.
    The lock is released only while the consumer waits in [mCondition].

    The specification is a list of messages sorted by [when]: [enqueueMessage] is a stable sorted
    insertion, the removals are filters, [hasMessages] is [existsb], [dequeueMessage] takes the
    head when it is due. *)

From S2P Require Import Prelude HashMaps Bundles Messages.
From stdpp Require Import gmap sorting.
Open Scope Z_scope.

Module MessageQueue.
Import Message.

(** [mCondition]: the consumer is running, or waits with the time at which the wait times out
    ([None] without a timeout). *)
Inductive Condition :=
  | Running
  | Waiting (deadline : option Z).

(* os/MessageQueue.h:59-64 MessageQueue *)
Record MessageQueue := mkQueue {
  heap : world;
  mHeadMessage : option nat;
  mTailMessage : option nat;
  mCondition : Condition;
  mQuitAllowed : bool;
  mQuitting : bool;
}.

Definition set_heap w q := mkQueue w (mHeadMessage q) (mTailMessage q) (mCondition q)
  (mQuitAllowed q) (mQuitting q).
Definition set_head h q := mkQueue (heap q) h (mTailMessage q) (mCondition q)
  (mQuitAllowed q) (mQuitting q).
Definition set_tail t q := mkQueue (heap q) (mHeadMessage q) t (mCondition q)
  (mQuitAllowed q) (mQuitting q).
Definition set_cond c q := mkQueue (heap q) (mHeadMessage q) (mTailMessage q) c
  (mQuitAllowed q) (mQuitting q).
Definition set_quitting b q := mkQueue (heap q) (mHeadMessage q) (mTailMessage q) (mCondition q)
  (mQuitAllowed q) b.

(** A call on the message store. *)
Definition lift {A} (m : M world A) : M MessageQueue A := zoom heap set_heap m.

(** [mCondition->signal()], [mCondition->await()], [mCondition->await(millis)]. *)
Definition signal : M MessageQueue unit := modify (set_cond Running).
Definition await : M MessageQueue unit := modify (set_cond (Waiting None)).
Definition await_for (now millis : Z) : M MessageQueue unit :=
  modify (set_cond (Waiting (Some (now + millis)))).

(** A bound on the length of any list of messages of the store: the fuel of the loops. *)
Definition loopFuel : M MessageQueue nat := gets (fun q => S (S (length (msgs (heap q))))).

(* os/MessageQueue.cpp:34-41 MessageQueue::MessageQueue *)
Definition new (quitAllowed : bool) (w : world) : MessageQueue :=
  mkQueue w None None Running quitAllowed false.

(* os/MessageQueue.cpp:56-61 MessageQueue::quit (loop) *)
Fixpoint recycleAll (fuel : nat) (curMessage : option nat) : M MessageQueue unit :=
  match fuel, curMessage with
  | _, None => mret tt
  | O, Some _ => diverge
  | S fuel, Some cur =>
      m ← lift (readMsg cur);
      lift (recycle cur);;
      recycleAll fuel (nextMessage m)
  end.

(* os/MessageQueue.cpp:45-67 MessageQueue::quit *)
Definition quit : M MessageQueue bool :=
  allowed ← gets mQuitAllowed;
  if negb allowed then mret false else
  quitting ← gets mQuitting;
  if quitting : bool then mret true else
  modify (set_quitting true);;
  head ← gets mHeadMessage;
  fuel ← loopFuel;
  recycleAll fuel head;;
  modify (set_head None);;
  modify (set_tail None);;
  signal;;
  mret true.

(* os/MessageQueue.cpp:89-89 MessageQueue::enqueueMessage (condition) *)
Definition goesFirst (w : Z) : M MessageQueue bool :=
  head ← gets mHeadMessage;
  match head with
  | None => mret true
  | Some h => m ← lift (readMsg h); mret ((w =? 0) || (w <? when m))
  end.

(* os/MessageQueue.cpp:90-97 MessageQueue::enqueueMessage (first) *)
Definition linkFirst (message : nat) : M MessageQueue unit :=
  oldHeadMessage ← gets mHeadMessage;
  modify (set_head (Some message));;
  match oldHeadMessage with
  | Some old => lift (writeMsg old (set_prev (Some message)))
  | None => modify (set_tail (Some message))
  end;;
  lift (writeMsg message (set_next oldHeadMessage)).

(* os/MessageQueue.cpp:99-101 MessageQueue::enqueueMessage (last) *)
Definition linkLast (message tail : nat) : M MessageQueue unit :=
  lift (writeMsg message (set_prev (Some tail)));;
  lift (writeMsg tail (set_next (Some message)));;
  modify (set_tail (Some message)).

(* os/MessageQueue.cpp:105-111 MessageQueue::enqueueMessage (loop) *)
Fixpoint walkBack (fuel : nat) (w : Z) (curMessage : nat) : M MessageQueue (nat * nat) :=
  match fuel with
  | O => diverge
  | S fuel =>
      let nextMessage := curMessage in
      m ← lift (readMsg curMessage);
      curMessage ← deref (prevMessage m);
      c ← lift (readMsg curMessage);
      if when c <=? w then mret (curMessage, nextMessage)
      else walkBack fuel w curMessage
  end.

(* os/MessageQueue.cpp:112-115 MessageQueue::enqueueMessage (middle) *)
Definition linkBetween (message curMessage nextMessage : nat) : M MessageQueue unit :=
  lift (writeMsg message (set_next (Some nextMessage)));;
  lift (writeMsg message (set_prev (Some curMessage)));;
  lift (writeMsg nextMessage (set_prev (Some message)));;
  lift (writeMsg curMessage (set_next (Some message))).

(* os/MessageQueue.cpp:89-116 MessageQueue::enqueueMessage (insertion) *)
Definition insert (message : nat) (w : Z) : M MessageQueue unit :=
  first ← goesFirst w;
  if first : bool then linkFirst message else
  tail ← gets mTailMessage;
  t ← deref tail;
  mt ← lift (readMsg t);
  if when mt <=? w then linkLast message t else
  fuel ← loopFuel;
  '(curMessage, nextMessage) ← walkBack fuel w t;
  linkBetween message curMessage nextMessage.

(* os/MessageQueue.cpp:69-119 MessageQueue::enqueueMessage *)
Definition enqueueMessage (message : nat) (w : Z) : M MessageQueue bool :=
  m ← lift (readMsg message);
  throw_if (bool_decide (target m = None)) IllegalArgumentException;;
  throw_if (isInUse m) IllegalStateException;;
  quitting ← gets mQuitting;
  if quitting : bool then lift (recycle message);; mret false else
  lift (markInUse message);;
  lift (writeMsg message (set_when w));;
  insert message w;;
  signal;;
  mret true.

(* lang/Integer.h:32-32 Integer::MAX_VALUE *)
Definition Integer_MAX_VALUE : Z := 2 ^ 31 - 1.

(* os/MessageQueue.cpp:135-140 MessageQueue::dequeueMessage (new head) *)
Definition advanceHead (nextMessage : option nat) : M MessageQueue unit :=
  modify (set_head nextMessage);;
  match nextMessage with
  | Some next => lift (writeMsg next (set_prev None))
  | None => modify (set_tail None)
  end.

(** One iteration of the loop of [dequeueMessage]: [Some r] when it returns [r], [None] when it
    waits. *)
(* os/MessageQueue.cpp:123-147 MessageQueue::dequeueMessage (iteration) *)
Definition dequeueStep (now : Z) : M MessageQueue (option (option nat)) :=
  quitting ← gets mQuitting;
  if quitting : bool then mret (Some None) else
  head ← gets mHeadMessage;
  match head with
  | Some message =>
      m ← lift (readMsg message);
      if now <? when m then
        await_for now (Z.min (u64 (when m - now)) Integer_MAX_VALUE);;
        mret None
      else
        advanceHead (nextMessage m);;
        lift (writeMsg message (set_prev None));;
        lift (writeMsg message (set_next None));;
        mret (Some (Some message))
  | None => await;; mret None
  end.

(** The loop with no other thread at work: iteration [i] reads the clock as the [i]-th value of
    [clock] (the waits end by timeout); [None] when the readings are used up and the caller
    still waits. *)
(* os/MessageQueue.cpp:121-149 MessageQueue::dequeueMessage *)
Fixpoint dequeueMessage (clock : list Z) : M MessageQueue (option (option nat)) :=
  match clock with
  | [] => mret None
  | now :: clock =>
      modify (set_cond Running);;
      r ← dequeueStep now;
      match r with
      | Some message => mret (Some message)
      | None => dequeueMessage clock
      end
  end.

(** *** Search and removal

    The three removals are the same loops with three conditions. *)

(** [object == nullptr || m->obj == object] *)
Definition objMatches (object : option nat) (m : Message) : bool :=
  bool_decide (object = None) || bool_decide (obj m = object).

(* os/MessageQueue.cpp:159-159 MessageQueue::hasMessages (condition) *)
Definition whatMatches (handler : nat) (w : Z) (object : option nat) (m : Message) : bool :=
  bool_decide (target m = Some handler) && (what m =? w) && objMatches object m.

(* os/MessageQueue.cpp:175-175 MessageQueue::hasMessages (condition) *)
Definition callbackMatches (handler : nat) (runnable object : option nat) (m : Message) : bool :=
  bool_decide (target m = Some handler) && bool_decide (callback m = runnable)
    && objMatches object m.

(* os/MessageQueue.cpp:288-288 MessageQueue::removeCallbacksAndMessages (condition) *)
Definition handlerMatches (handler : nat) (object : option nat) (m : Message) : bool :=
  bool_decide (target m = Some handler) && objMatches object m.

(* os/MessageQueue.cpp:157-164 MessageQueue::hasMessages (loop) *)
Fixpoint search (fuel : nat) (p : Message -> bool) (curMessage : option nat) :
    M MessageQueue bool :=
  match fuel, curMessage with
  | _, None => mret false
  | O, Some _ => diverge
  | S fuel, Some cur =>
      m ← lift (readMsg cur);
      if p m then mret true else search fuel p (nextMessage m)
  end.

Definition hasMatch (p : Message -> bool) : M MessageQueue bool :=
  head ← gets mHeadMessage;
  fuel ← loopFuel;
  search fuel p head.

(* os/MessageQueue.cpp:151-165 MessageQueue::hasMessages *)
Definition hasMessages (handler : option nat) (w : Z) (object : option nat) :
    M MessageQueue bool :=
  match handler with
  | None => mret false
  | Some h => hasMatch (whatMatches h w object)
  end.

(* os/MessageQueue.cpp:167-181 MessageQueue::hasMessages *)
Definition hasMessages_runnable (handler runnable object : option nat) : M MessageQueue bool :=
  match handler with
  | None => mret false
  | Some h => hasMatch (callbackMatches h runnable object)
  end.

(* os/MessageQueue.cpp:193-205 MessageQueue::removeMessages (front) *)
Fixpoint removeFront (fuel : nat) (p : Message -> bool) (curMessage : option nat)
    (foundMessage : bool) : M MessageQueue (option nat * bool) :=
  match fuel, curMessage with
  | _, None => mret (None, foundMessage)
  | O, Some _ => diverge
  | S fuel, Some cur =>
      m ← lift (readMsg cur);
      if p m then
        advanceHead (nextMessage m);;
        lift (recycle cur);;
        removeFront fuel p (nextMessage m) true
      else mret (Some cur, foundMessage)
  end.

(* os/MessageQueue.cpp:213-219 MessageQueue::removeMessages (unlink) *)
Definition unlinkAfter (cur : nat) (nextButOneMessage : option nat) : M MessageQueue unit :=
  match nextButOneMessage with
  | Some nextButOne => lift (writeMsg nextButOne (set_prev (Some cur)))
  | None => modify (set_tail (Some cur))
  end;;
  lift (writeMsg cur (set_next nextButOneMessage)).

(* os/MessageQueue.cpp:207-227 MessageQueue::removeMessages (rest) *)
Fixpoint removeRest (fuel : nat) (p : Message -> bool) (curMessage : option nat)
    (foundMessage : bool) : M MessageQueue bool :=
  match fuel, curMessage with
  | _, None => mret foundMessage
  | O, Some _ => diverge
  | S fuel, Some cur =>
      m ← lift (readMsg cur);
      match nextMessage m with
      | Some next =>
          n ← lift (readMsg next);
          if p n then
            unlinkAfter cur (nextMessage n);;
            lift (recycle next);;
            removeRest fuel p (Some cur) true
          else removeRest fuel p (nextMessage m) foundMessage
      | None => removeRest fuel p None foundMessage
      end
  end.

Definition removeIf (p : Message -> bool) : M MessageQueue bool :=
  head ← gets mHeadMessage;
  fuel ← loopFuel;
  '(cur, found) ← removeFront fuel p head false;
  removeRest fuel p cur found.

(* os/MessageQueue.cpp:183-228 MessageQueue::removeMessages *)
Definition removeMessages (handler : option nat) (w : Z) (object : option nat) :
    M MessageQueue bool :=
  match handler with
  | None => mret false
  | Some h => removeIf (whatMatches h w object)
  end.

(* os/MessageQueue.cpp:230-275 MessageQueue::removeCallbacks *)
Definition removeCallbacks (handler runnable object : option nat) : M MessageQueue bool :=
  match handler, runnable with
  | Some h, Some _ => removeIf (callbackMatches h runnable object)
  | _, _ => mret false
  end.

(* os/MessageQueue.cpp:277-322 MessageQueue::removeCallbacksAndMessages *)
Definition removeCallbacksAndMessages (handler object : option nat) : M MessageQueue bool :=
  match handler with
  | None => mret false
  | Some h => removeIf (handlerMatches h object)
  end.

(** ** The representation of the queue

    An entry is a message's object number and its fields, links aside.  [dseg ms p es n]: the
    entries [es] are linked in this order, between the neighbours [p] and [n]. *)

Definition entry : Type := nat * Message.

Definition link (p n : option nat) (m : Message) : Message := set_prev p (set_next n m).

Definition first (es : list entry) (n : option nat) : option nat :=
  match es with [] => n | e :: _ => Some (fst e) end.

Fixpoint final (es : list entry) (p : option nat) : option nat :=
  match es with [] => p | e :: es => final es (Some (fst e)) end.

Fixpoint dseg (ms : list Message) (p : option nat) (es : list entry) (n : option nat) : Prop :=
  match es with
  | [] => True
  | e :: es => ms !! fst e = Some (link p (first es n) (snd e)) /\ dseg ms (Some (fst e)) es n
  end.

Definition cells (q : MessageQueue) : list Message := msgs (heap q).
Definition upd (l : nat) (x : Message) (q : MessageQueue) : MessageQueue :=
  set_heap (set_msgs (<[l := x]>) (heap q)) q.

Record qlist (q : MessageQueue) (es : list entry) : Prop := {
  ql_head : mHeadMessage q = first es None;
  ql_tail : mTailMessage q = final es None;
  ql_seg : dseg (cells q) None es None;
  ql_nodup : NoDup es.*1;
}.

(** What an operation on the links leaves as it was; [ls] are the messages it may touch. *)
Record framed (ls : list nat) (q q' : MessageQueue) : Prop := {
  fr_pool : sMessagePool (heap q') = sMessagePool (heap q);
  fr_bundles : bundles (heap q') = bundles (heap q);
  fr_cancelled : cancelled (heap q') = cancelled (heap q);
  fr_cond : mCondition q' = mCondition q;
  fr_allowed : mQuitAllowed q' = mQuitAllowed q;
  fr_quitting : mQuitting q' = mQuitting q;
  fr_cells : forall j, j ∉ ls -> cells q' !! j = cells q !! j;
}.

Lemma lift_read q l m : cells q !! l = Some m -> lift (readMsg l) q = (Ok m, q).
Proof. intros H. unfold lift, zoom. rewrite (readMsg_eq _ _ _ H). by destruct q. Qed.

Lemma lift_write q l m f : cells q !! l = Some m -> lift (writeMsg l f) q = (Ok tt, upd l (f m) q).
Proof. intros H. unfold lift, zoom. by rewrite (writeMsg_eq _ _ _ f H). Qed.

Ltac qread H :=
  match goal with
  | |- context [mbind ?k (lift (readMsg ?l)) ?q] =>
      rewrite (bind_Ok (lift (readMsg l)) k q _ _ (lift_read q l _ H)); cbn beta
  end.
Ltac qwrite H :=
  match goal with
  | |- context [mbind ?k (lift (writeMsg ?l ?f)) ?q] =>
      rewrite (bind_Ok (lift (writeMsg l f)) k q _ _ (lift_write q l _ f H)); cbn beta
  end.

Lemma final_app es1 es2 p : final (es1 ++ es2) p = final es2 (final es1 p).
Proof. revert p. induction es1; simpl; auto. Qed.

Lemma first_app es1 es2 n : first (es1 ++ es2) n = first es1 (first es2 n).
Proof. by destruct es1. Qed.

Lemma dseg_app ms p es1 es2 n :
  dseg ms p (es1 ++ es2) n <-> dseg ms p es1 (first es2 n) /\ dseg ms (final es1 p) es2 n.
Proof.
  revert p. induction es1 as [|e es1 IH]; intros p; simpl; [tauto|].
  rewrite IH, first_app. tauto.
Qed.

Lemma dseg_write ms p es n l x : l ∉ es.*1 -> dseg ms p es n -> dseg (<[l := x]> ms) p es n.
Proof.
  revert p. induction es as [|e es IH]; intros p; simpl; [done|].
  rewrite not_elem_of_cons. intros [Hne Hin] [He Hs].
  split; [by rewrite lookup_write_ne|auto].
Qed.

(** Segments read only their own cells. *)
Lemma dseg_ext ms ms' p es n :
  (forall j, j ∈ es.*1 -> ms' !! j = ms !! j) -> dseg ms p es n -> dseg ms' p es n.
Proof.
  revert p. induction es as [|e es IH]; intros p Heq; simpl; [done|]. intros [He Hs].
  split; [rewrite Heq; [done|apply list_elem_of_here]|].
  apply IH; [|done]. intros j Hj. apply Heq. by apply list_elem_of_further.
Qed.

Lemma dseg_lookup ms p es n l m :
  dseg ms p es n -> (l, m) ∈ es -> exists p' n', ms !! l = Some (link p' n' m).
Proof.
  revert p. induction es as [|e es IH]; intros p; simpl; [by intros _ ?%not_elem_of_nil|].
  intros [He Hs] [<-|Hin]%elem_of_cons; eauto.
Qed.

(** The bound behind the fuel: distinct cells of the store are at most as many as the store. *)
Lemma dseg_length ms p es n : dseg ms p es n -> NoDup es.*1 -> (length es <= length ms)%nat.
Proof.
  intros Hs Hn. assert (length es = length es.*1) as -> by (symmetry; apply length_fmap).
  rewrite <- (length_seq (length ms) 0). apply submseteq_length, NoDup_submseteq; [done|]. intros l Hl.
  apply list_elem_of_fmap in Hl as ((l' & m) & -> & He).
  destruct (dseg_lookup _ _ _ _ _ _ Hs He) as (p' & n' & Hl).
  apply lookup_lt_Some in Hl. apply elem_of_seq. simpl. lia.
Qed.

(** *** Linking a message in *)

Ltac qsimp :=
  cbn [upd set_heap set_head set_tail set_cond set_quitting cells heap set_msgs msgs
       mHeadMessage mTailMessage mCondition mQuitAllowed mQuitting sMessagePool bundles
       cancelled first final fst snd dseg] in *.

(** Cells written to other addresses do not matter to a lookup. *)
Ltac distinct := let E := fresh in intros E; first [tauto | symmetry in E; tauto].
Ltac other_cells := repeat rewrite lookup_write_ne by distinct.
Ltac solve_framed :=
  split; try reflexivity; intros j Hj;
  rewrite ?fmap_app, ?fmap_cons, ?elem_of_cons, ?elem_of_app, ?elem_of_cons in Hj;
  qsimp; other_cells; reflexivity.
Ltac not_in H := rewrite ?fmap_app, ?fmap_cons, ?not_elem_of_app, ?not_elem_of_cons in H; cbn in H.

Lemma linkFirst_eq q es l m :
  qlist q es -> l ∉ es.*1 -> cells q !! l = Some (link None None m) ->
  exists q', linkFirst l q = (Ok tt, q') /\ qlist q' ((l, m) :: es) /\ framed (l :: es.*1) q q'.
Proof.
  intros [Hh Ht Hs Hn] Hin Hl. unfold linkFirst. rewrite bind_gets, Hh, bind_modify.
  destruct es as [|e es]; simpl first; cbn match.
  - rewrite bind_modify, (lift_write _ l (link None None m) _) by exact Hl. eexists. split; [reflexivity|].
    split; [|solve_framed]. split; qsimp; try done.
    + split; [by eapply lookup_write_eq|done].
    + by apply NoDup_singleton.
  - destruct Hs as [He Hs]. rewrite fmap_cons in Hn. apply NoDup_cons in Hn as [Hne Hn].
    not_in Hin.
    match goal with |- context [mbind _ _ ?s] => set (q1 := s) end.
    assert (cells q1 !! fst e = Some (link None (first es None) (snd e))) as He1 by done.
    qwrite He1. rewrite (lift_write _ l (link None None m)).
    2: { qsimp. by other_cells. }
    eexists. split; [reflexivity|]. subst q1. split; [|solve_framed].
    split; qsimp; try done.
    + split; [|split].
      * eapply lookup_write_eq. rewrite lookup_write_ne; [done|]. intros <-; tauto.
      * rewrite lookup_write_ne by tauto. by eapply lookup_write_eq.
      * apply dseg_write; [tauto|]. by apply dseg_write.
    + apply NoDup_cons. split; [apply not_elem_of_cons; tauto|]. by apply NoDup_cons.
Qed.

Lemma linkLast_eq q pre t l m :
  qlist q (pre ++ [t]) -> l ∉ (pre ++ [t]).*1 -> cells q !! l = Some (link None None m) ->
  exists q', linkLast l (fst t) q = (Ok tt, q') /\ qlist q' (pre ++ [t; (l, m)]) /\
    framed (l :: (pre ++ [t]).*1) q q'.
Proof.
  intros [Hh Ht Hs Hn] Hin Hl. apply dseg_app in Hs as [Hpre [Hcell _]]. not_in Hin.
  rewrite fmap_app in Hn. apply NoDup_app in Hn as (Hn & Hnt & _).
  assert (fst t ∉ pre.*1) as Htp by (intros H; apply (Hnt _ H), list_elem_of_here).
  unfold linkLast. qwrite Hl.
  erewrite (bind_Ok (lift (writeMsg (fst t) _))).
  2: { apply lift_write. qsimp. rewrite lookup_write_ne by tauto. exact Hcell. }
  cbn beta. unfold modify. eexists. split; [reflexivity|]. split; [|solve_framed].
  split; qsimp.
  - rewrite Hh, !first_app. reflexivity.
  - by rewrite final_app.
  - apply dseg_app. split; [apply dseg_write; [done|]; by apply dseg_write; [tauto|]|].
    split; [|split; [|done]].
    + eapply lookup_write_eq. rewrite lookup_write_ne by tauto. exact Hcell.
    + rewrite lookup_write_ne by distinct. by eapply lookup_write_eq.
  - rewrite fmap_app. apply NoDup_app. cbn. split; [done|]. split.
    + intros x Hx. rewrite !elem_of_cons, elem_of_nil. intros [->|[->|[]]]; tauto.
    + repeat apply NoDup_cons_2; [..|apply NoDup_nil_2]; rewrite ?elem_of_cons, ?elem_of_nil;
        [intros [E|[]]; symmetry in E; tauto|tauto].
Qed.

Lemma nodup_mid {A} (a b : list A) x : x ∉ a ++ b -> NoDup (a ++ b) -> NoDup (a ++ x :: b).
Proof.
  intros Hx Hn. rewrite <- Permutation_middle. by apply NoDup_cons_2.
Qed.

Lemma linkBetween_eq q pre c n suf l m :
  qlist q (pre ++ c :: n :: suf) -> l ∉ (pre ++ c :: n :: suf).*1 ->
  cells q !! l = Some (link None None m) ->
  exists q', linkBetween l (fst c) (fst n) q = (Ok tt, q') /\
    qlist q' (pre ++ c :: (l, m) :: n :: suf) /\ framed (l :: (pre ++ c :: n :: suf).*1) q q'.
Proof.
  intros [Hh Ht Hs Hn] Hin Hl. pose proof Hn as Hn'. pose proof Hin as Hin'.
  apply dseg_app in Hs as (Hpre & Hc & Hnn & Hsuf). cbn [first] in *. not_in Hin.
  rewrite fmap_app, !fmap_cons in Hn. apply NoDup_app in Hn as (_ & Hx & Hn).
  apply NoDup_cons in Hn as [Hcn Hn]. apply NoDup_cons in Hn as [Hns Hn].
  rewrite not_elem_of_cons in Hcn.
  assert (fst c ∉ pre.*1) as Hcp by (intros H; apply (Hx _ H), list_elem_of_here).
  assert (fst n ∉ pre.*1) as Hnp.
  { intros H. apply (Hx _ H). by apply list_elem_of_further, list_elem_of_here. }
  unfold linkBetween. qwrite Hl.
  erewrite (bind_Ok (lift (writeMsg l _))).
  2: { apply lift_write. qsimp. eapply lookup_write_eq, Hl. }
  erewrite (bind_Ok (lift (writeMsg (fst n) _))).
  2: { apply lift_write. qsimp. other_cells. exact Hnn. }
  erewrite lift_write.
  2: { qsimp. other_cells. exact Hc. }
  eexists. split; [reflexivity|]. split; [|solve_framed].
  split; qsimp.
  - rewrite Hh, !first_app. reflexivity.
  - by rewrite Ht, !final_app.
  - apply dseg_app. split; [repeat (apply dseg_write; [tauto|]); done|].
    cbn [dseg fst snd first]. split; [|split; [|split]].
    + eapply lookup_write_eq. other_cells. exact Hc.
    + other_cells. eapply lookup_write_eq, lookup_write_eq. exact Hl.
    + other_cells. eapply lookup_write_eq. other_cells. exact Hnn.
    + repeat (apply dseg_write; [tauto|]). done.
  - rewrite fmap_app in *. change (NoDup (pre.*1 ++ [fst c] ++ l :: (n :: suf).*1)).
    rewrite app_assoc. apply nodup_mid; rewrite <- app_assoc; done.
Qed.

(** The walk from the tail stops at the last entry that is not later than [w]. *)
Lemma walkBack_eq w c mid : forall fuel q x pre suf,
  dseg (cells q) None (pre ++ c :: mid ++ x :: suf) None ->
  when (snd c) <= w -> Forall (fun e => w < when (snd e)) mid -> (length mid < fuel)%nat ->
  walkBack fuel w (fst x) q = (Ok (fst c, default (fst x) (first mid None)), q).
Proof.
  induction mid as [|y mid IH] using rev_ind; intros fuel q x pre suf Hs Hc Hmid Hfuel.
  - destruct fuel as [|fuel]; [simpl in Hfuel; lia|].
    apply dseg_app in Hs as (_ & Hcell & Hx & _). cbn [app] in *.
    simpl walkBack. qread Hx. cbn [deref link prevMessage set_prev]. rewrite bind_ret. qread Hcell.
    change (when (link _ _ (snd c))) with (when (snd c)). by rewrite (proj2 (Z.leb_le _ _) Hc).
  - destruct fuel as [|fuel]; [rewrite length_app in Hfuel; lia|].
    rewrite length_app in Hfuel; cbn in Hfuel. apply Forall_app in Hmid as [Hmid Hy].
    apply Forall_cons_1 in Hy as [Hy _].
    rewrite <- app_assoc in Hs. cbn [app] in Hs. pose proof Hs as Hs2.
    replace (pre ++ c :: mid ++ y :: x :: suf) with ((pre ++ c :: mid) ++ y :: x :: suf)
      in Hs by by rewrite <- app_assoc.
    apply dseg_app in Hs as (_ & Hcy & Hcx & _).
    simpl walkBack. qread Hcx. cbn [deref link prevMessage set_prev fst]. rewrite bind_ret.
    qread Hcy. change (when (link _ _ (snd y))) with (when (snd y)).
    rewrite (proj2 (Z.leb_gt _ _) Hy). rewrite (IH _ _ y pre (x :: suf)); [|done..|lia].
    by destruct mid.
Qed.

(** ** The specification: a list sorted by [when] *)

Definition due_le (a b : entry) : Prop := when (snd a) <= when (snd b).

(** After the entries that are not later than [e]. *)
Fixpoint insertBy (e : entry) (es : list entry) : list entry :=
  match es with
  | [] => [e]
  | x :: es' => if when (snd x) <=? when (snd e) then x :: insertBy e es' else e :: es
  end.

(** Time 0 goes to the front, whatever is there. *)
Definition enq (e : entry) (es : list entry) : list entry :=
  if when (snd e) =? 0 then e :: es else insertBy e es.

Lemma insertBy_split e es :
  StronglySorted due_le es ->
  exists lo hi, es = lo ++ hi /\ insertBy e es = lo ++ e :: hi /\
    Forall (fun x => when (snd x) <= when (snd e)) lo /\
    Forall (fun x => when (snd e) < when (snd x)) hi.
Proof.
  induction es as [|x es IH]; intros Hs; simpl; [by exists [], []|].
  apply StronglySorted_inv in Hs as [Hs Hx].
  destruct (Z.leb_spec (when (snd x)) (when (snd e))) as [Hle|Hgt].
  - destruct (IH Hs) as (lo & hi & -> & -> & Hlo & Hhi). exists (x :: lo), hi. auto.
  - exists [], (x :: es). split; [done|]. split; [done|]. split; [done|].
    constructor; [done|]. eapply Forall_impl; [exact Hx|]. unfold due_le. intros; lia.
Qed.

Lemma insertBy_perm e es : insertBy e es ≡ₚ e :: es.
Proof.
  induction es as [|x es IH]; simpl; [done|]. destruct (_ <=? _); [|done].
  rewrite IH. constructor.
Qed.

Lemma enq_perm e es : enq e es ≡ₚ e :: es.
Proof. unfold enq. destruct (_ =? 0); [done|apply insertBy_perm]. Qed.

Lemma enq_sorted e es :
  StronglySorted due_le es -> Forall (fun x => 0 <= when (snd x)) es ->
  StronglySorted due_le (enq e es).
Proof.
  intros Hs Hz. unfold enq. destruct (Z.eqb_spec (when (snd e)) 0) as [H0|H0].
  { constructor; [done|]. eapply Forall_impl; [exact Hz|]. unfold due_le. intros; lia. }
  clear H0 Hz. induction es as [|x es IH]; simpl; [by repeat constructor|].
  apply StronglySorted_inv in Hs as Hs'. destruct Hs' as [Hs' Hx].
  destruct (Z.leb_spec (when (snd x)) (when (snd e))) as [Hle|Hgt].
  - constructor; [auto|]. rewrite insertBy_perm. by constructor.
  - constructor; [done|]. constructor; [unfold due_le; lia|].
    eapply Forall_impl; [exact Hx|]. unfold due_le. intros; lia.
Qed.

Lemma final_last es e p : final (es ++ [e]) p = Some (fst e).
Proof. by rewrite final_app. Qed.

Lemma insert_first q l w h m :
  mHeadMessage q = Some h -> cells q !! h = Some m -> (w = 0 \/ w < when m) ->
  insert l w q = linkFirst l q.
Proof.
  intros Hh Hc Hw. unfold insert, goesFirst.
  assert (((w =? 0) || (w <? when m)) = true) as E.
  { destruct Hw as [->|Hw]; [done|]. rewrite (proj2 (Z.ltb_lt _ _) Hw). apply orb_true_r. }
  erewrite bind_Ok; [|rewrite bind_gets, Hh; qread Hc; rewrite E; reflexivity]. done.
Qed.

Lemma insert_eq q es l m :
  qlist q es -> StronglySorted due_le es -> l ∉ es.*1 ->
  cells q !! l = Some (link None None m) ->
  exists q', insert l (when m) q = (Ok tt, q') /\ qlist q' (enq (l, m) es) /\
    framed (l :: es.*1) q q'.
Proof.
  intros Hq Hsort Hin Hl. destruct (insertBy_split (l, m) es Hsort) as (lo & hi & -> & E & Hlo & Hhi).
  cbn [snd] in *. destruct (linkFirst_eq q _ l m Hq Hin Hl) as (q1 & Hrun & Hq1 & Hf1).
  unfold enq. cbn [snd]. destruct lo as [|a lo].
  { assert (insert l (when m) q = (Ok tt, q1)) as Hi.
    { destruct hi as [|b hi].
      - unfold insert, goesFirst. pose proof (ql_head _ _ Hq) as Hh.
        erewrite bind_Ok; [|rewrite bind_gets, Hh; reflexivity]. exact Hrun.
      - destruct (ql_seg _ _ Hq) as [Hb _]. apply Forall_cons_1 in Hhi as [Hhi _].
        rewrite (insert_first q l _ _ _ (ql_head _ _ Hq) Hb); [exact Hrun|by right]. }
    exists q1. split; [done|]. split; [|done]. rewrite E. by destruct (_ =? 0). }
  destruct (ql_seg _ _ Hq) as [Ha _].
  destruct (Z.eqb_spec (when m) 0) as [H0|H0].
  { exists q1. split; [|done].
    rewrite (insert_first q l _ _ _ (ql_head _ _ Hq) Ha); [exact Hrun|by left]. }
  assert (goesFirst (when m) q = (Ok false, q)) as Hgf.
  { unfold goesFirst. rewrite bind_gets, (ql_head _ _ Hq). cbn [app first]. qread Ha.
    apply Forall_cons_1 in Hlo as [Hlo _]. change (when (link _ _ (snd a))) with (when (snd a)).
    rewrite (proj2 (Z.eqb_neq _ _) H0), (proj2 (Z.ltb_ge _ _) Hlo). done. }
  unfold insert. mstep Hgf. rewrite bind_gets. rewrite E. clear Ha Hrun Hq1 Hf1 q1.
  destruct hi as [|h hi _] using rev_ind.
  - rewrite app_nil_r in *. destruct (exists_last (l := a :: lo)) as (pre & t & Et); [done|].
    rewrite Et in *. rewrite (ql_tail _ _ Hq), final_last. cbn [deref]. rewrite bind_ret.
    pose proof (ql_seg _ _ Hq) as Hs. apply dseg_app in Hs as (_ & Ht & _). qread Ht.
    apply Forall_app in Hlo as [_ Hlo]. apply Forall_cons_1 in Hlo as [Hlo _].
    change (when (link _ _ (snd t))) with (when (snd t)). rewrite (proj2 (Z.leb_le _ _) Hlo).
    destruct (linkLast_eq q pre t l m Hq Hin Hl) as (q' & Hrun & Hq' & Hf).
    exists q'. split; [done|]. by rewrite <- app_assoc.
  - rewrite (ql_tail _ _ Hq), app_assoc, final_last. cbn [deref]. rewrite bind_ret.
    pose proof (ql_seg _ _ Hq) as Hs. pose proof Hs as Hs2. rewrite app_assoc in Hs2.
    apply dseg_app in Hs2 as (_ & Ht & _). qread Ht.
    apply Forall_app in Hhi as [Hmid Hh]. apply Forall_cons_1 in Hh as [Hh _].
    change (when (link _ _ (snd h))) with (when (snd h)). rewrite (proj2 (Z.leb_gt _ _) Hh).
    unfold loopFuel. rewrite bind_gets.
    destruct (exists_last (l := a :: lo)) as (pre & c & Ec); [done|]. rewrite Ec in *.
    rewrite <- app_assoc in *. cbn [app] in *.
    apply Forall_app in Hlo as [_ Hc]. apply Forall_cons_1 in Hc as [Hc _].
    assert (length hi < S (S (length (msgs (heap q)))))%nat as Hfuel.
    { pose proof (dseg_length _ _ _ _ Hs (ql_nodup _ _ Hq)) as Hlen. unfold cells in Hlen.
      rewrite length_app in Hlen. cbn in Hlen. rewrite length_app in Hlen. cbn in Hlen. lia. }
    mstep (walkBack_eq (when m) c hi _ q h pre [] Hs Hc Hmid Hfuel).
    rewrite <- !app_assoc. cbn [app].
    destruct hi as [|n hi]; cbn [app first default] in *;
      destruct (linkBetween_eq q pre c _ _ l m Hq Hin Hl) as (q' & Hrun & Hq' & Hf);
      exists q'; done.
Qed.

(** *** The invariant of the queue

    [es]: the queued messages in order; [pl]: the pooled ones.  A message that is in neither is
    free, or it was dequeued and its consumer has not recycled it yet. *)

Definition queued (e : entry) : Prop :=
  isInUse (snd e) = true /\ 0 <= when (snd e) /\ target (snd e) <> None.

Record queue_rep (q : MessageQueue) (es : list entry) (pl : list nat) : Prop := {
  qr_list : qlist q es;
  qr_entries : Forall queued es;
  qr_sorted : StronglySorted due_le es;
  qr_pool : pool_rep (heap q) pl;
  qr_disj : forall l, l ∈ es.*1 -> l ∉ pl;
  qr_quit : mQuitting q = true -> es = [];
  qr_clean : forall l m, cells q !! l = Some m -> isInUse m = false -> link None None m = m;
}.

(** [rs]: the messages of [es] that were recycled on the way from [q] to [q']. *)
Record swept (es rs : list entry) (q q' : MessageQueue) : Prop := {
  sw_cells : forall j, j ∉ es.*1 -> cells q' !! j = cells q !! j;
  sw_cancelled : cancelled (heap q') =
    cancelled (heap q) ++ (rs ≫= fun e => option_list (result (snd e)));
  sw_bundles : bundles (heap q') = bundles (heap q);
  sw_cond : mCondition q' = mCondition q;
  sw_allowed : mQuitAllowed q' = mQuitAllowed q;
  sw_quitting : mQuitting q' = mQuitting q;
}.

Lemma swept_refl es q : swept es [] q q.
Proof. split; try done. simpl. by rewrite app_nil_r. Qed.

Lemma swept_trans es rs1 rs2 q1 q2 q3 :
  swept es rs1 q1 q2 -> swept es rs2 q2 q3 -> swept es (rs1 ++ rs2) q1 q3.
Proof.
  intros [] []. split; try congruence.
  - intros j Hj. rewrite <- (sw_cells0 j Hj). auto.
  - rewrite bind_app, app_assoc. congruence.
Qed.

Lemma swept_mono es es' rs q q' :
  (forall j, j ∈ es.*1 -> j ∈ es'.*1) -> swept es rs q q' -> swept es' rs q q'.
Proof. intros H []. split; try done. eauto. Qed.

Lemma framed_swept es ls q q' :
  (forall j, j ∈ ls -> j ∈ es.*1) -> framed ls q q' -> swept es [] q q'.
Proof.
  intros Hls []. split; try done; simpl; rewrite ?app_nil_r; try done. eauto.
Qed.

(** The pool after recycling. *)
Definition push (pl : list nat) (e : entry) : list nat :=
  if decide (Z.of_nat (length pl) < 42) then fst e :: pl else pl.
Definition pushes (rs : list entry) (pl : list nat) : list nat := fold_left push rs pl.

Lemma in_push l pl e : l ∈ push pl e -> l = fst e \/ l ∈ pl.
Proof. unfold push. destruct (decide _); rewrite ?elem_of_cons; tauto. Qed.

Lemma isInUse_link p n m : isInUse (link p n m) = isInUse m.
Proof. reflexivity. Qed.

Lemma seg_in_use ms p es n l m :
  dseg ms p es n -> Forall queued es ->
  l ∈ es.*1 -> ms !! l = Some m -> isInUse m = true.
Proof.
  intros Hs He Hl Hm. apply list_elem_of_fmap in Hl as ((l' & m') & -> & Hin).
  destruct (dseg_lookup _ _ _ _ _ _ Hs Hin) as (a & b & Hc).
  rewrite Forall_forall in He. destruct (He _ Hin) as [Hu _]. cbn in *.
  rewrite Hc in Hm. by injection Hm as <-.
Qed.

Lemma rep_in_use q es pl l m :
  queue_rep q es pl -> cells q !! l = Some m -> isInUse m = false -> l ∉ es.*1 /\ l ∉ pl.
Proof.
  intros Hq Hl Hu. split; intros Hin.
  - pose proof (seg_in_use _ _ _ _ _ _ (ql_seg _ _ (qr_list _ _ _ Hq)) (qr_entries _ _ _ Hq)
      Hin Hl). congruence.
  - destruct (chain_lookup _ _ _ (pr_chain _ _ (qr_pool _ _ _ Hq)) Hin) as (n & Hc).
    unfold cells in Hl. rewrite Hc in Hl. by injection Hl as <-.
Qed.

(** Only links of entries that stay were written. *)
Lemma rep_sub q q' es es' pl :
  queue_rep q es pl -> sublist es' es -> qlist q' es' -> framed (es'.*1) q q' ->
  queue_rep q' es' pl.
Proof.
  intros Hq Hsub Hq' [].
  assert (forall e, e ∈ es' -> e ∈ es) as Hin by (intros e He; by eapply elem_of_sublist).
  assert (Forall queued es') as Hall.
  { pose proof (qr_entries _ _ _ Hq) as Hes. rewrite Forall_forall in Hes |- *. auto. }
  split; try done.
  - pose proof (qr_sorted _ _ _ Hq) as Hsort. revert Hsort. clear -Hsub.
    induction Hsub as [|x l1 l2 Hs IH|x l1 l2 Hs IH]; [done|..];
      intros [Hss Hx]%StronglySorted_inv; [|auto].
    constructor; [auto|]. rewrite Forall_forall in Hx |- *.
    intros y Hy. apply Hx. by eapply elem_of_sublist.
  - eapply pool_rep_ext; [apply (qr_pool _ _ _ Hq)|done|]. intros j Hj. apply fr_cells0.
    intros Hl'. apply (qr_disj _ _ _ Hq j); [|done].
    apply list_elem_of_fmap in Hl' as (e & -> & He). apply list_elem_of_fmap. eauto.
  - intros l Hl. apply (qr_disj _ _ _ Hq). apply list_elem_of_fmap in Hl as (e & -> & He).
    apply list_elem_of_fmap. eauto.
  - rewrite fr_quitting0. intros Hx. apply (qr_quit _ _ _ Hq) in Hx. subst es.
    by apply sublist_nil_r in Hsub.
  - intros l m Hl Hu. destruct (decide (l ∈ es'.*1)) as [Hd|Hd].
    + pose proof (seg_in_use _ _ _ _ _ _ (ql_seg _ _ Hq') Hall Hd Hl). congruence.
    + rewrite fr_cells0 in Hl by done. by apply (qr_clean _ _ _ Hq l).
Qed.

(** *** The links of removed entries *)

Lemma advance_eq q e es :
  qlist q (e :: es) ->
  exists q', advanceHead (first es None) q = (Ok tt, q') /\ qlist q' es /\
    framed (es.*1) q q' /\ cells q' !! fst e = Some (link None (first es None) (snd e)).
Proof.
  intros [Hh Ht [He Hs] Hn]. rewrite fmap_cons in Hn. apply NoDup_cons in Hn as [Hne Hn].
  unfold advanceHead. rewrite bind_modify. destruct es as [|x es]; cbn [first].
  - eexists. split; [reflexivity|]. split; [by split|]. split; [solve_framed|done].
  - destruct Hs as [Hx Hs]. rewrite fmap_cons in *. apply NoDup_cons in Hn as [Hnx Hn].
    rewrite not_elem_of_cons in Hne.
    rewrite (lift_write _ (fst x) _ _) by exact Hx. eexists. split; [reflexivity|].
    split; [|split; [solve_framed|]].
    + split; qsimp; try done; [|by apply NoDup_cons_2].
      split; [by eapply lookup_write_eq|]. by apply dseg_write.
    + qsimp. by other_cells.
Qed.

Lemma unlinkAfter_eq q pre c x suf :
  qlist q (pre ++ c :: x :: suf) ->
  exists q', unlinkAfter (fst c) (first suf None) q = (Ok tt, q') /\
    qlist q' (pre ++ c :: suf) /\ framed ((pre ++ c :: suf).*1) q q' /\
    cells q' !! fst x = Some (link (Some (fst c)) (first suf None) (snd x)).
Proof.
  intros [Hh Ht Hs Hn]. apply dseg_app in Hs as (Hpre & Hc & Hx & Hs).
  assert (NoDup ((pre ++ c :: suf).*1)) as Hn'.
  { eapply sublist_NoDup; [exact Hn|]. rewrite !fmap_app, !fmap_cons.
    apply sublist_app; [done|]. by apply sublist_skip, sublist_cons. }
  rewrite fmap_app, !fmap_cons in Hn. apply NoDup_app in Hn as (_ & Hd & Hn).
  apply NoDup_cons in Hn as [Hcx Hn]. apply NoDup_cons in Hn as [Hxs Hn].
  rewrite not_elem_of_cons in Hcx.
  assert (fst c ∉ pre.*1) as Hcp by (intros H; apply (Hd _ H), list_elem_of_here).
  unfold unlinkAfter. destruct suf as [|y suf]; cbn [first].
  - erewrite bind_Ok; [|reflexivity]. rewrite (lift_write _ (fst c) _ _) by exact Hc.
    eexists. split; [reflexivity|]. split; [|split; [solve_framed|]].
    + split; qsimp; try done.
      * by rewrite Hh, !first_app.
      * by rewrite final_app.
      * apply dseg_app. split; [by apply dseg_write|]. split; [|done].
        by eapply lookup_write_eq.
    + qsimp. by other_cells.
  - destruct Hs as [Hy Hs]. rewrite fmap_cons in *. apply NoDup_cons in Hn as [Hys Hn].
    rewrite not_elem_of_cons in Hcx, Hxs.
    assert (fst y ∉ pre.*1) as Hyp.
    { intros H. apply (Hd _ H). by do 2 apply list_elem_of_further; apply list_elem_of_here. }
    rewrite (bind_Ok _ _ _ _ _ (lift_write _ (fst y) _ _ Hy)).
    rewrite (lift_write _ (fst c) (link (final pre None) (Some (fst x)) (snd c))).
    2: { qsimp. by other_cells. }
    eexists. split; [reflexivity|]. split; [|split; [solve_framed|]].
    + split; qsimp; try done.
      * by rewrite Hh, !first_app.
      * by rewrite Ht, !final_app.
      * apply dseg_app. split; [by apply dseg_write; [|apply dseg_write]|].
        split; [|split].
        -- eapply lookup_write_eq. other_cells. exact Hc.
        -- other_cells. by eapply lookup_write_eq.
        -- by apply dseg_write; [tauto|apply dseg_write].
    + qsimp. by other_cells.
Qed.

Lemma rep_recycle q es pl l m :
  queue_rep q es pl -> cells q !! l = Some m -> l ∉ es.*1 -> l ∉ pl ->
  exists q', lift (recycle l) q = (Ok tt, q') /\ queue_rep q' es (push pl (l, m)) /\
    swept [(l, m)] [(l, m)] q q'.
Proof.
  intros Hq Hl Hin Hpl.
  destruct (recycle_eq _ _ _ _ (qr_pool _ _ _ Hq) Hl Hpl) as (w' & Hrun & Hp & Hms & Hb & Hc).
  exists (set_heap w' q). split; [unfold lift, zoom; by rewrite Hrun|].
  assert (forall j, j <> l -> msgs w' !! j = cells q !! j) as Hcells.
  { intros j Hj. rewrite Hms. by rewrite lookup_write_ne by done. }
  destruct Hq as [[Hh Ht Hs Hn] He Ho _ Hd Hqt Hcl]. split.
  - split; try done.
    + split; try done. eapply dseg_ext; [|exact Hs]. intros j Hj. apply Hcells. by intros ->.
    + intros j Hj [->|Hj']%in_push; [done|]. by apply (Hd j).
    + intros j mj Hj Hu. unfold cells in Hj. cbn [set_heap heap] in Hj.
      destruct (decide (j = l)) as [->|Hne]; [|rewrite Hcells in Hj by done; eauto].
      rewrite Hms, list_lookup_insert_eq in Hj by (by eapply lookup_lt_Some).
      injection Hj as <-. by destruct (decide _).
  - split; try done.
    + intros j Hj. apply Hcells. intros ->. apply Hj, list_elem_of_here.
    + cbn. by rewrite app_nil_r.
Qed.

Lemma rep_recycle_entry q es pl e a n :
  queue_rep q es pl -> cells q !! fst e = Some (link a n (snd e)) -> fst e ∉ es.*1 ->
  fst e ∉ pl ->
  exists q', lift (recycle (fst e)) q = (Ok tt, q') /\ queue_rep q' es (push pl e) /\
    swept [e] [e] q q'.
Proof.
  intros Hq Hl Hin Hpl.
  destruct (rep_recycle _ _ _ _ _ Hq Hl Hin Hpl) as (q' & Hrun & Hq' & []).
  exists q'. by split; [|split].
Qed.

(** *** The loops *)

Definition hits (p : Message -> bool) (e : entry) : bool := p (snd e).
Definition hit (p : Message -> bool) (e : entry) : Prop := hits p e = true.
Definition miss (p : Message -> bool) (e : entry) : Prop := hits p e = false.
#[export] Instance hit_dec p e : Decision (hit p e) := bool_eq_dec _ _.
#[export] Instance miss_dec p e : Decision (miss p e) := bool_eq_dec _ _.

Section Loops.
(** The conditions of the search and removal loops do not read the links. *)
Context (p : Message -> bool) (p_link : forall a b m, p (link a b m) = p m).

Lemma removeFront_eq es : forall q pl fuel found,
  queue_rep q es pl -> (length es < fuel)%nat ->
  exists rs rest q', es = rs ++ rest /\ Forall (hit p) rs /\
    (forall e es', rest = e :: es' -> hits p e = false) /\
    removeFront fuel p (first es None) found q =
      (Ok (first rest None, found || negb (bool_decide (rs = []))), q') /\
    queue_rep q' rest (pushes rs pl) /\ swept es rs q q'.
Proof using p_link.
  induction es as [|e es IH]; intros q pl fuel found Hq Hfuel;
    (destruct fuel as [|fuel]; [simpl in Hfuel; lia|]); simpl in Hfuel.
  { exists [], [], q. rewrite orb_false_r. split_and!; try done. apply swept_refl. }
  pose proof (ql_seg _ _ (qr_list _ _ _ Hq)) as [He _]. cbn [first removeFront]. qread He.
  rewrite p_link. destruct (hits p e) eqn:Hp; unfold hits in Hp; rewrite Hp.
  2: { exists [], (e :: es), q. rewrite orb_false_r. split_and!; try done.
       - by intros ? ? [= -> ->].
       - apply swept_refl. }
  destruct (advance_eq _ _ _ (qr_list _ _ _ Hq)) as (q1 & Hrun1 & Hl1 & Hf1 & Hc1).
  pose proof (qr_disj _ _ _ Hq (fst e) (list_elem_of_here _ _)) as Hpl.
  pose proof (ql_nodup _ _ (qr_list _ _ _ Hq)) as Hn. rewrite fmap_cons in Hn.
  apply NoDup_cons in Hn as [Hne _].
  assert (queue_rep q1 es pl) as Hq1 by (eapply rep_sub; [exact Hq|by apply sublist_cons|done..]).
  destruct (rep_recycle_entry _ _ _ _ _ _ Hq1 Hc1 Hne Hpl) as (q2 & Hrun2 & Hq2 & Hs2).
  change (nextMessage (link _ _ _)) with (first es None). mstep Hrun1. mstep Hrun2.
  destruct (IH q2 _ fuel true Hq2) as (rs & rest & q3 & -> & Hrs & Hrest & Hrun3 & Hq3 & Hs3);
    [lia|].
  exists (e :: rs), rest, q3. split_and!; try done; [by constructor|..].
  - rewrite Hrun3. by rewrite orb_true_r.
  - change (e :: rs) with ([] ++ [e] ++ rs).
    eapply swept_trans; [eapply framed_swept; [|exact Hf1]|eapply swept_trans].
    + intros j Hj. by apply list_elem_of_further.
    + eapply swept_mono; [|exact Hs2]. intros j Hj. apply list_elem_of_singleton in Hj as ->.
      apply list_elem_of_here.
    + eapply swept_mono; [|exact Hs3]. intros j Hj. by apply list_elem_of_further.
Qed.

Lemma removeRest_eq rest : forall q pre c pl fuel found,
  queue_rep q (pre ++ c :: rest) pl -> (S (length rest) < fuel)%nat ->
  exists q', removeRest fuel p (Some (fst c)) found q =
      (Ok (found || existsb (hits p) rest), q') /\
    queue_rep q' (pre ++ c :: filter (miss p) rest)
      (pushes (filter (hit p) rest) pl) /\
    swept (pre ++ c :: rest) (filter (hit p) rest) q q'.
Proof using p_link.
  induction rest as [|x rest IH]; intros q pre c pl fuel found Hq Hfuel;
    (destruct fuel as [|fuel]; [simpl in Hfuel; lia|]); simpl in Hfuel;
    pose proof (ql_seg _ _ (qr_list _ _ _ Hq)) as Hseg;
    apply dseg_app in Hseg as (_ & Hc & Hseg); cbn [removeRest]; qread Hc;
    change (nextMessage (link _ ?n _)) with n; cbn [first].
  { exists q. rewrite orb_false_r. split; [destruct fuel; [lia|done]|].
    split; [exact Hq|apply swept_refl]. }
  destruct Hseg as [Hx _]. qread Hx. rewrite p_link.
  cbn [existsb]. destruct (hits p x) eqn:Hp; pose proof Hp as Hpx; unfold hits in Hpx; rewrite Hpx.
  - destruct (unlinkAfter_eq _ _ _ _ _ (qr_list _ _ _ Hq)) as (q1 & Hrun1 & Hl1 & Hf1 & Hc1).
    assert (queue_rep q1 (pre ++ c :: rest) pl) as Hq1.
    { eapply rep_sub; [exact Hq| |done..].
      apply sublist_app; [done|]. by apply sublist_skip, sublist_cons. }
    assert (fst x ∈ (pre ++ c :: x :: rest).*1) as Hxin.
    { rewrite fmap_app, elem_of_app. right.
      apply list_elem_of_further, list_elem_of_here. }
    pose proof (qr_disj _ _ _ Hq (fst x) Hxin) as Hpl.
    pose proof (ql_nodup _ _ (qr_list _ _ _ Hq)) as Hn.
    replace (pre ++ c :: x :: rest) with ((pre ++ [c]) ++ x :: rest) in Hn
      by by rewrite <- app_assoc.
    rewrite <- Permutation_middle, fmap_cons, <- app_assoc in Hn.
    apply NoDup_cons in Hn as [Hne _].
    destruct (rep_recycle_entry _ _ _ _ _ _ Hq1 Hc1 Hne Hpl) as (q2 & Hrun2 & Hq2 & Hs2).
    change (nextMessage (link _ ?n _)) with n. mstep Hrun1. mstep Hrun2.
    destruct (IH q2 pre c _ fuel true Hq2) as (q3 & Hrun3 & Hq3 & Hs3); [lia|].
    exists q3. rewrite filter_cons_False, filter_cons_True by (unfold hit, miss; congruence).
    split; [rewrite Hrun3; by destruct found|]. split; [exact Hq3|].
    assert (forall j, j ∈ (pre ++ c :: rest).*1 -> j ∈ (pre ++ c :: x :: rest).*1) as Hmono.
    { intros j. rewrite !fmap_app, !fmap_cons, !elem_of_app, !elem_of_cons. tauto. }
    change (x :: filter ?P rest) with ([] ++ [x] ++ filter P rest).
    eapply swept_trans; [eapply framed_swept; [exact Hmono|exact Hf1]|eapply swept_trans].
    + eapply swept_mono; [|exact Hs2]. by intros j ->%list_elem_of_singleton.
    + eapply swept_mono; [|exact Hs3]. exact Hmono.
  - assert (pre ++ c :: x :: rest = (pre ++ [c]) ++ x :: rest) as E by by rewrite <- app_assoc.
    rewrite E in Hq.
    destruct (IH q _ x pl fuel found Hq) as (q1 & Hrun & Hq1 & Hs1); [lia|].
    exists q1. rewrite filter_cons_True, filter_cons_False by (unfold hit, miss; congruence). rewrite E.
    split; [exact Hrun|]. split; [by rewrite <- app_assoc in Hq1|done].
Qed.

Lemma removeIf_eq q es pl :
  queue_rep q es pl ->
  exists q', removeIf p q = (Ok (existsb (hits p) es), q') /\
    queue_rep q' (filter (miss p) es)
      (pushes (filter (hit p) es) pl) /\
    swept es (filter (hit p) es) q q'.
Proof using p_link.
  intros Hq. unfold removeIf, loopFuel. rewrite !bind_gets, (ql_head _ _ (qr_list _ _ _ Hq)).
  pose proof (dseg_length _ _ _ _ (ql_seg _ _ (qr_list _ _ _ Hq))
    (ql_nodup _ _ (qr_list _ _ _ Hq))) as Hlen. unfold cells in Hlen.
  set (fuel := S (S (length (msgs (heap q))))) in *.
  destruct (removeFront_eq es q pl fuel false Hq) as
    (rs & rest & q1 & -> & Hrs & Hrest & Hrun & Hq1 & Hs1); [lia|].
  mstep Hrun. cbn [orb].
  assert (filter (hit p) rs = rs) as Er
    by by apply filter_all.
  assert (filter (miss p) rs = []) as En.
  { apply filter_none. eapply Forall_impl; [exact Hrs|]. unfold hit, miss. congruence. }
  assert (existsb (hits p) rs = negb (bool_decide (rs = []))) as Ee.
  { destruct Hrs as [|e rs' He _]; [done|]. cbn [existsb]. by rewrite He. }
  rewrite existsb_app, !filter_app, Er, En, Ee. cbn [app].
  destruct rest as [|x rest].
  { exists q1. cbn [existsb filter list_filter]. rewrite !orb_false_r, !app_nil_r in *.
    split; [by destruct fuel|done]. }
  pose proof (Hrest _ _ eq_refl) as Hx. rewrite length_app in Hlen. cbn in Hlen.
  destruct (removeRest_eq rest q1 [] x _ fuel (negb (bool_decide (rs = []))) Hq1)
    as (q2 & Hrun2 & Hq2 & Hs2); [lia|].
  exists q2. rewrite filter_cons_True, filter_cons_False by (unfold hit, miss; congruence).
  cbn [existsb first]. rewrite Hx. split; [exact Hrun2|]. split.
  - unfold pushes in *. by rewrite fold_left_app.
  - eapply swept_trans; [exact Hs1|]. eapply swept_mono; [|exact Hs2].
    intros j Hj. rewrite fmap_app, elem_of_app. by right.
Qed.
End Loops.

Lemma search_eq p es : (forall a b m, p (link a b m) = p m) -> forall q pr fuel,
  dseg (cells q) pr es None -> (length es < fuel)%nat ->
  search fuel p (first es None) q = (Ok (existsb (hits p) es), q).
Proof.
  intros p_link. induction es as [|e es IH]; intros q pr fuel Hs Hfuel;
    (destruct fuel as [|fuel]; [simpl in Hfuel; lia|]); [done|].
  destruct Hs as [He Hs]. cbn [first search existsb]. qread He. rewrite p_link.
  unfold hits at 1. destruct (p (snd e)); [done|]. simpl in Hfuel.
  apply (IH q (Some (fst e))); [done|lia].
Qed.

Lemma rep_fuel q es pl :
  queue_rep q es pl -> (length es < S (S (length (msgs (heap q)))))%nat.
Proof.
  intros Hq. pose proof (dseg_length _ _ _ _ (ql_seg _ _ (qr_list _ _ _ Hq))
    (ql_nodup _ _ (qr_list _ _ _ Hq))) as Hlen. unfold cells in Hlen. lia.
Qed.

Lemma hasMatch_eq p q es pl :
  (forall a b m, p (link a b m) = p m) -> queue_rep q es pl ->
  hasMatch p q = (Ok (existsb (hits p) es), q).
Proof.
  intros Hp Hq. unfold hasMatch, loopFuel.
  rewrite !bind_gets, (ql_head _ _ (qr_list _ _ _ Hq)).
  eapply search_eq; [done|apply (ql_seg _ _ (qr_list _ _ _ Hq))|by eapply rep_fuel].
Qed.

(** [quit] recycles the messages while their links still stand. *)
Lemma recycleAll_eq es : forall q pr pl fuel,
  dseg (cells q) pr es None -> NoDup es.*1 -> (forall l, l ∈ es.*1 -> l ∉ pl) ->
  pool_rep (heap q) pl ->
  (forall l m, cells q !! l = Some m -> isInUse m = false -> link None None m = m) ->
  (length es < fuel)%nat ->
  exists q', recycleAll fuel (first es None) q = (Ok tt, q') /\ pool_rep (heap q') (pushes es pl) /\
    (forall l m, cells q' !! l = Some m -> isInUse m = false -> link None None m = m) /\
    swept es es q q' /\ mHeadMessage q' = mHeadMessage q.
Proof.
  induction es as [|e es IH]; intros q pr pl fuel Hs Hn Hd Hp Hcl Hfuel;
    (destruct fuel as [|fuel]; [simpl in Hfuel; lia|]); simpl in Hfuel.
  { exists q. split_and!; try done. apply swept_refl. }
  destruct Hs as [He Hs]. cbn [first recycleAll]. qread He.
  change (nextMessage (link _ ?n _)) with n. rewrite fmap_cons in Hn.
  apply NoDup_cons in Hn as [Hne Hn].
  pose proof (Hd (fst e) (list_elem_of_here _ _)) as Hpl.
  destruct (recycle_eq _ _ _ _ Hp He Hpl) as (w' & Hrun & Hp' & Hms & Hb & Hc).
  assert (lift (recycle (fst e)) q = (Ok tt, set_heap w' q)) as Hrun' by
    by unfold lift, zoom; rewrite Hrun.
  assert (forall j, j <> fst e -> msgs w' !! j = cells q !! j) as Hcells.
  { intros j Hj. rewrite Hms. by rewrite lookup_write_ne by done. }
  mstep Hrun'.
  edestruct (IH (set_heap w' q) (Some (fst e)) (push pl e) fuel)
    as (q' & Hrun2 & Hp2 & Hcl2 & Hs2 & Hh2);
    [ | | | | |lia|].
  - eapply dseg_ext; [|exact Hs]. intros j Hj. apply Hcells. by intros ->.
  - done.
  - intros l Hl [->|Hl']%in_push; [done|]. apply (Hd l); [by apply list_elem_of_further|done].
  - exact Hp'.
  - intros l m Hl Hu. unfold cells in Hl. cbn [set_heap heap] in Hl.
    destruct (decide (l = fst e)) as [->|Hne']; [|rewrite Hcells in Hl by done; eauto].
    rewrite Hms, list_lookup_insert_eq in Hl by (by eapply lookup_lt_Some).
    injection Hl as <-. by destruct (decide _).
  - exists q'. split_and!; try done. change (e :: es) with ([e] ++ es) at 2.
    eapply (swept_trans _ [e] es q (set_heap w' q)).
    + split; try done; [|cbn; rewrite app_nil_r; exact Hc].
      intros j Hj. apply Hcells. intros ->. apply Hj, list_elem_of_here.
    + eapply swept_mono; [|exact Hs2]. intros j Hj. by apply list_elem_of_further.
Qed.

(** *** The operations on the representation *)

(** The queued message: marked in use, with its time. *)
Definition stamped (w : Z) (m : Message) : Message :=
  set_when w (set_flags (Z.lor (flags m) FLAG_IN_USE) m).

Lemma stamped_in_use w m : isInUse (stamped w m) = true.
Proof.
  unfold isInUse, stamped, set_when, set_flags. cbn [flags]. apply Z.eqb_eq.
  apply Z.bits_inj'. intros n _. rewrite Z.land_spec, Z.lor_spec.
  by destruct (Z.testbit (flags m) n), (Z.testbit FLAG_IN_USE n).
Qed.

(** Writing a free message keeps the queue. *)
Lemma rep_write q es pl l x :
  queue_rep q es pl -> l ∉ es.*1 -> l ∉ pl -> (isInUse x = false -> link None None x = x) ->
  queue_rep (upd l x q) es pl.
Proof.
  intros [[Hh Ht Hs Hn] He Ho Hp Hd Hqt Hcl] Hl Hpl Hx. split; try done.
  - split; try done. by apply dseg_write.
  - by apply pool_rep_write.
  - intros j m Hj Hu. unfold cells in Hj. cbn in Hj. destruct (decide (j = l)) as [->|Hne].
    + destruct (decide (l < length (msgs (heap q)))%nat) as [Hlt|Hge].
      * rewrite list_lookup_insert_eq in Hj by done. injection Hj as <-. auto.
      * rewrite list_insert_ge in Hj by lia. eauto.
    + rewrite lookup_write_ne in Hj by done. eauto.
Qed.

Lemma rep_cond q es pl c : queue_rep q es pl -> queue_rep (set_cond c q) es pl.
Proof. intros [[] ? ? ? ? ? ?]. by split; [split|..]. Qed.

Lemma enqueue_eq q es pl l m w :
  queue_rep q es pl -> cells q !! l = Some m -> 0 <= w -> target m <> None ->
  isInUse m = false -> mQuitting q = false ->
  exists q', enqueueMessage l w q = (Ok true, q') /\
    queue_rep q' (enq (l, stamped w m) es) pl /\
    swept ((l, m) :: es) [] (set_cond Running q) q'.
Proof.
  intros Hq Hl Hw Ht Hu Hqt. destruct (rep_in_use _ _ _ _ _ Hq Hl Hu) as [Hin Hpl].
  pose proof (qr_clean _ _ _ Hq _ _ Hl Hu) as Hcl.
  unfold enqueueMessage. qread Hl. rewrite throw_if_false by by apply bool_decide_eq_false.
  rewrite throw_if_false by done. rewrite bind_gets, Hqt. unfold markInUse.
  set (m1 := stamped w m). qwrite Hl.
  erewrite (bind_Ok (lift (writeMsg l _))).
  2: { apply lift_write. qsimp. eapply lookup_write_eq, Hl. }
  cbn beta. change (set_when w _) with m1.
  set (q1 := upd l m1 (upd l _ q)).
  assert (queue_rep q1 es pl) as Hq1.
  { apply rep_write; [apply rep_write|..]; try done; intros Hx;
      change (isInUse (stamped w m) = false) in Hx; by rewrite stamped_in_use in Hx. }
  assert (link None None m1 = m1) as Hm1 by (unfold m1, stamped; by rewrite <- Hcl).
  assert (cells q1 !! l = Some (link None None m1)) as Hl1.
  { rewrite Hm1. eapply lookup_write_eq, lookup_write_eq, Hl. }
  destruct (insert_eq q1 es l m1 (qr_list _ _ _ Hq1) (qr_sorted _ _ _ Hq1) Hin Hl1)
    as (q2 & Hrun & Hl2 & Hf2). change (when m1) with w in Hrun. mstep Hrun.
  eexists. split; [reflexivity|]. split.
  - apply rep_cond. pose proof (enq_perm (l, m1) es) as Hperm.
    destruct Hq1 as [_ He Ho Hp Hd _ Hc1]. destruct Hf2.
    assert (Forall queued (enq (l, m1) es))
      as Hall by (rewrite Hperm; constructor; [split_and!; [apply stamped_in_use|..]|]; done).
    split; try done.
    + apply enq_sorted; [done|]. eapply Forall_impl; [exact He|]. by intros ? (_ & ? & _).
    + eapply pool_rep_ext; [exact Hp|done|]. intros j Hj. apply fr_cells0.
      intros [->|Hj']%elem_of_cons; [done|]. by apply (Hd j).
    + intros j. rewrite Hperm, fmap_cons, elem_of_cons. intros [->|Hj]; [done|]. by apply Hd.
    + rewrite fr_quitting0. change (mQuitting q1) with (mQuitting q). congruence.
    + intros j mj Hj Hu'. destruct (decide (j ∈ l :: es.*1)) as [Hjin|Hjin].
      * assert (j ∈ (enq (l, m1) es).*1) as Hje by by rewrite Hperm.
        pose proof (seg_in_use _ _ _ _ _ _ (ql_seg _ _ Hl2) Hall Hje Hj). congruence.
      * rewrite fr_cells0 in Hj by done. eauto.
  - destruct Hf2. split; try done; [|cbn; by rewrite app_nil_r].
    intros j Hj. cbn in Hj. change (cells (set_cond Running q2)) with (cells q2).
    rewrite fr_cells0 by done. rewrite not_elem_of_cons in Hj. unfold q1. qsimp.
    by other_cells.
Qed.

Lemma dequeue_due q e es pl now :
  queue_rep q (e :: es) pl -> mQuitting q = false -> when (snd e) <= now ->
  exists q', dequeueStep now q = (Ok (Some (Some (fst e))), q') /\ queue_rep q' es pl /\
    swept (e :: es) [] q q' /\ cells q' !! fst e = Some (link None None (snd e)) /\
    fst e ∉ es.*1 /\ fst e ∉ pl.
Proof.
  intros Hq Hqt Hw. pose proof (ql_seg _ _ (qr_list _ _ _ Hq)) as [He _].
  destruct (advance_eq _ _ _ (qr_list _ _ _ Hq)) as (q1 & Hrun & Hl1 & Hf1 & Hc1).
  assert (queue_rep q1 es pl) as Hq1 by (eapply rep_sub; [exact Hq|by apply sublist_cons|done..]).
  pose proof (qr_disj _ _ _ Hq (fst e) (list_elem_of_here _ _)) as Hpl.
  pose proof (ql_nodup _ _ (qr_list _ _ _ Hq)) as Hn. rewrite fmap_cons in Hn.
  apply NoDup_cons in Hn as [Hne _].
  pose proof (qr_entries _ _ _ Hq) as Hen. apply Forall_cons in Hen as [[Hu _] _].
  unfold dequeueStep. rewrite bind_gets, Hqt, bind_gets, (ql_head _ _ (qr_list _ _ _ Hq)).
  cbn [first]. qread He. change (when (link _ _ (snd e))) with (when (snd e)).
  rewrite (proj2 (Z.ltb_ge _ _)) by done. change (nextMessage (link _ ?n _)) with n.
  mstep Hrun. qwrite Hc1.
  erewrite (bind_Ok (lift (writeMsg (fst e) _))).
  2: { apply lift_write. qsimp. eapply lookup_write_eq, Hc1. }
  cbn beta. eexists. split; [reflexivity|].
  split; [|split; [|split; [|done]]].
  - apply rep_write; [apply rep_write|..]; try done; intros Hx;
      change (isInUse (snd e) = false) in Hx; congruence.
  - destruct Hf1. split; try done; [|cbn; by rewrite app_nil_r].
    intros j Hj. rewrite fmap_cons, not_elem_of_cons in Hj. destruct Hj as [Hj1 Hj2].
    rewrite <- fr_cells0 by done. qsimp. by other_cells.
  - eapply lookup_write_eq, lookup_write_eq, Hc1.
Qed.

Lemma dequeue_waits q es pl now :
  queue_rep q es pl -> mQuitting q = false ->
  (forall e, head es = Some e -> now < when (snd e)) ->
  dequeueStep now q = (Ok None, set_cond (Waiting (match es with
    | [] => None
    | e :: _ => Some (now + Z.min (u64 (when (snd e) - now)) Integer_MAX_VALUE)
    end)) q).
Proof.
  intros Hq Hqt Hw. unfold dequeueStep.
  rewrite bind_gets, Hqt, bind_gets, (ql_head _ _ (qr_list _ _ _ Hq)).
  destruct es as [|e es]; [done|]. cbn [first].
  pose proof (ql_seg _ _ (qr_list _ _ _ Hq)) as [He _]. qread He.
  change (when (link _ _ (snd e))) with (when (snd e)).
  specialize (Hw e eq_refl). by rewrite (proj2 (Z.ltb_lt _ _) Hw).
Qed.

Lemma quit_eq q es pl :
  queue_rep q es pl -> mQuitAllowed q = true -> mQuitting q = false ->
  exists q', quit q = (Ok true, q') /\ queue_rep q' [] (pushes es pl) /\
    swept es es (set_quitting true (set_cond Running q)) q'.
Proof.
  intros Hq Ha Hqt. unfold quit. rewrite bind_gets, Ha. cbn [negb].
  rewrite bind_gets, Hqt, bind_modify, bind_gets. cbn [set_quitting mHeadMessage].
  rewrite (ql_head _ _ (qr_list _ _ _ Hq)). unfold loopFuel. rewrite bind_gets.
  destruct (recycleAll_eq es (set_quitting true q) None pl
    (S (S (length (msgs (heap (set_quitting true q)))))) (ql_seg _ _ (qr_list _ _ _ Hq))
    (ql_nodup _ _ (qr_list _ _ _ Hq)) (qr_disj _ _ _ Hq) (qr_pool _ _ _ Hq)
    (qr_clean _ _ _ Hq)) as (q' & Hrun & Hp & Hc & Hs & _); [exact (rep_fuel _ _ _ Hq)|].
  mstep Hrun. eexists. split; [reflexivity|]. destruct Hs. split; [|by split].
  split; try done; [|constructor..|].
  - split; try done. constructor.
  - intros l Hl. by apply not_elem_of_nil in Hl.
Qed.

(** ** Properties of the operations *)

(** C3: [enqueueMessage] implements the stable sorted insertion and each of its
    error paths.  A message without a target or in use is refused and nothing changes; on a
    quitting queue the message is recycled and the call returns false; otherwise the message is
    marked in use, stamped with its time and linked in after the messages that are not later,
    at the front when its time is 0, and the consumer is woken. *)
Theorem enqueue_refines q es pl l m w :
  queue_rep q es pl -> cells q !! l = Some m -> 0 <= w ->
  (target m = None -> enqueueMessage l w q = (Throw IllegalArgumentException, q)) /\
  (target m <> None -> isInUse m = true ->
    enqueueMessage l w q = (Throw IllegalStateException, q)) /\
  (target m <> None -> isInUse m = false -> mQuitting q = true ->
    exists q', enqueueMessage l w q = (Ok false, q') /\ queue_rep q' [] (push pl (l, m)) /\
      swept [(l, m)] [(l, m)] q q') /\
  (target m <> None -> isInUse m = false -> mQuitting q = false ->
    exists q', enqueueMessage l w q = (Ok true, q') /\
      queue_rep q' (enq (l, stamped w m) es) pl /\
      swept ((l, m) :: es) [] (set_cond Running q) q').
Proof.
  intros Hq Hl Hw. unfold enqueueMessage. split_and!.
  - intros Ht. qread Hl. by rewrite throw_if_true by by apply bool_decide_eq_true.
  - intros Ht Hu. qread Hl. rewrite throw_if_false by by apply bool_decide_eq_false.
    by rewrite throw_if_true.
  - intros Ht Hu Hqt. destruct (rep_in_use _ _ _ _ _ Hq Hl Hu) as [Hin Hpl].
    destruct (rep_recycle _ _ _ _ _ Hq Hl Hin Hpl) as (q' & Hrun & Hq' & Hs).
    qread Hl. rewrite throw_if_false by by apply bool_decide_eq_false.
    rewrite throw_if_false, bind_gets, Hqt by done. mstep Hrun.
    exists q'. by rewrite (qr_quit _ _ _ Hq Hqt) in Hq'.
  - intros. by apply enqueue_eq.
Qed.

(** C4: one iteration of [dequeueMessage] returns null on a quitting queue;
    takes the first message when it is due, unlinked and otherwise unchanged, and leaves the
    rest in order; and otherwise changes only the wait: without a timeout when the queue is
    empty, and until no later than the first message's time when it is not. *)
Theorem dequeue_refines q es pl now :
  queue_rep q es pl -> 0 <= now ->
  (mQuitting q = true -> dequeueStep now q = (Ok (Some None), q)) /\
  (mQuitting q = false -> forall e es', es = e :: es' -> when (snd e) <= now ->
    exists q', dequeueStep now q = (Ok (Some (Some (fst e))), q') /\ queue_rep q' es' pl /\
      swept es [] q q' /\ cells q' !! fst e = Some (link None None (snd e))) /\
  (mQuitting q = false -> es = [] -> dequeueStep now q = (Ok None, set_cond (Waiting None) q)) /\
  (mQuitting q = false -> forall e es', es = e :: es' -> now < when (snd e) < 2 ^ 64 ->
    exists d, dequeueStep now q = (Ok None, set_cond (Waiting (Some d)) q) /\
      now < d <= when (snd e) /\ (d = when (snd e) \/ d = now + Integer_MAX_VALUE)).
Proof.
  intros Hq Hnow. split_and!.
  - intros Hqt. unfold dequeueStep. by rewrite bind_gets, Hqt.
  - intros Hqt e es' -> Hw. destruct (dequeue_due _ _ _ _ _ Hq Hqt Hw) as (q' & ? & ? & ? & ? & _).
    by exists q'.
  - intros Hqt ->. by rewrite (dequeue_waits _ _ _ _ Hq Hqt).
  - intros Hqt e es' -> Hw. eexists. split.
    + rewrite (dequeue_waits _ _ _ _ Hq Hqt); [reflexivity|]. intros ? [= <-]. lia.
    + rewrite u64_id by lia. unfold Integer_MAX_VALUE. lia.
Qed.

(** The removals and their conditions. *)
Inductive removal : M MessageQueue bool -> (Message -> bool) -> Prop :=
  | rm_messages h w o : removal (removeMessages (Some h) w o) (whatMatches h w o)
  | rm_callbacks h r o : removal (removeCallbacks (Some h) (Some r) o)
      (callbackMatches h (Some r) o)
  | rm_all h o : removal (removeCallbacksAndMessages (Some h) o) (handlerMatches h o).

(** C5: [removeMessages], [removeCallbacks] and [removeCallbacksAndMessages] are
    filters.  Each removes exactly the messages its condition names, keeps the others in order,
    recycles the removed ones from first to last (their pending results are cancelled, the pool
    takes them up to its capacity), reports whether there was one, and wakes no one. *)
Theorem removal_refines op p q es pl :
  removal op p -> queue_rep q es pl ->
  exists q', op q = (Ok (existsb (hits p) es), q') /\
    queue_rep q' (filter (miss p) es) (pushes (filter (hit p) es) pl) /\
    swept es (filter (hit p) es) q q'.
Proof. intros [] Hq; by apply removeIf_eq. Qed.

(** both [hasMessages] answer whether a queued message satisfies the condition,
    without changing anything; a null handler has no messages and removes none. *)
Theorem has_refines q es pl h w r o :
  queue_rep q es pl ->
  hasMessages (Some h) w o q = (Ok (existsb (hits (whatMatches h w o)) es), q) /\
  hasMessages_runnable (Some h) r o q = (Ok (existsb (hits (callbackMatches h r o)) es), q) /\
  hasMessages None w o q = (Ok false, q) /\ hasMessages_runnable None r o q = (Ok false, q) /\
  removeMessages None w o q = (Ok false, q) /\ removeCallbacks None r o q = (Ok false, q) /\
  removeCallbacks (Some h) None o q = (Ok false, q) /\
  removeCallbacksAndMessages None o q = (Ok false, q).
Proof. intros Hq. split_and!; try done; by eapply hasMatch_eq. Qed.

(** [quit] is refused where it is not allowed; otherwise it empties the queue,
    recycles every message (cancelling the pending results in order), wakes the consumer, whose
    next iteration returns null, and makes every later [enqueueMessage] return false; a second
    [quit] changes nothing. *)
Theorem quit_refines q es pl :
  queue_rep q es pl ->
  (mQuitAllowed q = false -> quit q = (Ok false, q)) /\
  (mQuitAllowed q = true -> mQuitting q = true -> quit q = (Ok true, q)) /\
  (mQuitAllowed q = true -> mQuitting q = false ->
    exists q', quit q = (Ok true, q') /\ queue_rep q' [] (pushes es pl) /\
      swept es es (set_quitting true (set_cond Running q)) q' /\
      (forall now, dequeueStep now q' = (Ok (Some None), q')) /\ quit q' = (Ok true, q') /\
      forall l m w, cells q' !! l = Some m -> target m <> None -> isInUse m = false ->
        exists q'', enqueueMessage l w q' = (Ok false, q'') /\
          queue_rep q'' [] (push (pushes es pl) (l, m))).
Proof.
  intros Hq. unfold quit at 1 2. split_and!.
  - intros Ha. by rewrite bind_gets, Ha.
  - intros Ha Hqt. rewrite bind_gets, Ha. cbn [negb]. by rewrite bind_gets, Hqt.
  - intros Ha Hqt. destruct (quit_eq _ _ _ Hq Ha Hqt) as (q' & Hrun & Hq' & Hs).
    exists q'. pose proof (sw_quitting _ _ _ _ Hs) as Hqt'. cbn in Hqt'.
    pose proof (sw_allowed _ _ _ _ Hs) as Ha'. cbn in Ha'.
    split; [done|]. split; [done|]. split; [done|]. split; [|split].
    + intros now. unfold dequeueStep. by rewrite bind_gets, Hqt'.
    + unfold quit. rewrite bind_gets, Ha', Ha. cbn [negb]. by rewrite bind_gets, Hqt'.
    + intros l m w Hl Ht Hu. destruct (rep_in_use _ _ _ _ _ Hq' Hl Hu) as [Hin Hpl].
      destruct (rep_recycle _ _ _ _ _ Hq' Hl Hin Hpl) as (q2 & Hrun2 & Hq2 & _).
      exists q2. split; [|done]. unfold enqueueMessage. qread Hl.
      rewrite throw_if_false by by apply bool_decide_eq_false.
      rewrite throw_if_false, bind_gets, Hqt' by done. by mstep Hrun2.
Qed.

(** C8: [dequeueMessage] comes back with the first message at the first clock
    reading that has reached its time, however often it waited before; nothing else in the queue
    changes meanwhile. *)
Theorem dequeue_returns q e es pl early now late :
  queue_rep q (e :: es) pl -> mQuitting q = false ->
  Forall (fun t => t < when (snd e)) early -> when (snd e) <= now ->
  exists q', dequeueMessage (early ++ now :: late) q = (Ok (Some (Some (fst e))), q') /\
    queue_rep q' es pl.
Proof.
  intros Hq Hqt Hearly Hnow. revert q Hq Hqt.
  induction early as [|t early IH]; intros q Hq Hqt; cbn [app dequeueMessage];
    rewrite bind_modify.
  - destruct (dequeue_due _ _ _ _ _ (rep_cond _ _ _ Running Hq) Hqt Hnow)
      as (q' & Hrun & Hq' & _). mstep Hrun. by exists q'.
  - apply Forall_cons in Hearly as [Ht Hearly].
    pose proof (dequeue_waits _ _ _ t (rep_cond _ _ _ Running Hq) Hqt) as Hrun.
    rewrite (bind_Ok _ _ _ _ _ (Hrun ltac:(by intros ? [= <-]))). cbn beta iota.
    apply (IH Hearly); [|done]. by apply rep_cond, rep_cond.
Qed.

(** ** Delivery order *)

(** The messages [dequeueMessage] returns, call after call at the time [now], until one waits. *)
Fixpoint drain (fuel : nat) (now : Z) : M MessageQueue (list nat) :=
  match fuel with
  | O => mret []
  | S fuel =>
      r ← dequeueStep now;
      match r with
      | Some (Some l) => ls ← drain fuel now; mret (l :: ls)
      | _ => mret []
      end
  end.

Fixpoint enqueueAll (ls : list (nat * Z)) : M MessageQueue unit :=
  match ls with
  | [] => mret tt
  | (l, w) :: ls => enqueueMessage l w;; enqueueAll ls
  end.

Definition key (e : entry) : nat * Z := (fst e, when (snd e)).
Lemma fst_key es : (key <$> es).*1 = es.*1.
Proof. induction es as [|e es IH]; [done|]. by rewrite !fmap_cons, IH. Qed.

Definition at_time (t : Z) (k : nat * Z) : Prop := snd k = t.
#[export] Instance at_time_dec t k : Decision (at_time t k) := Z.eq_dec _ _.

Lemma at_time_insertBy t e es :
  StronglySorted due_le es ->
  filter (at_time t) (key <$> insertBy e es) =
  filter (at_time t) (key <$> es) ++ filter (at_time t) [key e].
Proof.
  intros Hs. destruct (insertBy_split e es Hs) as (lo & hi & -> & -> & Hlo & Hhi).
  rewrite !fmap_app, fmap_cons, !filter_app, <- app_assoc. f_equal.
  rewrite !filter_cons, filter_nil. destruct (decide _) as [Ht|_]; [|by rewrite app_nil_r].
  rewrite filter_none; [done|]. apply Forall_fmap. eapply Forall_impl; [exact Hhi|].
  unfold compose, at_time, key in *. simpl in *. lia.
Qed.

Lemma at_time_enq t e es :
  StronglySorted due_le es ->
  filter (at_time t) (key <$> enq e es) =
  if decide (t = 0) then filter (at_time t) [key e] ++ filter (at_time t) (key <$> es)
  else filter (at_time t) (key <$> es) ++ filter (at_time t) [key e].
Proof.
  intros Hs. unfold enq. destruct (Z.eqb_spec (when (snd e)) 0) as [H0|H0].
  - rewrite fmap_cons, !filter_cons, filter_nil. destruct (decide (at_time t (key e))) as [Ht|Ht];
      destruct (decide (t = 0)) as [Hz|Hz]; rewrite ?app_nil_r; try done.
    unfold at_time, key in Ht. simpl in Ht. congruence.
  - rewrite at_time_insertBy by done. destruct (decide (t = 0)) as [Hz|Hz]; [|done].
    rewrite filter_cons, filter_nil, decide_False, app_nil_r; [done|].
    unfold at_time, key. simpl. congruence.
Qed.

Lemma drain_eq es now : forall q pl,
  queue_rep q es pl -> mQuitting q = false -> Forall (fun e => when (snd e) <= now) es ->
  exists q', drain (length es) now q = (Ok es.*1, q') /\ queue_rep q' [] pl.
Proof.
  induction es as [|e es IH]; intros q pl Hq Hqt Hw; cbn [drain length].
  { exists q. by split. }
  apply Forall_cons in Hw as [Hw Hws].
  destruct (dequeue_due _ _ _ _ _ Hq Hqt Hw) as (q1 & Hrun & Hq1 & Hs1 & _). mstep Hrun.
  destruct (IH q1 pl Hq1) as (q2 & Hrun2 & Hq2); [|done|].
  { by rewrite (sw_quitting _ _ _ _ Hs1). }
  mstep Hrun2. by exists q2.
Qed.

(** The messages of [ls] may be enqueued, each at its time. *)
Definition enqueuable (q : MessageQueue) (ls : list (nat * Z)) : Prop :=
  NoDup ls.*1 /\ Forall (fun k => 0 <= snd k /\
    exists m, cells q !! fst k = Some m /\ isInUse m = false /\ target m <> None) ls.

Lemma enqueueAll_eq ls : forall q es pl,
  queue_rep q es pl -> mQuitting q = false -> enqueuable q ls ->
  exists es' q', enqueueAll ls q = (Ok tt, q') /\ queue_rep q' es' pl /\ mQuitting q' = false /\
    key <$> es' ≡ₚ ls ++ (key <$> es) /\
    forall t, filter (at_time t) (key <$> es') =
      if decide (t = 0) then reverse (filter (at_time t) ls) ++ filter (at_time t) (key <$> es)
      else filter (at_time t) (key <$> es) ++ filter (at_time t) ls.
Proof.
  induction ls as [|[l w] ls IH]; intros q es pl Hq Hqt [Hn Hls]; cbn [enqueueAll].
  { exists es, q. split_and!; try done. intros t. rewrite filter_nil, app_nil_r.
    by destruct (decide _). }
  rewrite fmap_cons in Hn. apply NoDup_cons in Hn as [Hnl Hn].
  apply Forall_cons in Hls as [(Hw & m & Hm & Hu & Ht) Hls]. cbn in Hw, Hm.
  destruct (enqueue_eq q es pl l m w Hq Hm Hw Ht Hu Hqt) as (q1 & Hrun & Hq1 & Hs1). mstep Hrun.
  destruct (IH q1 _ pl Hq1) as (es' & q2 & Hrun2 & Hq2 & Hqt2 & Hp2 & Hf2).
  - by rewrite (sw_quitting _ _ _ _ Hs1).
  - split; [done|]. rewrite Forall_forall in Hls |- *. intros k Hk.
    destruct (Hls k Hk) as (Hk0 & mk & Hmk & Huk & Htk). split; [done|]. exists mk.
    split; [|done]. rewrite (sw_cells _ _ _ _ Hs1); [done|].
    destruct (rep_in_use _ _ _ _ _ Hq Hmk Huk) as [Hke _].
    rewrite fmap_cons, not_elem_of_cons. split; [|done]. cbn. intros E. apply Hnl.
    cbn. rewrite <- E. by apply (list_elem_of_fmap_2 fst).
  - exists es', q2. split_and!; try done.
    + rewrite Hp2, enq_perm. change (key (l, stamped w m)) with (l, w). rewrite fmap_cons.
      change (key (l, stamped w m)) with (l, w). by rewrite <- Permutation_middle.
    + intros t. rewrite Hf2, at_time_enq by apply (qr_sorted _ _ _ Hq).
      change (key (l, stamped w m)) with (l, w). change ((l, w) :: ls) with ([(l, w)] ++ ls).
      rewrite (filter_app _ [(l, w)]). destruct (decide (t = 0)); [|by rewrite <- app_assoc].
      rewrite reverse_app, <- app_assoc. do 2 f_equal. rewrite filter_cons, filter_nil.
      by destruct (decide _).
Qed.

(** C2: messages enqueued on an idle queue are delivered, once they are all due,
    each exactly once, by ascending time, in sending order among messages of the same time (the
    latest first among those sent at time 0), and the queue is empty again. *)
Theorem delivery_order q pl ls now :
  queue_rep q [] pl -> mQuitting q = false -> enqueuable q ls ->
  Forall (fun k => snd k <= now) ls ->
  exists order q1 q2, enqueueAll ls q = (Ok tt, q1) /\
    drain (length ls) now q1 = (Ok order.*1, q2) /\ queue_rep q2 [] pl /\
    order ≡ₚ ls /\ StronglySorted (fun a b => snd a <= snd b) order /\
    (forall t, t <> 0 -> filter (at_time t) order = filter (at_time t) ls) /\
    filter (at_time 0) order = reverse (filter (at_time 0) ls).
Proof.
  intros Hq Hqt Hls Hnow.
  destruct (enqueueAll_eq ls q [] pl Hq Hqt Hls) as (es & q1 & Hrun1 & Hq1 & Hqt1 & Hperm & Hf).
  rewrite app_nil_r in Hperm.
  assert (Forall (fun e => when (snd e) <= now) es) as Hes.
  { rewrite <- Hperm in Hnow. by rewrite Forall_fmap in Hnow. }
  destruct (drain_eq es now q1 pl Hq1 Hqt1 Hes) as (q2 & Hrun2 & Hq2).
  assert (length es = length ls) as Hlen by by rewrite <- Hperm, length_fmap.
  exists (key <$> es), q1, q2. rewrite <- Hlen, Hrun2. split; [done|].
  split; [by rewrite fst_key|]. split; [done|]. split; [done|]. split; [|split].
  - pose proof (qr_sorted _ _ _ Hq1) as Hs. clear -Hs.
    induction Hs as [|e es Hs IH He]; [constructor|]. rewrite fmap_cons. constructor; [done|].
    by rewrite Forall_fmap.
  - intros t Ht. by rewrite Hf, decide_False.
  - by rewrite Hf, decide_True, app_nil_r.
Qed.

(** ** Producers and the consumer, interleaved

    A state: the queue and the messages the consumer holds (delivered, not yet recycled).  Every
    step is one critical section of the queue, a message pool operation, a write to a message
    nobody else has, or a wake-up; the steps of any number of producer threads and of the one
    consumer thread interleave freely. *)

Definition system : Type := MessageQueue * list nat.

Inductive step : system -> system -> Prop :=
  (* a producer takes a message, or fills in one it has not sent yet *)
  | st_obtain q h l w' : obtain (heap q) = (Ok l, w') -> step (q, h) (set_heap w' q, h)
  | st_fill q h l m m' : cells q !! l = Some m -> isInUse m = false -> isInUse m' = false ->
      link None None m' = m' -> step (q, h) (upd l m' q, h)
  | st_enqueue q h l m w r q' : cells q !! l = Some m -> 0 <= w ->
      enqueueMessage l w q = (r, q') -> step (q, h) (q', h)
  | st_remove q h op p r q' : removal op p -> op q = (r, q') -> step (q, h) (q', h)
  | st_quit q h r q' : quit q = (r, q') -> step (q, h) (q', h)
  (* the consumer *)
  | st_wait q h now q' : mCondition q = Running -> 0 <= now ->
      dequeueStep now q = (Ok None, q') -> step (q, h) (q', h)
  | st_wake q h : step (q, h) (set_cond Running q, h)
  | st_deliver q h now l q' : mCondition q = Running -> 0 <= now ->
      dequeueStep now q = (Ok (Some (Some l)), q') -> step (q, h) (q', l :: h)
  | st_recycle q l h q' r : lift (recycle l) q = (r, q') -> step (q, l :: h) (q', h).

(** The consumer never sleeps past a queued message, or on a queue that was quit. *)
Definition awake (q : MessageQueue) (es : list entry) : Prop :=
  match mCondition q with
  | Running => True
  | Waiting d => mQuitting q = false /\
      Forall (fun e => exists t, d = Some t /\ t <= when (snd e)) es
  end.

Record inv (s : system) (es : list entry) (pl : list nat) : Prop := {
  in_rep : queue_rep (fst s) es pl;
  in_awake : awake (fst s) es;
  in_held : NoDup (snd s);
  in_owned : forall l, l ∈ snd s -> l ∉ es.*1 /\ l ∉ pl /\
    exists m, cells (fst s) !! l = Some m /\ isInUse m = true;
}.

Lemma inv_unheld q h es pl l m :
  inv (q, h) es pl -> cells q !! l = Some m -> isInUse m = false -> l ∉ h.
Proof.
  intros Hi Hl Hu Hin. destruct (in_owned _ _ _ Hi l Hin) as (_ & _ & m' & Hm' & Hu').
  cbn in *. congruence.
Qed.

(** The messages the consumer holds are untouched by what happens to others. *)
Lemma owned_swept q q0 q' h es pl es' pl' rs ds :
  inv (q, h) es pl -> swept rs ds q0 q' -> cells q0 = cells q ->
  (forall l, l ∈ h -> l ∉ rs.*1 /\ l ∉ es'.*1 /\ l ∉ pl') ->
  queue_rep q' es' pl' -> awake q' es' -> inv (q', h) es' pl'.
Proof.
  intros Hi Hs H0 Hh Hq' Ha. split; [done..|apply (in_held _ _ _ Hi)|].
  intros l Hl. destruct (Hh l Hl) as (H1 & H2 & H3). split; [done|]. split; [done|].
  destruct (in_owned _ _ _ Hi l Hl) as (_ & _ & m & Hm & Hu). exists m. split; [|done].
  cbn in *. by rewrite (sw_cells _ _ _ _ Hs), H0.
Qed.

Lemma in_pushes l rs pl : l ∈ pushes rs pl -> l ∈ rs.*1 \/ l ∈ pl.
Proof.
  revert pl. induction rs as [|e rs IH]; intros pl; simpl; [by right|].
  intros [H|[->|H]%in_push]%IH; rewrite ?elem_of_cons; tauto.
Qed.

Lemma in_filter l (P : entry -> Prop) `{!forall e, Decision (P e)} (es : list entry) :
  l ∈ (filter P es).*1 -> l ∈ es.*1.
Proof.
  intros (e & -> & [_ He]%list_elem_of_filter)%list_elem_of_fmap. apply list_elem_of_fmap. eauto.
Qed.

(** [obtain] takes the head of the pool or a new cell: no queued or held message. *)
Lemma rep_obtain q es pl l w' :
  queue_rep q es pl -> obtain (heap q) = (Ok l, w') ->
  queue_rep (set_heap w' q) es (tail pl) /\ l ∉ es.*1 /\
  (l ∈ pl \/ cells q !! l = None) /\ (forall j, j <> l -> j ∈ es.*1 \/ (exists m, cells q !! j = Some m) ->
    msgs w' !! j = cells q !! j).
Proof.
  intros Hq Ho.
  destruct (obtain_eq _ _ (qr_pool _ _ _ Hq)) as (l' & w2 & Ho' & Hl & Hp & Hlp & Hl' & Hms & _).
  rewrite Ho in Ho'. injection Ho' as <- <-.
  assert (l ∈ pl \/ (cells q !! l = None /\ l = length (cells q))) as Hwhere.
  { destruct pl as [|x pl]; simpl in Hl'; subst l; [right|left; apply list_elem_of_here].
    split; [|done]. by apply lookup_ge_None_2. }
  assert (l ∉ es.*1) as Hin.
  { intros Hin. destruct Hwhere as [Hx|[Hx _]]; [by apply (qr_disj _ _ _ Hq l)|].
    apply list_elem_of_fmap in Hin as ((l' & m') & -> & He).
    destruct (dseg_lookup _ _ _ _ _ _ (ql_seg _ _ (qr_list _ _ _ Hq)) He) as (a & b & Hc).
    cbn in Hx. congruence. }
  assert (forall j, j <> l -> msgs w' !! j = cells q !! j) as Hcells.
  { intros j Hj. destruct Hms as [->|[Hpl ->]]; [by rewrite lookup_write_ne|].
    destruct Hwhere as [Hx|[_ Hx]]; [subst pl; by apply not_elem_of_nil in Hx|].
    destruct (decide (j < length (cells q))%nat) as [Hlt|Hge]; [by apply lookup_app_l|].
    rewrite lookup_app_r by (unfold cells in *; lia). unfold cells in *.
    rewrite (lookup_ge_None_2 (msgs (heap q))) by lia.
    apply lookup_ge_None_2. simpl. lia. }
  split_and!; try done; [|naive_solver|intros; by apply Hcells].
  destruct Hq as [[Hh Ht Hs Hn] He Hso Hpq Hd Hqt Hcl]. split; try done.
  - split; try done. eapply dseg_ext; [|exact Hs]. intros j Hj. apply Hcells. by intros ->.
  - intros j Hj Hj'. apply (Hd j Hj). destruct pl; [done|]. by apply list_elem_of_further.
  - intros j m Hj Hu. unfold cells in Hj. cbn in Hj. destruct (decide (j = l)) as [->|Hne].
    + rewrite Hl in Hj. by injection Hj as <-.
    + rewrite Hcells in Hj by done. eauto.
Qed.

Lemma inv_obtain q h es pl l w' :
  inv (q, h) es pl -> obtain (heap q) = (Ok l, w') -> inv (set_heap w' q, h) es (tail pl).
Proof.
  intros Hi Ho. destruct (rep_obtain _ _ _ _ _ (in_rep _ _ _ Hi) Ho) as (Hq' & Hin & Hl & Hc).
  split; [done|apply (in_awake _ _ _ Hi)|apply (in_held _ _ _ Hi)|].
  intros j Hj. destruct (in_owned _ _ _ Hi j Hj) as (H1 & H2 & m & Hm & Hu). cbn in Hm.
  split; [done|]. split.
  { intros Hx. apply H2. destruct pl; [done|]. by apply list_elem_of_further. }
  exists m. split; [|done]. unfold cells. cbn. rewrite Hc; [done| |eauto].
  intros ->. destruct Hl; [done|].
  cbn in *. congruence.
Qed.

Lemma inv_enqueue q h es pl l m w r q' :
  inv (q, h) es pl -> cells q !! l = Some m -> 0 <= w -> enqueueMessage l w q = (r, q') ->
  exists es' pl', inv (q', h) es' pl'.
Proof.
  intros Hi Hm Hw Hrun. pose proof (in_rep _ _ _ Hi) as Hq. cbn in Hq.
  destruct (decide (target m = None)) as [Ht|Ht].
  { exists es, pl. unfold enqueueMessage in Hrun. rewrite (bind_Ok _ _ _ _ _ (lift_read _ _ _ Hm)),
      throw_if_true in Hrun by by apply bool_decide_eq_true. by injection Hrun as <- <-. }
  destruct (isInUse m) eqn:Hu.
  { exists es, pl. unfold enqueueMessage in Hrun. rewrite (bind_Ok _ _ _ _ _ (lift_read _ _ _ Hm)),
      throw_if_false, throw_if_true in Hrun by (done || by apply bool_decide_eq_false).
    by injection Hrun as <- <-. }
  destruct (rep_in_use _ _ _ _ _ Hq Hm Hu) as [Hin Hpl].
  pose proof (inv_unheld _ _ _ _ _ _ Hi Hm Hu) as Hheld.
  destruct (mQuitting q) eqn:Hqt.
  - destruct (rep_recycle _ _ _ _ _ Hq Hm Hin Hpl) as (q2 & Hrun2 & Hq2 & Hs2).
    unfold enqueueMessage in Hrun. rewrite (bind_Ok _ _ _ _ _ (lift_read _ _ _ Hm)),
      !throw_if_false, bind_gets, Hqt, (bind_Ok _ _ _ _ _ Hrun2) in Hrun
      by (done || by apply bool_decide_eq_false). injection Hrun as <- <-.
    exists es, (push pl (l, m)). eapply (owned_swept q q); [exact Hi|exact Hs2|done| |done|].
    + intros j Hj. destruct (in_owned _ _ _ Hi j Hj) as (? & Hjp & _).
      assert (j <> l) as Hjl by by intros ->. split; [by intros ?%list_elem_of_singleton|].
      split; [done|]. by intros [?|?]%in_push.
    + pose proof (in_awake _ _ _ Hi) as Ha. unfold awake in *. cbn in Ha.
      by rewrite (sw_cond _ _ _ _ Hs2), (sw_quitting _ _ _ _ Hs2).
  - destruct (enqueue_eq q es pl l m w Hq Hm Hw Ht Hu Hqt) as (q2 & Hrun2 & Hq2 & Hs2).
    rewrite Hrun2 in Hrun. injection Hrun as <- <-. exists (enq (l, stamped w m) es), pl.
    eapply (owned_swept q (set_cond Running q)); [exact Hi|exact Hs2|done| |done|].
    + intros j Hj. rewrite enq_perm, !fmap_cons, !not_elem_of_cons. cbn.
      destruct (in_owned _ _ _ Hi j Hj) as (? & Hjp & _). assert (j <> l) by by intros ->. done.
    + unfold awake. by rewrite (sw_cond _ _ _ _ Hs2).
Qed.

(** Filtering keeps the consumer's wait in order. *)
Lemma awake_swept q q' es es' rs ds :
  awake q es -> swept rs ds q q' -> (forall e, e ∈ es' -> e ∈ es) -> awake q' es'.
Proof.
  intros Ha Hs Hsub. unfold awake in *.
  rewrite (sw_cond _ _ _ _ Hs), (sw_quitting _ _ _ _ Hs).
  destruct (mCondition q); [done|]. destruct Ha as [? Hes]. split; [done|].
  rewrite Forall_forall in Hes |- *. auto.
Qed.

Lemma inv_remove q h es pl op p r q' :
  inv (q, h) es pl -> removal op p -> op q = (r, q') -> exists es' pl', inv (q', h) es' pl'.
Proof.
  intros Hi Hop Hrun.
  assert (exists q2, op q = (Ok (existsb (hits p) es), q2) /\
      queue_rep q2 (filter (miss p) es) (pushes (filter (hit p) es) pl) /\
      swept es (filter (hit p) es) q q2) as (q2 & Hrun2 & Hq2 & Hs2).
  { destruct Hop; apply removeIf_eq; done || apply (in_rep _ _ _ Hi). }
  rewrite Hrun2 in Hrun. injection Hrun as <- <-. do 2 eexists.
  eapply (owned_swept q q); [exact Hi|exact Hs2|done| |exact Hq2|].
  - intros j Hj. destruct (in_owned _ _ _ Hi j Hj) as (? & ? & _).
    split; [done|]. split; [by intros ?%in_filter|]. by intros [?%in_filter|?]%in_pushes.
  - eapply awake_swept; [apply (in_awake _ _ _ Hi)|exact Hs2|].
    by intros e [_ He]%list_elem_of_filter.
Qed.

Lemma inv_quit q h es pl r q' :
  inv (q, h) es pl -> quit q = (r, q') -> exists es' pl', inv (q', h) es' pl'.
Proof.
  intros Hi Hrun. pose proof (in_rep _ _ _ Hi) as Hq. cbn in Hq.
  destruct (mQuitAllowed q) eqn:Ha; [destruct (mQuitting q) eqn:Hqt|].
  1, 3: exists es, pl; unfold quit in Hrun; rewrite bind_gets, Ha in Hrun; cbn [negb] in Hrun;
    rewrite ?bind_gets, ?Hqt in Hrun; by injection Hrun as <- <-.
  destruct (quit_eq _ _ _ Hq Ha Hqt) as (q2 & Hrun2 & Hq2 & Hs2). rewrite Hrun2 in Hrun.
  injection Hrun as <- <-. do 2 eexists.
  eapply (owned_swept q (set_quitting true (set_cond Running q)));
    [exact Hi|exact Hs2|done| |exact Hq2|].
  - intros j Hj. destruct (in_owned _ _ _ Hi j Hj) as (? & ? & _).
    split; [done|]. split; [apply not_elem_of_nil|]. by intros [?|?]%in_pushes.
  - unfold awake. by rewrite (sw_cond _ _ _ _ Hs2).
Qed.

Lemma inv_dequeue q h es pl now r q' :
  inv (q, h) es pl -> mCondition q = Running -> 0 <= now -> dequeueStep now q = (r, q') ->
  match r with
  | Ok None => inv (q', h) es pl
  | Ok (Some (Some l)) => exists es', inv (q', l :: h) es' pl
  | Ok (Some None) => q' = q
  | _ => False
  end.
Proof.
  intros Hi Hc Hnow Hrun. pose proof (in_rep _ _ _ Hi) as Hq. cbn in Hq.
  destruct (mQuitting q) eqn:Hqt.
  { unfold dequeueStep in Hrun. rewrite bind_gets, Hqt in Hrun. by injection Hrun as <- <-. }
  destruct es as [|e es]; [|destruct (Z.leb_spec (when (snd e)) now) as [Hw|Hw]].
  - rewrite (dequeue_waits _ _ _ _ Hq Hqt) in Hrun by done. injection Hrun as <- <-.
    split; [by apply rep_cond|by split|apply (in_held _ _ _ Hi)|apply (in_owned _ _ _ Hi)].
  - destruct (dequeue_due _ _ _ _ _ Hq Hqt Hw) as (q2 & Hrun2 & Hq2 & Hs2 & Hl & Hin & Hpl).
    rewrite Hrun2 in Hrun. injection Hrun as <- <-. exists es.
    pose proof (qr_entries _ _ _ Hq) as He. apply Forall_cons in He as [[Hu _] _].
    assert (inv (q2, h) es pl) as [Hq' Ha' Hn' Ho'].
    { eapply (owned_swept q q); [exact Hi|exact Hs2|done| |exact Hq2|].
      - intros j Hj. destruct (in_owned _ _ _ Hi j Hj) as (Hj1 & ? & _).
        pose proof Hj1 as Hj2. rewrite fmap_cons, not_elem_of_cons in Hj2. tauto.
      - eapply awake_swept; [apply (in_awake _ _ _ Hi)|exact Hs2|].
        intros. by apply list_elem_of_further. }
    split; [done..| |].
    + apply NoDup_cons. split; [|done]. intros Hx.
      destruct (in_owned _ _ _ Hi _ Hx) as (Hx1 & _). apply Hx1, list_elem_of_here.
    + intros j [->|Hj]%elem_of_cons; [|by apply Ho']. split; [done|]. split; [done|].
      by exists (link None None (snd e)).
  - rewrite (dequeue_waits _ _ _ _ Hq Hqt) in Hrun by (by intros ? [= <-]).
    injection Hrun as <- <-.
    split; [by apply rep_cond| |apply (in_held _ _ _ Hi)|apply (in_owned _ _ _ Hi)].
    unfold awake. cbn. split; [done|].
    assert (u64 (when (snd e) - now) <= when (snd e) - now) as Hle by (apply Z.mod_le; lia).
    constructor; [eexists; split; [done|lia]|].
    pose proof (qr_sorted _ _ _ Hq) as Hs. apply StronglySorted_inv in Hs as [_ Hs].
    eapply Forall_impl; [exact Hs|]. unfold due_le. intros x Hx.
    eexists. split; [done|lia].
Qed.

Lemma inv_step s s' es pl : inv s es pl -> step s s' -> exists es' pl', inv s' es' pl'.
Proof.
  intros Hi Hstep. destruct Hstep as [q h l w' Ho|q h l m m' Hm Hu Hu' Hm'|q h l m w r q' Hm Hw Hrun
    |q h op p r q' Hop Hrun|q h r q' Hrun|q h now q' Hc Hn Hrun|q h|q h now l q' Hc Hn Hrun
    |q l h q' r Hrun].
  - do 2 eexists. by eapply inv_obtain.
  - destruct (rep_in_use _ _ _ _ _ (in_rep _ _ _ Hi) Hm Hu) as [Hin Hpl].
    pose proof (inv_unheld _ _ _ _ _ _ Hi Hm Hu) as Hheld.
    exists es, pl. split; [by apply rep_write; [apply (in_rep _ _ _ Hi)|..]|
      apply (in_awake _ _ _ Hi)|apply (in_held _ _ _ Hi)|].
    intros j Hj. destruct (in_owned _ _ _ Hi j Hj) as (H1 & H2 & mj & Hmj & Huj).
    do 2 (split; [done|]). exists mj. split; [|done]. cbn in *. unfold cells in *. cbn.
    rewrite lookup_write_ne; [done|]. by intros ->.
  - by eapply inv_enqueue.
  - by eapply inv_remove.
  - by eapply inv_quit.
  - pose proof (inv_dequeue _ _ _ _ _ _ _ Hi Hc Hn Hrun). cbn in *. eauto.
  - exists es, pl. split; [apply rep_cond, (in_rep _ _ _ Hi)|done|apply (in_held _ _ _ Hi)
      |apply (in_owned _ _ _ Hi)].
  - pose proof (inv_dequeue _ _ _ _ _ _ _ Hi Hc Hn Hrun) as [es' Hi']. eauto.
  - destruct (in_owned _ _ _ Hi l (list_elem_of_here _ _)) as (Hin & Hpl & m & Hm & _).
    destruct (rep_recycle _ _ _ _ _ (in_rep _ _ _ Hi) Hm Hin Hpl) as (q2 & Hrun2 & Hq2 & Hs2).
    cbn in Hrun2. rewrite Hrun2 in Hrun. injection Hrun as <- <-.
    pose proof (in_held _ _ _ Hi) as Hn. cbn in Hn. apply NoDup_cons in Hn as [Hlh Hn].
    exists es, (push pl (l, m)). eapply (owned_swept q q _ h es pl); [|exact Hs2|done| |done|].
    + destruct Hi as [? ? ? Ho]. split; [done..|]. intros j Hj. apply Ho.
      by apply list_elem_of_further.
    + intros j Hj. destruct (in_owned _ _ _ Hi j (list_elem_of_further _ _ _ Hj)) as (? & ? & _).
      assert (j <> l) as Hjl by by intros ->. split; [by intros ?%list_elem_of_singleton|].
      split; [done|]. by intros [?|?]%in_push.
    + eapply awake_swept; [apply (in_awake _ _ _ Hi)|exact Hs2|done].
Qed.

(** A program start: no queued or pooled message, and no object is in use. *)
Definition start (allowed : bool) (bs : list Bundle.Bundle) : system :=
  (new allowed (mkWorld [] bs initialPool []), []).

Lemma inv_start allowed bs : inv (start allowed bs) [] [].
Proof.
  split; [|done|constructor|by intros ? ?%not_elem_of_nil].
  split; [| | |split| | |]; try done; try constructor; try done; [constructor|].
  by intros ? ?%not_elem_of_nil.
Qed.

Lemma inv_reachable allowed bs s :
  rtc step (start allowed bs) s -> exists es pl, inv s es pl.
Proof.
  intros Hr. assert (exists es pl, inv (start allowed bs) es pl) as Hs by
    (do 2 eexists; apply inv_start).
  induction Hr as [|s1 s2 s3 Hs12 _ IH]; [done|]. destruct Hs as (es & pl & Hi).
  apply IH. by eapply inv_step.
Qed.

(** C1: whatever producers, removals, quits and the consumer do, in any
    interleaving, the queue is a well-formed list sorted by time, the pool holds at most 42
    reset messages, and no message is in two of: the queue, the pool, the consumer's hands. *)
Theorem queue_safe allowed bs q h :
  rtc step (start allowed bs) (q, h) ->
  exists es pl, queue_rep q es pl /\ NoDup (es.*1 ++ pl ++ h) /\
    forall l, l ∈ es.*1 ++ pl ++ h -> exists m, cells q !! l = Some m /\ isInUse m = true.
Proof.
  intros (es & pl & Hi)%inv_reachable. exists es, pl.
  pose proof (in_rep _ _ _ Hi) as Hq. cbn in Hq. split; [done|]. split.
  - apply NoDup_app. split; [apply (ql_nodup _ _ (qr_list _ _ _ Hq))|]. split.
    + intros l Hl. rewrite elem_of_app. intros [Hx|Hx]; [by apply (qr_disj _ _ _ Hq l)|].
      by destruct (in_owned _ _ _ Hi l Hx).
    + apply NoDup_app. split; [apply (pr_nodup _ _ (qr_pool _ _ _ Hq))|].
      split; [|apply (in_held _ _ _ Hi)]. intros l Hl Hx.
      by destruct (in_owned _ _ _ Hi l Hx) as (_ & ? & _).
  - intros l. rewrite !elem_of_app. intros [Hl|[Hl|Hl]].
    + assert (exists m, cells q !! l = Some m) as [m Hm].
      { apply list_elem_of_fmap in Hl as ((l' & m) & -> & He).
        destruct (dseg_lookup _ _ _ _ _ _ (ql_seg _ _ (qr_list _ _ _ Hq)) He) as (? & ? & ?).
        eauto. }
      exists m. split; [done|]. by eapply seg_in_use;
        [apply (ql_seg _ _ (qr_list _ _ _ Hq))|apply (qr_entries _ _ _ Hq)|..].
    + destruct (chain_lookup _ _ _ (pr_chain _ _ (qr_pool _ _ _ Hq)) Hl) as (n & Hn).
      by exists (set_next n recycled).
    + by destruct (in_owned _ _ _ Hi l Hl) as (_ & _ & ?).
Qed.

(** C6: the consumer never sleeps past work: while it waits, the queue was not
    quit and every queued message is due no earlier than the wait times out; on an empty
    queue it may wait without a timeout, as the next [enqueueMessage] wakes it. *)
Theorem no_lost_wakeup allowed bs q h d :
  rtc step (start allowed bs) (q, h) -> mCondition q = Waiting d ->
  exists es pl, queue_rep q es pl /\ mQuitting q = false /\
    forall e, e ∈ es -> exists t, d = Some t /\ t <= when (snd e).
Proof.
  intros (es & pl & Hi)%inv_reachable Hc. exists es, pl. split; [apply (in_rep _ _ _ Hi)|].
  pose proof (in_awake _ _ _ Hi) as Ha. unfold awake in Ha. cbn in Ha. rewrite Hc in Ha.
  destruct Ha as [? Ha]. split; [done|]. by rewrite Forall_forall in Ha.
Qed.

(** *** Concrete instances *)

(** Two new messages for the handler 9, and a queue with the first of them, due at 10. *)
Definition m0 : Message := set_target (Some 9%nat) (set_what 7 blank).
Definition q0 : MessageQueue :=
  new true (mkWorld [m0; set_result (Some 4%nat) m0] [] initialPool []).
Definition q1 : MessageQueue := exec (enqueueMessage 1 10) q0.
Definition e1 : entry := (1%nat, stamped 10 (set_result (Some 4%nat) m0)).

Lemma q0_rep : queue_rep q0 [] [].
Proof.
  split; [| | |split| | |]; try done; try constructor; try done;
    [constructor|by intros ? ?%not_elem_of_nil|].
  intros [|[|l]] m; cbn; [by intros [= <-]..|]. done.
Defined.

Lemma q1_rep : queue_rep q1 [e1] [].
Proof.
  destruct (enqueue_eq q0 [] [] 1 (set_result (Some 4%nat) m0) 10 q0_rep)
    as (q & Hrun & Hq & _); try done.
  unfold q1, exec. by rewrite Hrun.
Defined.

Lemma enqueue_refines_witness :
  (exists q', enqueueMessage 0 3 q1 = (Ok true, q') /\
    queue_rep q' [(0%nat, stamped 3 m0); e1] []) /\
  enqueueMessage 1 3 q1 = (Throw IllegalStateException, q1).
Proof.
  split.
  - destruct (enqueue_refines q1 [e1] [] 0 m0 3 q1_rep) as (_ & _ & _ & H); [done..|].
    destruct H as (q' & Hrun & Hq' & _); [done..|]. by exists q'.
  - destruct (enqueue_refines q1 [e1] [] 1 (snd e1) 3 q1_rep) as (_ & H & _); [done..|].
    by apply H.
Defined.

Lemma dequeue_refines_witness :
  (exists q', dequeueStep 12 q1 = (Ok (Some (Some 1%nat)), q') /\ queue_rep q' [] []) /\
  exists d, dequeueStep 3 q1 = (Ok None, set_cond (Waiting (Some d)) q1) /\ 3 < d <= 10.
Proof.
  split.
  - destruct (dequeue_refines q1 [e1] [] 12 q1_rep) as (_ & H & _); [done|].
    destruct (H eq_refl e1 [] eq_refl) as (q' & ? & ? & _); [done|]. by exists q'.
  - destruct (dequeue_refines q1 [e1] [] 3 q1_rep) as (_ & _ & _ & H); [done|].
    destruct (H eq_refl e1 [] eq_refl) as (d & ? & ? & _); [done|]. by exists d.
Defined.

Lemma removal_refines_witness :
  exists q', removeMessages (Some 9%nat) 7 None q1 = (Ok true, q') /\ queue_rep q' [] [1%nat] /\
    cancelled (heap q') = [4%nat].
Proof.
  destruct (removal_refines _ _ q1 [e1] [] (rm_messages 9 7 None) q1_rep)
    as (q' & Hrun & Hq' & Hs).
  exists q'. split; [exact Hrun|]. split; [exact Hq'|exact (sw_cancelled _ _ _ _ Hs)].
Defined.

Lemma has_refines_witness :
  hasMessages (Some 9%nat) 7 None q1 = (Ok true, q1) /\
  hasMessages (Some 8%nat) 7 None q1 = (Ok false, q1).
Proof.
  split.
  - apply (has_refines q1 [e1] [] 9 7 None None q1_rep).
  - apply (has_refines q1 [e1] [] 8 7 None None q1_rep).
Defined.

Lemma quit_refines_witness :
  exists q', quit q1 = (Ok true, q') /\ queue_rep q' [] [1%nat].
Proof.
  destruct (quit_refines q1 [e1] [] q1_rep) as (_ & _ & H).
  destruct (H eq_refl eq_refl) as (q' & ? & ? & _). by exists q'.
Defined.

Lemma dequeue_returns_witness :
  exists q', dequeueMessage [3; 8; 10; 11] q1 = (Ok (Some (Some 1%nat)), q') /\
    queue_rep q' [] [].
Proof.
  apply (dequeue_returns q1 e1 [] [] [3; 8] 10 [11] q1_rep); [done| |done].
  by repeat constructor.
Defined.

Lemma delivery_order_witness :
  exists order q2 q3, enqueueAll [(0%nat, 5); (1%nat, 3)] q0 = (Ok tt, q2) /\
    drain 2 6 q2 = (Ok order.*1, q3) /\ order ≡ₚ [(0%nat, 5); (1%nat, 3)].
Proof.
  destruct (delivery_order q0 [] [(0%nat, 5); (1%nat, 3)] 6 q0_rep) as
    (order & q2 & q3 & H1 & H2 & _ & H3 & _); [done| |by repeat constructor|].
  - split; [apply (bool_decide_unpack _); by vm_compute|].
    repeat constructor; cbn; try done; eexists; split_and!; try reflexivity; done.
  - by exists order, q2, q3.
Defined.

(** A run: a message is obtained, filled in, sent for time 10, and the consumer waits for it. *)
Definition run1 : MessageQueue := set_heap (exec obtain (heap (fst (start true [])))) (fst (start true [])).
Definition run2 : MessageQueue := upd 0 m0 run1.
Definition run3 : MessageQueue := exec (enqueueMessage 0 10) run2.
Definition run4 : MessageQueue := exec (dequeueStep 3) run3.

Lemma run_reachable : rtc step (start true []) (run4, []).
Proof.
  eapply rtc_l; [by eapply (st_obtain (fst (start true [])) [] 0)|].
  eapply rtc_l; [by eapply (st_fill run1 [] 0 blank m0)|].
  eapply rtc_l; [by eapply (st_enqueue run2 [] 0 m0 10)|].
  eapply rtc_l; [by eapply (st_wait run3 [] 3)|]. reflexivity.
Defined.

Lemma queue_safe_witness :
  exists es pl, queue_rep run4 es pl /\ NoDup (es.*1 ++ pl ++ []) /\
    forall l, l ∈ es.*1 ++ pl ++ [] -> exists m, cells run4 !! l = Some m /\ isInUse m = true.
Proof. apply (queue_safe true [] run4 []), run_reachable. Defined.

Lemma no_lost_wakeup_witness :
  exists es pl, queue_rep run4 es pl /\ mQuitting run4 = false /\
    forall e, e ∈ es -> exists t, Some 10 = Some t /\ t <= when (snd e).
Proof. apply (no_lost_wakeup true [] run4 [] (Some 10)); [apply run_reachable|reflexivity]. Defined.
End MessageQueue.
