(* ===== verification/Handlers.v ===== *)
(** * os/Handler.cpp, os/Handler.h, os/Looper.cpp: handlers and loopers

    A handler is an object number; its queue is the queue of the state.  [now] is what
    [SystemClock::uptimeMillis] reads.  The code a message runs (runnables, callbacks and
    [handleMessage] overrides) is the application's: it is a parameter, the class [UserCode], and
    [dispatchMessage] records in a log which of it ran. *)

From S2P Require Import Prelude HashMaps Bundles Messages MessageQueues.
From stdpp Require Import gmap sorting.
Open Scope Z_scope.

Module Handler.
Import Message MessageQueue.

(* os/Handler.cpp:32-48 Handler::Handler *)
Definition new_handler {S} (looper : option nat) : M S nat :=
  throw_if (bool_decide (looper = None)) NullPointerException;;
  deref looper.

(* os/Handler.h:126-128 Handler::obtainMessage *)
Definition obtainMessage (this : nat) : M MessageQueue nat :=
  lift (obtain_handler (Some this)).

(* os/Handler.h:137-139 Handler::obtainMessage *)
Definition obtainMessage_what (this : nat) (w : Z) : M MessageQueue nat :=
  lift (obtain_what (Some this) w).

(* os/Handler.h:150-152 Handler::obtainMessage *)
Definition obtainMessage_obj (this : nat) (w : Z) (o : option nat) : M MessageQueue nat :=
  lift (obtain_obj (Some this) w o).

(* os/Handler.h:164-166 Handler::obtainMessage *)
Definition obtainMessage_args (this : nat) (w a1 a2 : Z) : M MessageQueue nat :=
  lift (obtain_args (Some this) w a1 a2).

(* os/Handler.h:179-181 Handler::obtainMessage *)
Definition obtainMessage_args_obj (this : nat) (w a1 a2 : Z) (o : option nat) :
    M MessageQueue nat :=
  lift (obtain_args_obj (Some this) w a1 a2 o).

(* os/Handler.h:183-185 Handler::obtainMessage *)
Definition obtainMessage_callback (this : nat) (callback : option nat) : M MessageQueue nat :=
  lift (obtain_callback (Some this) callback).

(* os/Handler.cpp:71-74 Handler::sendMessageAtTime *)
Definition sendMessageAtTime (this message : nat) (uptimeMillis : Z) : M MessageQueue bool :=
  lift (writeMsg message (set_target (Some this)));;
  enqueueMessage message uptimeMillis.

(** [delayMillis] is a [uint32_t]: a wider argument is converted. *)
(* os/Handler.h:411-413 Handler::sendMessageDelayed *)
Definition sendMessageDelayed (now : Z) (this message : nat) (delayMillis : Z) :
    M MessageQueue bool :=
  sendMessageAtTime this message (u64 (now + u32 delayMillis)).

(* os/Handler.h:358-360 Handler::sendMessage *)
Definition sendMessage (now : Z) (this message : nat) : M MessageQueue bool :=
  sendMessageDelayed now this message 0.

(* os/Handler.h:381-385 Handler::sendEmptyMessageDelayed *)
Definition sendEmptyMessageDelayed (now : Z) (this : nat) (w delayMillis : Z) :
    M MessageQueue bool :=
  message ← lift obtain;
  lift (writeMsg message (set_what w));;
  sendMessageDelayed now this message delayMillis.

(* os/Handler.h:368-370 Handler::sendEmptyMessage *)
Definition sendEmptyMessage (now : Z) (this : nat) (w : Z) : M MessageQueue bool :=
  sendEmptyMessageDelayed now this w 0.

(* os/Handler.h:395-399 Handler::sendEmptyMessageAtTime *)
Definition sendEmptyMessageAtTime (this : nat) (w uptimeMillis : Z) : M MessageQueue bool :=
  message ← lift obtain;
  lift (writeMsg message (set_what w));;
  sendMessageAtTime this message uptimeMillis.

(* os/Handler.cpp:100-104 Handler::getPostMessage *)
Definition getPostMessage (runnable : option nat) : M MessageQueue nat :=
  message ← lift obtain;
  lift (writeMsg message (set_callback runnable));;
  mret message.

(* os/Handler.cpp:106-111 Handler::getPostMessage *)
Definition getPostMessage_token (runnable token : option nat) : M MessageQueue nat :=
  message ← lift obtain;
  lift (writeMsg message (set_obj token));;
  lift (writeMsg message (set_callback runnable));;
  mret message.

(** [sent ? runnable : nullptr] *)
Definition ifSent (runnable : option nat) (sent : bool) : option nat :=
  if sent then runnable else None.

(* os/Handler.h:200-202 Handler::post *)
Definition post (now : Z) (this : nat) (runnable : option nat) : M MessageQueue (option nat) :=
  message ← getPostMessage runnable;
  sent ← sendMessageDelayed now this message 0;
  mret (ifSent runnable sent).

(* os/Handler.h:218-220 Handler::postAtTime *)
Definition postAtTime (this : nat) (runnable : option nat) (uptimeMillis : Z) :
    M MessageQueue (option nat) :=
  message ← getPostMessage runnable;
  sent ← sendMessageAtTime this message uptimeMillis;
  mret (ifSent runnable sent).

(* os/Handler.h:238-240 Handler::postAtTime *)
Definition postAtTime_token (this : nat) (runnable token : option nat) (uptimeMillis : Z) :
    M MessageQueue (option nat) :=
  message ← getPostMessage_token runnable token;
  sent ← sendMessageAtTime this message uptimeMillis;
  mret (ifSent runnable sent).

(* os/Handler.h:254-256 Handler::postDelayed *)
Definition postDelayed (now : Z) (this : nat) (runnable : option nat) (delayMillis : Z) :
    M MessageQueue (option nat) :=
  message ← getPostMessage runnable;
  sent ← sendMessageDelayed now this message delayMillis;
  mret (ifSent runnable sent).

(* os/Handler.cpp:63-65 Handler::removeCallbacks *)
Definition removeCallbacks (this : nat) (runnable : option nat) : M MessageQueue bool :=
  MessageQueue.removeCallbacks (Some this) runnable None.

(* os/Handler.cpp:67-69 Handler::removeCallbacks *)
Definition removeCallbacks_token (this : nat) (runnable token : option nat) :
    M MessageQueue bool :=
  MessageQueue.removeCallbacks (Some this) runnable token.

(* os/Handler.cpp:76-78 Handler::removeMessages *)
Definition removeMessages (this : nat) (w : Z) : M MessageQueue bool :=
  MessageQueue.removeMessages (Some this) w None.

(* os/Handler.cpp:80-82 Handler::removeMessages *)
Definition removeMessages_obj (this : nat) (w : Z) (object : option nat) : M MessageQueue bool :=
  MessageQueue.removeMessages (Some this) w object.

(* os/Handler.cpp:84-86 Handler::removeCallbacksAndMessages *)
Definition removeCallbacksAndMessages (this : nat) (token : option nat) : M MessageQueue bool :=
  MessageQueue.removeCallbacksAndMessages (Some this) token.

(* os/Handler.cpp:88-90 Handler::hasMessages *)
Definition hasMessages (this : nat) (w : Z) : M MessageQueue bool :=
  MessageQueue.hasMessages (Some this) w None.

(* os/Handler.cpp:92-94 Handler::hasMessages *)
Definition hasMessages_obj (this : nat) (w : Z) (object : option nat) : M MessageQueue bool :=
  MessageQueue.hasMessages (Some this) w object.

(* os/Handler.cpp:96-98 Handler::hasCallbacks *)
Definition hasCallbacks (this : nat) (runnable : option nat) : M MessageQueue bool :=
  MessageQueue.hasMessages_runnable (Some this) runnable None.

(* os/Message.cpp:174-176 Message::sendToTarget *)
Definition sendToTarget (now : Z) (message : nat) : M MessageQueue bool :=
  m ← lift (readMsg message);
  t ← deref (target m);
  sendMessage now t message.

(** ** Dispatching *)

(** The application code a dispatch runs. *)
Inductive event :=
  | RunRunnable (runnable : nat)
  | CallHandler (callback message : nat)
  | HandleMessage (handler message : nat).

(** What the application provides: the callback object of each handler, what that callback
    answers, and the effect its code has on the queue.  The code may call the queue and the
    handlers; [user_safe]: it leaves the queue well-formed and the message it is given alone. *)
Class UserCode := {
  mCallback : nat -> option nat;
  handled : nat -> nat -> bool;
  user : event -> M MessageQueue unit;
  user_safe : forall ev q es pl l m, queue_rep q es pl -> cells q !! l = Some m ->
    isInUse m = true -> l ∉ es.*1 -> l ∉ pl ->
    exists q' es' pl', user ev q = (Ok tt, q') /\ queue_rep q' es' pl' /\
      cells q' !! l = Some m /\ l ∉ es'.*1 /\ l ∉ pl';
}.

Section Looper.
Context `{UserCode}.

(** Application code runs on the queue and is logged, oldest first. *)
Definition runUser (ev : event) : M (MessageQueue * list event) unit := fun '(q, log) =>
  let '(r, q') := user ev q in (r, (q', log ++ [ev])).

Definition onQueue {A} (m : M MessageQueue A) : M (MessageQueue * list event) A := fun '(q, log) =>
  let '(r, q') := m q in (r, (q', log)).

(* os/Handler.cpp:50-61 Handler::dispatchMessage *)
Definition dispatchMessage (this msg : nat) : M (MessageQueue * list event) unit :=
  m ← onQueue (lift (readMsg msg));
  match callback m with
  | Some r => runUser (RunRunnable r)
  | None =>
      match mCallback this with
      | Some cb =>
          runUser (CallHandler cb msg);;
          if handled cb msg then mret tt else runUser (HandleMessage this msg)
      | None => runUser (HandleMessage this msg)
      end
  end.

(** One iteration: [false] when the loop returns, as the queue was quit; the iteration ends
    with [None] while [dequeueMessage] still waits after its clock readings. *)
(* os/Looper.cpp:46-51 Looper::loop (iteration) *)
Definition loopStep (clock : list Z) : M (MessageQueue * list event) (option bool) :=
  message ← onQueue (dequeueMessage clock);
  match message with
  | None => mret None
  | Some None => mret (Some false)
  | Some (Some msg) =>
      m ← onQueue (lift (readMsg msg));
      t ← deref (target m);
      dispatchMessage t msg;;
      onQueue (lift (recycle msg));;
      mret (Some true)
  end.

(** The loop, each iteration with its clock readings: whether it returned. *)
(* os/Looper.cpp:45-52 Looper::loop (loop) *)
Fixpoint loop (clocks : list (list Z)) : M (MessageQueue * list event) bool :=
  match clocks with
  | [] => mret false
  | clock :: clocks =>
      r ← loopStep clock;
      match r with
      | Some false => mret true
      | _ => loop clocks
      end
  end.
End Looper.

(** ** The thread's looper *)

(* os/Looper.cpp:24-24 tlsLooper *)
Definition thread : Type := option MessageQueue.

(** [w]: the messages at the time of the call. *)
(* os/Looper.cpp:31-36 Looper::prepare *)
Definition prepare (quitAllowed : bool) (w : world) : M thread unit :=
  tlsLooper ← get_state;
  match tlsLooper with
  | Some _ => throw RuntimeException
  | None => put_state (Some (MessageQueue.new quitAllowed w))
  end.

(* os/Looper.cpp:55-57 Looper::myLooper *)
Definition myLooper : M thread thread := get_state.

(* os/Looper.cpp:38-43 Looper::loop (entry) *)
Definition loopQueue : M thread MessageQueue :=
  me ← myLooper;
  match me with
  | None => throw RuntimeException
  | Some mq => mret mq
  end.

(* os/Looper.cpp:59-61 Looper::quit *)
Definition quit : M MessageQueue bool := MessageQueue.quit.

(** ** Sending *)

Lemma obtain_rep q es pl :
  queue_rep q es pl ->
  exists l q', lift obtain q = (Ok l, q') /\ queue_rep q' es (tail pl) /\
    l ∉ es.*1 /\ l ∉ tail pl /\ cells q' !! l = Some blank /\ mQuitting q' = mQuitting q.
Proof.
  intros Hq. destruct (obtain_eq _ _ (qr_pool _ _ _ Hq)) as (l & w' & Ho & Hl & _ & Hlp & _).
  destruct (rep_obtain _ _ _ _ _ Hq Ho) as (Hq' & Hin & _).
  exists l, (set_heap w' q). split; [unfold lift, zoom; by rewrite Ho|]. done.
Qed.

(** A free message sent: it is the handler's, and queued at its time. *)
Lemma send_eq q es pl this l m w :
  queue_rep q es pl -> cells q !! l = Some m -> isInUse m = false -> 0 <= w ->
  mQuitting q = false ->
  exists q', sendMessageAtTime this l w q = (Ok true, q') /\
    queue_rep q' (enq (l, stamped w (set_target (Some this) m)) es) pl /\
    mQuitting q' = false.
Proof.
  intros Hq Hl Hu Hw Hqt. destruct (rep_in_use _ _ _ _ _ Hq Hl Hu) as [Hin Hpl].
  pose proof (qr_clean _ _ _ Hq _ _ Hl Hu) as Hcl.
  unfold sendMessageAtTime. rewrite (bind_Ok _ _ _ _ _ (lift_write q l m _ Hl)).
  set (m1 := set_target (Some this) m).
  assert (queue_rep (upd l m1 q) es pl) as Hq1.
  { apply rep_write; [done..|]. intros _. unfold m1. by rewrite <- Hcl. }
  destruct (enqueue_eq (upd l m1 q) es pl l m1 w Hq1) as (q' & Hrun & Hq' & Hsw); try done.
  - eapply lookup_write_eq, Hl.
  - exists q'. split; [done|split; [done|]]. by rewrite (sw_quitting _ _ _ _ Hsw).
Qed.

(** The message [post] sends. *)
Definition posted (this : nat) (runnable : option nat) (w : Z) : Message :=
  stamped w (set_target (Some this) (set_callback runnable blank)).

Lemma post_eq q es pl this r t :
  queue_rep q es pl -> mQuitting q = false -> 0 <= t ->
  exists l q', l ∉ es.*1 /\ postAtTime this r t q = (Ok r, q') /\
    queue_rep q' (enq (l, posted this r t) es) (tail pl).
Proof.
  intros Hq Hqt Ht. destruct (obtain_rep _ _ _ Hq) as (l & q1 & Ho & Hq1 & Hin & Hlp & Hl & Hqt1).
  assert (queue_rep (upd l (set_callback r blank) q1) es (tail pl)) as Hq2 by by apply rep_write.
  destruct (send_eq _ _ _ this l (set_callback r blank) t Hq2) as (q3 & Hrun & Hq3 & _); try done.
  { eapply lookup_write_eq, Hl. }
  { change (mQuitting (upd l _ q1)) with (mQuitting q1). congruence. }
  exists l, q3. split; [done|]. split; [|done].
  unfold postAtTime. erewrite bind_Ok.
  2: { unfold getPostMessage. mstep Ho. mstep (lift_write q1 l _ (set_callback r) Hl). reflexivity. }
  cbn beta. by mstep Hrun.
Qed.

Lemma postDelayed_eq now this r d : postDelayed now this r d = postAtTime this r (u64 (now + u32 d)).
Proof. reflexivity. Qed.

(** [post], [postAtTime] and [postDelayed] queue a message that carries the
    runnable and belongs to the handler, for now, the given time, or now plus the delay (a
    delay below 2^32), and return the runnable. *)
Theorem post_delivers q es pl now this r d t :
  queue_rep q es pl -> mQuitting q = false -> 0 <= now -> 0 <= d < 2 ^ 32 ->
  now + d < 2 ^ 64 -> 0 <= t ->
  (exists l q', post now this r q = (Ok r, q') /\
    queue_rep q' (enq (l, posted this r now) es) (tail pl)) /\
  (exists l q', postDelayed now this r d q = (Ok r, q') /\
    queue_rep q' (enq (l, posted this r (now + d)) es) (tail pl)) /\
  (exists l q', postAtTime this r t q = (Ok r, q') /\
    queue_rep q' (enq (l, posted this r t) es) (tail pl)).
Proof.
  intros Hq Hqt Hnow Hd Hs Ht. split_and!.
  - change (post now this r) with (postDelayed now this r 0).
    rewrite postDelayed_eq, u32_id, Z.add_0_r, u64_id by lia.
    destruct (post_eq _ _ _ this r now Hq Hqt Hnow) as (l & q' & _ & ?). eauto.
  - rewrite postDelayed_eq, u32_id, u64_id by lia.
    destruct (post_eq _ _ _ this r (now + d) Hq Hqt) as (l & q' & _ & ?); [lia|eauto].
  - destruct (post_eq _ _ _ this r t Hq Hqt Ht) as (l & q' & _ & ?). eauto.
Qed.

(** [postDelayed] takes a 64-bit delay and hands it to the 32-bit
    parameter of [sendMessageDelayed]: a delay of 2^32 ms and [d] is delivered after [d]. *)
Theorem postDelayed_truncates q es pl now this r d :
  queue_rep q es pl -> mQuitting q = false -> 0 <= now -> 0 <= d < 2 ^ 32 ->
  now + d < 2 ^ 64 ->
  exists l q', postDelayed now this r (2 ^ 32 + d) q = (Ok r, q') /\
    queue_rep q' (enq (l, posted this r (now + d)) es) (tail pl).
Proof.
  intros Hq Hqt Hnow Hd Hs. rewrite postDelayed_eq.
  assert (u32 (2 ^ 32 + d) = d) as ->.
  { unfold u32. rewrite Z.add_comm. replace (d + 2 ^ 32) with (d + 1 * 2 ^ 32) by lia.
    rewrite Z.mod_add by lia. apply Z.mod_small. lia. }
  rewrite u64_id by lia.
  destruct (post_eq _ _ _ this r (now + d) Hq Hqt) as (l & q' & _ & ?); [lia|eauto].
Qed.

(** a posted runnable can be found and taken back: [hasCallbacks] sees it,
    [removeCallbacks] removes every message with it and nothing else, and then it is gone. *)
Theorem post_remove q es pl this r t :
  queue_rep q es pl -> mQuitting q = false -> 0 <= t ->
  exists q1 q2 pl2, postAtTime this (Some r) t q = (Ok (Some r), q1) /\
    hasCallbacks this (Some r) q1 = (Ok true, q1) /\
    removeCallbacks this (Some r) q1 = (Ok true, q2) /\
    queue_rep q2 (filter (miss (callbackMatches this (Some r) None)) es) pl2 /\
    hasCallbacks this (Some r) q2 = (Ok false, q2).
Proof.
  intros Hq Hqt Ht. destruct (post_eq _ _ _ this (Some r) t Hq Hqt Ht) as (l & q1 & Hin & Hpost & Hq1).
  set (p := callbackMatches this (Some r) None) in *.
  set (e := (l, posted this (Some r) t)) in *.
  assert (hits p e = true) as He.
  { unfold hits, p, callbackMatches, objMatches. cbn. by rewrite !bool_decide_true. }
  assert (existsb (hits p) (enq e es) = true) as Hex.
  { apply existsb_exists. exists e. split; [|done].
    apply list_elem_of_In. rewrite enq_perm. apply list_elem_of_here. }
  destruct (removeIf_eq p (fun _ _ _ => eq_refl) _ _ _ Hq1) as (q2 & Hrun & Hq2 & _).
  assert (filter (miss p) (enq e es) = filter (miss p) es) as Hf.
  { unfold enq. destruct (_ =? 0).
    - apply filter_cons_False. unfold miss. by rewrite He.
    - clear -He. induction es as [|x es IH]; cbn [insertBy].
      + apply filter_cons_False. unfold miss. by rewrite He.
      + destruct (_ <=? _); [by rewrite !filter_cons, IH|].
        apply filter_cons_False. unfold miss. by rewrite He. }
  exists q1, q2. eexists. split; [done|].
  split; [unfold hasCallbacks, hasMessages_runnable; rewrite <- Hex; by eapply hasMatch_eq|].
  split; [change (removeIf p q1 = (Ok true, q2)); by rewrite Hrun, Hex|].
  rewrite Hf in Hq2. split; [exact Hq2|].
  unfold hasCallbacks, hasMessages_runnable.
  erewrite hasMatch_eq; [|done|exact Hq2]. repeat f_equal.
  apply not_true_iff_false. rewrite existsb_exists. intros (x & Hx & Hpx).
  apply list_elem_of_In, list_elem_of_filter in Hx as [Hx _].
  unfold miss in Hx. fold p in Hpx. congruence.
Qed.

(** [sendMessageAtTime] writes the target before the queue checks the
    message: sending a message that is already queued throws, but the queued message now belongs
    to the sending handler, and the first handler no longer finds it. *)
Theorem send_in_use_retargets q es pl this l m w p n :
  queue_rep q es pl -> (l, m) ∈ es -> cells q !! l = Some (link p n m) ->
  exists q', sendMessageAtTime this l w q = (Throw IllegalStateException, q') /\
    cells q' !! l = Some (link p n (set_target (Some this) m)).
Proof.
  intros Hq Hin Hl. unfold sendMessageAtTime.
  rewrite (bind_Ok _ _ _ _ _ (lift_write q l _ _ Hl)).
  pose proof (qr_entries _ _ _ Hq) as He. rewrite Forall_forall in He.
  destruct (He _ Hin) as [Hu _]. cbn in Hu.
  exists (upd l (link p n (set_target (Some this) m)) q).
  split; [|exact (lookup_write_eq _ _ _ _ Hl)].
  unfold enqueueMessage.
  rewrite (bind_Ok _ _ _ _ _ (lift_read (upd l _ q) l _ (lookup_write_eq _ _ _ _ Hl))).
  by rewrite throw_if_false, throw_if_true.
Qed.

(** ** The loop *)

Lemma dequeueMessage_cases clock : forall q es pl,
  queue_rep q es pl ->
  exists r q', dequeueMessage clock q = (Ok r, q') /\
    match r with
    | Some (Some l) => exists e es' now, es = e :: es' /\ l = fst e /\ now ∈ clock /\ when (snd e) <= now /\
        queue_rep q' es' pl /\ cells q' !! l = Some (link None None (snd e)) /\ l ∉ es'.*1 /\ l ∉ pl
    | _ => queue_rep q' es pl
    end.
Proof.
  induction clock as [|now clock IH]; intros q es pl Hq; cbn [dequeueMessage].
  { exists None, q. by split. }
  rewrite bind_modify. pose proof (rep_cond _ _ _ Running Hq) as Hq1.
  set (q1 := set_cond Running q) in *. destruct (mQuitting q1) eqn:Hqt.
  { exists (Some None), q1. split; [|done].
    assert (dequeueStep now q1 = (Ok (Some None), q1)) as Hrun by
      (unfold dequeueStep; by rewrite bind_gets, Hqt). by mstep Hrun. }
  assert (forall q2 es2, queue_rep q2 es2 pl -> exists r q', dequeueMessage clock q2 = (Ok r, q') /\
    match r with
    | Some (Some l) => exists e es' t, es2 = e :: es' /\ l = fst e /\ t ∈ now :: clock /\ when (snd e) <= t /\
        queue_rep q' es' pl /\ cells q' !! l = Some (link None None (snd e)) /\ l ∉ es'.*1 /\ l ∉ pl
    | _ => queue_rep q' es2 pl
    end) as IH'.
  { intros q2 es2 Hq2. destruct (IH q2 es2 pl Hq2) as (r & q' & Hrun & Hr). exists r, q'. split; [done|].
    destruct r as [[l|]|]; [|done..]. destruct Hr as (e & es' & t & ? & ? & Ht & ?). exists e, es', t.
    do 2 (split; [done|]). split; [by right|done]. }
  destruct es as [|e es]; [|destruct (Z.leb_spec (when (snd e)) now) as [Hw|Hw]].
  - mstep (dequeue_waits _ _ _ now Hq1 Hqt ltac:(done)). by apply IH', rep_cond.
  - destruct (dequeue_due _ _ _ _ _ Hq1 Hqt Hw) as (q2 & Hrun & Hq2 & _ & Hl & Hin & Hpl).
    mstep Hrun. exists (Some (Some (fst e))), q2. split; [done|]. exists e, es, now. split; [done|]. split; [done|].
    split; [by left|done].
  - mstep (dequeue_waits _ _ _ now Hq1 Hqt ltac:(by intros ? [= <-])). by apply IH', rep_cond.
Qed.

(** What dispatching a message runs: its runnable; else the handler's callback, and the
    handler's [handleMessage] unless the callback handled the message. *)
Definition dispatched (cb : nat -> option nat) (hd : nat -> nat -> bool) (e : entry) : list event :=
  match callback (snd e), target (snd e) with
  | Some r, _ => [RunRunnable r]
  | None, Some t =>
      match cb t with
      | Some c => CallHandler c (fst e) :: (if hd c (fst e) then [] else [HandleMessage t (fst e)])
      | None => [HandleMessage t (fst e)]
      end
  | None, None => []
  end.

Section LoopSafety.
Context `{UserCode}.

Lemma runUser_eq ev q log es pl l m :
  queue_rep q es pl -> cells q !! l = Some m -> isInUse m = true -> l ∉ es.*1 -> l ∉ pl ->
  exists q' es' pl', runUser ev (q, log) = (Ok tt, (q', log ++ [ev])) /\
    queue_rep q' es' pl' /\ cells q' !! l = Some m /\ l ∉ es'.*1 /\ l ∉ pl'.
Proof.
  intros Hq Hl Hu Hin Hpl.
  destruct (user_safe ev q es pl l m Hq Hl Hu Hin Hpl) as (q' & es' & pl' & Hrun & ?).
  exists q', es', pl'. split; [|done]. unfold runUser. by rewrite Hrun.
Qed.

Lemma dispatch_safe t q log es pl e m :
  queue_rep q es pl -> cells q !! fst e = Some m -> isInUse m = true -> fst e ∉ es.*1 -> fst e ∉ pl ->
  callback m = callback (snd e) -> target (snd e) = Some t ->
  exists q' es' pl', dispatchMessage t (fst e) (q, log) = (Ok tt, (q', log ++ dispatched mCallback handled e)) /\
    queue_rep q' es' pl' /\ cells q' !! fst e = Some m /\ fst e ∉ es'.*1 /\ fst e ∉ pl'.
Proof.
  intros Hq Hl Hu Hin Hpl Ec Et. unfold dispatchMessage, dispatched. rewrite Et.
  erewrite (bind_Ok (onQueue _)); [|unfold onQueue; by rewrite (lift_read _ _ _ Hl)]. cbn beta. rewrite Ec.
  destruct (callback (snd e)) as [r|]; [|destruct (mCallback t) as [cb|]].
  - destruct (runUser_eq (RunRunnable r) q log es pl (fst e) m) as (q1 & es1 & pl1 & Hrun & ?);
      [done..|]. rewrite Hrun. do 3 eexists. split; [reflexivity|done].
  - destruct (runUser_eq (CallHandler cb (fst e)) q log es pl (fst e) m) as
      (q1 & es1 & pl1 & Hrun & Hq1 & Hl1 & Hin1 & Hpl1); [done..|]. mstep Hrun.
    destruct (handled cb (fst e)); [do 3 eexists; split; [reflexivity|done]|].
    destruct (runUser_eq (HandleMessage t (fst e)) q1 (log ++ [CallHandler cb (fst e)]) es1 pl1 (fst e) m)
      as (q2 & es2 & pl2 & Hrun2 & ?); [done..|].
    rewrite Hrun2. do 3 eexists. split; [by rewrite <- app_assoc|done].
  - destruct (runUser_eq (HandleMessage t (fst e)) q log es pl (fst e) m) as (q1 & es1 & pl1 & Hrun & ?);
      [done..|]. rewrite Hrun. do 3 eexists. split; [reflexivity|done].
Qed.

(** An iteration dispatches the first message of the queue when it is due, and nothing else. *)
Lemma loopStep_cases clock q log es pl :
  queue_rep q es pl ->
  exists r q' log' es' pl', loopStep clock (q, log) = (Ok r, (q', log')) /\ queue_rep q' es' pl' /\
    match r with
    | Some true => exists e es0 now, es = e :: es0 /\ now ∈ clock /\ when (snd e) <= now /\
        log' = log ++ dispatched mCallback handled e
    | _ => log' = log /\ es' = es
    end.
Proof.
  intros Hq. unfold loopStep.
  destruct (dequeueMessage_cases clock q es pl Hq) as (r & q1 & Hrun & Hr).
  erewrite (bind_Ok (onQueue _)); [|unfold onQueue; by rewrite Hrun]. cbn beta.
  destruct r as [[l|]|]; [|by do 5 eexists..].
  destruct Hr as (e & es' & now & -> & -> & Hnow & Hw & Hq1 & Hl & Hin & Hpl).
  pose proof (qr_entries _ _ _ Hq) as He. apply Forall_cons in He as [(Hu & _ & Ht) _].
  erewrite (bind_Ok (onQueue _)); [|unfold onQueue; by rewrite (lift_read _ _ _ Hl)]. cbn beta.
  change (target (link _ _ (snd e))) with (target (snd e)).
  destruct (target (snd e)) as [t|] eqn:Et; [|done]. cbn [deref]. rewrite bind_ret.
  destruct (dispatch_safe t q1 log es' pl e (link None None (snd e)) Hq1 Hl Hu Hin Hpl eq_refl Et)
    as (q2 & es2 & pl2 & Hrun2 & Hq2 & Hl2 & Hin2 & Hpl2). mstep Hrun2.
  destruct (rep_recycle _ _ _ _ _ Hq2 Hl2 Hin2 Hpl2) as (q3 & Hrun3 & Hq3 & _).
  erewrite (bind_Ok (onQueue _)); [|unfold onQueue; by rewrite Hrun3].
  do 5 eexists. split; [reflexivity|]. split; [exact Hq3|]. by exists e, es', now.
Qed.

Lemma loopStep_safe clock q log es pl :
  queue_rep q es pl ->
  exists r q' log' es' pl', loopStep clock (q, log) = (Ok r, (q', log')) /\
    queue_rep q' es' pl'.
Proof.
  intros Hq. destruct (loopStep_cases clock q log es pl Hq) as (r & q' & log' & es' & pl' & ? & ? & _).
  by exists r, q', log', es', pl'.
Qed.

(** whatever well-behaved application code runs, [Looper::loop] never
    dereferences a null target, throws, or recycles a message that is still queued or already
    pooled: every iteration keeps the queue and the pool well-formed. *)
Theorem loop_safe clocks q log es pl :
  queue_rep q es pl ->
  exists b q' log' es' pl', loop clocks (q, log) = (Ok b, (q', log')) /\ queue_rep q' es' pl'.
Proof.
  revert q log es pl. induction clocks as [|clock clocks IH]; intros q log es pl Hq;
    cbn [loop]; [by do 5 eexists|].
  destruct (loopStep_safe clock q log es pl Hq) as (r & q1 & log1 & es1 & pl1 & Hrun & Hq1).
  mstep Hrun. destruct r as [[]|]; [by eapply IH|by do 5 eexists|by eapply IH].
Qed.
End LoopSafety.

(** Application code that leaves the queue alone. *)
Definition idle (cb : nat -> option nat) (hd : nat -> nat -> bool) : UserCode.
Proof.
  refine {| mCallback := cb; handled := hd; user := fun _ => mret tt |}.
  intros ev q es pl l m Hq Hl Hu Hin Hpl. by exists q, es, pl.
Defined.

(** The message is due at one of the clock readings. *)
Definition due (e : entry) (clock : list Z) : Prop := Exists (fun now => when (snd e) <= now) clock.

Lemma dequeue_first clock : forall q e es pl,
  queue_rep q (e :: es) pl -> mQuitting q = false -> due e clock ->
  exists q', dequeueMessage clock q = (Ok (Some (Some (fst e))), q') /\ queue_rep q' es pl /\ mQuitting q' = false /\
    cells q' !! fst e = Some (link None None (snd e)) /\ fst e ∉ es.*1 /\ fst e ∉ pl.
Proof.
  induction clock as [|now clock IH]; intros q e es pl Hq Hqt Hd; [by apply Exists_nil in Hd|].
  cbn [dequeueMessage]. rewrite bind_modify. pose proof (rep_cond _ _ _ Running Hq) as Hq1.
  destruct (Z.le_gt_cases (when (snd e)) now) as [Hw|Hw].
  - destruct (dequeue_due _ _ _ _ _ Hq1 Hqt Hw) as (q2 & Hrun & Hq2 & Hs & Hc). mstep Hrun. exists q2.
    split; [done|]. split; [done|]. split; [by rewrite (sw_quitting _ _ _ _ Hs)|done].
  - apply Exists_cons in Hd as [Hd|Hd]; [lia|].
    mstep (dequeue_waits _ _ _ now Hq1 Hqt ltac:(by intros ? [= <-])). apply IH; [by apply rep_cond, rep_cond|done|done].
Qed.

Lemma loopStep_eq cb hd clock e q log es pl :
  queue_rep q (e :: es) pl -> mQuitting q = false -> due e clock ->
  exists q', @loopStep (idle cb hd) clock (q, log) =
      (Ok (Some true), (q', log ++ dispatched cb hd e)) /\
    queue_rep q' es (push pl e) /\ mQuitting q' = false.
Proof.
  intros Hq Hqt Hw. unfold loopStep.
  destruct (dequeue_first clock q e es pl Hq Hqt Hw) as (q1 & Hd & Hq1 & Hqt1 & Hl & Hin & Hpl).
  erewrite (bind_Ok (onQueue _)); [|unfold onQueue; by rewrite Hd]. cbn beta iota.
  pose proof (qr_entries _ _ _ Hq) as He. apply Forall_cons in He as [(Hu & _ & Ht) _].
  erewrite (bind_Ok (onQueue _)); [|unfold onQueue; by rewrite (lift_read _ _ _ Hl)]. cbn beta.
  change (target (link _ _ (snd e))) with (target (snd e)).
  destruct (target (snd e)) as [t|] eqn:Et; [|done]. cbn [deref]. rewrite bind_ret.
  assert (@dispatchMessage (idle cb hd) t (fst e) (q1, log) =
    (Ok tt, (q1, log ++ dispatched cb hd e))) as Hdisp.
  { unfold dispatchMessage, dispatched.
    erewrite (bind_Ok (onQueue _)); [|unfold onQueue; by rewrite (lift_read _ _ _ Hl)].
    change (callback (link _ _ (snd e))) with (callback (snd e)). rewrite Et. cbn.
    destruct (callback (snd e)); [done|]. destruct (cb t) as [c|]; [|done].
    erewrite bind_Ok; [|reflexivity]. destruct (hd c (fst e)); [done|].
    cbn. by rewrite <- app_assoc. }
  mstep Hdisp. destruct (rep_recycle_entry _ _ _ _ _ _ Hq1 Hl Hin Hpl) as (q2 & Hrun2 & Hq2 & Hs2).
  erewrite (bind_Ok (onQueue _)); [|unfold onQueue; by rewrite Hrun2].
  exists q2. split; [done|]. split; [done|]. by rewrite (sw_quitting _ _ _ _ Hs2).
Qed.

Lemma loop_all cb hd clocks q log es pl :
  queue_rep q es pl -> mQuitting q = false -> Forall2 due es clocks ->
  exists q', @loop (idle cb hd) clocks (q, log) =
      (Ok false, (q', log ++ (es ≫= dispatched cb hd))) /\
    queue_rep q' [] (pushes es pl).
Proof.
  intros Hq Hqt Hw. revert q log pl Hq Hqt.
  induction Hw as [|e clock es clocks Hw _ IH]; intros q log pl Hq Hqt; cbn [loop].
  { exists q. split; [cbn; by rewrite app_nil_r|done]. }
  destruct (loopStep_eq cb hd clock e q log es pl Hq Hqt Hw) as (q1 & Hrun & Hq1 & Hqt1). mstep Hrun.
  destruct (IH q1 (log ++ dispatched cb hd e) _ Hq1 Hqt1) as (q2 & Hrun2 & Hq2).
  exists q2. split; [|done]. rewrite Hrun2. cbn. by rewrite <- app_assoc.
Qed.

(** C7: whatever application code runs, as long as it keeps the queue well-formed and leaves the
    message it is given alone, an iteration of the loop that dispatches a message takes the first of
    the queue, due at one of the clock readings of [dequeueMessage], and runs for it exactly
    what [dispatchMessage] chooses: the runnable, the handler's callback, or [handleMessage]; an
    iteration that dispatches none runs nothing and leaves the messages as they are.  Where
    application code leaves the queue alone and nobody quits it, and each message comes due within
    the clock readings of an iteration of its own, the loop dispatches the messages of the
    queue each exactly once, in queue order, and recycles each afterwards. *)
Theorem loop_dispatches :
  (forall (code : UserCode) clock q log es pl, queue_rep q es pl ->
    exists r q' log' es' pl', loopStep clock (q, log) = (Ok r, (q', log')) /\ queue_rep q' es' pl' /\
      match r with
      | Some true => exists e es0 now, es = e :: es0 /\ now ∈ clock /\ when (snd e) <= now /\
          log' = log ++ dispatched mCallback handled e
      | _ => log' = log /\ es' = es
      end) /\
  (forall cb hd clocks q log es pl, queue_rep q es pl -> mQuitting q = false -> Forall2 due es clocks ->
    exists q', @loop (idle cb hd) clocks (q, log) = (Ok false, (q', log ++ (es ≫= dispatched cb hd))) /\
      queue_rep q' [] (pushes es pl)).
Proof. split; [by intros ?; apply loopStep_cases|apply loop_all]. Qed.

(** a thread gets one looper: [prepare] on a fresh thread creates an empty
    queue with the quit permission it was given, a second one throws and keeps the first; a
    thread without one cannot enter [loop], and no handler is created for it. *)
Theorem looper_per_thread allowed allowed' w w' :
  prepare allowed w None = (Ok tt, Some (new allowed w)) /\
  prepare allowed' w' (Some (new allowed w)) = (Throw RuntimeException, Some (new allowed w)) /\
  loopQueue None = (Throw RuntimeException, None) /\
  outcome loopQueue (Some (new allowed w)) = Ok (new allowed w) /\
  new_handler (S := MessageQueue) None (new allowed w) = (Throw NullPointerException, new allowed w).
Proof. done. Qed.

(** *** Concrete instances *)

Lemma post_delivers_witness :
  exists l q', postDelayed 100 9 (Some 5%nat) 20 q0 = (Ok (Some 5%nat), q') /\
    queue_rep q' (enq (l, posted 9 (Some 5%nat) 120) []) [].
Proof. apply (post_delivers q0 [] [] 100 9 (Some 5%nat) 20 0 q0_rep); done. Defined.

Lemma postDelayed_truncates_witness :
  exists l q', postDelayed 100 9 (Some 5%nat) (2 ^ 32 + 20) q0 = (Ok (Some 5%nat), q') /\
    queue_rep q' (enq (l, posted 9 (Some 5%nat) 120) []) [].
Proof. apply (postDelayed_truncates q0 [] [] 100 9 (Some 5%nat) 20 q0_rep); done. Defined.

Lemma post_remove_witness :
  exists q2 q3 pl, postAtTime 9 (Some 5%nat) 50 q1 = (Ok (Some 5%nat), q2) /\
    hasCallbacks 9 (Some 5%nat) q2 = (Ok true, q2) /\
    removeCallbacks 9 (Some 5%nat) q2 = (Ok true, q3) /\ queue_rep q3 [e1] pl /\
    hasCallbacks 9 (Some 5%nat) q3 = (Ok false, q3).
Proof. apply (post_remove q1 [e1] [] 9 5 50 q1_rep); done. Defined.

Lemma send_in_use_retargets_witness :
  exists q', sendMessageAtTime 8 1 50 q1 = (Throw IllegalStateException, q') /\
    cells q' !! 1%nat = Some (set_target (Some 8%nat) (snd e1)).
Proof.
  apply (send_in_use_retargets q1 [e1] [] 8 1 (snd e1) 50 None None q1_rep);
    [apply list_elem_of_here|reflexivity].
Defined.

Lemma loop_safe_witness :
  exists b q' log' es' pl',
    @loop (idle (fun _ => None) (fun _ _ => false)) [[3; 10]; [11]] (q1, []) = (Ok b, (q', log')) /\
    queue_rep q' es' pl'.
Proof. apply (@loop_safe (idle _ _) _ q1 [] [e1] [] q1_rep). Defined.

Lemma loop_dispatches_witness :
  exists q', @loop (idle (fun _ => Some 3%nat) (fun _ _ => false)) [[3; 12]] (q1, []) =
      (Ok false, (q', [CallHandler 3 1; HandleMessage 9 1])) /\ queue_rep q' [] [1%nat].
Proof.
  apply (proj2 loop_dispatches (fun _ => Some 3%nat) (fun _ _ => false) [[3; 12]] q1 [] [e1] [] q1_rep); [reflexivity|].
  constructor; [|constructor]. right. left. decided.
Defined.
End Handler.
