(* ===== verification/RefCounts.v ===== *)
(** * lang/Object.cpp: reference counts

    The counters of an object are changed by any number of threads at once.  Each atomic operation
    on a counter is one step; a thread in a call is at a program point of that call.  The model is
    sequentially consistent: it does not describe the reorderings that the relaxed memory orders
    of the code would allow.

    [onFirstReference] and [onLastReference] are the application's; their defaults do nothing.  No
    destroyer is installed ([mDestroyer] is null), so an object is destroyed by [delete]. *)

From S2P Require Import Prelude.
From stdpp Require Import relations.
Open Scope Z_scope.

Module RefCount.

(* lang/Object.cpp:34-34 INITIAL_STRONG_REFERENCE_VALUE *)
Definition INITIAL_STRONG_REFERENCE_VALUE : Z := Z.shiftl 1 28.

(* lang/Object.h:96-96 OBJECT_LIFETIME_STRONG_REFERENCE *)
Definition OBJECT_LIFETIME_STRONG_REFERENCE : Z := 0.

(* lang/Object.h:98-98 OBJECT_LIFETIME_WEAK_REFERENCE *)
Definition OBJECT_LIFETIME_WEAK_REFERENCE : Z := 1.

(* lang/Object.h:99-99 OBJECT_LIFETIME_MASK *)
Definition OBJECT_LIFETIME_MASK : Z := 1.

(** The counters, and whether the object and the counters themselves are still allocated. *)
(* lang/Object.cpp:36-42 Object::WeakReferenceImpl *)
Record WeakReference := mkReference {
  mStrongReferenceCounter : Z;
  mWeakReferenceCounter : Z;
  mFlags : Z;
  mObject : bool;
  allocated : bool;
}.

Definition set_strong n r :=
  mkReference n (mWeakReferenceCounter r) (mFlags r) (mObject r) (allocated r).
Definition set_weak n r :=
  mkReference (mStrongReferenceCounter r) n (mFlags r) (mObject r) (allocated r).
Definition set_flags f r :=
  mkReference (mStrongReferenceCounter r) (mWeakReferenceCounter r) f (mObject r) (allocated r).
Definition set_object b r :=
  mkReference (mStrongReferenceCounter r) (mWeakReferenceCounter r) (mFlags r) b (allocated r).
Definition set_allocated b r :=
  mkReference (mStrongReferenceCounter r) (mWeakReferenceCounter r) (mFlags r) (mObject r) b.

(* lang/Object.cpp:45-51 WeakReferenceImpl::WeakReferenceImpl *)
Definition newReference : WeakReference :=
  mkReference INITIAL_STRONG_REFERENCE_VALUE 0 0 true true.

(** ** Atomic operations: undefined once the counters are deleted *)

Definition onReference {A} (m : M WeakReference A) : M WeakReference A :=
  a ← gets allocated; if (a : bool) then m else undefined.

(** A member function of the object reads [mReference] in it first. *)
Definition onObject {A} (m : M WeakReference A) : M WeakReference A :=
  o ← gets mObject; if (o : bool) then m else undefined.

Definition load {A} (f : WeakReference -> A) : M WeakReference A := onReference (gets f).

(** [counter.fetch_add(n)]; [fetch_sub] is [fetch_add] of [-n]. *)
Definition fetch_add (f : WeakReference -> Z) (g : Z -> WeakReference -> WeakReference) (n : Z) :
    M WeakReference Z :=
  onReference (old ← gets f; modify (g (i32 (old + n)));; mret old).

(** [counter.compare_exchange_weak(expected, desired)]: [None] on success, otherwise the value
    found; it may fail spuriously. *)
Definition compare_exchange_weak (spurious : bool) (f : WeakReference -> Z)
    (g : Z -> WeakReference -> WeakReference) (expected desired : Z) : M WeakReference (option Z) :=
  onReference (
    old ← gets f;
    if negb spurious && (old =? expected) then modify (g (i32 desired));; mret None
    else mret (Some old)).

(** A failed [ASSERT] is undefined. *)
Definition assert (b : bool) : M WeakReference unit := if b then mret tt else undefined.

Definition strong_add := fetch_add mStrongReferenceCounter set_strong.
Definition weak_add := fetch_add mWeakReferenceCounter set_weak.
Definition strong_cas spurious := compare_exchange_weak spurious mStrongReferenceCounter set_strong.

Definition lifetime (flags mode : Z) : bool := Z.land flags OBJECT_LIFETIME_MASK =? mode.

(** ** Calls and references

    The program points of the calls; each is named after what the thread does next. *)

Inductive inc_strong_at := IncWeak | AddStrong | SubInitial.
Inductive dec_strong_at := SubStrong | LastFlags.
Inductive destroy_at := DestroyFlags | DestroyWeak | DestroyStrong | DestroyReference | Free.
Inductive dec_weak_at := SubWeak | WeakFlags | WeakStrong | WeakReferenceDelete.
Inductive try_at :=
  | TryWeak
  | TryLoad
  | TryExchange (strongReferenceCount : Z)
  | TryFlags (strongReferenceCount : Z)
  | TryAgain (strongReferenceCount : Z)
  | TryAdd
  | TrySub.

(** A pointer to the object that does not count: what [new] returns. *)
Inductive pointer := Raw | Strong | Weak.

(** A reference that somebody holds, or a call in progress.  A call that copies a reference
    borrows it until it returns. *)
Inductive agent :=
  | Held (p : pointer)
  | InIncStrong (at_ : inc_strong_at) (from : pointer)
  | InIncWeak (from : pointer)
  | InDecStrong (at_ : dec_strong_at)
  | InDecWeak (at_ : dec_weak_at)
  | InTry (at_ : try_at)
  (** The destructor; [last] tells whether the last weak reference goes ([decWeakReference])
      or the last strong one ([decStrongReference]). *)
  | InDestroy (at_ : destroy_at) (last : bool).

(** The raw pointer is used up by the first reference made from it. *)
Definition back (from : pointer) : list agent := match from with Raw => [] | _ => [Held from] end.

(* lang/Object.cpp:332-337 WeakReference::incWeakReference *)
Definition incWeakReference : M WeakReference unit :=
  oldWeakReferenceCount ← weak_add 1; assert (0 <=? oldWeakReferenceCount).

(* lang/Object.cpp:434-437 Object::createWeakReference *)
Definition createWeakReference (from : pointer) : M WeakReference (list agent) :=
  (match from with Weak => id | _ => onObject end) incWeakReference;;
  mret (Held Weak :: back from).

(* lang/Object.cpp:237-255 Object::incStrongReference *)
Definition incStrongReference (at_ : inc_strong_at) (from : pointer) : M WeakReference (list agent) :=
  match at_ with
  | IncWeak => onObject incWeakReference;; mret [InIncStrong AddStrong from]
  | AddStrong =>
      oldStrongReferenceCount ← strong_add 1;
      assert (0 <? oldStrongReferenceCount);;
      if negb (oldStrongReferenceCount =? INITIAL_STRONG_REFERENCE_VALUE)
      then mret (Held Strong :: back from)
      else mret [InIncStrong SubInitial from]
  | SubInitial =>
      strong_add (- INITIAL_STRONG_REFERENCE_VALUE);;
      mret (Held Strong :: back from)
  end.

(** The counters are deleted with the object where no reference is left that would do it. *)
(* lang/Object.cpp:213-224 Object::~Object *)
Definition destroyObject (at_ : destroy_at) (last : bool) : M WeakReference (list agent) :=
  match at_ with
  | DestroyFlags =>
      flags ← onObject (load mFlags);
      mret [InDestroy (if lifetime flags OBJECT_LIFETIME_WEAK_REFERENCE then DestroyWeak
                       else DestroyStrong) last]
  | DestroyWeak =>
      n ← onObject (load mWeakReferenceCounter);
      mret [InDestroy (if n =? 0 then DestroyReference else Free) last]
  | DestroyStrong =>
      n ← onObject (load mStrongReferenceCounter);
      mret [InDestroy (if n =? INITIAL_STRONG_REFERENCE_VALUE then DestroyReference else Free) last]
  | DestroyReference =>
      onReference (modify (set_allocated false));; mret [InDestroy Free last]
  | Free =>
      onObject (modify (set_object false));;
      mret (if last then [] else [InDecWeak SubWeak])
  end.

(* lang/Object.cpp:257-278 Object::decStrongReference *)
Definition decStrongReference (at_ : dec_strong_at) : M WeakReference (list agent) :=
  match at_ with
  | SubStrong =>
      oldStrongReferenceCount ← onObject (strong_add (-1));
      assert (1 <=? oldStrongReferenceCount);;
      mret [if oldStrongReferenceCount =? 1 then InDecStrong LastFlags else InDecWeak SubWeak]
  | LastFlags =>
      flags ← load mFlags;
      mret [if lifetime flags OBJECT_LIFETIME_STRONG_REFERENCE then InDestroy DestroyFlags false
            else InDecWeak SubWeak]
  end.

(* lang/Object.cpp:339-371 WeakReference::decWeakReference *)
Definition decWeakReference (at_ : dec_weak_at) : M WeakReference (list agent) :=
  match at_ with
  | SubWeak =>
      oldWeakReferenceCount ← weak_add (-1);
      assert (1 <=? oldWeakReferenceCount);;
      mret (if negb (oldWeakReferenceCount =? 1) then [] else [InDecWeak WeakFlags])
  | WeakFlags =>
      flags ← load mFlags;
      mret [if lifetime flags OBJECT_LIFETIME_STRONG_REFERENCE then InDecWeak WeakStrong
            else InDestroy DestroyFlags true]
  | WeakStrong =>
      n ← load mStrongReferenceCounter;
      mret [if n =? INITIAL_STRONG_REFERENCE_VALUE then InDestroy DestroyFlags true
            else InDecWeak WeakReferenceDelete]
  | WeakReferenceDelete => onReference (modify (set_allocated false));; mret []
  end.

(** A failed attempt gives its weak count back and returns. *)
Definition tryFails : list agent := [Held Weak; InDecWeak SubWeak].

(* lang/Object.cpp:373-420 WeakReference::tryIncStrongReference *)
Definition tryIncStrongReference (spurious : bool) (at_ : try_at) : M WeakReference (list agent) :=
  match at_ with
  | TryWeak => incWeakReference;; mret [InTry TryLoad]
  | TryLoad =>
      strongReferenceCount ← load mStrongReferenceCounter;
      assert (0 <=? strongReferenceCount);;
      mret [InTry (TryExchange strongReferenceCount)]
  | TryExchange strongReferenceCount =>
      if (0 <? strongReferenceCount) && negb (strongReferenceCount =? INITIAL_STRONG_REFERENCE_VALUE)
      then
        r ← strong_cas spurious strongReferenceCount (strongReferenceCount + 1);
        mret (match r with
              | None => [Held Strong; Held Weak]
              | Some found => [InTry (TryExchange found)]
              end)
      else mret [InTry (TryFlags strongReferenceCount)]
  | TryFlags strongReferenceCount =>
      flags ← load mFlags;
      mret (if lifetime flags OBJECT_LIFETIME_STRONG_REFERENCE
            then if strongReferenceCount <=? 0 then tryFails else [InTry (TryAgain strongReferenceCount)]
            else [InTry TryAdd])
  | TryAgain strongReferenceCount =>
      if 0 <? strongReferenceCount then
        r ← strong_cas spurious strongReferenceCount (strongReferenceCount + 1);
        mret (match r with
              | None =>
                  if strongReferenceCount =? INITIAL_STRONG_REFERENCE_VALUE then [InTry TrySub]
                  else [Held Strong; Held Weak]
              | Some found => [InTry (TryAgain found)]
              end)
      else mret tryFails
  | TryAdd =>
      strongReferenceCount ← strong_add 1;
      mret (if strongReferenceCount =? INITIAL_STRONG_REFERENCE_VALUE then [InTry TrySub]
            else [Held Strong; Held Weak])
  | TrySub =>
      strong_add (- INITIAL_STRONG_REFERENCE_VALUE);;
      mret [Held Strong; Held Weak]
  end.

(** One atomic step of an agent: what becomes of it. *)
Definition exec (spurious : bool) (a : agent) : M WeakReference (list agent) :=
  match a with
  | Held _ => mret [a]
  | InIncStrong at_ from => incStrongReference at_ from
  | InIncWeak from => createWeakReference from
  | InDecStrong at_ => decStrongReference at_
  | InDecWeak at_ => decWeakReference at_
  | InTry at_ => tryIncStrongReference spurious at_
  | InDestroy at_ last => destroyObject at_ last
  end.

(** The loop of [setObjectLifetime] while the strong count is zero, undisturbed. *)
(* lang/Object.cpp:292-313 Object::setObjectLifetime *)
Definition setObjectLifetime (mode : Z) : M WeakReference unit :=
  if mode =? OBJECT_LIFETIME_WEAK_REFERENCE then
    onReference (modify (fun r => set_flags (Z.lor (mFlags r) mode) r))
  else if mode =? OBJECT_LIFETIME_STRONG_REFERENCE then
    flags ← load mFlags;
    if lifetime flags OBJECT_LIFETIME_WEAK_REFERENCE then
      strongReferenceCount ← load mStrongReferenceCounter;
      assert (0 <=? strongReferenceCount);;
      (if strongReferenceCount =? 0 then
         strong_cas false strongReferenceCount INITIAL_STRONG_REFERENCE_VALUE;; mret tt
       else mret tt);;
      onReference (modify (fun r => set_flags (Z.land (mFlags r) mode) r))
    else mret tt
  else mret tt.

(* lang/Object.cpp:280-282 Object::getStrongReferenceCount *)
Definition getStrongReferenceCount : M WeakReference Z := onObject (load mStrongReferenceCounter).

(* lang/Object.cpp:422-424 WeakReference::getWeakReferenceCount *)
Definition getWeakReferenceCount : M WeakReference Z := load mWeakReferenceCounter.

(** ** Runs

    What the holders of references may do: a call needs the reference it works on. *)

Inductive starts : agent -> agent -> Prop :=
  | first_strong : starts (Held Raw) (InIncStrong IncWeak Raw)
  | first_weak : starts (Held Raw) (InIncWeak Raw)
  | copy_strong : starts (Held Strong) (InIncStrong IncWeak Strong)
  | weaken : starts (Held Strong) (InIncWeak Strong)
  | drop_strong : starts (Held Strong) (InDecStrong SubStrong)
  | copy_weak : starts (Held Weak) (InIncWeak Weak)
  | promote : starts (Held Weak) (InTry TryWeak)
  | drop_weak : starts (Held Weak) (InDecWeak SubWeak).

Fixpoint sum (f : agent -> Z) (l : list agent) : Z :=
  match l with [] => 0 | a :: l => f a + sum f l end.

(** How many references there are or are being made. *)
Definition references (a : agent) : Z :=
  match a with InIncStrong _ _ | InIncWeak _ | InTry _ => 2 | _ => 1 end.

(** There are fewer references than [INITIAL_STRONG_REFERENCE_VALUE]. *)
Definition capacity : Z := 2 ^ 27.

Definition config : Type := list agent * WeakReference.

(** Any agent takes its next step, or any held reference is used. *)
Inductive step : config -> config -> Prop :=
  | step_start l1 a l2 b r :
      starts a b -> sum references (l1 ++ b :: l2) <= capacity ->
      step (l1 ++ a :: l2, r) (l1 ++ b :: l2, r)
  | step_exec l1 a l2 spurious bs r r' :
      exec spurious a r = (Ok bs, r') -> step (l1 ++ a :: l2, r) (l1 ++ bs ++ l2, r').

(** A new object, whose constructor sets its life-time. *)
Definition born (mode : Z) : config :=
  ([Held Raw], Prelude.exec (setObjectLifetime mode) newReference).

(** The mode of an object that its weak references keep alive, or its strong ones. *)
Definition life (weakLife : bool) : Z :=
  if weakLife then OBJECT_LIFETIME_WEAK_REFERENCE else OBJECT_LIFETIME_STRONG_REFERENCE.

(** ** The invariant

    What an agent contributes to the counters.  [weakLife] is the life-time mode of the object. *)

Definition is_strong (p : pointer) : Z := match p with Strong => 1 | _ => 0 end.
Definition counted (p : pointer) : Z := match p with Raw => 0 | _ => 1 end.

Definition strongs (a : agent) : Z :=
  match a with
  | Held p | InIncWeak p => is_strong p
  | InIncStrong SubInitial p => 1 + is_strong p
  | InIncStrong _ p => is_strong p
  | InDecStrong SubStrong | InTry TrySub => 1
  | _ => 0
  end.

Definition weaks (a : agent) : Z :=
  match a with
  | Held p | InIncWeak p | InIncStrong IncWeak p => counted p
  | InIncStrong _ p => 1 + counted p
  | InDecStrong _ | InDecWeak SubWeak | InTry TryWeak | InDestroy _ false => 1
  | InTry _ => 2
  | _ => 0
  end.

(** Calls that will take [INITIAL_STRONG_REFERENCE_VALUE] off the strong counter. *)
Definition pendings (a : agent) : Z :=
  match a with InIncStrong SubInitial _ | InTry TrySub => 1 | _ => 0 end.

(** The raw pointer, until the first reference is counted as strong or weak. *)
Definition raws (a : agent) : Z :=
  match a with
  | Held Raw | InIncStrong IncWeak Raw | InIncStrong AddStrong Raw | InIncWeak Raw => 1
  | _ => 0
  end.

(** The call that destroys the object after its last strong reference. *)
Definition dyings (weakLife : bool) (a : agent) : Z :=
  match a with
  | InDecStrong LastFlags => if weakLife then 0 else 1
  | InDestroy _ false => 1
  | _ => 0
  end.

(** The call that dropped the last weak reference: it looks at the flags and the strong counter, *)
Definition lasts (a : agent) : Z :=
  match a with InDecWeak WeakFlags | InDecWeak WeakStrong => 1 | _ => 0 end.

(** destroys the object and with it the counters, *)
Definition destroying (a : agent) : Z :=
  match a with InDestroy Free true => 0 | InDestroy _ true => 1 | _ => 0 end.
Definition destroyed (a : agent) : Z := match a with InDestroy Free true => 1 | _ => 0 end.

(** or only the counters. *)
Definition deleting (a : agent) : Z := match a with InDecWeak WeakReferenceDelete => 1 | _ => 0 end.

(** Program points that are not reached in the life-time mode. *)
Definition impossible (weakLife : bool) (a : agent) : Z :=
  match a with
  | InDestroy DestroyReference false | InIncStrong _ Weak => 1
  | InDestroy DestroyWeak _ | InTry TryAdd => if weakLife then 0 else 1
  | InDestroy DestroyStrong _ | InDecWeak WeakStrong | InDestroy _ false => if weakLife then 1 else 0
  | _ => 0
  end.

Definition one (a : agent) : Z := 1.

(** What the sums over the agents can be, [u] telling whether the initial value is still in the
    strong counter with nobody about to take it off, and whether the object and the counters
    are allocated then. *)
Inductive phase (weakLife : bool) (u s w p r n d x z e y : Z) : bool -> bool -> Prop :=
  | Live :
      d = 0 -> x = 0 -> z = 0 -> e = 0 -> y = 0 ->
      (r = 1 /\ n = 1 /\ u = 1 \/ r = 0 /\ 1 <= w) -> (weakLife = false -> u = 1 \/ 1 <= s) ->
      phase weakLife u s w p r n d x z e y true true
  | Dying :
      weakLife = false -> d = 1 -> x = 0 -> z = 0 -> e = 0 -> y = 0 -> u = 0 -> s = 0 -> p = 0 ->
      r = 0 -> phase weakLife u s w p r n d x z e y true true
  | Dead :
      weakLife = false -> d = 0 -> x = 0 -> z = 0 -> e = 0 -> y = 0 -> u = 0 -> s = 0 -> p = 0 ->
      r = 0 -> 1 <= w -> phase weakLife u s w p r n d x z e y false true
  | Last :
      d = 0 -> x + z = 1 -> e = 0 -> y = 0 -> s = 0 -> w = 0 -> p = 0 -> r = 0 ->
      (weakLife = false -> u = 1) -> phase weakLife u s w p r n d x z e y true true
  | LastDead :
      weakLife = false -> d = 0 -> x + y = 1 -> z = 0 -> e = 0 -> u = 0 -> s = 0 -> w = 0 -> p = 0 ->
      r = 0 -> phase weakLife u s w p r n d x z e y false true
  | Destroyed :
      d = 0 -> x = 0 -> z = 0 -> e = 1 -> y = 0 -> s = 0 -> w = 0 -> p = 0 -> r = 0 ->
      phase weakLife u s w p r n d x z e y true false
  | Gone :
      d = 0 -> x = 0 -> z = 0 -> e = 0 -> y = 0 -> s = 0 -> w = 0 -> p = 0 -> r = 0 ->
      phase weakLife u s w p r n d x z e y false false.

(** All sums, and the state of the counters. *)
Record invs (weakLife : bool) (s w p r n d x z e y i c : Z) (st : WeakReference) (u : Z) : Prop := {
  in_u : 0 <= u /\ u + p <= 1 /\ (u = 1 -> s = 0);
  in_raw : r <= 1;
  in_size : c <= capacity;
  in_possible : i = 0;
  in_strong : mStrongReferenceCounter st = s + 2 ^ 28 * (u + p);
  in_weak : mWeakReferenceCounter st = w;
  in_flags : mFlags st = if weakLife then 1 else 0;
  in_phase : phase weakLife u s w p r n d x z e y (mObject st) (allocated st);
}.

(** The sums over some agents. *)
Record others (wl : bool) (s w p r n d x z e y i c : Z) : Prop := {
  ot_nonneg : 0 <= s /\ 0 <= p /\ 0 <= r /\ 0 <= d /\ 0 <= x /\ 0 <= z /\ 0 <= e /\ 0 <= y /\ 0 <= i;
  ot_le : p <= s /\ s <= w /\ s + d <= w /\ w <= c /\ r <= n;
  ot_all : n <= w + r + x + z + e + y;
}.

(** Applies a relation of the sums to the sums over [l]. *)
Definition over {T} (P : Z -> Z -> Z -> Z -> Z -> Z -> Z -> Z -> Z -> Z -> Z -> Z -> T) (wl : bool)
    (l l' : list agent) : T :=
  let S f := sum f l + sum f l' in
  P (S strongs) (S weaks) (S pendings) (S raws) (S one) (S (dyings wl)) (S lasts) (S destroying)
    (S destroyed) (S deleting) (S (impossible wl)) (S references).

Definition inv (wl : bool) (c : config) : Prop := exists u, over (invs wl) wl [] (fst c) (snd c) u.

Lemma sum_app f l1 l2 : sum f (l1 ++ l2) = sum f l1 + sum f l2.
Proof. induction l1; cbn; lia. Qed.

Lemma over_middle {T} P wl l1 bs l2 : @over T P wl [] (l1 ++ bs ++ l2) = over P wl bs (l1 ++ l2).
Proof.
  unfold over. cbn zeta.
  assert (forall f, sum f [] + sum f (l1 ++ bs ++ l2) = sum f bs + sum f (l1 ++ l2)) as E.
  { intros f. rewrite !sum_app. cbn. lia. }
  by rewrite !E.
Qed.

Lemma sum_others wl l : over (others wl) wl [] l.
Proof.
  induction l as [|a l [H1 H2 H3]]; [by split|].
  assert (over (others wl) wl [a] []) as [G1 G2 G3].
  { destruct wl, a as [[]|[] []|[]|[]|[]|[]|[] []]; split; unfold one; cbn; lia. }
  cbn in *. split; cbn; lia.
Qed.

(** ** A step of one agent

    [fact] runs the atomic operations of a step on the counters of a phase. *)

Ltac bools :=
  repeat match goal with
  | H : negb _ = _ |- _ => apply (f_equal negb) in H; rewrite negb_involutive in H; cbn in H
  | H : (_ && _) = true |- _ => apply andb_prop in H as [? ?]
  | H : (_ && _) = false |- _ => apply andb_false_iff in H as [H|H]
  | H : (_ <=? _) = true |- _ => apply Z.leb_le in H
  | H : (_ <=? _) = false |- _ => apply Z.leb_gt in H
  | H : (_ <? _) = true |- _ => apply Z.ltb_lt in H
  | H : (_ <? _) = false |- _ => apply Z.ltb_ge in H
  | H : (_ =? _) = true |- _ => apply Z.eqb_eq in H
  | H : (_ =? _) = false |- _ => apply Z.eqb_neq in H
  | H : false = false -> _ |- _ => specialize (H eq_refl)
  | H : true = false -> _ |- _ => clear H
  | H : true = false |- _ => discriminate H
  | H : Z.land 1 1 = 0 |- _ => discriminate H
  | H : Z.land 0 1 <> 0 |- _ => destruct H; reflexivity
  | H : Z.land 0 1 = 1 |- _ => discriminate H
  | H : Z.land 1 1 <> 1 |- _ => destruct H; reflexivity
  | H : false = true |- _ => discriminate H
  end.

#[local] Arguments i32 : simpl never.

Ltac run_step :=
  cbv [assert onObject onReference load strong_add weak_add fetch_add strong_cas
    compare_exchange_weak lifetime incWeakReference gets modify mret M_ret mbind M_bind
    INITIAL_STRONG_REFERENCE_VALUE OBJECT_LIFETIME_MASK OBJECT_LIFETIME_STRONG_REFERENCE
    OBJECT_LIFETIME_WEAK_REFERENCE]; cbn;
  repeat match goal with
  | |- context [if ?b then _ else _] =>
      lazymatch b with
      | context [if _ then _ else _] => fail
      | _ => destruct b eqn:?; cbn in *
      end
  end;
  change (Z.shiftl 1 28) with (2 ^ 28) in *; bools; try (exfalso; unfold capacity in *; lia).

(** What a step owes: it is defined and keeps the sums right. *)
Definition local (wl spurious : bool) (a : agent) (o : list agent) (st : WeakReference) : Prop :=
  exists bs st' u', exec spurious a st = (Ok bs, st') /\ over (invs wl) wl bs o st' u'.

(** Names the sums over the other agents and splits the case by the phase and the life-time. *)
Ltac open_local :=
  match goal with |- over _ ?wl _ ?o _ _ -> _ => generalize (sum_others wl o) end;
  unfold local, over; cbn zeta; cbn [sum];
  repeat match goal with |- context [sum ?f ?o] => generalize (sum f o); intros ? end;
  intros [Hn Hl Ha] [Hu Hr Hc Hi Hs Hw Hf Hp];
  match goal with st : WeakReference |- _ => destruct st as [sc wc fl ob al] end;
  unfold one in *; cbn in *; subst;
  destruct Hp; subst; bools; try discriminate; try lia.

(** The state after the step: one of the phases, with [u'] for [u]. *)
Ltac close_local u' :=
  eexists _, _, u'; split; [reflexivity|]; cbn; unfold capacity in *; rewrite ?i32_id by lia;
  split; cbn; try (unfold capacity; lia);
  first [apply Live; solve [intros; bools; lia] | apply Dying; solve [intros; bools; lia]
    | apply Dead; solve [intros; bools; lia] | apply Last; solve [intros; bools; lia]
    | apply LastDead; solve [intros; bools; lia] | apply Destroyed; solve [intros; bools; lia]
    | apply Gone; solve [intros; bools; lia]].

Ltac local_step :=
  open_local; run_step;
  match goal with Hu : 0 <= ?u /\ _ |- _ => first [close_local u | close_local 0] end.

Section local.
Context (wl spurious : bool) (o : list agent) (st : WeakReference) (u : Z).

Lemma decStrong_local at_ :
  over (invs wl) wl [InDecStrong at_] o st u -> local wl spurious (InDecStrong at_) o st.
Proof. destruct wl, at_; local_step. Qed.

Lemma incStrong_local at_ from :
  over (invs wl) wl [InIncStrong at_ from] o st u -> local wl spurious (InIncStrong at_ from) o st.
Proof. destruct wl, at_, from; local_step. Qed.

Lemma incWeak_local from :
  over (invs wl) wl [InIncWeak from] o st u -> local wl spurious (InIncWeak from) o st.
Proof. destruct wl, from; local_step. Qed.

Lemma decWeak_local at_ :
  over (invs wl) wl [InDecWeak at_] o st u -> local wl spurious (InDecWeak at_) o st.
Proof. destruct wl, at_; local_step. Qed.

Lemma try_local at_ :
  over (invs wl) wl [InTry at_] o st u -> local wl spurious (InTry at_) o st.
Proof. destruct wl, at_; local_step. Qed.

Lemma destroy_local at_ last :
  over (invs wl) wl [InDestroy at_ last] o st u -> local wl spurious (InDestroy at_ last) o st.
Proof. destruct wl, at_, last; local_step. Qed.

Lemma exec_local a : over (invs wl) wl [a] o st u -> local wl spurious a o st.
Proof.
  destruct a; [|apply incStrong_local|apply incWeak_local|apply decStrong_local|
    apply decWeak_local|apply try_local|apply destroy_local].
  intros H. eexists _, _, u. split; [reflexivity|]. exact H.
Qed.
End local.

(** ** Runs keep the invariant *)

Lemma inv_in wl l1 a l2 r : inv wl (l1 ++ a :: l2, r) -> exists u, over (invs wl) wl [a] (l1 ++ l2) r u.
Proof. intros [u H]. exists u. cbn in H. by rewrite (over_middle _ wl l1 [a] l2) in H. Qed.

Lemma counts_inv_start wl l1 a b l2 r :
  starts a b -> sum references (l1 ++ b :: l2) <= capacity -> inv wl (l1 ++ a :: l2, r) ->
  inv wl (l1 ++ b :: l2, r).
Proof.
  intros Hs Hc [u H]%inv_in. exists u. cbn. rewrite (over_middle _ wl l1 [b] l2).
  rewrite sum_app in Hc. cbn in Hc. pose proof (sum_app references l1 l2).
  destruct H as [???????], Hs; split; try done; cbn in *; lia.
Qed.

Lemma counts_inv_step wl c c' : step c c' -> inv wl c -> inv wl c'.
Proof.
  intros Hs H. destruct Hs as [l1 a l2 b r Hab Hc|l1 a l2 sp bs r r' He].
  - by eapply counts_inv_start.
  - apply inv_in in H as [u (bs' & r1 & u' & E & H)%(exec_local _ sp)].
    rewrite E in He. injection He as -> ->. exists u'. cbn. by rewrite over_middle.
Qed.

Lemma born_eq (wl : bool) :
  born (life wl) = ([Held Raw], mkReference (2 ^ 28) 0 (if wl then 1 else 0) true true).
Proof. by destruct wl. Qed.

Lemma inv_born (wl : bool) : inv wl (born (life wl)).
Proof.
  rewrite born_eq. exists 1. destruct wl; split; unfold capacity, one; cbn; try lia; apply Live; lia.
Qed.

Lemma counts_inv_reachable wl c : rtc step (born (life wl)) c -> inv wl c.
Proof.
  assert (forall c1 c2, rtc step c1 c2 -> inv wl c1 -> inv wl c2) as H.
  { induction 1; eauto using counts_inv_step. }
  intros Hc. eapply H; [done|]. apply inv_born.
Qed.

(** ** Theorems *)

(** C13: However threads copy, drop, weaken and promote references to an object, in
    either life-time mode, every atomic step of theirs is defined: no step touches the object or
    the counters after they are deleted, nothing is deleted twice, no [ASSERT] fails and no counter
    overflows. *)
Theorem refcount_safe wl l r a spurious :
  rtc step (born (life wl)) (l, r) -> a ∈ l ->
  exists bs r', exec spurious a r = (Ok bs, r') /\
    0 <= mStrongReferenceCounter r' < 2 ^ 30 /\ 0 <= mWeakReferenceCounter r' < 2 ^ 30.
Proof.
  intros H%counts_inv_reachable (l1 & l2 & ->)%list_elem_of_split.
  apply inv_in in H as [u (bs & r' & u' & E & H)%(exec_local _ spurious)].
  exists bs, r'. split; [done|].
  pose proof (sum_others wl (l1 ++ l2)) as [].
  pose proof (sum_others wl bs) as [].
  destruct H as [???? Hs Hw ??]. rewrite Hs, Hw. unfold capacity in *. cbn in *. lia.
Qed.

(** While somebody holds a strong reference the object exists; while somebody
    holds a weak reference the counters exist, and with the weak life-time mode the object too. *)
Theorem references_keep wl l r :
  rtc step (born (life wl)) (l, r) ->
  (Held Strong ∈ l -> mObject r = true /\ allocated r = true) /\
  (Held Weak ∈ l -> allocated r = true /\ (wl = true -> mObject r = true)).
Proof.
  intros H%counts_inv_reachable.
  split; intros (l1 & l2 & ->)%list_elem_of_split;
    apply inv_in in H as [u [Hu Hr Hc Hi Hs Hw Hf Hp]];
    pose proof (sum_others wl (l1 ++ l2)) as [Hn Hl Ha]; cbn in *;
    inversion Hp; subst; try lia; done.
Qed.

(** C14: When no reference is left and no call is in progress, the object and its
    counters have been deleted. *)
Theorem refcount_no_leak wl r :
  rtc step (born (life wl)) ([], r) -> mObject r = false /\ allocated r = false.
Proof.
  intros [u [Hu Hr Hc Hi Hs Hw Hf Hp]]%counts_inv_reachable. cbn in *. inversion Hp; subst; try lia; done.
Qed.

(** The weak reference at hand can become a strong one. *)
Definition promotable (r : WeakReference) : bool :=
  lifetime (mFlags r) OBJECT_LIFETIME_WEAK_REFERENCE || (0 <? mStrongReferenceCounter r).

(** A run that ends with the agents [l], in some state. *)
Definition ends (c : config) (l : list agent) : Prop := exists r, rtc step c (l, r).

Lemma ends_now l r : ends (l, r) l.
Proof. by exists r. Qed.

Lemma ends_exec l1 a l2 r bs r' l :
  exec false a r = (Ok bs, r') -> ends (l1 ++ bs ++ l2, r') l -> ends (l1 ++ a :: l2, r) l.
Proof. intros H [r1 H1]. exists r1. eapply rtc_l; [by econstructor|done]. Qed.

Lemma weak_held wl l1 l2 r :
  inv wl (l1 ++ Held Weak :: l2, r) ->
  allocated r = true /\ mFlags r = life wl /\ 0 <= mStrongReferenceCounter r <= 2 ^ 28 + 2 ^ 27 /\
  0 <= mWeakReferenceCounter r <= 2 ^ 27.
Proof.
  intros [u [Hu Hr Hc Hi Hs Hw Hf Hp]]%inv_in.
  pose proof (sum_others wl (l1 ++ l2)) as [Hn Hl Ha]. unfold capacity in *. cbn in *.
  split; [inversion Hp; subst; done || lia|]. split; [by destruct wl|]. lia.
Qed.

(** The steps of a promotion, on existing counters. *)
Section promotion.
Context (s w f : Z) (o : bool).
Hypothesis Hs : 0 <= s <= 2 ^ 28 + 2 ^ 27.
Hypothesis Hw : 0 <= w <= 2 ^ 27.

Ltac promotes := cbn; run_step; rewrite ?i32_id by lia; try reflexivity; lia.

Lemma try_enters :
  exec false (InTry TryWeak) (mkReference s w f o true) =
  (Ok [InTry TryLoad], mkReference s (w + 1) f o true).
Proof. promotes. Qed.

Lemma try_loads :
  exec false (InTry TryLoad) (mkReference s w f o true) =
  (Ok [InTry (TryExchange s)], mkReference s w f o true).
Proof. promotes. Qed.

Lemma try_exchanges :
  exec false (InTry (TryExchange s)) (mkReference s w f o true) =
  if (0 <? s) && negb (s =? 2 ^ 28) then (Ok [Held Strong; Held Weak], mkReference (s + 1) w f o true)
  else (Ok [InTry (TryFlags s)], mkReference s w f o true).
Proof. promotes. Qed.

Lemma try_flags wl :
  f = life wl ->
  exec false (InTry (TryFlags s)) (mkReference s w f o true) =
  (Ok (if wl then [InTry TryAdd] else if s <=? 0 then tryFails else [InTry (TryAgain s)]),
    mkReference s w f o true).
Proof. intros ->. destruct wl; promotes. Qed.

Lemma try_again :
  s = 2 ^ 28 ->
  exec false (InTry (TryAgain s)) (mkReference s w f o true) =
  (Ok [InTry TrySub], mkReference (s + 1) w f o true).
Proof. intros ->. promotes. Qed.

Lemma try_adds :
  exec false (InTry TryAdd) (mkReference s w f o true) =
  (Ok (if s =? 2 ^ 28 then [InTry TrySub] else [Held Strong; Held Weak]),
    mkReference (s + 1) w f o true).
Proof. promotes. Qed.

Lemma try_subs :
  exec false (InTry TrySub) (mkReference (s + 1) w f o true) =
  (Ok [Held Strong; Held Weak], mkReference (s + 1 - 2 ^ 28) w f o true).
Proof. promotes. Qed.
End promotion.

(** A promotion of a weak reference that no other thread disturbs ends.  It gives
    a strong reference where the object may still be used: when the strong counter is not zero,
    or always with the weak life-time mode.  Otherwise it only gives back its own weak count. *)
Theorem promote_alone wl l1 l2 r :
  rtc step (born (life wl)) (l1 ++ Held Weak :: l2, r) ->
  sum references (l1 ++ InTry TryWeak :: l2) <= capacity ->
  ends (l1 ++ Held Weak :: l2, r)
    (l1 ++ (if promotable r then [Held Strong; Held Weak] else tryFails) ++ l2).
Proof.
  intros H Hc. apply counts_inv_reachable, weak_held in H as (Ha & Hf & Hs & Hw).
  destruct r as [s w f o a]. unfold promotable. cbn in *. subst a f.
  cut (ends (l1 ++ InTry TryWeak :: l2, mkReference s w (life wl) o true)
    (l1 ++ (if lifetime (life wl) OBJECT_LIFETIME_WEAK_REFERENCE || (0 <? s)
            then [Held Strong; Held Weak] else tryFails) ++ l2)).
  { intros [r' H]. exists r'. eapply rtc_l; [|exact H]. by constructor; [constructor|]. }
  eapply ends_exec; [by apply try_enters|].
  eapply ends_exec; [by apply try_loads|].
  assert (lifetime (life wl) OBJECT_LIFETIME_WEAK_REFERENCE = wl) as -> by by destruct wl.
  pose proof (try_exchanges s (w + 1) (life wl) o Hs) as E.
  destruct (0 <? s) eqn:E0, (s =? 2 ^ 28) eqn:E1; cbn in E; bools; try lia;
    (eapply ends_exec; [exact E|]); rewrite ?orb_true_r, ?orb_false_r; try by apply ends_now.
  all: eapply ends_exec; [by apply try_flags|].
  all: destruct wl; [eapply ends_exec; [by apply try_adds|]|].
  all: clear E; repeat case_match; bools; try lia; try by apply ends_now.
  all: try (eapply ends_exec; [by apply try_again|]); eapply ends_exec; [by apply try_subs|].
  all: apply ends_now.
Qed.

Definition held (a : agent) : bool := match a with Held _ => true | _ => false end.

Lemma held_sums wl l :
  forallb held l = true -> sum pendings l = 0 /\ sum (dyings wl) l = 0 /\ sum lasts l = 0 /\
    sum destroying l = 0 /\ sum destroyed l = 0 /\ sum deleting l = 0.
Proof.
  induction l as [|a l IH]; cbn; [lia|]. intros [Ha Hl]%andb_prop. specialize (IH Hl).
  destruct a; try done; cbn; lia.
Qed.

(** Between calls the weak counter is the number of references, strong and weak;
    the strong counter is the number of strong ones once there has been one, and
    [INITIAL_STRONG_REFERENCE_VALUE] before.  An object whose strong counter has come to zero has
    been deleted, unless its life-time is that of the weak references. *)
Theorem counts_exact wl l r :
  rtc step (born (life wl)) (l, r) -> forallb held l = true ->
  allocated r = true ->
  mWeakReferenceCounter r = sum weaks l /\
  (mStrongReferenceCounter r = sum strongs l \/
   mStrongReferenceCounter r = INITIAL_STRONG_REFERENCE_VALUE /\ sum strongs l = 0) /\
  (wl = false -> (mObject r = true <-> 0 < mStrongReferenceCounter r)).
Proof.
  intros [u [Hu Hr Hc Hi Hs Hw Hf Hp]]%counts_inv_reachable Hh Ha. cbn in *.
  pose proof (sum_others wl l) as [Hn Hl _]. cbn in *.
  destruct (held_sums wl l Hh) as (Ep & Ed & Ex & Ez & Ee & Ey).
  rewrite Hs, Hw. change INITIAL_STRONG_REFERENCE_VALUE with (2 ^ 28).
  split; [done|]. split; [lia|]. intros ->. rewrite Ha in Hp.
  inversion Hp; bools; subst; split; try done; lia.
Qed.
End RefCount.

(** ** Concrete runs *)

Module RefCountExample.
Import RefCount.

(** Agent [i] starts a call, or takes its next step. *)
Inductive move := Start (i : nat) (b : agent) | Run (i : nat).

Definition startsb (a b : agent) : bool :=
  match a, b with
  | Held Raw, InIncStrong IncWeak Raw | Held Raw, InIncWeak Raw
  | Held Strong, InIncStrong IncWeak Strong | Held Strong, InIncWeak Strong
  | Held Strong, InDecStrong SubStrong | Held Weak, InIncWeak Weak
  | Held Weak, InTry TryWeak | Held Weak, InDecWeak SubWeak => true
  | _, _ => false
  end.

Definition play_move (m : move) (c : config) : option config :=
  let '(l, r) := c in
  match m with
  | Start i b =>
      a ← l !! i;
      let l' := take i l ++ b :: drop (S i) l in
      if startsb a b && (sum references l' <=? capacity) then Some (l', r) else None
  | Run i =>
      a ← l !! i;
      match exec false a r with
      | (Ok bs, r') => Some (take i l ++ bs ++ drop (S i) l, r')
      | _ => None
      end
  end.

Definition play (ms : list move) (c : config) : option config :=
  foldl (fun c m => c ≫= play_move m) (Some c) ms.

Lemma play_move_sound m c c' : play_move m c = Some c' -> step c c'.
Proof.
  destruct c as [l r], m as [i b|i]; cbn; intros (a & Hi & H)%bind_Some;
    pose proof (take_drop_middle l i a Hi) as E.
  - destruct (startsb a b) eqn:Hs; [|done]. cbn in H. case_match; [|done].
    injection H as <-. rewrite <- E at 1.
    apply step_start; [|lia]. destruct a as [[]| | | | | |], b as [|[] []|[]|[]|[]|[]|]; done || constructor.
  - destruct (exec false a r) as [[bs| | |] r'] eqn:He; [|done..].
    injection H as <-. rewrite <- E at 1. by eapply step_exec.
Qed.

Lemma play_sound ms c c' : play ms c = Some c' -> rtc step c c'.
Proof.
  unfold play. revert c. induction ms as [|m ms IH]; cbn; intros c H.
  - injection H as <-. apply rtc_refl.
  - destruct (play_move m c) as [c1|] eqn:E; cbn in H.
    + eapply rtc_l; [by eapply play_move_sound|]. by apply IH.
    + exfalso. revert H. clear. by induction ms.
Qed.

(** A first strong reference and a weak one. *)
Definition make_both : list move :=
  [Start 0 (InIncStrong IncWeak Raw); Run 0; Run 0; Run 0; Start 0 (InIncWeak Strong); Run 0].

(** The weak reference is promoted while the only strong one is dropped. *)
Definition race : list move :=
  make_both ++ [Start 0 (InTry TryWeak); Run 0; Run 0; Start 1 (InDecStrong SubStrong); Run 1].

(** The promotion fails; then the weak reference is dropped. *)
Definition race_end : list move :=
  race ++ [Run 0; Run 0; Run 0; Run 1; Run 1; Run 1; Run 1; Run 1; Run 1;
    Start 0 (InDecWeak SubWeak); Run 0; Run 0; Run 0; Run 0].

Definition raced : WeakReference := mkReference 0 3 0 true true.

Lemma refcount_safe_witness :
  exists bs r', exec false (InTry (TryExchange 1)) raced = (Ok bs, r') /\
    0 <= mStrongReferenceCounter r' < 2 ^ 30 /\ 0 <= mWeakReferenceCounter r' < 2 ^ 30.
Proof.
  apply (refcount_safe false [InTry (TryExchange 1); InDecStrong LastFlags]).
  - apply (play_sound race). vm_compute. reflexivity.
  - constructor.
Defined.

Lemma references_keep_witness :
  (Held Strong ∈ [Held Weak; Held Strong] -> mObject (mkReference 1 2 0 true true) = true /\
    allocated (mkReference 1 2 0 true true) = true) /\
  (Held Weak ∈ [Held Weak; Held Strong] -> allocated (mkReference 1 2 0 true true) = true /\
    (false = true -> mObject (mkReference 1 2 0 true true) = true)).
Proof.
  apply (references_keep false [Held Weak; Held Strong] (mkReference 1 2 0 true true)).
  apply (play_sound make_both). vm_compute. reflexivity.
Defined.

Lemma refcount_no_leak_witness :
  mObject (mkReference 0 0 0 false false) = false /\ allocated (mkReference 0 0 0 false false) = false.
Proof.
  apply (refcount_no_leak false). apply (play_sound race_end). vm_compute. reflexivity.
Defined.

Lemma counts_exact_witness :
  mWeakReferenceCounter (mkReference 1 2 0 true true) = 2 /\
  (mStrongReferenceCounter (mkReference 1 2 0 true true) = 1 \/
   mStrongReferenceCounter (mkReference 1 2 0 true true) = INITIAL_STRONG_REFERENCE_VALUE /\ 1 = 0) /\
  (false = false -> (mObject (mkReference 1 2 0 true true) = true <->
    0 < mStrongReferenceCounter (mkReference 1 2 0 true true))).
Proof.
  apply (counts_exact false [Held Weak; Held Strong] (mkReference 1 2 0 true true)); [|done..].
  apply (play_sound make_both). vm_compute. reflexivity.
Defined.

Lemma promote_alone_witness :
  ends ([Held Weak; Held Strong], mkReference 1 2 0 true true) [Held Strong; Held Weak; Held Strong].
Proof.
  apply (promote_alone false [] [Held Strong] (mkReference 1 2 0 true true)).
  - apply (play_sound make_both). vm_compute. reflexivity.
  - done.
Defined.
End RefCountExample.
