(* ===== verification/Strings.v ===== *)
(** * lang/String.h, lang/String.cpp

    [CString] is the part of the C library the strings are built on, [Str] the class [String].  A
    character is a byte, 0 to 255; [i8] gives the value of the [char], which is signed.  A
    [const char*] is the bytes from the pointer to the end of its array, [None] being [nullptr];
    a C string ends at the first zero byte, and a scan that leaves the array is undefined.

    A [StringBuffer] is never written after it has been made, so a [String] is a value: its
    bytes, without the zero byte that [c_str] adds, or [None] for the null buffer.  An
    [sp<String>] is an optional [String].

    Not modelled: [matches] (std::regex), [appendFormatted] and [format] (vsnprintf with a format
    of the caller), the values of floating point numbers. *)

From S2P Require Import Prelude.
Open Scope Z_scope.

(** ** The C library *)

Module CString.

Definition ptr : Type := option (list Z).

(** The characters of a literal. *)
Definition chars (s : string) : list Z :=
  map (fun a => Z.of_N (Ascii.N_of_ascii a)) (String.list_ascii_of_string s).

(** [*p], as an array. *)
Definition deref {A} (p : option A) : result A := match p with Some a => Ok a | None => Undef end.

(** [p + n]; one past the end is a pointer. *)
Definition advance (p : ptr) (n : Z) : result ptr :=
  match p with
  | None => if n =? 0 then Ok None else Undef
  | Some l => if n <=? Z.of_nat (length l) then Ok (Some (drop (Z.to_nat n) l)) else Undef
  end.

(** The string an array starts with. *)
Fixpoint cstring (l : list Z) : result (list Z) :=
  match l with
  | [] => Undef
  | c :: l => if c =? 0 then Ok [] else s ← cstring l; Ok (c :: s)
  end.

Definition strlen (p : ptr) : result Z :=
  l ← deref p; s ← cstring l; Ok (Z.of_nat (length s)).

Fixpoint find_char (c : Z) (l : list Z) : option Z :=
  match l with
  | [] => None
  | d :: l => if d =? c then Some 0 else Z.succ <$> find_char c l
  end.

Fixpoint find_last (c : Z) (l : list Z) : option Z :=
  match l with
  | [] => None
  | d :: l =>
      match find_last c l with
      | Some i => Some (Z.succ i)
      | None => if d =? c then Some 0 else None
      end
  end.

Fixpoint is_prefix (p l : list Z) : bool :=
  match p, l with
  | [], _ => true
  | c :: p, d :: l => (c =? d) && is_prefix p l
  | _ :: _, [] => false
  end.

Fixpoint find_sub (p l : list Z) : option Z :=
  if is_prefix p l then Some 0
  else match l with [] => None | _ :: l => Z.succ <$> find_sub p l end.

(** [strchr(p, c) - p]; [strchr] finds the zero byte at the end, too. *)
Definition strchr (p : ptr) (c : Z) : result (option Z) :=
  l ← deref p; s ← cstring l; Ok (find_char c (s ++ [0])).
Definition strrchr (p : ptr) (c : Z) : result (option Z) :=
  l ← deref p; s ← cstring l; Ok (find_last c (s ++ [0])).

(** [strstr(p, q) - p] *)
Definition strstr (p q : ptr) : result (option Z) :=
  l ← deref p; s ← cstring l; m ← deref q; t ← cstring m; Ok (find_sub t s).

(** [strcmp(p, q) == 0] *)
Definition strcmp0 (p q : ptr) : result bool :=
  l ← deref p; s ← cstring l; m ← deref q; t ← cstring m; Ok (bool_decide (s = t)).

(** [strncmp(p, q, n) == 0] *)
Fixpoint compare_n (l m : list Z) (n : nat) : result bool :=
  match n, l, m with
  | O, _, _ => Ok true
  | S n, c :: l, d :: m =>
      if c =? d then (if c =? 0 then Ok true else compare_n l m n) else Ok false
  | _, _, _ => Undef
  end.

(** At most one more than the length of the first array is ever looked at. *)
Definition strncmp0 (p q : ptr) (n : Z) : result bool :=
  l ← deref p; m ← deref q; compare_n l m (Z.to_nat (Z.min n (Z.of_nat (S (length l))))).

(** [memcpy] of [n] bytes from [p]. *)
Definition bytes (p : ptr) (n : Z) : result (list Z) :=
  l ← deref p;
  if n <=? Z.of_nat (length l) then Ok (take (Z.to_nat n) l) else Undef.

(** <cctype>, in the "C" locale.  The argument is the [char]; the functions take the values of
    [unsigned char] and EOF, which is -1. *)
Definition ctype {A} (f : Z -> A) (c : Z) : result A := if i8 c <? -1 then Undef else Ok (f c).

Definition is_space (c : Z) : bool := (c =? 32) || ((9 <=? c) && (c <=? 13)).
Definition to_lower (c : Z) : Z := if (65 <=? c) && (c <=? 90) then c + 32 else c.
Definition to_upper (c : Z) : Z := if (97 <=? c) && (c <=? 122) then c - 32 else c.

Definition isspace := ctype is_space.
Definition tolower := ctype to_lower.
Definition toupper := ctype to_upper.

(** [snprintf] with "%d" or "%u"; 20 digits are enough for 64 bits. *)
Fixpoint digits (fuel : nat) (n : Z) (acc : list Z) : list Z :=
  match fuel with
  | O => acc
  | S fuel =>
      let acc := 48 + n mod 10 :: acc in
      if n <? 10 then acc else digits fuel (n / 10) acc
  end.
Definition decimal (n : Z) : list Z :=
  if n <? 0 then 45 :: digits 20 (- n) [] else digits 20 n [].
End CString.

(** ** The class *)

Module Str.
Import CString.

(** mStringBuffer *)
(* lang/String.h:257-282 String::StringBuffer *)
Definition String : Type := option (list Z).

Definition sp : Type := option String.

Definition NULL_STRING : String := None.
(* lang/String.cpp:38-38 String::EMPTY_STRING *)
Definition EMPTY_STRING : String := Some [].

(* lang/String.h:61-63 String::length *)
Definition length (s : String) : Z := Z.of_nat (List.length (default [] s)).

(* lang/String.h:65-67 String::isEmpty *)
Definition isEmpty (s : String) : bool := length s =? 0.

(* lang/String.h:69-71 String::c_str *)
Definition c_str (s : String) : ptr := (fun l => l ++ [0]) <$> s.

(** *** Construction *)

(* lang/String.cpp:532-541 StringBuffer::StringBuffer *)
Definition StringBuffer (string : ptr) (size : Z) : result String :=
  match string with
  | Some _ => l ← bytes string size; Ok (Some l)
  | None => Ok None
  end.

(* lang/String.cpp:543-555 StringBuffer::StringBuffer *)
Definition StringBuffer_2 (string1 : ptr) (size1 : Z) (string2 : ptr) (size2 : Z) : result String :=
  match string1, string2 with
  | Some _, Some _ => l1 ← bytes string1 size1; l2 ← bytes string2 size2; Ok (Some (l1 ++ l2))
  | _, _ => Ok None
  end.

(* lang/String.cpp:44-55 String::String *)
Definition of_chars (string : ptr) : result String :=
  match string with
  | Some _ =>
      size ← strlen string;
      if 0 <? size then StringBuffer string size else Ok EMPTY_STRING
  | None => Ok NULL_STRING
  end.

(* lang/String.cpp:57-67 String::String *)
Definition of_chars_size (string : ptr) (size : Z) : result String :=
  match string with
  | Some _ => if 0 <? size then StringBuffer string size else Ok EMPTY_STRING
  | None => Ok NULL_STRING
  end.

(* lang/String.cpp:69-71 String::String *)
Definition of_char (c : Z) : String := Some [c].

(* lang/String.cpp:73-79 String::String *)
Definition of_string (string : sp) : result String :=
  match string with
  | Some s => StringBuffer (c_str s) (length s)
  | None => Ok NULL_STRING
  end.

(** [byteArray->c_arr()] and its size; the pointer is null for an array without bytes. *)
(* lang/String.cpp:81-87 String::String *)
Definition of_bytes (byteArray : option ptr) : result String :=
  match byteArray with
  | Some p => StringBuffer p (Z.of_nat (List.length (default [] p)))
  | None => Ok NULL_STRING
  end.

(* lang/String.h:149-151 String::valueOf *)
Definition valueOf_chars (string : ptr) : result sp :=
  match string with Some _ => s ← of_chars string; Ok (Some s) | None => Ok None end.

(* lang/String.h:153-159 String::valueOf *)
Definition valueOf_chars_size (string : ptr) (size : Z) : result sp :=
  match string with
  | Some _ =>
      if 0 <? size then s ← of_chars_size string size; Ok (Some s) else Ok (Some EMPTY_STRING)
  | None => Ok None
  end.

(* lang/String.h:161-163 String::valueOf *)
Definition valueOf_bool (b : bool) : String :=
  Some (if b then [116; 114; 117; 101] else [102; 97; 108; 115; 101]).

(* lang/String.h:165-167 String::valueOf *)
Definition valueOf_char (c : Z) : String := of_char c.

(* lang/String.cpp:390-395 String::valueOf *)
Definition valueOf_int8 (value : Z) : String := Some (decimal value).
(* lang/String.cpp:397-402 String::valueOf *)
Definition valueOf_uint8 (value : Z) : String := Some (decimal value).
(* lang/String.cpp:404-409 String::valueOf *)
Definition valueOf_int16 (value : Z) : String := Some (decimal value).
(* lang/String.cpp:411-416 String::valueOf *)
Definition valueOf_uint16 (value : Z) : String := Some (decimal value).
(* lang/String.cpp:418-423 String::valueOf *)
Definition valueOf_int32 (value : Z) : String := Some (decimal value).
(* lang/String.cpp:425-430 String::valueOf *)
Definition valueOf_uint32 (value : Z) : String := Some (decimal value).

(** *** Comparison *)

Definition is_null (s : String) : bool := match s with None => true | _ => false end.

(* lang/String.cpp:107-117 String::equals *)
Definition equals_chars (s : String) (string : ptr) : result bool :=
  match s, string with
  | Some _, Some _ => strcmp0 (c_str s) string
  | _, _ => Ok (is_null s && match string with None => true | _ => false end)
  end.

(* lang/String.cpp:119-129 String::equals *)
Definition equals (s : String) (string : sp) : result bool :=
  t ← deref string;
  match s, t with
  | Some _, Some _ => strcmp0 (c_str s) (c_str t)
  | _, _ => Ok (is_null s && is_null t)
  end.

(** [same] tells whether [other] is this very object; [other] is [None] where it is no string. *)
(* lang/String.cpp:86-97 String::equals *)
Definition equals_object (s : String) (same : bool) (other : option String) : result bool :=
  if same then Ok true
  else match other with Some t => equals s (Some t) | None => Ok false end.

(** The [char] is sign-extended to [size_t]. *)
Definition hash_step (hash c : Z) : Z := u64 (31 * hash + i8 c).

(* lang/String.cpp:99-105 String::hashCode *)
Definition hashCode (s : String) : Z := foldl hash_step 0 (default [] s).

(* lang/String.cpp:232-238 String::toLowerCase *)
Definition toLowerCase (s : String) : result String :=
  l ← mapM tolower (default [] s); Ok (Some l).

(* lang/String.cpp:240-246 String::toUpperCase *)
Definition toUpperCase (s : String) : result String :=
  l ← mapM toupper (default [] s); Ok (Some l).

(* lang/String.cpp:131-134 String::equalsIgnoreCase *)
Definition equalsIgnoreCase_chars (s : String) (string : ptr) : result bool :=
  tmp ← valueOf_chars string;
  l ← toLowerCase s; t ← deref tmp; m ← toLowerCase t; equals l (Some m).

(* lang/String.cpp:136-141 String::equalsIgnoreCase *)
Definition equalsIgnoreCase (s : String) (string : sp) : result bool :=
  match string with
  | None => Ok false
  | Some t => l ← toLowerCase s; m ← toLowerCase t; equals l (Some m)
  end.

(* lang/String.cpp:147-152 String::charAt *)
Definition charAt (s : String) (index : Z) : result Z :=
  match default [] s !! Z.to_nat index with
  | Some c => Ok c
  | None => Throw IndexOutOfBoundsException
  end.

(* lang/String.cpp:143-145 String::operator[] *)
Definition at_ (s : String) (index : Z) : result Z := charAt s index.

(* lang/String.cpp:170-176 String::contains *)
Definition contains_chars (s : String) (subString : ptr) : result bool :=
  match c_str s, subString with
  | Some _, Some _ =>
      r ← strstr (c_str s) subString; Ok (match r with Some _ => true | None => false end)
  | _, _ => Ok false
  end.

(* lang/String.cpp:178-180 String::contains *)
Definition contains (s : String) (subString : sp) : result bool :=
  t ← deref subString; contains_chars s (c_str t).

(* lang/String.cpp:182-189 String::startsWith *)
Definition startsWith_chars (s : String) (prefix : ptr) : result bool :=
  prefixSize ← strlen prefix;
  if prefixSize <=? length s then strncmp0 (c_str s) prefix prefixSize else Ok false.

(* lang/String.cpp:191-198 String::startsWith *)
Definition startsWith (s : String) (prefix : sp) : result bool :=
  t ← deref prefix;
  if length t <=? length s then strncmp0 (c_str s) (c_str t) (length t) else Ok false.

(* lang/String.cpp:200-207 String::endsWith *)
Definition endsWith_chars (s : String) (suffix : ptr) : result bool :=
  suffixSize ← strlen suffix;
  if suffixSize <=? length s
  then p ← advance (c_str s) (length s - suffixSize); strncmp0 p suffix suffixSize
  else Ok false.

(* lang/String.cpp:209-216 String::endsWith *)
Definition endsWith (s : String) (suffix : sp) : result bool :=
  t ← deref suffix;
  if length t <=? length s
  then p ← advance (c_str s) (length s - length t); strncmp0 p (c_str t) (length t)
  else Ok false.

(** *** Parts *)

(* lang/String.cpp:218-223 String::substring *)
Definition substring_from (s : String) (beginIndex : Z) : result sp :=
  if length s <? beginIndex then Throw IndexOutOfBoundsException
  else p ← advance (c_str s) beginIndex; valueOf_chars_size p (length s - beginIndex).

(* lang/String.cpp:225-230 String::substring *)
Definition substring (s : String) (beginIndex endIndex : Z) : result sp :=
  if (length s <? beginIndex) || (endIndex <? beginIndex) || (length s <? endIndex)
  then Throw IndexOutOfBoundsException
  else p ← advance (c_str s) beginIndex; valueOf_chars_size p (endIndex - beginIndex).

(** The pointer found as an index, -1 if there is none. *)
Definition index (base : Z) (r : option Z) : Z := match r with Some i => base + i | None => -1 end.

(* lang/String.cpp:248-255 String::indexOf *)
Definition indexOf_char (s : String) (c : Z) : result Z :=
  r ← strchr (c_str s) c; Ok (index 0 r).

(* lang/String.cpp:257-267 String::indexOf *)
Definition indexOf_chars (s : String) (string : ptr) : result Z :=
  match string with
  | None => Throw NullPointerException
  | Some _ => r ← strstr (c_str s) string; Ok (index 0 r)
  end.

(* lang/String.cpp:269-271 String::indexOf *)
Definition indexOf (s : String) (string : sp) : result Z :=
  t ← deref string; indexOf_chars s (c_str t).

(* lang/String.cpp:273-284 String::indexOf *)
Definition indexOf_char_from (s : String) (c fromIndex : Z) : result Z :=
  if fromIndex <? length s
  then p ← advance (c_str s) fromIndex; r ← strchr p c; Ok (index fromIndex r)
  else Ok (-1).

(* lang/String.cpp:286-300 String::indexOf *)
Definition indexOf_chars_from (s : String) (string : ptr) (fromIndex : Z) : result Z :=
  match string with
  | None => Throw NullPointerException
  | Some _ =>
      if fromIndex <? length s
      then p ← advance (c_str s) fromIndex; r ← strstr p string; Ok (index fromIndex r)
      else Ok (-1)
  end.

(** The offset goes to the string that is searched for. *)
(* lang/String.cpp:302-304 String::indexOf *)
Definition indexOf_from (s : String) (string : sp) (fromIndex : Z) : result Z :=
  t ← deref string; p ← advance (c_str t) fromIndex; indexOf_chars s p.

(* lang/String.cpp:306-313 String::lastIndexOf *)
Definition lastIndexOf_char (s : String) (c : Z) : result Z :=
  r ← strrchr (c_str s) c; Ok (index 0 r).

(* lang/String.cpp:315-317 String::lastIndexOf *)
Definition lastIndexOf_chars (s : String) (string : ptr) : result Z := Ok (-1).

(* lang/String.cpp:319-321 String::lastIndexOf *)
Definition lastIndexOf (s : String) (string : sp) : result Z := Ok (-1).

(* lang/String.cpp:323-334 String::lastIndexOf *)
Definition lastIndexOf_char_from (s : String) (c fromIndex : Z) : result Z :=
  if fromIndex <? length s
  then p ← advance (c_str s) fromIndex; r ← strrchr p c; Ok (index fromIndex r)
  else Ok (-1).

(* lang/String.cpp:336-338 String::lastIndexOf *)
Definition lastIndexOf_chars_from (s : String) (string : ptr) (fromIndex : Z) : result Z := Ok (-1).

(* lang/String.cpp:340-342 String::lastIndexOf *)
Definition lastIndexOf_from (s : String) (string : sp) (fromIndex : Z) : result Z := Ok (-1).

(** The number of white space characters the loops of [trim] pass. *)
Fixpoint spaces (l : list Z) : result Z :=
  match l with
  | [] => Ok 0
  | c :: l => b ← isspace c; if (b : bool) then n ← spaces l; Ok (Z.succ n) else Ok 0
  end.

(* lang/String.cpp:344-367 String::trim *)
Definition trim (s : String) : result String :=
  beginIndex ← spaces (default [] s);
  n ← spaces (rev (default [] s));
  let endIndex := length s - 1 - n in
  if (beginIndex =? 0) && (endIndex =? length s - 1) then Ok s
  else if negb (beginIndex =? length s)
  then p ← advance (c_str s) beginIndex; StringBuffer p (endIndex - beginIndex + 1)
  else Ok EMPTY_STRING.

(* lang/String.cpp:372-382 String::split *)
Fixpoint split_loop (fuel : nat) (s : String) (separator : ptr) (curIndex : Z) (strings : list sp) :
    result (list sp) :=
  match fuel with
  | O => Diverge
  | S fuel =>
      if (0 <=? curIndex) && (u64 curIndex <? length s) then
        let prevCurIndex := curIndex in
        curIndex ← indexOf_chars_from s separator (u64 curIndex);
        if 0 <=? curIndex then
          x ← substring s (u64 prevCurIndex) (u64 curIndex);
          n ← strlen separator;
          split_loop fuel s separator (i64 (curIndex + n)) (strings ++ [x])
        else
          x ← substring s (u64 prevCurIndex) (length s);
          split_loop fuel s separator curIndex (strings ++ [x])
      else Ok strings
  end.

(** An iteration moves [curIndex] on by a character or ends the loop: see [split_terminates]. *)
(* lang/String.cpp:369-384 String::split *)
Definition split_chars (s : String) (separator : ptr) : result (list sp) :=
  split_loop (Z.to_nat (length s) + 2) s separator 0 [].

(* lang/String.cpp:386-388 String::split *)
Definition split (s : String) (separator : sp) : result (list sp) :=
  t ← deref separator; split_chars s (c_str t).

(* lang/String.cpp:446-465 String::regionMatches *)
Definition regionMatches (s : String) (toffset : Z) (string : sp) (ooffset len : Z) : result bool :=
  match string with
  | None => Throw NullPointerException
  | Some t =>
      if u64 (length t - ooffset) <? len then Ok false
      else if u64 (length s - toffset) <? len then Ok false
      else if len <=? 0 then Ok true
      else match s with
      | Some _ =>
          p ← advance (c_str s) toffset; q ← advance (c_str t) ooffset; strncmp0 p q len
      | None => Ok false
      end
  end.

(* lang/String.cpp:467-469 String::regionMatches *)
Definition regionMatches_chars (s : String) (toffset : Z) (string : ptr) (ooffset len : Z) :
    result bool :=
  t ← valueOf_chars string; regionMatches s toffset t ooffset len.

(* lang/String.cpp:471-477 String::replace *)
Definition replace (s : String) (oldChar newChar : Z) : result String :=
  t ← StringBuffer (c_str s) (length s);
  Ok (option_map (map (fun c => if c =? oldChar then newChar else c)) t).

(* lang/String.cpp:479-484 String::append *)
Definition append_size (s : String) (string : ptr) (size : Z) : result String :=
  match string with
  | Some _ => if 0 <? size then StringBuffer_2 (c_str s) (length s) string size else Ok s
  | None => Ok s
  end.

(* lang/String.cpp:486-491 String::append *)
Definition append_region (s : String) (string : ptr) (offset size : Z) : result String :=
  match string with
  | Some _ =>
      if 0 <? size
      then p ← advance string offset; StringBuffer_2 (c_str s) (length s) p size
      else Ok s
  | None => Ok s
  end.

(* lang/String.cpp:493-498 String::append *)
Definition append_string_region (s : String) (string : sp) (offset size : Z) : result String :=
  t ← deref string;
  if length t <? u64 (offset + size) then Throw IndexOutOfBoundsException
  else append_region s (c_str t) offset size.

(* lang/String.h:220-222 String::append *)
Definition append_char (s : String) (c : Z) : result String := append_size s (Some [c]) 1.

(* lang/String.h:230-232 String::append *)
Definition append_chars (s : String) (string : ptr) : result String :=
  n ← strlen string; append_size s string n.

(* lang/String.h:234-236 String::append *)
Definition append (s : String) (string : sp) : result String :=
  t ← deref string; n ← strlen (c_str t); append_size s (c_str t) n.

(* lang/String.h:243-245 String::getBytes *)
Definition getBytes (s : String) : list Z := default [] s.

(** ** What the library functions do on strings without zero bytes *)

Definition clean (l : list Z) : Prop := 0 ∉ l.

#[export] Instance clean_dec l : Decision (clean l).
Proof. unfold clean. apply _. Defined.

Lemma clean_app l m : clean (l ++ m) <-> clean l /\ clean m.
Proof. unfold clean. rewrite elem_of_app. tauto. Qed.

Lemma clean_cons c l : clean (c :: l) <-> c <> 0 /\ clean l.
Proof. unfold clean. rewrite elem_of_cons. naive_solver. Qed.

Lemma clean_nil : clean [].
Proof. apply not_elem_of_nil. Qed.

Lemma clean_take n l : clean l -> clean (take n l).
Proof. rewrite <- (take_drop n l) at 1. by intros [? ?]%clean_app. Qed.

Lemma clean_drop n l : clean l -> clean (drop n l).
Proof. rewrite <- (take_drop n l) at 1. by intros [? ?]%clean_app. Qed.

Lemma cstring_clean l m : clean l -> cstring (l ++ 0 :: m) = Ok l.
Proof.
  induction l as [|c l IH]; [done|]. intros [Hc Hl]%clean_cons. cbn.
  by rewrite (proj2 (Z.eqb_neq c 0)), IH.
Qed.

#[global] Arguments advance : simpl never.
#[global] Arguments strlen : simpl never.
#[global] Arguments strchr : simpl never.
#[global] Arguments strrchr : simpl never.
#[global] Arguments strstr : simpl never.
#[global] Arguments strcmp0 : simpl never.
#[global] Arguments strncmp0 : simpl never.
#[global] Arguments bytes : simpl never.

Section clean.
Context (l t : list Z) (Hl : clean l) (Ht : clean t).

Lemma strlen_clean : strlen (Some (l ++ [0])) = Ok (Z.of_nat (List.length l)).
Proof. unfold strlen. cbn. by rewrite cstring_clean. Qed.

Lemma strchr_clean c : strchr (Some (l ++ [0])) c = Ok (find_char c (l ++ [0])).
Proof. unfold strchr. cbn. by rewrite cstring_clean. Qed.

Lemma strrchr_clean c : strrchr (Some (l ++ [0])) c = Ok (find_last c (l ++ [0])).
Proof. unfold strrchr. cbn. by rewrite cstring_clean. Qed.

Lemma strstr_clean : strstr (Some (l ++ [0])) (Some (t ++ [0])) = Ok (find_sub t l).
Proof. unfold strstr. cbn. by rewrite !cstring_clean. Qed.

Lemma strcmp0_clean : strcmp0 (Some (l ++ [0])) (Some (t ++ [0])) = Ok (bool_decide (l = t)).
Proof. unfold strcmp0. cbn. by rewrite !cstring_clean. Qed.
End clean.

Lemma advance_c_str l n :
  0 <= n <= Z.of_nat (List.length l) ->
  advance (Some (l ++ [0])) n = Ok (Some (drop (Z.to_nat n) l ++ [0])).
Proof.
  intros H. unfold advance. rewrite length_app. cbn.
  rewrite (proj2 (Z.leb_le _ _)) by lia. by rewrite drop_app_le by lia.
Qed.

Lemma bytes_c_str l n :
  0 <= n <= Z.of_nat (List.length l) -> bytes (Some (l ++ [0])) n = Ok (take (Z.to_nat n) l).
Proof.
  intros H. unfold bytes. cbn. rewrite length_app. cbn.
  rewrite (proj2 (Z.leb_le _ _)) by lia. by rewrite take_app_le by lia.
Qed.

Lemma is_prefix_spec t l : is_prefix t l = true <-> t `prefix_of` l.
Proof.
  revert l. induction t as [|c t IH]; intros l; [split; [intros; apply prefix_nil|done]|].
  destruct l as [|d l]; cbn; [split; [done|intros [k [=]]]|].
  rewrite andb_true_iff, Z.eqb_eq, IH. split.
  - intros [-> [k ->]]. by exists k.
  - intros [k [= -> ->]]. split; [done|]. by exists k.
Qed.

(** [t] occurs in [l] at [k]. *)
Definition occurs (t l : list Z) (k : Z) : Prop :=
  exists pre post, l = pre ++ t ++ post /\ Z.of_nat (List.length pre) = k.

Lemma occurs_0 t l : occurs t l 0 <-> is_prefix t l = true.
Proof.
  rewrite is_prefix_spec. split.
  - intros ([|] & post & -> & H); [by exists post|done].
  - intros [post ->]. by exists [], post.
Qed.

Lemma occurs_S t c l k : 0 <= k -> occurs t (c :: l) (Z.succ k) <-> occurs t l k.
Proof.
  intros Hk. split.
  - intros ([|d pre] & post & H & E); cbn in *; [lia|]. injection H as -> ->.
    exists pre, post. split; [done|lia].
  - intros (pre & post & -> & <-). exists (c :: pre), post. cbn. split; [done|lia].
Qed.

(** [i] is the first index from [from] where [t] occurs in [l], -1 if there is none. *)
Definition is_first (t l : list Z) (from i : Z) : Prop :=
  (i = -1 /\ forall k, from <= k -> ~ occurs t l k) \/
  (from <= i /\ occurs t l i /\ forall k, from <= k < i -> ~ occurs t l k).

Lemma find_sub_nonneg t l i : find_sub t l = Some i -> 0 <= i.
Proof.
  revert i. induction l as [|c l IH]; intros i; cbn; destruct (is_prefix _ _); intros H;
    try (injection H as <-); try done.
  apply fmap_Some in H as (j & Hj%IH & ->). lia.
Qed.

Lemma find_sub_first t l : is_first t l 0 (index 0 (find_sub t l)).
Proof.
  induction l as [|c l IH]; cbn.
  - destruct (is_prefix t []) eqn:E; cbn.
    + right. split; [lia|]. split; [by apply occurs_0|lia].
    + left. split; [done|]. intros k Hk (pre & post & H & <-).
      destruct pre; [|done]. assert (occurs t [] 0) as G by by exists [], post.
      apply occurs_0 in G. congruence.
  - destruct (is_prefix t (c :: l)) eqn:E; cbn.
    + right. split; [lia|]. split; [by apply occurs_0|lia].
    + assert (forall k, 0 <= k -> occurs t (c :: l) k -> exists j, k = Z.succ j /\ 0 <= j /\ occurs t l j) as G.
      { intros k Hk H. destruct (Z.eq_dec k 0) as [->|]; [apply occurs_0 in H; congruence|].
        exists (Z.pred k). split; [lia|]. split; [lia|]. eapply occurs_S; [lia|]. by rewrite Z.succ_pred. }
      destruct (find_sub t l) as [i|] eqn:Ei; cbn in *.
      * apply find_sub_nonneg in Ei. destruct IH as [[Hi H]|(Hi & H & Hn)]; [lia|].
        right. split; [lia|]. split; [apply occurs_S; [lia|done]|].
        intros k Hk (j & -> & Hj & Ho)%G; [|lia]. eapply Hn; [|done]. lia.
      * destruct IH as [[Hi H]|(Hi & H & Hn)]; [|lia].
        left. split; [done|]. intros k Hk (j & -> & Hj & Ho)%G; [|done]. by eapply H.
Qed.

Lemma occurs_drop t l n k :
  0 <= n <= Z.of_nat (List.length l) -> n <= k ->
  occurs t l k <-> occurs t (drop (Z.to_nat n) l) (k - n).
Proof.
  intros Hn Hk. split.
  - intros (pre & post & -> & <-). exists (drop (Z.to_nat n) pre), post.
    rewrite drop_app_le by lia. split; [done|]. rewrite length_drop. lia.
  - intros (pre & post & H & E). exists (take (Z.to_nat n) l ++ pre), post. split.
    + by rewrite <- app_assoc, <- H, take_drop.
    + rewrite length_app, length_take. lia.
Qed.

Lemma find_sub_from t l n :
  0 <= n <= Z.of_nat (List.length l) ->
  is_first t l n (index n (find_sub t (drop (Z.to_nat n) l))).
Proof.
  intros Hn. pose proof (find_sub_first t (drop (Z.to_nat n) l)) as H.
  destruct (find_sub t (drop (Z.to_nat n) l)) as [i|] eqn:E; cbn in *.
  - apply find_sub_nonneg in E. destruct H as [[Hi H]|(Hi & H & Hf)]; [lia|].
    right. split; [lia|]. split.
    + apply (occurs_drop t l n); [done|lia|]. by replace (n + i - n) with i by lia.
    + intros k Hk Ho%(occurs_drop t l n); [|done|lia]. eapply Hf; [|done]. lia.
  - left. split; [done|]. destruct H as [[Hi H]|(Hi & H & Hf)]; [|lia].
    intros k Hk Ho%(occurs_drop t l n); [|done|lia]. eapply H; [|done]. lia.
Qed.

(** On strings without zero bytes [indexOf] with a start index gives the first
    index from there on where the argument occurs, and -1 if there is none or the start is not
    inside the string; without a start index it begins at 0. *)
Theorem indexOf_first l t from :
  clean l -> clean t -> 0 <= from ->
  (exists i, indexOf_chars_from (Some l) (c_str (Some t)) from = Ok i /\
    if from <? Z.of_nat (List.length l) then is_first t l from i else i = -1) /\
  (exists i, indexOf (Some l) (Some (Some t)) = Ok i /\ is_first t l 0 i).
Proof.
  intros Hl Ht Hf. split.
  - unfold indexOf_chars_from, length. cbn.
    destruct (from <? Z.of_nat (List.length l)) eqn:E; [|by eexists].
    rewrite advance_c_str by lia. cbn. rewrite strstr_clean by auto using clean_drop.
    eexists. split; [done|]. apply find_sub_from. lia.
  - unfold indexOf, indexOf_chars. cbn. rewrite strstr_clean by done.
    eexists. split; [done|]. apply find_sub_first.
Qed.

(** ** Parts of a string *)

Definition slice (l : list Z) (b e : Z) : list Z := take (Z.to_nat (e - b)) (drop (Z.to_nat b) l).

Lemma valueOf_region l b n :
  0 <= b -> 0 <= n -> b + n <= Z.of_nat (List.length l) ->
  (p ← advance (Some (l ++ [0])) b; valueOf_chars_size p n) = Ok (Some (Some (slice l b (b + n)))).
Proof.
  intros Hb Hn H. rewrite advance_c_str by lia. cbn. unfold slice. replace (b + n - b) with n by lia.
  destruct (Z.ltb_spec 0 n).
  - rewrite bytes_c_str; [done|]. rewrite length_drop. lia.
  - by replace n with 0 by lia.
Qed.

Lemma substring_ok l b e :
  0 <= b <= e -> e <= Z.of_nat (List.length l) -> substring (Some l) b e = Ok (Some (Some (slice l b e))).
Proof.
  intros Hb He. unfold substring, length. cbn.
  rewrite !(proj2 (Z.ltb_ge _ _)) by lia. cbn. rewrite valueOf_region by lia.
  by replace (b + (e - b)) with e by lia.
Qed.

Lemma substring_from_ok l b :
  0 <= b <= Z.of_nat (List.length l) ->
  substring_from (Some l) b = Ok (Some (Some (drop (Z.to_nat b) l))).
Proof.
  intros Hb. unfold substring_from, length. cbn.
  rewrite !(proj2 (Z.ltb_ge _ _)) by lia. cbn. rewrite valueOf_region by lia.
  unfold slice. rewrite take_ge; [done|]. rewrite length_drop. lia.
Qed.

(** What [split] means: the string up to the first separator, then the parts of the rest; no part
    follows a separator at the end. *)
Inductive splits (sep : list Z) : list Z -> list (list Z) -> Prop :=
  | splits_end : splits sep [] []
  | splits_last l : l <> [] -> (forall k, ~ occurs sep l k) -> splits sep l [l]
  | splits_cons a l parts :
      (forall k, k < Z.of_nat (List.length a) -> ~ occurs sep (a ++ sep ++ l) k) ->
      splits sep l parts -> splits sep (a ++ sep ++ l) (a :: parts).

Lemma occurs_nonneg t l k : occurs t l k -> 0 <= k.
Proof. intros (? & ? & _ & <-). lia. Qed.

Lemma split_step l sep from :
  clean l -> clean sep -> 0 <= from < Z.of_nat (List.length l) ->
  let r := drop (Z.to_nat from) l in
  (indexOf_chars_from (Some l) (Some (sep ++ [0])) from = Ok (-1) /\ forall k, ~ occurs sep r k) \/
  exists a b, r = a ++ sep ++ b /\
    indexOf_chars_from (Some l) (Some (sep ++ [0])) from = Ok (from + Z.of_nat (List.length a)) /\
    forall k, k < Z.of_nat (List.length a) -> ~ occurs sep r k.
Proof.
  intros Hl Ht Hf r. unfold indexOf_chars_from, length. cbn.
  rewrite (proj2 (Z.ltb_lt _ _)) by lia. rewrite advance_c_str by lia. cbn.
  rewrite strstr_clean by auto using clean_drop. cbn.
  pose proof (find_sub_first sep r) as H. fold r.
  destruct (find_sub sep r) as [i|] eqn:E; cbn in *.
  - right. apply find_sub_nonneg in E. destruct H as [[Hi H]|(Hi & (a & b & Hr & Ha) & Hn)]; [lia|].
    exists a, b. split; [done|]. split; [f_equal; lia|]. intros k Hk Ho. eapply Hn; [|done].
    split; [by eapply occurs_nonneg|lia].
  - left. split; [done|]. destruct H as [[_ H]|[]]; [|lia].
    intros k Ho. eapply H; [|done]. by eapply occurs_nonneg.
Qed.

Lemma split_loop_ok l sep :
  clean l -> clean sep -> sep <> [] -> Z.of_nat (List.length l) < 2 ^ 63 ->
  forall fuel from acc, 0 <= from <= Z.of_nat (List.length l) ->
  (List.length l < fuel + Z.to_nat from)%nat ->
  exists parts, split_loop fuel (Some l) (Some (sep ++ [0])) from acc =
    Ok (acc ++ (Some <$> (Some <$> parts))) /\ splits sep (drop (Z.to_nat from) l) parts.
Proof.
  intros Hl Ht Hs H63. induction fuel as [|fuel IH]; intros from acc Hf Hfuel; [lia|].
  cbn [split_loop]. unfold length. cbn [default]. rewrite u64_id by lia.
  rewrite (proj2 (Z.leb_le _ _)) by lia. cbn -[indexOf_chars_from substring].
  destruct (Z.ltb_spec from (Z.of_nat (List.length l))).
  2: { exists []. rewrite drop_ge by lia. rewrite app_nil_r. split; [done|constructor]. }
  destruct (split_step l sep from Hl Ht (conj (proj1 Hf) H)) as [[-> Hn]|(a & b & Hr & -> & Hn)];
    cbn -[substring].
  - rewrite substring_ok by lia. cbn. exists [drop (Z.to_nat from) l].
    assert (slice l from (Z.of_nat (List.length l)) = drop (Z.to_nat from) l) as ->.
    { unfold slice. rewrite take_ge; [done|]. rewrite length_drop. lia. }
    split; [by destruct fuel; [lia|]|]. constructor; [|done].
    intros E%(f_equal List.length). rewrite length_drop in E. cbn in E. lia.
  - assert (List.length (drop (Z.to_nat from) l) = List.length (a ++ sep ++ b)) as Hlen by by rewrite Hr.
    rewrite length_drop, !length_app in Hlen.
    assert (0 < List.length sep)%nat by (destruct sep; [done|cbn; lia]).
    rewrite (proj2 (Z.leb_le _ _)) by lia. cbn -[substring].
    rewrite u64_id by lia. rewrite substring_ok by lia. cbn. rewrite strlen_clean by done. cbn.
    rewrite i64_id by lia.
    destruct (IH (from + Z.of_nat (List.length a) + Z.of_nat (List.length sep))
      (acc ++ @cons sp (Some (Some (slice l from (from + Z.of_nat (List.length a))))) []))
      as (parts & -> & Hp); [lia..|].
    exists (a :: parts). split.
    + rewrite <- app_assoc. cbn. unfold slice. do 4 f_equal. rewrite Hr.
      replace (Z.to_nat _) with (List.length a) by lia. by rewrite take_app_length.
    + rewrite Hr. constructor; [by rewrite <- Hr|].
      replace b with (drop (Z.to_nat (from + Z.of_nat (List.length a) + Z.of_nat (List.length sep))) l); [done|].
      rewrite !Z2Nat.inj_add, !Nat2Z.id by lia. rewrite <- !drop_drop, Hr, drop_app_length.
      by rewrite drop_app_length.
Qed.

(** The parts with the separator between them. *)
Fixpoint join (sep : list Z) (parts : list (list Z)) : list Z :=
  match parts with
  | [] => []
  | [a] => a
  | a :: parts => a ++ sep ++ join sep parts
  end.

Lemma splits_join sep l parts :
  splits sep l parts -> exists tail, (tail = [] \/ tail = sep) /\ l = join sep parts ++ tail.
Proof.
  induction 1 as [|l|a l parts Hn H (tail & Ht & ->)].
  - exists []. auto.
  - exists []. rewrite app_nil_r. auto.
  - destruct parts as [|b parts].
    + inversion H as [E| |]. exists sep. split; [by right|]. cbn in *. subst. by rewrite app_nil_r.
    + exists tail. split; [done|]. cbn. by rewrite <- !app_assoc.
Qed.

Lemma splits_free sep l parts :
  sep <> [] -> splits sep l parts -> forall a k, a ∈ parts -> ~ occurs sep a k.
Proof.
  intros Hs. induction 1 as [|l Hl Hn|a l parts Hn H IH]; intros c k; [by intros ?%elem_of_nil|..].
  - intros ->%list_elem_of_singleton. apply Hn.
  - intros [->|Hc]%elem_of_cons; [|by eapply IH].
    intros (pre & post & -> & E). apply (Hn k).
    + rewrite !length_app. destruct sep; [done|cbn; lia].
    + exists pre, (post ++ sep ++ l). by rewrite <- !app_assoc.
Qed.

(** [split] ends for every separator that is not empty, and gives the parts
    between the first, the next and the later occurrences of the separator: no part has an
    occurrence in it, and the parts joined by the separator are the string, less a separator at
    its end. *)
Theorem split_parts l sep :
  clean l -> clean sep -> sep <> [] -> Z.of_nat (List.length l) < 2 ^ 63 ->
  exists parts, split (Some l) (Some (Some sep)) = Ok (Some <$> (Some <$> parts)) /\
    splits sep l parts /\ (forall a k, a ∈ parts -> ~ occurs sep a k) /\
    exists tail, (tail = [] \/ tail = sep) /\ l = join sep parts ++ tail.
Proof.
  intros Hl Ht Hs H63. unfold split, split_chars. cbn -[split_loop].
  destruct (split_loop_ok l sep Hl Ht Hs H63 (Z.to_nat (length (Some l)) + 2) 0 []) as (parts & -> & Hp);
    [lia|unfold length; cbn; lia|].
  exists parts. split; [done|]. split; [done|]. split; [by eapply splits_free|].
  by apply splits_join.
Qed.

(** With an empty separator [split] never ends on a string that is not empty: every
    iteration adds an empty string. *)
Theorem split_empty l fuel strings :
  clean l -> l <> [] -> split_loop fuel (Some l) (c_str (Some [])) 0 strings = Diverge.
Proof.
  intros Hl Hn. assert (0 < Z.of_nat (List.length l)) as H by (destruct l; [done|cbn [List.length]; lia]).
  revert strings. induction fuel as [|fuel IH]; intros strings; [done|].
  cbn [split_loop]. unfold indexOf_chars_from, length. cbn -[substring u64 split_loop Z.of_nat].
  rewrite u64_id by lia. rewrite (proj2 (Z.ltb_lt _ _)) by lia.
  rewrite advance_c_str by lia. cbn -[substring u64 split_loop].
  rewrite (strstr_clean _ []) by auto using clean_nil.
  assert (find_sub [] (drop (Z.to_nat 0) l) = Some 0) as -> by by destruct l.
  cbn -[substring u64 split_loop]. rewrite u64_id by lia. rewrite substring_ok by lia. apply IH.
Qed.

(** ** Splitting at a character *)

Lemma first_unique {A} (c : A) a l a' l' : a ++ c :: l = a' ++ c :: l' -> c ∉ a -> c ∉ a' -> a = a' /\ l = l'.
Proof.
  revert a'. induction a as [|x a IH]; intros [|x' a'] E Ha Ha'; cbn in E.
  - by injection E.
  - injection E as -> _. by destruct Ha'; left.
  - injection E as -> _. by destruct Ha; left.
  - injection E as -> E. apply not_elem_of_cons in Ha as [_ Ha]. apply not_elem_of_cons in Ha' as [_ Ha'].
    by destruct (IH a' E Ha Ha') as [-> ->].
Qed.

Lemma occurs_char c l k : occurs [c] l k -> c ∈ l.
Proof. intros (a & b & -> & _). set_solver. Qed.

Lemma splits_char_cons c a l parts :
  c ∉ a -> splits [c] (a ++ c :: l) parts -> exists parts', parts = a :: parts' /\ splits [c] l parts'.
Proof.
  intros Ha H. inversion H as [E|l' Hne Hn|a' l' ps Hn Hs E].
  - by destruct a.
  - destruct (Hn (Z.of_nat (List.length a))). by exists a, l.
  - apply first_unique in E as [-> ->]; [by eexists|..|done].
    intros Hc. apply list_elem_of_split in Hc as (p & q & ->). apply (Hn (Z.of_nat (List.length p))).
    + rewrite length_app. cbn. lia.
    + exists p, (q ++ [c] ++ l'). by rewrite <- app_assoc.
Qed.

Lemma splits_char_last c l parts : c ∉ l -> l <> [] -> splits [c] l parts -> parts = [l].
Proof.
  intros Hc Hl H. inversion H as [E|l' Hne Hn|a' l' ps Hn Hs E]; [by subst|done|]. subst l. destruct Hc. set_solver.
Qed.

Lemma split_char c l :
  c <> 0 -> clean l -> Z.of_nat (List.length l) < 2 ^ 63 ->
  exists parts, split_chars (Some l) (Some [c; 0]) = Ok (Some <$> (Some <$> parts)) /\ splits [c] l parts.
Proof.
  intros Hc Hl H63. assert (clean [c]) as Hc' by (apply clean_cons; split; [done|apply clean_nil]).
  unfold split_chars. destruct (split_loop_ok l [c] Hl Hc' ltac:(done) H63 (Z.to_nat (length (Some l)) + 2) 0 [])
    as (parts & E & Hp); [lia|unfold length; cbn; lia|]. exists parts. by split.
Qed.

(** One part, and two. *)
Lemma split_one c l :
  c <> 0 -> clean l -> Z.of_nat (List.length l) < 2 ^ 63 -> c ∉ l -> l <> [] ->
  split_chars (Some l) (Some [c; 0]) = Ok [Some (Some l)].
Proof.
  intros Hc Hl H63 Hn Hne. destruct (split_char c l Hc Hl H63) as (ps & -> & Hp).
  by rewrite (splits_char_last c l ps).
Qed.

Lemma split_two c a b :
  c <> 0 -> clean (a ++ c :: b) -> Z.of_nat (List.length (a ++ c :: b)) < 2 ^ 63 -> c ∉ a -> c ∉ b -> b <> [] ->
  split_chars (Some (a ++ c :: b)) (Some [c; 0]) = Ok [Some (Some a); Some (Some b)].
Proof.
  intros Hc Hl H63 Ha Hb Hne. destruct (split_char c _ Hc Hl H63) as (ps & -> & Hp).
  apply splits_char_cons in Hp as (ps' & -> & Hp); [|done]. by rewrite (splits_char_last c b ps').
Qed.

(** ** Comparison *)

Lemma compare_n_clean l t n :
  clean l -> clean t -> (n <= List.length l)%nat -> (n <= List.length t)%nat ->
  compare_n (l ++ [0]) (t ++ [0]) n = Ok (bool_decide (take n l = take n t)).
Proof.
  revert l t. induction n as [|n IH]; intros l t Hl Ht H1 H2.
  { by destruct l, t; cbn; rewrite bool_decide_true. }
  destruct l as [|c l], t as [|d t]; cbn in *; [lia..|].
  apply clean_cons in Hl as [Hc Hl], Ht as [Hd Ht].
  destruct (Z.eqb_spec c d) as [->|Hn].
  - rewrite (proj2 (Z.eqb_neq d 0)), IH by (done || lia). f_equal. apply bool_decide_ext.
    split; congruence.
  - by rewrite bool_decide_false by congruence.
Qed.

Lemma strncmp0_clean l t n :
  clean l -> clean t -> 0 <= n -> n <= Z.of_nat (List.length l) -> n <= Z.of_nat (List.length t) ->
  strncmp0 (Some (l ++ [0])) (Some (t ++ [0])) n =
  Ok (bool_decide (take (Z.to_nat n) l = take (Z.to_nat n) t)).
Proof.
  intros Hl Ht H0 H1 H2. unfold strncmp0. cbn [deref mbind result_bind].
  rewrite Z.min_l; [apply compare_n_clean; done || lia|]. rewrite length_app. cbn. lia.
Qed.

Lemma startsWith_ok l t :
  clean l -> clean t -> startsWith (Some l) (Some (Some t)) = Ok (bool_decide (t `prefix_of` l)).
Proof.
  intros Hl Ht. unfold startsWith, length. cbn.
  destruct (Z.leb_spec (Z.of_nat (List.length t)) (Z.of_nat (List.length l))).
  - rewrite strncmp0_clean by (done || lia). f_equal. apply bool_decide_ext.
    rewrite Nat2Z.id, (take_ge t) by lia. split.
    + intros <-. apply prefix_take.
    + intros [m ->]. by rewrite take_app_length.
  - rewrite bool_decide_false; [done|]. intros ?%prefix_length. lia.
Qed.

Lemma endsWith_ok l t :
  clean l -> clean t -> endsWith (Some l) (Some (Some t)) = Ok (bool_decide (t `suffix_of` l)).
Proof.
  intros Hl Ht. unfold endsWith, length. cbn.
  destruct (Z.leb_spec (Z.of_nat (List.length t)) (Z.of_nat (List.length l))).
  - rewrite advance_c_str by lia. cbn.
    rewrite strncmp0_clean; [|auto using clean_drop|done|lia|rewrite length_drop; lia|lia].
    f_equal. apply bool_decide_ext.
    rewrite Nat2Z.id, (take_ge t), take_ge by (rewrite ?length_drop; lia). split.
    + intros <-. exists (take (Z.to_nat (Z.of_nat (List.length l) - Z.of_nat (List.length t))) l).
      by rewrite take_drop.
    + intros [m ->]. rewrite length_app. replace (Z.to_nat _) with (List.length m) by lia.
      by rewrite drop_app_length.
  - rewrite bool_decide_false; [done|]. intros ?%suffix_length. lia.
Qed.

Lemma string_equals_ok l t :
  clean l -> clean t -> equals (Some l) (Some (Some t)) = Ok (bool_decide (l = t)).
Proof. intros Hl Ht. unfold equals. cbn. by rewrite strcmp0_clean. Qed.

(** Strings without zero bytes are equal exactly when their bytes are, and equal
    strings then have one hash code, as [HashMap] needs it; [equals] is also symmetric in them. *)
Theorem equals_hash s t :
  clean (default [] s) -> clean (default [] t) ->
  exists b, equals s (Some t) = Ok b /\ equals t (Some s) = Ok b /\ (b = true <-> s = t) /\
    (b = true -> hashCode s = hashCode t).
Proof.
  intros Hs Ht. destruct s as [l|], t as [m|]; cbn in Hs, Ht.
  - exists (bool_decide (l = m)). rewrite !string_equals_ok by done. split; [done|].
    split; [f_equal; by apply bool_decide_ext|]. rewrite bool_decide_eq_true. naive_solver.
  - by exists false.
  - by exists false.
  - by exists true.
Qed.

(** A string with a zero byte in it, which the constructors with a size and
    [append] can make, equals the part in front of that byte: the length and the hash code see
    all bytes, the comparison does not.  As keys of a [HashMap] such strings break its contract. *)
Theorem equals_cuts l m :
  clean l ->
  equals (Some (l ++ 0 :: m)) (Some (Some l)) = Ok true /\
  length (Some (l ++ 0 :: m)) <> length (Some l) /\
  hashCode (Some ([97] ++ 0 :: [98])) <> hashCode (Some [97]).
Proof.
  intros Hl. split; [|split; [|by vm_compute]].
  - unfold equals, strcmp0. cbn. rewrite <- app_assoc. cbn. rewrite !cstring_clean by done. cbn.
    by rewrite bool_decide_true.
  - unfold length. cbn. rewrite length_app. cbn. lia.
Qed.

(** With both offsets inside their strings [regionMatches] tells whether both
    regions exist and have the same bytes. *)
Theorem regionMatches_ok l t toffset ooffset len :
  clean l -> clean t -> Z.of_nat (List.length l) < 2 ^ 63 -> Z.of_nat (List.length t) < 2 ^ 63 ->
  0 <= toffset <= Z.of_nat (List.length l) -> 0 <= ooffset <= Z.of_nat (List.length t) -> 0 <= len ->
  regionMatches (Some l) toffset (Some (Some t)) ooffset len =
  Ok (bool_decide (toffset + len <= Z.of_nat (List.length l) /\
    ooffset + len <= Z.of_nat (List.length t) /\
    slice l toffset (toffset + len) = slice t ooffset (ooffset + len))).
Proof.
  intros Hl Ht H1 H2 Hto Hoo H0. unfold regionMatches, length. cbn. rewrite !u64_id by lia.
  destruct (Z.ltb_spec (Z.of_nat (List.length t) - ooffset) len);
    [by rewrite bool_decide_false by lia|].
  destruct (Z.ltb_spec (Z.of_nat (List.length l) - toffset) len);
    [by rewrite bool_decide_false by lia|].
  destruct (Z.leb_spec len 0).
  { rewrite bool_decide_true; [done|]. split; [lia|]. split; [lia|]. unfold slice.
    by replace (Z.to_nat (toffset + len - toffset)) with 0%nat by lia;
      replace (Z.to_nat (ooffset + len - ooffset)) with 0%nat by lia. }
  rewrite !advance_c_str by lia. cbn.
  rewrite strncmp0_clean; [|auto using clean_drop|auto using clean_drop|lia|rewrite length_drop; lia..].
  f_equal. apply bool_decide_ext. unfold slice.
  replace (toffset + len - toffset) with len by lia. replace (ooffset + len - ooffset) with len by lia.
  naive_solver lia.
Qed.

(** An offset beyond the end of the argument is not refused: the rest is
    computed without a sign, wraps, and the comparison reads outside the argument. *)
Theorem regionMatches_wraps l t toffset ooffset len :
  Z.of_nat (List.length t) + 1 < ooffset < 2 ^ 63 -> 0 <= toffset -> 0 < len ->
  toffset + len <= Z.of_nat (List.length l) < 2 ^ 63 ->
  regionMatches (Some l) toffset (Some (Some t)) ooffset len = Undef.
Proof.
  intros Ho Ht H0 Hl. unfold regionMatches, length. cbn.
  assert (u64 (Z.of_nat (List.length t) - ooffset) =
    2 ^ 64 + (Z.of_nat (List.length t) - ooffset)) as ->.
  { unfold u64. rewrite <- (Z_mod_plus_full _ 1), Z.mod_small; lia. }
  rewrite (u64_id (_ - toffset)) by lia.
  rewrite !(proj2 (Z.ltb_ge _ _)), (proj2 (Z.leb_gt _ _)) by lia.
  rewrite (advance_c_str l) by lia. cbn. unfold advance. rewrite length_app. cbn.
  by rewrite (proj2 (Z.leb_gt _ _)) by lia.
Qed.

(** ** ASCII *)

#[global] Arguments equals : simpl never.
#[global] Arguments substring : simpl never.
#[global] Arguments substring_from : simpl never.

Definition ascii (l : list Z) : Prop := Forall (fun c => 0 <= c < 128) l.

Lemma ctype_ascii {A} (f : Z -> A) c : 0 <= c < 128 -> ctype f c = Ok (f c).
Proof.
  intros H. unfold ctype. rewrite i8_id by lia. by rewrite (proj2 (Z.ltb_ge _ _)) by lia.
Qed.

Lemma mapM_ctype (f : Z -> Z) l : ascii l -> mapM (ctype f) l = Ok (f <$> l).
Proof.
  induction 1 as [|c l Hc Hl IH]; [done|]. cbn. by rewrite ctype_ascii, IH.
Qed.

Lemma toLowerCase_ok l : ascii l -> toLowerCase (Some l) = Ok (Some (to_lower <$> l)).
Proof. intros H. unfold toLowerCase, tolower. cbn. by rewrite mapM_ctype. Qed.

Lemma clean_lower l : clean l -> clean (to_lower <$> l).
Proof.
  unfold clean. intros H (c & E & Hc)%list_elem_of_fmap. destruct H.
  unfold to_lower in E. destruct (65 <=? c) eqn:E1; cbn in E; [|by subst].
  destruct (c <=? 90); [lia|by subst].
Qed.

Lemma equalsIgnoreCase_ok l t :
  clean l -> clean t -> ascii l -> ascii t ->
  equalsIgnoreCase (Some l) (Some (Some t)) = Ok (bool_decide (to_lower <$> l = to_lower <$> t)).
Proof.
  intros Hl Ht Al At. unfold equalsIgnoreCase. rewrite !toLowerCase_ok by done. cbn.
  by rewrite string_equals_ok by by apply clean_lower.
Qed.

(** The white space a list begins with. *)
Lemma spaces_ok l :
  ascii l -> exists pre rest, l = pre ++ rest /\ spaces l = Ok (Z.of_nat (List.length pre)) /\
    Forall (fun c => is_space c = true) pre /\
    (forall c rest', rest = c :: rest' -> is_space c = false).
Proof.
  induction 1 as [|c l Hc Hl (pre & rest & -> & IH & Hp & Hr)].
  { by exists [], []. }
  cbn. unfold isspace. rewrite ctype_ascii by done. cbn. destruct (is_space c) eqn:E.
  - exists (c :: pre), rest. rewrite IH. cbn. split; [done|]. split; [f_equal; lia|]. by auto.
  - exists [], (c :: pre ++ rest). split; [done|]. split; [done|]. split; [done|].
    intros d r [= <- <-]. done.
Qed.

(** White space at both ends: what is between them. *)
Lemma ends_meet (P : Z -> Prop) pre c r q post :
  pre ++ c :: r = q ++ post -> ~ P c -> Forall P post ->
  exists m, q = pre ++ c :: m /\ r = m ++ post.
Proof.
  intros [(k & -> & ->)|(k & -> & H)]%app_eq_inv Hc Hp.
  - apply Forall_app in Hp as [_ Hp]. by inversion Hp.
  - destruct k as [|d k]; cbn in H.
    + subst post. by inversion Hp.
    + injection H as <- ->. by exists k.
Qed.

(** [trim] removes the white space at both ends of an ASCII string and nothing else. *)
Theorem trim_ok l :
  ascii l -> exists pre m post, l = pre ++ m ++ post /\ trim (Some l) = Ok (Some m) /\
    Forall (fun c => is_space c = true) (pre ++ post) /\
    (forall c m', m = c :: m' \/ m = m' ++ [c] -> is_space c = false).
Proof.
  intros Ha. destruct (spaces_ok l Ha) as (pre & rest & E & Hpre & Hp & Hr).
  assert (ascii (rev l)) as Ha' by by apply Forall_rev.
  destruct (spaces_ok (rev l) Ha') as (post & rest' & E' & Hpost & Hp' & Hr').
  assert (l = rev rest' ++ rev post) as El by by rewrite <- rev_app_distr, <- E', rev_involutive.
  assert (List.length l = List.length pre + List.length rest)%nat as Hlen by by rewrite E, length_app.
  unfold trim, length. cbn. rewrite Hpre. cbn. rewrite Hpost. cbn.
  destruct rest as [|c r].
  { rewrite app_nil_r in E. subst l. exists pre, [], []. rewrite !app_nil_r. split; [done|].
    split; [|split; [done|]].
    2: { intros c m' [H|H]; [done|by destruct m']. }
    rewrite (Z.eqb_refl (Z.of_nat (List.length pre))). cbn. case_match eqn:Eb; [|done].
    apply andb_prop in Eb as [Eb _]. by destruct pre. }
  assert (is_space c = false) as Hc by by eapply Hr.
  destruct (ends_meet (fun c => is_space c = true) pre c r (rev rest') (rev post)) as (m & Hm & ->);
    [congruence|congruence|by apply Forall_rev|].
  exists pre, (c :: m), (rev post). split; [done|]. split; [|split].
  - assert (List.length l = List.length pre + S (List.length m + List.length post))%nat as Hl.
    { rewrite E, !length_app. cbn. by rewrite length_app, length_rev. }
    case_match eqn:Eb.
    + apply andb_prop in Eb as [E1 E2].
      assert (pre = []) as -> by (apply nil_length_inv; lia).
      assert (post = []) as -> by (apply nil_length_inv; lia).
      rewrite E. cbn. by rewrite app_nil_r.
    + rewrite (proj2 (Z.eqb_neq _ _)) by lia. cbn. rewrite advance_c_str by lia. cbn.
      rewrite bytes_c_str by (rewrite length_drop; lia). cbn. do 2 f_equal.
      replace (Z.to_nat (_ + 1)) with (List.length (c :: m)) by (cbn [List.length]; lia).
      rewrite E, Nat2Z.id, drop_app_length.
      exact (take_app_length (c :: m) _).
  - apply Forall_app. split; [done|by apply Forall_rev].
  - intros d m' [[= <- _]|H]; [done|]. eapply Hr'.
    apply (f_equal (@rev Z)) in Hm. rewrite rev_involutive, H, rev_app_distr, rev_unit in Hm.
    cbn in Hm. exact Hm.
Qed.

Lemma string_append_ok l t : clean t -> append (Some l) (Some (Some t)) = Ok (Some (l ++ t)).
Proof.
  intros Ht. unfold append. cbn. rewrite strlen_clean by done. cbn. case_match eqn:E.
  - unfold length. cbn. rewrite bytes_c_str by lia. cbn. rewrite bytes_c_str by lia. cbn.
    by rewrite !Nat2Z.id, !take_ge by lia.
  - destruct t; [by rewrite app_nil_r|done].
Qed.

(** Appending the rest of a string to its beginning gives the string back. *)
Theorem append_substring l k :
  clean l -> 0 <= k <= Z.of_nat (List.length l) ->
  (a ← substring (Some l) 0 k; b ← substring_from (Some l) k; s ← deref a; append s b) = Ok (Some l).
Proof.
  intros Hl Hk. rewrite substring_ok by lia. cbn.
  rewrite substring_from_ok by lia. unfold slice. cbn -[append].
  rewrite string_append_ok by auto using clean_drop. by rewrite Z.sub_0_r, take_drop.
Qed.

(** The last index of a character. *)
Lemma find_last_spec c l :
  match find_last c l with
  | Some i => exists a b, l = a ++ c :: b /\ i = Z.of_nat (List.length a) /\ c ∉ b
  | None => c ∉ l
  end.
Proof.
  induction l as [|d l IH]; cbn; [apply not_elem_of_nil|].
  destruct (find_last c l) as [i|].
  - destruct IH as (a & b & -> & -> & Hb). exists (d :: a), b. cbn. split; [done|]. split; [lia|done].
  - destruct (Z.eqb_spec d c) as [->|Hd]; [by exists [], l|]. rewrite elem_of_cons. naive_solver.
Qed.

Lemma find_char_spec c l :
  match find_char c l with
  | Some i => exists a b, l = a ++ c :: b /\ i = Z.of_nat (List.length a) /\ c ∉ a
  | None => c ∉ l
  end.
Proof.
  induction l as [|d l IH]; cbn; [apply not_elem_of_nil|].
  destruct (Z.eqb_spec d c) as [->|Hd].
  - exists [], l. split; [done|]. split; [done|apply not_elem_of_nil].
  - destruct (find_char c l) as [i|]; cbn.
    + destruct IH as (a & b & -> & -> & Ha). exists (d :: a), b. cbn. split; [done|]. split; [lia|].
      rewrite elem_of_cons. naive_solver.
    + rewrite elem_of_cons. naive_solver.
Qed.
End Str.

(** ** Concrete strings *)

Module StrExample.
Import CString Str.

Lemma indexOf_first_witness :
  (exists i, indexOf_chars_from (Some (chars "banana")) (c_str (Some (chars "an"))) 2 = Ok i /\
    is_first (chars "an") (chars "banana") 2 i) /\
  (exists i, indexOf (Some (chars "banana")) (Some (Some (chars "an"))) = Ok i /\
    is_first (chars "an") (chars "banana") 0 i).
Proof. apply (indexOf_first (chars "banana") (chars "an") 2); [decided..|done]. Defined.

Lemma split_parts_witness :
  exists parts, split (Some (chars "a,,b,")) (Some (Some (chars ","))) = Ok (Some <$> (Some <$> parts)) /\
    splits (chars ",") (chars "a,,b,") parts /\ (forall a k, a ∈ parts -> ~ occurs (chars ",") a k) /\
    exists tail, (tail = [] \/ tail = chars ",") /\ chars "a,,b," = join (chars ",") parts ++ tail.
Proof. apply (split_parts (chars "a,,b,") (chars ",")); [decided..|done|done]. Defined.

Lemma split_empty_witness :
  split_loop 100 (Some (chars "ab")) (c_str (Some [])) 0 [] = Diverge.
Proof. apply (split_empty (chars "ab") 100); [decided|done]. Defined.

Lemma equals_hash_witness :
  exists b, equals (Some (chars "a")) (Some (Some (chars "a"))) = Ok b /\
    equals (Some (chars "a")) (Some (Some (chars "a"))) = Ok b /\
    (b = true <-> Some (chars "a") = Some (chars "a")) /\
    (b = true -> hashCode (Some (chars "a")) = hashCode (Some (chars "a"))).
Proof. apply (equals_hash (Some (chars "a")) (Some (chars "a"))); decided. Defined.

Lemma equals_cuts_witness :
  equals (Some ([97] ++ 0 :: [98])) (Some (Some [97])) = Ok true /\
  length (Some ([97] ++ 0 :: [98])) <> length (Some [97]) /\
  hashCode (Some ([97] ++ 0 :: [98])) <> hashCode (Some [97]).
Proof. apply (equals_cuts [97] [98]). decided. Defined.

Lemma regionMatches_ok_witness :
  regionMatches (Some (chars "xyz")) 1 (Some (Some (chars "yza"))) 0 2 =
  Ok (bool_decide (1 + 2 <= 3 /\ 0 + 2 <= 3 /\
    slice (chars "xyz") 1 (1 + 2) = slice (chars "yza") 0 (0 + 2))).
Proof.
  apply (regionMatches_ok (chars "xyz") (chars "yza") 1 0 2);
    [decided..|done|done|done|done|done].
Defined.

Lemma regionMatches_wraps_witness :
  regionMatches (Some (chars "xyz")) 0 (Some (Some (chars "a"))) 3 1 = Undef.
Proof. apply (regionMatches_wraps (chars "xyz") (chars "a") 0 3 1); done. Defined.

Lemma trim_ok_witness :
  exists pre m post, chars "  a b " = pre ++ m ++ post /\ trim (Some (chars "  a b ")) = Ok (Some m) /\
    Forall (fun c => is_space c = true) (pre ++ post) /\
    (forall c m', m = c :: m' \/ m = m' ++ [c] -> is_space c = false).
Proof. apply (trim_ok (chars "  a b ")). decided. Defined.

Lemma append_substring_witness :
  (a ← substring (Some (chars "abc")) 0 1; b ← substring_from (Some (chars "abc")) 1;
   s ← deref a; append s b) = Ok (Some (chars "abc")).
Proof. apply (append_substring (chars "abc") 1); [decided|done]. Defined.
End StrExample.
