(* ===== verification/Numbers.v ===== *)
(** * lang/Byte.cpp, Short.cpp, Integer.cpp, Long.cpp, Boolean.cpp: numbers from strings

    The four integer classes read a string by [strtol] and narrow the result to their width.
    Not modelled: [Float] and [Double] ([strtod]) and the constants of the headers. *)

From S2P Require Import Prelude Strings.
Import CString.
Open Scope Z_scope.

Module Numbers.

(** ** [strtol] *)

(** The value of a character as a digit; [none] is no digit in any base. *)
Definition none : Z := 99.
Definition digit (c : Z) : Z :=
  if (48 <=? c) && (c <=? 57) then c - 48
  else if (97 <=? c) && (c <=? 122) then c - 87
  else if (65 <=? c) && (c <=? 90) then c - 55
  else none.

(** The number the list starts with, and the rest. *)
Fixpoint read_digits (base acc : Z) (l : list Z) : Z * list Z :=
  match l with
  | c :: l' => if digit c <? base then read_digits base (acc * base + digit c) l' else (acc, l)
  | [] => (acc, [])
  end.

Fixpoint skip_spaces (l : list Z) : list Z :=
  match l with c :: l' => if is_space c then skip_spaces l' else l | [] => [] end.

Definition sign (l : list Z) : bool * list Z :=
  match l with
  | c :: l' => if c =? 45 then (true, l') else if c =? 43 then (false, l') else (false, l)
  | [] => (false, [])
  end.

(** "0x" counts in base 16, where a digit follows; base 0 takes the base from the prefix. *)
Definition prefix (base : Z) (l : list Z) : Z * list Z :=
  match l with
  | z :: x :: d :: l' =>
      if (z =? 48) && (to_lower x =? 120) && (digit d <? 16) && ((base =? 0) || (base =? 16))
      then (16, d :: l')
      else if base =? 0 then (if z =? 48 then 8 else 10, l) else (base, l)
  | z :: _ => if base =? 0 then (if z =? 48 then 8 else 10, l) else (base, l)
  | [] => (base, l)
  end.

(** A [long] has 64 bits; what does not fit gives its nearest value. *)
Definition clamp (z : Z) : Z := Z.max (- 2 ^ 63) (Z.min z (2 ^ 63 - 1)).

(** The value, and the string from [endptr]; the whole string where it has no number.  Other bases
    leave [endptr] unset. *)
Definition strtol (p : ptr) (base : Z) : result (Z * list Z) :=
  l ← deref p; s ← cstring l;
  if (base =? 0) || ((2 <=? base) && (base <=? 36)) then
    let '(negative, s1) := sign (skip_spaces s) in
    let '(base, s2) := prefix base s1 in
    let '(n, rest) := read_digits base 0 s2 in
    if (length s2 <=? length rest)%nat then Ok (0, s)
    else Ok (clamp (if negative : bool then - n else n), rest)
  else Undef.

(** ** The classes *)

(** What the four [valueOf] functions share. *)
Definition parse (narrow : Z -> Z) (string : Str.sp) (radix : Z) : result Z :=
  match string with
  | None => Throw NumberFormatException
  | Some s =>
      if Str.isEmpty s then Throw NumberFormatException
      else
        c ← Str.charAt s 0;
        b ← isspace c;
        if b : bool then Throw NumberFormatException
        else
          '(v, endptr) ← strtol (Str.c_str s) radix;
          let value := narrow v in
          if negb (default 0 (head endptr) =? 0) then Throw NumberFormatException else Ok value
  end.

(* lang/Integer.cpp:36-50 Integer::valueOf *)
Definition Integer_valueOf_radix : Str.sp -> Z -> result Z := parse i32.
(* lang/Integer.cpp:28-30 Integer::valueOf *)
Definition Integer_valueOf (string : Str.sp) : result Z := Integer_valueOf_radix string 10.
(* lang/Integer.cpp:32-34 Integer::valueOf *)
Definition Integer_valueOf_chars_radix (string : ptr) (radix : Z) : result Z :=
  s ← Str.valueOf_chars string; Integer_valueOf_radix s radix.
(* lang/Integer.cpp:24-26 Integer::valueOf *)
Definition Integer_valueOf_chars (string : ptr) : result Z := Integer_valueOf_chars_radix string 10.

(* lang/Byte.cpp:36-50 Byte::valueOf *)
Definition Byte_valueOf_radix : Str.sp -> Z -> result Z := parse i8.
(* lang/Byte.cpp:28-30 Byte::valueOf *)
Definition Byte_valueOf (string : Str.sp) : result Z := Byte_valueOf_radix string 10.
(* lang/Byte.cpp:32-34 Byte::valueOf *)
Definition Byte_valueOf_chars_radix (string : ptr) (radix : Z) : result Z :=
  s ← Str.valueOf_chars string; Byte_valueOf_radix s radix.
(* lang/Byte.cpp:24-26 Byte::valueOf *)
Definition Byte_valueOf_chars (string : ptr) : result Z := Byte_valueOf_chars_radix string 10.

(* lang/Short.cpp:36-50 Short::valueOf *)
Definition Short_valueOf_radix : Str.sp -> Z -> result Z := parse i16.
(* lang/Short.cpp:28-30 Short::valueOf *)
Definition Short_valueOf (string : Str.sp) : result Z := Short_valueOf_radix string 10.
(* lang/Short.cpp:32-34 Short::valueOf *)
Definition Short_valueOf_chars_radix (string : ptr) (radix : Z) : result Z :=
  s ← Str.valueOf_chars string; Short_valueOf_radix s radix.
(* lang/Short.cpp:24-26 Short::valueOf *)
Definition Short_valueOf_chars (string : ptr) : result Z := Short_valueOf_chars_radix string 10.

(* lang/Long.cpp:36-50 Long::valueOf *)
Definition Long_valueOf_radix : Str.sp -> Z -> result Z := parse i64.
(* lang/Long.cpp:28-30 Long::valueOf *)
Definition Long_valueOf (string : Str.sp) : result Z := Long_valueOf_radix string 10.
(* lang/Long.cpp:32-34 Long::valueOf *)
Definition Long_valueOf_chars_radix (string : ptr) (radix : Z) : result Z :=
  s ← Str.valueOf_chars string; Long_valueOf_radix s radix.
(* lang/Long.cpp:24-26 Long::valueOf *)
Definition Long_valueOf_chars (string : ptr) : result Z := Long_valueOf_chars_radix string 10.

Definition true_chars : list Z := [116; 114; 117; 101].
Definition TRUE_chars : list Z := [84; 82; 85; 69].

(* lang/Boolean.cpp:26-32 Boolean::valueOf *)
Definition Boolean_valueOf_chars (s : ptr) : result bool :=
  b ← strcmp0 (Some (true_chars ++ [0])) s;
  if b : bool then Ok true
  else
    c ← strcmp0 (Some (TRUE_chars ++ [0])) s;
    if c : bool then Ok true else '(v, _) ← strtol s 10; Ok (negb (v =? 0)).

(* lang/Boolean.cpp:34-36 Boolean::valueOf *)
Definition Boolean_valueOf (s : Str.sp) : result bool :=
  t ← deref s; Boolean_valueOf_chars (Str.c_str t).

(** ** Printed numbers *)

Definition is_digit (c : Z) : Prop := 48 <= c <= 57.
Definition number (l : list Z) : Z := foldl (fun a c => a * 10 + (c - 48)) 0 l.

Lemma digits_spec fuel n acc :
  0 <= n < 10 ^ Z.of_nat fuel -> (0 < fuel)%nat ->
  exists ds, digits fuel n acc = ds ++ acc /\ ds <> [] /\ Forall is_digit ds /\
    forall a, foldl (fun a c => a * 10 + (c - 48)) a ds = a * 10 ^ Z.of_nat (length ds) + n.
Proof.
  revert n acc. induction fuel as [|fuel IH]; intros n acc Hn Hf; [lia|]. cbn [digits].
  assert (is_digit (48 + n mod 10)) as Hd.
  { unfold is_digit. pose proof (Z.mod_pos_bound n 10). lia. }
  destruct (Z.ltb_spec n 10).
  - exists [48 + n mod 10]. split; [done|]. split; [done|]. split; [by constructor|].
    intros a. cbn. rewrite Z.mod_small by lia. lia.
  - rewrite Nat2Z.inj_succ, Z.pow_succ_r in Hn by lia.
    assert (0 < fuel)%nat by (destruct fuel; [cbn in Hn; lia|lia]).
    destruct (IH (n / 10) (48 + n mod 10 :: acc)) as (ds & -> & Hne & Hds & Hv); [|done|].
    { split; [apply Z.div_pos; lia|apply Z.div_lt_upper_bound; lia]. }
    exists (ds ++ [48 + n mod 10]). rewrite <- app_assoc. split; [done|].
    split; [by destruct ds|]. split; [apply Forall_app; split; [done|by apply Forall_singleton]|].
    intros a. rewrite foldl_app, Hv. cbn. rewrite length_app. cbn.
    rewrite Nat2Z.inj_add, Z.pow_add_r by lia. cbn. pose proof (Z.div_mod n 10). lia.
Qed.

Lemma decimal_digits n :
  0 <= n < 10 ^ 20 -> Forall is_digit (decimal n) /\ decimal n <> [] /\ number (decimal n) = n.
Proof.
  intros Hn. unfold decimal. rewrite (proj2 (Z.ltb_ge n 0)) by lia.
  destruct (digits_spec 20 n []) as (ds & -> & Hne & Hds & Hv); [done|lia|]. rewrite app_nil_r.
  split; [done|]. split; [done|]. unfold number. rewrite Hv. lia.
Qed.

Lemma decimal_inj n m : 0 <= n < 10 ^ 20 -> 0 <= m < 10 ^ 20 -> decimal n = decimal m -> n = m.
Proof.
  intros Hn Hm E. destruct (decimal_digits n Hn) as (_ & _ & <-). destruct (decimal_digits m Hm) as (_ & _ & <-).
  by rewrite E.
Qed.

(** Nothing but digits. *)
Lemma decimal_avoids n c : 0 <= n < 10 ^ 20 -> c < 48 \/ 57 < c -> c ∉ decimal n.
Proof.
  intros Hn Hc H. destruct (decimal_digits n Hn) as [Hd _]. eapply Forall_forall in Hd; [|done].
  unfold is_digit in Hd. lia.
Qed.

Lemma decimal_length n : 0 <= n < 10 ^ 20 -> Z.of_nat (List.length (decimal n)) <= 20.
Proof.
  intros Hn. unfold decimal. rewrite (proj2 (Z.ltb_ge n 0)) by lia.
  assert (forall f k acc, (List.length (digits f k acc) <= f + List.length acc)%nat) as H.
  { induction f as [|f IH]; intros k acc; [done|]. cbn [digits]. destruct (k <? 10); [cbn; lia|].
    specialize (IH (k / 10) (48 + k mod 10 :: acc)). cbn in IH. lia. }
  specialize (H 20%nat n []). revert H. generalize (digits 20 n []). cbn [List.length]. lia.
Qed.

Lemma digit_is_digit c : is_digit c -> digit c = c - 48.
Proof. unfold is_digit, digit. intros H. by rewrite !(proj2 (Z.leb_le _ _)) by lia. Qed.

Lemma read_digits_all ds rest acc :
  Forall is_digit ds -> (forall c rest', rest = c :: rest' -> 10 <= digit c) ->
  read_digits 10 acc (ds ++ rest) = (foldl (fun a c => a * 10 + (c - 48)) acc ds, rest).
Proof.
  intros Hds Hr. revert acc. induction Hds as [|c ds Hc Hds IH]; intros acc; cbn.
  - destruct rest as [|c rest]; [done|]. cbn.
    by rewrite (proj2 (Z.ltb_ge _ _)) by by eapply Hr.
  - rewrite digit_is_digit by done. unfold is_digit in Hc. by rewrite (proj2 (Z.ltb_lt _ _)) by lia.
Qed.

Lemma digits_clean ds : Forall is_digit ds -> Str.clean ds.
Proof. intros H ?. eapply Forall_forall in H; [|done]. unfold is_digit in H. lia. Qed.

Lemma prefix_10 l : prefix 10 l = (10, l).
Proof. destruct l as [|z [|x [|d l]]]; try done. cbn. by rewrite andb_false_r. Qed.

(** A string of digits, perhaps with a minus, that other characters follow. *)
Lemma strtol_decimal (negative : bool) ds rest :
  Forall is_digit ds -> ds <> [] -> Str.clean rest ->
  (forall c rest', rest = c :: rest' -> 10 <= digit c) ->
  let l := (if negative then [45] else []) ++ ds ++ rest in
  Str.clean l /\
  strtol (Some (l ++ [0])) 10 = Ok (clamp (if negative then - number ds else number ds), rest).
Proof.
  intros Hds Hne Hc Hr l.
  assert (Str.clean l) as Hl.
  { subst l. rewrite !Str.clean_app. split; [by destruct negative; vm_compute; set_solver|].
    split; [by apply digits_clean|done]. }
  split; [done|]. unfold strtol. cbn [deref mbind result_bind].
  rewrite Str.cstring_clean by done. cbn [mbind result_bind].
  destruct ds as [|d ds]; [done|]. assert (is_digit d) as Hd by by inversion Hds.
  assert (sign (skip_spaces l) = (negative, (d :: ds) ++ rest)) as ->.
  { unfold is_digit in Hd. subst l. destruct negative; [done|]. cbn.
    unfold is_space. rewrite (proj2 (Z.eqb_neq d 32)), (proj2 (Z.leb_gt d 13)), andb_false_r by lia.
    cbn. by rewrite !(proj2 (Z.eqb_neq d _)) by lia. }
  rewrite prefix_10, read_digits_all by done. cbn [app length].
  rewrite (proj2 (Nat.leb_gt _ _)) by (rewrite length_app; lia). done.
Qed.

Lemma parse_decimal narrow (negative : bool) ds rest :
  Forall is_digit ds -> ds <> [] -> Str.clean rest ->
  (forall c rest', rest = c :: rest' -> 10 <= digit c) ->
  let l := (if negative then [45] else []) ++ ds ++ rest in
  parse narrow (Some (Some l)) 10 =
  match rest with
  | [] => Ok (narrow (clamp (if negative then - number ds else number ds)))
  | _ => Throw NumberFormatException
  end.
Proof.
  intros Hds Hne Hc Hr l. destruct (strtol_decimal negative ds rest) as [Hl H]; [done..|].
  fold l in Hl, H. unfold parse.
  assert (exists c l', l = c :: l' /\ is_space c = false /\ 0 <= c < 128) as (c & l' & E & Es & Ec).
  { destruct ds as [|d ds]; [done|]. inversion Hds as [|?? Hd]. unfold is_digit in Hd. subst l.
    destruct negative; [by eexists _, _|]. eexists d, _. split; [done|]. split; [|lia].
    unfold is_space. rewrite (proj2 (Z.eqb_neq d 32)), (proj2 (Z.leb_gt d 13)) by lia.
    by rewrite andb_false_r. }
  assert (Str.isEmpty (Some l) = false) as -> by by rewrite E.
  assert (Str.charAt (Some l) 0 = Ok c) as -> by by rewrite E.
  cbn -[strtol]. unfold isspace. rewrite Str.ctype_ascii, Es by done.
  cbn -[strtol]. rewrite H. cbn. destruct rest as [|d rest]; [done|]. cbn.
  apply Str.clean_cons in Hc as [Hd _]. by rewrite (proj2 (Z.eqb_neq d 0)).
Qed.

Lemma parse_printed narrow z :
  - 10 ^ 20 < z < 10 ^ 20 -> parse narrow (Some (Some (decimal z))) 10 = Ok (narrow (clamp z)).
Proof.
  intros Hz. unfold decimal. destruct (Z.ltb_spec z 0).
  - destruct (digits_spec 20 (- z) []) as (ds & -> & Hne & Hds & Hv); [lia..|].
    etransitivity;
      [apply (parse_decimal narrow true ds []); [done|done|apply Str.clean_nil|done]|].
    unfold number. rewrite Hv. do 3 f_equal. lia.
  - destruct (digits_spec 20 z []) as (ds & -> & Hne & Hds & Hv); [lia..|].
    etransitivity;
      [apply (parse_decimal narrow false ds []); [done|done|apply Str.clean_nil|done]|].
    unfold number. by rewrite Hv.
Qed.

(** Reading the printed form of an integer of 8, 16 or 32 bits gives the
    integer back. *)
Theorem integer_roundtrip z :
  (- 2 ^ 7 <= z < 2 ^ 7 -> Byte_valueOf (Some (Str.valueOf_int8 z)) = Ok z) /\
  (- 2 ^ 15 <= z < 2 ^ 15 -> Short_valueOf (Some (Str.valueOf_int16 z)) = Ok z) /\
  (- 2 ^ 31 <= z < 2 ^ 31 -> Integer_valueOf (Some (Str.valueOf_int32 z)) = Ok z).
Proof.
  split; [|split]; intros Hz;
    (etransitivity; [apply parse_printed; lia|]); unfold clamp; rewrite Z.min_l, Z.max_r by lia;
    by autorewrite with words.
Qed.

(** A number that does not fit is not refused, as the documentation of the
    class says it is: [valueOf] keeps the low bits of what [strtol] gives, so that 4294967296 is
    read as 0 and every number from 2^63 on as -1. *)
Theorem integer_truncates z :
  - 10 ^ 20 < z < 10 ^ 20 ->
  Integer_valueOf (Some (Some (decimal z))) = Ok (i32 (clamp z)) /\
  Integer_valueOf (Some (Some (decimal (2 ^ 32)))) = Ok 0 /\
  (2 ^ 63 <= z -> Integer_valueOf (Some (Some (decimal z))) = Ok (-1)).
Proof.
  intros Hz. split; [by apply parse_printed|]. split; [by vm_compute|].
  intros H. etransitivity; [apply parse_printed; lia|]. unfold clamp.
  by rewrite Z.min_r, Z.max_r by lia.
Qed.

(** A number followed by a character that is no digit is refused, whatever
    comes after it. *)
Theorem integer_rejects negative ds c rest :
  Forall is_digit ds -> ds <> [] -> Str.clean (c :: rest) -> 10 <= digit c ->
  Integer_valueOf (Some (Some ((if negative : bool then [45] else []) ++ ds ++ c :: rest))) =
  Throw NumberFormatException.
Proof.
  intros Hds Hne Hc Hd. etransitivity; [apply parse_decimal; try done|done].
  by intros ?? [= <- _].
Qed.
End Numbers.

Module NumbersExample.
Import Numbers.

Lemma integer_truncates_witness :
  Integer_valueOf (Some (Some (decimal (2 ^ 32 + 5)))) = Ok (i32 (clamp (2 ^ 32 + 5))) /\
  Integer_valueOf (Some (Some (decimal (2 ^ 32)))) = Ok 0 /\
  (2 ^ 63 <= 2 ^ 32 + 5 -> Integer_valueOf (Some (Some (decimal (2 ^ 32 + 5)))) = Ok (-1)).
Proof. apply (integer_truncates (2 ^ 32 + 5)). done. Defined.

Lemma integer_roundtrip_witness :
  (- 2 ^ 7 <= -7 < 2 ^ 7 -> Byte_valueOf (Some (Str.valueOf_int8 (-7))) = Ok (-7)) /\
  (- 2 ^ 15 <= -7 < 2 ^ 15 -> Short_valueOf (Some (Str.valueOf_int16 (-7))) = Ok (-7)) /\
  (- 2 ^ 31 <= -7 < 2 ^ 31 -> Integer_valueOf (Some (Str.valueOf_int32 (-7))) = Ok (-7)).
Proof. apply (integer_roundtrip (-7)). Defined.

Lemma integer_rejects_witness :
  Integer_valueOf (Some (Some ([45] ++ chars "12" ++ chars "x"))) = Throw NumberFormatException.
Proof.
  apply (integer_rejects true (chars "12") 120 []); [|done|decided|done].
  by repeat constructor.
Defined.
End NumbersExample.
