(* ===== verification/StringBuilders.v ===== *)
(** * lang/StringBuilder.cpp, lang/StringArray.cpp

    A [StringBuilder] wraps one [std::string], here the bytes of [mString].  A member function
    that changes it gives the new bytes; an exception leaves it as it was.  The calls return
    [this], which is left out.  A [ByteArray] argument is its bytes.

    Not modelled: the capacity, and floating point numbers ([std::to_string]). *)

From S2P Require Import Prelude Strings.
Import CString.
Open Scope Z_scope.

(** ** [std::string] *)

Module StdString.

(** A position beyond the end is refused by every member function that takes one. *)
Definition at_pos {A} (m : list Z) (pos : Z) (r : result A) : result A :=
  if Z.of_nat (length m) <? pos then Throw StdOutOfRange else r.

Definition insert (m : list Z) (pos : Z) (l : list Z) : result (list Z) :=
  at_pos m pos (Ok (take (Z.to_nat pos) m ++ l ++ drop (Z.to_nat pos) m)).

(** [n] characters from [pos], or all there are. *)
Definition replace (m : list Z) (pos n : Z) (l : list Z) : result (list Z) :=
  at_pos m pos (
    let n := Z.min n (Z.of_nat (length m) - pos) in
    Ok (take (Z.to_nat pos) m ++ l ++ drop (Z.to_nat (pos + n)) m)).

Definition erase (m : list Z) (pos n : Z) : result (list Z) := replace m pos n [].

Definition substr (m : list Z) (pos n : Z) : result (list Z) :=
  at_pos m pos (
    let n := Z.min n (Z.of_nat (length m) - pos) in
    Ok (take (Z.to_nat n) (drop (Z.to_nat pos) m))).

(** The first index from [pos] of a character of [set], -1 for [npos]. *)
Fixpoint first_of (set m : list Z) (i : Z) : Z :=
  match m with
  | [] => -1
  | c :: m => if bool_decide (c ∈ set) then i else first_of set m (i + 1)
  end.
Definition find_first_of (m set : list Z) (pos : Z) : Z :=
  if pos <? Z.of_nat (length m) then first_of set (drop (Z.to_nat pos) m) pos else -1.

(** The last index up to [pos] of a character of [set], -1 for [npos]. *)
Fixpoint last_of (set m : list Z) (i found : Z) : Z :=
  match m with
  | [] => found
  | c :: m => last_of set m (i + 1) (if bool_decide (c ∈ set) then i else found)
  end.
Definition find_last_of (m set : list Z) (pos : Z) : Z :=
  last_of set (take (Z.to_nat (Z.min pos (Z.of_nat (length m)) + 1)) m) 0 (-1).

(** A longer string is padded with zero bytes. *)
Definition resize (m : list Z) (n : Z) : list Z :=
  take (Z.to_nat n) m ++ replicate (Z.to_nat (n - Z.of_nat (length m))) 0.
End StdString.

(** ** The class *)

Module StringBuilder.
Import StdString.

(** The string a [const char*] argument points to. *)
Definition text (string : ptr) : result (list Z) := l ← deref string; cstring l.
Definition text_of (string : Str.sp) : result (list Z) := s ← deref string; text (Str.c_str s).

Definition SIZE_T_MAX : Z := 2 ^ 64 - 1.

(* lang/StringBuilder.cpp:27-28 StringBuilder::StringBuilder *)
Definition of_chars (string : ptr) : result (list Z) := text string.
(* lang/StringBuilder.cpp:30-31 StringBuilder::StringBuilder *)
Definition of_string (string : Str.sp) : result (list Z) := text_of string.

Section builder.
Context (mString : list Z).

(* lang/StringBuilder.cpp:271-274 StringBuilder::append *)
Definition append_chars (string : ptr) : result (list Z) := l ← text string; Ok (mString ++ l).

(* lang/StringBuilder.cpp:33-35 StringBuilder::append *)
Definition append_bool (value : bool) : result (list Z) :=
  append_chars (Str.c_str (Str.valueOf_bool value)).

(* lang/StringBuilder.cpp:37-40 StringBuilder::append *)
Definition append_char (value : Z) : list Z := mString ++ [value].

(* lang/StringBuilder.cpp:42-45 StringBuilder::append *)
Definition append_bytes (charSequence : option (list Z)) : result (list Z) :=
  l ← deref charSequence; Ok (mString ++ l).

(* lang/StringBuilder.cpp:47-50 StringBuilder::append *)
Definition append_chars_size (string : ptr) (size : Z) : result (list Z) :=
  l ← bytes string size; Ok (mString ++ l).

(* lang/StringBuilder.cpp:52-56 StringBuilder::append *)
Definition append_bytes_region (charSequence : option (list Z)) (offset size : Z) : result (list Z) :=
  l ← deref charSequence;
  let size := Z.min (u64 (Z.of_nat (length l) - offset)) size in
  p ← advance (Some l) offset; m ← bytes p size; Ok (mString ++ m).

(* lang/StringBuilder.cpp:72-75 StringBuilder::append *)
Definition append_int8 (value : Z) : list Z := mString ++ decimal value.
(* lang/StringBuilder.cpp:77-80 StringBuilder::append *)
Definition append_uint8 (value : Z) : list Z := mString ++ decimal value.
(* lang/StringBuilder.cpp:82-85 StringBuilder::append *)
Definition append_int16 (value : Z) : list Z := mString ++ decimal value.
(* lang/StringBuilder.cpp:87-90 StringBuilder::append *)
Definition append_uint16 (value : Z) : list Z := mString ++ decimal value.
(* lang/StringBuilder.cpp:92-95 StringBuilder::append *)
Definition append_int32 (value : Z) : list Z := mString ++ decimal value.
(* lang/StringBuilder.cpp:97-100 StringBuilder::append *)
Definition append_uint32 (value : Z) : list Z := mString ++ decimal value.
(* lang/StringBuilder.cpp:102-105 StringBuilder::append *)
Definition append_int64 (value : Z) : list Z := mString ++ decimal value.
(* lang/StringBuilder.cpp:107-110 StringBuilder::append *)
Definition append_uint64 (value : Z) : list Z := mString ++ decimal value.

(* lang/StringBuilder.cpp:112-115 StringBuilder::append *)
Definition append (string : Str.sp) : result (list Z) := l ← text_of string; Ok (mString ++ l).

(* lang/StringBuilder.cpp:117-123 StringBuilder::appendCodePoint *)
Definition appendCodePoint (codePoint : Z) : result (list Z) :=
  if 256 <=? codePoint then Throw RuntimeException else Ok (mString ++ [u8 codePoint]).

(* lang/StringBuilder.cpp:129-134 StringBuilder::charAt *)
Definition charAt (index : Z) : result Z :=
  match mString !! Z.to_nat index with
  | Some c => Ok c
  | None => Throw IndexOutOfBoundsException
  end.

(* lang/StringBuilder.cpp:136-139 StringBuilder::deleteRange *)
Definition deleteRange (start end_ : Z) : result (list Z) := erase mString start (u64 (end_ - start)).

(* lang/StringBuilder.cpp:141-144 StringBuilder::deleteCharAt *)
Definition deleteCharAt (index : Z) : result (list Z) := erase mString index 1.

(** The array [dst] after the call. *)
(* lang/StringBuilder.cpp:150-154 StringBuilder::getChars *)
Definition getChars (srcBegin srcEnd : Z) (dst : option (list Z)) (dstBegin : Z) : result (list Z) :=
  d ← deref dst;
  let srcSize := Z.min (u64 (srcEnd - srcBegin)) (u64 (Z.of_nat (length mString) - srcBegin)) in
  let dstSize := Z.min srcSize (u64 (Z.of_nat (length d) - dstBegin)) in
  p ← advance (Some (mString ++ [0])) srcBegin;
  m ← bytes p dstSize;
  q ← advance (Some d) dstBegin;
  _ ← bytes q dstSize;
  Ok (take (Z.to_nat dstBegin) d ++ m ++ drop (Z.to_nat (dstBegin + dstSize)) d).

(* lang/StringBuilder.cpp:156-158 StringBuilder::indexOf *)
Definition indexOf (string : Str.sp) : result Z :=
  l ← text_of string; Ok (find_first_of mString l 0).
(* lang/StringBuilder.cpp:160-162 StringBuilder::indexOf *)
Definition indexOf_from (string : Str.sp) (fromIndex : Z) : result Z :=
  l ← text_of string; Ok (find_first_of mString l fromIndex).

(* lang/StringBuilder.cpp:164-167 StringBuilder::insert *)
Definition insert_bool (offset : Z) (value : bool) : result (list Z) :=
  insert mString offset (Str.getBytes (Str.valueOf_bool value)).
(* lang/StringBuilder.cpp:169-172 StringBuilder::insert *)
Definition insert_char (offset value : Z) : result (list Z) := insert mString offset [value].
(* lang/StringBuilder.cpp:174-177 StringBuilder::insert *)
Definition insert_bytes (offset : Z) (charSequence : option (list Z)) : result (list Z) :=
  l ← deref charSequence; insert mString offset l.

(** The index is not used; the text goes to [offset]. *)
(* lang/StringBuilder.cpp:179-182 StringBuilder::insert *)
Definition insert_bytes_region (index : Z) (charSequence : option (list Z)) (offset size : Z) :
    result (list Z) :=
  l ← deref charSequence;
  p ← advance (Some l) offset;
  let n := Z.min size (u64 (Z.of_nat (length l) - offset)) in
  at_pos mString offset (m ← bytes p n; insert mString offset m).

(* lang/StringBuilder.cpp:194-197 StringBuilder::insert *)
Definition insert_int32 (offset value : Z) : result (list Z) := insert mString offset (decimal value).
(* lang/StringBuilder.cpp:199-202 StringBuilder::insert *)
Definition insert_uint32 (offset value : Z) : result (list Z) := insert mString offset (decimal value).
(* lang/StringBuilder.cpp:204-207 StringBuilder::insert *)
Definition insert_int64 (offset value : Z) : result (list Z) := insert mString offset (decimal value).
(* lang/StringBuilder.cpp:209-212 StringBuilder::insert *)
Definition insert_uint64 (offset value : Z) : result (list Z) := insert mString offset (decimal value).
(* lang/StringBuilder.cpp:214-217 StringBuilder::insert *)
Definition insert_string (offset : Z) (string : Str.sp) : result (list Z) :=
  l ← text_of string; insert mString offset l.

(* lang/StringBuilder.cpp:219-221 StringBuilder::lastIndexOf *)
Definition lastIndexOf (string : Str.sp) : result Z :=
  l ← text_of string; Ok (find_last_of mString l SIZE_T_MAX).
(* lang/StringBuilder.cpp:223-225 StringBuilder::lastIndexOf *)
Definition lastIndexOf_from (string : Str.sp) (fromIndex : Z) : result Z :=
  l ← text_of string; Ok (find_last_of mString l fromIndex).

(* lang/StringBuilder.cpp:227-229 StringBuilder::length *)
Definition length_ : Z := Z.of_nat (length mString).

(* lang/StringBuilder.cpp:231-234 StringBuilder::replace *)
Definition replace_string (start end_ : Z) (string : Str.sp) : result (list Z) :=
  l ← text_of string; replace mString start (u64 (end_ - start)) l.

(* lang/StringBuilder.cpp:236-239 StringBuilder::reverse *)
Definition reverse_ : list Z := rev mString.

(* lang/StringBuilder.cpp:241-246 StringBuilder::setCharAt *)
Definition setCharAt (index c : Z) : result (list Z) :=
  if length_ <=? index then Throw IndexOutOfBoundsException
  else Ok (<[Z.to_nat index := c]> mString).

(* lang/StringBuilder.cpp:248-250 StringBuilder::setLength *)
Definition setLength (newLength : Z) : list Z := resize mString newLength.

(** [new String(s.c_str())] stops at a zero byte. *)
Definition new_string (m : list Z) : result Str.String := Str.of_chars (Some (m ++ [0])).

(* lang/StringBuilder.cpp:252-254 StringBuilder::substring *)
Definition substring_from (start : Z) : result Str.String :=
  m ← substr mString start SIZE_T_MAX; new_string m.

(* lang/StringBuilder.cpp:256-261 StringBuilder::substring *)
Definition substring (start end_ : Z) : result Str.String :=
  if end_ <? start then Throw IndexOutOfBoundsException
  else m ← substr mString start (end_ - start); new_string m.

(* lang/StringBuilder.cpp:263-265 StringBuilder::toString *)
Definition toString : result Str.String := new_string mString.
End builder.

(** ** Theorems *)

Lemma text_of_clean t : Str.clean t -> text_of (Some (Some t)) = Ok t.
Proof. intros H. unfold text_of, text. cbn. by rewrite Str.cstring_clean. Qed.

Lemma append_clean m t : Str.clean t -> append m (Some (Some t)) = Ok (m ++ t).
Proof. intros Ht. unfold append. by rewrite text_of_clean. Qed.

Lemma toString_clean m : Str.clean m -> toString m = Ok (Some m).
Proof.
  intros Hm. unfold toString, new_string. cbn. rewrite Str.strlen_clean by done. cbn.
  case_match eqn:E; cbn.
  - rewrite Str.bytes_c_str by lia. cbn. by rewrite Nat2Z.id, take_ge by lia.
  - by destruct m.
Qed.

(** A builder made from a string and appended to gives the string that
    [String::append] gives. *)
Theorem builder_append l t :
  Str.clean l -> Str.clean t ->
  (m ← of_string (Some (Some l)); m ← append m (Some (Some t)); toString m) =
  Str.append (Some l) (Some (Some t)).
Proof.
  intros Hl Ht. unfold of_string. rewrite text_of_clean by done. cbn -[append Str.append].
  rewrite append_clean, Str.string_append_ok by done. cbn -[toString].
  apply toString_clean. by apply Str.clean_app.
Qed.

(** Deleting the range a text was inserted at restores the builder. *)
Theorem builder_insert_delete m offset t :
  Str.clean t -> 0 <= offset <= Z.of_nat (length m) -> Z.of_nat (length t) < 2 ^ 64 ->
  (m' ← insert_string m offset (Some (Some t)); deleteRange m' offset (offset + Z.of_nat (length t))) =
  Ok m.
Proof.
  intros Ht Ho H64. unfold insert_string. rewrite text_of_clean by done. cbn.
  unfold insert, at_pos. rewrite (proj2 (Z.ltb_ge _ _)) by lia. cbn.
  unfold deleteRange, erase, replace, at_pos. rewrite !length_app, length_take, length_drop.
  replace (offset + Z.of_nat (length t) - offset) with (Z.of_nat (length t)) by lia.
  rewrite (proj2 (Z.ltb_ge _ _)), u64_id, Z.min_l by lia. f_equal.
  rewrite take_app_le by (rewrite length_take; lia). rewrite take_take, Nat.min_id. cbn.
  rewrite drop_app_ge by (rewrite length_take; lia). rewrite length_take.
  replace (Z.to_nat (offset + Z.of_nat (length t)) - Z.to_nat offset `min` length m)%nat with (length t) by lia.
  by rewrite drop_app_length, take_drop.
Qed.

(** [i] is the first index from [from] of a character of [set]. *)
Lemma first_of_spec set m i :
  (first_of set m i = -1 /\ forall c, c ∈ m -> c ∉ set) \/
  exists a c b, m = a ++ c :: b /\ c ∈ set /\ (forall d, d ∈ a -> d ∉ set) /\
    first_of set m i = i + Z.of_nat (length a).
Proof.
  revert i. induction m as [|c m IH]; intros i; cbn.
  { left. split; [done|]. by intros c ?%elem_of_nil. }
  case_bool_decide as Hc.
  - right. exists [], c, m. split; [done|]. split; [done|]. split; [|cbn; lia].
    by intros d ?%elem_of_nil.
  - destruct (IH (i + 1)) as [[-> H]|(a & d & b & -> & Hd & Ha & ->)].
    + left. split; [done|]. intros d [->|Hd]%elem_of_cons; [done|by apply H].
    + right. exists (c :: a), d, b. split; [done|]. split; [done|].
      split; [|cbn [length]; lia]. intros e [->|He]%elem_of_cons; [done|by apply Ha].
Qed.

(** [indexOf] does not look for the substring, as its comment says, but for
    any character of it: in "hello" it finds "lo" at 2, and "xo" at 4. *)
Theorem builder_indexOf m t :
  Str.clean t ->
  (exists i, indexOf m (Some (Some t)) = Ok i /\
    ((i = -1 /\ forall c, c ∈ m -> c ∉ t) \/
     exists a c b, m = a ++ c :: b /\ c ∈ t /\ (forall d, d ∈ a -> d ∉ t) /\
       i = Z.of_nat (length a))) /\
  indexOf (chars "hello") (Some (Some (chars "lo"))) = Ok 2 /\
  indexOf (chars "hello") (Some (Some (chars "xo"))) = Ok 4.
Proof.
  intros Ht. split; [|split; by vm_compute].
  unfold indexOf. rewrite text_of_clean by done. cbn. eexists. split; [done|].
  unfold find_first_of. destruct (Z.ltb_spec 0 (Z.of_nat (length m))).
  - rewrite drop_0. destruct (first_of_spec t m 0) as [?|(a & c & b & ? & ? & ? & ->)]; [by left|].
    right. by exists a, c, b.
  - left. split; [done|]. destruct m; [|done]. by intros c ?%elem_of_nil.
Qed.

(** A region of a byte array is appended as far as the array goes; where the
    offset is beyond its end nothing is refused and the builder reads outside the array. *)
Theorem builder_regions m l offset size :
  Z.of_nat (length l) < 2 ^ 63 -> 0 <= offset < 2 ^ 63 -> 0 < size ->
  append_bytes_region m (Some l) offset size =
  if offset <=? Z.of_nat (length l)
  then Ok (m ++ take (Z.to_nat size) (drop (Z.to_nat offset) l)) else Undef.
Proof.
  intros Hl Ho Hs. unfold append_bytes_region, advance. cbn.
  destruct (Z.leb_spec offset (Z.of_nat (length l))); [|done]. cbn.
  rewrite u64_id by lia. unfold bytes. cbn. rewrite length_drop.
  rewrite (proj2 (Z.leb_le _ _)) by lia. cbn. do 2 f_equal.
  destruct (Z.le_ge_cases size (Z.of_nat (length l) - offset)).
  - by rewrite Z.min_r by lia.
  - rewrite Z.min_l by lia. rewrite !take_ge by (rewrite length_drop; lia). done.
Qed.
End StringBuilder.

(** ** Arrays of strings *)

Module StringArray.

(* lang/StringArray.h:30-32 StringArray::StringArray *)
Definition new (size : Z) : list Str.sp := replicate (Z.to_nat size) None.

(** A null pointer of the list makes a string without a buffer. *)
(* lang/StringArray.cpp:26-34 StringArray::valueOf *)
Definition valueOf_chars (list_ : list ptr) : result (list Str.sp) :=
  mapM (fun p => s ← Str.of_chars p; Ok (Some s)) list_.

(* lang/StringArray.cpp:36-48 StringArray::valueOf *)
Definition valueOf (list_ : option (list Str.sp)) : option (list Str.sp) := list_.

Section array.
Context (mArray : list Str.sp).

(* lang/StringArray.cpp:50-55 StringArray::get *)
Definition get (position : Z) : result Str.sp :=
  match mArray !! Z.to_nat position with
  | Some s => Ok s
  | None => Throw IndexOutOfBoundsException
  end.

(* lang/StringArray.cpp:57-62 StringArray::operator[] *)
Definition at_ (position : Z) : result Str.sp := get position.

(* lang/StringArray.cpp:71-76 StringArray::set *)
Definition set (position : Z) (string : Str.sp) : result (list Str.sp) :=
  if Z.of_nat (length mArray) <=? position then Throw IndexOutOfBoundsException
  else Ok (<[Z.to_nat position := string]> mArray).
End array.
End StringArray.

(** ** Concrete builders *)

Module BuilderExample.
Import StringBuilder.

Lemma builder_append_witness :
  (m ← of_string (Some (Some (chars "ab"))); m ← append m (Some (Some (chars "cd"))); toString m) =
  Str.append (Some (chars "ab")) (Some (Some (chars "cd"))).
Proof. apply (builder_append (chars "ab") (chars "cd")); decided. Defined.

Lemma builder_insert_delete_witness :
  (m' ← insert_string (chars "ad") 1 (Some (Some (chars "bc")));
   deleteRange m' 1 (1 + Z.of_nat (length (chars "bc")))) = Ok (chars "ad").
Proof. apply (builder_insert_delete (chars "ad") 1 (chars "bc")); decided. Defined.

Lemma builder_indexOf_witness :
  (exists i, indexOf (chars "abc") (Some (Some (chars "xc"))) = Ok i /\
    ((i = -1 /\ forall c, c ∈ chars "abc" -> c ∉ chars "xc") \/
     exists a c b, chars "abc" = a ++ c :: b /\ c ∈ chars "xc" /\
       (forall d, d ∈ a -> d ∉ chars "xc") /\ i = Z.of_nat (length a))) /\
  indexOf (chars "hello") (Some (Some (chars "lo"))) = Ok 2 /\
  indexOf (chars "hello") (Some (Some (chars "xo"))) = Ok 4.
Proof. apply (builder_indexOf (chars "abc") (chars "xc")); decided. Defined.

Lemma builder_regions_witness :
  append_bytes_region (chars "a") (Some (chars "bcd")) 5 1 =
  if 5 <=? Z.of_nat (length (chars "bcd"))
  then Ok (chars "a" ++ take (Z.to_nat 1) (drop (Z.to_nat 5) (chars "bcd"))) else Undef.
Proof. apply (builder_regions (chars "a") (chars "bcd") 5 1); decided. Defined.
End BuilderExample.
