(* ===== verification/URIs.v ===== *)
(** * net/URI.cpp

    [parseURI] and [parseAuthority] as the code has them, the constructors that print components
    and parse what they printed, equality and the hash string.

    A constructor that throws leaves no object, so its exceptions end the call.  [mOpaque] has no
    initial value: [None] is an indeterminate value, and reading it is undefined.  The overloads
    for [const char*] convert their arguments with [String::valueOf] first. *)

From S2P Require Import Prelude Strings Numbers StringBuilders.
Import CString.
Open Scope Z_scope.

Module URI.
Import Str.

(* net/URI.h:213-224 URI *)
Record URI := mkURI {
  mString : sp;
  mScheme : sp;
  mSchemeSpecificPart : sp;
  mAuthority : sp;
  mUserInfo : sp;
  mHost : sp;
  mPort : Z;
  mPath : sp;
  mQuery : sp;
  mFragment : sp;
  mOpaque : option bool;
  mHashCode : Z;
}.

Definition blank : URI := mkURI None None None None None None (-1) None None None None 0.

Definition COLON : Z := 58.
Definition SLASH : Z := 47.
Definition QUESTION : Z := 63.
Definition HASH : Z := 35.
Definition AT : Z := 64.
Definition PERCENT : Z := 37.
Definition LBRACKET : Z := 91.
Definition RBRACKET : Z := 93.
Definition lit (s : string) : ptr := Some (chars s ++ [0]).

(** ** Parsing *)

(** [start] is not used. *)
(* net/URI.cpp:400-407 URI::indexOf *)
Definition indexOf_char (s : String) (c start end_ : Z) : result Z :=
  index ← Str.indexOf_char s c;
  Ok (if (0 <=? index) && (u64 index <? end_) then u64 index else end_).

(** The loop of [indexOf] for [n] more characters. *)
(* net/URI.cpp:413-420 URI::indexOf *)
Fixpoint scan (s : String) (set : ptr) (n : nat) (i : Z) : result Z :=
  match n with
  | O => Ok i
  | S n =>
      c ← charAt s i;
      r ← strchr set c;
      match r with Some _ => Ok i | None => scan s set n (i + 1) end
  end.

(* net/URI.cpp:409-421 URI::indexOf *)
Definition indexOf_chars (s : String) (set : ptr) (start end_ : Z) : result Z :=
  if (length s <=? start) || (end_ <? start) || (length s <? end_)
  then Throw IndexOutOfBoundsException
  else scan s set (Z.to_nat (end_ - start)) start.

(** Reading the port: [None] where the call gives up. *)
(* net/URI.cpp:325-338 URI::parseAuthority *)
Definition parsePort (serverBasedNamingAuthority : bool) (s : sp) : result (option Z) :=
  match Numbers.Integer_valueOf s with
  | Ok port =>
      if port <? 0 then
        if serverBasedNamingAuthority then Throw URISyntaxException else Ok None
      else Ok (Some port)
  | Throw NumberFormatException =>
      if serverBasedNamingAuthority then Throw URISyntaxException else Ok None
  | Throw e => Throw e
  | Undef => Undef
  | Diverge => Diverge
  end.

(** The user information, and what follows it. *)
(* net/URI.cpp:307-315 URI::parseAuthority *)
Definition splitUserInfo (authority : String) : result (sp * String) :=
  userIndex ← Str.indexOf_char authority AT;
  if negb (userIndex =? -1) then
    userInfo ← substring authority 0 (u64 userIndex);
    a ← substring_from authority (u64 (userIndex + 1));
    authority ← deref a;
    Ok (userInfo, authority)
  else Ok (None, authority).

(** The host and the port, unless the call gives up. *)
(* net/URI.cpp:317-342 URI::parseAuthority *)
Definition splitHostPort (authority : String) (serverBasedNamingAuthority : bool) :
    result (option (sp * Z)) :=
  portIndex ← lastIndexOf_char authority COLON;
  endIndex ← Str.indexOf_char authority RBRACKET;
  if negb (portIndex =? -1) && (endIndex <? portIndex) then
    host ← substring authority 0 (u64 portIndex);
    if portIndex <? length authority - 1 then
      s ← substring_from authority (u64 (portIndex + 1));
      port ← parsePort serverBasedNamingAuthority s;
      Ok (match port with Some port => Some (host, port) | None => None end)
    else Ok (Some (host, -1))
  else Ok (Some (Some authority, -1)).

(* net/URI.cpp:302-354 URI::parseAuthority *)
Definition parseAuthority (u : URI) (serverBasedNamingAuthority : bool) : result URI :=
  match mAuthority u with
  | None => Ok u
  | Some authority =>
      '(userInfo, authority) ← splitUserInfo authority;
      r ← splitHostPort authority serverBasedNamingAuthority;
      match r with
      | None => Ok u
      | Some (host, port) =>
          h ← deref host;
          if isEmpty h then
            if serverBasedNamingAuthority then Throw URISyntaxException else Ok u
          else Ok (mkURI (mString u) (mScheme u) (mSchemeSpecificPart u) (mAuthority u) userInfo
                 host port (mPath u) (mQuery u) (mFragment u) (mOpaque u) (mHashCode u))
      end
  end.

(** The part of [parseURI] for a URI that is not opaque. *)
(* net/URI.cpp:272-300 URI::parseURI *)
Definition parseHierarchy (uri : String) (serverBasedNamingAuthority : bool) (scheme fragment : sp)
    (hierPartStart fragmentStart : Z) : result URI :=
  part ← substring uri hierPartStart fragmentStart;
  b ← regionMatches_chars uri hierPartStart (lit "//") 0 2;
  '(authority, pathStart) ← (
    if b : bool then
      let authorityStart := hierPartStart + 2 in
      if authorityStart =? length uri then Throw URISyntaxException
      else
        pathStart ← indexOf_chars uri (lit "/?") authorityStart fragmentStart;
        authority ← (if authorityStart <? pathStart then substring uri authorityStart pathStart
                     else Ok (None : sp));
        Ok (authority, pathStart)
    else Ok (None, hierPartStart));
  queryStart ← indexOf_char uri QUESTION pathStart fragmentStart;
  path ← substring uri pathStart queryStart;
  query ← (if queryStart <? fragmentStart then substring uri (queryStart + 1) fragmentStart
           else Ok None);
  parseAuthority
    (mkURI (Some uri) scheme part authority None None (-1) path query fragment (Some false) 0)
    serverBasedNamingAuthority.

(* net/URI.cpp:243-271 URI::parseURI *)
Definition parseURI (uri : String) (serverBasedNamingAuthority : bool) : result URI :=
  fragmentStart ← indexOf_char uri HASH 0 (length uri);
  fragment ← (if fragmentStart <? length uri then substring_from uri (fragmentStart + 1) else Ok None);
  colon ← indexOf_char uri COLON 0 fragmentStart;
  separator ← indexOf_chars uri (lit "/?#") 0 fragmentStart;
  if colon <? separator then
    scheme ← substring uri 0 colon;
    let hierPartStart := colon + 1 in
    if hierPartStart =? fragmentStart then Throw URISyntaxException
    else
      b ← regionMatches_chars uri hierPartStart (lit "/") 0 1;
      if negb b then
        part ← substring uri hierPartStart fragmentStart;
        Ok (mkURI (Some uri) scheme part None None None (-1) None None fragment (Some true) 0)
      else parseHierarchy uri serverBasedNamingAuthority scheme fragment hierPartStart fragmentStart
  else parseHierarchy uri serverBasedNamingAuthority None fragment 0 fragmentStart.

(** ** Construction *)

(* net/URI.cpp:29-34 URI::URI *)
Definition of_spec (spec : sp) : result URI :=
  match spec with None => Throw NullPointerException | Some s => parseURI s false end.

(* net/URI.cpp:36-41 URI::URI *)
Definition of_spec_chars (spec : ptr) : result URI :=
  match spec with
  | None => Throw NullPointerException
  | Some _ => s ← valueOf_chars spec; t ← deref s; parseURI t false
  end.

Definition as_illegal_argument {A} (r : result A) : result A :=
  match r with Throw URISyntaxException => Throw IllegalArgumentException | _ => r end.

(* net/URI.cpp:43-49 URI::create *)
Definition create (uri : sp) : result URI := as_illegal_argument (of_spec uri).
(* net/URI.cpp:51-57 URI::create *)
Definition create_chars (uri : ptr) : result URI := as_illegal_argument (of_spec_chars uri).

(** What the constructors append to the builder [b]. *)
Definition maybe {A} (o : option A) (f : A -> list Z -> result (list Z)) (b : list Z) : result (list Z) :=
  match o with Some a => f a b | None => Ok b end.
Definition put (s : String) (b : list Z) : result (list Z) := StringBuilder.append b (Some s).
Definition put_char (c : Z) (b : list Z) : list Z := StringBuilder.append_char b c.

Definition relativePath (scheme path : sp) : result bool :=
  match scheme, path with
  | Some _, Some p => if isEmpty p then Ok false else c ← charAt p 0; Ok (negb (c =? SLASH))
  | _, _ => Ok false
  end.

(** The brackets of an address of IP version 6. *)
(* net/URI.cpp:83-87 URI::URI *)
Definition bracketed (host : String) : result String :=
  colon ← Str.indexOf_char host COLON;
  if negb (colon =? -1) then
    r ← Str.indexOf_char host RBRACKET;
    if r =? -1 then
      l ← Str.indexOf_char host LBRACKET;
      if l =? -1 then
        h ← deref (c_str host); h ← cstring h; Ok (Some (LBRACKET :: h ++ [RBRACKET]))
      else Ok host
    else Ok host
  else Ok host.

Definition is_some {A} (o : option A) : bool := match o with Some _ => true | None => false end.

(* net/URI.cpp:59-108 URI::URI *)
Definition of_components (scheme userInfo host : sp) (port : Z) (path query fragment : sp) : result URI :=
  if negb (is_some scheme || is_some userInfo || is_some host || is_some path || is_some query ||
           is_some fragment)
  then Ok (mkURI None None None None None None (-1) (Some EMPTY_STRING) None None None 0)
  else
    r ← relativePath scheme path;
    if r : bool then Throw URISyntaxException
    else
      b ← maybe scheme (fun s b => b ← put s b; Ok (put_char COLON b)) [];
      b ← (if is_some userInfo || is_some host || negb (port =? -1)
           then StringBuilder.append_chars b (lit "//") else Ok b);
      b ← maybe userInfo (fun s b => b ← put s b; Ok (put_char AT b)) b;
      b ← maybe host (fun s b => h ← bracketed s; put h b) b;
      let b := if negb (port =? -1) then StringBuilder.append_int32 (put_char COLON b) port else b in
      b ← maybe path put b;
      b ← maybe query (fun s b => put s (put_char QUESTION b)) b;
      b ← maybe fragment (fun s b => put s (put_char HASH b)) b;
      s ← StringBuilder.toString b;
      parseURI s true.

(* net/URI.cpp:110-113 URI::URI *)
Definition of_components_chars (scheme userInfo host : ptr) (port : Z) (path query fragment : ptr) :
    result URI :=
  scheme ← valueOf_chars scheme; userInfo ← valueOf_chars userInfo; host ← valueOf_chars host;
  path ← valueOf_chars path; query ← valueOf_chars query; fragment ← valueOf_chars fragment;
  of_components scheme userInfo host port path query fragment.

(* net/URI.cpp:115-143 URI::URI *)
Definition of_parts (scheme authority path query fragment : sp) : result URI :=
  r ← relativePath scheme path;
  if r : bool then Throw URISyntaxException
  else
    b ← maybe scheme (fun s b => b ← put s b; Ok (put_char COLON b)) [];
    b ← maybe authority (fun s b => b ← StringBuilder.append_chars b (lit "//"); put s b) b;
    b ← maybe path put b;
    b ← maybe query (fun s b => put s (put_char QUESTION b)) b;
    b ← maybe fragment (fun s b => put s (put_char HASH b)) b;
    s ← StringBuilder.toString b;
    parseURI s false.

(* net/URI.cpp:145-148 URI::URI *)
Definition of_parts_chars (scheme authority path query fragment : ptr) : result URI :=
  scheme ← valueOf_chars scheme; authority ← valueOf_chars authority; path ← valueOf_chars path;
  query ← valueOf_chars query; fragment ← valueOf_chars fragment;
  of_parts scheme authority path query fragment.

(** ** Equality and the hash code *)

(** An iteration moves both indices past an escape, three characters further. *)
(* net/URI.cpp:433-449 URI::escapedEqualsIgnoreCase *)
Fixpoint escaped_loop (fuel : nat) (first second : String) (prevIndex : Z) : result bool :=
  match fuel with
  | O => Diverge
  | S fuel =>
      index ← Str.indexOf_char_from first PERCENT (u64 prevIndex);
      let index := i32 index in
      other ← (if negb (index =? -1) then Str.indexOf_char_from second PERCENT (u64 prevIndex)
               else Ok (index + 1));
      if negb (index =? -1) && (other =? index) then
        a ← substring first (u64 prevIndex) (u64 index);
        b ← substring second (u64 prevIndex) (u64 index);
        a ← deref a;
        match_ ← equals a b;
        if negb match_ then Ok false
        else
          a ← substring first (u64 (index + 1)) (u64 (index + 3));
          b ← substring second (u64 (index + 1)) (u64 (index + 3));
          a ← deref a;
          match_ ← equalsIgnoreCase a b;
          if negb match_ then Ok false else escaped_loop fuel first second (i32 (index + 3))
      else
        a ← substring_from first (u64 prevIndex);
        b ← substring_from second (u64 prevIndex);
        a ← deref a;
        equals a b
  end.

(* net/URI.cpp:423-451 URI::escapedEqualsIgnoreCase *)
Definition escapedEqualsIgnoreCase (first second : sp) : result bool :=
  match first, second with
  | Some f, Some s =>
      i ← Str.indexOf_char f PERCENT;
      j ← Str.indexOf_char s PERCENT;
      if negb (i =? j) then equals f second
      else escaped_loop (Z.to_nat (length f) + 1) f s 0
  | _, _ => Throw NullPointerException
  end.

(** Both null, or both not and equal by [eq]: [None] where the comparison goes on. *)
Definition both (eq : result bool) (a b : sp) : result bool :=
  match a, b with
  | Some _, Some _ => eq
  | None, None => Ok true
  | _, _ => Ok false
  end.

Definition opaque_flag (u : URI) : result bool := deref (mOpaque u).

(** Early returns of [false] as a conjunction that stops at the first. *)
Definition and_then (a b : result bool) : result bool := r ← a; if r : bool then b else Ok false.

Definition ignoreCase (a b : sp) : result bool := s ← deref a; equalsIgnoreCase s b.

(* net/URI.cpp:202-225 URI::equals *)
Definition equals_authority (u uri : URI) : result bool :=
  match mHost uri, mHost u with
  | None, None => escapedEqualsIgnoreCase (mAuthority uri) (mAuthority u)
  | Some _, Some _ =>
      and_then (ignoreCase (mHost u) (mHost uri))
        (if negb (mPort u =? mPort uri) then Ok false
         else both (escapedEqualsIgnoreCase (mUserInfo u) (mUserInfo uri)) (mUserInfo uri) (mUserInfo u))
  | _, _ => Ok false
  end.

(* net/URI.cpp:163-234 URI::equals *)
Definition equals (u uri : URI) : result bool :=
  and_then (both (escapedEqualsIgnoreCase (mFragment uri) (mFragment u)) (mFragment uri) (mFragment u))
  (and_then (both (ignoreCase (mScheme uri) (mScheme u)) (mScheme uri) (mScheme u))
    (o1 ← opaque_flag uri;
     o2 ← (if o1 : bool then opaque_flag u else Ok true);
     if o1 && o2 then escapedEqualsIgnoreCase (mSchemeSpecificPart uri) (mSchemeSpecificPart u)
     else
       o3 ← (if negb o1 then opaque_flag u else Ok true);
       if negb o1 && negb o3 then
         and_then (escapedEqualsIgnoreCase (mPath u) (mPath uri))
         (and_then (both (escapedEqualsIgnoreCase (mQuery uri) (mQuery u)) (mQuery uri) (mQuery u))
           (both (equals_authority u uri) (mAuthority uri) (mAuthority u)))
       else Ok false)).

(* net/URI.cpp:458-468 URI::convertHexSequencesToLowerCase *)
Fixpoint convert_loop (fuel : nat) (string : String) (prevIndex : Z) (b : list Z) : result String :=
  match fuel with
  | O => Diverge
  | S fuel =>
      index ← Str.indexOf_char_from string PERCENT (u64 prevIndex);
      if negb (index =? -1) then
        s ← substring string (u64 prevIndex) (u64 (index + 1));
        b ← StringBuilder.append b s;
        s ← substring string (u64 (index + 1)) (u64 (index + 3));
        s ← deref s;
        l ← toLowerCase s;
        b ← put l b;
        convert_loop fuel string (index + 3) b
      else
        s ← substring_from string (u64 prevIndex);
        b ← StringBuilder.append b s;
        StringBuilder.toString b
  end.

(* net/URI.cpp:453-468 URI::convertHexSequencesToLowerCase *)
Definition convertHexSequencesToLowerCase (string : String) : result String :=
  i ← Str.indexOf_char string PERCENT;
  if i =? -1 then Ok string else convert_loop (Z.to_nat (length string) + 1) string 0 [].

(* net/URI.cpp:356-398 URI::getHashString *)
Definition getHashString (u : URI) : result String :=
  b ← maybe (mScheme u) (fun s b => l ← toLowerCase s; b ← put l b; Ok (put_char COLON b)) [];
  o ← opaque_flag u;
  b ← (
    if o : bool then StringBuilder.append b (mSchemeSpecificPart u)
    else
      b ← maybe (mAuthority u) (fun authority b =>
        b ← StringBuilder.append_chars b (lit "//");
        match mHost u with
        | None => put authority b
        | Some host =>
            b ← maybe (mUserInfo u) (fun s b => b ← put s b; Ok (put_char AT b)) b;
            l ← toLowerCase host;
            b ← put l b;
            Ok (if negb (mPort u =? -1)
                then StringBuilder.append_int32 (put_char COLON b) (mPort u) else b)
        end) b;
      b ← maybe (mPath u) put b;
      maybe (mQuery u) (fun s b => put s (put_char QUESTION b)) b);
  b ← maybe (mFragment u) (fun s b => put s (put_char HASH b)) b;
  s ← StringBuilder.toString b;
  convertHexSequencesToLowerCase s.

(** The hash code is kept in the object. *)
(* net/URI.cpp:236-241 URI::hashCode *)
Definition hashCode (u : URI) : result (Z * URI) :=
  if mHashCode u =? 0 then
    s ← getHashString u;
    let h := Str.hashCode s in
    Ok (h, mkURI (mString u) (mScheme u) (mSchemeSpecificPart u) (mAuthority u) (mUserInfo u) (mHost u)
             (mPort u) (mPath u) (mQuery u) (mFragment u) (mOpaque u) h)
  else Ok (mHashCode u, u).

(* net/URI.h:157-159 URI::isAbsolute *)
Definition isAbsolute (u : URI) : bool :=
  match mScheme u with Some s => negb (isEmpty s) | None => false end.

(* net/URI.h:166-168 URI::isOpaque *)
Definition isOpaque (u : URI) : result bool := opaque_flag u.

(** ** A reference parser on lists *)

(** What comes before the first [c], and what after it. *)
Fixpoint cut (c : Z) (l : list Z) : list Z * option (list Z) :=
  match l with
  | [] => ([], None)
  | d :: l => if d =? c then ([], Some l) else let '(a, b) := cut c l in (d :: a, b)
  end.

(** The longest prefix without a character of [set], and the rest. *)
Fixpoint until (set l : list Z) : list Z * list Z :=
  match l with
  | [] => ([], [])
  | d :: l' => if bool_decide (d ∈ set) then ([], l) else let '(a, b) := until set l' in (d :: a, b)
  end.

(** [scheme:rest], where the colon comes before every "/" and "?". *)
Definition scheme_of (h : list Z) : option (list Z * list Z) :=
  match until (chars ":/?") h with
  | (a, c :: rest) => if c =? COLON then Some (a, rest) else None
  | (_, []) => None
  end.

Definition some_string (l : list Z) : sp := Some (Some l).
Definition opt_string (o : option (list Z)) : sp := option_map Some o.

(** [//authority/path?query]: the authority, the path and the query. *)
Definition hier (rest : list Z) (last : bool) : result (sp * list Z * option (list Z)) :=
  if is_prefix (chars "//") rest then
    if last && bool_decide (drop 2 rest = []) then Throw URISyntaxException
    else
      let '(authority, r) := until (chars "/?") (drop 2 rest) in
      let '(path, query) := cut QUESTION r in
      Ok (if bool_decide (authority = []) then None else some_string authority, path, query)
  else let '(path, query) := cut QUESTION rest in Ok (None, path, query).

Definition parse_ref (l : list Z) (server : bool) : result URI :=
  if bool_decide (l = []) then Throw IndexOutOfBoundsException
  else
    let '(h, fragment) := cut HASH l in
    let '(scheme, rest) := match scheme_of h with Some (a, r) => (Some a, r) | None => (None, h) end in
    if is_some scheme && bool_decide (rest = []) then Throw URISyntaxException
    else if is_some scheme && negb (is_prefix (chars "/") rest) then
      Ok (mkURI (some_string l) (opt_string scheme) (some_string rest) None None None (-1) None None
            (opt_string fragment) (Some true) 0)
    else
      '(authority, path, query) ← hier rest (negb (is_some fragment));
      parseAuthority
        (mkURI (some_string l) (opt_string scheme) (some_string rest) authority None None (-1)
           (some_string path) (opt_string query) (opt_string fragment) (Some false) 0) server.

Lemma cut_spec c l :
  match cut c l with
  | (a, None) => l = a /\ c ∉ a
  | (a, Some b) => l = a ++ c :: b /\ c ∉ a
  end.
Proof.
  induction l as [|d l IH]; cbn; [split; [done|apply not_elem_of_nil]|].
  destruct (Z.eqb_spec d c) as [->|Hd]; [split; [done|apply not_elem_of_nil]|].
  destruct (cut c l) as [a [b|]], IH as [-> Ha]; (split; [done|]);
    rewrite elem_of_cons; naive_solver.
Qed.

Lemma cut_app c a b : c ∉ a -> cut c (a ++ c :: b) = (a, Some b).
Proof.
  induction a as [|d a IH]; cbn; intros H; [by rewrite Z.eqb_refl|].
  rewrite elem_of_cons in H. rewrite (proj2 (Z.eqb_neq d c)) by naive_solver. by rewrite IH by naive_solver.
Qed.

Lemma cut_none c a : c ∉ a -> cut c a = (a, None).
Proof.
  induction a as [|d a IH]; cbn; intros H; [done|].
  rewrite elem_of_cons in H. rewrite (proj2 (Z.eqb_neq d c)) by naive_solver. by rewrite IH by naive_solver.
Qed.

Lemma find_char_cut c l :
  find_char c l = let '(a, b) := cut c l in if is_some b then Some (Z.of_nat (List.length a)) else None.
Proof.
  induction l as [|d l IH]; cbn; [done|]. destruct (d =? c); [done|]. rewrite IH.
  destruct (cut c l) as [a [b|]]; cbn; [|done]. f_equal. lia.
Qed.

Lemma until_spec set l :
  let '(a, b) := until set l in
  l = a ++ b /\ (forall c, c ∈ a -> c ∉ set) /\ (forall c b', b = c :: b' -> c ∈ set).
Proof.
  induction l as [|d l IH]; cbn.
  { split; [done|]. split; [by intros c ?%elem_of_nil|done]. }
  case_bool_decide as Hd.
  - split; [done|]. split; [by intros c ?%elem_of_nil|]. by intros c b' [= <- _].
  - destruct (until set l) as [a b], IH as (-> & Ha & Hb). split; [done|]. split; [|done].
    intros c [->|Hc]%elem_of_cons; [done|by apply Ha].
Qed.

Lemma until_app set a b :
  (forall c, c ∈ a -> c ∉ set) -> (forall c b', b = c :: b' -> c ∈ set) -> until set (a ++ b) = (a, b).
Proof.
  intros Ha Hb. induction a as [|d a IH]; cbn.
  - destruct b as [|c b]; [done|]. cbn. by rewrite bool_decide_true by by eapply Hb.
  - rewrite bool_decide_false by (apply Ha; left). rewrite IH; [done|]. intros c Hc. apply Ha. by right.
Qed.

(** ** The operations of the parser, on lists *)

Notation len l := (Z.of_nat (List.length l)).

Lemma find_char_end c l : c <> 0 -> find_char c (l ++ [0]) = find_char c l.
Proof.
  intros Hc. induction l as [|d l IH]; cbn; [by destruct c|]. by rewrite IH.
Qed.

Lemma find_char_elem c l : is_some (find_char c l) = bool_decide (c ∈ l).
Proof.
  pose proof (find_char_spec c l) as H. destruct (find_char c l) as [i|]; cbn.
  - destruct H as (a & b & -> & _). rewrite bool_decide_true; [done|]. set_solver.
  - by rewrite bool_decide_false.
Qed.

Lemma string_indexOf_char l c :
  clean l -> c <> 0 ->
  Str.indexOf_char (Some l) c =
  Ok (let '(a, b) := cut c l in if is_some b then len a else -1).
Proof.
  intros Hl Hc. unfold Str.indexOf_char. cbn. rewrite strchr_clean by done. cbn.
  rewrite find_char_end, find_char_cut by done. by destruct (cut c l) as [a [b|]].
Qed.

Lemma cut_length c l : let '(a, b) := cut c l in len a <= len l.
Proof.
  pose proof (cut_spec c l) as H. destruct (cut c l) as [a [b|]], H as [-> _]; [|lia].
  rewrite length_app. lia.
Qed.

Lemma indexOf_char_ok l c start end_ :
  clean l -> c <> 0 -> len l < 2 ^ 63 ->
  indexOf_char (Some l) c start end_ =
  Ok (let '(a, b) := cut c l in if is_some b && (len a <? end_) then len a else end_).
Proof.
  intros Hl Hc H63. unfold indexOf_char. rewrite string_indexOf_char by done. cbn.
  pose proof (cut_length c l). destruct (cut c l) as [a [b|]]; cbn; [|done].
  rewrite (proj2 (Z.leb_le _ _)), u64_id by lia. done.
Qed.

Lemma scan_ok pre mid post set :
  clean mid -> clean (chars set) ->
  scan (Some (pre ++ mid ++ post)) (lit set) (List.length mid) (len pre) =
  Ok (len pre + len (fst (until (chars set) mid))).
Proof.
  intros Hm Hs. unfold lit. revert pre. induction mid as [|c mid IH]; intros pre; cbn -[charAt].
  { f_equal. lia. }
  apply clean_cons in Hm as [Hc Hm].
  assert (charAt (Some (pre ++ c :: mid ++ post)) (len pre) = Ok c) as ->.
  { unfold charAt. cbn. by rewrite Nat2Z.id, list_lookup_middle. }
  cbn -[charAt]. rewrite strchr_clean by done. cbn -[charAt].
  rewrite find_char_end by done. pose proof (find_char_elem c (chars set)) as E.
  case_bool_decide; destruct (find_char c (chars set)); cbn in E; try done; cbn -[charAt].
  - f_equal. lia.
  - specialize (IH Hm (pre ++ [c])). rewrite <- app_assoc in IH. cbn -[charAt] in IH.
    replace (len pre + 1) with (len (pre ++ [c])) by (rewrite length_app; cbn; lia).
    rewrite IH. destruct (until (chars set) mid) as [a b]. cbn. f_equal. rewrite length_app. cbn. lia.
Qed.

Lemma indexOf_chars_ok pre mid post set i j :
  clean mid -> clean (chars set) -> i = len pre -> j = len pre + len mid ->
  i < len (pre ++ mid ++ post) ->
  indexOf_chars (Some (pre ++ mid ++ post)) (lit set) i j =
  Ok (len pre + len (fst (until (chars set) mid))).
Proof.
  intros Hm Hs -> -> H. unfold indexOf_chars, length. cbn [default from_option id].
  rewrite !length_app in *.
  rewrite (proj2 (Z.leb_gt _ _)), !(proj2 (Z.ltb_ge _ _)) by lia. cbn -[scan].
  replace (Z.to_nat _) with (List.length mid) by lia. by apply scan_ok.
Qed.

Lemma substring_mid a b c i j :
  i = len a -> j = len a + len b -> substring (Some (a ++ b ++ c)) i j = Ok (some_string b).
Proof.
  intros -> ->. rewrite substring_ok by (rewrite ?length_app; lia). unfold slice, some_string.
  replace (len a + len b - len a) with (len b) by lia.
  by rewrite !Nat2Z.id, drop_app_length, take_app_length.
Qed.

Lemma substring_begin a c j : j = len a -> substring (Some (a ++ c)) 0 j = Ok (some_string a).
Proof. intros ->. by apply (substring_mid [] a c). Qed.

Lemma substring_end a b i : i = len a -> substring_from (Some (a ++ b)) i = Ok (some_string b).
Proof.
  intros ->. rewrite substring_from_ok by (rewrite length_app; lia).
  by rewrite Nat2Z.id, drop_app_length.
Qed.

Lemma region_prefix a b set i :
  clean (a ++ b) -> clean (chars set) -> chars set <> [] -> len (chars set) < 2 ^ 63 ->
  len (a ++ b) < 2 ^ 63 -> i = len a ->
  regionMatches_chars (Some (a ++ b)) i (lit set) 0 (len (chars set)) =
  Ok (is_prefix (chars set) b).
Proof.
  intros Hc Hs Hne Hs63 H63 ->. unfold regionMatches_chars.
  assert (valueOf_chars (lit set) = Ok (some_string (chars set))) as ->.
  { unfold lit, valueOf_chars, of_chars. rewrite strlen_clean by done. cbn.
    rewrite (proj2 (Z.ltb_lt _ _)) by (destruct (chars set); [done|cbn [List.length]; lia]).
    cbn. rewrite bytes_c_str by lia. cbn. by rewrite Nat2Z.id, take_ge by lia. }
  cbn -[regionMatches]. unfold some_string. rewrite length_app in H63.
  rewrite regionMatches_ok; [|done|done|rewrite length_app; lia|done|rewrite length_app; lia|lia|lia].
  f_equal. apply Bool.eq_true_iff_eq. rewrite bool_decide_eq_true, is_prefix_spec.
  unfold slice. rewrite length_app, Nat2Z.id, drop_app_length.
  replace (Z.to_nat (_ - len a)) with (List.length (chars set)) by lia.
  rewrite (take_ge (drop _ _)) by (rewrite ?length_drop; lia).
  change (Z.to_nat 0) with 0%nat. rewrite drop_0. split.
  - intros (_ & _ & <-). apply prefix_take.
  - intros [c ->]. rewrite length_app, take_app_length. split; [lia|]. split; [lia|done].
Qed.

Lemma cut_before c h tl : len (fst (cut c h)) <= len h /\
  (let '(a, b) := cut c (h ++ tl) in
   (if is_some b && (len a <? len h) then len a else len h) = len (fst (cut c h))).
Proof.
  pose proof (cut_spec c h) as H. destruct (cut c h) as [a [b|]], H as [-> Ha]; cbn [fst].
  - split; [rewrite length_app; lia|]. rewrite <- app_assoc. cbn. rewrite cut_app by done. cbn.
    rewrite (proj2 (Z.ltb_lt _ _)); [done|]. rewrite length_app. cbn. lia.
  - split; [lia|]. clear -Ha. induction a as [|d a IH]; cbn.
    + destruct (cut c tl) as [a [b|]]; cbn; [|done]. by destruct a.
    + rewrite elem_of_cons in Ha. rewrite (proj2 (Z.eqb_neq d c)) by naive_solver.
      specialize (IH ltac:(naive_solver)). destruct (cut c (a ++ tl)) as [a' [b|]]; cbn in *; [|done].
      destruct (Z.ltb_spec (len a') (len a)); [lia|]. by rewrite (proj2 (Z.ltb_ge _ _)) by lia.
Qed.

(** The search for one character, up to the end of [h]. *)
Lemma indexOf_char_prefix h tl c start end_ :
  clean (h ++ tl) -> c <> 0 -> len (h ++ tl) < 2 ^ 63 -> end_ = len h ->
  indexOf_char (Some (h ++ tl)) c start end_ = Ok (len (fst (cut c h))).
Proof.
  intros Hl Hc H63 ->. rewrite indexOf_char_ok by done. f_equal.
  destruct (cut_before c h tl) as [_ H]. by destruct (cut c (h ++ tl)).
Qed.

Lemma until_prefix set a b :
  (forall c, c ∈ a -> c ∉ set) -> fst (until set (a ++ b)) = a ++ fst (until set b).
Proof.
  intros Ha. induction a as [|d a IH]; cbn; [done|].
  rewrite bool_decide_false by (apply Ha; left).
  rewrite (surjective_pairing (until set (a ++ b))). cbn. f_equal. apply IH. intros c Hc. apply Ha. by right.
Qed.

(** The scheme is found by comparing the first colon with the first separator. *)
Lemma scheme_ok h :
  HASH ∉ h ->
  match scheme_of h with
  | Some (a, rest) =>
      h = a ++ COLON :: rest /\ QUESTION ∉ a /\ len (fst (cut COLON h)) = len a /\
      len a < len (fst (until (chars "/?#") h))
  | None => len (fst (until (chars "/?#") h)) <= len (fst (cut COLON h))
  end.
Proof.
  intros Hh. unfold scheme_of.
  change (chars ":/?") with [COLON; SLASH; QUESTION]. change (chars "/?#") with [SLASH; QUESTION; HASH].
  pose proof (until_spec [COLON; SLASH; QUESTION] h) as H.
  destruct (until [COLON; SLASH; QUESTION] h) as [a b], H as (-> & Ha & Hb).
  assert (forall c, c ∈ a -> c ∉ [SLASH; QUESTION; HASH]) as Ha'.
  { intros c Hc Hs. specialize (Ha c Hc). set_solver. }
  assert (COLON ∉ a) as Hcolon by (intros H; apply (Ha _ H); set_solver).
  destruct b as [|c rest].
  - rewrite app_nil_r, (cut_none COLON) by done. cbn [fst].
    pose proof (until_prefix _ a [] Ha') as E. rewrite app_nil_r in E. rewrite E. cbn.
    rewrite app_nil_r. lia.
  - destruct (Z.eqb_spec c COLON) as [->|Hc].
    + split; [done|]. split; [intros H; apply (Ha _ H); set_solver|].
      rewrite cut_app by done. split; [done|]. rewrite until_prefix by done. rewrite length_app.
      cbn [until]. rewrite bool_decide_false by decided.
      destruct (until _ rest) as [x y]. cbn. lia.
    + rewrite until_prefix by done. cbn -[COLON]. rewrite bool_decide_true.
      * cbn -[COLON]. rewrite app_nil_r. clear -Hcolon Hc. induction a as [|d a IH]; cbn -[COLON]; [lia|].
        rewrite elem_of_cons in Hcolon. rewrite (proj2 (Z.eqb_neq d COLON)) by naive_solver.
        specialize (IH ltac:(naive_solver)).
        destruct (cut COLON (a ++ c :: rest)). cbn -[COLON] in *. lia.
      * specialize (Hb c rest eq_refl). set_solver.
Qed.

Lemma cut_prefix c a b : c ∉ a -> fst (cut c (a ++ b)) = a ++ fst (cut c b).
Proof.
  induction a as [|d a IH]; cbn; intros H; [done|].
  rewrite elem_of_cons in H. rewrite (proj2 (Z.eqb_neq d c)) by naive_solver.
  rewrite (surjective_pairing (cut c (a ++ b))). cbn. f_equal. apply IH. naive_solver.
Qed.

(** The path and the query. *)
Lemma query_ok {A} (k : sp -> sp -> result A) pre r tl start end_ :
  clean (pre ++ r ++ tl) -> len (pre ++ r ++ tl) < 2 ^ 63 -> QUESTION ∉ pre ->
  start = len pre -> end_ = len (pre ++ r) ->
  (queryStart ← indexOf_char (Some (pre ++ r ++ tl)) QUESTION start end_;
   path ← substring (Some (pre ++ r ++ tl)) start queryStart;
   query ← (if queryStart <? end_
            then substring (Some (pre ++ r ++ tl)) (queryStart + 1) end_ else Ok None);
   k path query) =
  let '(path, query) := cut QUESTION r in k (some_string path) (opt_string query).
Proof.
  intros Hl H63 Hq -> ->. rewrite app_assoc in Hl, H63.
  pose proof (indexOf_char_prefix (pre ++ r) tl QUESTION (len pre) _ Hl ltac:(done) H63 eq_refl) as E.
  rewrite <- app_assoc in E. rewrite E, cut_prefix by done. cbn [mbind result_bind].
  pose proof (cut_spec QUESTION r) as H. destruct (cut QUESTION r) as [path [q|]], H as [-> _]; cbn [fst].
  - rewrite <- (app_assoc path).
    rewrite (substring_mid pre path _ (len pre)) by (rewrite ?length_app; lia).
    cbn [mbind result_bind]. rewrite !length_app. cbn [List.length].
    rewrite (proj2 (Z.ltb_lt _ _)) by lia.
    assert (pre ++ path ++ (QUESTION :: q) ++ tl = (pre ++ path ++ [QUESTION]) ++ q ++ tl) as ->.
    { by rewrite <- !app_assoc. }
    rewrite substring_mid by (rewrite !length_app; cbn; lia). done.
  - rewrite (substring_mid pre path _ (len pre)) by (rewrite ?length_app; lia).
    cbn [mbind result_bind]. by rewrite Z.ltb_irrefl.
Qed.

Lemma is_prefix_app t rest tl :
  (tl = [] \/ exists f, tl = HASH :: f) -> HASH ∉ t -> is_prefix t (rest ++ tl) = is_prefix t rest.
Proof.
  intros Htl. revert rest. induction t as [|c t IH]; intros rest Ht; [done|].
  rewrite elem_of_cons in Ht. destruct rest as [|d rest]; cbn.
  - destruct Htl as [->|[f ->]]; [done|]. by rewrite (proj2 (Z.eqb_neq c HASH)) by naive_solver.
  - rewrite IH by naive_solver. done.
Qed.

Lemma hierarchy_ok p rest tl server scheme fragment i j :
  clean (p ++ rest ++ tl) -> len (p ++ rest ++ tl) < 2 ^ 63 -> QUESTION ∉ p ->
  (tl = [] \/ exists f, tl = HASH :: f) -> i = len p -> j = len (p ++ rest) ->
  parseHierarchy (Some (p ++ rest ++ tl)) server scheme fragment i j =
  ('(authority, path, query) ← hier rest (bool_decide (tl = []));
   parseAuthority
     (mkURI (some_string (p ++ rest ++ tl)) scheme (some_string rest) authority None None (-1)
        (some_string path) (opt_string query) fragment (Some false) 0) server).
Proof.
  intros Hl H63 Hq Htl -> ->. unfold parseHierarchy.
  rewrite substring_mid by (rewrite ?length_app; lia). cbn [mbind result_bind].
  rewrite (region_prefix p (rest ++ tl) "//"); [|done|decided|done|done|done|done]. cbn [mbind result_bind].
  rewrite (is_prefix_app (chars "//")) by (done || decided).
  unfold hier. destruct (is_prefix (chars "//") rest) eqn:Ep; cbn [mbind result_bind].
  2: { rewrite query_ok by (done || (rewrite ?length_app; lia)). by destruct (cut QUESTION rest). }
  apply is_prefix_spec in Ep as [r ->]. change (chars "//") with [SLASH; SLASH] in *.
  assert (drop 2 ([SLASH; SLASH] ++ r) = r) as -> by done.
  assert (p ++ ([SLASH; SLASH] ++ r) ++ tl = (p ++ [SLASH; SLASH]) ++ r ++ tl) as El.
  { by rewrite <- !app_assoc. }
  rewrite El in *. set (pre := p ++ [SLASH; SLASH]) in *.
  assert (len pre = len p + 2) as Hpre by (unfold pre; rewrite length_app; cbn; lia).
  assert (len (p ++ [SLASH; SLASH] ++ r) = len pre + len r) as ->.
  { unfold pre. rewrite !length_app. cbn. lia. }
  assert (length (Some (pre ++ r ++ tl)) = len pre + len r + len tl) as ->.
  { unfold length. cbn. rewrite !length_app. lia. }
  assert (bool_decide (tl = []) && bool_decide (r = []) = (len p + 2 =? len pre + len r + len tl)) as ->.
  { rewrite <- bool_decide_and. rewrite <- Hpre. apply Bool.eq_true_iff_eq.
    rewrite bool_decide_eq_true, Z.eqb_eq. split; [intros [-> ->]; cbn; lia|].
    intros H. split; apply nil_length_inv; lia. }
  destruct (Z.eqb_spec (len p + 2) (len pre + len r + len tl)); [done|].
  assert (clean r) as Hr by by apply clean_app in Hl as [_ [? _]%clean_app].
  rewrite (indexOf_chars_ok pre r tl "/?"); [|done|decided|lia|lia|rewrite !length_app; lia].
  cbn [mbind result_bind].
  pose proof (until_spec (chars "/?") r) as H. destruct (until (chars "/?") r) as [au r2], H as (-> & Ha & _).
  cbn [fst].
  assert (QUESTION ∉ pre ++ au) as Hq'.
  { unfold pre. rewrite !elem_of_app. intros [[H|H]|H]; [done| |by apply (Ha _ H); decided].
    revert H. decided. }
  match goal with |- ((if ?c then ?x else ?y) ≫= _) ≫= _ = _ =>
    assert ((if c then x else y) = Ok (if bool_decide (au = []) then None else some_string au)) as -> end.
  { case_bool_decide as Hn.
    - subst au. cbn [List.length]. by rewrite (proj2 (Z.ltb_ge _ _)) by lia.
    - assert (0 < len au) by (destruct au; [done|cbn [List.length]; lia]).
      rewrite (proj2 (Z.ltb_lt _ _)) by lia. rewrite <- (app_assoc au), substring_mid by lia. done. }
  cbn [mbind result_bind].
  assert (pre ++ (au ++ r2) ++ tl = (pre ++ au) ++ r2 ++ tl) as -> by by rewrite <- !app_assoc.
  rewrite query_ok;
    [|by rewrite <- !app_assoc in *|by rewrite <- !app_assoc in *|done|rewrite length_app; lia|
      rewrite !length_app; lia].
  by destruct (cut QUESTION r2).
Qed.

Lemma parse_eq l server :
  clean l -> len l < 2 ^ 63 -> parseURI (Some l) server = parse_ref l server.
Proof.
  intros Hl H63. unfold parse_ref. case_bool_decide as Hn; [by subst l|].
  pose proof (cut_spec HASH l) as H. destruct (cut HASH l) as [h fr] eqn:Ecut.
  set (tl := match fr with None => [] | Some f => HASH :: f end).
  assert (l = h ++ tl /\ HASH ∉ h) as [El Hh].
  { destruct fr; cbn in *; [done|]. by rewrite app_nil_r. }
  assert (length (Some l) = len h + len tl) as Elen by (unfold length; cbn; rewrite El, length_app; lia).
  assert (tl = [] \/ exists f, tl = HASH :: f) as Htl by (destruct fr; [right; by eexists|by left]).
  assert (bool_decide (tl = []) = negb (is_some fr)) as Elast by by destruct fr.
  unfold parseURI. rewrite Elen.
  assert (indexOf_char (Some l) HASH 0 (len h + len tl) = Ok (len h)) as ->.
  { rewrite indexOf_char_ok, Ecut by done. destruct fr; cbn -[HASH tl Z.add]; [|].
    - rewrite (proj2 (Z.ltb_lt _ _)); [done|]. subst tl. cbn [List.length]. lia.
    - subst tl. cbn [List.length]. f_equal. lia. }
  cbn [mbind result_bind].
  match goal with |- (if ?c then ?x else ?y) ≫= _ = _ =>
    assert ((if c then x else y) = Ok (opt_string fr)) as -> end.
  { subst tl. destruct fr as [f|]; cbn [List.length].
    - rewrite (proj2 (Z.ltb_lt _ _)) by lia. rewrite El. change (HASH :: f) with ([HASH] ++ f).
      rewrite app_assoc, substring_end; [done|]. rewrite length_app. cbn. lia.
    - by rewrite (proj2 (Z.ltb_ge _ _)) by lia. }
  cbn [mbind result_bind].
  assert (l = h ++ tl) as El' by done. rewrite El' in Hl, H63.
  assert (indexOf_char (Some l) COLON 0 (len h) = Ok (len (fst (cut COLON h)))) as ->.
  { rewrite El'. by apply indexOf_char_prefix. }
  assert (indexOf_chars (Some l) (lit "/?#") 0 (len h) = Ok (len (fst (until (chars "/?#") h)))) as ->.
  { rewrite El'. apply (indexOf_chars_ok [] h tl); [by apply clean_app in Hl as [? _]|decided|done|done|].
    cbn [app]. rewrite <- El'. destruct l; [done|cbn [List.length]; lia]. }
  cbn [mbind result_bind]. pose proof (scheme_ok h Hh) as Hs.
  destruct (scheme_of h) as [[a rest]|].
  2: { rewrite (proj2 (Z.ltb_ge _ _)) by done. cbn [is_some andb]. rewrite <- Elast, El'.
       apply (hierarchy_ok [] h tl); try done. set_solver. }
  destruct Hs as (Eh & Hq & -> & Hlt). rewrite (proj2 (Z.ltb_lt _ _)) by done.
  assert (l = a ++ [COLON] ++ rest ++ tl) as Ea by by rewrite El', Eh, <- app_assoc.
  assert (substring (Some l) 0 (len a) = Ok (some_string a)) as ->.
  { rewrite Ea. by apply (substring_mid [] a). }
  cbn [mbind result_bind].
  assert (len h = len a + 1 + len rest) as Elh by (rewrite Eh, length_app; cbn [List.length]; lia).
  assert ((len a + 1 =? len h) = bool_decide (rest = [])) as ->.
  { apply Bool.eq_true_iff_eq. rewrite bool_decide_eq_true, Z.eqb_eq.
    split; [intros; apply nil_length_inv; lia|intros ->; cbn [List.length] in *; lia]. }
  cbn [is_some andb]. destruct (decide (rest = [])) as [Hr|Hr];
    [by rewrite !bool_decide_true by done|rewrite !bool_decide_false by done].
  assert (l = (a ++ [COLON]) ++ rest ++ tl) as Ep by by rewrite Ea, <- app_assoc.
  assert (len (a ++ [COLON]) = len a + 1) as Hp by (rewrite length_app; cbn; lia).
  rewrite <- El', Ep in Hl, H63.
  assert (regionMatches_chars (Some l) (len a + 1) (lit "/") 0 1 = Ok (is_prefix (chars "/") rest)) as ->.
  { rewrite Ep, (region_prefix (a ++ [COLON]) (rest ++ tl) "/"); [|done|decided|done|done|done|lia].
    by rewrite (is_prefix_app (chars "/")) by (done || decided). }
  cbn [mbind result_bind]. destruct (is_prefix (chars "/") rest); cbn [negb].
  - rewrite <- Elast, Ep. apply hierarchy_ok; try done.
    + rewrite elem_of_app. intros [?|H']; [done|]. revert H'. decided.
    + rewrite !length_app. cbn [List.length]. lia.
  - rewrite Ep, substring_mid by lia. done.
Qed.

(** C38: The parser, which searches the whole string with indices, computes what a
    parser on lists computes that cuts off the fragment at the first "#", the scheme at a colon in
    front of every "/" and "?", the authority after "//" and the query at the first "?". *)
Theorem parse_refines l server :
  clean l -> len l < 2 ^ 63 -> parseURI (Some l) server = parse_ref l server.
Proof. apply parse_eq. Qed.

(** ** Printing and parsing *)

Definition opt {A} (f : A -> list Z) (o : option A) : list Z := match o with Some a => f a | None => [] end.

(** The text of five parts. *)
Definition tail_text (path : list Z) (query : option (list Z)) : list Z :=
  path ++ opt (cons QUESTION) query.
Definition specific_text (authority : option (list Z)) (path : list Z) (query : option (list Z)) : list Z :=
  opt (fun a => chars "//" ++ a) authority ++ tail_text path query.
Definition text (scheme authority : option (list Z)) (path : list Z) (query fragment : option (list Z)) :
    list Z :=
  opt (fun s => s ++ [COLON]) scheme ++ specific_text authority path query ++ opt (cons HASH) fragment.

(** No character of [set] is in [l]. *)
Definition avoids (set : string) (l : list Z) : Prop := Forall (fun c => c ∉ chars set) l.

#[export] Instance avoids_dec set l : Decision (avoids set l).
Proof. unfold avoids. apply _. Defined.

Lemma avoids_spec set l c : avoids set l -> c ∈ chars set -> c ∉ l.
Proof. intros H Hc Hl. eapply Forall_forall in H; done. Qed.

Lemma avoids_sub set set' l c :
  avoids set l -> Forall (fun c => c ∈ chars set) (chars set') -> c ∈ l -> c ∉ chars set'.
Proof. intros H Hs Hc Hc'. eapply Forall_forall in Hs; [|done]. by eapply avoids_spec. Qed.

Definition option_all {A} (P : A -> Prop) (o : option A) : Prop := match o with Some a => P a | None => True end.

#[export] Instance option_all_dec {A} (P : A -> Prop) `{!forall a, Decision (P a)} o :
  Decision (option_all P o).
Proof. destruct o; cbn; apply _. Defined.

(** Parts that a URI can have: no part has a character that ends it, an authority is not empty, the
    path is absolute or empty, and what would be taken for something else does not occur. *)
Record parts_ok (scheme authority : option (list Z)) (path : list Z) (query fragment : option (list Z)) :
    Prop := {
  ok_scheme : option_all (avoids ":/?#") scheme;
  ok_authority : option_all (fun a => a <> [] /\ avoids "/?#" a) authority;
  ok_path : avoids "?#" path /\ (path = [] \/ chars "/" `prefix_of` path);
  ok_query : option_all (avoids "#") query;
  ok_specific : is_some scheme = true -> authority <> None \/ path <> [];
  ok_slashes : authority = None -> ~ chars "//" `prefix_of` path;
  ok_text : text scheme authority path query fragment <> [];
}.

Section parts.
Context (scheme authority : option (list Z)) (path : list Z) (query fragment : option (list Z)).
Context (Hok : parts_ok scheme authority path query fragment).

Lemma tail_head c l : tail_text path query = c :: l -> c = SLASH \/ c = QUESTION.
Proof.
  destruct Hok as [_ _ [_ Hp] _ _ _ _]. unfold tail_text. destruct Hp as [->|[p ->]].
  - destruct query; cbn; [|done]. intros [= <- _]. by right.
  - intros [= <- _]. by left.
Qed.

Lemma specific_no_hash : HASH ∉ specific_text authority path query.
Proof.
  destruct Hok as [_ Ha [Hp _] Hq _ _ _]. unfold specific_text, tail_text. rewrite !elem_of_app.
  assert (HASH ∉ path) by (eapply avoids_spec; [done|decided]).
  intros [H'|[H'|H']]; [|done|].
  - destruct authority as [a|]; cbn -[chars] in *; [|by apply elem_of_nil in H'].
    apply elem_of_app in H' as [H'|H']; [revert H'; decided|].
    eapply avoids_spec; [apply Ha| |exact H']. decided.
  - destruct query as [q|]; cbn in *; [|by apply elem_of_nil in H'].
    apply elem_of_cons in H' as [H'|H']; [done|]. eapply avoids_spec; [apply Hq| |exact H']. decided.
Qed.

Lemma hier_text last :
  hier (specific_text authority path query) last =
  Ok (opt_string authority, path, query).
Proof.
  pose proof tail_head as Htail. destruct Hok as [_ Ha [Hp Hps] Hq _ Hs _].
  assert (cut QUESTION (tail_text path query) = (path, query)) as Ecut.
  { assert (QUESTION ∉ path) by (eapply avoids_spec; [done|decided]). unfold tail_text.
    destruct query; cbn; [by apply cut_app|]. rewrite app_nil_r. by apply cut_none. }
  unfold hier, specific_text. destruct authority as [a|]; cbn [opt].
  - destruct Ha as [Hne Ha].
    assert (is_prefix (chars "//") ((chars "//" ++ a) ++ tail_text path query) = true) as ->.
    { apply is_prefix_spec. rewrite <- app_assoc. by eexists. }
    assert (drop 2 ((chars "//" ++ a) ++ tail_text path query) = a ++ tail_text path query) as -> by done.
    rewrite bool_decide_false, andb_false_r by (by destruct a).
    rewrite until_app, Ecut.
    + by rewrite bool_decide_false.
    + intros c. apply (avoids_sub "/?#"); [done|decided].
    + intros c b' [->| ->]%Htail; decided.
  - rewrite app_nil_l, Ecut. destruct (is_prefix _ _) eqn:E; [|done].
    apply is_prefix_spec in E as [r E]. exfalso. apply (Hs eq_refl).
    change (chars "//") with [SLASH; SLASH] in *. unfold tail_text in E.
    destruct path as [|c [|d p]]; cbn in E.
    + destruct query; done.
    + destruct query; done.
    + injection E as -> -> _. by eexists.
Qed.

Lemma scheme_text :
  scheme_of (opt (fun s => s ++ [COLON]) scheme ++ specific_text authority path query) =
  (fun s => (s, specific_text authority path query)) <$> scheme.
Proof.
  pose proof tail_head as Htail. destruct Hok as [Hsc _ _ _ _ _ _]. clear Hok.
  unfold scheme_of. destruct scheme as [s|]; cbn [opt].
  - rewrite <- app_assoc. cbn [app]. rewrite until_app; [done| |by intros c b [= <- _]; decided].
    intros c. apply (avoids_sub ":/?#"); [done|decided].
  - rewrite app_nil_l. unfold specific_text. destruct authority as [a|]; [done|].
    cbn [opt app]. destruct (tail_text path query) as [|c l] eqn:E; [done|].
    destruct (Htail c l eq_refl) as [->| ->]; done.
Qed.

(** The parser takes the text apart into the parts it was made of. *)
Lemma parse_text server :
  parse_ref (text scheme authority path query fragment) server =
  parseAuthority
    (mkURI (some_string (text scheme authority path query fragment)) (opt_string scheme)
       (some_string (specific_text authority path query)) (opt_string authority) None None (-1)
       (some_string path) (opt_string query) (opt_string fragment) (Some false) 0) server.
Proof.
  pose proof specific_no_hash as Hh. pose proof hier_text as Hhier. pose proof scheme_text as Hst.
  destruct Hok as [Hsc Ha [Hp Hps] Hq Hsp Hs Ht]. clear Hok.
  unfold parse_ref. rewrite bool_decide_false by done.
  assert (cut HASH (text scheme authority path query fragment) =
    (opt (fun s => s ++ [COLON]) scheme ++ specific_text authority path query, fragment)) as ->.
  { unfold text. rewrite app_assoc. set (h := _ ++ specific_text _ _ _).
    assert (HASH ∉ h).
    { unfold h. rewrite elem_of_app. intros [H|H]; [|done]. destruct scheme as [s|]; [|by apply elem_of_nil in H].
      cbn in H. apply elem_of_app in H as [H|H]; [|revert H; decided].
      eapply avoids_spec; [exact Hsc| |exact H]. decided. }
    destruct fragment; cbn [opt]; [by apply cut_app|]. rewrite app_nil_r. by apply cut_none. }
  rewrite Hst. destruct scheme as [s|]; cbn [fmap option_fmap option_map is_some andb opt].
  - assert (specific_text authority path query <> []) as Hne.
    { unfold specific_text, tail_text. destruct (Hsp eq_refl) as [Hn|Hn]; [by destruct authority|].
      destruct authority; [done|]. by destruct path. }
    rewrite bool_decide_false by done.
    assert (is_prefix (chars "/") (specific_text authority path query) = true) as ->.
    { apply is_prefix_spec. unfold specific_text, tail_text. destruct authority as [a|].
      - exists (SLASH :: a ++ path ++ opt (cons QUESTION) query). done.
      - destruct Hps as [->|[p ->]]; [by destruct (Hsp eq_refl)|]. cbn [opt app]. by eexists. }
    cbn [negb]. by rewrite Hhier.
  - by rewrite Hhier.
Qed.
End parts.

(** ** The authority *)

Record same_parts (u u' : URI) : Prop := {
  same_string : mString u' = mString u;
  same_scheme : mScheme u' = mScheme u;
  same_specific : mSchemeSpecificPart u' = mSchemeSpecificPart u;
  same_authority : mAuthority u' = mAuthority u;
  same_path : mPath u' = mPath u;
  same_query : mQuery u' = mQuery u;
  same_fragment : mFragment u' = mFragment u;
  same_opaque : mOpaque u' = mOpaque u;
}.

(** Takes a call that gives [Ok] apart. *)
Ltac ok_inv H :=
  repeat match type of H with
  | (_ ≫= _) = Ok _ => apply result_bind_Ok in H as (? & ? & H)
  | (let '(_, _) := ?p in _) = Ok _ => destruct p
  | (if ?b then _ else _) = Ok _ => destruct b; try discriminate H
  | match ?o with Some _ => _ | None => _ end = Ok _ => destruct o; try discriminate H
  end.

Lemma parseAuthority_same u server u' : parseAuthority u server = Ok u' -> same_parts u u'.
Proof.
  unfold parseAuthority. intros H. destruct (mAuthority u) as [au|] eqn:Ea; [|by injection H as <-].
  ok_inv H; injection H as <-; done.
Qed.

Lemma find_last_end c l : c <> 0 -> find_last c (l ++ [0]) = find_last c l.
Proof.
  intros Hc. induction l as [|d l IH]; cbn; [by destruct c|]. by rewrite IH.
Qed.

Lemma string_lastIndexOf l c :
  clean l -> c <> 0 -> lastIndexOf_char (Some l) c = Ok (index 0 (find_last c l)).
Proof.
  intros Hl Hc. unfold lastIndexOf_char. cbn. rewrite strrchr_clean by done.
  cbn. by rewrite find_last_end.
Qed.

Lemma Integer_total l :
  clean l -> ascii l ->
  (exists z, Numbers.Integer_valueOf (some_string l) = Ok z) \/
  Numbers.Integer_valueOf (some_string l) = Throw NumberFormatException.
Proof.
  intros Hl Ha. unfold Numbers.Integer_valueOf, Numbers.Integer_valueOf_radix, Numbers.parse, some_string.
  destruct l as [|c l]; [by right|].
  assert (isEmpty (Some (c :: l)) = false) as -> by done.
  assert (charAt (Some (c :: l)) 0 = Ok c) as -> by done. cbn [mbind result_bind].
  inversion Ha. unfold isspace. rewrite ctype_ascii by done. cbn [mbind result_bind].
  destruct (is_space c); [by right|]. unfold Numbers.strtol.
  change (c_str (Some (c :: l))) with (Some ((c :: l) ++ [0])). cbn [deref mbind result_bind].
  rewrite cstring_clean by done. cbn [mbind result_bind].
  destruct (Numbers.sign _) as [neg s1], (Numbers.prefix 10 s1) as [base s2],
    (Numbers.read_digits base 0 s2) as [n rest].
  change ((10 =? 0) || ((2 <=? 10) && (10 <=? 36))) with true. cbn [orb andb].
  destruct (List.length s2 <=? List.length rest)%nat; cbn [mbind result_bind];
    (case_match; [by right|left; by eexists]).
Qed.

Lemma parsePort_total l : clean l -> ascii l -> exists p, parsePort false (some_string l) = Ok p.
Proof.
  intros Hl Ha. unfold parsePort. destruct (Integer_total l Hl Ha) as [[z ->]| ->]; [|by eexists].
  destruct (z <? 0); by eexists.
Qed.

Lemma splitUserInfo_ok l :
  clean l -> len l < 2 ^ 63 ->
  splitUserInfo (Some l) =
  Ok (match cut AT l with (a, Some b) => (some_string a, Some b) | (a, None) => (None, Some a) end).
Proof.
  intros Hl H63. unfold splitUserInfo. rewrite string_indexOf_char by done. cbn [mbind result_bind].
  pose proof (cut_spec AT l) as H. destruct (cut AT l) as [a [b|]], H as [-> Ha]; cbn [is_some].
  - rewrite length_app in H63. rewrite (proj2 (Z.eqb_neq _ _)) by lia. cbn [negb].
    rewrite !u64_id by lia. rewrite substring_begin by done. cbn [mbind result_bind].
    change (AT :: b) with ([AT] ++ b). rewrite app_assoc, substring_end; [done|].
    rewrite length_app. cbn. lia.
  - by rewrite Z.eqb_refl.
Qed.

(** Where the first [c] of a string in two parts is. *)
Lemma cut_two c a b :
  let '(x, y) := cut c (a ++ b) in
  (c ∈ a -> is_some y = true /\ len x < len a) /\ (c ∉ a -> c ∈ b -> is_some y = true /\ len a <= len x) /\
  (c ∉ a -> c ∉ b -> is_some y = false).
Proof.
  induction a as [|d a IH]; cbn.
  - pose proof (cut_spec c b) as H.
    destruct (cut c b) as [x [y|]], H as [-> H]; cbn; (split; [by intros ?%elem_of_nil|]).
    + split; [intros _ _; split; [done|lia]|]. intros _ []. set_solver.
    + split; [by intros _ ?|done].
  - destruct (Z.eqb_spec d c) as [->|Hd].
    + split; [|set_solver]. intros _. cbn. split; [done|lia].
    + destruct (cut c (a ++ b)) as [x y]. destruct IH as (H1 & H2 & H3). cbn.
      split; [|split].
      * intros [?|H]%elem_of_cons; [done|]. destruct (H1 H). split; [done|lia].
      * intros H Hb. destruct (H2 ltac:(set_solver) Hb). split; [done|lia].
      * intros H Hb. apply H3; set_solver.
Qed.

(** The port is what follows the last colon, unless the first "]" comes after it. *)
Lemma splitHostPort_ok l server :
  clean l -> len l < 2 ^ 63 ->
  (exists h p, l = h ++ COLON :: p /\ COLON ∉ p /\ (RBRACKET ∈ h \/ RBRACKET ∉ p) /\
    splitHostPort (Some l) server =
    if bool_decide (p = []) then Ok (Some (some_string h, -1))
    else port ← parsePort server (some_string p);
         Ok (match port with Some port => Some (some_string h, port) | None => None end)) \/
  ((COLON ∉ l \/ exists h p, l = h ++ COLON :: p /\ COLON ∉ p /\ RBRACKET ∉ h /\ RBRACKET ∈ p) /\
    splitHostPort (Some l) server = Ok (Some (some_string l, -1))).
Proof.
  intros Hl H63. unfold splitHostPort. rewrite string_lastIndexOf, string_indexOf_char by done.
  cbn [mbind result_bind]. pose proof (find_last_spec COLON l) as H.
  destruct (find_last COLON l) as [i|]; cbn [index].
  2: { right. by split; [left|]. }
  destruct H as (h & p & -> & -> & Hp). rewrite Z.add_0_l. rewrite length_app in H63.
  rewrite (proj2 (Z.eqb_neq _ _)) by lia. cbn [negb andb].
  pose proof (cut_two RBRACKET h (COLON :: p)) as Hcut.
  set (e := let '(a, b) := cut RBRACKET (h ++ COLON :: p) in if is_some b then len a else -1).
  assert ((RBRACKET ∈ h \/ RBRACKET ∉ p) /\ e < len h \/ RBRACKET ∉ h /\ RBRACKET ∈ p /\ len h <= e) as He.
  { unfold e. destruct (cut RBRACKET (h ++ COLON :: p)) as [x y], Hcut as (H1 & H2 & H3).
    destruct (decide (RBRACKET ∈ h)) as [Hh|Hh].
    - left. destruct (H1 Hh) as [-> ?]. split; [by left|done].
    - destruct (decide (RBRACKET ∈ p)) as [Hp'|Hp'].
      + right. destruct (H2 Hh) as [-> ?]; [by right|done].
      + left. rewrite H3; [split; [by right|lia]|done|]. intros [H|H]%elem_of_cons; [done|done]. }
  destruct He as [[Hb He]|(Hh & Hb & He)].
  - left. exists h, p. split; [done|]. split; [done|]. split; [done|].
    rewrite (proj2 (Z.ltb_lt _ _)) by done. rewrite !u64_id by lia.
    rewrite substring_begin by done. cbn [mbind result_bind].
    assert (length (Some (h ++ COLON :: p)) = len h + 1 + len p) as ->.
    { unfold length. cbn. rewrite length_app. cbn. lia. }
    case_bool_decide as Hn.
    + subst p. by rewrite (proj2 (Z.ltb_ge _ _)) by (cbn; lia).
    + rewrite (proj2 (Z.ltb_lt _ _)) by (destruct p; [done|cbn [List.length]; lia]).
      change (COLON :: p) with ([COLON] ++ p). rewrite app_assoc, substring_end; [done|].
      rewrite length_app. cbn. lia.
  - right. split; [right; by exists h, p|]. by rewrite (proj2 (Z.ltb_ge _ _)) by done.
Qed.

(** Without the demand for a server the authority never makes a URI invalid. *)
Lemma parseAuthority_total u au :
  mAuthority u = some_string au -> clean au -> ascii au -> len au < 2 ^ 63 ->
  exists u', parseAuthority u false = Ok u'.
Proof.
  intros Ea Hc Ha H63. unfold parseAuthority. rewrite Ea. cbn [some_string].
  unfold some_string. rewrite splitUserInfo_ok by done. cbn [mbind result_bind].
  assert (exists ui r, clean r /\ ascii r /\ len r < 2 ^ 63 /\
    match cut AT au with (a, Some b) => (some_string a, Some b) | (a, None) => (None, Some a) end =
    (ui, Some r)) as (ui & r & Hcr & Har & Hr & ->).
  { pose proof (cut_spec AT au) as H. destruct (cut AT au) as [a [b|]], H as [-> _].
    - apply clean_app in Hc as [_ [_ Hc]%clean_cons]. apply Forall_app in Ha as [_ Ha].
      inversion Ha. rewrite length_app in H63. cbn in H63. exists (some_string a), b.
      split; [done|]. split; [done|]. split; [lia|done].
    - by exists None, a. }
  destruct (splitHostPort_ok r false Hcr Hr) as [(h & p & -> & _ & _ & ->)|[_ ->]];
    cbn [mbind result_bind].
  - apply clean_app in Hcr as [_ [_ Hcp]%clean_cons]. apply Forall_app in Har as [_ Har]. inversion Har.
    case_bool_decide; [cbn; case_match; by eexists|].
    destruct (parsePort_total p) as [[port|] ->]; [done|done|cbn; case_match; by eexists|by eexists].
  - cbn. case_match; by eexists.
Qed.

(** ** The constructors *)

Definition all_clean (scheme authority : option (list Z)) (path : list Z)
    (query fragment : option (list Z)) : Prop :=
  option_all clean scheme /\ option_all clean authority /\ clean path /\ option_all clean query /\
  option_all clean fragment.

Lemma text_clean scheme authority path query fragment :
  all_clean scheme authority path query fragment -> clean (text scheme authority path query fragment).
Proof.
  intros (Hs & Ha & Hp & Hq & Hf). unfold text, specific_text, tail_text. rewrite !clean_app.
  split; [|split; [split; [|split]|]]; [..|done| |];
    match goal with |- clean (opt _ ?o) => destruct o; cbn -[chars]; [|apply clean_nil] end;
    rewrite ?clean_app, ?clean_cons; (split; [done|]) || (split; [|done]); decided || done.
Qed.

Lemma put_string_ok l b : clean l -> put (Some l) b = Ok (b ++ l).
Proof. apply StringBuilder.append_clean. Qed.

(** The texts the builder is given, one after the other. *)
Lemma maybe_ok o b (k : String -> list Z -> result (list Z)) (f : list Z -> list Z) :
  option_all clean o -> (forall l b, clean l -> k (Some l) b = Ok (b ++ f l)) ->
  maybe (opt_string o) k b = Ok (b ++ opt f o).
Proof.
  intros Ho Hk. destruct o as [l|]; cbn; [by apply Hk|]. by rewrite app_nil_r.
Qed.

Lemma slashes_ok b : StringBuilder.append_chars b (lit "//") = Ok (b ++ chars "//").
Proof. reflexivity. Qed.

Lemma relativePath_ok scheme path :
  path = [] \/ chars "/" `prefix_of` path -> relativePath (opt_string scheme) (some_string path) = Ok false.
Proof. intros [->|[p ->]]; by destruct scheme. Qed.

(** The scheme, which both constructors print first. *)
Lemma scheme_build scheme b :
  option_all clean scheme ->
  maybe (opt_string scheme) (fun s b => b ← put s b; Ok (put_char COLON b)) b =
  Ok (b ++ opt (fun s => s ++ [COLON]) scheme).
Proof.
  intros Hs. apply (maybe_ok scheme b _ (fun s => s ++ [COLON])); [done|].
  intros l b' Hl. rewrite put_string_ok by done. cbn [mbind result_bind].
  unfold put_char, StringBuilder.append_char. by rewrite <- app_assoc.
Qed.

(** The path, the query and the fragment, which they print last. *)
Lemma tail_build {A} b path query fragment (k : String -> result A) :
  clean b -> clean path -> option_all clean query -> option_all clean fragment ->
  clean (b ++ tail_text path query ++ opt (cons HASH) fragment) ->
  (b ← maybe (some_string path) put b;
   b ← maybe (opt_string query) (fun s b => put s (put_char QUESTION b)) b;
   b ← maybe (opt_string fragment) (fun s b => put s (put_char HASH b)) b;
   s ← StringBuilder.toString b;
   k s) = k (Some (b ++ tail_text path query ++ opt (cons HASH) fragment)).
Proof.
  intros Hb Hp Hq Hf Hc.
  change (some_string path) with (opt_string (Some path)).
  rewrite (maybe_ok (Some path) b put id); [|done|intros; by apply put_string_ok].
  cbn [mbind result_bind opt id].
  rewrite (maybe_ok query _ _ (cons QUESTION)); [|done|].
  2: { intros l b' Hl. rewrite put_string_ok by done. unfold put_char, StringBuilder.append_char.
       by rewrite <- app_assoc. }
  cbn [mbind result_bind].
  rewrite (maybe_ok fragment _ _ (cons HASH)); [|done|].
  2: { intros l b' Hl. rewrite put_string_ok by done. unfold put_char, StringBuilder.append_char.
       by rewrite <- app_assoc. }
  cbn [mbind result_bind]. unfold tail_text in *. rewrite <- !app_assoc in *.
  by rewrite StringBuilder.toString_clean.
Qed.

Lemma of_parts_text scheme authority path query fragment :
  parts_ok scheme authority path query fragment -> all_clean scheme authority path query fragment ->
  of_parts (opt_string scheme) (opt_string authority) (some_string path) (opt_string query)
    (opt_string fragment) =
  parseURI (Some (text scheme authority path query fragment)) false.
Proof.
  intros Hok Hc. pose proof (text_clean _ _ _ _ _ Hc) as Ht. destruct Hc as (Hs & Ha & Hp & Hq & Hf).
  unfold of_parts. rewrite relativePath_ok by apply Hok. cbn [mbind result_bind].
  rewrite scheme_build by done. cbn [mbind result_bind app].
  rewrite (maybe_ok authority _ _ (fun a => chars "//" ++ a)); [|done|].
  2: { intros l b Hl. rewrite slashes_ok. cbn [mbind result_bind]. rewrite put_string_ok by done.
       by rewrite <- app_assoc. }
  cbn [mbind result_bind]. unfold text, specific_text in *. rewrite <- !app_assoc in Ht.
  rewrite tail_build; [by rewrite <- !app_assoc| |done|done|done|by rewrite <- !app_assoc].
  rewrite app_assoc in Ht. by apply clean_app in Ht as [? _].
Qed.

(** A URI made of parts has these parts, and so has the one parsed from their text. *)
Lemma of_parts_ok scheme authority path query fragment :
  parts_ok scheme authority path query fragment -> all_clean scheme authority path query fragment ->
  option_all ascii authority -> len (text scheme authority path query fragment) < 2 ^ 63 ->
  exists u,
    of_parts (opt_string scheme) (opt_string authority) (some_string path) (opt_string query)
      (opt_string fragment) = Ok u /\
    of_spec (some_string (text scheme authority path query fragment)) = Ok u /\
    mString u = some_string (text scheme authority path query fragment) /\
    mScheme u = opt_string scheme /\ mAuthority u = opt_string authority /\
    mPath u = some_string path /\ mQuery u = opt_string query /\ mFragment u = opt_string fragment /\
    mOpaque u = Some false.
Proof.
  intros Hok Hc Ha H63. rewrite of_parts_text by done.
  pose proof (text_clean _ _ _ _ _ Hc) as Ht.
  pose proof (parse_text _ _ _ _ _ Hok false) as E.
  set (u0 := mkURI _ _ _ _ _ _ _ _ _ _ _ _) in E.
  assert (exists u, parseAuthority u0 false = Ok u) as [u Hu].
  { destruct authority as [au|]; [|by eexists].
    apply (parseAuthority_total u0 au); [done|apply Hc|done|].
    assert (len au <= len (text scheme (Some au) path query fragment)); [|lia].
    unfold text, specific_text. rewrite !length_app. cbn [opt]. rewrite length_app. lia. }
  exists u. cbn [of_spec some_string]. rewrite parse_eq, E by done.
  by pose proof (parseAuthority_same _ _ _ Hu) as [Es ? ? ? ? ? ? ?].
Qed.

(** A URI made of parts has these parts: the constructor prints them and its parser
    finds them again, and parsing the string of the URI does so too. *)
Theorem uri_parts scheme authority path query fragment :
  parts_ok scheme authority path query fragment -> all_clean scheme authority path query fragment ->
  option_all ascii authority -> len (text scheme authority path query fragment) < 2 ^ 63 ->
  exists u,
    of_parts (opt_string scheme) (opt_string authority) (some_string path) (opt_string query)
      (opt_string fragment) = Ok u /\
    mScheme u = opt_string scheme /\ mAuthority u = opt_string authority /\
    mPath u = some_string path /\ mQuery u = opt_string query /\ mFragment u = opt_string fragment /\
    mOpaque u = Some false /\ of_spec (mString u) = Ok u.
Proof.
  intros Hok Hc Ha H63. destruct (of_parts_ok _ _ _ _ _ Hok Hc Ha H63) as (u & ? & ? & Es & ?).
  exists u. rewrite Es. by destruct_and!.
Qed.

(** A path that is not given is the empty one. *)
Lemma of_parts_no_path scheme authority query fragment :
  of_parts scheme authority None query fragment = of_parts scheme authority (some_string []) query fragment.
Proof.
  unfold of_parts. assert (relativePath scheme None = relativePath scheme (some_string [])) as -> by by destruct scheme.
  destruct (relativePath scheme (some_string [])) as [[]| | |]; [done|cbn [mbind result_bind]|done..].
  destruct (maybe scheme _ []) as [b1| | |]; [cbn [mbind result_bind]|done..].
  destruct (maybe authority _ b1) as [b2| | |]; [cbn [mbind result_bind]|done..].
  assert (maybe (some_string []) put b2 = Ok b2) as ->; [|done].
  change (put (Some []) b2 = Ok b2). rewrite put_string_ok by apply clean_nil. by rewrite app_nil_r.
Qed.

(** What a server-based authority can be made of. *)
Record server_ok (userInfo : option (list Z)) (host : list Z) (port : Z) : Prop := {
  ok_user : option_all (avoids "@/?#") userInfo;
  ok_host : host <> [] /\ avoids "@/?#" host /\
    (avoids ":[]" host \/ exists h, host = [LBRACKET] ++ h ++ [RBRACKET] /\ avoids "]" h);
  ok_port : port = -1 \/ 0 <= port < 2 ^ 31;
}.

Definition server_text (userInfo : option (list Z)) (host : list Z) (port : Z) : list Z :=
  opt (fun u => u ++ [AT]) userInfo ++ host ++ if port =? -1 then [] else COLON :: decimal port.

Lemma last_unique (c : Z) a b a' b' :
  a ++ c :: b = a' ++ c :: b' -> c ∉ b -> c ∉ b' -> a = a' /\ b = b'.
Proof.
  intros [(k & -> & H)|(k & -> & H)]%app_eq_inv Hb Hb'; destruct k as [|d k]; cbn in H.
  - injection H as ->. by rewrite app_nil_r.
  - injection H as -> ->. set_solver.
  - injection H as ->. by rewrite app_nil_r.
  - injection H as -> ->. set_solver.
Qed.

Lemma decimal_port port : 0 <= port < 2 ^ 31 ->
  decimal port <> [] /\ Forall Numbers.is_digit (decimal port).
Proof.
  intros H. unfold decimal. rewrite (proj2 (Z.ltb_ge _ _)) by lia.
  destruct (Numbers.digits_spec 20 port []) as (ds & -> & Hne & Hds & _); [lia..|].
  by rewrite app_nil_r.
Qed.

Lemma digits_avoid c ds : Forall Numbers.is_digit ds -> c < 48 \/ 57 < c -> c ∉ ds.
Proof. intros H Hc Hi. eapply Forall_forall in H; [|done]. unfold Numbers.is_digit in H. lia. Qed.

Lemma parsePort_printed server port :
  0 <= port < 2 ^ 31 -> parsePort server (some_string (decimal port)) = Ok (Some port).
Proof.
  intros H. unfold parsePort, Numbers.Integer_valueOf, Numbers.Integer_valueOf_radix, some_string.
  rewrite Numbers.parse_printed by lia. unfold Numbers.clamp. rewrite Z.min_l, Z.max_r, i32_id by lia.
  by rewrite (proj2 (Z.ltb_ge _ _)) by lia.
Qed.

Lemma splitHostPort_text userInfo host port server :
  server_ok userInfo host port -> clean host ->
  let l := host ++ if port =? -1 then [] else COLON :: decimal port in
  len l < 2 ^ 63 -> splitHostPort (Some l) server = Ok (Some (some_string host, port)).
Proof.
  intros [_ (Hne & _ & Hh) Hp] Hc l H63.
  destruct Hp as [->|Hp].
  - subst l. rewrite Z.eqb_refl, app_nil_r in *.
    destruct (splitHostPort_ok host server Hc H63) as [(h & p & E & Hcp & Hr & _)|[_ ->]]; [exfalso|done].
    destruct Hh as [Hh|(h' & -> & Hh)].
    + assert (COLON ∉ host) as H by (eapply avoids_spec; [exact Hh|decided]). apply H. rewrite E. set_solver.
    + assert (RBRACKET ∉ h') as Hn by (eapply avoids_spec; [exact Hh|decided]).
      destruct p as [|x p] using rev_ind.
      { rewrite app_assoc in E. apply app_inj_tail in E as [_ E]. done. }
      change ([LBRACKET] ++ h' ++ [RBRACKET]) with ((LBRACKET :: h') ++ [RBRACKET]) in E.
      change (h ++ COLON :: p ++ [x]) with (h ++ (COLON :: p) ++ [x]) in E.
      rewrite app_assoc in E. apply app_inj_tail in E as [E <-].
      destruct Hr as [Hr|Hr]; [|apply Hr; set_solver].
      assert (RBRACKET ∈ LBRACKET :: h') as Hi by (rewrite E; set_solver).
      apply elem_of_cons in Hi as [Hi|Hi]; done.
  - assert ((port =? -1) = false) as E by lia. subst l. rewrite E in *.
    destruct (decimal_port port Hp) as [Hd Hds].
    assert (COLON ∉ decimal port) as Hcol by (apply digits_avoid; [done|by right]).
    assert (clean (host ++ COLON :: decimal port)) as Hcl.
    { apply clean_app. split; [done|]. apply clean_cons. split; [done|by apply Numbers.digits_clean]. }
    destruct (splitHostPort_ok (host ++ COLON :: decimal port) server Hcl H63) as
      [(h & p & Ep & Hcp & _ & ->)|[[Hn|(h & p & Ep & Hcp & _ & Hb)] _]].
    + apply last_unique in Ep as [<- <-]; [|done|done].
      by rewrite bool_decide_false, parsePort_printed by done.
    + exfalso. apply Hn. set_solver.
    + exfalso. apply last_unique in Ep as [<- <-]; [|done|done].
      revert Hb. apply digits_avoid; [done|by right].
Qed.

Lemma splitUserInfo_text userInfo host port :
  server_ok userInfo host port -> clean (server_text userInfo host port) ->
  len (server_text userInfo host port) < 2 ^ 63 ->
  splitUserInfo (Some (server_text userInfo host port)) =
  Ok (opt_string userInfo, Some (host ++ if port =? -1 then [] else COLON :: decimal port)).
Proof.
  intros [Hu (Hne & Hav & _) Hp] Hc H63. rewrite splitUserInfo_ok by done. unfold server_text.
  destruct userInfo as [ui|]; cbn [opt].
  - rewrite <- app_assoc. cbn [app]. rewrite cut_app; [done|].
    eapply avoids_spec; [exact Hu|decided].
  - rewrite app_nil_l, cut_none; [done|]. rewrite elem_of_app. intros [H|H].
    + revert H. eapply avoids_spec; [exact Hav|decided].
    + destruct (port =? -1) eqn:E; [by apply elem_of_nil in H|]. destruct Hp as [->|Hp]; [done|].
      apply elem_of_cons in H as [H|H]; [done|]. revert H.
      apply digits_avoid; [by apply decimal_port|by right].
Qed.

(** The parts of an authority are found again. *)
Lemma parseAuthority_text u userInfo host port server :
  mAuthority u = some_string (server_text userInfo host port) ->
  server_ok userInfo host port -> clean (server_text userInfo host port) ->
  len (server_text userInfo host port) < 2 ^ 63 ->
  parseAuthority u server =
  Ok (mkURI (mString u) (mScheme u) (mSchemeSpecificPart u) (mAuthority u) (opt_string userInfo)
        (some_string host) port (mPath u) (mQuery u) (mFragment u) (mOpaque u) (mHashCode u)).
Proof.
  intros Ea Hok Hc H63. unfold parseAuthority. rewrite Ea. unfold some_string at 1.
  rewrite splitUserInfo_text by done. cbn [mbind result_bind].
  unfold server_text in Hc, H63. apply clean_app in Hc as [_ Hc]. rewrite length_app in H63.
  rewrite (splitHostPort_text userInfo) by (done || lia || by apply clean_app in Hc as [? _]).
  cbn [mbind result_bind]. destruct Hok as [_ (Hne & _) _]. by destruct host.
Qed.

Lemma bracketed_ok userInfo host port :
  server_ok userInfo host port -> clean host -> bracketed (Some host) = Ok (Some host).
Proof.
  intros [_ (_ & _ & Hh) _] Hc. unfold bracketed. rewrite !string_indexOf_char by done.
  cbn [mbind result_bind]. destruct Hh as [Hh|(h & -> & Hh)].
  - rewrite (cut_none COLON); [done|]. eapply avoids_spec; [exact Hh|decided].
  - destruct (cut COLON _) as [x [y|]]; cbn [is_some]; [|done]. rewrite (proj2 (Z.eqb_neq _ _)) by lia.
    assert (cut RBRACKET ([LBRACKET] ++ h ++ [RBRACKET]) = (LBRACKET :: h, Some [])) as ->.
    { change ([LBRACKET] ++ h ++ [RBRACKET]) with ((LBRACKET :: h) ++ RBRACKET :: []). apply cut_app.
      intros [H|H]%elem_of_cons; [done|]. revert H. eapply avoids_spec; [exact Hh|decided]. }
    cbn [is_some negb]. by rewrite (proj2 (Z.eqb_neq _ _)) by lia.
Qed.

Lemma of_components_text scheme userInfo host port path query fragment :
  let authority := Some (server_text userInfo host port) in
  parts_ok scheme authority path query fragment -> server_ok userInfo host port ->
  all_clean scheme authority path query fragment ->
  of_components (opt_string scheme) (opt_string userInfo) (some_string host) port (some_string path)
    (opt_string query) (opt_string fragment) =
  parseURI (Some (text scheme authority path query fragment)) true.
Proof.
  intros authority Hok Hs Hc. pose proof (text_clean _ _ _ _ _ Hc) as Ht.
  destruct Hc as (Hsc & Ha & Hp & Hq & Hf). cbn in Ha. unfold server_text in Ha.
  apply clean_app in Ha as [Hu [Hh _]%clean_app].
  assert (option_all clean userInfo) as Hu'.
  { destruct userInfo; [|done]. cbn in *. by apply clean_app in Hu as [? _]. }
  unfold of_components. cbn [is_some some_string]. rewrite !orb_true_r. cbn [orb negb].
  rewrite relativePath_ok by apply Hok. cbn [mbind result_bind].
  rewrite scheme_build by done. cbn [mbind result_bind app]. rewrite slashes_ok. cbn [mbind result_bind].
  rewrite (maybe_ok userInfo _ _ (fun u => u ++ [AT])); [|done|].
  2: { intros l b Hl. rewrite put_string_ok by done. cbn [mbind result_bind].
       unfold put_char, StringBuilder.append_char. by rewrite <- app_assoc. }
  cbn [mbind result_bind].
  assert (forall (k : String -> list Z -> result (list Z)) b, maybe (some_string host) k b = k (Some host) b)
    as -> by done.
  rewrite (bracketed_ok userInfo host port) by done.
  cbn [mbind result_bind]. rewrite put_string_ok by done. cbn [mbind result_bind].
  set (b := if negb (port =? -1) then _ else _).
  assert (b = (opt (fun s => s ++ [COLON]) scheme ++ chars "//") ++ server_text userInfo host port) as ->.
  { subst b. unfold server_text, StringBuilder.append_int32, put_char, StringBuilder.append_char.
    destruct (port =? -1); cbn [negb]; by rewrite <- !app_assoc, ?app_nil_r. }
  unfold text, specific_text in *. cbn [opt authority] in *. rewrite <- !app_assoc in Ht.
  rewrite tail_build; [by rewrite <- !app_assoc| |done|done|done|by rewrite <- !app_assoc].
  rewrite !app_assoc in Ht. rewrite <- !(app_assoc _ (tail_text path query)) in Ht.
  by apply clean_app in Ht as [? _].
Qed.

(** C39: A URI made of a scheme, user information, a host, a port, a path, a query and a
    fragment has these components, where they are what a URI can have. *)
Theorem uri_components scheme userInfo host port path query fragment :
  let authority := Some (server_text userInfo host port) in
  parts_ok scheme authority path query fragment -> server_ok userInfo host port ->
  all_clean scheme authority path query fragment ->
  len (text scheme authority path query fragment) < 2 ^ 63 ->
  exists u,
    of_components (opt_string scheme) (opt_string userInfo) (some_string host) port (some_string path)
      (opt_string query) (opt_string fragment) = Ok u /\
    mScheme u = opt_string scheme /\ mUserInfo u = opt_string userInfo /\ mHost u = some_string host /\
    mPort u = port /\ mPath u = some_string path /\ mQuery u = opt_string query /\
    mFragment u = opt_string fragment.
Proof.
  intros authority Hok Hs Hc H63. rewrite of_components_text by done.
  rewrite parse_eq, (parse_text _ _ _ _ _ Hok) by (done || by apply text_clean).
  eexists. split; [apply (parseAuthority_text _ userInfo host port); [done|done|apply Hc|]|].
  - unfold text, specific_text in H63. rewrite !length_app in H63. cbn [opt authority] in H63.
    rewrite length_app in H63. lia.
  - by cbn.
Qed.

(** ** Any URI *)

Definition string_text (s : sp) : list Z := match s with Some (Some l) => l | _ => [] end.
Definition given (s : sp) (f : list Z -> list Z) : list Z := match s with Some (Some l) => f l | _ => [] end.

(** The string of a URI from its components; [slashes] tells whether "//" is there. *)
Definition reassemble (u : URI) (slashes : bool) : list Z :=
  given (mScheme u) (fun s => s ++ [COLON]) ++
  (match mOpaque u with
   | Some true => string_text (mSchemeSpecificPart u)
   | _ => (if slashes then chars "//" else []) ++ string_text (mAuthority u) ++
       string_text (mPath u) ++ given (mQuery u) (cons QUESTION)
   end) ++
  given (mFragment u) (cons HASH).

Lemma given_opt f o : given (opt_string o) f = opt f o.
Proof. by destruct o. Qed.

Lemma query_spec r : let '(path, query) := cut QUESTION r in r = path ++ opt (cons QUESTION) query.
Proof.
  pose proof (cut_spec QUESTION r) as H. destruct (cut QUESTION r) as [path [q|]], H as [-> _]; cbn.
  - done.
  - by rewrite app_nil_r.
Qed.

Lemma hier_spec rest last authority path query :
  hier rest last = Ok (authority, path, query) ->
  exists slashes : bool, (authority <> None -> slashes = true) /\
    rest = (if slashes then chars "//" else []) ++ string_text authority ++ path ++
      opt (cons QUESTION) query.
Proof.
  unfold hier. destruct (is_prefix (chars "//") rest) eqn:E.
  - apply is_prefix_spec in E as [r ->]. change (drop 2 (chars "//" ++ r)) with r.
    destruct (last && _); [done|]. pose proof (until_spec (chars "/?") r) as Hu.
    destruct (until (chars "/?") r) as [a r2], Hu as (-> & _).
    pose proof (query_spec r2) as Hq. destruct (cut QUESTION r2) as [p q]. intros [= <- <- <-].
    exists true. split; [done|]. f_equal. rewrite Hq. case_bool_decide as Ha; [by subst a|done].
  - pose proof (query_spec rest) as Hq. destruct (cut QUESTION rest) as [p q]. intros [= <- <- <-].
    by exists false.
Qed.

(** Parsing loses nothing: whatever string is accepted, its components in their
    places make the string again; only an empty authority leaves no trace but the "//". *)
Theorem uri_reassembles l server u :
  clean l -> len l < 2 ^ 63 -> parseURI (Some l) server = Ok u ->
  mString u = some_string l /\
  exists slashes, (mAuthority u <> None -> slashes = true) /\ l = reassemble u slashes.
Proof.
  intros Hl H63. rewrite parse_eq by done. unfold parse_ref.
  case_bool_decide; [done|]. pose proof (cut_spec HASH l) as Hcut.
  destruct (cut HASH l) as [h fr].
  assert (l = h ++ opt (cons HASH) fr /\ HASH ∉ h) as [El Hh].
  { destruct fr; cbn in *; [done|]. by rewrite app_nil_r. }
  assert (exists scheme rest, match scheme_of h with Some (a, r) => (Some a, r) | None => (None, h) end =
    (scheme, rest) /\ h = opt (fun s => s ++ [COLON]) scheme ++ rest) as (scheme & rest & -> & Eh).
  { pose proof (scheme_ok h Hh) as Hs. destruct (scheme_of h) as [[a r]|].
    - exists (Some a), r. split; [done|]. destruct Hs as [-> _]. cbn. by rewrite <- app_assoc.
    - by exists None, h. }
  destruct (is_some scheme && bool_decide (rest = [])); [done|].
  destruct (is_some scheme && negb (is_prefix (chars "/") rest)).
  - intros [= <-]. split; [done|]. exists false. split; [done|]. unfold reassemble.
    cbn [mScheme mOpaque mFragment mSchemeSpecificPart string_text some_string].
    rewrite !given_opt, app_assoc. by rewrite <- Eh.
  - intros Hu. apply result_bind_Ok in Hu as ([[au path] query] & (slashes & Hsl & Er)%hier_spec & Hu).
    apply parseAuthority_same in Hu as [E1 E2 E3 E4 E5 E6 E7 E8]. cbn in E1, E2, E3, E4, E5, E6, E7, E8.
    split; [done|]. exists slashes. split; [by rewrite E4|]. unfold reassemble.
    rewrite E2, E4, E5, E6, E7, E8. rewrite !given_opt. cbn [string_text some_string].
    rewrite El, Eh, Er. by rewrite <- !app_assoc.
Qed.

(** The scheme is what comes before the first colon, and no "/", "?" or "#" is in it. *)
Lemma scheme_of_spec h a rest :
  HASH ∉ h -> scheme_of h = Some (a, rest) -> h = a ++ COLON :: rest /\ avoids ":/?#" a.
Proof.
  intros Hh. unfold scheme_of. pose proof (until_spec (chars ":/?") h) as Hu.
  destruct (until (chars ":/?") h) as [b [|c r]]; [done|]. destruct (Z.eqb_spec c COLON) as [->|]; [|done].
  intros [= <- <-]. destruct Hu as (E & Hb & _). split; [done|]. apply Forall_forall. intros c Hc Hs.
  assert (c <> HASH) by (intros ->; apply Hh; rewrite E; apply elem_of_app; by left).
  apply (Hb c Hc). change (c ∈ chars ":/?" ++ [HASH]) in Hs. apply elem_of_app in Hs as [Hs|Hs]; [done|].
  by apply list_elem_of_singleton in Hs.
Qed.

Lemma parse_scheme l server u s :
  clean l -> len l < 2 ^ 63 -> parseURI (Some l) server = Ok u -> mScheme u = Some s ->
  exists a rest, s = Some a /\ l = a ++ COLON :: rest /\ avoids ":/?#" a.
Proof.
  intros Hl H63. rewrite parse_eq by done. unfold parse_ref. case_bool_decide; [done|].
  pose proof (cut_spec HASH l) as Hcut. destruct (cut HASH l) as [h fr].
  assert (exists t, l = h ++ t /\ HASH ∉ h) as (t & El & Hh).
  { destruct fr; destruct Hcut as [-> ?]; [by eexists|]. exists []. by rewrite app_nil_r. }
  assert (forall a rest, scheme_of h = Some (a, rest) -> exists rest', l = a ++ COLON :: rest' /\ avoids ":/?#" a) as Hs.
  { intros a rest Ha. destruct (scheme_of_spec h a rest Hh Ha) as [-> ?]. exists (rest ++ t). split; [|done].
    by rewrite El, <- app_assoc. }
  destruct (scheme_of h) as [[a rest]|]; cbn [is_some andb].
  - destruct (Hs a rest eq_refl) as (r & E & Ha). case_bool_decide; [done|].
    destruct (negb _).
    + intros [= <-] [= <-]. by exists a, r.
    + intros (x & _ & Hu)%result_bind_Ok. destruct x as [[au p] q]. apply parseAuthority_same in Hu as [_ E2 _ _ _ _ _ _].
      rewrite E2. intros [= <-]. by exists a, r.
  - intros (x & _ & Hu)%result_bind_Ok. destruct x as [[au p] q]. apply parseAuthority_same in Hu as [_ E2 _ _ _ _ _ _].
    by rewrite E2.
Qed.

(** The empty string, which is a URI reference, is refused with an exception that is
    not [URISyntaxException]; so [create] lets it through, where it should turn every failure into
    [IllegalArgumentException]. *)
Theorem uri_empty server :
  parseURI (Some []) server = Throw IndexOutOfBoundsException /\
  create (Some (Some [])) = Throw IndexOutOfBoundsException /\
  create (Some (Some (chars "a:"))) = Throw IllegalArgumentException.
Proof. split; [by destruct server|]. split; by vm_compute. Qed.
End URI.

(** ** Concrete URIs *)

Module UriExample.
Import Str URI.

Definition scheme := Some (chars "http").
Definition path := chars "/a/b".
Definition query := Some (chars "x=1").
Definition fragment := Some (chars "top").

Lemma example_parts (authority : option (list Z)) :
  option_all (fun a => a <> [] /\ avoids "/?#" a) authority -> is_some authority = true ->
  parts_ok scheme authority path query fragment.
Proof.
  intros Ha Hs. destruct authority as [a|]; [|done].
  split; [decided|done|split; [decided|right; by eexists]|decided|by left|done|done].
Qed.

Lemma parse_refines_witness :
  parseURI (Some (chars "http://h/p?q#f")) false = parse_ref (chars "http://h/p?q#f") false.
Proof. apply (parse_refines (chars "http://h/p?q#f") false); decided. Defined.

Lemma uri_parts_witness :
  exists u,
    of_parts (opt_string scheme) (opt_string (Some (chars "h:80"))) (some_string path) (opt_string query)
      (opt_string fragment) = Ok u /\
    mScheme u = opt_string scheme /\ mAuthority u = opt_string (Some (chars "h:80")) /\
    mPath u = some_string path /\ mQuery u = opt_string query /\ mFragment u = opt_string fragment /\
    mOpaque u = Some false /\ of_spec (mString u) = Ok u.
Proof.
  apply (uri_parts scheme (Some (chars "h:80")) path query fragment).
  - apply example_parts; [split; [done|decided]|done].
  - split; [decided|]. split; [decided|]. split; [decided|]. split; decided.
  - repeat constructor; done.
  - decided.
Defined.

Lemma uri_components_witness :
  exists u,
    of_components (opt_string scheme) (opt_string (Some (chars "me"))) (some_string (chars "[::1]")) 8080
      (some_string path) (opt_string query) (opt_string fragment) = Ok u /\
    mScheme u = opt_string scheme /\ mUserInfo u = opt_string (Some (chars "me")) /\
    mHost u = some_string (chars "[::1]") /\
    mPort u = 8080 /\ mPath u = some_string path /\ mQuery u = opt_string query /\
    mFragment u = opt_string fragment.
Proof.
  apply (uri_components scheme (Some (chars "me")) (chars "[::1]") 8080 path query fragment).
  - apply example_parts; [split; [done|decided]|done].
  - split; [decided| |by right]. split; [done|]. split; [decided|]. right.
    exists (chars "::1"). split; [done|decided].
  - split; [decided|]. split; [decided|]. split; [decided|]. split; decided.
  - decided.
Defined.

Definition parsed : URI :=
  match parseURI (Some (chars "http:///p?q#f")) false with Ok u => u | _ => blank end.

Lemma uri_reassembles_witness :
  mString parsed = some_string (chars "http:///p?q#f") /\
  exists slashes, (mAuthority parsed <> None -> slashes = true) /\
    chars "http:///p?q#f" = reassemble parsed slashes.
Proof.
  apply (uri_reassembles (chars "http:///p?q#f") false parsed); [decided|decided|].
  vm_compute. reflexivity.
Defined.
End UriExample.
