(* ===== verification/Base64s.v ===== *)
(** * util/Base64.cpp: the Base64 encoding

    [Base64.Encoder] and [Base64.Decoder] are the two classes.  Both loops keep an accumulator [a]
    of 32 bits, into which they shift, and the number [b] of its pending bits, less the width of
    what they write.  The accumulator is never cleared: the model wraps it as the compilers do
    (the standard leaves the shift of a negative number open before C++20), and the theorems hold
    for inputs of any length since only its low bits are read.

    The specification speaks of the bits of a sequence, most significant bit first ([bits]). *)

From S2P Require Import Prelude Lists Strings.
Open Scope Z_scope.

Module Base64.

(** A call that keeps no state of its own. *)
Definition lift {S A} (r : result A) : M S A := fun s => (r, s).

(** A call that fills a new list and returns it. *)
Definition new_list {A} (m : M (list Z) A) : result (list Z) :=
  _ ← outcome m []; Ok (exec m []).

(* util/Base64.cpp:22-25 sChars *)
Definition sChars : Str.String :=
  Some (CString.chars "ABCDEFGHIJKLMNOPQRSTUVWXYZabcdefghijklmnopqrstuvwxyz0123456789+/").

(** The entries the initializer does not name are 0. *)
(* util/Base64.cpp:28-37 sIndex *)
Definition sIndex : list Z :=
  [ 0;  0;  0;  0;  0;  0;  0;  0;  0;  0;  0;  0;  0;  0;  0;  0;
    0;  0;  0;  0;  0;  0;  0;  0;  0;  0;  0;  0;  0;  0;  0;  0;
    0;  0;  0;  0;  0;  0;  0;  0;  0;  0;  0;  62; 63; 62; 62; 63;
    52; 53; 54; 55; 56; 57; 58; 59; 60; 61; 0;  0;  0;  0;  0;  0;
    0;  0;  1;  2;  3;  4;  5;  6;  7;  8;  9;  10; 11; 12; 13; 14;
    15; 16; 17; 18; 19; 20; 21; 22; 23; 24; 25; 0;  0;  0;  0;  63;
    0;  26; 27; 28; 29; 30; 31; 32; 33; 34; 35; 36; 37; 38; 39; 40;
    41; 42; 43; 44; 45; 46; 47; 48; 49; 50; 51 ] ++ replicate 133 0.

(** [sIndex[c]] *)
Definition index_of (c : Z) : result Z :=
  match sIndex !! Z.to_nat c with Some i => Ok i | None => Undef end.

(** ** The decoder *)

(** The state is [dst]. *)
(* util/Base64.cpp:49-59 Base64::Decoder::decode *)
Fixpoint decode_loop (src : list Z) (a b : Z) : M (list Z) unit :=
  match src with
  | [] => mret tt
  | c :: src =>
      i ← lift (index_of c);
      if i =? -1 then mret tt
      else
        let a := i32 (i32 (Z.shiftl a 6) + i) in
        let b := b + 6 in
        if 0 <=? b then
          ArrayList.add (u8 (i8 (Z.land (Z.shiftr a b) 255)));;
          decode_loop src a (b - 8)
        else decode_loop src a b
  end.

(* util/Base64.cpp:45-61 Base64::Decoder::decode(src, dst) *)
Definition decode_to (src : list Z) : M (list Z) Z :=
  decode_loop src 0 (-8);; n ← ArrayList.size; mret (i32 n).

(* util/Base64.cpp:39-43 Base64::Decoder::decode(src) *)
Definition decode (src : list Z) : result (list Z) := new_list (decode_to src).

(* util/Base64.cpp:63-67 Base64::Decoder::decode(String) *)
Definition decode_string (src : Str.sp) : result (list Z) :=
  s ← CString.deref src; decode (Str.getBytes s).

(** ** The encoder *)

(** [while (b >= 0)]: the accumulator has at most 12 pending bits, which is two rounds. *)
(* util/Base64.cpp:82-85 Base64::Encoder::encode *)
Fixpoint emit (fuel : nat) (a b : Z) : M (list Z) Z :=
  if 0 <=? b then
    match fuel with
    | O => diverge
    | S fuel =>
        c ← lift (Str.charAt sChars (Z.land (Z.shiftr a b) 63));
        ArrayList.add (u8 c);;
        emit fuel a (b - 6)
    end
  else mret b.

(* util/Base64.cpp:79-86 Base64::Encoder::encode *)
Fixpoint encode_loop (src : list Z) (a b : Z) : M (list Z) (Z * Z) :=
  match src with
  | [] => mret (a, b)
  | c :: src =>
      let a := i32 (i32 (Z.shiftl a 8) + c) in
      b ← emit 2 a (b + 8);
      encode_loop src a b
  end.

(** [while (dst->size() % 4)] *)
(* util/Base64.cpp:92-94 Base64::Encoder::encode *)
Fixpoint pad (fuel : nat) : M (list Z) unit :=
  n ← ArrayList.size;
  if n mod 4 =? 0 then mret tt
  else match fuel with O => diverge | S fuel => ArrayList.add 61;; pad fuel end.

(* util/Base64.cpp:75-97 Base64::Encoder::encode(src, dst) *)
Definition encode_to (src : list Z) : M (list Z) Z :=
  '(a, b) ← encode_loop src 0 (-6);
  (if -6 <? b then
    c ← lift (Str.charAt sChars (Z.land (Z.shiftr (i32 (Z.shiftl a 8)) (b + 8)) 63));
    ArrayList.add (u8 c);; mret tt
  else mret tt);;
  pad 3;;
  n ← ArrayList.size;
  mret (i32 n).

(* util/Base64.cpp:69-73 Base64::Encoder::encode(src) *)
Definition encode (src : list Z) : result (list Z) := new_list (encode_to src).

(* util/Base64.cpp:99-104 Base64::Encoder::encodeToString *)
Definition encodeToString (src : list Z) : result Str.sp :=
  dst ← encode src;
  let dst := dst ++ [0] in
  s ← Str.of_chars_size (Some dst) (Z.of_nat (length dst));
  Ok (Some s).

(** ** Bits *)

(** The [n] low bits of [a], the most significant one first. *)
Fixpoint low (n : nat) (a : Z) : list bool :=
  match n with
  | O => []
  | S k => Z.testbit a (Z.of_nat k) :: low k a
  end.

(** The bits of a sequence of numbers of [w] bits. *)
Definition bits (w : nat) (l : list Z) : list bool := l ≫= low w.

Lemma low_ext n a b :
  (forall i, 0 <= i < Z.of_nat n -> Z.testbit a i = Z.testbit b i) <-> low n a = low n b.
Proof.
  induction n as [|n IH]; [split; [done|lia]|]. cbn. split.
  - intros H. f_equal; [apply H; lia|]. apply IH. intros i Hi. apply H. lia.
  - intros [= E El] i Hi. rewrite <- IH in El.
    destruct (decide (i = Z.of_nat n)) as [->|]; [done|]. apply El. lia.
Qed.

Lemma length_low n a : length (low n a) = n.
Proof. induction n; cbn; congruence. Qed.

Lemma low_app m n a : low (m + n) a = low m (Z.shiftr a (Z.of_nat n)) ++ low n a.
Proof.
  induction m as [|m IH]; [done|]. cbn. rewrite IH, Z.shiftr_spec by lia.
  by rewrite Nat2Z.inj_add.
Qed.

Lemma low_mod w n a b :
  Z.of_nat n <= w -> a mod 2 ^ w = b mod 2 ^ w -> low n a = low n b.
Proof.
  intros Hn E. apply low_ext. intros i Hi.
  rewrite <- (Z.mod_pow2_bits_low a w i), <- (Z.mod_pow2_bits_low b w i) by lia. congruence.
Qed.

Lemma low_zero n : low n 0 = replicate n false.
Proof. induction n as [|n IH]; [done|]. cbn. by rewrite IH, Z.testbit_0_l. Qed.

(** Shifting [n] bits into an accumulator of 32 bits. *)
Lemma low_push m n a c :
  0 <= c < 2 ^ Z.of_nat n -> (m + n <= 32)%nat ->
  low (m + n) (i32 (i32 (Z.shiftl a (Z.of_nat n)) + c)) = low m a ++ low n c.
Proof.
  intros Hc Hn. transitivity (low (m + n) (a * 2 ^ Z.of_nat n + c)).
  { apply (low_mod 32); [lia|]. unfold i32. rewrite (signed_mod 32), Z.shiftl_mul_pow2 by lia.
    rewrite <- (Zplus_mod_idemp_l (a * _) c), <- (signed_mod 32 (a * _)) by lia.
    by rewrite Zplus_mod_idemp_l. }
  rewrite low_app. f_equal.
  - rewrite Z.shiftr_div_pow2, Z.add_comm, Z.div_add, Z.div_small by lia. done.
  - apply (low_mod (Z.of_nat n)); [lia|]. by rewrite Z.add_comm, Z_mod_plus_full.
Qed.

Lemma low_inj n a b :
  0 <= a < 2 ^ Z.of_nat n -> 0 <= b < 2 ^ Z.of_nat n -> low n a = low n b -> a = b.
Proof.
  intros Ha Hb E. rewrite <- low_ext in E.
  rewrite <- (Z.mod_small a (2 ^ Z.of_nat n)), <- (Z.mod_small b (2 ^ Z.of_nat n)) by lia.
  apply Z.bits_inj'. intros i Hi. destruct (decide (i < Z.of_nat n)).
  - rewrite !Z.mod_pow2_bits_low by lia. apply E. lia.
  - by rewrite !Z.mod_pow2_bits_high by lia.
Qed.

Lemma bits_app w l m : bits w (l ++ m) = bits w l ++ bits w m.
Proof. apply bind_app. Qed.

Lemma bits_cons w x l : bits w (x :: l) = low w x ++ bits w l.
Proof. reflexivity. Qed.

Lemma length_bits w l : length (bits w l) = (w * length l)%nat.
Proof.
  induction l as [|x l IH]; [cbn; lia|]. rewrite bits_cons, length_app, length_low, IH. cbn. lia.
Qed.

Lemma bits_zeros w n : bits w (replicate n 0) = replicate (w * n) false.
Proof.
  induction n as [|n IH]; [by rewrite Nat.mul_0_r|].
  rewrite replicate_S, bits_cons, IH, low_zero, <- replicate_add. f_equal. lia.
Qed.

Lemma bits_inj w l m :
  (0 < w)%nat ->
  Forall (fun x => 0 <= x < 2 ^ Z.of_nat w) l -> Forall (fun x => 0 <= x < 2 ^ Z.of_nat w) m ->
  bits w l = bits w m -> l = m.
Proof.
  intros Hw Hl. revert m. induction Hl as [|x l Hx Hl IH]; intros m Hm E.
  - apply (f_equal length) in E. rewrite !length_bits in E. destruct m; [done|]. cbn in E. lia.
  - destruct Hm as [|y m Hy Hm].
    + apply (f_equal length) in E. rewrite !length_bits in E. cbn in E. lia.
    + rewrite !bits_cons in E. apply app_inj_1 in E as [Ex E]; [|by rewrite !length_low].
      f_equal; [by apply (low_inj w)|auto].
Qed.

(** ** The tables *)

Definition sextet (i : Z) : Prop := 0 <= i < 2 ^ 6.

(** The character of a number of 6 bits, and the number the decoder reads for a character. *)
Definition alphabet (i : Z) : Z := default 0 (default [] sChars !! Z.to_nat i).
Definition value (c : Z) : Z := default 0 (sIndex !! Z.to_nat c).

Lemma upto_spec (n : nat) (P : Z -> bool) :
  forallb P (seqZ 0 (Z.of_nat n)) = true -> forall i, 0 <= i < Z.of_nat n -> P i = true.
Proof.
  rewrite forallb_forall. intros H i Hi. apply H. apply list_elem_of_In, elem_of_seqZ. lia.
Qed.

Lemma charAt_sextet i :
  sextet i -> Str.charAt sChars i = Ok (alphabet i) /\ u8 (alphabet i) = alphabet i.
Proof.
  intros Hi.
  assert (bool_decide (Str.charAt sChars i = Ok (alphabet i) /\ u8 (alphabet i) = alphabet i) = true)
    as H; [|by apply bool_decide_eq_true in H].
  revert i Hi. apply (upto_spec 64). vm_compute. reflexivity.
Qed.

Lemma index_of_byte c : is_byte c -> index_of c = Ok (value c) /\ sextet (value c).
Proof.
  intros Hc. assert (bool_decide (index_of c = Ok (value c) /\ 0 <= value c < 2 ^ 6) = true) as H;
    [|by apply bool_decide_eq_true in H].
  revert c Hc. apply (upto_spec 256). vm_compute. reflexivity.
Qed.

Lemma value_alphabet i : sextet i -> value (alphabet i) = i /\ is_byte (alphabet i).
Proof.
  intros Hi. assert (bool_decide (value (alphabet i) = i /\ is_byte (alphabet i)) = true) as H;
    [|by apply bool_decide_eq_true in H].
  revert i Hi. apply (upto_spec 64). vm_compute. reflexivity.
Qed.

Lemma land_sextet x : sextet (Z.land x 63) /\ low 6 (Z.land x 63) = low 6 x.
Proof.
  change 63 with (Z.ones 6). rewrite Z.land_ones by lia. split; [apply Z.mod_pos_bound; lia|].
  apply (low_mod 6); [lia|]. apply Z.mod_mod. lia.
Qed.

Lemma land_byte x : is_byte (u8 (i8 (Z.land x 255))) /\ low 8 (u8 (i8 (Z.land x 255))) = low 8 x.
Proof.
  split; [apply u8_range|]. apply (low_mod 8); [lia|]. unfold u8, i8.
  rewrite (signed_mod 8), Zmod_mod by lia. change 255 with (Z.ones 8).
  rewrite Z.land_ones by lia. apply Zmod_mod.
Qed.

Lemma add_bind {A} x (f : bool -> M (list Z) A) dst :
  (ArrayList.add x ≫= f) dst = f true (dst ++ [x]).
Proof. reflexivity. Qed.

(** ** What the loops do: nothing pending is lost *)

Lemma decode_loop_ok src p a dst :
  Forall is_byte src -> (p < 8)%nat ->
  exists out q a', decode_loop src a (Z.of_nat p - 8) dst = (Ok tt, dst ++ out) /\
    (q < 8)%nat /\ Forall is_byte out /\ low p a ++ bits 6 (value <$> src) = bits 8 out ++ low q a'.
Proof.
  intros Hs. revert p a dst. induction Hs as [|c src Hc Hs IH]; intros p a dst Hp.
  { exists [], p, a. rewrite !app_nil_r. done. }
  destruct (index_of_byte c Hc) as [Ei Hi]. cbn [decode_loop].
  rewrite (bind_Ok _ _ _ _ _ (f_equal (fun r => (r, dst)) Ei)).
  rewrite (proj2 (Z.eqb_neq _ _)) by (unfold sextet in Hi; lia). cbv zeta.
  pose proof (low_push p 6 a _ Hi ltac:(lia)) as Ea.
  change (Z.of_nat 6) with 6 in Ea. revert Ea.
  generalize (i32 (i32 (Z.shiftl a 6) + value c)) as a1. intros a1 Ea. rewrite fmap_cons, bits_cons, app_assoc.
  destruct (decide (p + 6 < 8)%nat).
  - rewrite (proj2 (Z.leb_gt _ _)) by lia.
    replace (Z.of_nat p - 8 + 6) with (Z.of_nat (p + 6) - 8) by lia. rewrite <- Ea. by apply IH.
  - rewrite (proj2 (Z.leb_le _ _)) by lia.
    replace (Z.of_nat p - 8 + 6) with (Z.of_nat (p - 2)) by lia.
    destruct (land_byte (Z.shiftr a1 (Z.of_nat (p - 2)))) as [Hb Eb].
    edestruct (IH (p - 2)%nat a1) as (out & q & a' & E & Hq & Ho & Eq); [lia|].
    exists (u8 (i8 (Z.land (Z.shiftr a1 (Z.of_nat (p - 2))) 255)) :: out), q, a'.
    split; [|split; [done|split; [by constructor|]]].
    + rewrite add_bind, E. by rewrite <- app_assoc.
    + rewrite bits_cons, <- (app_assoc (low 8 _)), <- Eq, (app_assoc (low 8 _)), Eb, <- low_app, <- Ea.
      do 2 f_equal. lia.
Qed.

Lemma emit_ok fuel p a dst :
  (p < 6 + 6 * fuel)%nat ->
  exists s q, emit fuel a (Z.of_nat p - 6) dst = (Ok (Z.of_nat q - 6), dst ++ (alphabet <$> s)) /\
    (q < 6)%nat /\ Forall sextet s /\ low p a = bits 6 s ++ low q a.
Proof.
  revert p dst. induction fuel as [|fuel IH]; intros p dst Hp.
  { exists [], p. cbn. rewrite (proj2 (Z.leb_gt _ _)) by lia. rewrite app_nil_r. split; [done|].
    split; [lia|done]. }
  cbn [emit]. destruct (decide (p < 6)%nat).
  { exists [], p. rewrite (proj2 (Z.leb_gt _ _)) by lia. cbn. rewrite app_nil_r. done. }
  rewrite (proj2 (Z.leb_le _ _)) by lia.
  destruct (land_sextet (Z.shiftr a (Z.of_nat p - 6))) as [Hs Es].
  destruct (charAt_sextet _ Hs) as [Ec Eu].
  rewrite (bind_Ok _ _ _ _ _ (f_equal (fun r => (r, dst)) Ec)), Eu.
  replace (Z.of_nat p - 6 - 6) with (Z.of_nat (p - 6) - 6) by lia.
  edestruct (IH (p - 6)%nat) as (s & q & E & Hq & Hs' & Eq); [lia|].
  exists (Z.land (Z.shiftr a (Z.of_nat p - 6)) 63 :: s), q. split; [|split; [done|split; [by constructor|]]].
  - rewrite add_bind, E. by rewrite <- app_assoc.
  - rewrite bits_cons, <- app_assoc, <- Eq, Es.
    replace (Z.of_nat p - 6) with (Z.of_nat (p - 6)) by lia. rewrite <- low_app. f_equal. lia.
Qed.

Lemma encode_loop_ok src p a dst :
  Forall is_byte src -> (p < 6)%nat ->
  exists s q a', encode_loop src a (Z.of_nat p - 6) dst = (Ok (a', Z.of_nat q - 6), dst ++ (alphabet <$> s)) /\
    (q < 6)%nat /\ Forall sextet s /\ low p a ++ bits 8 src = bits 6 s ++ low q a'.
Proof.
  intros Hs. revert p a dst. induction Hs as [|c src Hc Hs IH]; intros p a dst Hp.
  { exists [], p, a. cbn. rewrite !app_nil_r. done. }
  cbn [encode_loop]. cbv zeta. pose proof (low_push p 8 a _ Hc ltac:(lia)) as Ea.
  change (Z.of_nat 8) with 8 in Ea. revert Ea.
  generalize (i32 (i32 (Z.shiftl a 8) + c)) as a1. intros a1 Ea.
  replace (Z.of_nat p - 6 + 8) with (Z.of_nat (p + 8) - 6) by lia.
  destruct (emit_ok 2 (p + 8) a1 dst ltac:(lia)) as (s & q & E & Hq & Hs1 & Eq).
  mstep E.
  destruct (IH q a1 (dst ++ (alphabet <$> s)) Hq) as (s' & q' & a' & E' & Hq' & Hs2 & Eq').
  exists (s ++ s'), q', a'. split; [|split; [done|split; [by apply Forall_app|]]].
  - rewrite E'. by rewrite fmap_app, app_assoc.
  - rewrite bits_cons, app_assoc, <- Ea, Eq, bits_app, <- !app_assoc. by f_equal.
Qed.

Lemma pad_ok fuel dst :
  (4 <= Z.of_nat (length dst) mod 4 + Z.of_nat fuel \/ Z.of_nat (length dst) mod 4 = 0) ->
  exists p, pad fuel dst = (Ok tt, dst ++ replicate p 61) /\ (p <= fuel)%nat /\
    (Z.of_nat (length dst) + Z.of_nat p) mod 4 = 0.
Proof.
  revert dst. induction fuel as [|fuel IH]; intros dst H; cbn [pad]; unfold ArrayList.size;
    rewrite bind_gets; destruct (Z.eqb_spec (Z.of_nat (length dst) mod 4) 0) as [E|E].
  1,3: exists 0%nat; cbn; rewrite app_nil_r, Z.add_0_r; split; [done|split; [lia|done]].
  - pose proof (Z.mod_pos_bound (Z.of_nat (length dst)) 4). lia.
  - destruct (IH (dst ++ [61])) as (p & Ep & Hp & Em).
    { rewrite length_app. cbn [length]. Z.div_mod_to_equations. lia. }
    exists (S p). rewrite length_app in Em. cbn [length] in Em.
    rewrite add_bind, Ep, <- app_assoc.
    split; [done|split; [lia|]]. rewrite <- Em. f_equal. lia.
Qed.

(** The last character carries what is pending, with zero bits behind it. *)
Lemma last_sextet q a :
  (q < 6)%nat -> low 6 (Z.shiftr (i32 (Z.shiftl a 8)) (Z.of_nat q - 6 + 8)) = low q a ++ replicate (6 - q) false.
Proof.
  intros Hq. replace (Z.of_nat q - 6 + 8) with (Z.of_nat (q + 2)) by lia.
  apply (app_inj_1 _ _ (low (q + 2) (i32 (Z.shiftl a 8))) (replicate (q + 2) false)).
  { rewrite length_low, length_app, length_low, length_replicate. lia. }
  rewrite <- low_app, <- app_assoc, <- replicate_add.
  replace (6 - q + (q + 2))%nat with 8%nat by lia. replace (6 + (q + 2))%nat with (q + 8)%nat by lia.
  rewrite <- low_zero, <- (low_push q 8 a 0) by (cbn; lia). f_equal. unfold i32.
  rewrite Z.add_0_r. change (Z.of_nat 8) with 8.
  by rewrite Z.sub_add, Zmod_mod.
Qed.

(** What an encoding [t] of the bytes [src] is: characters whose numbers hold the bits of [src],
    filled up with zero bits to a whole number of them, then the padding. *)
Definition encodes (src t : list Z) (pads : nat) : Prop :=
  exists s k, t = (alphabet <$> s) ++ replicate pads 61 /\ Forall sextet s /\ (k < 6)%nat /\
    bits 6 s = bits 8 src ++ replicate k false.

Lemma encode_to_ok src dst :
  Forall is_byte src ->
  exists t pads, encode_to src dst = (Ok (i32 (Z.of_nat (length (dst ++ t)))), dst ++ t) /\
    encodes src t pads /\ (pads < 4)%nat /\ Z.of_nat (length (dst ++ t)) mod 4 = 0.
Proof.
  intros Hs. destruct (encode_loop_ok src 0 0 dst Hs ltac:(lia)) as (s & q & a & E & Hq & Hx & Eq).
  unfold encode_to. change (Z.of_nat 0 - 6) with (-6) in E. mstep E.
  assert (exists s' k, (if -6 <? Z.of_nat q - 6 then
      c ← lift (Str.charAt sChars (Z.land (Z.shiftr (i32 (Z.shiftl a 8)) (Z.of_nat q - 6 + 8)) 63));
      ArrayList.add (u8 c);; mret tt else mret tt) (dst ++ (alphabet <$> s)) =
      (Ok tt, dst ++ (alphabet <$> s ++ s')) /\ Forall sextet s' /\ (k < 6)%nat /\
      low q a ++ replicate k false = bits 6 s') as (s' & k & E' & Hx' & Hk & Eq').
  { destruct q as [|q].
    { exists [], 0%nat. rewrite app_nil_r. done. }
    rewrite (proj2 (Z.ltb_lt _ _)) by lia.
    destruct (land_sextet (Z.shiftr (i32 (Z.shiftl a 8)) (Z.of_nat (S q) - 6 + 8))) as [Hl El].
    destruct (charAt_sextet _ Hl) as [Ec Eu].
    rewrite (bind_Ok _ _ _ _ _ (f_equal (fun r => (r, dst ++ (alphabet <$> s))) Ec)), Eu.
    exists [Z.land (Z.shiftr (i32 (Z.shiftl a 8)) (Z.of_nat (S q) - 6 + 8)) 63], (6 - S q)%nat.
    rewrite add_bind, fmap_app, app_assoc. split; [done|].
    split; [by apply Forall_singleton|]. split; [lia|].
    by rewrite bits_cons, El, last_sextet, app_nil_r. }
  mstep E'.
  destruct (pad_ok 3 (dst ++ (alphabet <$> s ++ s'))) as (n & Ep & Hn & Em).
  { Z.div_mod_to_equations. lia. }
  mstep Ep. exists ((alphabet <$> s ++ s') ++ replicate n 61), n.
  unfold ArrayList.size. rewrite bind_gets, <- app_assoc. split; [done|split; [|split; [lia|]]].
  - exists (s ++ s'), k. split; [done|split; [by apply Forall_app|split; [done|]]].
    by rewrite bits_app, <- Eq', app_assoc, <- Eq.
  - rewrite app_assoc, length_app, length_replicate. by rewrite Nat2Z.inj_add.
Qed.

Lemma encodes_length src t pads :
  encodes src t pads -> (pads < 4)%nat -> Z.of_nat (length t) mod 4 = 0 ->
  Z.of_nat (length t) = 4 * ((Z.of_nat (length src) + 2) / 3).
Proof.
  intros (s & k & -> & _ & Hk & E) Hp.
  apply (f_equal length) in E. rewrite length_app, !length_bits, length_replicate in E.
  rewrite length_app, length_fmap, length_replicate. intros ?. Z.div_mod_to_equations. lia.
Qed.

Lemma decode_to_ok src dst :
  Forall is_byte src ->
  exists out q a, decode_to src dst = (Ok (i32 (Z.of_nat (length (dst ++ out)))), dst ++ out) /\
    (q < 8)%nat /\ Forall is_byte out /\ bits 6 (value <$> src) = bits 8 out ++ low q a.
Proof.
  intros Hs. destruct (decode_loop_ok src 0 0 dst Hs ltac:(lia)) as (out & q & a & E & H).
  exists out, q, a. unfold decode_to. change (Z.of_nat 0 - 8) with (-8) in E. mstep E. done.
Qed.

Lemma encodes_bytes src t pads : encodes src t pads -> Forall is_byte t.
Proof.
  intros (s & k & -> & Hs & _). apply Forall_app. split; [|by apply Forall_replicate].
  apply Forall_fmap. eapply Forall_impl; [exact Hs|]. intros x Hx. by apply value_alphabet.
Qed.

Lemma decode_encodes src t pads :
  Forall is_byte src -> encodes src t pads -> (pads < 4)%nat -> Z.of_nat (length t) mod 4 = 0 ->
  decode t = Ok (src ++ replicate (3 * Z.to_nat ((Z.of_nat (length src) + 2) / 3) - length src) 0).
Proof.
  intros Hb He Hp Hl. pose proof (encodes_length _ _ _ He Hp Hl) as El.
  destruct He as (s & k & -> & Hs & Hk & E).
  assert (value <$> (alphabet <$> s) ++ replicate pads 61 = s ++ replicate pads 0) as Ev.
  { rewrite fmap_app, fmap_replicate, <- list_fmap_compose. f_equal. clear -Hs.
    induction Hs as [|x s Hx Hs IH]; [done|]. rewrite fmap_cons, IH. f_equal.
    by apply value_alphabet. }
  destruct (decode_to_ok ((alphabet <$> s) ++ replicate pads 61) []) as (out & q & a & Eo & Hq & Ho & Eq).
  { apply (encodes_bytes src _ pads). by exists s, k. }
  unfold decode, new_list, outcome, exec. rewrite Eo. cbn. f_equal.
  rewrite Ev, bits_app, bits_zeros, E in Eq.
  rewrite length_app, length_fmap, length_replicate in El.
  pose proof (f_equal length Eq) as L. pose proof (f_equal length E) as L'.
  rewrite !length_app, length_low, !length_bits, !length_replicate in L.
  rewrite length_app, !length_bits, length_replicate in L'.
  assert (q = 0%nat) as -> by (Z.div_mod_to_equations; lia). rewrite app_nil_r in Eq.
  apply (bits_inj 8); [lia|done| |].
  - apply Forall_app. split; [done|by apply Forall_replicate].
  - rewrite <- Eq, bits_app, bits_zeros, <- app_assoc, <- replicate_add. do 2 f_equal.
    Z.div_mod_to_equations. lia.
Qed.

(** A NUL behind a whole number of groups adds nothing. *)
Lemma decode_nul t :
  Forall is_byte t -> Z.of_nat (length t) mod 4 = 0 -> decode (t ++ [0]) = decode t.
Proof.
  intros Ht Hl.
  destruct (decode_to_ok t [] Ht) as (out & q & a & E & Hq & Ho & Eq).
  destruct (decode_to_ok (t ++ [0]) []) as (out' & q' & a' & E' & Hq' & Ho' & Eq').
  { apply Forall_app. split; [done|]. by apply Forall_singleton. }
  unfold decode, new_list, outcome, exec. rewrite E, E'. cbn. f_equal.
  pose proof (f_equal length Eq) as L. pose proof (f_equal length Eq') as L'.
  rewrite fmap_app, bits_app, Eq, <- app_assoc in Eq'.
  rewrite !length_app, !length_low, !length_bits, !length_fmap in L, L'.
  rewrite length_app in L'. cbn [length] in L'.
  apply app_inj_1 in Eq' as [Eb _].
  - by apply (bits_inj 8) in Eb; [|lia|..].
  - rewrite !length_bits. Z.div_mod_to_equations. lia.
Qed.

(** ** The properties *)

(** whatever the list already holds, encoding a sequence of bytes of any length
    appends the Base64 text of the bytes: characters whose numbers hold exactly the bits of the
    bytes, fewer than six zero bits behind them, and fewer than four ['='], so that the length of
    the list is a multiple of four. *)
Theorem base64_encode src dst (Hb : Forall is_byte src) :
  exists t pads, encode_to src dst = (Ok (i32 (Z.of_nat (length (dst ++ t)))), dst ++ t) /\
    encodes src t pads /\ (pads < 4)%nat /\ Z.of_nat (length (dst ++ t)) mod 4 = 0.
Proof. by apply encode_to_ok. Qed.

(** C37: the text of [n] bytes has [4 * ceil (n / 3)] characters and decodes to the bytes
    followed by zero bytes up to a multiple of three, since the decoder takes ['='] for the number
    0; through [encodeToString], whose string ends with a NUL character of its own, it is the
    same. *)
Theorem base64_roundtrip src (Hb : Forall is_byte src) :
  let n := Z.of_nat (length src) in
  exists t, encode src = Ok t /\ Z.of_nat (length t) = 4 * ((n + 2) / 3) /\
    encodeToString src = Ok (Some (Some (t ++ [0]))) /\
    decode t = Ok (src ++ replicate (3 * Z.to_nat ((n + 2) / 3) - length src) 0) /\
    decode_string (Some (Some (t ++ [0]))) = decode t.
Proof.
  destruct (encode_to_ok src [] Hb) as (t & pads & E & He & Hp & Hl). cbn zeta.
  assert (encode src = Ok t) as Et by (unfold encode, new_list, outcome, exec; by rewrite E).
  exists t. split; [done|split; [by eapply encodes_length|split; [|split]]].
  - unfold encodeToString. rewrite Et. cbn. rewrite (proj2 (Z.ltb_lt _ _)).
    2: { rewrite length_app. cbn. lia. }
    unfold Str.StringBuffer. unfold CString.bytes. cbn [CString.deref mbind option_bind].
    cbn. rewrite (proj2 (Z.leb_le _ _)), Nat2Z.id, firstn_all by lia. done.
  - by eapply decode_encodes.
  - apply decode_nul; [by eapply encodes_bytes|done].
Qed.

(** any sequence of bytes decodes, characters outside the alphabet included:
    [n] characters give the [6 * n / 8] bytes that hold the bits of the characters' numbers. *)
Theorem base64_decode src (Hb : Forall is_byte src) :
  exists out, decode src = Ok out /\ Forall is_byte out /\
    Z.of_nat (length out) = 6 * Z.of_nat (length src) / 8 /\
    bits 8 out `prefix_of` bits 6 (value <$> src).
Proof.
  destruct (decode_to_ok src [] Hb) as (out & q & a & E & Hq & Ho & Eq).
  exists out. split; [unfold decode, new_list, outcome, exec; by rewrite E|].
  split; [done|split; [|by exists (low q a)]].
  apply (f_equal length) in Eq. rewrite length_app, length_low, !length_bits, length_fmap in Eq.
  Z.div_mod_to_equations. lia.
Qed.

End Base64.

(** ** Witnesses *)
Module Base64Example.
Import Base64.

Lemma base64_encode_witness :
  Forall is_byte [102; 111; 111; 98] /\
  exists t pads, encode_to [102; 111; 111; 98] [] = (Ok (i32 (Z.of_nat (length t))), t) /\
    encodes [102; 111; 111; 98] t pads /\ (pads < 4)%nat /\ Z.of_nat (length t) mod 4 = 0.
Proof.
  assert (Forall is_byte [102; 111; 111; 98]) as H by decided.
  split; [done|apply (base64_encode _ [] H)].
Defined.

Lemma base64_roundtrip_witness :
  decode (CString.chars "Zm9vYg==") = Ok [102; 111; 111; 98; 0; 0] /\
  exists t, encode [102; 111; 111; 98] = Ok t /\ decode t = Ok [102; 111; 111; 98; 0; 0].
Proof.
  split; [decided|].
  destruct (base64_roundtrip [102; 111; 111; 98] ltac:(decided)) as (t & E & _ & _ & D & _).
  by exists t.
Defined.

Lemma base64_decode_witness :
  exists out, decode [42; 42; 33; 200; 90] = Ok out /\ Z.of_nat (length out) = 3.
Proof.
  destruct (base64_decode [42; 42; 33; 200; 90] ltac:(decided)) as (out & E & _ & L & _).
  by exists out.
Defined.

End Base64Example.
