(* ===== verification/Executors.v ===== *)
(** * util/concurrent: the blocking queue and the executors

    [LinkedBlockingQueue] (util/concurrent/LinkedBlockingQueue.h) is a singly linked list of nodes
    on the heap.  [ThreadPool] (util/concurrent/ThreadPoolExecutor.cpp) interleaves its workers,
    the threads that hand it runnables or cancel them, and the one that shuts it down. *)

From S2P Require Import Prelude.
Open Scope Z_scope.

(** ** The queue

    A call holds the lock from its first to its last access, so it is one step; [take] releases
    it in [await] and starts over when it is woken up: [takeOnce] is one round of its loop.  The
    condition is the number of the signals sent.  A node that is deleted leaves the heap, and an
    access to it is undefined. *)
Module LinkedBlockingQueue.
Section queue.
Context {T : Type} `{!EqDecision T}.

(* util/concurrent/LinkedBlockingQueue.h:113-119 LinkedBlockingQueue::Node *)
Record Node := mkNode { item : T; nextNode : option nat }.

(* util/concurrent/LinkedBlockingQueue.h:130-132 LinkedBlockingQueue *)
Record queue := mkQueue {
  mHeadNode : option nat;
  mCondition : nat;
  nodes : gmap nat Node;
}.

(* util/concurrent/LinkedBlockingQueue.h:29-33 LinkedBlockingQueue::LinkedBlockingQueue *)
Definition empty : queue := mkQueue None 0 ∅.

Definition load (n : nat) : M queue Node := fun q =>
  match nodes q !! n with Some c => (Ok c, q) | None => (Undef, q) end.
Definition set_nodes (f : gmap nat Node -> gmap nat Node) : M queue unit :=
  modify (fun q => mkQueue (mHeadNode q) (mCondition q) (f (nodes q))).
Definition set_head (p : option nat) : M queue unit :=
  modify (fun q => mkQueue p (mCondition q) (nodes q)).

(** [new Node(item)] with [nextNode] set right after, [delete node], [node->nextNode = p]. *)
Definition new_node (c : Node) : M queue nat :=
  n ← gets (fun q => fresh (dom (nodes q) : gset nat)); set_nodes <[n := c]>;; mret n.
Definition free_node (n : nat) : M queue unit := load n;; set_nodes (delete n).
Definition set_next (n : nat) (p : option nat) : M queue unit :=
  c ← load n; set_nodes <[n := mkNode (item c) p]>.

(** [mCondition->signal()] *)
Definition signal : M queue unit :=
  modify (fun q => mkQueue (mHeadNode q) (S (mCondition q)) (nodes q)).

(** More rounds than any walk over the list has. *)
Definition rounds : M queue nat := gets (fun q => S (size (nodes q))).

(** The last node, which the walk returns as [prevNode]. *)
(* util/concurrent/LinkedBlockingQueue.h:56-60 LinkedBlockingQueue::put *)
Fixpoint walk (fuel : nat) (curNode prevNode : option nat) : M queue (option nat) :=
  match curNode with
  | None => mret prevNode
  | Some n =>
      match fuel with
      | O => diverge
      | S fuel => c ← load n; walk fuel (nextNode c) (Some n)
      end
  end.

(* util/concurrent/LinkedBlockingQueue.h:47-66 LinkedBlockingQueue::put *)
Definition put (x : T) : M queue bool :=
  node ← new_node (mkNode x None);
  curNode ← gets mHeadNode;
  match curNode with
  | None => set_next node curNode;; set_head (Some node);; signal
  | Some _ =>
      fuel ← rounds;
      prevNode ← walk fuel curNode None;
      match prevNode with
      | None => undefined
      | Some prev =>
          c ← load prev;
          set_next node (nextNode c);;
          set_next prev (Some node);;
          signal
      end
  end;;
  mret true.

(* util/concurrent/LinkedBlockingQueue.h:121-128 LinkedBlockingQueue::getNextNode *)
Definition getNextNode : M queue (option nat) :=
  node ← gets mHeadNode;
  match node with
  | Some n => c ← load n; set_head (nextNode c);; mret (Some n)
  | None => mret None
  end.

(** [None]: the thread waits in [mCondition->await()]. *)
(* util/concurrent/LinkedBlockingQueue.h:68-80 LinkedBlockingQueue::take *)
Definition takeOnce : M queue (option T) :=
  node ← getNextNode;
  match node with
  | Some n => c ← load n; free_node n;; mret (Some (item c))
  | None => mret None
  end.

(* util/concurrent/LinkedBlockingQueue.h:86-93 LinkedBlockingQueue::remove *)
Fixpoint removeFront (fuel : nat) (x : T) (curNode : option nat) (foundItem : bool) :
    M queue (option nat * bool) :=
  match curNode with
  | None => mret (None, foundItem)
  | Some n =>
      c ← load n;
      if bool_decide (item c = x) then
        match fuel with
        | O => diverge
        | S fuel =>
            set_head (nextNode c);;
            free_node n;;
            removeFront fuel x (nextNode c) true
        end
      else mret (Some n, foundItem)
  end.

(* util/concurrent/LinkedBlockingQueue.h:95-108 LinkedBlockingQueue::remove *)
Fixpoint removeRest (fuel : nat) (x : T) (curNode : option nat) (foundItem : bool) : M queue bool :=
  match curNode with
  | None => mret foundItem
  | Some n =>
      match fuel with
      | O => diverge
      | S fuel =>
          c ← load n;
          match nextNode c with
          | Some m =>
              d ← load m;
              if bool_decide (item d = x) then
                free_node m;;
                set_next n (nextNode d);;
                removeRest fuel x (Some n) true
              else removeRest fuel x (Some m) foundItem
          | None => removeRest fuel x None foundItem
          end
      end
  end.

(* util/concurrent/LinkedBlockingQueue.h:82-110 LinkedBlockingQueue::remove *)
Definition remove (x : T) : M queue bool :=
  curNode ← gets mHeadNode;
  fuel ← rounds;
  '(curNode, foundItem) ← removeFront fuel x curNode false;
  fuel ← rounds;
  removeRest fuel x curNode foundItem.

(* util/concurrent/LinkedBlockingQueue.h:35-42 LinkedBlockingQueue::~LinkedBlockingQueue *)
Fixpoint destroy (fuel : nat) (node : option nat) : M queue unit :=
  match node with
  | None => mret tt
  | Some n =>
      match fuel with
      | O => diverge
      | S fuel => c ← load n; free_node n;; destroy fuel (nextNode c)
      end
  end.

(** *** The nodes as a list *)

(** From [p], the nodes of [l] with their items, in order, up to [q]. *)
Fixpoint seg (ns : gmap nat Node) (p : option nat) (l : list (nat * T)) (q : option nat) : Prop :=
  match l with
  | [] => p = q
  | (n, x) :: l => p = Some n /\ exists p', ns !! n = Some (mkNode x p') /\ seg ns p' l q
  end.

(** The list is the whole heap: no node is shared, none is leaked. *)
Definition rep (q : queue) (l : list (nat * T)) : Prop :=
  seg (nodes q) (mHeadNode q) l None /\ NoDup l.*1 /\ dom (nodes q) = (list_to_set l.*1 : gset nat).

Definition holds (q : queue) (xs : list T) : Prop := exists l, rep q l /\ xs = l.*2.

Lemma seg_ext ns ns' p l q :
  (forall n, n ∈ l.*1 -> ns' !! n = ns !! n) -> seg ns p l q -> seg ns' p l q.
Proof.
  revert p. induction l as [|[n x] l IH]; intros p H; [done|]. intros (-> & p' & Hn & Hl).
  split; [done|]. exists p'. split; [|apply IH; [|done]].
  - rewrite H; [done|by left].
  - intros m Hm. apply H. by right.
Qed.

Lemma seg_app ns p l m q :
  seg ns p (l ++ m) q <-> exists r, seg ns p l r /\ seg ns r m q.
Proof.
  revert p. induction l as [|[n x] l IH]; intros p; cbn; [naive_solver|].
  setoid_rewrite IH. naive_solver.
Qed.

Lemma rep_lookup q l n : rep q l -> n ∉ l.*1 -> nodes q !! n = None.
Proof.
  intros (_ & _ & D) Hn. apply not_elem_of_dom. rewrite D. by rewrite elem_of_list_to_set.
Qed.

Lemma rep_size q l : rep q l -> size (nodes q) = length l.
Proof.
  intros (_ & N & D). rewrite <- (size_dom (D := gset nat)), D, size_list_to_set by done.
  apply length_fmap.
Qed.

Lemma bind_load {A} n c q (f : Node -> M queue A) :
  nodes q !! n = Some c -> (load n ≫= f) q = f c q.
Proof. intros H. unfold mbind, M_bind, load. by rewrite H. Qed.

Lemma bind_free {A} n c q (f : unit -> M queue A) :
  nodes q !! n = Some c ->
  (free_node n ≫= f) q = f tt (mkQueue (mHeadNode q) (mCondition q) (delete n (nodes q))).
Proof. intros H. unfold free_node, mbind, M_bind, load. by rewrite H. Qed.

Lemma bind_set_next {A} n c p q (f : unit -> M queue A) :
  nodes q !! n = Some c ->
  (set_next n p ≫= f) q =
    f tt (mkQueue (mHeadNode q) (mCondition q) (<[n := mkNode (item c) p]> (nodes q))).
Proof. intros H. unfold set_next, mbind, M_bind, load. by rewrite H. Qed.

Lemma walk_ok q fuel p l n x prev :
  seg (nodes q) p (l ++ [(n, x)]) None -> (length l < fuel)%nat ->
  walk fuel p prev q = (Ok (Some n), q).
Proof.
  revert fuel p prev. induction l as [|[m y] l IH]; intros [|fuel] p prev; cbn; try lia.
  - intros (-> & p' & Hn & ->) _. cbn. rewrite (bind_load _ _ _ _ Hn).
    by destruct fuel.
  - intros (-> & p' & Hm & Hl) Hf. cbn. rewrite (bind_load _ _ _ _ Hm).
    apply IH; [done|lia].
Qed.

Lemma last_fresh (l : list (nat * T)) n x : NoDup (l ++ [(n, x)]).*1 -> n ∉ l.*1.
Proof. rewrite fmap_app. intros (_ & H & _)%NoDup_app Hn. by apply (H n Hn), list_elem_of_here. Qed.

(** *** What the operations do to the list *)

Lemma put_rep x q l :
  rep q l ->
  exists q' n, put x q = (Ok true, q') /\ rep q' (l ++ [(n, x)]) /\ mCondition q' = S (mCondition q).
Proof.
  intros Hr. pose proof (rep_size _ _ Hr) as Hz. pose proof Hr as (Hs & Hn & Hd).
  set (n := fresh (dom (nodes q) : gset nat)).
  assert (n ∉ l.*1) as Hf.
  { rewrite <- (elem_of_list_to_set (C := gset nat)), <- Hd. apply is_fresh. }
  pose proof (rep_lookup _ _ _ Hr Hf) as Hnone.
  assert (NoDup (l ++ [(n, x)]).*1) as Hn'.
  { rewrite fmap_app. apply NoDup_app. split; [done|split; [|apply NoDup_singleton]].
    cbn. intros ? ? ?%list_elem_of_singleton. naive_solver. }
  unfold put, new_node, set_nodes. rewrite !bind_assoc, bind_gets. fold n.
  rewrite bind_assoc, bind_modify, bind_ret, bind_gets. cbn [mHeadNode].
  destruct l as [|[m y] l _] using rev_ind.
  - cbn in Hs. eexists _, n. split; [|split; [split; [|split]|]].
    + rewrite Hs, bind_assoc, (bind_set_next n (mkNode x None)) by apply lookup_insert_eq.
      reflexivity.
    + cbn. split; [done|]. exists None. by rewrite insert_insert_eq, lookup_insert_eq.
    + done.
    + cbn. by rewrite insert_insert_eq, dom_insert_L, Hd.
    + reflexivity.
  - pose proof Hs as (r & Hl & -> & p' & Hm & ->)%seg_app.
    assert (m <> n) as Hmn by (intros ->; congruence).
    destruct (mHeadNode q) as [h|] eqn:Eh; [|by destruct l as [|[] ?]; cbn in Hl; naive_solver].
    set (q1 := mkQueue _ _ _).
    assert (seg (nodes q1) (Some h) (l ++ [(m, y)]) None) as Hs1.
    { eapply seg_ext; [|exact Hs]. intros k Hk. cbn. rewrite lookup_insert_ne; [done|].
      intros <-. done. }
    eexists _, n. split; [|split; [split; [|split]|]].
    + unfold rounds. rewrite bind_assoc, bind_gets, bind_assoc.
      assert (length l < S (size (nodes q1)))%nat as Hw.
      { cbn. rewrite map_size_insert_None, Hz, length_app by done. lia. }
      mstep (walk_ok q1 _ _ _ _ _ None Hs1 Hw).
      rewrite bind_assoc, (bind_load m (mkNode y None)) by (cbn; by rewrite lookup_insert_ne).
      rewrite bind_assoc, (bind_set_next n (mkNode x None)) by apply lookup_insert_eq.
      rewrite bind_assoc, (bind_set_next m (mkNode y None)) by
        (cbn; rewrite !lookup_insert_ne by done; done).
      reflexivity.
    + cbn. rewrite <- app_assoc. apply seg_app. exists (Some m). split.
      * eapply seg_ext; [|exact Hl]. intros k Hk. pose proof (last_fresh _ _ _ Hn) as Hm'.
        rewrite !lookup_insert_ne; [done|..]; intros <-; first [done|
          apply Hf; rewrite fmap_app; apply elem_of_app; by left].
      * cbn. split; [done|]. exists (Some n). rewrite lookup_insert_eq. split; [done|].
        split; [done|]. exists None. by rewrite lookup_insert_ne, lookup_insert_eq.
    + done.
    + cbn. rewrite !dom_insert_L, Hd. rewrite !fmap_app. cbn. set_solver.
    + reflexivity.
Qed.

(** Unlinking the first node. *)
Lemma rep_unlink q n x l :
  rep q ((n, x) :: l) ->
  exists p, nodes q !! n = Some (mkNode x p) /\ mHeadNode q = Some n /\
    rep (mkQueue p (mCondition q) (delete n (nodes q))) l.
Proof.
  intros ((Hp & p & Hx & Hl) & Hn & Hd). exists p. split; [done|split; [done|]].
  apply NoDup_cons in Hn as [Hf Hn]. split; [|split; [done|]]; cbn.
  - eapply seg_ext; [|exact Hl]. intros k Hk. apply lookup_delete_ne. by intros ->.
  - rewrite dom_delete_L, Hd. cbn. set_solver.
Qed.

Lemma take_rep q n x l :
  rep q ((n, x) :: l) ->
  exists q', takeOnce q = (Ok (Some x), q') /\ rep q' l /\ mCondition q' = mCondition q.
Proof.
  intros (p & Hx & Hp & Hr)%rep_unlink. eexists. split; [|split; [exact Hr|done]].
  unfold takeOnce, getNextNode. rewrite bind_assoc, bind_gets, Hp, bind_assoc, (bind_load _ _ _ _ Hx).
  rewrite bind_assoc. unfold set_head. rewrite bind_modify, bind_ret.
  rewrite (bind_load n (mkNode x p)) by done. by rewrite (bind_free n (mkNode x p)).
Qed.

Lemma take_empty q : rep q [] -> takeOnce q = (Ok None, q).
Proof.
  intros (Hs & _). cbn in Hs. unfold takeOnce, getNextNode.
  by rewrite bind_assoc, bind_gets, Hs, bind_ret.
Qed.

Lemma removeFront_rep x l q fuel found :
  rep q l -> (length l <= fuel)%nat ->
  exists q' pre l', removeFront fuel x (mHeadNode q) found q =
      (Ok (mHeadNode q', found || negb (bool_decide (pre = []))), q') /\
    l = pre ++ l' /\ Forall (fun e => e.2 = x) pre /\ (forall e, head l' = Some e -> e.2 <> x) /\
    rep q' l' /\ mCondition q' = mCondition q.
Proof.
  revert q fuel found. induction l as [|[n y] l IH]; intros q fuel found Hr Hf.
  - exists q, [], []. destruct Hr as (Hs & H). cbn in Hs. rewrite Hs. split; [|done].
    destruct fuel; cbn; by rewrite orb_false_r.
  - destruct (rep_unlink _ _ _ _ Hr) as (p & Hy & Hp & Hr'). rewrite Hp.
    destruct fuel as [|fuel]; [cbn in Hf; lia|]. cbn [removeFront]. rewrite (bind_load _ _ _ _ Hy).
    cbn [item nextNode]. case_bool_decide as E.
    + unfold set_head. rewrite bind_modify. rewrite (bind_free n (mkNode y p)) by done.
      destruct (IH _ fuel true Hr') as (q' & pre & l' & Eq & -> & Hpre & Hh & Hr'' & Hc);
        [cbn in Hf; lia|].
      exists q', ((n, y) :: pre), l'. cbn in Eq. cbn [mCondition mHeadNode nodes item nextNode]. rewrite Eq.
      split; [by rewrite orb_true_r|]. split; [done|split; [by constructor|done]].
    + exists q, [], ((n, y) :: l). rewrite Hp, orb_false_r. split; [done|].
      split; [done|split; [done|split; [|done]]]. intros e. cbn. by intros [= <-].
Qed.

(** Unlinking the node [m] behind the node [n]. *)
Lemma rep_relink q pre n y m z l p' :
  rep q (pre ++ (n, y) :: (m, z) :: l) -> nodes q !! m = Some (mkNode z p') ->
  rep (mkQueue (mHeadNode q) (mCondition q) (<[n := mkNode y p']> (delete m (nodes q))))
    (pre ++ (n, y) :: l).
Proof.
  intros (Hs & Hn & Hd) Hz. unfold rep. cbn.
  apply seg_app in Hs as (r & Hpre & -> & p & Hy & -> & p'' & Hz' & Hl).
  rewrite Hz in Hz'. injection Hz' as <-.
  rewrite fmap_app, !fmap_cons in Hn. cbn in Hn.
  apply NoDup_app in Hn as (Hn1 & Hn2 & Hn3). apply NoDup_cons in Hn3 as [Hn3 Hn4].
  apply NoDup_cons in Hn4 as [Hn4 Hn5].
  assert (forall k, k <> n -> k <> m ->
    <[n := mkNode y p']> (delete m (nodes q)) !! k = nodes q !! k) as Hk.
  { intros k ? ?. by rewrite lookup_insert_ne, lookup_delete_ne. }
  split; [|split].
  - apply seg_app. exists (Some n). split; [|split; [done|]].
    + eapply seg_ext; [|exact Hpre]. intros k Hi. apply Hk; set_solver.
    + exists p'. rewrite lookup_insert_eq. split; [done|].
      eapply seg_ext; [|exact Hl]. intros k Hi. apply Hk; set_solver.
  - rewrite fmap_app, fmap_cons. apply NoDup_app. cbn. split; [done|]. split; [set_solver|].
    apply NoDup_cons. split; [set_solver|done].
  - rewrite dom_insert_L, dom_delete_L, Hd, !fmap_app, !fmap_cons, !list_to_set_app_L. cbn.
    assert (m ∉ pre.*1) by set_solver. set_solver.
Qed.

Lemma removeRest_rep x l q fuel found pre n y :
  rep q (pre ++ (n, y) :: l) -> (length l < fuel)%nat ->
  exists q', removeRest fuel x (Some n) found q =
      (Ok (found || bool_decide (x ∈ l.*2)), q') /\
    rep q' (pre ++ (n, y) :: filter (fun e => e.2 <> x) l) /\ mCondition q' = mCondition q.
Proof.
  revert q fuel found pre n y. induction l as [|[m z] l IH]; intros q [|fuel] found pre n y Hr Hf;
    try (cbn in Hf; lia); pose proof Hr as (Hs & Hn & Hd);
    apply seg_app in Hs as (r & Hpre & -> & p & Hy & Hl); cbn [removeRest];
    rewrite (bind_load _ _ _ _ Hy); cbn [nextNode].
  - cbn in Hl. subst p. exists q. destruct fuel; cbn; by rewrite orb_false_r.
  - destruct Hl as (-> & p' & Hz & Hl). rewrite (bind_load _ _ _ _ Hz). cbn [item].
    destruct (bool_decide_reflect (z = x)) as [->|E].
    + rewrite (bind_free m (mkNode x p')) by done.
      assert (n <> m) as Hnm.
      { rewrite fmap_app in Hn. apply NoDup_app in Hn as (_ & _ & Hn). cbn in Hn.
        apply NoDup_cons in Hn as [Hn _]. set_solver. }
      rewrite (bind_set_next n (mkNode y (Some m))) by (cbn; by rewrite lookup_delete_ne).
      cbn [item nextNode mHeadNode mCondition nodes].
      destruct (IH (mkQueue (mHeadNode q) (mCondition q)
          (<[n := mkNode y p']> (delete m (nodes q)))) fuel true pre n y) as (q' & Eq & Hr' & Hc).
      * by apply (rep_relink _ pre n y m x).
      * cbn in Hf. lia.
      * exists q'. rewrite Eq, fmap_cons. rewrite (bool_decide_eq_true_2 (x ∈ _ :: _)) by (by left).
        rewrite orb_true_r. split; [done|]. rewrite filter_cons_False by (cbn; naive_solver).
        done.
    + replace (pre ++ (n, y) :: (m, z) :: l) with ((pre ++ [(n, y)]) ++ (m, z) :: l) in Hr
        by (by rewrite <- app_assoc).
      destruct (IH q fuel found _ m z Hr) as (q' & Eq & Hr' & Hc); [cbn in Hf; lia|].
      exists q'. rewrite Eq, fmap_cons. cbn [snd]. split; [|split; [|done]].
      * do 2 f_equal. f_equal. apply bool_decide_ext. rewrite elem_of_cons. naive_solver.
      * rewrite filter_cons_True by done. by rewrite <- app_assoc in Hr'.
Qed.

Lemma destroy_rep q fuel p l :
  rep (mkQueue p (mCondition q) (nodes q)) l -> (length l <= fuel)%nat ->
  exists q', destroy fuel p q = (Ok tt, q') /\ nodes q' = ∅.
Proof.
  revert q fuel p. induction l as [|[n x] l IH]; intros q fuel p Hr Hf.
  - destruct Hr as (Hs & _ & Hd). cbn in Hs, Hd. subst p. exists q.
    split; [by destruct fuel|]. by apply dom_empty_iff_L in Hd.
  - destruct (rep_unlink _ _ _ _ Hr) as (p' & Hx & Hp & Hr'). cbn in Hx, Hp. subst p.
    destruct fuel as [|fuel]; [cbn in Hf; lia|]. cbn [destroy].
    rewrite (bind_load n (mkNode x p')), (bind_free n (mkNode x p')) by done.
    apply IH; [exact Hr'|cbn in Hf; lia].
Qed.

Lemma filter_snd (x : T) (l : list (nat * T)) :
  (filter (fun e => e.2 <> x) l).*2 = filter (fun y => y <> x) l.*2.
Proof.
  induction l as [|[n y] l IH]; [done|]. rewrite fmap_cons, !filter_cons. cbn.
  case_decide; cbn; by rewrite IH.
Qed.

Lemma remove_rep x q l :
  rep q l ->
  exists q' l', remove x q = (Ok (bool_decide (x ∈ l.*2)), q') /\ rep q' l' /\
    l'.*2 = filter (fun y => y <> x) l.*2 /\ mCondition q' = mCondition q.
Proof.
  intros Hr. pose proof (rep_size _ _ Hr) as Hz.
  unfold remove, rounds. rewrite !bind_gets.
  destruct (removeFront_rep x l q (S (size (nodes q))) false Hr ltac:(lia))
    as (q1 & pre & l1 & E1 & -> & Hp & Hh & Hr1 & Hc1).
  mstep E1. rewrite bind_gets, fmap_app, filter_app, (filter_none _ pre.*2).
  2: { apply Forall_fmap. eapply Forall_impl; [exact Hp|]. naive_solver. }
  assert (bool_decide (x ∈ pre.*2) = negb (bool_decide (pre = []))) as Ep.
  { destruct Hp as [|[n y] pre Hy Hp]; [done|]. cbn in Hy. subst y.
    apply bool_decide_eq_true_2. cbn. by left. }
  cbn [orb]. rewrite <- Ep. clear Ep.
  destruct l1 as [|[n y] l1].
  - exists q1, []. rewrite !app_nil_r. destruct Hr1 as (Hs & ?). cbn in Hs. by rewrite Hs.
  - pose proof Hr1 as ((-> & _) & _). specialize (Hh _ eq_refl). cbn in Hh.
    destruct (removeRest_rep x l1 q1 (S (size (nodes q1))) (bool_decide (x ∈ pre.*2)) [] n y)
      as (q' & E & Hr' & Hc); [done|rewrite (rep_size _ _ Hr1); cbn; lia|].
    exists q', ((n, y) :: filter (fun e => e.2 <> x) l1). rewrite E. split; [|split; [done|split]].
    + do 2 f_equal. rewrite <- bool_decide_or. apply bool_decide_ext.
      rewrite elem_of_app, fmap_cons, elem_of_cons. naive_solver.
    + rewrite !fmap_cons, filter_cons_True by done. cbn. by rewrite filter_snd.
    + congruence.
Qed.

(** *** The queue as a sequence *)

Inductive op := Put (x : T) | Take | Remove (x : T).
Inductive res := Done (b : bool) | Item (x : option T).

Definition run (o : op) : M queue res :=
  match o with
  | Put x => b ← put x; mret (Done b)
  | Take => x ← takeOnce; mret (Item x)
  | Remove x => b ← remove x; mret (Done b)
  end.

(** What a blocking queue promises: the answer, the sequence after the call, the signals sent. *)
Definition spec (o : op) (xs : list T) : res * list T * nat :=
  match o with
  | Put x => (Done true, xs ++ [x], 1%nat)
  | Take => (Item (head xs), tail xs, 0%nat)
  | Remove x => (Done (bool_decide (x ∈ xs)), filter (fun y => y <> x) xs, 0%nat)
  end.

Lemma put_holds x q xs :
  holds q xs ->
  exists q', put x q = (Ok true, q') /\ holds q' (xs ++ [x]) /\ mCondition q' = S (mCondition q).
Proof.
  intros (l & Hr & ->). destruct (put_rep x q l Hr) as (q' & n & E & Hr' & Hc).
  exists q'. split; [done|split; [|done]]. exists (l ++ [(n, x)]). by rewrite fmap_app.
Qed.

Lemma take_holds q xs :
  holds q xs ->
  exists q', takeOnce q = (Ok (head xs), q') /\ holds q' (tail xs) /\ mCondition q' = mCondition q.
Proof.
  intros (l & Hr & ->). destruct l as [|[n x] l].
  - exists q. split; [by apply take_empty|]. split; [by exists []|done].
  - destruct (take_rep q n x l Hr) as (q' & E & Hr' & Hc). exists q'.
    split; [done|split; [by exists l|done]].
Qed.

Lemma remove_holds x q xs :
  holds q xs ->
  exists q', remove x q = (Ok (bool_decide (x ∈ xs)), q') /\
    holds q' (filter (fun y => y <> x) xs) /\ mCondition q' = mCondition q.
Proof.
  intros (l & Hr & ->). destruct (remove_rep x q l Hr) as (q' & l' & E & Hr' & Hl & Hc).
  exists q'. split; [done|split; [by exists l'|done]].
Qed.

Lemma run_spec o q xs :
  holds q xs ->
  exists q', run o q = (Ok (spec o xs).1.1, q') /\ holds q' (spec o xs).1.2 /\
    mCondition q' = (mCondition q + (spec o xs).2)%nat.
Proof.
  intros H. destruct o as [x| |x]; cbn.
  - destruct (put_holds x q xs H) as (q' & E & Hh & Hc). exists q'. mstep E.
    split; [done|split; [done|lia]].
  - destruct (take_holds q xs H) as (q' & E & Hh & Hc). exists q'. mstep E.
    split; [done|split; [done|lia]].
  - destruct (remove_holds x q xs H) as (q' & E & Hh & Hc). exists q'. mstep E.
    split; [done|split; [done|lia]].
Qed.

Lemma holds_empty : holds empty [].
Proof. exists []. split; [|done]. split; [done|split; [constructor|]]. cbn. apply dom_empty_L. Qed.

(** C18: on the nodes of a queue that holds a sequence, every operation is
    the operation on the sequence: [put] appends, [take] gets the first item or waits, [remove]
    takes out every equal item and says whether there was one.  No call fails, follows a deleted
    node or leaks one: the nodes of the list stay all there is on the heap, and the destructor
    deletes them all. *)
Theorem blockingqueue_refines o q xs (H : holds q xs) :
  (exists q', run o q = (Ok (spec o xs).1.1, q') /\ holds q' (spec o xs).1.2 /\
    mCondition q' = (mCondition q + (spec o xs).2)%nat) /\
  (exists q', destroy (length xs) (mHeadNode q) q = (Ok tt, q') /\ nodes q' = ∅).
Proof.
  split; [by apply run_spec|]. destruct H as (l & Hr & ->).
  apply destroy_rep with l; [by destruct q|by rewrite length_fmap].
Qed.

End queue.
Arguments op : clear implicits.
Arguments Node : clear implicits.
Arguments queue : clear implicits.
End LinkedBlockingQueue.

(** ** The thread pool

    A worker alternates between the test of its loop ([AtLoop]), [take] ([Taking], [Waiting] in
    [await], [Woken] by a signal and waiting for the lock) and the runnable it took, which it has
    not started yet ([Holding]) or is in ([Running]): other threads can run between the two.
    A runnable is a number, [None] is [nullptr].  The thread that shuts the pool down is at one
    of the points of [Shutdown].  [step] is one step of the whole: the label says whose it is,
    and which waiting worker a signal wakes up.  [submitted], [taken], [started] and [cancelled]
    record what happened to the runnables, each in the order it happened. *)
Module ThreadPoolExecutor.
Import LinkedBlockingQueue.

Definition runnable : Type := option nat.

(** [Holding]: the worker has taken a runnable and has not started it. *)
Inductive WorkerState := AtLoop | Taking | Waiting | Woken | Holding (r : nat) | Running (r : nat) | Exited.

(* util/concurrent/ThreadPoolExecutor.h:51-66 ThreadPoolExecutor::WorkerThread *)
Record WorkerThread := mkWorker { state : WorkerState; mInterrupted : bool }.

Inductive Shutdown := NoShutdown | Interrupting (i : nat) | Putting (i : nat) | Joining (i : nat) | Returned.

(* util/concurrent/ThreadPoolExecutor.h:73-78 ThreadPoolExecutor *)
Record pool := mkPool {
  mShutdownAllowed : bool;
  mQueue : queue runnable;
  mWorkerThreads : list WorkerThread;
  shutting : Shutdown;
  submitted : list nat;
  started : list nat;
  cancelled : list nat;
  taken : list nat;
}.

Definition set_queue (q : queue runnable) (s : pool) : pool :=
  mkPool (mShutdownAllowed s) q (mWorkerThreads s) (shutting s) (submitted s) (started s) (cancelled s) (taken s).
Definition set_workers (ws : list WorkerThread) (s : pool) : pool :=
  mkPool (mShutdownAllowed s) (mQueue s) ws (shutting s) (submitted s) (started s) (cancelled s) (taken s).
Definition set_shutting (p : Shutdown) (s : pool) : pool :=
  mkPool (mShutdownAllowed s) (mQueue s) (mWorkerThreads s) p (submitted s) (started s) (cancelled s) (taken s).
Definition log_submitted (r : runnable) (s : pool) : pool :=
  mkPool (mShutdownAllowed s) (mQueue s) (mWorkerThreads s) (shutting s)
    (submitted s ++ option_list r) (started s) (cancelled s) (taken s).
Definition log_started (r : nat) (s : pool) : pool :=
  mkPool (mShutdownAllowed s) (mQueue s) (mWorkerThreads s) (shutting s)
    (submitted s) (started s ++ [r]) (cancelled s) (taken s).
Definition log_taken (r : nat) (s : pool) : pool :=
  mkPool (mShutdownAllowed s) (mQueue s) (mWorkerThreads s) (shutting s)
    (submitted s) (started s) (cancelled s) (taken s ++ [r]).
Definition log_cancelled (rs : list nat) (s : pool) : pool :=
  mkPool (mShutdownAllowed s) (mQueue s) (mWorkerThreads s) (shutting s)
    (submitted s) (started s) (cancelled s ++ rs) (taken s).

(** The constructor and [start]: the workers run, with the empty queue. *)
(* util/concurrent/ThreadPoolExecutor.cpp:37-45 ThreadPoolExecutor::start *)
Definition start (mSize : nat) (shutdownAllowed : bool) : pool :=
  mkPool shutdownAllowed LinkedBlockingQueue.empty (replicate mSize (mkWorker AtLoop false))
    NoShutdown [] [] [] [].

(** A call on the queue that ends with a value. *)
Definition on_queue {A} (m : M (queue runnable) A) (s : pool) : option (A * pool) :=
  match m (mQueue s) with
  | (Ok a, q) => Some (a, set_queue q s)
  | _ => None
  end.

Definition set_state (i : nat) (w : WorkerState) (s : pool) : option pool :=
  c ← mWorkerThreads s !! i;
  Some (set_workers (<[i := mkWorker w (mInterrupted c)]> (mWorkerThreads s)) s).

#[export] Instance WorkerState_eq_dec : EqDecision WorkerState.
Proof. solve_decision. Defined.

Definition waits (w : WorkerThread) : bool := bool_decide (state w = Waiting).

(** [signal]: wakes up the waiting worker [j]; if none waits, there is nobody to wake up. *)
Definition wake (j : nat) (s : pool) : option pool :=
  if existsb waits (mWorkerThreads s) then
    c ← mWorkerThreads s !! j;
    if waits c then set_state j Woken s else None
  else Some s.

(** [put] and the signal it sends. *)
Definition put_and_wake (r : runnable) (j : nat) (s : pool) : option pool :=
  '(_, s) ← on_queue (put r) s; wake j s.

(* util/concurrent/ThreadPoolExecutor.cpp:82-84 ThreadPoolExecutor::execute *)
Definition execute (r : runnable) (j : nat) (s : pool) : option pool :=
  log_submitted r <$> put_and_wake r j s.

(** The runnables the queue holds that [cancel] is about to take out. *)
Fixpoint items (fuel : nat) (p : option nat) (q : queue runnable) : list runnable :=
  match fuel, p with
  | S fuel, Some n =>
      match nodes q !! n with
      | Some c => item c :: items fuel (nextNode c) q
      | None => []
      end
  | _, _ => []
  end.
Definition pending (s : pool) : list runnable :=
  items (size (nodes (mQueue s))) (mHeadNode (mQueue s)) (mQueue s).

(* util/concurrent/ThreadPoolExecutor.cpp:86-88 ThreadPoolExecutor::cancel *)
Definition cancel (r : runnable) (s : pool) : option (bool * pool) :=
  '(b, s') ← on_queue (remove r) s;
  Some (b, log_cancelled (omap id (filter (fun x => x = r) (pending s))) s').

(** One step of a worker: to test the flag, to take a runnable, to start it, to come to its end. *)
(* util/concurrent/ThreadPoolExecutor.cpp:67-76 ThreadPoolExecutor::WorkerThread::run *)
Definition work (i : nat) (s : pool) : option pool :=
  c ← mWorkerThreads s !! i;
  match state c with
  | AtLoop => set_state i (if mInterrupted c then Exited else Taking) s
  | Taking | Woken =>
      '(x, s) ← on_queue takeOnce s;
      match x with
      | Some (Some r) => log_taken r <$> set_state i (Holding r) s
      | Some None => set_state i Exited s
      | None => set_state i Waiting s
      end
  | Holding r => log_started r <$> set_state i (Running r) s
  | Running _ => set_state i AtLoop s
  | Waiting | Exited => None
  end.

(** [await] may return without a signal. *)
Definition spurious (i : nat) (s : pool) : option pool :=
  c ← mWorkerThreads s !! i; if waits c then set_state i Woken s else None.

(* lang/Thread.cpp:97-99 Thread::interrupt *)
Definition interrupt (i : nat) (s : pool) : option pool :=
  c ← mWorkerThreads s !! i;
  Some (set_workers (<[i := mkWorker (state c) true]> (mWorkerThreads s)) s).

(* lang/Thread.cpp:58-65 Thread::join *)
Definition joined (i : nat) (s : pool) : bool :=
  match mWorkerThreads s !! i with
  | Some c => bool_decide (state c = Exited)
  | None => false
  end.

(** The next statement of [shutdown]; a [join] that waits is no step. *)
(* util/concurrent/ThreadPoolExecutor.cpp:47-65 ThreadPoolExecutor::shutdown *)
Definition shutdown (shutdownAllowed : bool) (j : nat) (s : pool) : option pool :=
  let mSize := length (mWorkerThreads s) in
  match shutting s with
  | NoShutdown =>
      if shutdownAllowed then Some (set_shutting (Interrupting 0) s) else Some s
  | Interrupting i =>
      if (i <? mSize)%nat then set_shutting (Putting i) <$> interrupt i s
      else Some (set_shutting (Joining 0) s)
  | Putting i => set_shutting (Interrupting (S i)) <$> put_and_wake None j s
  | Joining i =>
      if (i <? mSize)%nat then
        if joined i s then Some (set_shutting (Joining (S i)) s) else None
      else Some (set_shutting Returned s)
  | Returned => None
  end.

(** The public [shutdown] passes [mShutdownAllowed], the destructor passes [true]. *)
Inductive label :=
  | Execute (r : runnable) (j : nat)
  | Cancel (r : runnable)
  | Work (i : nat)
  | Spurious (i : nat)
  | ShutDown (destructor : bool) (j : nat).

Definition step (l : label) (s : pool) : option pool :=
  match l with
  | Execute r j => execute r j s
  | Cancel r => snd <$> cancel r s
  | Work i => work i s
  | Spurious i => spurious i s
  | ShutDown destructor j => shutdown (destructor || mShutdownAllowed s) j s
  end.

Fixpoint steps (ls : list label) (s : pool) : option pool :=
  match ls with
  | [] => Some s
  | l :: ls => s ← step l s; steps ls s
  end.

(** *** What the steps keep *)

(** The number of workers, weighted. *)
Definition total (f : WorkerThread -> nat) (ws : list WorkerThread) : nat := sum_list_with f ws.
Definition in_state (w : WorkerState) (c : WorkerThread) : nat := if bool_decide (state c = w) then 1 else 0.

Lemma total_cons f c ws : total f (c :: ws) = (f c + total f ws)%nat.
Proof. reflexivity. Qed.

Lemma total_insert f ws i c d :
  ws !! i = Some c -> (total f (<[i := d]> ws) + f c = total f ws + f d)%nat.
Proof.
  intros H. unfold total. rewrite <- (take_drop_middle ws i c H) at 2.
  rewrite insert_take_drop by (by eapply lookup_lt_Some).
  rewrite !sum_list_with_app. cbn. lia.
Qed.

Lemma total_0 f ws : total f ws = 0%nat <-> Forall (fun c => f c = 0%nat) ws.
Proof.
  induction ws as [|c ws IH]; cbn; [done|]. rewrite Forall_cons, <- IH. unfold total. lia.
Qed.

Lemma total_pos f ws : (0 < total f ws)%nat -> exists i c, ws !! i = Some c /\ (0 < f c)%nat.
Proof.
  induction ws as [|c ws IH]; cbn; [lia|]. intros H. destruct (decide (0 < f c)%nat).
  - by exists 0%nat, c.
  - destruct IH as (i & d & Hi & Hd); [unfold total; lia|]. by exists (S i), d.
Qed.

Lemma total_member f ws i c k : ws !! i = Some c -> f c = S k -> (0 < total f ws)%nat.
Proof.
  intros Hi Hc. pose proof (total_insert f ws i c c Hi) as H. rewrite list_insert_id in H by done.
  destruct (total f ws) eqn:E; [|lia]. apply total_0 in E. rewrite Forall_lookup in E.
  specialize (E i c Hi). lia.
Qed.

Lemma total_filter w ws : total (in_state w) ws = length (filter (fun c => state c = w) ws).
Proof.
  induction ws as [|c ws IH]; [done|]. rewrite total_cons, IH, filter_cons. unfold in_state.
  case_bool_decide; [by rewrite decide_True|by rewrite decide_False].
Qed.

Lemma total_length f ws : Forall (fun c => f c <= 1)%nat ws -> (total f ws <= length ws)%nat.
Proof. induction 1; cbn; [done|]. unfold total in *. lia. Qed.

#[local] Arguments total : simpl never.

Lemma existsb_waits ws : existsb waits ws = false -> total (in_state Waiting) ws = 0%nat.
Proof.
  induction ws as [|c ws IH]; [done|]. cbn [existsb]. intros [Hc Hw]%orb_false_iff.
  rewrite total_cons, IH by done. unfold waits in Hc. unfold in_state. by rewrite Hc.
Qed.

(** The runnables that are taken and not started. *)
Definition held_by (c : WorkerThread) : list nat := match state c with Holding r => [r] | _ => [] end.
Definition held (ws : list WorkerThread) : list nat := ws ≫= held_by.

Lemma held_insert ws i c d : ws !! i = Some c -> held (<[i := d]> ws) ++ held_by c ≡ₚ held ws ++ held_by d.
Proof.
  intros H. unfold held. rewrite <- (take_drop_middle ws i c H) at 2.
  rewrite insert_take_drop by (by eapply lookup_lt_Some). rewrite !bind_app. cbn [mbind list_bind]. solve_Permutation.
Qed.

Lemma held_single ws i c d :
  ws !! i = Some c -> length ws = 1%nat -> held ws = held_by c /\ held (<[i := d]> ws) = held_by d.
Proof.
  destruct ws as [|e [|]]; try done. intros H _. destruct i as [|i]; [|by destruct i].
  injection H as ->. unfold held. cbn. by rewrite !app_nil_r.
Qed.

Lemma held_same ws i c d : ws !! i = Some c -> held_by d = held_by c -> held (<[i := d]> ws) = held ws.
Proof.
  intros H E. unfold held. rewrite <- (take_drop_middle ws i c H) at 2.
  rewrite insert_take_drop by (by eapply lookup_lt_Some). rewrite !bind_app. cbn [mbind list_bind]. by rewrite E.
Qed.

#[local] Arguments held : simpl never.

(** What the pool holds: the queue, the accounts of the runnables (in their order, none lost and
    none twice), and a woken worker for every item while somebody waits. *)
Record inv (s : pool) (xs : list runnable) : Prop := {
  inv_queue : holds (mQueue s) xs;
  inv_order : taken s ++ omap id xs `sublist_of` submitted s;
  inv_account : submitted s ≡ₚ taken s ++ omap id xs ++ cancelled s;
  inv_held : taken s ≡ₚ started s ++ held (mWorkerThreads s);
  inv_single : length (mWorkerThreads s) = 1%nat -> taken s = started s ++ held (mWorkerThreads s);
  inv_wakeup : (0 < total (in_state Waiting) (mWorkerThreads s))%nat ->
    (length xs <= total (in_state Woken) (mWorkerThreads s))%nat;
}.

Lemma items_rep q l p fuel :
  seg (nodes q) p l None -> (length l <= fuel)%nat -> items fuel p q = l.*2.
Proof.
  revert p fuel. induction l as [|[n x] l IH]; intros p [|fuel] Hs Hf; cbn in Hs, Hf; try lia.
  - done.
  - by subst.
  - destruct Hs as (-> & p' & Hn & Hl). cbn. rewrite Hn. cbn. f_equal. apply IH; [done|lia].
Qed.

Lemma pending_holds s xs : holds (mQueue s) xs -> pending s = xs.
Proof.
  intros (l & Hr & ->). unfold pending. apply items_rep; [apply Hr|].
  by rewrite (rep_size _ _ Hr).
Qed.

Lemma set_state_Some i w s s' :
  set_state i w s = Some s' ->
  exists c, mWorkerThreads s !! i = Some c /\
    s' = set_workers (<[i := mkWorker w (mInterrupted c)]> (mWorkerThreads s)) s.
Proof.
  unfold set_state. destruct (mWorkerThreads s !! i) as [c|] eqn:E; [|done].
  cbn. intros [= <-]. by exists c.
Qed.

(** The state of worker [i] is now [w]. *)
Definition become (i : nat) (c : WorkerThread) (w : WorkerState) (s : pool) : pool :=
  set_workers (<[i := mkWorker w (mInterrupted c)]> (mWorkerThreads s)) s.

(** What a step of the worker [c], the [i]th, does to a pool that holds [xs]. *)
Inductive worked (i : nat) (c : WorkerThread) (s : pool) : list runnable -> pool -> list runnable -> Prop :=
  | worked_test xs :
      state c = AtLoop ->
      worked i c s xs (become i c (if mInterrupted c then Exited else Taking) s) xs
  | worked_end r xs : state c = Running r -> worked i c s xs (become i c AtLoop s) xs
  | worked_run r xs q :
      state c = Taking \/ state c = Woken -> holds q xs ->
      worked i c s (Some r :: xs) (log_taken r (become i c (Holding r) (set_queue q s))) xs
  | worked_start r xs : state c = Holding r -> worked i c s xs (log_started r (become i c (Running r) s)) xs
  | worked_null xs q :
      state c = Taking \/ state c = Woken -> holds q xs ->
      worked i c s (None :: xs) (become i c Exited (set_queue q s)) xs
  | worked_wait q :
      state c = Taking \/ state c = Woken -> holds q [] ->
      worked i c s [] (become i c Waiting (set_queue q s)) [].

Lemma set_state_eq i w s c :
  mWorkerThreads s !! i = Some c -> set_state i w s = Some (become i c w s).
Proof. intros H. unfold set_state. by rewrite H. Qed.

Lemma work_take i s xs c :
  holds (mQueue s) xs -> mWorkerThreads s !! i = Some c -> state c = Taking \/ state c = Woken ->
  exists s' xs', work i s = Some s' /\ worked i c s xs s' xs'.
Proof.
  intros Hq Hi Hc. destruct (take_holds _ _ Hq) as (q & E & Hh & _).
  assert (work i s = match head xs with
      | Some (Some r) => Some (log_taken r (become i c (Holding r) (set_queue q s)))
      | Some None => Some (become i c Exited (set_queue q s))
      | None => Some (become i c Waiting (set_queue q s))
      end) as Ew.
  { unfold work. rewrite Hi. cbn. destruct Hc as [-> | ->];
      unfold on_queue; rewrite E; cbn; destruct (head xs) as [[r|]|];
      by rewrite (set_state_eq _ _ _ c). }
  destruct xs as [|[r|] xs]; cbn in Ew, Hh; do 2 eexists; (split; [exact Ew|]); by constructor.
Qed.

Lemma work_worked i s xs s' :
  holds (mQueue s) xs -> work i s = Some s' ->
  exists c xs', mWorkerThreads s !! i = Some c /\ worked i c s xs s' xs'.
Proof.
  intros Hq Hw. destruct (mWorkerThreads s !! i) as [c|] eqn:Hi; [|by unfold work in Hw; rewrite Hi in Hw].
  exists c. pose proof Hw as Hw'. unfold work in Hw'. rewrite Hi in Hw'. cbn in Hw'.
  destruct (state c) as [| | | |r|r|] eqn:Hc; try discriminate.
  - rewrite (set_state_eq _ _ _ c) in Hw' by done. injection Hw' as <-.
    exists xs. split; [done|by constructor].
  - destruct (work_take i s xs c Hq Hi) as (s'' & xs' & E & H); [by left|].
    assert (s'' = s') as -> by congruence. by exists xs'.
  - destruct (work_take i s xs c Hq Hi) as (s'' & xs' & E & H); [by right|].
    assert (s'' = s') as -> by congruence. by exists xs'.
  - rewrite (set_state_eq _ _ _ c) in Hw' by done. injection Hw' as <-.
    exists xs. split; [done|by eapply worked_start].
  - rewrite (set_state_eq _ _ _ c) in Hw' by done. injection Hw' as <-.
    exists xs. split; [done|by eapply worked_end].
Qed.

(** What [put] does: the item is in the queue, and a waiting worker, if there is one, is woken. *)
Lemma put_and_wake_Some r j s xs s' :
  holds (mQueue s) xs -> put_and_wake r j s = Some s' ->
  exists q, holds q (xs ++ [r]) /\
    ((s' = set_queue q s /\ total (in_state Waiting) (mWorkerThreads s) = 0%nat) \/
     (exists c, mWorkerThreads s !! j = Some c /\ state c = Waiting /\
        s' = become j c Woken (set_queue q s))).
Proof.
  intros Hq. destruct (put_holds r _ _ Hq) as (q & E & Hh & _).
  unfold put_and_wake, on_queue. rewrite E. cbn. intros H. exists q. split; [done|].
  unfold wake in H. cbn [mWorkerThreads set_queue] in H.
  destruct (existsb waits (mWorkerThreads s)) eqn:Ew.
  - right. destruct (mWorkerThreads s !! j) as [c|] eqn:Hj; [|done]. cbn in H.
    destruct (waits c) eqn:Hc; [|done]. apply bool_decide_eq_true in Hc.
    rewrite (set_state_eq _ _ _ c) in H by done. injection H as <-. by exists c.
  - left. injection H as <-. split; [done|]. by apply existsb_waits.
Qed.

(** [put] always goes through, for some choice of the worker to wake. *)
Lemma put_and_wake_enabled r s xs :
  holds (mQueue s) xs -> exists j s', put_and_wake r j s = Some s'.
Proof.
  intros Hq. destruct (put_holds r _ _ Hq) as (q & E & Hh & _).
  unfold put_and_wake, on_queue. rewrite E. cbn. unfold wake. cbn [mWorkerThreads set_queue].
  destruct (existsb waits (mWorkerThreads s)) eqn:Ew; [|by eexists 0%nat, _].
  apply existsb_exists in Ew as (c & Hc & Ew). apply list_elem_of_In, list_elem_of_lookup in Hc as (j & Hj).
  exists j. rewrite Hj. cbn. rewrite Ew, (set_state_eq _ _ _ c) by done. by eexists.
Qed.

(** Counts the states before and after the worker at [Hi] changes its state, which [Hc] names. *)
Ltac count_states Hi Hc :=
  repeat match goal with
  | |- context [total ?f (<[?i := ?d]> ?ws)] =>
      let H := fresh "Ht" in
      pose proof (total_insert f ws i _ d Hi) as H; unfold in_state at 2 4 in H;
      rewrite Hc in H; cbn [state] in H;
      repeat first [rewrite bool_decide_eq_true_2 in H by reflexivity
        | rewrite bool_decide_eq_false_2 in H by discriminate];
      revert H; generalize (total f (<[i := d]> ws)); intros ? H
  end.

Lemma omap_app_some (xs : list runnable) (r : runnable) : omap id (xs ++ [r]) = omap id xs ++ option_list r.
Proof. rewrite omap_app. by destruct r. Qed.

Lemma inv_put r j s xs s' :
  inv s xs -> put_and_wake r j s = Some s' -> inv (log_submitted r s') (xs ++ [r]).
Proof.
  intros [Hq Ho Ha Hh Hsg Hw] H. destruct (put_and_wake_Some _ _ _ _ _ Hq H) as (q & Hq' & Hs).
  assert (submitted s' = submitted s /\ taken s' = taken s /\ cancelled s' = cancelled s /\ mQueue s' = q /\
    started s' = started s /\ length (mWorkerThreads s') = length (mWorkerThreads s) /\
    held (mWorkerThreads s') = held (mWorkerThreads s)) as (E1 & E2 & E3 & E4 & E5 & E6 & E7).
  { destruct Hs as [[-> _]|(c & Hj & Hc & ->)]; [done|]. cbn. rewrite length_insert. split_and!; try done.
    eapply held_same; [exact Hj|]. unfold held_by. by rewrite Hc. }
  split; cbn.
  - by rewrite E4.
  - rewrite E1, E2, omap_app_some, app_assoc. by apply sublist_app.
  - rewrite E1, E2, E3, omap_app_some, Ha. solve_Permutation.
  - by rewrite E2, E5, E7.
  - by rewrite E2, E5, E6, E7.
  - rewrite length_app. cbn. destruct Hs as [[-> H0]|(c & Hj & Hc & ->)]; cbn; [lia|].
    count_states Hj Hc. lia.
Qed.

Lemma inv_shutting p s xs : inv s xs -> inv (set_shutting p s) xs.
Proof. by intros []. Qed.

Lemma inv_worked i c s xs s' xs' :
  inv s xs -> mWorkerThreads s !! i = Some c -> worked i c s xs s' xs' -> inv s' xs'.
Proof.
  intros [Hq Ho Ha Hh Hsg Hw] Hi Hwk.
  assert (forall w, held_by c = [] -> held_by (mkWorker w (mInterrupted c)) = [] -> held (<[i := mkWorker w (mInterrupted c)]> (mWorkerThreads s)) = held (mWorkerThreads s)) as Hsame.
  { intros w E1 E2. eapply held_same; [exact Hi|congruence]. }
  destruct Hwk as [xs Hc|r xs Hc|r xs q Hc Hhd|r xs Hc|xs q Hc Hhd|q Hc Hhd].
  - assert (held_by c = []) as E by (unfold held_by; by rewrite Hc).
    split; try done; cbn; rewrite ?length_insert, ?Hsame by (done || by destruct (mInterrupted c)); try done.
    destruct (mInterrupted c) eqn:?; count_states Hi Hc; lia.
  - assert (held_by c = []) as E by (unfold held_by; by rewrite Hc).
    split; try done; cbn; rewrite ?length_insert, ?Hsame by done; try done. count_states Hi Hc. lia.
  - assert (held_by c = []) as E by (unfold held_by; by destruct Hc as [-> | ->]). split; cbn.
    + done.
    + by rewrite <- app_assoc.
    + rewrite Ha. cbn. solve_Permutation.
    + pose proof (held_insert _ i c (mkWorker (Holding r) (mInterrupted c)) Hi) as Hp. rewrite E, app_nil_r in Hp.
      rewrite Hh, Hp. cbn. solve_Permutation.
    + rewrite length_insert. intros H1. destruct (held_single _ i c (mkWorker (Holding r) (mInterrupted c)) Hi H1) as [E1 E2].
      rewrite E2, (Hsg H1), E1, E. by rewrite app_nil_r.
    + cbn in Hw. destruct Hc as [Hc | Hc]; count_states Hi Hc; lia.
  - assert (held_by c = [r]) as E by (unfold held_by; by rewrite Hc). split; try done; cbn.
    + pose proof (held_insert _ i c (mkWorker (Running r) (mInterrupted c)) Hi) as Hp. rewrite E in Hp. cbn in Hp.
      rewrite app_nil_r in Hp. rewrite Hh, <- Hp. solve_Permutation.
    + rewrite length_insert. intros H1. destruct (held_single _ i c (mkWorker (Running r) (mInterrupted c)) Hi H1) as [E1 E2].
      rewrite E2, (Hsg H1), E1, E. by rewrite app_nil_r.
    + count_states Hi Hc. lia.
  - assert (held_by c = []) as E by (unfold held_by; by destruct Hc as [-> | ->]).
    split; cbn; rewrite ?length_insert, ?Hsame by done; try done. cbn in Hw. destruct Hc as [Hc | Hc]; count_states Hi Hc; lia.
  - assert (held_by c = []) as E by (unfold held_by; by destruct Hc as [-> | ->]).
    split; cbn; rewrite ?length_insert, ?Hsame by done; try done. cbn in Hw. destruct Hc as [Hc | Hc]; count_states Hi Hc; lia.
Qed.

Lemma spurious_Some i s s' :
  spurious i s = Some s' ->
  exists c, mWorkerThreads s !! i = Some c /\ state c = Waiting /\ s' = become i c Woken s.
Proof.
  unfold spurious. destruct (mWorkerThreads s !! i) as [c|] eqn:Hi; [|done]. cbn.
  destruct (waits c) eqn:Hc; [|done]. rewrite (set_state_eq _ _ _ c) by done. intros [= <-].
  exists c. split; [done|split; [|done]]. by apply bool_decide_eq_true in Hc.
Qed.

Lemma omap_filter (P : runnable -> Prop) `{!forall x, Decision (P x)} xs :
  omap id xs ≡ₚ omap id (filter (fun x => ~ P x) xs) ++ omap id (filter P xs).
Proof.
  induction xs as [|x xs IH]; [done|]. rewrite !filter_cons. cbn [omap list_omap].
  destruct (decide (P x)); [rewrite decide_False by tauto|rewrite decide_True by tauto];
    destruct x as [r|]; cbn; rewrite IH; solve_Permutation.
Qed.

Lemma sublist_omap (xs ys : list runnable) : xs `sublist_of` ys -> omap id xs `sublist_of` omap id ys.
Proof.
  induction 1 as [|x xs ys H IH|x xs ys H IH]; [done|..]; destruct x as [r|]; cbn; try done.
  - by apply sublist_skip.
  - by apply sublist_cons.
Qed.

Lemma cancel_Some r s xs b s' :
  inv s xs -> cancel r s = Some (b, s') ->
  b = bool_decide (r ∈ xs) /\ inv s' (filter (fun x => x <> r) xs) /\
  mWorkerThreads s' = mWorkerThreads s /\ shutting s' = shutting s.
Proof.
  intros [Hq Ho Ha Hhd Hsg Hw]. destruct (remove_holds r _ _ Hq) as (q & E & Hh & _).
  unfold cancel, on_queue. rewrite E, (pending_holds s xs Hq). cbn. intros [= <- <-].
  split; [done|split; [|done]]. split; cbn.
  - done.
  - etrans; [|exact Ho]. apply sublist_app; [done|]. apply sublist_omap, sublist_filter.
  - rewrite Ha, (omap_filter (fun x => x = r) xs). solve_Permutation.
  - done.
  - done.
  - intros H. etrans; [|apply Hw, H]. apply length_filter.
Qed.

Lemma interrupt_Some i s s' :
  interrupt i s = Some s' ->
  exists c, mWorkerThreads s !! i = Some c /\
    s' = set_workers (<[i := mkWorker (state c) true]> (mWorkerThreads s)) s.
Proof.
  unfold interrupt. destruct (mWorkerThreads s !! i) as [c|] eqn:Hi; [|done]. cbn.
  intros [= <-]. by exists c.
Qed.

Lemma total_interrupt w i c ws :
  ws !! i = Some c -> total (in_state w) (<[i := mkWorker (state c) true]> ws) = total (in_state w) ws.
Proof.
  intros Hi. pose proof (total_insert (in_state w) ws i c (mkWorker (state c) true) Hi) as H.
  change (in_state w (mkWorker (state c) true)) with (in_state w c) in H. lia.
Qed.

Lemma log_nothing s : log_submitted None s = s.
Proof. destruct s. unfold log_submitted. cbn. by rewrite app_nil_r. Qed.

Lemma pool_inv_step l s xs s' : inv s xs -> step l s = Some s' -> exists xs', inv s' xs'.
Proof.
  intros Hv. destruct l as [r j|r|i|i|d j]; cbn.
  - unfold execute. destruct (put_and_wake r j s) as [s1|] eqn:E; [|done]. cbn. intros [= <-].
    eexists. by eapply inv_put.
  - destruct (cancel r s) as [[b s1]|] eqn:E; [|done]. cbn. intros [= <-].
    eexists. by eapply cancel_Some.
  - intros H. destruct (work_worked i s xs s' (inv_queue _ _ Hv) H) as (c & xs' & Hi & Hw).
    exists xs'. by eapply inv_worked.
  - intros (c & Hi & Hc & ->)%spurious_Some. exists xs. destruct Hv as [Hq Ho Ha Hh Hsg Hw].
    assert (held (<[i := mkWorker Woken (mInterrupted c)]> (mWorkerThreads s)) = held (mWorkerThreads s)) as E.
    { eapply held_same; [exact Hi|]. unfold held_by. by rewrite Hc. }
    split; try done; cbn; rewrite ?length_insert, ?E; try done. count_states Hi Hc. lia.
  - unfold shutdown. destruct (shutting s) as [|i|i|i|]; [| | | |done].
    + case_match; intros [= <-]; exists xs; [by apply inv_shutting|done].
    + case_match; [|intros [= <-]; exists xs; by apply inv_shutting].
      destruct (interrupt i s) as [s1|] eqn:E; [|done]. cbn. intros [= <-]. exists xs.
      apply inv_shutting. apply interrupt_Some in E as (c & Hi & ->). destruct Hv as [Hq Ho Ha Hh Hsg Hw].
      assert (held (<[i := mkWorker (state c) true]> (mWorkerThreads s)) = held (mWorkerThreads s)) as Eh by (by eapply held_same).
      split; try done; cbn; rewrite ?length_insert, ?Eh; try done. by rewrite !total_interrupt.
    + destruct (put_and_wake None j s) as [s1|] eqn:E; [|done]. cbn. intros [= <-].
      eexists. apply inv_shutting. rewrite <- (log_nothing s1). by eapply inv_put.
    + case_match; [case_match; [|done]|]; intros [= <-]; exists xs; by apply inv_shutting.
Qed.

Lemma total_replicate f n c : total f (replicate n c) = (n * f c)%nat.
Proof. induction n as [|n IH]; [done|]. rewrite replicate_S, total_cons, IH. lia. Qed.

Lemma pool_inv_start n b : inv (start n b) [].
Proof.
  assert (held (replicate n (mkWorker AtLoop false)) = []) as E by (by induction n).
  split; cbn; rewrite ?E; try done; [apply holds_empty|]. rewrite total_replicate. cbn. lia.
Qed.

Lemma steps_app ls ls' s : steps (ls ++ ls') s = steps ls s ≫= steps ls'.
Proof.
  revert s. induction ls as [|l ls IH]; intros s; [done|]. cbn. destruct (step l s); [apply IH|done].
Qed.

Lemma steps_inv ls s xs s' : inv s xs -> steps ls s = Some s' -> exists xs', inv s' xs'.
Proof.
  revert s xs. induction ls as [|l ls IH]; intros s xs Hv; cbn.
  - intros [= <-]. by exists xs.
  - destruct (step l s) as [s1|] eqn:E; [|done]. cbn. intros H.
    destruct (pool_inv_step l s xs s1 Hv E) as (xs1 & Hv1). by eapply IH.
Qed.

Lemma put_workers r j s s' : put_and_wake r j s = Some s' -> length (mWorkerThreads s') = length (mWorkerThreads s).
Proof.
  unfold put_and_wake, on_queue. destruct (put r (mQueue s)) as [[] q]; try done. cbn. unfold wake. cbn [mWorkerThreads set_queue].
  destruct (existsb waits (mWorkerThreads s)); [|by intros [= <-]]. destruct (mWorkerThreads s !! j) as [c|] eqn:Hj; [|done]. cbn.
  destruct (waits c); [|done]. rewrite (set_state_eq _ _ _ c) by done. intros [= <-]. apply length_insert.
Qed.

Lemma step_workers l s s' : step l s = Some s' -> length (mWorkerThreads s') = length (mWorkerThreads s).
Proof.
  assert (forall i w s s', set_state i w s = Some s' -> length (mWorkerThreads s') = length (mWorkerThreads s)) as Hset.
  { intros i w t t' (c & _ & ->)%set_state_Some. apply length_insert. }
  destruct l as [r j|r|i|i|d j]; cbn.
  - unfold execute. destruct (put_and_wake r j s) as [s1|] eqn:E; [|done]. intros [= <-]. by apply put_workers in E.
  - unfold cancel, on_queue. destruct (remove r (mQueue s)) as [[] q]; try done. by intros [= <-].
  - unfold work. destruct (mWorkerThreads s !! i) as [c|]; [|done]. cbn.
    assert (forall t t', (log_taken t <$> t' : option pool) = Some s' -> exists u, t' = Some u /\ mWorkerThreads s' = mWorkerThreads u) as Hl1.
    { intros t [u|]; [|done]. intros [= <-]. by exists u. }
    assert (forall t t', (log_started t <$> t' : option pool) = Some s' -> exists u, t' = Some u /\ mWorkerThreads s' = mWorkerThreads u) as Hl2.
    { intros t [u|]; [|done]. intros [= <-]. by exists u. }
    destruct (state c); try done; try apply Hset.
    1-2: unfold on_queue; destruct (takeOnce (mQueue s)) as [[x| | |] q]; try done; cbn; destruct x as [[x|]|];
      [intros (u & E & ->)%Hl1|intros E|intros E]; by apply Hset in E.
    intros (u & E & ->)%Hl2. by apply Hset in E.
  - by intros (c & Hi & Hc & ->)%spurious_Some; apply length_insert.
  - unfold shutdown. destruct (shutting s) as [|i|i|i|]; [| | | |done].
    + case_match; by intros [= <-].
    + case_match; [|by intros [= <-]]. destruct (interrupt i s) as [s1|] eqn:E; [|done]. intros [= <-].
      apply interrupt_Some in E as (c & _ & ->). apply length_insert.
    + destruct (put_and_wake None j s) as [s1|] eqn:E; [|done]. intros [= <-]. by apply put_workers in E.
    + case_match; [case_match; [|done]|]; by intros [= <-].
Qed.

Lemma steps_workers ls s s' : steps ls s = Some s' -> length (mWorkerThreads s') = length (mWorkerThreads s).
Proof.
  revert s. induction ls as [|l ls IH]; intros s; cbn; [by intros [= <-]|].
  destruct (step l s) as [s1|] eqn:E; [|done]. intros H. by rewrite (IH _ H), (step_workers _ _ _ E).
Qed.

(** C16: However the submitters, the workers, cancellations and the shutdown interleave, the workers take the runnables
    out of the queue in the order they were submitted in; each one submitted is started once, about to be started by the worker that
    took it, cancelled once or still in the queue; and a pool of one worker starts them in the order they were submitted in.
    Several workers may start what they took one after the other in another order, since a worker can be interrupted
    between the two. *)
Theorem pool_order n b ls s (H : steps ls (start n b) = Some s) :
  taken s ++ omap id (pending s) `sublist_of` submitted s /\
  taken s ≡ₚ started s ++ held (mWorkerThreads s) /\
  submitted s ≡ₚ taken s ++ omap id (pending s) ++ cancelled s /\
  (n = 1%nat -> started s ++ held (mWorkerThreads s) ++ omap id (pending s) `sublist_of` submitted s).
Proof.
  destruct (steps_inv _ _ _ _ (pool_inv_start n b) H) as (xs & [Hq Ho Ha Hh Hsg _]).
  rewrite (pending_holds _ _ Hq). split_and!; [done..|]. intros ->. rewrite app_assoc, <- Hsg; [done|].
  by rewrite (steps_workers _ _ _ H).
Qed.

(** C17: no wakeup of the pool is lost: while a worker waits, there are as many workers
    woken and on their way to the queue as there are items in it. *)
Theorem pool_wakeup n b ls s i c
    (H : steps ls (start n b) = Some s) (Hi : mWorkerThreads s !! i = Some c) (Hc : state c = Waiting) :
  (length (pending s) <= length (filter (fun c => state c = Woken) (mWorkerThreads s)))%nat.
Proof.
  destruct (steps_inv _ _ _ _ (pool_inv_start n b) H) as (xs & [Hq _ _ _ _ Hw]).
  rewrite (pending_holds _ _ Hq), <- total_filter. apply Hw.
  eapply total_member; [exact Hi|]. unfold in_state. by rewrite bool_decide_eq_true_2.
Qed.

(** *** Shutting down *)

(** The workers [shutdown] has interrupted, the [nullptr]s it has put, the workers it has joined. *)
Definition interrupted (s : pool) : nat :=
  match shutting s with
  | NoShutdown => 0
  | Interrupting i => i
  | Putting i => S i
  | Joining _ | Returned => length (mWorkerThreads s)
  end.
Definition nulls_put (s : pool) : nat :=
  match shutting s with
  | NoShutdown => 0
  | Interrupting i | Putting i => i
  | Joining _ | Returned => length (mWorkerThreads s)
  end.
Definition joins (s : pool) : nat :=
  match shutting s with
  | NoShutdown | Interrupting _ | Putting _ => 0
  | Joining i => i
  | Returned => length (mWorkerThreads s)
  end.

Definition nulls (xs : list runnable) : nat := length (filter (fun x => x = None) xs).

(** Every [nullptr] that was put is in the queue, or a worker has exited. *)
Record closing (s : pool) (xs : list runnable) : Prop := {
  closing_bound : (interrupted s <= length (mWorkerThreads s))%nat;
  closing_flags : forall i c, (i < interrupted s)%nat -> mWorkerThreads s !! i = Some c -> mInterrupted c = true;
  closing_nulls : (nulls_put s <= nulls xs + total (in_state Exited) (mWorkerThreads s))%nat;
  closing_joins : forall i c, (i < joins s)%nat -> mWorkerThreads s !! i = Some c -> state c = Exited;
}.

(** Nobody cancels [nullptr], which would take out the markers of [shutdown]. *)
Definition fair (l : label) : bool := match l with Cancel None => false | _ => true end.

Lemma nulls_app xs ys : nulls (xs ++ ys) = (nulls xs + nulls ys)%nat.
Proof. unfold nulls. by rewrite filter_app, length_app. Qed.

Lemma nulls_cons x xs : nulls (x :: xs) = (match x with None => 1 | Some _ => 0 end + nulls xs)%nat.
Proof. by destruct x. Qed.

Lemma nulls_cancel (r : nat) xs : nulls (filter (fun x => x <> Some r) xs) = nulls xs.
Proof.
  unfold nulls. rewrite list_filter_filter. f_equal. apply list_filter_iff. intros x.
  split; [tauto|]. by intros ->.
Qed.

(** A step of a worker that is not done keeps what [closing] says of the others. *)
Lemma closing_become s xs xs' i c w q st tk :
  closing s xs -> mWorkerThreads s !! i = Some c -> state c <> Exited ->
  (nulls xs <= nulls xs' + (if bool_decide (w = Exited) then 1 else 0))%nat ->
  closing (mkPool (mShutdownAllowed s) q (mWorkerThreads (become i c w s)) (shutting s)
    (submitted s) st (cancelled s) tk) xs'.
Proof.
  intros [Hb Hf Hn Hj] Hi Hc Hw. unfold interrupted, nulls_put, joins in *.
  split; unfold interrupted, nulls_put, joins; cbn; rewrite ?length_insert.
  - done.
  - intros k d Hk. destruct (decide (k = i)) as [->|].
    + rewrite list_lookup_insert_eq by (by eapply lookup_lt_Some). intros [= <-]. cbn. by eapply Hf.
    + rewrite list_lookup_insert_ne by done. by apply Hf.
  - pose proof (total_insert (in_state Exited) _ i c (mkWorker w (mInterrupted c)) Hi) as Ht.
    unfold in_state at 2 4 in Ht. rewrite (bool_decide_eq_false_2 (state c = _)) in Ht by done.
    cbn [state] in Ht. case_match; lia.
  - intros k d Hk. destruct (decide (k = i)) as [->|].
    + exfalso. apply Hc. by eapply Hj.
    + rewrite list_lookup_insert_ne by done. by apply Hj.
Qed.

Lemma closing_worked i c s xs s' xs' :
  closing s xs -> mWorkerThreads s !! i = Some c -> worked i c s xs s' xs' -> closing s' xs'.
Proof.
  intros Hv Hi Hw.
  destruct Hw as [xs Hc|r xs Hc|r xs q Hc Hh|r xs Hc|xs q Hc Hh|q Hc Hh];
    [refine (closing_become s _ _ i c _ (mQueue s) (started s) (taken s) Hv Hi _ _)
    |refine (closing_become s _ _ i c _ (mQueue s) (started s) (taken s) Hv Hi _ _)
    |refine (closing_become s _ xs i c (Holding r) q (started s) (taken s ++ [r]) Hv Hi _ _)
    |refine (closing_become s _ xs i c (Running r) (mQueue s) (started s ++ [r]) (taken s) Hv Hi _ _)
    |refine (closing_become s _ xs i c Exited q (started s) (taken s) Hv Hi _ _)
    |refine (closing_become s _ [] i c Waiting q (started s) (taken s) Hv Hi _ _)];
    first [congruence | destruct Hc; congruence
      | rewrite ?nulls_cons; case_bool_decide; cbn; first [lia | congruence]].
Qed.

Lemma closing_put r j s xs s' :
  holds (mQueue s) xs -> closing s xs -> put_and_wake r j s = Some s' ->
  holds (mQueue s') (xs ++ [r]) /\ closing s' (xs ++ [r]) /\ shutting s' = shutting s /\
  total (in_state Exited) (mWorkerThreads s') = total (in_state Exited) (mWorkerThreads s).
Proof.
  intros Hq Hv H. destruct (put_and_wake_Some _ _ _ _ _ Hq H) as (q & Hh & [[-> _]|(c & Hj & Hc & ->)]).
  - split; [done|split; [|done]]. destruct Hv as [Hb Hf Hn Hjn].
    split; try done. etrans; [exact Hn|]. rewrite nulls_app. cbn. lia.
  - split; [done|split; [|split; [done|]]].
    + refine (closing_become s xs (xs ++ [r]) j c Woken q (started s) (taken s) Hv Hj _ _); [congruence|].
      rewrite nulls_app. lia.
    + cbn. count_states Hj Hc. lia.
Qed.

Lemma closing_log r s xs : closing s xs -> closing (log_submitted r s) xs.
Proof. by intros []. Qed.

(** The statements of [shutdown] itself. *)
Lemma closing_shutdown b j s xs s' :
  inv s xs -> closing s xs -> shutdown b j s = Some s' ->
  exists xs', holds (mQueue s') xs' /\ closing s' xs'.
Proof.
  intros [Hq _ _ _ _ _] Hv H. unfold shutdown in H. destruct (shutting s) as [|i|i|i|] eqn:Hs; [| | | |done].
  - case_match; injection H as <-; exists xs; [|done]. split; [done|].
    destruct Hv. split; unfold interrupted, nulls_put, joins in *; cbn; lia.
  - case_match eqn:Hlt.
    + destruct (interrupt i s) as [s1|] eqn:E; [|done]. injection H as <-. exists xs.
      apply interrupt_Some in E as (c & Hi & ->). split; [done|].
      apply Nat.ltb_lt in Hlt. destruct Hv as [Hb Hf Hn Hj].
      unfold interrupted, nulls_put, joins in *. rewrite Hs in *.
      split; unfold interrupted, nulls_put, joins; cbn; rewrite ?length_insert; try lia.
      * intros k d Hk. destruct (decide (k = i)) as [->|].
        -- rewrite list_lookup_insert_eq by done. by intros [= <-].
        -- rewrite list_lookup_insert_ne by done. apply Hf. lia.
      * by rewrite total_interrupt.
    + injection H as <-. exists xs. split; [done|]. apply Nat.ltb_ge in Hlt.
      destruct Hv as [Hb Hf Hn Hj]. unfold interrupted, nulls_put, joins in *. rewrite Hs in *.
      assert (i = length (mWorkerThreads s)) as -> by lia.
      split; unfold interrupted, nulls_put, joins; cbn; first [done | lia].
  - destruct (put_and_wake None j s) as [s1|] eqn:E; [|done]. injection H as <-.
    destruct (closing_put _ _ _ _ _ Hq Hv E) as (Hh & [Hb Hf Hn Hj] & Es & Et).
    exists (xs ++ [None]). split; [done|]. pose proof (closing_nulls _ _ Hv) as Hn0.
    unfold interrupted, nulls_put, joins in *. rewrite Es, Hs in *.
    split; unfold interrupted, nulls_put, joins; cbn; [done|done| |done].
    rewrite Et, nulls_app. change (nulls [None]) with 1%nat. lia.
  - case_match eqn:Hlt; [case_match eqn:Hjd; [|done]|]; injection H as <-; exists xs; (split; [done|]);
      destruct Hv as [Hb Hf Hn Hj]; unfold interrupted, nulls_put, joins in *; rewrite Hs in *;
      split; unfold interrupted, nulls_put, joins; cbn; try done.
    + intros k d Hk Hd. destruct (decide (k = i)) as [->|]; [|apply (Hj k); [lia|done]].
      unfold joined in Hjd. rewrite Hd in Hjd. by apply bool_decide_eq_true in Hjd.
    + apply Nat.ltb_ge in Hlt. intros k d Hk. apply Hj. lia.
Qed.

Lemma closing_step l s xs s' :
  inv s xs -> closing s xs -> fair l -> step l s = Some s' ->
  exists xs', inv s' xs' /\ closing s' xs'.
Proof.
  intros Hi Hv Hl H. destruct (pool_inv_step _ _ _ _ Hi H) as (xs' & Hi').
  exists xs'. split; [done|].
  cut (exists ys, holds (mQueue s') ys /\ closing s' ys).
  { intros (ys & Hy & Hc). apply pending_holds in Hy. pose proof (inv_queue _ _ Hi') as Hq.
    apply pending_holds in Hq. congruence. }
  pose proof Hi as [Hq _ _ _ _ _]. destruct l as [r j|r|i|i|d j]; cbn [step] in H.
  - unfold execute in H. destruct (put_and_wake r j s) as [s1|] eqn:E; [|done]. injection H as <-.
    destruct (closing_put _ _ _ _ _ Hq Hv E) as (Hh & Hc & _). eexists. split; [exact Hh|].
    by apply closing_log.
  - destruct (cancel r s) as [[b s1]|] eqn:E; [|done]. injection H as <-.
    destruct (cancel_Some _ _ _ _ _ Hi E) as (_ & Hi1 & Ew & Es). exists (filter (fun x => x <> r) xs).
    split; [apply Hi1|]. destruct r as [r|]; [|done]. destruct Hv as [Hb Hf Hn Hj].
    split; unfold interrupted, nulls_put, joins in *; rewrite ?Ew, ?Es in *; try done.
    by rewrite nulls_cancel.
  - destruct (work_worked i s xs s' Hq H) as (c & ys & Hc & Hw). exists ys. split.
    + pose proof (inv_worked _ _ _ _ _ _ Hi Hc Hw) as []. done.
    + by eapply closing_worked.
  - apply spurious_Some in H as (c & Hc & Ec & ->). exists xs. split; [done|].
    refine (closing_become s xs xs i c Woken (mQueue s) (started s) (taken s) Hv Hc _ _); [congruence|lia].
  - eapply closing_shutdown; [exact Hi|exact Hv|exact H].
Qed.

(** How much is left to do once every worker is interrupted. *)
Definition rank (c : WorkerThread) : nat :=
  match state c with
  | Exited => 0
  | AtLoop | Taking | Woken => 1
  | Waiting | Running _ => 2
  | Holding _ => 3
  end.
Definition measure (s : pool) : nat :=
  3 * length (pending s) + total rank (mWorkerThreads s) +
  match shutting s with
  | Joining i => S (length (mWorkerThreads s) - i)
  | _ => 0
  end.

(** The steps of the workers and of [shutdown], spurious wakeups among them or not. *)
Definition inner (l : label) : bool :=
  match l with Work _ | ShutDown _ _ => true | _ => false end.
Definition inner_or_spurious (l : label) : bool :=
  match l with Work _ | ShutDown _ _ | Spurious _ => true | _ => false end.

Definition joining (s : pool) : Prop := exists k, shutting s = Joining k.

(** While a worker has not exited, the queue holds a [nullptr]. *)
Lemma closing_queue s xs i c :
  closing s xs -> joining s \/ shutting s = Returned ->
  mWorkerThreads s !! i = Some c -> state c <> Exited -> xs <> [].
Proof.
  intros [_ _ Hn _] Hs Hi Hc ->. unfold nulls_put in Hn.
  assert (length (mWorkerThreads s) <= total (in_state Exited) (mWorkerThreads s))%nat as Hl
    by (destruct Hs as [[k Hk]|Hk]; rewrite Hk in Hn; exact Hn).
  pose proof (total_insert (in_state Exited) _ i c (mkWorker Exited false) Hi) as Ht.
  unfold in_state at 2 4 in Ht. rewrite bool_decide_eq_false_2, bool_decide_eq_true_2 in Ht by done.
  pose proof (total_length (in_state Exited) (<[i := mkWorker Exited false]> (mWorkerThreads s))) as Hm.
  rewrite length_insert in Hm. lapply Hm; [lia|].
  apply Forall_forall. intros d _. unfold in_state. case_bool_decide; lia.
Qed.

(** Runs [total_insert] at [Hi], for the ranks of the states in [Hc]. *)
Ltac count_ranks Hi Hc :=
  match goal with
  | |- context [total rank (<[?i := ?d]> ?ws)] =>
      let H := fresh "Ht" in
      pose proof (total_insert rank ws i _ d Hi) as H; unfold rank at 2 4 in H;
      rewrite Hc in H; cbn [state] in H; revert H; generalize (total rank (<[i := d]> ws)); intros ? H
  end.

Lemma measure_worked i c s xs s' xs' :
  inv s xs -> closing s xs -> joining s \/ shutting s = Returned ->
  mWorkerThreads s !! i = Some c -> worked i c s xs s' xs' -> (measure s' < measure s)%nat.
Proof.
  intros Hi Hv Hs Hc Hw.
  pose proof (pending_holds _ _ (inv_queue _ _ Hi)) as Ep.
  pose proof (pending_holds _ _ (inv_queue _ _ (inv_worked _ _ _ _ _ _ Hi Hc Hw))) as Ep'.
  assert (mInterrupted c = true) as Ef.
  { apply (closing_flags _ _ Hv i); [|done]. unfold interrupted.
    destruct Hs as [[k Hk]|Hk]; rewrite Hk; by eapply lookup_lt_Some. }
  assert (state c <> Exited -> xs <> []) as Hx by (intros; by eapply closing_queue).
  unfold measure. rewrite Ep, Ep'.
  destruct Hw as [xs E|r xs E|r xs q E Hh|r xs E|xs q E Hh|q E Hh];
    cbn [mWorkerThreads become set_workers set_queue shutting log_started log_taken length];
    rewrite ?Ef, ?length_insert.
  - count_ranks Hc E. lia.
  - count_ranks Hc E. lia.
  - destruct E as [E|E]; count_ranks Hc E; lia.
  - count_ranks Hc E. lia.
  - destruct E as [E|E]; count_ranks Hc E; lia.
  - exfalso. apply Hx; [|done]. destruct E; congruence.
Qed.

Lemma measure_step l s xs s' :
  inv s xs -> closing s xs -> joining s \/ shutting s = Returned ->
  inner_or_spurious l -> step l s = Some s' ->
  (measure s' < measure s)%nat /\ (joining s' \/ shutting s' = Returned).
Proof.
  intros Hi Hv Hs Hl H. destruct l as [| |i|i|d j]; [done|done|..]; cbn [step] in H.
  - destruct (work_worked _ _ _ _ (inv_queue _ _ Hi) H) as (c & xs' & Hc & Hw).
    split; [by eapply measure_worked|]. by destruct Hw.
  - apply spurious_Some in H as (c & Hc & E & ->). split; [|done].
    unfold measure. cbn [mWorkerThreads become set_workers shutting pending mQueue].
    rewrite length_insert. count_ranks Hc E.
    change (pending (become i c Woken s)) with (pending s). lia.
  - unfold shutdown in H. destruct Hs as [[k Hk]|Hk]; rewrite Hk in H; [|done].
    unfold measure. rewrite Hk. case_match eqn:Hlt.
    + apply Nat.ltb_lt in Hlt. case_match; [|done]. injection H as <-.
      cbn [set_shutting shutting mWorkerThreads]. change (pending (set_shutting _ s)) with (pending s).
      split; [lia|]. left. by eexists.
    + injection H as <-. cbn [set_shutting shutting mWorkerThreads].
      change (pending (set_shutting _ s)) with (pending s). split; [lia|by right].
Qed.

(** A pool that waits for its workers can go on without a spurious wakeup. *)
Lemma joining_progress s xs :
  inv s xs -> closing s xs -> joining s -> exists l s', inner l /\ step l s = Some s'.
Proof.
  intros Hi Hv [k Hk].
  destruct (k <? length (mWorkerThreads s))%nat eqn:Hlt.
  2: { exists (ShutDown false 0). cbn [step]. unfold shutdown. rewrite Hk, Hlt. by eexists. }
  apply Nat.ltb_lt in Hlt as Hlt'. apply lookup_lt_is_Some in Hlt' as [c Hc].
  assert (forall i d, mWorkerThreads s !! i = Some d -> state d = Taking \/ state d = Woken ->
    exists l s', inner l /\ step l s = Some s') as Htake.
  { intros i d Hd E. destruct (work_take i s xs d (inv_queue _ _ Hi) Hd E) as (s' & xs' & Hw & _).
    by exists (Work i), s'. }
  destruct (state c) as [| | | |r|r|] eqn:E.
  - exists (Work k). cbn [step]. unfold work. rewrite Hc. cbn. rewrite E, (set_state_eq _ _ _ c) by done.
    by eexists.
  - apply (Htake k c Hc). by left.
  - assert (xs <> []) as Hx by (apply (closing_queue s xs k c); [done|left; by eexists|done|congruence]).
    assert (0 < total (in_state Woken) (mWorkerThreads s))%nat as Hw.
    { apply Nat.lt_le_trans with (length xs); [by destruct xs; cbn; [|lia]|].
      apply (inv_wakeup _ _ Hi). eapply total_member; [exact Hc|]. unfold in_state.
      by rewrite bool_decide_eq_true_2. }
    apply total_pos in Hw as (i & d & Hd & Hpos). apply (Htake i d Hd). right.
    unfold in_state in Hpos. by case_bool_decide; [|lia].
  - apply (Htake k c Hc). by right.
  - exists (Work k). cbn [step]. unfold work. rewrite Hc. cbn. rewrite E, (set_state_eq _ _ _ c) by done.
    by eexists.
  - exists (Work k). cbn [step]. unfold work. rewrite Hc. cbn. rewrite E, (set_state_eq _ _ _ c) by done.
    by eexists.
  - exists (ShutDown false 0). cbn [step]. unfold shutdown, joined. rewrite Hk, Hlt, Hc, E.
    rewrite bool_decide_eq_true_2 by done. by eexists.
Qed.

Lemma joining_finishes s xs :
  inv s xs -> closing s xs -> joining s ->
  exists ls s', Forall inner ls /\ steps ls s = Some s' /\ shutting s' = Returned /\
    Forall (fun c => state c = Exited) (mWorkerThreads s').
Proof.
  remember (measure s) as m eqn:Em. revert s xs Em.
  induction (lt_wf m) as [m _ IH]. intros s xs -> Hi Hv Hj.
  destruct (joining_progress s xs Hi Hv Hj) as (l & s1 & Hl & Es).
  assert (fair l /\ inner_or_spurious l) as [Hf Hl'] by (by destruct l).
  destruct (closing_step l s xs s1 Hi Hv Hf Es) as (xs1 & Hi1 & Hv1).
  destruct (measure_step l s xs s1 Hi Hv (or_introl Hj) Hl' Es) as [Hm [Hj1|Hr]].
  - destruct (IH _ Hm s1 xs1 eq_refl Hi1 Hv1 Hj1) as (ls & s' & Hls & E & H).
    exists (l :: ls), s'. split; [by constructor|]. cbn [steps]. rewrite Es. done.
  - exists [l], s1. split; [by constructor|]. cbn [steps]. rewrite Es. split; [done|split; [done|]].
    apply Forall_lookup. intros i c Hc. apply (closing_joins _ _ Hv1 i); [|done].
    unfold joins. rewrite Hr. by eapply lookup_lt_Some.
Qed.

Lemma inner_bounded ls s xs s' :
  inv s xs -> closing s xs -> joining s \/ shutting s = Returned ->
  Forall inner_or_spurious ls -> steps ls s = Some s' -> (length ls <= measure s)%nat.
Proof.
  intros Hi Hv Hs Hls. revert s xs Hi Hv Hs. induction Hls as [|l ls Hl Hls IH]; intros s xs Hi Hv Hs;
    cbn [length steps]; [lia|].
  destruct (step l s) as [s1|] eqn:Es; [|done]. cbn [mbind option_bind]. intros H.
  assert (fair l) as Hf by (by destruct l).
  destruct (closing_step l s xs s1 Hi Hv Hf Es) as (xs1 & Hi1 & Hv1).
  destruct (measure_step l s xs s1 Hi Hv Hs Hl Es) as [Hm Hs1].
  pose proof (IH s1 xs1 Hi1 Hv1 Hs1 H). lia.
Qed.

Lemma steps_closing ls s xs s' :
  inv s xs -> closing s xs -> Forall fair ls -> steps ls s = Some s' ->
  exists xs', inv s' xs' /\ closing s' xs'.
Proof.
  intros Hi Hv Hls. revert s xs Hi Hv. induction Hls as [|l ls Hl Hls IH]; intros s xs Hi Hv; cbn.
  - intros [= <-]. by exists xs.
  - destruct (step l s) as [s1|] eqn:Es; [|done]. cbn. intros H.
    destruct (closing_step l s xs s1 Hi Hv Hl Es) as (xs1 & Hi1 & Hv1). by eapply IH.
Qed.

Lemma closing_start n b : closing (start n b) [].
Proof. split; unfold interrupted, nulls_put, joins; cbn; lia. Qed.

(** C15: if nobody cancels [nullptr], the [shutdown] of a pool never hangs, whatever was
    submitted, cancelled, taken or waited for before: once it has interrupted the workers and waits
    for them, the workers' and its own steps lead to its return with every worker exited, with no
    need of a spurious wakeup, and no schedule of these steps, spurious wakeups included, goes on
    for longer than [measure]. *)
Theorem pool_shutdown n b ls s
    (H : steps ls (start n b) = Some s) (Hf : Forall fair ls) (Hj : joining s) :
  (exists ls' s', Forall inner ls' /\ steps ls' s = Some s' /\ shutting s' = Returned /\
    Forall (fun c => state c = Exited) (mWorkerThreads s')) /\
  (forall ls' s', Forall inner_or_spurious ls' -> steps ls' s = Some s' -> (length ls' <= measure s)%nat).
Proof.
  destruct (steps_closing _ _ _ _ (pool_inv_start n b) (closing_start n b) Hf H) as (xs & Hi & Hv).
  split; [by eapply joining_finishes|].
  intros ls' s' Hls. by apply inner_bounded with xs; [| |left|].
Qed.

End ThreadPoolExecutor.

(** ** Witnesses *)
Module ExecutorsExample.
Import LinkedBlockingQueue ThreadPoolExecutor.

Definition two : queue nat := exec (put 4%nat;; put 5%nat;; put 4%nat) empty.

Lemma two_holds : holds two [4; 5; 4]%nat.
Proof.
  destruct (put_holds 4%nat empty [] holds_empty) as (q1 & E1 & H1 & _).
  destruct (put_holds 5%nat q1 _ H1) as (q2 & E2 & H2 & _).
  destruct (put_holds 4%nat q2 _ H2) as (q3 & E3 & H3 & _).
  assert (two = q3) as ->; [|exact H3].
  unfold two, exec. mstep E1. mstep E2. by rewrite E3.
Qed.

Lemma blockingqueue_refines_witness :
  (exists q', run (Remove 4%nat) two = (Ok (Done true), q') /\ holds q' [5%nat]) /\
  (exists q', destroy 3 (mHeadNode two) two = (Ok tt, q') /\ nodes q' = ∅).
Proof.
  destruct (blockingqueue_refines (Remove 4%nat) two _ two_holds) as [(q' & E & H & _) D].
  split; [by exists q'|exact D].
Defined.

(** Two workers: the first takes a runnable and is interrupted before it starts it; of two more one is cancelled,
    and the other one is taken and started by the second worker, before the first goes on. *)
Definition schedule : list label :=
  [Work 0; Work 1; Work 0; Work 1; Execute (Some 7%nat) 0; Work 0; Execute (Some 8%nat) 1;
   Execute (Some 9%nat) 0; Cancel (Some 8%nat); Work 1; Work 1; Work 0].

Definition at_end : option pool := steps schedule (start 2 true).

Lemma pool_order_witness :
  exists s, steps schedule (start 2 true) = Some s /\ submitted s = [7; 8; 9]%nat /\
    taken s = [7; 9]%nat /\ started s = [9; 7]%nat /\
    taken s ++ omap id (pending s) `sublist_of` submitted s /\
    submitted s ≡ₚ taken s ++ omap id (pending s) ++ cancelled s.
Proof.
  destruct (steps schedule (start 2 true)) as [s|] eqn:E; [|by vm_compute in E].
  exists s. split; [done|]. destruct (pool_order 2 true schedule s E) as (Ho & _ & Ha & _).
  assert (at_end = Some s) as E' by exact E. vm_compute in E'. injection E' as <-.
  split; [reflexivity|split; [reflexivity|split; [reflexivity|split; [exact Ho|exact Ha]]]].
Defined.

Lemma pool_wakeup_witness :
  exists s, steps [Work 0; Work 1; Work 0; Work 1; Execute (Some 7%nat) 0] (start 2 true) = Some s /\
    (length (pending s) <= length (filter (fun c => state c = Woken) (mWorkerThreads s)))%nat.
Proof.
  destruct (steps _ (start 2 true)) as [s|] eqn:E; [|by vm_compute in E].
  exists s. split; [done|].
  apply (pool_wakeup 2 true _ s 1 (mkWorker Waiting false) E); [|done].
  vm_compute in E. by injection E as <-.
Defined.

Lemma pool_shutdown_witness :
  exists s, steps [Work 0; Work 0; Execute (Some 7%nat) 0; Work 0; Work 1; Work 1;
      ShutDown false 1; ShutDown false 1; ShutDown false 1; ShutDown false 1; ShutDown false 1;
      ShutDown false 1] (start 2 true) = Some s /\
    exists ls' s', Forall inner ls' /\ steps ls' s = Some s' /\ shutting s' = Returned.
Proof.
  destruct (steps _ (start 2 true)) as [s|] eqn:E; [|by vm_compute in E].
  exists s. split; [done|].
  destruct (pool_shutdown 2 true _ s E) as [(ls' & s' & Hl & Hs & Hr & _) _].
  - decided.
  - vm_compute in E. injection E as <-. by eexists.
  - exists ls', s'. split; [exact Hl|split; [exact Hs|exact Hr]].
Defined.

End ExecutorsExample.
