(* ===== verification/SerialExecutors.v ===== *)
(** * util/concurrent/SerialExecutor.cpp: the executor of one thread

    A [SerialExecutor] is a [Handler] on a thread of its own: the state is that thread's queue.
    Its theorem puts the executor, the handler, the queue and the loop together. *)

From S2P Require Import Prelude HashMaps Bundles Messages MessageQueues Handlers.
From stdpp Require Import sorting.
Open Scope Z_scope.

Module SerialExecutor.
Import Message MessageQueue Handler.

(** [mHandler], and whether there is still a thread: [mHandlerThread] is [nullptr] after a
    shutdown. *)
(* util/concurrent/SerialExecutor.h:57-61 SerialExecutor *)
Record executor := mkExecutor { mShutdownAllowed : bool; mHandler : nat; mHandlerThread : bool }.

(* util/concurrent/SerialExecutor.cpp:55-57 SerialExecutor::execute *)
Definition execute (this : executor) (now : Z) (runnable : option nat) : M MessageQueue unit :=
  message ← obtainMessage_callback (mHandler this) runnable;
  sendToTarget now message;;
  mret tt.

(* util/concurrent/SerialExecutor.cpp:59-61 SerialExecutor::cancel *)
Definition cancel (this : executor) (runnable : option nat) : M MessageQueue bool :=
  removeCallbacks (mHandler this) runnable.

(** Up to the [join] of the thread, which ends when its loop does. *)
(* util/concurrent/SerialExecutor.cpp:42-53 SerialExecutor::shutdown *)
Definition shutdown (shutdownAllowed : bool) (this : executor) : M MessageQueue (bool * executor) :=
  if negb shutdownAllowed then mret (false, this)
  else if mHandlerThread this then
    Handler.quit;;
    mret (true, mkExecutor (mShutdownAllowed this) (mHandler this) false)
  else mret (true, this).

(** Several calls of [execute], each with the reading of the clock it makes. *)
Fixpoint executeAll (this : executor) (rs : list (Z * nat)) : M MessageQueue unit :=
  match rs with
  | [] => mret tt
  | (now, r) :: rs => execute this now (Some r);; executeAll this rs
  end.

(** ** Proofs *)

Lemma lift_bind {A B} (m : M world A) (f : A -> M world B) q :
  lift (m ≫= f) q = (lift m ≫= fun a => lift (f a)) q.
Proof.
  destruct q as [h]. unfold lift, zoom, mbind, M_bind. cbn. by destruct (m h) as [[] ?].
Qed.

Lemma execute_eq this q es pl now r :
  queue_rep q es pl -> mQuitting q = false -> 0 <= now < 2 ^ 64 ->
  exists l q', execute this now r q = (Ok tt, q') /\
    queue_rep q' (enq (l, posted (mHandler this) r now) es) (tail pl) /\ mQuitting q' = false.
Proof.
  intros Hq Hqt Hnow.
  destruct (obtain_rep _ _ _ Hq) as (l & q1 & Ho & Hq1 & Hin & Hlp & Hl & Hqt1).
  set (h := Some (mHandler this)). set (m := set_callback r (set_target h blank)).
  set (q2 := upd l (set_target h blank) q1). set (q3 := upd l m q2).
  assert (cells q2 !! l = Some (set_target h blank)) as Hl2 by (eapply lookup_write_eq, Hl).
  assert (cells q3 !! l = Some m) as Hl3 by (eapply lookup_write_eq, Hl2).
  assert (queue_rep q3 es (tail pl)) as Hq3 by (apply rep_write; [apply rep_write|..]; done).
  assert (obtainMessage_callback (mHandler this) r q = (Ok l, q3)) as Hob.
  { unfold obtainMessage_callback, obtain_callback. rewrite lift_bind. mstep Ho.
    rewrite lift_bind. mstep (lift_write q1 l _ (set_target h) Hl).
    rewrite lift_bind. mstep (lift_write q2 l _ (set_callback r) Hl2). reflexivity. }
  destruct (send_eq q3 es (tail pl) (mHandler this) l m now Hq3 Hl3) as (q4 & Hrun & Hq4 & Hqt4); try done.
  { lia. }
  { change (mQuitting q3) with (mQuitting q1). congruence. }
  exists l, q4. split; [|split; [exact Hq4|done]].
  unfold execute. mstep Hob.
  assert (sendToTarget now l q3 = (Ok true, q4)) as Hs.
  { unfold sendToTarget. mstep (lift_read q3 l m Hl3). cbn [target m set_callback set_target h deref].
    rewrite bind_ret. unfold sendMessage, sendMessageDelayed. rewrite u32_id, Z.add_0_r, u64_id by lia. done. }
  by mstep Hs.
Qed.

(** The latest entry goes to the end. *)
Lemma enq_last e es :
  when (snd e) <> 0 -> Forall (fun x => when (snd x) <= when (snd e)) es -> enq e es = es ++ [e].
Proof.
  intros Hz He. unfold enq. rewrite (proj2 (Z.eqb_neq _ _)) by done.
  induction He as [|x es Hx He IH]; [done|]. cbn. by rewrite (proj2 (Z.leb_le _ _)), IH.
Qed.

Lemma executeAll_eq this rs q es pl t0 :
  queue_rep q es pl -> mQuitting q = false -> 0 <= t0 ->
  Forall (fun e => when (snd e) <= t0) es ->
  Forall (fun e => 0 < fst e < 2 ^ 64) rs -> Forall (fun e => t0 <= fst e) rs ->
  StronglySorted (fun a b => fst a <= fst b) rs ->
  exists ls q', executeAll this rs q = (Ok tt, q') /\ mQuitting q' = false /\
    queue_rep q' (es ++ zip_with (fun l e => (l, posted (mHandler this) (Some (snd e)) (fst e))) ls rs)
      (drop (length rs) pl) /\ length ls = length rs.
Proof.
  intros Hq Hqt Ht0 He Hp Hr Hs. revert q es pl t0 Hq Hqt Ht0 He Hr.
  induction Hs as [|[t r] rs Hs IH Hle]; intros q es pl t0 Hq Hqt Ht0 He Hr; cbn [executeAll].
  { exists [], q. cbn. by rewrite app_nil_r. }
  apply Forall_cons in Hp as [Hpt Hp], Hr as [Hrt Hr]. cbn in Hpt, Hrt.
  destruct (execute_eq this q es pl t (Some r) Hq Hqt ltac:(lia)) as (l & q1 & E & Hq1 & Hqt1).
  mstep E. rewrite enq_last in Hq1; cbn; [|lia|].
  2: { eapply Forall_impl; [exact He|]. intros x ?. cbn in *. lia. }
  destruct (IH Hp q1 _ _ t Hq1 Hqt1) as (ls & q' & E' & Hqt' & Hq' & Hl).
  - lia.
  - apply Forall_app. split; [|by apply Forall_singleton].
    eapply Forall_impl; [exact He|]. intros x ?. cbn in *. lia.
  - exact Hle.
  - exists (l :: ls), q'. split; [done|split; [done|split; [|by cbn; f_equal]]].
    rewrite <- app_assoc in Hq'. cbn [app zip_with length snd fst].
    destruct pl; cbn [tail drop] in *; [by rewrite drop_nil in Hq'|done].
Qed.

Lemma posted_when this ls rs now :
  Forall (fun e : Z * nat => fst e <= now) rs ->
  Forall (fun e : entry => when (snd e) <= now)
    (zip_with (fun l e => (l, posted this (Some (snd e)) (fst e))) ls rs).
Proof.
  intros H. revert ls. induction H as [|e rs He H IH]; intros [|l ls]; cbn; by constructor.
Qed.

Lemma due_now es now :
  Forall (fun e : entry => when (snd e) <= now) es -> Forall2 due es (replicate (length es) [now]).
Proof. induction 1; cbn; constructor; [by left|done]. Qed.

Lemma posted_runs this cb hd ls rs :
  length ls = length rs ->
  zip_with (fun l e => (l, posted this (Some (snd e)) (fst e))) ls rs ≫= dispatched cb hd =
    (fun e : Z * nat => RunRunnable (snd e)) <$> rs.
Proof.
  revert ls. induction rs as [|e rs IH]; intros [|l ls] [=]; [done|]. cbn. f_equal. by apply IH.
Qed.

(** a serial executor with nothing to do runs what it is given on its thread in the
    order it is given, each runnable once: runnables handed to [execute] as time goes by end up on
    the queue of its looper, and one iteration of the loop for each, after the last one's time,
    runs them all and leaves the queue empty. *)
Theorem serial_order this rs q pl now cb hd
    (Hq : queue_rep q [] pl) (Hqt : mQuitting q = false)
    (Hp : Forall (fun e => 0 < fst e < 2 ^ 64 /\ fst e <= now) rs)
    (Hs : StronglySorted (fun a b => fst a <= fst b) rs) :
  exists q1 q2 pl2, executeAll this rs q = (Ok tt, q1) /\
    @loop (idle cb hd) (replicate (length rs) [now]) (q1, []) =
      (Ok false, (q2, (fun e => RunRunnable (snd e)) <$> rs)) /\
    queue_rep q2 [] pl2.
Proof.
  apply Forall_and in Hp as [Hp Hnow].
  destruct (executeAll_eq this rs q [] pl 0 Hq Hqt) as (ls & q1 & E & Hqt1 & Hq1 & Hl); try done.
  { eapply Forall_impl; [exact Hp|]. intros e ?. cbn in *. lia. }
  cbn [app] in Hq1. set (es := zip_with _ ls rs) in Hq1.
  assert (@length entry es = length rs) as Hes by (unfold es; rewrite length_zip_with; lia).
  assert (Forall2 due es (replicate (length rs) [now])) as Hdue.
  { rewrite <- Hes. by apply due_now, posted_when. }
  destruct (loop_all cb hd _ q1 [] es _ Hq1 Hqt1 Hdue) as (q2 & Hrun & Hq2).
  unfold es in Hrun. rewrite posted_runs in Hrun by done. cbn [app] in Hrun.
  by do 3 eexists.
Qed.

(** An allowed [shutdown] drops what is still queued. *)
Lemma shutdown_eq this q es pl :
  queue_rep q es pl -> mQuitAllowed q = true -> mQuitting q = false -> mHandlerThread this = true ->
  exists q', shutdown true this q =
      (Ok (true, mkExecutor (mShutdownAllowed this) (mHandler this) false), q') /\
    queue_rep q' [] (pushes es pl) /\ mQuitting q' = true.
Proof.
  intros Hq Ha Hqt Ht. destruct (quit_eq q es pl Hq Ha Hqt) as (q' & E & Hq' & Hs).
  exists q'. unfold shutdown, Handler.quit. rewrite Ht. cbn [negb]. mstep E.
  split; [done|split; [done|]]. by rewrite (sw_quitting _ _ _ _ Hs).
Qed.

Lemma serial_order_witness :
  exists q1 q2 pl2, executeAll (mkExecutor true 9 true) [(5, 1%nat); (5, 2%nat); (8, 3%nat)] q0 = (Ok tt, q1) /\
    @loop (idle (fun _ => None) (fun _ _ => false)) [[10]; [10]; [10]] (q1, []) =
      (Ok false, (q2, [RunRunnable 1; RunRunnable 2; RunRunnable 3])) /\
    queue_rep q2 [] pl2.
Proof.
  apply (serial_order (mkExecutor true 9 true) [(5, 1%nat); (5, 2%nat); (8, 3%nat)] q0 [] 10
    (fun _ => None) (fun _ _ => false) q0_rep eq_refl).
  - repeat (apply Forall_cons; split; [cbn; lia|]). apply Forall_nil_2.
  - repeat (constructor; [|repeat (apply Forall_cons; split; [cbn; lia|]); apply Forall_nil_2]).
    constructor.
Defined.

End SerialExecutor.
