(* ===== verification/Promises.v ===== *)
(** * util/concurrent/Promise.h, util/concurrent/Thenable.h: promises

    A promise is completed once, with a result or an exception, and then runs the actions that
    were added to it: objects of one class for each way to make a new promise (the consumer) depend
    on one (the supplier).  An action runs on its executor, on the thread that completes the
    supplier if it has none of its own.

    Promises and actions are objects of the store [world].  All promises carry the same type [V] of
    results.  The model is that of one thread: every call ends before the next one begins, but for
    the calls nested in it.  What an asynchronous executor is given waits in [pending] until it is
    run.  The functions the application hands over are the parameters [call] and [compose].  The
    promises of timeouts (orTimeout, completeOnTimeout, delay), which post to a global thread, and
    allOf with completeOnException are left out. *)

From S2P Require Import Prelude.
Open Scope Z_scope.

Module Promise.

(** ** Objects *)

(** An exception object: one of the application's, or one the library makes.  A completion
    exception has a cause or just a message. *)
Inductive exception :=
  | Plain (e : nat)
  | NullPointer
  | Cancellation
  | Completion (cause : option exception).

(** A handler's executor and a thread pool run what they are given later. *)
(* util/concurrent/Executors.h:29-38 SynchronousExecutor *)
Inductive Executor := SYNCHRONOUS_EXECUTOR | Asynchronous (k : nat).

(** The classes of actions; a function of the application is a number. *)
Inductive ActionKind :=
  | RelayAction (mSupplier mConsumer : nat)
  | BiRelayAction (mSupplier1 mSupplier2 mConsumer : nat)
  | FunctionAction (mSupplier mConsumer mFunction : nat)
  | BiFunctionAction (mSupplier mConsumer mFunction : nat)
  | CompositionFunctionAction (mSupplier mConsumer mFunction : nat)
  | BiCompositionFunctionAction (mSupplier mConsumer mFunction : nat)
  | ConsumerAction (mSupplier mConsumer mFunction : nat)
  | BiConsumerAction (mSupplier mConsumer mFunction : nat)
  | RunAction (mSupplier mConsumer mAction : nat)
  | AnyOfAction (mSupplier mConsumer : nat)
  | ErrorRelayAction (mSupplier mConsumer : nat)
  | ErrorFunctionAction (mSupplier mConsumer mFunction : nat)
  | ErrorConsumerAction (mSupplier mConsumer mFunction : nat).

(** What a function of the application does: it returns or throws, an exception of the library,
    one of the standard library, or anything else. *)
Inductive answer (A : Type) :=
  | Returns (a : A)
  | Throws (e : exception)
  | ThrowsStd
  | ThrowsOther.
Arguments Returns {A} a.
Arguments Throws {A} e.
Arguments ThrowsStd {A}.
Arguments ThrowsOther {A}.

(* util/concurrent/Thenable.h:81-104 Thenable::Action *)
Record Action := mkAction {
  kind : ActionKind;
  mActionExecutor : option Executor;
  mClaim : bool;
}.

Section promises.
Context {V : Type} (null : V).

(** The list of actions has its nodes, which an iterator points at; a null list is an empty
    one. *)
(* util/concurrent/Promise.h:1973-1979 Promise *)
Record Promise := mkPromise {
  mResult : V;
  mException : option exception;
  mIsDone : bool;
  mActions : list (nat * nat);
  mExecutor : option Executor;
}.

(** [claimed] records the actions in the order they were claimed. *)
Record world := mkWorld {
  promises : list Promise;
  actions : list Action;
  pending : list (nat * nat);
  nextNode : nat;
  claimed : list nat;
}.

Definition set_promises (ps : list Promise) (w : world) : world :=
  mkWorld ps (actions w) (pending w) (nextNode w) (claimed w).
Definition set_actions (xs : list Action) (w : world) : world :=
  mkWorld (promises w) xs (pending w) (nextNode w) (claimed w).
Definition set_pending (xs : list (nat * nat)) (w : world) : world :=
  mkWorld (promises w) (actions w) xs (nextNode w) (claimed w).

Definition load (p : nat) : M world Promise := fun w =>
  match promises w !! p with Some c => (Ok c, w) | None => (Undef, w) end.
Definition update (p : nat) (f : Promise -> Promise) : M world unit :=
  c ← load p; modify (fun w => set_promises (<[p := f c]> (promises w)) w).
Definition loadAction (a : nat) : M world Action := fun w =>
  match actions w !! a with Some c => (Ok c, w) | None => (Undef, w) end.

Definition with_result (v : V) (c : Promise) : Promise :=
  mkPromise v (mException c) true (mActions c) (mExecutor c).
Definition with_exception (e : option exception) (c : Promise) : Promise :=
  mkPromise (mResult c) e true (mActions c) (mExecutor c).
Definition with_actions (l : list (nat * nat)) (c : Promise) : Promise :=
  mkPromise (mResult c) (mException c) (mIsDone c) l (mExecutor c).
Definition with_executor (e : option Executor) (c : Promise) : Promise :=
  mkPromise (mResult c) (mException c) (mIsDone c) (mActions c) e.

(** [new Promise(executor)], [new Action(executor)] *)
(* util/concurrent/Promise.h:165-167 Promise::Promise *)
Definition newPromise (executor : option Executor) : M world nat := fun w =>
  (Ok (length (promises w)), set_promises (promises w ++ [mkPromise null None false [] executor]) w).
(* util/concurrent/Thenable.h:83-85 Action::Action *)
Definition newAction (k : ActionKind) (executor : option Executor) : M world nat := fun w =>
  (Ok (length (actions w)), set_actions (actions w ++ [mkAction k executor false]) w).

(** ** The state of a promise *)

(* util/concurrent/Promise.h:480-483 Promise::isDone *)
Definition isDone (this : nat) : M world bool := c ← load this; mret (mIsDone c).

(* util/concurrent/Promise.h:1917-1923 Promise::setResult *)
Definition setResult (this : nat) (result : V) : M world unit :=
  c ← load this; if mIsDone c then mret tt else update this (with_result result).

(* util/concurrent/Thenable.h:106-112 Thenable::setException *)
Definition setException (this : nat) (e : option exception) : M world unit :=
  c ← load this; if mIsDone c then mret tt else update this (with_exception e).

(* util/concurrent/Promise.h:1925-1928 Promise::getResult *)
Definition getResult (this : nat) : M world V := c ← load this; mret (mResult c).

(* util/concurrent/Thenable.h:114-117 Thenable::getException *)
Definition getException (this : nat) : M world (option exception) := c ← load this; mret (mException c).

(* util/concurrent/Promise.h:1913-1915 Promise::toCompletionException *)
Definition toCompletionException (e : exception) : exception :=
  match e with Completion _ => e | _ => Completion (Some e) end.

(* util/concurrent/Promise.h:580-586 Promise::isCancelled *)
Definition isCancelled (this : nat) : M world bool :=
  e ← getException this; mret (match e with Some Cancellation => true | _ => false end).

(* util/concurrent/Promise.h:588-591 Promise::isCompletedExceptionally *)
Definition isCompletedExceptionally (this : nat) : M world bool :=
  e ← getException this; mret (match e with Some _ => true | None => false end).

(** What [get] ends with; it waits where there is nothing yet. *)
Inductive got := Value (v : V) | ThrowsCancellation | ThrowsExecution (e : exception).

(* util/concurrent/Promise.h:485-503 Promise::get *)
Definition get (this : nat) : M world (option got) :=
  c ← load this;
  if mIsDone c then
    match mException c with
    | Some Cancellation => mret (Some ThrowsCancellation)
    | Some (Completion (Some cause)) => mret (Some (ThrowsExecution cause))
    | Some e => mret (Some (ThrowsExecution e))
    | None => mret (Some (Value (mResult c)))
    end
  else mret None.

(** ** Actions *)

(** The functions, by number: [call] for those that return a result (or nothing, in which case
    the result is not looked at), [compose] for those that return a promise. *)
Variable call : nat -> V -> option exception -> M world (answer V).
Variable compose : nat -> V -> option exception -> M world (answer (option nat)).

(** The clauses that catch what a function throws. *)
Definition caught {A} (x : answer A) : A + exception :=
  match x with
  | Returns a => inl a
  | Throws e => inr (toCompletionException e)
  | ThrowsStd | ThrowsOther => inr (Completion None)
  end.

(* util/concurrent/Thenable.h:96-98 Action::claim *)
Definition claim (a : nat) : M world bool :=
  c ← loadAction a;
  if mClaim c then mret false
  else
    modify (fun w => mkWorld (promises w)
      (<[a := mkAction (kind c) (mActionExecutor c) true]> (actions w))
      (pending w) (nextNode w) (claimed w ++ [a]));;
    mret true.

(** The calls below run actions, which call them again.  They are written for any way to run an
    action; [tryRun] at the end ties the knot. *)
Section knot.
Variable tryRun_ : nat -> M world unit.

(** [mActions->add(action)], [mActions->remove(action)] *)
Definition push (this a : nat) : M world unit :=
  n ← gets nextNode;
  modify (fun w => mkWorld (promises w) (actions w) (pending w) (S n) (claimed w));;
  update this (fun c => with_actions (mActions c ++ [(n, a)]) c).

Fixpoint drop_action (a : nat) (l : list (nat * nat)) : list (nat * nat) :=
  match l with
  | [] => []
  | x :: l => if decide (x.2 = a) then l else x :: drop_action a l
  end.

(* util/concurrent/Thenable.h:131-136 Thenable::removeAction *)
Definition removeAction (this a : nat) : M world unit :=
  update this (fun c => with_actions (drop_action a (mActions c)) c).

(* util/concurrent/Thenable.h:119-129 Thenable::addAction *)
Definition addAction (this a : nat) : M world unit :=
  push this a;;
  d ← isDone this;
  if d : bool then removeAction this a;; tryRun_ a else mret tt.

(** The node an iterator points at, with the node behind it. *)
Fixpoint at_node (n : nat) (l : list (nat * nat)) : option (nat * option nat) :=
  match l with
  | [] => None
  | x :: l => if decide (x.1 = n) then Some (x.2, fst <$> head l) else at_node n l
  end.

(** [itr]: the node [next] returns, [None] at the end.  If that node was erased while the action
    before it ran, the iterator dangles. *)
(* util/concurrent/Thenable.h:141-145 Thenable::runActions *)
Fixpoint runLoop (fuel : nat) (this : nat) (itr : option nat) : M world unit :=
  match itr with
  | None => mret tt
  | Some n =>
      match fuel with
      | O => diverge
      | S fuel =>
          c ← load this;
          match at_node n (mActions c) with
          | None => undefined
          | Some (a, next) =>
              update this (with_actions (filter (fun x => x.1 <> n) (mActions c)));;
              tryRun_ a;;
              runLoop fuel this next
          end
      end
  end.

(* util/concurrent/Thenable.h:138-147 Thenable::runActions *)
Definition runActions (this : nat) : M world unit :=
  c ← load this; runLoop (length (mActions c)) this (fst <$> head (mActions c)).

(* util/concurrent/Promise.h:1903-1907 Promise::onComplete *)
Definition onComplete (this : nat) : M world unit := runActions this.

(* util/concurrent/Promise.h:531-541 Promise::complete *)
Definition complete (this : nat) (result : V) : M world bool :=
  d ← isDone this;
  if d : bool then mret false
  else update this (with_result result);; onComplete this;; mret true.

(* util/concurrent/Promise.h:543-556 Promise::completeWith(exception) *)
Definition completeWith_exception (this : nat) (e : option exception) : M world bool :=
  match e with
  | None => throw NullPointerException
  | Some e =>
      d ← isDone this;
      if d : bool then mret false
      else update this (with_exception (Some e));; onComplete this;; mret true
  end.

(* util/concurrent/Promise.h:562-573 Promise::completeWith(supplier) *)
Definition completeWith (this : nat) (supplier : option nat) : M world bool :=
  match supplier with
  | None => throw NullPointerException
  | Some supplier =>
      a ← newAction (RelayAction supplier this) None;
      d ← isDone supplier;
      (if d : bool then tryRun_ a else addAction supplier a);;
      mret true
  end.

(* util/concurrent/Promise.h:575-578 Promise::cancel *)
Definition cancel (this : nat) : M world bool :=
  cancelled ← completeWith_exception this (Some Cancellation);
  c ← isCancelled this;
  mret (cancelled || c).

(** *** The classes of actions: [run] *)

(* util/concurrent/Promise.h:1397-1405 RelayAction::run *)
Definition relay_run (mSupplier mConsumer : nat) : M world unit :=
  e ← getException mSupplier;
  match e with
  | None => r ← getResult mSupplier; setResult mConsumer r
  | Some e => setException mConsumer (Some (toCompletionException e))
  end;;
  onComplete mConsumer.

(* util/concurrent/Promise.h:1426-1436 BiRelayAction::run *)
Definition biRelay_run (mSupplier1 mSupplier2 mConsumer : nat) : M world unit :=
  e1 ← getException mSupplier1;
  match e1 with
  | Some e => setException mConsumer (Some (toCompletionException e))
  | None =>
      e2 ← getException mSupplier2;
      match e2 with
      | Some e => setException mConsumer (Some (toCompletionException e))
      | None => setResult mConsumer null
      end
  end;;
  onComplete mConsumer.

(** [try { ... setResult(...) } catch ... setException(...)] *)
Definition settle (mConsumer : nat) (x : V + exception) : M world unit :=
  match x with
  | inl v => setResult mConsumer v
  | inr e => setException mConsumer (Some e)
  end.

(* util/concurrent/Promise.h:1452-1469 FunctionAction::run *)
Definition function_run (mSupplier mConsumer mFunction : nat) : M world unit :=
  e ← getException mSupplier;
  match e with
  | None =>
      r ← getResult mSupplier;
      x ← call mFunction r None;
      settle mConsumer (caught x)
  | Some e => setException mConsumer (Some (toCompletionException e))
  end;;
  onComplete mConsumer.

(* util/concurrent/Promise.h:1485-1503 BiFunctionAction::run *)
Definition biFunction_run (mSupplier mConsumer mFunction : nat) : M world unit :=
  e ← getException mSupplier;
  x ← match e with
      | None => r ← getResult mSupplier; call mFunction r None
      | Some e => call mFunction null (Some e)
      end;
  settle mConsumer (caught x);;
  onComplete mConsumer.

(** [mConsumer->completeWith(u); return;] in the [try] block: a null promise throws in there. *)
Definition follow (mConsumer : nat) (x : answer (option nat)) : M world unit :=
  match caught x with
  | inl (Some u) => completeWith mConsumer (Some u);; mret tt
  | inl None => setException mConsumer (Some (toCompletionException NullPointer));; onComplete mConsumer
  | inr e => setException mConsumer (Some e);; onComplete mConsumer
  end.

(* util/concurrent/Promise.h:1519-1537 CompositionFunctionAction::run *)
Definition composition_run (mSupplier mConsumer mFunction : nat) : M world unit :=
  e ← getException mSupplier;
  match e with
  | None =>
      r ← getResult mSupplier;
      x ← compose mFunction r None;
      follow mConsumer x
  | Some e => setException mConsumer (Some (toCompletionException e));; onComplete mConsumer
  end.

(* util/concurrent/Promise.h:1553-1572 BiCompositionFunctionAction::run *)
Definition biComposition_run (mSupplier mConsumer mFunction : nat) : M world unit :=
  e ← getException mSupplier;
  x ← match e with
      | None => r ← getResult mSupplier; compose mFunction r None
      | Some e => compose mFunction null (Some e)
      end;
  follow mConsumer x.

(** [setResult(mSupplier->getResult())] after the function returned. *)
Definition pass (mSupplier mConsumer : nat) (x : answer V) : M world unit :=
  match caught x with
  | inl _ => r ← getResult mSupplier; setResult mConsumer r
  | inr e => setException mConsumer (Some e)
  end.

(* util/concurrent/Promise.h:1587-1604 ConsumerAction::run *)
Definition consumer_run (mSupplier mConsumer mFunction : nat) : M world unit :=
  e ← getException mSupplier;
  match e with
  | None =>
      r ← getResult mSupplier;
      x ← call mFunction r None;
      pass mSupplier mConsumer x
  | Some e => setException mConsumer (Some (toCompletionException e))
  end;;
  onComplete mConsumer.

(** [setException(mSupplier->getException())] after the function returned: unlike elsewhere, the
    exception is not wrapped. *)
Definition pass_exception (mSupplier mConsumer : nat) (x : answer V) : M world unit :=
  match caught x with
  | inl _ => e ← getException mSupplier; setException mConsumer e
  | inr e => setException mConsumer (Some e)
  end.

(* util/concurrent/Promise.h:1619-1637 BiConsumerAction::run *)
Definition biConsumer_run (mSupplier mConsumer mFunction : nat) : M world unit :=
  e ← getException mSupplier;
  match e with
  | None => r ← getResult mSupplier; x ← call mFunction r None; pass mSupplier mConsumer x
  | Some e => x ← call mFunction null (Some e); pass_exception mSupplier mConsumer x
  end;;
  onComplete mConsumer.

(* util/concurrent/Promise.h:1652-1669 RunAction::run *)
Definition run_run (mSupplier mConsumer mAction : nat) : M world unit :=
  e ← getException mSupplier;
  match e with
  | None => x ← call mAction null None; pass mSupplier mConsumer x
  | Some e => setException mConsumer (Some (toCompletionException e))
  end;;
  onComplete mConsumer.

(* util/concurrent/Promise.h:1690-1708 AnyOfAction::run *)
Definition anyOf_run (mSupplier mConsumer : nat) : M world unit :=
  e ← getException mSupplier;
  match e with
  | None => r ← getResult mSupplier; setResult mConsumer r
  | Some e => setException mConsumer (Some (toCompletionException e))
  end;;
  onComplete mConsumer.

(* util/concurrent/Promise.h:1728-1733 ErrorRelayAction::run *)
Definition errorRelay_run (mSupplier mConsumer : nat) : M world unit :=
  e ← getException mSupplier;
  match e with
  | Some e => setException mConsumer (Some (toCompletionException e));; onComplete mConsumer
  | None => mret tt
  end.

(* util/concurrent/Promise.h:1748-1765 ErrorFunctionAction::run *)
Definition errorFunction_run (mSupplier mConsumer mFunction : nat) : M world unit :=
  e ← getException mSupplier;
  match e with
  | Some e => x ← call mFunction null (Some e); settle mConsumer (caught x)
  | None => r ← getResult mSupplier; setResult mConsumer r
  end;;
  onComplete mConsumer.

(* util/concurrent/Promise.h:1780-1797 ErrorConsumerAction::run *)
Definition errorConsumer_run (mSupplier mConsumer mFunction : nat) : M world unit :=
  e ← getException mSupplier;
  match e with
  | Some e => x ← call mFunction null (Some e); pass_exception mSupplier mConsumer x
  | None => r ← getResult mSupplier; setResult mConsumer r
  end;;
  onComplete mConsumer.

(** The virtual [run]. *)
Definition run (a : nat) : M world unit :=
  c ← loadAction a;
  match kind c with
  | RelayAction s p => relay_run s p
  | BiRelayAction s1 s2 p => biRelay_run s1 s2 p
  | FunctionAction s p f => function_run s p f
  | BiFunctionAction s p f => biFunction_run s p f
  | CompositionFunctionAction s p f => composition_run s p f
  | BiCompositionFunctionAction s p f => biComposition_run s p f
  | ConsumerAction s p f => consumer_run s p f
  | BiConsumerAction s p f => biConsumer_run s p f
  | RunAction s p f => run_run s p f
  | AnyOfAction s p => anyOf_run s p
  | ErrorRelayAction s p => errorRelay_run s p
  | ErrorFunctionAction s p f => errorFunction_run s p f
  | ErrorConsumerAction s p f => errorConsumer_run s p f
  end.

(** [mExecutor->execute(this)]; there is no executor to call if it is null. *)
Definition execute (executor : option Executor) (a : nat) : M world unit :=
  match executor with
  | None => undefined
  | Some SYNCHRONOUS_EXECUTOR => run a
  | Some (Asynchronous k) => modify (fun w => set_pending (pending w ++ [(k, a)]) w)
  end.

(* util/concurrent/Thenable.h:87-91 Action::tryRun *)
Definition executor_tryRun (a : nat) : M world unit :=
  c ← loadAction a; b ← claim a; if b : bool then execute (mActionExecutor c) a else mret tt.

(* util/concurrent/Promise.h:1391-1395 RelayAction::tryRun *)
Definition direct_tryRun (a : nat) : M world unit :=
  b ← claim a; if b : bool then run a else mret tt.

(* util/concurrent/Promise.h:1418-1424 BiRelayAction::tryRun *)
Definition biRelay_tryRun (mSupplier1 mSupplier2 a : nat) : M world unit :=
  d1 ← isDone mSupplier1;
  if d1 : bool then
    d2 ← isDone mSupplier2;
    if d2 : bool then direct_tryRun a else mret tt
  else mret tt.

(** The virtual [tryRun]. *)
Definition tryRunBody (a : nat) : M world unit :=
  c ← loadAction a;
  match kind c with
  | RelayAction _ _ | AnyOfAction _ _ | ErrorRelayAction _ _ => direct_tryRun a
  | BiRelayAction s1 s2 _ => biRelay_tryRun s1 s2 a
  | _ => executor_tryRun a
  end.

End knot.

(** [fuel] bounds how deep completions nest. *)
Fixpoint tryRun (fuel : nat) (a : nat) : M world unit :=
  match fuel with
  | O => diverge
  | S fuel => tryRunBody (tryRun fuel) a
  end.

(** ** Dependent promises *)

Section api.
Variable fuel : nat.

(** The rest of each method below: the new promise, the action of kind [k] for it, and the action
    run or added. *)
Definition dependent (this : nat) (executor : option Executor) (k : nat -> ActionKind) : M world nat :=
  throw_if (match executor with None => true | Some _ => false end) NullPointerException;;
  c ← load this;
  p ← newPromise (mExecutor c);
  a ← newAction (k p) executor;
  d ← isDone this;
  (if d : bool then tryRun fuel a else addAction (tryRun fuel) this a);;
  mret p.

(* util/concurrent/Promise.h:661-674 Promise::thenApply *)
Definition thenApply (this : nat) (executor : option Executor) (function : nat) : M world nat :=
  dependent this executor (fun p => FunctionAction this p function).

(* util/concurrent/Promise.h:760-773 Promise::thenApply(BiFunction) *)
Definition thenApply_bi (this : nat) (executor : option Executor) (function : nat) : M world nat :=
  dependent this executor (fun p => BiFunctionAction this p function).

(* util/concurrent/Promise.h:859-872 Promise::thenCompose *)
Definition thenCompose (this : nat) (executor : option Executor) (function : nat) : M world nat :=
  dependent this executor (fun p => CompositionFunctionAction this p function).

(* util/concurrent/Promise.h:953-966 Promise::thenCompose(BiFunction) *)
Definition thenCompose_bi (this : nat) (executor : option Executor) (function : nat) : M world nat :=
  dependent this executor (fun p => BiCompositionFunctionAction this p function).

(* util/concurrent/Promise.h:1029-1041 Promise::thenAccept *)
Definition thenAccept (this : nat) (executor : option Executor) (function : nat) : M world nat :=
  dependent this executor (fun p => ConsumerAction this p function).

(* util/concurrent/Promise.h:1113-1125 Promise::thenAccept(BiConsumer) *)
Definition thenAccept_bi (this : nat) (executor : option Executor) (function : nat) : M world nat :=
  dependent this executor (fun p => BiConsumerAction this p function).

(* util/concurrent/Promise.h:1217-1232 Promise::thenRun *)
Definition thenRun (this : nat) (executor : option Executor) (action : option nat) : M world nat :=
  throw_if (match executor with None => true | Some _ => false end) NullPointerException;;
  match action with
  | None => throw NullPointerException
  | Some action => dependent this executor (fun p => RunAction this p action)
  end.

(* util/concurrent/Promise.h:1298-1311 Promise::catchException(Function) *)
Definition catchException (this : nat) (executor : option Executor) (function : nat) : M world nat :=
  dependent this executor (fun p => ErrorFunctionAction this p function).

(* util/concurrent/Promise.h:1321-1333 Promise::catchException(Consumer) *)
Definition catchException_consumer (this : nat) (executor : option Executor) (function : nat) :
    M world nat :=
  dependent this executor (fun p => ErrorConsumerAction this p function).

(* util/concurrent/Promise.h:472-478 Promise::onExecutor *)
Definition onExecutor (this : nat) (executor : option Executor) : M world nat :=
  throw_if (match executor with None => true | Some _ => false end) NullPointerException;;
  update this (with_executor executor);;
  mret this.

(** The end of [andTree]: a new action for two suppliers, or the outcome of both.  The promise the
    code makes along with the action is not used. *)
(* util/concurrent/Promise.h:1944-1962 Promise::andTree *)
Definition andJoin (executor : option Executor) (consumer supplier1 supplier2 : nat) : M world nat :=
  d1 ← isDone supplier1;
  d2 ← isDone supplier2;
  (if negb d1 || negb d2 then
    newPromise executor;;
    action ← newAction (BiRelayAction supplier1 supplier2 consumer) None;
    d1 ← isDone supplier1;
    (if d1 : bool then tryRun fuel action else addAction (tryRun fuel) supplier1 action);;
    d2 ← isDone supplier2;
    (if d2 : bool then tryRun fuel action else addAction (tryRun fuel) supplier2 action)
  else
    e1 ← getException supplier1;
    match e1 with
    | Some e => setException consumer (Some (toCompletionException e))
    | None =>
        e2 ← getException supplier2;
        match e2 with
        | Some e => setException consumer (Some (toCompletionException e))
        | None => setResult consumer null
        end
    end);;
  mret consumer.

(** The tree over [promises[start..last]]; [depth] is more than its height.  An element may be
    null. *)
(* util/concurrent/Promise.h:1930-1963 Promise::andTree *)
Fixpoint andTree (depth : nat) (executor : option Executor) (ps : list (option nat)) (start last : nat) :
    M world nat :=
  match depth with
  | O => diverge
  | S depth =>
      consumer ← newPromise executor;
      let mid := ((start + last) / 2)%nat in
      supplier1 ← (if decide (start = mid) then mret (mjoin (ps !! start))
                   else s ← andTree depth executor ps start mid; mret (Some s));
      match supplier1 with
      | None => throw NullPointerException
      | Some supplier1 =>
          supplier2 ← (if decide (start = last) then mret (Some supplier1)
                       else if decide (last = S mid) then mret (mjoin (ps !! last))
                       else s ← andTree depth executor ps (S mid) last; mret (Some s));
          match supplier2 with
          | None => throw NullPointerException
          | Some supplier2 => andJoin executor consumer supplier1 supplier2
          end
      end
  end.

(* util/concurrent/Promise.h:277-284 Promise::allOf *)
Definition allOf (executor : option Executor) (ps : list (option nat)) : M world nat :=
  match ps with
  | [] => p ← newPromise executor; complete (tryRun fuel) p null;; mret p
  | _ => andTree (S (length ps)) executor ps 0 (length ps - 1)
  end.

(** The first promise that is done already, whose outcome [consumer] gets. *)
(* util/concurrent/Promise.h:424-436 Promise::anyOf *)
Fixpoint firstDone (consumer : nat) (ps : list (option nat)) : M world bool :=
  match ps with
  | [] => mret false
  | None :: _ => throw NullPointerException
  | Some p :: ps =>
      d ← isDone p;
      if d : bool then
        e ← getException p;
        match e with
        | None => r ← getResult p; setResult consumer r
        | Some e => setException consumer (Some (toCompletionException e))
        end;;
        mret true
      else firstDone consumer ps
  end.

Fixpoint each (f : nat -> nat -> M world unit) (ps xs : list nat) : M world unit :=
  match ps, xs with
  | p :: ps, x :: xs => f p x;; each f ps xs
  | _, _ => mret tt
  end.

Fixpoint newActions (consumer : nat) (ps : list nat) : M world (list nat) :=
  match ps with
  | [] => mret []
  | p :: ps => a ← newAction (AnyOfAction p consumer) None; xs ← newActions consumer ps; mret (a :: xs)
  end.

(* util/concurrent/Promise.h:419-458 Promise::anyOf *)
Definition anyOf (executor : option Executor) (ps : list (option nat)) : M world nat :=
  consumer ← newPromise executor;
  match ps with
  | [] => mret consumer
  | _ =>
      b ← firstDone consumer ps;
      if b : bool then mret consumer
      else
        let qs := omap id ps in
        xs ← newActions consumer qs;
        each (addAction (tryRun fuel)) qs xs;;
        d ← isDone consumer;
        (if d : bool then each removeAction qs xs else mret tt);;
        mret consumer
  end.

(** An executor runs the next action it was given. *)
Definition runPending : M world unit :=
  l ← gets pending;
  match l with
  | [] => mret tt
  | (_, a) :: l => modify (set_pending l);; run (tryRun fuel) a
  end.
End api.

(** ** Requests *)

(** What the application asks for, one call after another. *)
Inductive request :=
  | New (executor : option Executor)
  | Complete (p : nat) (v : V)
  | CompleteExceptionally (p : nat) (e : option exception)
  | Follow (p : nat) (supplier : option nat)
  | Cancel (p : nat)
  | ThenApply (p : nat) (executor : option Executor) (f : nat)
  | ThenApplyBi (p : nat) (executor : option Executor) (f : nat)
  | ThenCompose (p : nat) (executor : option Executor) (f : nat)
  | ThenComposeBi (p : nat) (executor : option Executor) (f : nat)
  | ThenAccept (p : nat) (executor : option Executor) (f : nat)
  | ThenAcceptBi (p : nat) (executor : option Executor) (f : nat)
  | ThenRun (p : nat) (executor : option Executor) (f : option nat)
  | CatchException (p : nat) (executor : option Executor) (f : nat)
  | CatchExceptionConsumer (p : nat) (executor : option Executor) (f : nat)
  | AllOf (executor : option Executor) (ps : list (option nat))
  | AnyOf (executor : option Executor) (ps : list (option nat))
  | RunPending.

Definition perform (fuel : nat) (r : request) : M world unit :=
  match r with
  | New ex => newPromise ex;; mret tt
  | Complete p v => complete (tryRun fuel) p v;; mret tt
  | CompleteExceptionally p e => completeWith_exception (tryRun fuel) p e;; mret tt
  | Follow p s => completeWith (tryRun fuel) p s;; mret tt
  | Cancel p => cancel (tryRun fuel) p;; mret tt
  | ThenApply p ex f => thenApply fuel p ex f;; mret tt
  | ThenApplyBi p ex f => thenApply_bi fuel p ex f;; mret tt
  | ThenCompose p ex f => thenCompose fuel p ex f;; mret tt
  | ThenComposeBi p ex f => thenCompose_bi fuel p ex f;; mret tt
  | ThenAccept p ex f => thenAccept fuel p ex f;; mret tt
  | ThenAcceptBi p ex f => thenAccept_bi fuel p ex f;; mret tt
  | ThenRun p ex f => thenRun fuel p ex f;; mret tt
  | CatchException p ex f => catchException fuel p ex f;; mret tt
  | CatchExceptionConsumer p ex f => catchException_consumer fuel p ex f;; mret tt
  | AllOf ex ps => allOf fuel ex ps;; mret tt
  | AnyOf ex ps => anyOf fuel ex ps;; mret tt
  | RunPending => runPending fuel
  end.

(** Whether a request ends with an exception or not, the next one is made in the world it left. *)
Definition session (fuel : nat) (rs : list request) (w : world) : world :=
  foldl (fun w r => exec (perform fuel r) w) w rs.

Definition start : world := mkWorld [] [] [] 0 [].
End promises.

(** ** A promise completes once, an action is claimed once *)

Section growth.
Context {V : Type}.
Notation world := (@world V).
Notation Promise := (@Promise V).
Implicit Types (w : world) (c : Promise) (f : Promise -> Promise).

(** What no call undoes: the outcome of a promise that is done, the claim of an action; objects
    stay what they are. *)
Record extends (w w' : world) : Prop := {
  extends_promises : forall p c, promises w !! p = Some c ->
    exists c', promises w' !! p = Some c' /\
      (mIsDone c = true -> mIsDone c' = true /\ mResult c' = mResult c /\ mException c' = mException c);
  extends_actions : forall a x, actions w !! a = Some x ->
    exists x', actions w' !! a = Some x' /\ kind x' = kind x /\
      mActionExecutor x' = mActionExecutor x /\ (mClaim x = true -> mClaim x' = true);
  extends_claimed : claimed w `prefix_of` claimed w';
}.

(** The actions claimed so far are different and marked so. *)
Definition once (w : world) : Prop :=
  NoDup (claimed w) /\
  forall a, a ∈ claimed w -> exists x, actions w !! a = Some x /\ mClaim x = true.

Definition grows (w w' : world) : Prop := extends w w' /\ (once w -> once w').

#[export] Instance extends_preorder : PreOrder extends.
Proof.
  split.
  - intros w. split; [|naive_solver|done]. intros p c H. exists c. naive_solver.
  - intros w1 w2 w3 [P1 A1 C1] [P2 A2 C2]. split; [| |by etrans].
    + intros p c (c2 & H2 & E2)%P1. destruct (P2 p c2 H2) as (c3 & H3 & E3).
      exists c3. split; [done|]. intros Hd. destruct (E2 Hd) as (D2 & R2 & X2).
      destruct (E3 D2) as (D3 & R3 & X3). split; [done|]. split; congruence.
    + intros a x (x2 & H2 & K2 & V2 & E2)%A1. destruct (A2 a x2 H2) as (x3 & H3 & K3 & V3 & E3).
      exists x3. split; [done|]. split; [congruence|split; [congruence|]]. auto.
Qed.

#[export] Instance grows_preorder : PreOrder grows.
Proof.
  split; [intros w; split; [done|auto]|].
  intros w1 w2 w3 [E1 O1] [E2 O2]. split; [by etrans|auto].
Qed.

(** A call that only lets the world grow, however it ends. *)
Definition growing {A} (m : M world A) : Prop := forall w, grows w (exec m w).

Lemma growing_bind {A B} (m : M world A) (f : A -> M world B) :
  growing m -> (forall a, growing (f a)) -> growing (m ≫= f).
Proof.
  intros Hm Hf w. specialize (Hm w). unfold exec in *. unfold mbind, M_bind.
  destruct (m w) as [[a|e| |] w1]; cbn in *; try done. etrans; [done|apply Hf].
Qed.

Lemma growing_state {A} (m : M world A) : (forall w, exec m w = w) -> growing m.
Proof. intros H w. by rewrite H. Qed.

Lemma growing_ret {A} (a : A) : growing (mret a).
Proof. by apply growing_state. Qed.
Lemma growing_throw {A} e : growing (@throw world A e).
Proof. by apply growing_state. Qed.
Lemma growing_undefined {A} : growing (@undefined world A).
Proof. by apply growing_state. Qed.
Lemma growing_diverge {A} : growing (@diverge world A).
Proof. by apply growing_state. Qed.
Lemma growing_gets {A} (f : world -> A) : growing (gets f).
Proof. by apply growing_state. Qed.
Lemma growing_throw_if (b : bool) e : growing (@throw_if world b e).
Proof. by destruct b; apply growing_state. Qed.
Lemma growing_load p : growing (load p).
Proof. apply growing_state. intros w. unfold exec, load. by destruct (promises w !! p). Qed.
Lemma growing_loadAction a : growing (loadAction a).
Proof. apply growing_state. intros w. unfold exec, loadAction. by destruct (actions w !! a). Qed.


(** A write to a promise that is not done, or that leaves its outcome alone. *)
Lemma grows_insert w p c c' :
  promises w !! p = Some c ->
  (mIsDone c = true -> mIsDone c' = true /\ mResult c' = mResult c /\ mException c' = mException c) ->
  grows w (set_promises (<[p := c']> (promises w)) w).
Proof.
  intros Hp Hc. split; [|done]. split; cbn; [|naive_solver|done].
  intros q d Hq. destruct (decide (q = p)) as [->|].
  - rewrite list_lookup_insert_eq by (by eapply lookup_lt_Some). exists c'.
    split; [done|]. naive_solver.
  - rewrite list_lookup_insert_ne by done. naive_solver.
Qed.

Lemma update_eq p f w c :
  promises w !! p = Some c -> update p f w = (Ok tt, set_promises (<[p := f c]> (promises w)) w).
Proof. intros H. unfold update, load, mbind, M_bind. by rewrite H. Qed.

Lemma bind_loadp {A} p c w (f : Promise -> M world A) :
  promises w !! p = Some c -> (load p ≫= f) w = f c w.
Proof. intros H. unfold load, mbind, M_bind. by rewrite H. Qed.

Lemma load_undef {A} p w (f : Promise -> M world A) :
  promises w !! p = None -> (load p ≫= f) w = (Undef, w).
Proof. intros H. unfold load, mbind, M_bind. by rewrite H. Qed.

Lemma growing_update p f :
  (forall c, mIsDone (f c) = mIsDone c /\ mResult (f c) = mResult c /\ mException (f c) = mException c) ->
  growing (update p f).
Proof.
  intros Hf w. destruct (promises w !! p) as [c|] eqn:Hp.
  - unfold exec. rewrite (update_eq _ _ _ _ Hp). apply grows_insert with c; [done|].
    destruct (Hf c) as (-> & -> & ->). done.
  - unfold exec, update. by rewrite load_undef.
Qed.

(** [if (!mIsDone) { ...; mIsDone = true; }] and what follows. *)
Lemma growing_unless_done {A} p f (m1 m2 : M world A) :
  growing m1 -> growing m2 ->
  growing (c ← load p; if mIsDone c then m1 else update p f;; m2).
Proof.
  intros H1 H2 w. destruct (promises w !! p) as [c|] eqn:Hp.
  2: { unfold exec. by rewrite load_undef. }
  unfold exec. rewrite (bind_loadp _ _ _ _ Hp). destruct (mIsDone c) eqn:Hd; [apply H1|].
  rewrite (bind_Ok _ _ _ _ _ (update_eq _ _ _ _ Hp)). etrans; [|apply H2].
  apply grows_insert with c; [done|congruence].
Qed.

Lemma growing_write p f : growing (c ← load p; if mIsDone c then mret tt else update p f).
Proof.
  intros w. destruct (promises w !! p) as [c|] eqn:Hp.
  2: { unfold exec. by rewrite load_undef. }
  unfold exec. rewrite (bind_loadp _ _ _ _ Hp). destruct (mIsDone c) eqn:Hd; [done|].
  rewrite (update_eq _ _ _ _ Hp). apply grows_insert with c; [done|congruence].
Qed.

Lemma growing_setResult p v : growing (setResult p v).
Proof. apply growing_write. Qed.

Lemma growing_setException p e : growing (setException p e).
Proof. apply growing_write. Qed.

Lemma growing_ext {A} (m m' : M world A) : (forall w, m w = m' w) -> growing m' -> growing m.
Proof. intros E H w. unfold exec. rewrite E. apply H. Qed.

Lemma growing_claim a : growing (claim a).
Proof.
  intros w. unfold exec, claim, mbind, M_bind, loadAction.
  destruct (actions w !! a) as [x|] eqn:Ha; [|done]. destruct (mClaim x) eqn:Hx; [done|]. cbn. split.
  - split; cbn; [naive_solver| |by eexists].
    intros b y Hb. destruct (decide (b = a)) as [->|].
    + rewrite list_lookup_insert_eq by (by eapply lookup_lt_Some). eexists. split; [done|]. naive_solver.
    + rewrite list_lookup_insert_ne by done. naive_solver.
  - intros [Hn Hc]. split; cbn.
    + apply NoDup_app. split; [done|split; [|apply NoDup_singleton]].
      intros b Hb ->%list_elem_of_singleton. destruct (Hc a Hb) as (y & Hy & Cy). congruence.
    + intros b [Hb| ->%list_elem_of_singleton]%elem_of_app.
      * destruct (Hc b Hb) as (y & Hy & Cy). rewrite list_lookup_insert_ne by congruence. by exists y.
      * rewrite list_lookup_insert_eq by (by eapply lookup_lt_Some). by eexists.
Qed.

Lemma growing_newPromise null e : growing (newPromise null e).
Proof.
  intros w. split; [|done]. split; cbn; [|naive_solver|done].
  intros p c H. exists c. split; [by apply lookup_app_l_Some|done].
Qed.

Lemma growing_newAction k e : growing (newAction k e).
Proof.
  intros w. split; [split; cbn; [naive_solver| |done]|].
  - intros a x H. exists x. split; [by apply lookup_app_l_Some|done].
  - intros [Hn Hc]. split; [done|]. intros a (x & Hx & Cx)%Hc. exists x.
    split; [by apply lookup_app_l_Some|done].
Qed.

(** A write to what is not a promise or an action. *)
Lemma growing_modify (f : world -> world) :
  (forall w, promises (f w) = promises w /\ actions (f w) = actions w /\ claimed (f w) = claimed w) ->
  growing (modify f).
Proof.
  intros Hf w. destruct (Hf w) as (Hp & Ha & Hc). unfold exec, modify. cbn. split.
  - split; [rewrite Hp|rewrite Ha|by rewrite Hc]; naive_solver.
  - unfold once. by rewrite Hc, Ha.
Qed.
End growth.

Create HintDb growing.
#[export] Hint Resolve growing_ret growing_throw growing_undefined growing_diverge growing_gets
  growing_throw_if growing_load growing_loadAction growing_setResult growing_setException
  growing_claim growing_newPromise growing_newAction : growing.
#[export] Hint Extern 1 (growing (modify _)) => apply growing_modify; done : growing.
#[export] Hint Extern 1 (growing (update _ (fun _ => with_actions _ _))) => apply growing_update; done : growing.
#[export] Hint Extern 1 (growing (update _ (with_actions _))) => apply growing_update; done : growing.

(** Steps through a call, branch by branch. *)
Ltac grow :=
  repeat first
    [ solve [eauto with growing]
    | apply growing_bind; [|intros ?]
    | case_match ].

Section once.
Context {V : Type} (null : V).
Notation world := (@world V).
Notation Promise := (@Promise V).
Variable call : nat -> V -> option exception -> M world (answer V).
Variable compose : nat -> V -> option exception -> M world (answer (option nat)).

(** What the functions of the application owe: they let the world grow, as calls of this file do. *)
Hypothesis call_grows : forall f v e, growing (call f v e).
Hypothesis compose_grows : forall f v e, growing (compose f v e).
Hint Resolve call_grows compose_grows : growing.

Section knot_grows.
Variable tryRun_ : nat -> M world unit.
Hypothesis tryRun_grows : forall a, growing (tryRun_ a).
Hint Resolve tryRun_grows : growing.

Lemma growing_isDone p : growing (V := V) (isDone p).
Proof. unfold isDone. grow. Qed.
Lemma growing_getException p : growing (V := V) (getException p).
Proof. unfold getException. grow. Qed.
Lemma growing_getResult p : growing (V := V) (getResult p).
Proof. unfold getResult. grow. Qed.
Lemma growing_removeAction p a : growing (V := V) (removeAction p a).
Proof. unfold removeAction. grow. Qed.
Hint Resolve growing_isDone growing_getException growing_getResult growing_removeAction : growing.

Lemma growing_addAction p a : growing (V := V) (addAction tryRun_ p a).
Proof. unfold addAction, push. grow. Qed.

Lemma growing_runLoop fuel p itr : growing (V := V) (runLoop tryRun_ fuel p itr).
Proof.
  revert itr. induction fuel as [|fuel IH]; intros itr; cbn; grow.
Qed.

Lemma growing_onComplete p : growing (V := V) (onComplete tryRun_ p).
Proof. unfold onComplete, runActions. pose proof growing_runLoop. grow. Qed.
Hint Resolve growing_addAction growing_onComplete : growing.

Lemma growing_complete p v : growing (V := V) (complete tryRun_ p v).
Proof.
  eapply growing_ext; [|apply (growing_unless_done p (with_result v) (mret false)
    (onComplete tryRun_ p;; mret true)); grow].
  intros w. unfold complete, isDone. by rewrite bind_assoc.
Qed.

Lemma growing_completeWith_exception p e : growing (V := V) (completeWith_exception tryRun_ p e).
Proof.
  destruct e as [e|]; cbn; [|grow].
  eapply growing_ext; [|apply (growing_unless_done p (with_exception (Some e)) (mret false)
    (onComplete tryRun_ p;; mret true)); grow].
  intros w. unfold isDone. by rewrite bind_assoc.
Qed.

Lemma growing_completeWith p s : growing (V := V) (completeWith tryRun_ p s).
Proof. unfold completeWith. grow. Qed.
Hint Resolve growing_complete growing_completeWith_exception growing_completeWith : growing.

Lemma growing_cancel p : growing (V := V) (cancel tryRun_ p).
Proof. unfold cancel, isCancelled. grow. Qed.

Lemma growing_settle p x : growing (V := V) (settle p x).
Proof. unfold settle. grow. Qed.
Lemma growing_pass s p x : growing (V := V) (pass s p x).
Proof. unfold pass. grow. Qed.
Lemma growing_pass_exception s p x : growing (V := V) (pass_exception s p x).
Proof. unfold pass_exception. grow. Qed.
Lemma growing_follow p x : growing (V := V) (follow tryRun_ p x).
Proof. unfold follow. grow. Qed.
Hint Resolve growing_cancel growing_settle growing_pass growing_pass_exception growing_follow : growing.

Lemma growing_run a : growing (V := V) (run null call compose tryRun_ a).
Proof.
  unfold run. apply growing_bind; [grow|]. intros c.
  destruct (kind c); unfold relay_run, biRelay_run, function_run, biFunction_run, composition_run,
    biComposition_run, consumer_run, biConsumer_run, run_run, anyOf_run, errorRelay_run,
    errorFunction_run, errorConsumer_run; grow.
Qed.
Hint Resolve growing_run : growing.

Lemma growing_tryRunBody a : growing (V := V) (tryRunBody null call compose tryRun_ a).
Proof.
  unfold tryRunBody, direct_tryRun, biRelay_tryRun, executor_tryRun, execute. grow.
Qed.
End knot_grows.

Lemma growing_tryRun fuel a : growing (V := V) (tryRun null call compose fuel a).
Proof.
  revert a. induction fuel as [|fuel IH]; intros a; cbn [tryRun]; [grow|]. by apply growing_tryRunBody.
Qed.
Hint Resolve growing_tryRun growing_addAction growing_isDone growing_complete growing_completeWith
  growing_completeWith_exception growing_cancel growing_getException growing_getResult
  growing_removeAction growing_run : growing.

Lemma growing_dependent fuel p ex k : growing (V := V) (dependent null call compose fuel p ex k).
Proof. unfold dependent. grow. Qed.
Hint Resolve growing_dependent : growing.

Lemma growing_andJoin fuel ex c s1 s2 : growing (V := V) (andJoin null call compose fuel ex c s1 s2).
Proof. unfold andJoin. grow. Qed.
Hint Resolve growing_andJoin : growing.

Lemma growing_andTree fuel depth ex ps start last : growing (V := V) (andTree null call compose fuel depth ex ps start last).
Proof.
  revert start last. induction depth as [|depth IH]; intros start last; cbn [andTree]; grow.
Qed.
Hint Resolve growing_andTree : growing.

Lemma growing_firstDone c ps : growing (V := V) (firstDone c ps).
Proof. induction ps as [|[p|] ps IH]; cbn; grow. Qed.

Lemma growing_each (f : nat -> nat -> M world unit) ps xs : (forall p x, growing (f p x)) -> growing (each f ps xs).
Proof. intros Hf. revert xs. induction ps as [|p ps IH]; intros [|x xs]; cbn; grow. Qed.

Lemma growing_newActions c ps : growing (V := V) (newActions c ps).
Proof. induction ps as [|p ps IH]; cbn; grow. Qed.
Hint Resolve growing_firstDone growing_each growing_newActions : growing.

Lemma growing_anyOf fuel ex ps : growing (V := V) (anyOf null call compose fuel ex ps).
Proof. unfold anyOf. grow. Qed.

Lemma growing_runPending fuel : growing (V := V) (runPending null call compose fuel).
Proof. unfold runPending. grow. Qed.
Hint Resolve growing_anyOf growing_runPending : growing.

Lemma growing_perform fuel r : growing (V := V) (perform null call compose fuel r).
Proof.
  destruct r; cbn [perform]; unfold thenApply, thenApply_bi, thenCompose, thenCompose_bi, thenAccept,
    thenAccept_bi, thenRun, catchException, catchException_consumer, allOf; grow.
Qed.

Lemma session_grows fuel rs w : grows w (session null call compose fuel rs w).
Proof.
  revert w. induction rs as [|r rs IH]; intros w; cbn; [done|].
  etrans; [apply growing_perform|apply IH].
Qed.

(** C20: whatever is asked of a set of promises, in any order and however deep the
    completions nest, a promise that is done keeps its result or its exception for ever, and no
    action is claimed, and so run or handed to its executor, twice. *)
Theorem promise_once fuel rs1 rs2 p c :
  promises (session null call compose fuel rs1 start) !! p = Some c -> mIsDone c = true ->
  NoDup (claimed (session null call compose fuel rs2 (session null call compose fuel rs1 start))) /\
  exists c', promises (session null call compose fuel rs2 (session null call compose fuel rs1 start)) !! p = Some c' /\
    mIsDone c' = true /\ mResult c' = mResult c /\ mException c' = mException c.
Proof.
  intros Hp Hd. set (w := session null call compose fuel rs1 start) in *.
  destruct (session_grows fuel rs1 start) as [_ O1]. destruct (session_grows fuel rs2 w) as [E2 O2].
  split.
  - apply O2, O1. split; [constructor|]. intros a Ha. by apply not_elem_of_nil in Ha.
  - destruct (extends_promises _ _ E2 _ _ Hp) as (c' & Hp' & H). exists c'. auto.
Qed.

End once.

(** Functions that return what they get, and compose nothing. *)
Definition echo (f : nat) (r : nat) (e : option exception) : M (@world nat) (answer nat) :=
  mret (Returns r).
Definition composes_none (f : nat) (r : nat) (e : option exception) : M (@world nat) (answer (option nat)) :=
  mret (Returns None).

(** A cancelled promise with a dependent one; then both are completed again. *)
Definition cancelled_requests : list (request (V := nat)) :=
  [New None; ThenApply 0 (Some SYNCHRONOUS_EXECUTOR) 0; Cancel 0].

Lemma promise_once_witness :
  promises (session 0%nat echo composes_none 9 cancelled_requests start) !! 1%nat =
    Some (mkPromise 0%nat (Some (Completion (Some Cancellation))) true [] None) /\
  NoDup (claimed (session 0%nat echo composes_none 9 [Complete 0 5%nat; Complete 1 6%nat]
    (session 0%nat echo composes_none 9 cancelled_requests start))) /\
  exists c', promises (session 0%nat echo composes_none 9 [Complete 0 5%nat; Complete 1 6%nat]
      (session 0%nat echo composes_none 9 cancelled_requests start)) !! 1%nat = Some c' /\
    mIsDone c' = true /\ mResult c' = 0%nat /\ mException c' = Some (Completion (Some Cancellation)).
Proof.
  split; [vm_compute; reflexivity|].
  apply (promise_once 0%nat echo composes_none) with
    (c := mkPromise 0%nat (Some (Completion (Some Cancellation))) true [] None).
  - intros f v e. apply growing_ret.
  - intros f v e. apply growing_ret.
  - vm_compute. reflexivity.
  - reflexivity.
Defined.

(** *** A completion that comes back to its promise *)

(** A function, [again], completes the promise 0; the other ones return what they get.  [n] bounds
    the nesting. *)
Fixpoint completes_source (n : nat) (f : nat) (r : nat) (e : option exception) :
    M (@world nat) (answer nat) :=
  match n with
  | O => diverge
  | S n =>
      if decide (f = 1%nat) then
        complete (tryRun 0%nat (completes_source n) composes_none n) 0 r;; mret (Returns r)
      else mret (Returns r)
  end.

(** Promise 1 follows promise 0, and has two dependent promises. *)
Definition coming_back (f : nat) : list (request (V := nat)) :=
  [New None; New None; Follow 1 (Some 0%nat);
   ThenApply 1 (Some SYNCHRONOUS_EXECUTOR) f; ThenApply 1 (Some SYNCHRONOUS_EXECUTOR) 2].

(** a function that completes a promise its supplier follows makes the
    supplier run its actions while it is running them: the inner iteration erases the node the
    outer iterator points at, which then dangles.  A function that does not come back gives no
    such error. *)
Theorem nested_completion :
  let w f := session 0%nat (completes_source 9) composes_none 9 (coming_back f) start in
  fst (complete (tryRun 0%nat (completes_source 9) composes_none 9) 1 7%nat (w 1%nat)) = Undef /\
  fst (complete (tryRun 0%nat (completes_source 9) composes_none 9) 1 7%nat (w 0%nat)) = Ok true.
Proof. split; vm_compute; reflexivity. Qed.

End Promise.
