(* ===== verification/PromiseCompletions.v ===== *)
(** * Completion of promises

    What [Promises] owes the application beyond safety: when a promise completes, each action that
    depends on it is run or handed to its executor, nested completions included, and no iterator
    dangles.  The nesting has to be well-founded: [rank] orders the promises so that an action's
    suppliers come before its consumer, and the function of an action completes nothing that comes
    before the action's consumer.  Without that an iterator may dangle: [nested_completion]. *)

From S2P Require Import Prelude Promises.
Open Scope Z_scope.

Module Completion.
Import Promise.

Definition suppliers (k : ActionKind) : list nat :=
  match k with
  | BiRelayAction s1 s2 _ => [s1; s2]
  | RelayAction s _ | AnyOfAction s _ | ErrorRelayAction s _ => [s]
  | FunctionAction s _ _ | BiFunctionAction s _ _ | CompositionFunctionAction s _ _
  | BiCompositionFunctionAction s _ _ | ConsumerAction s _ _ | BiConsumerAction s _ _
  | RunAction s _ _ | ErrorFunctionAction s _ _ | ErrorConsumerAction s _ _ => [s]
  end.

Definition consumer (k : ActionKind) : nat :=
  match k with
  | BiRelayAction _ _ p => p
  | RelayAction _ p | AnyOfAction _ p | ErrorRelayAction _ p => p
  | FunctionAction _ p _ | BiFunctionAction _ p _ | CompositionFunctionAction _ p _
  | BiCompositionFunctionAction _ p _ | ConsumerAction _ p _ | BiConsumerAction _ p _
  | RunAction _ p _ | ErrorFunctionAction _ p _ | ErrorConsumerAction _ p _ => p
  end.

Definition function (k : ActionKind) : option nat :=
  match k with
  | FunctionAction _ _ f | BiFunctionAction _ _ f | CompositionFunctionAction _ _ f
  | BiCompositionFunctionAction _ _ f | ConsumerAction _ _ f | BiConsumerAction _ _ f
  | RunAction _ _ f | ErrorFunctionAction _ _ f | ErrorConsumerAction _ _ f => Some f
  | _ => None
  end.

Definition composes (k : ActionKind) : bool :=
  match k with
  | CompositionFunctionAction _ _ _ | BiCompositionFunctionAction _ _ _ => true
  | _ => false
  end.

Section completion.
Context {V : Type} (null : V).
Notation world := (@world V).
Notation Promise := (@Promise V).
Implicit Types (w : world) (c : Promise).
Variable call : nat -> V -> option exception -> M world (answer V).
Variable compose : nat -> V -> option exception -> M world (answer (option nat)).

(** The order of the promises, below [top]; the rank of the promise a function works for. *)
Variable rank : nat -> nat.
Variable top : nat.
Variable level : nat -> nat.
Hypothesis rank_top : forall p, (rank p < top)%nat.

Definition done (w : world) (p : nat) : Prop :=
  exists c, promises w !! p = Some c /\ mIsDone c = true.
Definition undone (w : world) (p : nat) : Prop :=
  exists c, promises w !! p = Some c /\ mIsDone c = false.
(** [a] is in the list of actions of [p]. *)
Definition registered (w : world) (p a : nat) : Prop :=
  exists c, promises w !! p = Some c /\ a ∈ (mActions c).*2.

(** An action as it may be: an [ErrorRelayAction], which may leave its consumer alone, is not made
    by the requests of [Promises]. *)
Definition well_kinded (w : world) (x : Action) : Prop :=
  (forall s, s ∈ suppliers (kind x) -> (s < length (promises w))%nat /\ (rank s < rank (consumer (kind x)))%nat) /\
  (consumer (kind x) < length (promises w))%nat /\
  (forall f, function (kind x) = Some f -> level f = rank (consumer (kind x)) /\ mActionExecutor x <> None) /\
  (forall s p, kind x <> ErrorRelayAction s p).

(** A claimed action has done its work: its consumer is done, or will be when a promise is that its
    function returned; or it is with its executor. *)
Definition worked (w : world) (a : nat) (x : Action) : Prop :=
  a ∈ (pending w).*2 \/ done w (consumer (kind x)) \/
  (composes (kind x) = true /\
   exists b y u, actions w !! b = Some y /\ kind y = RelayAction u (consumer (kind x))).

(** The state between two steps: the promises of [B] are running their actions, the actions of
    [F] are being run, those of [E] are being added. *)
Record inv (B F E : list nat) (w : world) : Prop := {
  inv_kind : forall a x, actions w !! a = Some x -> well_kinded w x;
  inv_node : forall p c n a, promises w !! p = Some c -> (n, a) ∈ mActions c ->
    (n < nextNode w)%nat /\ exists x, actions w !! a = Some x /\ p ∈ suppliers (kind x);
  inv_nodup : forall p c, promises w !! p = Some c -> NoDup (mActions c).*1;
  inv_quiet : forall p c, promises w !! p = Some c -> mIsDone c = true -> p ∉ B -> mActions c = [];
  inv_wait : forall a x s, actions w !! a = Some x -> mClaim x = false -> a ∉ E ->
    s ∈ suppliers (kind x) -> undone w s -> registered w s a;
  inv_held : forall a x, actions w !! a = Some x -> mClaim x = false -> a ∉ F ->
    exists s, s ∈ suppliers (kind x) /\ (undone w s \/ (s ∈ B /\ registered w s a));
  inv_worked : forall a x, actions w !! a = Some x -> mClaim x = true -> a ∉ F -> worked w a x;
  inv_pending : forall a, a ∈ (pending w).*2 -> exists x, actions w !! a = Some x /\ mClaim x = true;
}.

(** What a step leaves alone: a promise of a rank below [r] that is done stays what it is, one that
    is not done is not done after it. *)
Definition frame (r : nat) (w w' : world) : Prop := forall p c,
  promises w !! p = Some c -> (rank p < r)%nat ->
  exists c', promises w' !! p = Some c' /\ (mIsDone c = true -> c' = c) /\
    (mIsDone c = false -> mIsDone c' = false).

Definition moves (r : nat) (w w' : world) : Prop := extends w w' /\ frame r w w'.

#[local] Instance moves_preorder r : PreOrder (moves r).
Proof.
  split.
  - intros w. split; [reflexivity|]. intros p c H _. by exists c.
  - intros w1 w2 w3 [E1 F1] [E2 F2]. split; [by etrans|]. intros p c Hp Hr.
    destruct (F1 p c Hp Hr) as (c2 & Hp2 & D2 & U2). destruct (F2 p c2 Hp2 Hr) as (c3 & Hp3 & D3 & U3).
    exists c3. split; [done|]. split; intros H.
    + rewrite <- (D2 H). apply D3. by rewrite (D2 H).
    + auto.
Qed.

Lemma moves_le r r' w w' : (r <= r')%nat -> moves r' w w' -> moves r w w'.
Proof. intros Hr [E Fr]. split; [done|]. intros p c Hp Hlt. apply Fr; [done|lia]. Qed.

Lemma moves_action r w w' a x :
  moves r w w' -> actions w !! a = Some x ->
  exists x', actions w' !! a = Some x' /\ kind x' = kind x /\ (mClaim x = true -> mClaim x' = true).
Proof. intros [E _] Ha. destruct (extends_actions _ _ E a x Ha) as (x' & ? & ? & _ & ?). by exists x'. Qed.

Lemma moves_promise r w w' p c :
  moves r w w' -> promises w !! p = Some c -> exists c', promises w' !! p = Some c'.
Proof. intros [E _] Hp. destruct (extends_promises _ _ E p c Hp) as (c' & ? & _). by exists c'. Qed.

Lemma moves_done r w w' p : moves r w w' -> done w p -> done w' p.
Proof.
  intros [E _] (c & Hp & Hd). destruct (extends_promises _ _ E p c Hp) as (c' & Hp' & H).
  exists c'. split; [done|]. by apply H.
Qed.

Lemma moves_length r w w' : moves r w w' -> (length (promises w) <= length (promises w'))%nat.
Proof.
  intros [E _]. destruct (length (promises w)) as [|n] eqn:El; [lia|].
  destruct (lookup_lt_is_Some_2 (promises w) n) as [c Hc]; [lia|].
  destruct (extends_promises _ _ E n c Hc) as (c' & Hc' & _). apply lookup_lt_Some in Hc'. lia.
Qed.

(** Weakening and strengthening of [inv]. *)
Lemma inv_weaken B F F' E E' w :
  (forall a, a ∈ F -> a ∈ F') -> (forall a, a ∈ E -> a ∈ E') -> inv B F E w -> inv B F' E' w.
Proof.
  intros HF HE []. split; try done.
  - intros b x s Hb Hc Hn. apply inv_wait0; auto.
  - intros b x Hb Hc Hn. apply inv_held0; auto.
  - intros b x Hb Hc Hn. apply inv_worked0; auto.
Qed.

Lemma inv_again B F E w a : inv B (a :: F) E w -> a ∈ F -> inv B F E w.
Proof.
  intros [] HF. assert (forall b, b ∉ F -> b ∉ a :: F) as H.
  { intros b Hb [->|]%elem_of_cons; done. }
  split; try done.
  - intros b x Hb Hx HbF. by apply inv_held0, H.
  - intros b x Hb Hx HbF. by apply inv_worked0, H.
Qed.

Lemma inv_less B F E w a x :
  inv B (a :: F) E w -> actions w !! a = Some x ->
  (mClaim x = false -> exists s, s ∈ suppliers (kind x) /\ (undone w s \/ (s ∈ B /\ registered w s a))) ->
  (mClaim x = true -> worked w a x) ->
  inv B F E w.
Proof.
  intros [] Ha Hu Hc. split; try done.
  - intros b y Hb Hy Hn. destruct (decide (b = a)) as [->|].
    + assert (y = x) as -> by congruence. auto.
    + apply inv_held0; [done|done|]. by apply not_elem_of_cons.
  - intros b y Hb Hy Hn. destruct (decide (b = a)) as [->|].
    + assert (y = x) as -> by congruence. auto.
    + apply inv_worked0; [done|done|]. by apply not_elem_of_cons.
Qed.

(** A promise that is done may be said to run its actions. *)
Lemma inv_busy B F E w p : inv B F E w -> inv (p :: B) F E w.
Proof.
  intros []. split; try done.
  - intros q c Hq Hd [_ Hn]%not_elem_of_cons. by eapply inv_quiet0.
  - intros a x Ha Hx Hn. destruct (inv_held0 a x Ha Hx Hn) as (s & Hs & H). exists s.
    split; [done|]. rewrite elem_of_cons. tauto.
Qed.

(** *** Writes to the state *)

(** A promise changes, in a way that keeps the promises and the lists of actions where they are. *)
Section insert.
Context (w : world) (p : nat) (c c' : Promise).
Context (Hp : promises w !! p = Some c).
Let w' := set_promises (<[p := c']> (promises w)) w.

Lemma insert_lookup q d :
  promises w' !! q = Some d <-> (q = p /\ d = c') \/ (q <> p /\ promises w !! q = Some d).
Proof.
  unfold w'. cbn. rewrite list_lookup_insert_Some. pose proof (lookup_lt_Some _ _ _ Hp).
  naive_solver.
Qed.

Lemma insert_kinded x : well_kinded w x -> well_kinded w' x.
Proof. unfold well_kinded, w'. cbn. by rewrite length_insert. Qed.

Lemma insert_registered q a :
  mActions c' = mActions c -> registered w q a -> registered w' q a.
Proof.
  intros E (d & Hd & Ha). destruct (decide (q = p)) as [->|].
  - exists c'. rewrite insert_lookup. split; [by left|]. rewrite E. congruence.
  - exists d. rewrite insert_lookup. split; [by right|done].
Qed.

Lemma insert_undone q : mIsDone c' = true -> undone w' q -> q <> p /\ undone w q.
Proof. intros E (d & [[-> ->]|[Hq Hd]]%insert_lookup & Hu); [congruence|]. split; [done|by exists d]. Qed.

Lemma insert_undone_ne q : q <> p -> undone w q -> undone w' q.
Proof. intros Hq (d & Hd & Hu). exists d. rewrite insert_lookup. split; [by right|done]. Qed.

Lemma insert_done q : (mIsDone c = true -> mIsDone c' = true) -> done w q -> done w' q.
Proof.
  intros E (d & Hd & Hq). destruct (decide (q = p)) as [->|].
  - exists c'. rewrite insert_lookup. split; [by left|]. apply E. congruence.
  - exists d. rewrite insert_lookup. split; [by right|done].
Qed.

Lemma insert_worked a x : (mIsDone c = true -> mIsDone c' = true) -> worked w a x -> worked w' a x.
Proof.
  intros E [H|[H|H]]; [by left|right; left; by apply insert_done|right; right; exact H].
Qed.

Lemma insert_moves r :
  (mIsDone c = true -> mIsDone c' = true /\ mResult c' = mResult c /\ mException c' = mException c) ->
  ((rank p < r)%nat -> (mIsDone c = true -> c' = c) /\ (mIsDone c = false -> mIsDone c' = false)) ->
  moves r w w'.
Proof.
  intros Hc Hr. split; [by apply (grows_insert w p c c')|].
  intros q d Hq Hlt. destruct (decide (q = p)) as [->|].
  - assert (d = c) as -> by congruence. exists c'. rewrite insert_lookup. split; [by left|auto].
  - exists d. rewrite insert_lookup. split; [by right|done].
Qed.
End insert.

(** A promise that is not done gets its outcome. *)
Lemma write_ok B F w p f c :
  inv B F [] w -> promises w !! p = Some c ->
  (forall c, mIsDone (f c) = true /\ mActions (f c) = mActions c) ->
  exists w', (c ← load p; if mIsDone c then mret tt else update p f) w = (Ok tt, w') /\
    inv (p :: B) F [] w' /\ done w' p /\ moves (rank p) w w' /\ actions w' = actions w /\
    length (promises w') = length (promises w).
Proof.
  intros Hi Hp Hf. rewrite (bind_loadp _ _ _ _ Hp). destruct (mIsDone c) eqn:Hd.
  { exists w. split; [done|split; [by apply inv_busy|split; [by exists c|done]]]. }
  rewrite (update_eq _ _ _ _ Hp). destruct (Hf c) as [Hfd Hfa].
  eexists. split; [reflexivity|]. split; [|split; [|split; [|split; [done|apply length_insert]]]].
  2: { exists (f c). rewrite (insert_lookup _ _ c) by done. split; [by left|done]. }
  2: { apply insert_moves with c; [done|congruence|lia]. }
  destruct Hi. split.
  - intros a x Ha. apply insert_kinded; [by eapply inv_kind0].
  - intros q d n a [[-> ->]|[Hq Hq']]%(insert_lookup w p c) Hn; [|by eauto|done].
    rewrite Hfa in Hn. by eauto.
  - intros q d [[-> ->]|[Hq Hq']]%(insert_lookup w p c); [|by eauto|done]. rewrite Hfa. by eauto.
  - intros q d [[-> ->]|[Hq Hq']]%(insert_lookup w p c) Hdd [Hn1 Hn2]%not_elem_of_cons; [done|by eauto|done].
  - intros a x s Ha Hx HE Hs [Hsp Hu]%(insert_undone w p c); [|done..].
    eapply insert_registered; [done|done|by eauto].
  - intros a x Ha Hx HF. destruct (inv_held0 a x Ha Hx HF) as (s & Hs & H). exists s.
    split; [done|]. destruct H as [Hu|[HB Hr]].
    + destruct (decide (s = p)) as [->|].
      * right. split; [by left|]. eapply insert_registered; [done|done|].
        apply (inv_wait0 a x p); [done|done|apply not_elem_of_nil|done|done].
      * left. by eapply insert_undone_ne.
    + right. split; [by right|]. by eapply insert_registered.
  - intros a x Ha Hx HF. eapply insert_worked; [done|congruence|by apply inv_worked0].
  - exact inv_pending0.
Qed.

(** The first action of a promise that runs its actions is taken off the list. *)
Lemma pop_ok B F w p c n a l :
  inv (p :: B) F [] w -> promises w !! p = Some c -> mIsDone c = true -> mActions c = (n, a) :: l ->
  exists w', update p (with_actions (filter (fun x => x.1 <> n) (mActions c))) w = (Ok tt, w') /\
    inv (p :: B) (a :: F) [] w' /\ promises w' !! p = Some (with_actions l c) /\
    moves (rank p) w w' /\ actions w' = actions w /\
    (forall x, actions w !! a = Some x -> mClaim x = true -> a ∈ F \/ worked w' a x).
Proof.
  intros Hi Hp Hd Hl. rewrite (update_eq _ _ _ _ Hp).
  assert (filter (fun x => x.1 <> n) (mActions c) = l) as ->.
  { pose proof (inv_nodup _ _ _ _ Hi p c Hp) as Hn. rewrite Hl in Hn |- *.
    rewrite filter_cons_False by (cbn; tauto). apply filter_all.
    apply NoDup_cons in Hn as [Hn _]. apply Forall_forall. intros [m b] Hm E. cbn in E. subst m.
    apply Hn, list_elem_of_fmap. by exists (n, b). }
  eexists. split; [reflexivity|].
  assert (forall q b, b <> a -> registered w q b ->
    registered (set_promises (<[p := with_actions l c]> (promises w)) w) q b) as Hreg.
  { intros q b Hb (d & Hq & Hbd). destruct (decide (q = p)) as [->|].
    - exists (with_actions l c). rewrite (insert_lookup _ _ c) by done. split; [by left|].
      assert (d = c) as -> by congruence. rewrite Hl in Hbd. cbn in Hbd |- *.
      by apply elem_of_cons in Hbd as [?|?].
    - exists d. rewrite (insert_lookup _ _ c) by done. split; [by right|done]. }
  split; [|split; [|split; [|split; [done|]]]].
  2: { rewrite (insert_lookup _ _ c) by done. by left. }
  2: { apply insert_moves with c; [done|done|lia]. }
  2: { intros x Hx Hc. destruct (decide (a ∈ F)) as [|HF]; [by left|right].
       eapply insert_worked; [done|done|by apply (inv_worked _ _ _ _ Hi)]. }
  destruct Hi. split.
  - intros b x Hb. apply insert_kinded; [by eapply inv_kind0].
  - intros q d m b [[-> ->]|[Hq Hq']]%(insert_lookup w p c) Hn; [|by eauto|done].
    eapply inv_node0; [exact Hp|]. rewrite Hl. by right.
  - intros q d [[-> ->]|[Hq Hq']]%(insert_lookup w p c); [|by eauto|done].
    pose proof (inv_nodup0 p c Hp) as Hn. rewrite Hl in Hn. by apply NoDup_cons in Hn as [_ Hn].
  - intros q d [[-> ->]|[Hq Hq']]%(insert_lookup w p c) Hdd Hn; [|by eauto|done].
    exfalso. apply Hn. by left.
  - intros b x s Hb Hx HE Hs Hu. assert (s <> p /\ undone w s) as [Hsp Hu'].
    { destruct Hu as (d & [[-> ->]|[Hq Hq']]%(insert_lookup w p c) & Hu); [|split; [done|by exists d]|done].
      cbn in Hu. congruence. }
    destruct (inv_wait0 b x s Hb Hx HE Hs Hu') as (d & Hq & Hbd). exists d.
    rewrite (insert_lookup _ _ c) by done. split; [by right|done].
  - intros b x Hb Hx [Hba HF]%not_elem_of_cons. destruct (inv_held0 b x Hb Hx HF) as (s & Hs & H).
    exists s. split; [done|]. destruct H as [Hu|[HB Hr]]; [left|right; auto].
    eapply insert_undone_ne; [done| |done]. intros ->. destruct Hu as (d & Hq & Hu). congruence.
  - intros b x Hb Hx [Hba HF]%not_elem_of_cons. eapply insert_worked; [done|done|by apply inv_worked0].
  - exact inv_pending0.
Qed.

(** When its list is empty a promise is at rest. *)
Lemma rest_ok B F w p c :
  inv (p :: B) F [] w -> promises w !! p = Some c -> mIsDone c = true -> mActions c = [] ->
  inv B F [] w.
Proof.
  intros [] Hp Hd Hl. split; try done.
  - intros q d Hq Hdd HB. destruct (decide (q = p)) as [->|]; [congruence|].
    apply (inv_quiet0 q d Hq Hdd). by apply not_elem_of_cons.
  - intros a x Ha Hx HF. destruct (inv_held0 a x Ha Hx HF) as (s & Hs & [Hu|[HB Hr]]); exists s;
      (split; [done|]); [by left|]. apply elem_of_cons in HB as [->|HB]; [|by right].
    destruct Hr as (d & Hq & Hr). assert (d = c) as -> by congruence. rewrite Hl in Hr.
    by apply not_elem_of_nil in Hr.
Qed.

(** An action that is being run is claimed. *)
Lemma claim_ok B F w a x :
  inv B (a :: F) [] w -> actions w !! a = Some x -> mClaim x = false ->
  exists w' : world, claim a w = (Ok true, w') /\ inv B (a :: F) [] w' /\ (forall r, moves r w w') /\
    actions w' !! a = Some (mkAction (kind x) (mActionExecutor x) true) /\ promises w' = promises w /\
    pending w' = pending w.
Proof.
  intros Hi Ha Hx. unfold claim, mbind, M_bind, loadAction. rewrite Ha, Hx. cbn.
  eexists. split; [reflexivity|].
  pose proof (lookup_lt_Some _ _ _ Ha) as Hlt.
  assert (forall b y, <[a := mkAction (kind x) (mActionExecutor x) true]> (actions w) !! b = Some y ->
    exists y', actions w !! b = Some y' /\ kind y = kind y' /\ mActionExecutor y = mActionExecutor y' /\
      (b <> a -> y = y') /\ (mClaim y = false -> b <> a)) as Hlook.
  { intros b y [(-> & <- & _)|(Hb & Hy)]%list_lookup_insert_Some.
    - exists x. naive_solver.
    - exists y. naive_solver. }
  assert (forall b y, actions w !! b = Some y -> exists y',
    <[a := mkAction (kind x) (mActionExecutor x) true]> (actions w) !! b = Some y' /\ kind y' = kind y /\
    mActionExecutor y' = mActionExecutor y /\ (mClaim y = true -> mClaim y' = true)) as Hkeep.
  { intros b y Hb. destruct (decide (b = a)) as [->|].
    - rewrite list_lookup_insert_eq by done. eexists. split; [done|]. cbn. naive_solver.
    - rewrite list_lookup_insert_ne by done. by exists y. }
  split; [|split; [|split; [by apply list_lookup_insert_eq|done]]].
  - destruct Hi. split; cbn.
    + intros b y (y' & Hb & Ek & Ee & _)%Hlook. pose proof (inv_kind0 b y' Hb) as H.
      unfold well_kinded in *. cbn. by rewrite Ek, Ee.
    + intros p c n b Hp Hn. destruct (inv_node0 p c n b Hp Hn) as (Hlt' & y & Hb & Hs).
      split; [done|]. destruct (Hkeep b y Hb) as (y' & Hb' & Ek & _). exists y'. by rewrite Ek.
    + done.
    + done.
    + intros b y s (y' & Hb & Ek & _ & Ey & Hne)%Hlook Hy _ Hs Hu. specialize (Hne Hy).
      rewrite (Ey Hne) in *. by eapply inv_wait0; [done|done|apply not_elem_of_nil|..].
    + intros b y (y' & Hb & Ek & _ & Ey & Hne)%Hlook Hy HF. specialize (Hne Hy).
      rewrite (Ey Hne) in *. by apply inv_held0.
    + intros b y (y' & Hb & Ek & _ & Ey & _)%Hlook Hy HF.
      pose proof HF as [Hba _]%not_elem_of_cons. rewrite (Ey Hba) in *.
      destruct (inv_worked0 b y' Hb Hy HF) as [H|[H|(Hc & b' & z & u & Hz & Hk)]]; [by left|by right; left|].
      right; right. split; [done|]. destruct (Hkeep b' z Hz) as (z' & Hz' & Ek' & _).
      exists b', z', u. split; [done|congruence].
    + intros b (y & Hb & Hy)%inv_pending0. destruct (Hkeep b y Hb) as (y' & Hb' & _ & _ & Hc).
      exists y'. auto.
  - intros r. split.
    + pose proof (growing_claim a w) as [He _]. unfold exec, claim, mbind, M_bind, loadAction in He.
      by rewrite Ha, Hx in He.
    + intros p c Hp _. exists c. done.
Qed.

Lemma claim_again w a x :
  actions w !! a = Some x -> mClaim x = true -> claim a w = (Ok false, w).
Proof. intros Ha Hx. unfold claim, mbind, M_bind, loadAction. by rewrite Ha, Hx. Qed.

(** *** New actions *)

Lemma newAction_ok B F E w k ex :
  inv B F E w -> well_kinded w (mkAction k ex false) ->
  exists w', newAction k ex w = (Ok (length (actions w)), w') /\
    inv B (length (actions w) :: F) (length (actions w) :: E) w' /\ (forall r, moves r w w') /\
    actions w' !! length (actions w) = Some (mkAction k ex false) /\ promises w' = promises w.
Proof.
  intros Hi Hk. eexists. split; [reflexivity|].
  assert (forall b y, (actions w ++ [mkAction k ex false]) !! b = Some y ->
    (b = length (actions w) /\ y = mkAction k ex false) \/ actions w !! b = Some y) as Hlook.
  { intros b y [Hb|[Hb Hy]]%lookup_app_Some; [by right|left].
    apply list_lookup_singleton_Some in Hy as [Hy <-]. split; [lia|done]. }
  assert (forall b y, actions w !! b = Some y -> (actions w ++ [mkAction k ex false]) !! b = Some y) as Hkeep
    by (intros b y; apply lookup_app_l_Some).
  split; [|split; [|split; [by apply list_lookup_middle|done]]].
  - destruct Hi. split; cbn.
    + intros b y [[-> ->]|Hb]%Hlook; [exact Hk|exact (inv_kind0 b y Hb)].
    + intros p c n b Hp Hn. destruct (inv_node0 p c n b Hp Hn) as (? & y & Hb & Hs).
      split; [done|]. exists y. auto.
    + done.
    + done.
    + intros b y s [[-> ->]|Hb]%Hlook Hy [HE1 HE]%not_elem_of_cons; [done|]. by apply inv_wait0.
    + intros b y [[-> ->]|Hb]%Hlook Hy [HF1 HF]%not_elem_of_cons; [done|]. by apply inv_held0.
    + intros b y [[-> ->]|Hb]%Hlook Hy [HF1 HF]%not_elem_of_cons; [done|].
      destruct (inv_worked0 b y Hb Hy HF) as [H|[H|(Hc & b' & z & u & Hz & Hk')]];
        [by left|by right; left|]. right; right. split; [done|]. exists b', z, u. auto.
    + intros b (y & Hb & Hy)%inv_pending0. exists y. auto.
  - intros r. split; [apply growing_newAction|]. intros p c Hp _. by exists c.
Qed.

(** Adding an action to a promise that is not done. *)
Lemma push_ok B F E w p a x :
  inv B F E w -> actions w !! a = Some x -> p ∈ suppliers (kind x) -> undone w p ->
  exists w', push p a w = (Ok tt, w') /\ inv B F E w' /\ (forall r, moves r w w') /\
    actions w' = actions w /\ registered w' p a /\ undone w' p /\
    (forall q b, registered w q b -> registered w' q b) /\ (forall q, undone w' q <-> undone w q) /\
    (forall r, r <> p -> promises w' !! r = promises w !! r).
Proof.
  intros Hi Ha Hs (c & Hp & Hd). unfold push. rewrite bind_gets, bind_modify.
  set (w1 := mkWorld _ _ _ _ _). assert (promises w1 !! p = Some c) as Hp1 by exact Hp.
  rewrite (update_eq _ _ _ _ Hp1). eexists. split; [reflexivity|].
  set (c' := with_actions (mActions c ++ [(nextNode w, a)]) c).
  assert (forall q, undone (set_promises (<[p := c']> (promises w1)) w1) q <-> undone w q) as Hun.
  { intros q. split.
    - intros (d & [[-> ->]|[Hq Hd']]%(insert_lookup w1 p c) & Hu); [by exists c|by exists d|done].
    - intros (d & Hq & Hu). destruct (decide (q = p)) as [->|].
      + exists c'. rewrite (insert_lookup w1 p c) by done. split; [by left|done].
      + exists d. rewrite (insert_lookup w1 p c) by done. split; [by right|done]. }
  assert (forall q b, registered w q b ->
    registered (set_promises (<[p := c']> (promises w1)) w1) q b) as Hreg.
  { intros q b (d & Hq & Hb). destruct (decide (q = p)) as [->|].
    - exists c'. rewrite (insert_lookup w1 p c) by done. split; [by left|].
      assert (d = c) as -> by congruence. cbn. rewrite fmap_app. apply elem_of_app. by left.
    - exists d. rewrite (insert_lookup w1 p c) by done. split; [by right|done]. }
  split; [|split; [|split; [done|split; [|split; [|split; [done|split; [done|]]]]]]].
  5: { intros r Hr. cbn. by rewrite list_lookup_insert_ne. }
  2: { intros r. transitivity w1.
       - split; [apply (growing_modify (fun w => mkWorld (promises w) (actions w) (pending w)
           (S (nextNode w)) (claimed w)) ltac:(done) w)|]. intros q d Hq _. by exists d.
       - apply insert_moves with c; [done|done|]. intros _. split; [congruence|done]. }
  2: { exists c'. rewrite (insert_lookup w1 p c) by done. split; [by left|]. cbn. rewrite fmap_app.
       apply elem_of_app. right. by left. }
  2: { rewrite Hun. by exists c. }
  destruct Hi. split.
  - intros b y Hb. apply (insert_kinded w1), (inv_kind0 b y Hb).
  - intros q d n b [[-> ->]|[Hq Hq']]%(insert_lookup w1 p c) Hn; [| |done].
    + cbn in Hn. apply elem_of_app in Hn as [Hn| [= -> ->]%list_elem_of_singleton].
      * destruct (inv_node0 p c n b Hp Hn) as [Hlt H]. split; [cbn; lia|done].
      * split; [cbn; lia|]. by exists x.
    + destruct (inv_node0 q d n b Hq' Hn) as [Hlt H]. split; [cbn; lia|done].
  - intros q d [[-> ->]|[Hq Hq']]%(insert_lookup w1 p c); [|by eauto|done]. cbn.
    rewrite fmap_app. apply NoDup_app. split; [by eauto|split; [|apply NoDup_singleton]].
    intros m ([m' b] & Em & Hb)%list_elem_of_fmap Hm%list_elem_of_singleton.
    destruct (inv_node0 p c m' b Hp Hb) as [Hlt _]. cbn in *. lia.
  - intros q d [[-> ->]|[Hq Hq']]%(insert_lookup w1 p c) Hdd HB; [|by eauto|done]. cbn in Hdd. congruence.
  - intros b y s Hb Hy HE Hsy Hu%Hun. apply Hreg. by eapply inv_wait0.
  - intros b y Hb Hy HF. destruct (inv_held0 b y Hb Hy HF) as (s & Hsy & [Hu|[HB Hr]]); exists s;
      (split; [done|]); [left; by apply Hun|right; auto].
  - intros b y Hb Hy HF. eapply (insert_worked w1); [done|done|]. exact (inv_worked0 b y Hb Hy HF).
  - exact inv_pending0.
Qed.

(** The new action is where it has to be. *)
Lemma added_wait B F E w a x :
  inv B F (a :: E) w -> actions w !! a = Some x ->
  (forall s, s ∈ suppliers (kind x) -> undone w s -> registered w s a) -> inv B F E w.
Proof.
  intros [] Ha H. split; try done. intros b y s Hb Hy HE Hs Hu.
  destruct (decide (b = a)) as [->|Hba].
  - assert (y = x) as -> by congruence. auto.
  - apply (inv_wait0 b y); [done|done|by apply not_elem_of_cons|done|done].
Qed.

(** [addAction] on a promise that is not done. *)
Lemma addAction_push tr B F E w p a x :
  inv B F E w -> actions w !! a = Some x -> p ∈ suppliers (kind x) -> undone w p ->
  exists w', addAction tr p a w = (Ok tt, w') /\ inv B F E w' /\ (forall r, moves r w w') /\
    actions w' = actions w /\ registered w' p a /\
    (forall q b, registered w q b -> registered w' q b) /\ (forall q, undone w' q <-> undone w q) /\
    (forall r, r <> p -> promises w' !! r = promises w !! r).
Proof.
  intros Hi Ha Hs Hu.
  destruct (push_ok B F E w p a x Hi Ha Hs Hu) as (w1 & E1 & Hi1 & Hm1 & Ha1 & Hr1 & Hu1 & Hreg & Hun & Hfr).
  unfold addAction. mstep E1. destruct Hu1 as (c & Hp & Hd).
  assert (isDone p w1 = (Ok false, w1)) as Ed by (unfold isDone; rewrite (bind_loadp _ _ _ _ Hp), Hd; done).
  mstep Ed. by exists w1.
Qed.

(** The same for an action with this one supplier. *)
Lemma addAction_ok tr B F E w p a x :
  inv B (a :: F) (a :: E) w -> actions w !! a = Some x -> mClaim x = false -> suppliers (kind x) = [p] ->
  undone w p ->
  exists w', addAction tr p a w = (Ok tt, w') /\ inv B F E w' /\ (forall r, moves r w w') /\
    actions w' = actions w /\ (forall q, undone w' q <-> undone w q).
Proof.
  intros Hi Ha Hx Hs Hu.
  destruct (addAction_push tr B (a :: F) (a :: E) w p a x Hi Ha) as (w1 & E1 & Hi1 & Hm1 & Ha1 & Hr1 & _ & Hun & _);
    [rewrite Hs; by left|done|].
  exists w1. split; [done|split; [|done]]. rewrite <- Ha1 in Ha.
  eapply inv_less; [|exact Ha| |congruence].
  - eapply added_wait; [exact Hi1|exact Ha|]. rewrite Hs. by intros s ->%list_elem_of_singleton.
  - intros _. exists p. rewrite Hs. split; [by left|]. left. by apply Hun.
Qed.

(** The action of a supplier that is done is run at once. *)
Lemma added_done B F w a x p :
  inv B F [a] w -> actions w !! a = Some x -> suppliers (kind x) = [p] -> done w p -> inv B F [] w.
Proof.
  intros Hi Ha Hs (c & Hp & Hd). eapply added_wait; [exact Hi|exact Ha|]. rewrite Hs.
  intros s ->%list_elem_of_singleton (d & Hp' & Hu). congruence.
Qed.

(** *** Running actions *)

(** How deep the completions below an action can nest. *)
Definition weight (k : ActionKind) : nat :=
  2 * (top - rank (consumer k)) + (if composes k then 1 else 0).

(** A way to run actions that is good for those of a weight below [n]. *)
Definition runs_well (n : nat) (tr : nat -> M world unit) : Prop := forall a x B F w,
  inv B (a :: F) [] w -> actions w !! a = Some x -> (weight (kind x) < n)%nat ->
  (mClaim x = true -> a ∈ F \/ worked w a x) ->
  (forall b, b ∈ B -> (rank b < rank (consumer (kind x)))%nat) ->
  exists w', tr a w = (Ok tt, w') /\ inv B F [] w' /\ moves (rank (consumer (kind x))) w w'.

(** What the functions of the application owe: a function that works for a promise completes none
    of a lower rank, and the promise another one returns has a lower rank. *)
Hypothesis call_ok : forall f v e B F w, inv B F [] w -> (forall b, b ∈ B -> (rank b < level f)%nat) ->
  exists x w', call f v e w = (Ok x, w') /\ inv B F [] w' /\ moves (level f) w w'.
Hypothesis compose_ok : forall f v e B F w, inv B F [] w -> (forall b, b ∈ B -> (rank b < level f)%nat) ->
  exists x w', compose f v e w = (Ok x, w') /\ inv B F [] w' /\ moves (level f) w w' /\
    forall u, x = Returns (Some u) -> (u < length (promises w'))%nat /\ (rank u < level f)%nat.

Section knot.
Context (n : nat) (tr : nat -> M world unit) (Htr : runs_well n tr).

Lemma runLoop_ok B F p l : forall fuel w c,
  inv (p :: B) F [] w -> promises w !! p = Some c -> mIsDone c = true -> mActions c = l ->
  (length l <= fuel)%nat -> (forall b, b ∈ B -> (rank b < rank p)%nat) -> (2 * (top - rank p) <= n)%nat ->
  exists w', runLoop tr fuel p (fst <$> head l) w = (Ok tt, w') /\ inv B F [] w' /\ moves (rank p) w w'.
Proof.
  induction l as [|[m a] l IH]; intros fuel w c Hi Hp Hd Hl Hf HB Hn.
  - exists w. split; [by destruct fuel|]. split; [by eapply rest_ok|done].
  - destruct fuel as [|fuel]; [cbn in Hf; lia|]. cbn [head fmap option_fmap option_map fst runLoop].
    rewrite (bind_loadp _ _ _ _ Hp).
    assert (at_node m (mActions c) = Some (a, fst <$> head l)) as ->.
    { rewrite Hl. cbn. by rewrite decide_True. }
    destruct (pop_ok B F w p c m a l Hi Hp Hd Hl) as (w1 & E1 & Hi1 & Hp1 & Hm1 & Ha1 & Hw1). mstep E1.
    destruct (inv_node _ _ _ _ Hi p c m a Hp) as (_ & x & Hx & Hs); [rewrite Hl; by left|].
    destruct (inv_kind _ _ _ _ Hi a x Hx) as (Hk & Hc & _). destruct (Hk p Hs) as [_ Hr].
    pose proof (rank_top (consumer (kind x))) as Ht.
    destruct (Htr a x (p :: B) F w1 Hi1) as (w2 & E2 & Hi2 & Hm2).
    + by rewrite Ha1.
    + unfold weight. case_match; lia.
    + by apply Hw1.
    + intros b [->|Hb]%elem_of_cons; [done|]. specialize (HB b Hb). lia.
    + mstep E2. destruct Hm2 as [He2 Hf2]. destruct (Hf2 p _ Hp1 Hr) as (c2 & Hp2 & Hsame & _).
      rewrite (Hsame Hd) in Hp2.
      destruct (IH fuel w2 (with_actions l c) Hi2 Hp2 Hd eq_refl) as (w3 & E3 & Hi3 & Hm3);
        [cbn in Hf; lia|done|done|].
      exists w3. split; [exact E3|split; [done|]]. etrans; [exact Hm1|]. etrans; [|exact Hm3].
      apply moves_le with (rank (consumer (kind x))); [lia|]. by split.
Qed.

Lemma onComplete_ok B F w p :
  inv (p :: B) F [] w -> done w p ->
  (forall b, b ∈ B -> (rank b < rank p)%nat) -> (2 * (top - rank p) <= n)%nat ->
  exists w', onComplete tr p w = (Ok tt, w') /\ inv B F [] w' /\ moves (rank p) w w'.
Proof.
  intros Hi (c & Hp & Hd) HB Hn. unfold onComplete, runActions. rewrite (bind_loadp _ _ _ _ Hp).
  by eapply runLoop_ok.
Qed.

(** The end of most actions: the outcome, then the actions of the consumer. *)
Lemma finish_ok B F w p (m : M world unit) f :
  m = (c ← load p; if mIsDone c then mret tt else update p f) ->
  (forall c, mIsDone (f c) = true /\ mActions (f c) = mActions c) ->
  inv B F [] w -> (p < length (promises w))%nat ->
  (forall b, b ∈ B -> (rank b < rank p)%nat) -> (2 * (top - rank p) <= n)%nat ->
  exists w', (m;; onComplete tr p) w = (Ok tt, w') /\ inv B F [] w' /\ done w' p /\ moves (rank p) w w'.
Proof.
  intros -> Hf Hi Hp HB Hn. apply lookup_lt_is_Some in Hp as [c Hp].
  destruct (write_ok B F w p f c Hi Hp Hf) as (w1 & E1 & Hi1 & Hd1 & Hm1 & _). mstep E1.
  destruct (onComplete_ok B F w1 p Hi1 Hd1 HB Hn) as (w2 & E2 & Hi2 & Hm2).
  exists w2. split; [done|split; [done|split; [by eapply moves_done|by etrans]]].
Qed.

(** *** The classes of actions

    The body of an action of consumer [p], as a call with a postcondition [Q]: from a state in
    which the promises of [B] run their actions and those of [ss], the suppliers, exist, the call
    ends in one with [Q] and leaves the promises of a lower rank alone. *)
Section bodies.
Context (B F : list nat) (p : nat) (ss : list nat).
Definition ready (w : world) : Prop :=
  inv B F [] w /\ (p < length (promises w))%nat /\ Forall (fun s => (s < length (promises w))%nat) ss.

Definition reaches (Q : world -> Prop) (m : M world unit) : Prop :=
  forall w, ready w -> exists w', m w = (Ok tt, w') /\ Q w' /\ moves (rank p) w w'.

(** The consumer has its outcome; the body is over. *)
Definition settled (w : world) : Prop := inv (p :: B) F [] w /\ done w p.
Definition finished (follows : bool) (w : world) : Prop := inv B F [] w /\
  (done w p \/ (follows = true /\ exists b y u, actions w !! b = Some y /\ kind y = RelayAction u p)).

Lemma reaches_assoc {A C} Q (m : M world A) (f : A -> M world C) (g : C -> M world unit) :
  reaches Q (m ≫= fun a => f a ≫= g) -> reaches Q ((m ≫= f) ≫= g).
Proof. intros H w Hw. rewrite bind_assoc. by apply H. Qed.

Lemma reaches_ret {A} Q (a : A) (k : A -> M world unit) : reaches Q (k a) -> reaches Q (mret a ≫= k).
Proof. intros H w Hw. by apply H. Qed.

Lemma reaches_load {A} Q s (h : Promise -> A) (k : A -> M world unit) :
  s ∈ ss -> (forall a, reaches Q (k a)) -> reaches Q ((c ← load s; mret (h c)) ≫= k).
Proof.
  intros Hs H w Hw. pose proof Hw as (_ & _ & Hss). rewrite Forall_forall in Hss.
  destruct (lookup_lt_is_Some_2 _ _ (Hss s Hs)) as [c Hc].
  rewrite bind_assoc, (bind_loadp _ _ _ _ Hc). by apply H.
Qed.

Lemma reaches_getException Q s (k : option exception -> M world unit) :
  s ∈ ss -> (forall e, reaches Q (k e)) -> reaches Q (getException s ≫= k).
Proof. apply reaches_load. Qed.

Lemma reaches_getResult Q s (k : V -> M world unit) :
  s ∈ ss -> (forall r, reaches Q (k r)) -> reaches Q (getResult s ≫= k).
Proof. apply reaches_load. Qed.

Lemma ready_moves w w' : inv B F [] w' -> moves (rank p) w w' -> ready w -> ready w'.
Proof.
  intros Hi Hm (_ & Hp & Hs). pose proof (moves_length _ _ _ Hm). split; [done|split; [lia|]].
  eapply Forall_impl; [exact Hs|]. cbn. lia.
Qed.

Context (HB : forall b, b ∈ B -> (rank b < rank p)%nat).

Lemma reaches_call Q f v e (k : answer V -> M world unit) :
  level f = rank p -> (forall x, reaches Q (k x)) -> reaches Q (call f v e ≫= k).
Proof.
  intros Hl H w Hw. destruct (call_ok f v e B F w (proj1 Hw)) as (x & w1 & E & Hi & Hm); [by rewrite Hl|].
  rewrite Hl in Hm. rewrite (bind_Ok _ _ _ _ _ E).
  destruct (H x w1 (ready_moves _ _ Hi Hm Hw)) as (w2 & E2 & HQ & Hm2).
  exists w2. split; [done|split; [done|by etrans]].
Qed.

Lemma reaches_write f :
  (forall c, mIsDone (f c) = true /\ mActions (f c) = mActions c) ->
  reaches settled (c ← load p; if mIsDone c then mret tt else update p f).
Proof.
  intros Hf w (Hi & Hp & _). apply lookup_lt_is_Some in Hp as [c Hc].
  destruct (write_ok B F w p f c Hi Hc Hf) as (w' & E & Hi' & Hd & Hm & _). by exists w'.
Qed.

Lemma reaches_setResult v : reaches settled (setResult p v).
Proof. by apply reaches_write. Qed.

Lemma reaches_setException e : reaches settled (setException p e).
Proof. by apply reaches_write. Qed.

Lemma reaches_settle x : reaches settled (settle p x).
Proof. destruct x; [apply reaches_setResult|apply reaches_setException]. Qed.

Lemma reaches_pass s x : s ∈ ss -> reaches settled (pass s p x).
Proof.
  intros Hs. unfold pass. case_match; [|apply reaches_setException].
  apply reaches_getResult; [done|]. apply reaches_setResult.
Qed.

Lemma reaches_pass_exception s x : s ∈ ss -> reaches settled (pass_exception s p x).
Proof.
  intros Hs. unfold pass_exception. case_match; [|apply reaches_setException].
  apply reaches_getException; [done|]. apply reaches_setException.
Qed.

(** The end of a body: the actions of the consumer. *)
Lemma reaches_onComplete m follows :
  (2 * (top - rank p) <= n)%nat -> reaches settled m -> reaches (finished follows) (m;; onComplete tr p).
Proof.
  intros Hn H w Hw. destruct (H w Hw) as (w1 & E1 & [Hi1 Hd1] & Hm1). mstep E1.
  destruct (onComplete_ok B F w1 p Hi1 Hd1 HB Hn) as (w2 & E2 & Hi2 & Hm2).
  exists w2. split; [done|]. split; [|by etrans]. split; [done|left; by eapply moves_done].
Qed.
End bodies.

(** A new action of a promise that is done is run at once, that of one that is not done waits in
    its list. *)
Lemma attach_ok B F w s a x {A} (k : M world A) :
  inv B (a :: F) [a] w -> actions w !! a = Some x -> mClaim x = false -> suppliers (kind x) = [s] ->
  (weight (kind x) < n)%nat -> (forall b, b ∈ B -> (rank b < rank (consumer (kind x)))%nat) ->
  exists w', (d ← isDone s; (if d : bool then tr a else addAction tr s a);; k) w = k w' /\
    inv B F [] w' /\ moves (rank (consumer (kind x))) w w'.
Proof.
  intros Hi Ha Hx Hs Hwt HB. destruct (inv_kind _ _ _ _ Hi a x Ha) as (Hk & _).
  destruct (Hk s) as [Hlt _]; [rewrite Hs; by left|]. apply lookup_lt_is_Some in Hlt as [c Hc].
  assert (isDone s w = (Ok (mIsDone c), w)) as Ed by (unfold isDone; rewrite (bind_loadp _ _ _ _ Hc); done).
  mstep Ed. destruct (mIsDone c) eqn:Hd.
  - destruct (Htr a x B F w) as (w' & E & Hi' & Hm); [|done|done|congruence|done|].
    { eapply added_done; [exact Hi|exact Ha|exact Hs|by exists c]. }
    rewrite (bind_Ok _ _ _ _ _ E). by exists w'.
  - destruct (addAction_ok tr B F [] w s a x Hi Ha Hx Hs) as (w' & E & Hi' & Hm & _); [by exists c|].
    rewrite (bind_Ok _ _ _ _ _ E). exists w'. split; [done|split; [done|apply Hm]].
Qed.

Lemma completeWith_ok B F w p s :
  inv B F [] w -> (p < length (promises w))%nat -> (s < length (promises w))%nat ->
  (rank s < rank p)%nat -> (forall b, b ∈ B -> (rank b < rank p)%nat) -> (2 * (top - rank p) < n)%nat ->
  exists w', completeWith tr p (Some s) w = (Ok true, w') /\ inv B F [] w' /\ moves (rank p) w w' /\
    exists b y, actions w' !! b = Some y /\ kind y = RelayAction s p.
Proof.
  intros Hi Hp Hs Hr HB Hn. cbn [completeWith].
  destruct (newAction_ok B F [] w (RelayAction s p) None Hi) as (w1 & E1 & Hi1 & Hm1 & Ha1 & Hp1).
  { split; [|split; [done|split; [done|done]]]. intros q ->%list_elem_of_singleton. done. }
  mstep E1. set (a := length (actions w)) in *.
  destruct (attach_ok B F w1 s a _ (mret true) Hi1 Ha1) as (w2 & E2 & Hi2 & Hm2);
    [done|done|cbn; lia|done|].
  cbn in Hm2. rewrite E2. exists w2. split; [done|split; [done|split]].
  - etrans; [apply Hm1|exact Hm2].
  - destruct (moves_action _ _ _ a _ Hm2 Ha1) as (y & Hy & Ey & _). by exists a, y.
Qed.

Lemma reaches_follow B F p ss x :
  (forall b, b ∈ B -> (rank b < rank p)%nat) -> (2 * (top - rank p) < n)%nat ->
  (forall u, x = Returns (Some u) -> (rank u < rank p)%nat) ->
  forall w, ready B F p ss w -> (forall u, x = Returns (Some u) -> (u < length (promises w))%nat) ->
  exists w', follow tr p x w = (Ok tt, w') /\ finished B F p true w' /\ moves (rank p) w w'.
Proof.
  intros HB Hn Hx w Hw Hu. assert (forall e, reaches B F p ss (finished B F p true)
    (setException p e;; onComplete tr p)) as He.
  { intros e. apply reaches_onComplete; [done|lia|]. apply reaches_setException. }
  unfold follow. destruct x as [[u|]|e| |]; cbn [caught]; try by apply He.
  destruct Hw as (Hi & Hp & _).
  destruct (completeWith_ok B F w p u Hi Hp (Hu u eq_refl) (Hx u eq_refl) HB Hn)
    as (w' & E & Hi' & Hm & b & y & Hb & Ey).
  mstep E. exists w'. split; [done|]. split; [|done]. split; [done|right]. split; [done|]. by exists b, y, u.
Qed.

(** [compose] and what follows it. *)
Lemma reaches_compose B F p ss f v e :
  (forall b, b ∈ B -> (rank b < rank p)%nat) -> (2 * (top - rank p) < n)%nat -> level f = rank p ->
  reaches B F p ss (finished B F p true) (compose f v e ≫= follow tr p).
Proof.
  intros HB Hn Hl w Hw.
  destruct (compose_ok f v e B F w (proj1 Hw)) as (x & w1 & E & Hi & Hm & Hu); [by rewrite Hl|].
  rewrite Hl in Hm, Hu. rewrite (bind_Ok _ _ _ _ _ E).
  destruct (reaches_follow B F p ss x HB Hn) with (w := w1) as (w2 & E2 & HQ & Hm2).
  - intros u Hx. by destruct (Hu u Hx).
  - by apply ready_moves with w.
  - intros u Hx. by destruct (Hu u Hx).
  - exists w2. split; [done|split; [done|by etrans]].
Qed.

(** Steps through a body. *)
Ltac settles :=
  repeat first
    [ apply reaches_onComplete; [done|lia|]
    | apply reaches_setResult | apply reaches_setException | apply reaches_settle
    | apply reaches_pass; set_solver | apply reaches_pass_exception; set_solver
    | apply reaches_compose; [done|lia|by auto]
    | apply reaches_getException; [set_solver|]; intros [?|]
    | apply reaches_getResult; [set_solver|]; intros ?
    | apply reaches_call; [done|by auto|]; intros ?
    | apply reaches_assoc ].

(** The body of an action of any class. *)
Lemma run_finishes B F a x w :
  (forall b, b ∈ B -> (rank b < rank (consumer (kind x)))%nat) -> (weight (kind x) <= n)%nat ->
  well_kinded w x -> inv B F [] w -> actions w !! a = Some x ->
  exists w', run null call compose tr a w = (Ok tt, w') /\
    finished B F (consumer (kind x)) (composes (kind x)) w' /\ moves (rank (consumer (kind x))) w w'.
Proof.
  intros HB Hn (Hk & Hc & Hf & Hne) Hi Ha.
  assert (forall f, function (kind x) = Some f -> level f = rank (consumer (kind x))) as Hl
    by (intros f Hfx; by destruct (Hf f Hfx)).
  assert (ready B F (consumer (kind x)) (suppliers (kind x)) w) as Hw.
  { split; [done|split; [done|]]. apply Forall_forall. intros s Hs. by destruct (Hk s Hs). }
  clear Hk Hc Hf. unfold run, loadAction. unfold mbind at 1, M_bind at 1. rewrite Ha.
  revert w Ha Hi Hw. unfold weight in Hn.
  destruct (kind x) eqn:Hk; try (by edestruct Hne);
    cbn [consumer suppliers function composes] in *; intros w _ _ Hw; revert w Hw;
    match goal with |- forall w, ready ?B ?F ?p ?ss w -> exists w', ?m w = _ /\ finished _ _ _ ?c w' /\ _ =>
      change (reaches B F p ss (finished B F p c) m) end; settles.
Qed.

(** A claimed action runs. *)
Lemma run_ok B F a x w :
  inv B (a :: F) [] w -> actions w !! a = Some x -> mClaim x = true -> (weight (kind x) <= n)%nat ->
  (forall b, b ∈ B -> (rank b < rank (consumer (kind x)))%nat) ->
  exists w', run null call compose tr a w = (Ok tt, w') /\ inv B F [] w' /\
    moves (rank (consumer (kind x))) w w'.
Proof.
  intros Hi Ha Hx Hn HB.
  destruct (run_finishes B (a :: F) a x w HB Hn (inv_kind _ _ _ _ Hi a x Ha) Hi Ha)
    as (w' & E & [Hi' Hd] & Hm).
  exists w'. split; [done|]. split; [|done].
  destruct (moves_action _ _ _ a x Hm Ha) as (x' & Ha' & Ek & Hcl).
  eapply inv_less; [exact Hi'|exact Ha'|rewrite (Hcl Hx); done|]. intros _. right. by rewrite Ek.
Qed.

(** An attempt that comes too late or too early. *)
Lemma skip_ok B F a x w :
  inv B (a :: F) [] w -> actions w !! a = Some x -> (mClaim x = true -> a ∈ F \/ worked w a x) ->
  (mClaim x = false -> exists s, s ∈ suppliers (kind x) /\ undone w s) -> inv B F [] w.
Proof.
  intros Hi Ha Hw Hu. destruct (mClaim x) eqn:Hx.
  - destruct (Hw eq_refl) as [HF|Hwk]; [by apply inv_again with a|].
    eapply inv_less; [exact Hi|exact Ha|congruence|done].
  - eapply inv_less; [exact Hi|exact Ha| |congruence]. intros _.
    destruct (Hu eq_refl) as (s & Hs & Hd). exists s. auto.
Qed.

(** [if (claim()) { ... }] *)
Lemma claiming_ok B F a x r (m : M world unit) w :
  inv B (a :: F) [] w -> actions w !! a = Some x -> (mClaim x = true -> a ∈ F \/ worked w a x) ->
  (forall w1 x1, inv B (a :: F) [] w1 -> actions w1 !! a = Some x1 -> kind x1 = kind x ->
    mActionExecutor x1 = mActionExecutor x -> mClaim x1 = true ->
    exists w', m w1 = (Ok tt, w') /\ inv B F [] w' /\ moves r w1 w') ->
  exists w', (b ← claim a; if b : bool then m else mret tt) w = (Ok tt, w') /\ inv B F [] w' /\ moves r w w'.
Proof.
  intros Hi Ha Hw Hm. destruct (mClaim x) eqn:Hx.
  - rewrite (bind_Ok _ _ _ _ _ (claim_again w a x Ha Hx)). exists w. split; [done|split; [|done]].
    apply (skip_ok B F a x w Hi Ha); rewrite Hx; [exact Hw|done].
  - destruct (claim_ok B F w a x Hi Ha Hx) as (w1 & E1 & Hi1 & Hm1 & Ha1 & _). mstep E1.
    destruct (Hm w1 _ Hi1 Ha1) as (w2 & E2 & Hi2 & Hm2); [done..|].
    exists w2. split; [done|split; [done|]]. transitivity w1; [apply Hm1|done].
Qed.

(** A claimed action that goes to an executor of another thread. *)
Lemma pending_ok B F a x k w :
  inv B (a :: F) [] w -> actions w !! a = Some x -> mClaim x = true ->
  inv B F [] (set_pending (pending w ++ [(k, a)]) w).
Proof.
  intros Hi Ha Hx. set (w' := set_pending _ w).
  assert (inv B (a :: F) [] w') as Hi'.
  { destruct Hi. split; try done.
    - intros b y Hb Hy HF. destruct (inv_worked0 b y Hb Hy HF) as [H|[H|H]]; [left|right; by left|right; by right].
      cbn. rewrite fmap_app. apply elem_of_app. by left.
    - intros b. cbn. rewrite fmap_app. intros [Hb|Hb]%elem_of_app; [by apply inv_pending0|].
      apply list_elem_of_singleton in Hb as ->. by exists x. }
  eapply inv_less; [exact Hi'|exact Ha|congruence|]. intros _. left. cbn. rewrite fmap_app.
  apply elem_of_app. right. by left.
Qed.

Lemma execute_ok B F a x w :
  inv B (a :: F) [] w -> actions w !! a = Some x -> mClaim x = true -> (weight (kind x) <= n)%nat ->
  mActionExecutor x <> None -> (forall b, b ∈ B -> (rank b < rank (consumer (kind x)))%nat) ->
  exists w', execute null call compose tr (mActionExecutor x) a w = (Ok tt, w') /\ inv B F [] w' /\
    moves (rank (consumer (kind x))) w w'.
Proof.
  intros Hi Ha Hx Hn He HB. destruct (mActionExecutor x) as [[|k]|]; [|exists (set_pending (pending w ++ [(k, a)]) w)|done].
  - by apply (run_ok B F).
  - split; [done|split; [by apply pending_ok with x|]]. split; [|by intros p c Hp _; exists c].
    split; [|naive_solver|done]. intros p c Hp. by exists c.
Qed.

Lemma tryRunBody_ok : runs_well (S n) (tryRunBody null call compose tr).
Proof.
  intros a x B F w Hi Ha Hn Hw HB.
  destruct (inv_kind _ _ _ _ Hi a x Ha) as (Hk & _ & Hf & Hne).
  assert (exists w', direct_tryRun null call compose tr a w = (Ok tt, w') /\ inv B F [] w' /\
    moves (rank (consumer (kind x))) w w') as Hdirect.
  { apply (claiming_ok B F a x); [done..|]. intros w1 x1 Hi1 Ha1 Ek _ Hx. rewrite <- Ek in *.
    apply (run_ok B F); [done..|lia|done]. }
  assert (function (kind x) <> None -> exists w', executor_tryRun null call compose tr a w = (Ok tt, w') /\
    inv B F [] w' /\ moves (rank (consumer (kind x))) w w') as Hexec.
  { intros Hfn. destruct (function (kind x)) as [f|] eqn:Hfx; [|done]. destruct (Hf f eq_refl) as [_ He].
    unfold executor_tryRun, loadAction. unfold mbind at 1, M_bind at 1. rewrite Ha.
    apply (claiming_ok B F a x); [done..|]. intros w1 x1 Hi1 Ha1 Ek Ee Hx. rewrite <- Ek, <- Ee in *.
    apply (execute_ok B F); [done..|lia|done|done]. }
  unfold tryRunBody, loadAction. unfold mbind at 1, M_bind at 1. rewrite Ha.
  destruct (kind x) as [| s1 s2 p | | | | | | | | | | | ] eqn:Hkx; try exact Hdirect; try (by apply Hexec).
  assert (forall s, s ∈ [s1; s2] -> exists c, promises w !! s = Some c /\ isDone s w = (Ok (mIsDone c), w)) as Hs.
  { intros s Hs. destruct (Hk s Hs) as [Hlt _]. apply lookup_lt_is_Some in Hlt as [c Hc].
    exists c. split; [done|]. unfold isDone. by rewrite (bind_loadp _ _ _ _ Hc). }
  assert (forall s, s ∈ [s1; s2] -> undone w s -> inv B F [] w) as Hwait.
  { intros s Hss Hu. apply (skip_ok B F a x w Hi Ha Hw). intros _. exists s. by rewrite Hkx. }
  unfold biRelay_tryRun.
  destruct (Hs s1) as (c1 & Hc1 & E1); [by left|]. mstep E1. destruct (mIsDone c1) eqn:Hd1.
  2: { exists w. split; [done|split; [|done]]. apply Hwait with s1; [by left|]. by exists c1. }
  destruct (Hs s2) as (c2 & Hc2 & E2); [by right; left|]. mstep E2. destruct (mIsDone c2) eqn:Hd2; [done|].
  exists w. split; [done|split; [|done]]. apply Hwait with s2; [by right; left|]. by exists c2.
Qed.
End knot.

Notation tryRun := (tryRun null call compose).

Lemma tryRun_ok fuel : runs_well fuel (tryRun fuel).
Proof.
  induction fuel as [|fuel IH]; [intros a x B F w _ _ Hn; lia|]. by apply tryRunBody_ok.
Qed.

Lemma weight_top k : (weight k <= S (2 * top))%nat.
Proof. unfold weight. case_match; lia. Qed.

(** *** What the application asks for

    [fuel] is more than any nesting of completions. *)
Section requests.
Context (fuel : nat) (Hfuel : (S (2 * top) < fuel)%nat).
Notation quiet := (inv [] [] []).

Lemma weight_fuel k : (weight k < fuel)%nat.
Proof. pose proof (weight_top k). lia. Qed.

Lemma isDone_eq p w c : promises w !! p = Some c -> isDone p w = (Ok (mIsDone c), w).
Proof. intros Hp. unfold isDone. by rewrite (bind_loadp _ _ _ _ Hp). Qed.

Lemma newPromise_ok ex w :
  quiet w -> quiet (set_promises (promises w ++ [mkPromise null None false [] ex]) w) /\
  forall r, moves r w (set_promises (promises w ++ [mkPromise null None false [] ex]) w).
Proof.
  intros Hi. set (w' := set_promises _ w). set (d := mkPromise null None false [] ex).
  assert (forall p c, promises w' !! p = Some c ->
    promises w !! p = Some c \/ (p = length (promises w) /\ c = d)) as Hlook.
  { intros p c [Hp|[Hp Hc]]%lookup_app_Some; [by left|right].
    apply list_lookup_singleton_Some in Hc as [Hc <-]. split; [lia|done]. }
  assert (forall p c, promises w !! p = Some c -> promises w' !! p = Some c) as Hkeep
    by (intros p c; apply lookup_app_l_Some).
  split.
  - destruct Hi. split.
    + intros a x Hx. destruct (inv_kind0 a x Hx) as (Hk & Hc & Hr). unfold w'. cbn.
      split; [|split; [cbn; rewrite length_app; lia|done]]. intros s Hs. destruct (Hk s Hs).
      cbn. rewrite length_app. split; [lia|done].
    + intros p c n a [Hp|[-> ->]]%Hlook Hn; [by apply (inv_node0 p c n a)|by apply not_elem_of_nil in Hn].
    + intros p c [Hp|[-> ->]]%Hlook; [by apply (inv_nodup0 p c)|constructor].
    + intros p c [Hp|[-> ->]]%Hlook; [by apply inv_quiet0|done].
    + intros a x s Ha Hx HE Hs (c & [Hp|[-> ->]]%Hlook & Hd).
      * destruct (inv_wait0 a x s Ha Hx HE Hs) as (c' & Hp' & Hin); [by exists c|].
        exists c'. auto.
      * destruct (inv_kind0 a x Ha) as (Hk & _). destruct (Hk _ Hs). lia.
    + intros a x Ha Hx HF. destruct (inv_held0 a x Ha Hx HF) as (s & Hs & [(c & Hp & Hd)|[[]%not_elem_of_nil _]]).
      exists s. split; [done|left]. exists c. auto.
    + intros a x Ha Hx HF. destruct (inv_worked0 a x Ha Hx HF) as [H|[(c & Hp & Hd)|H]];
        [by left|right; left|by right; right]. exists c. auto.
    + done.
  - intros r. split; [apply (growing_newPromise null ex w)|]. intros p c Hp _. exists c. auto.
Qed.

(** [complete], [completeWith] with an exception, [cancel]. *)
Lemma completes_ok B F p f w {A} (a1 a2 : A) :
  (forall c, mIsDone (f c) = true /\ mActions (f c) = mActions c) ->
  inv B F [] w -> (p < length (promises w))%nat -> (forall b, b ∈ B -> (rank b < rank p)%nat) ->
  exists a w', (d ← isDone p; if d : bool then mret a1
    else update p f;; onComplete (tryRun fuel) p;; mret a2) w = (Ok a, w') /\ inv B F [] w' /\
    moves (rank p) w w'.
Proof.
  intros Hf Hi Hp HB. apply lookup_lt_is_Some in Hp as [c Hc].
  rewrite (bind_Ok _ _ _ _ _ (isDone_eq p w c Hc)). destruct (mIsDone c) eqn:Hd; [by exists a1, w|].
  destruct (write_ok B F w p f c Hi Hc Hf) as (w1 & E1 & Hi1 & Hd1 & Hm1 & _).
  rewrite (bind_loadp _ _ _ _ Hc), Hd in E1. rewrite (bind_Ok _ _ _ _ _ E1).
  destruct (onComplete_ok _ _ (tryRun_ok fuel) B F w1 p Hi1 Hd1 HB) as (w2 & E2 & Hi2 & Hm2); [lia|].
  rewrite (bind_Ok _ _ _ _ _ E2). exists a2, w2. split; [done|split; [done|by transitivity w1]].
Qed.

(** No promise runs its actions between two requests. *)
Lemma none_busy (P : nat -> Prop) : forall b, b ∈ [] -> P b.
Proof. by intros b Hb%not_elem_of_nil. Qed.

Lemma cancel_ok p w :
  quiet w -> (p < length (promises w))%nat ->
  exists b w', cancel (tryRun fuel) p w = (Ok b, w') /\ quiet w'.
Proof.
  intros Hi Hp. unfold cancel, completeWith_exception.
  destruct (completes_ok [] [] p (with_exception (Some Cancellation)) w false true) as (b & w' & E & Hi' & Hm);
    [done..|apply none_busy|].
  rewrite (bind_Ok _ _ _ _ _ E). pose proof (moves_length _ _ _ Hm).
  destruct (lookup_lt_is_Some_2 (promises w') p) as [c Hc]; [lia|].
  exists (b || match mException c with Some Cancellation => true | _ => false end), w'. split; [|done].
  unfold isCancelled, getException. rewrite !bind_assoc. rewrite (bind_loadp _ _ _ _ Hc). done.
Qed.

(** A dependent promise is new; it comes after the one it depends on, and the function works for
    it. *)
Definition may_depend (w : world) (p : nat) (ex : option Executor) (f : nat) : Prop :=
  (p < length (promises w))%nat /\ ex <> None /\
  (rank p < rank (length (promises w)))%nat /\ level f = rank (length (promises w)).

Lemma dependent_ok p ex f (k : nat -> ActionKind) w :
  quiet w -> may_depend w p ex f ->
  (forall q, suppliers (k q) = [p] /\ consumer (k q) = q /\ function (k q) = Some f) ->
  exists w', dependent null call compose fuel p ex k w = (Ok (length (promises w)), w') /\ quiet w'.
Proof.
  intros Hi (Hp & Hex & Hr & Hl) Hk. unfold dependent.
  rewrite throw_if_false by (by destruct ex). pose proof Hp as [c Hc]%lookup_lt_is_Some.
  rewrite (bind_loadp _ _ _ _ Hc). set (q := length (promises w)) in *.
  destruct (newPromise_ok (mExecutor c) w Hi) as [Hi1 Hm1]. set (w1 := set_promises _ w) in *.
  assert (newPromise null (mExecutor c) w = (Ok q, w1)) as E1 by done. mstep E1.
  assert (length (promises w1) = S q) as Hlen by (unfold w1; cbn; rewrite length_app; cbn; lia).
  destruct (Hk q) as (Hs & Hcons & Hf).
  destruct (newAction_ok [] [] [] w1 (k q) ex Hi1) as (w2 & E2 & Hi2 & _ & Ha2 & Hp2).
  { split; [|split; [|split]]; cbn [kind mActionExecutor]; rewrite ?Hs, ?Hcons, ?Hf.
    - intros s ->%list_elem_of_singleton. lia.
    - lia.
    - intros ? [= <-]. done.
    - intros s t E. rewrite E in Hf. done. }
  mstep E2. destruct (attach_ok _ _ (tryRun_ok fuel) [] [] w2 p _ _ (mret q) Hi2 Ha2)
    as (w3 & E3 & Hi3 & _); [done|done|apply weight_fuel|apply none_busy|].
  rewrite E3. by exists w3.
Qed.

(** An executor runs the next action it was given. *)
Lemma runPending_ok w :
  quiet w -> exists w', runPending null call compose fuel w = (Ok tt, w') /\ quiet w'.
Proof.
  intros Hi. unfold runPending. rewrite bind_gets. destruct (pending w) as [|[k a] l] eqn:Hl; [by exists w|].
  rewrite bind_modify. destruct (inv_pending _ _ _ _ Hi a) as (x & Ha & Hx); [rewrite Hl; by left|].
  destruct (run_ok fuel (tryRun fuel) (tryRun_ok fuel) [] [] a x (set_pending l w)) as (w' & E & Hi' & _).
  - destruct Hi. split; try done.
    + intros b y Hb Hy _. apply inv_held0; [done|done|apply not_elem_of_nil].
    + intros b y Hb Hy [Hba _]%not_elem_of_cons.
      destruct (inv_worked0 b y Hb Hy (not_elem_of_nil b)) as [H|[H|H]]; [left|right; by left|right; by right].
      rewrite Hl in H. cbn in *. by apply elem_of_cons in H as [?|?].
    + intros b Hb. apply inv_pending0. rewrite Hl. by right.
  - done.
  - done.
  - pose proof (weight_fuel (kind x)). lia.
  - apply none_busy.
  - by exists w'.
Qed.

(** *** [anyOf] and [allOf] *)

Lemma newPromise_lookup ex w :
  promises (set_promises (promises w ++ [mkPromise null None false [] ex]) w) !! length (promises w) =
    Some (mkPromise null None false [] ex).
Proof. by apply list_lookup_middle. Qed.

(** A new promise gets its outcome: there is nothing to run. *)
Lemma write_fresh w p c f :
  quiet w -> promises w !! p = Some c -> mIsDone c = false -> mActions c = [] ->
  (forall c, mIsDone (f c) = true /\ mActions (f c) = mActions c) ->
  exists w', (c ← load p; if mIsDone c then mret tt else update p f) w = (Ok tt, w') /\ quiet w' /\
    length (promises w') = length (promises w).
Proof.
  intros Hi Hp Hd Hl Hf. destruct (write_ok [] [] w p f c Hi Hp Hf) as (w' & E & Hi' & _ & _ & _ & Hlen).
  exists w'. split; [done|split; [|done]].
  rewrite (bind_loadp _ _ _ _ Hp), Hd, (update_eq _ _ _ _ Hp) in E. injection E as <-.
  destruct (Hf c) as [H1 H2]. eapply rest_ok; [exact Hi'| |exact H1|by rewrite H2].
  rewrite (insert_lookup w p c) by done. by left.
Qed.

Lemma getException_eq p w c : promises w !! p = Some c -> getException p w = (Ok (mException c), w).
Proof. intros Hp. unfold getException. by rewrite (bind_loadp _ _ _ _ Hp). Qed.

Lemma getResult_eq p w c : promises w !! p = Some c -> getResult p w = (Ok (mResult c), w).
Proof. intros Hp. unfold getResult. by rewrite (bind_loadp _ _ _ _ Hp). Qed.

(** The promises a tree or a race is made of. *)
Definition may_join (w : world) (ps : list nat) : Prop :=
  Forall (fun p => (p < length (promises w))%nat) ps.

Lemma firstDone_ok q c ps w :
  quiet w -> promises w !! q = Some c -> mIsDone c = false -> mActions c = [] -> may_join w ps ->
  exists b w', firstDone q (Some <$> ps) w = (Ok b, w') /\ quiet w' /\
    (b = false -> w' = w /\ Forall (undone w) ps).
Proof.
  intros Hi Hq Hd Hl Hps. induction Hps as [|p ps Hp Hps IH]; cbn [fmap list_fmap firstDone].
  { exists false, w. auto. }
  apply lookup_lt_is_Some in Hp as [d Hp].
  rewrite (bind_Ok _ _ _ _ _ (isDone_eq p w d Hp)). destruct (mIsDone d) eqn:Hdd.
  - rewrite (bind_Ok _ _ _ _ _ (getException_eq p w d Hp)).
    assert (exists w', (match mException d with
        | Some e => setException q (Some (toCompletionException e))
        | None => r ← getResult p; setResult q r end) w = (Ok tt, w') /\ quiet w') as (w' & E & Hi').
    { destruct (mException d) as [e|]; [|rewrite (bind_Ok _ _ _ _ _ (getResult_eq p w d Hp))];
        [destruct (write_fresh w q c (with_exception (Some (toCompletionException e)))) as (w' & E & Hi' & _)
        |destruct (write_fresh w q c (with_result (mResult d))) as (w' & E & Hi' & _)];
        try done; by exists w'. }
    rewrite (bind_Ok _ _ _ _ _ E). exists true, w'. done.
  - destruct IH as (b & w' & E & Hi' & Hb). exists b, w'. split; [done|split; [done|]].
    intros Hb'. destruct (Hb Hb'). split; [done|]. constructor; [by exists d|done].
Qed.

Lemma newActions_ok q ps : forall F E w,
  inv [] F E w -> may_join w ps -> (q < length (promises w))%nat ->
  Forall (fun p => (rank p < rank q)%nat) ps ->
  exists xs w', newActions q ps w = (Ok xs, w') /\ inv [] (xs ++ F) (xs ++ E) w' /\
    promises w' = promises w /\ (forall a x, actions w !! a = Some x -> actions w' !! a = Some x) /\
    Forall2 (fun p a => actions w' !! a = Some (mkAction (AnyOfAction p q) None false)) ps xs.
Proof.
  induction ps as [|p ps IH]; intros F E w Hi Hps Hq Hr; cbn [newActions].
  { exists [], w. auto. }
  apply Forall_cons in Hps as [Hp Hps], Hr as [Hrp Hr].
  destruct (newAction_ok [] F E w (AnyOfAction p q) None Hi) as (w1 & E1 & Hi1 & Hm1 & Ha1 & Hp1).
  { split; [|split; [done|split; [done|done]]]. by intros s ->%list_elem_of_singleton. }
  mstep E1. set (a := length (actions w)) in *.
  destruct (IH (a :: F) (a :: E) w1 Hi1) as (xs & w2 & E2 & Hi2 & Hp2 & Hk2 & Hx2);
    [unfold may_join; by rewrite Hp1|by rewrite Hp1|done|].
  mstep E2. exists (a :: xs), w2. split; [done|split; [|split; [congruence|split]]].
  - eapply inv_weaken; [| |exact Hi2]; set_solver.
  - intros b x Hb. apply Hk2. injection E1 as <-. cbn. by apply lookup_app_l_Some.
  - constructor; [by apply Hk2|done].
Qed.

Lemma each_ok tr q ps xs : forall w,
  inv [] xs xs w -> Forall (undone w) ps ->
  Forall2 (fun p a => actions w !! a = Some (mkAction (AnyOfAction p q) None false)) ps xs ->
  exists w', each (addAction tr) ps xs w = (Ok tt, w') /\ quiet w' /\ (forall p, undone w' p <-> undone w p).
Proof.
  revert xs. induction ps as [|p ps IH]; intros xs w Hi Hps Hx.
  { apply Forall2_nil_inv_l in Hx as ->. by exists w. }
  apply Forall2_cons_inv_l in Hx as (a & xs' & Ha & Hx & ->). apply Forall_cons in Hps as [Hp Hps].
  cbn [each]. destruct (addAction_ok tr [] xs' xs' w p a _ Hi Ha) as (w1 & E1 & Hi1 & _ & Ha1 & Hu1); [done..|].
  mstep E1. destruct (IH xs' w1 Hi1) as (w2 & E2 & Hi2 & Hu2).
  - eapply Forall_impl; [exact Hps|]. intros ?. by apply Hu1.
  - by rewrite Ha1.
  - exists w2. split; [done|split; [done|]]. intros r. by rewrite Hu2.
Qed.

Lemma omap_Some (ps : list nat) : omap id (Some <$> ps) = ps.
Proof. induction ps as [|p ps IH]; [done|]. cbn. by f_equal. Qed.

Lemma anyOf_ok ex ps w :
  quiet w -> may_join w ps -> Forall (fun p => (rank p < rank (length (promises w)))%nat) ps ->
  exists w', anyOf null call compose fuel ex (Some <$> ps) w = (Ok (length (promises w)), w') /\ quiet w'.
Proof.
  intros Hi Hps Hr. unfold anyOf. destruct (newPromise_ok ex w Hi) as [Hi1 Hm1].
  pose proof (newPromise_lookup ex w) as Hq. set (q := length (promises w)) in *.
  set (w1 := set_promises _ w) in *. assert (newPromise null ex w = (Ok q, w1)) as E1 by done. mstep E1.
  destruct (decide (ps = [])) as [->|Hne]; [by exists w1|].
  assert (forall A (x y : A), match Some <$> ps with [] => x | _ => y end = y) as -> by (by destruct ps).
  assert (may_join w1 ps) as Hps1.
  { eapply Forall_impl; [exact Hps|]. intros p Hp. unfold w1. cbn. rewrite length_app. cbn in *. lia. }
  assert (q < length (promises w1))%nat as Hlt by (by eapply lookup_lt_Some).
  destruct (firstDone_ok q _ ps w1 Hi1 Hq) as (b & w2 & E2 & Hi2 & Hb); [done..|]. mstep E2.
  destruct b; [by exists w2|]. destruct (Hb eq_refl) as [-> Hu]. rewrite omap_Some.
  destruct (newActions_ok q ps [] [] w1) as (xs & w3 & E3 & Hi3 & Hp3 & _ & Hx3); [done..|]. mstep E3.
  rewrite app_nil_r in Hi3.
  destruct (each_ok (tryRun fuel) q ps xs w3 Hi3) as (w4 & E4 & Hi4 & Hu4); [|done|].
  { eapply Forall_impl; [exact Hu|]. intros p (c & Hc & Hd). exists c. by rewrite Hp3. }
  mstep E4. assert (undone w4 q) as (c & Hc & Hd).
  { apply Hu4. exists (mkPromise null None false [] ex). by rewrite Hp3. }
  rewrite (bind_Ok _ _ _ _ _ (isDone_eq q w4 c Hc)), Hd. by exists w4.
Qed.

(** The end of [andTree]: an action for two suppliers, or the outcome of both. *)
Lemma biRelay_early tr w a s1 s2 :
  undone w s1 \/ undone w s2 -> (s1 < length (promises w))%nat -> (s2 < length (promises w))%nat ->
  biRelay_tryRun null call compose tr s1 s2 a w = (Ok tt, w).
Proof.
  intros Hu H1 H2. unfold biRelay_tryRun. apply lookup_lt_is_Some in H1 as [c1 H1], H2 as [c2 H2].
  rewrite (bind_Ok _ _ _ _ _ (isDone_eq s1 w c1 H1)). destruct (mIsDone c1) eqn:D1; [|done].
  rewrite (bind_Ok _ _ _ _ _ (isDone_eq s2 w c2 H2)). destruct (mIsDone c2) eqn:D2; [|done].
  destruct Hu as [(c & Hc & Hd)|(c & Hc & Hd)]; congruence.
Qed.

(** One of the two suppliers gets the action. *)
Lemma add_half B F E w a x s q s1 s2 :
  inv B F E w -> actions w !! a = Some x -> mClaim x = false -> kind x = BiRelayAction s1 s2 q ->
  undone w s1 \/ undone w s2 -> s = s1 \/ s = s2 ->
  exists w', (d ← isDone s; if d : bool then tryRun fuel a else addAction (tryRun fuel) s a) w = (Ok tt, w') /\
    inv B F E w' /\ actions w' = actions w /\ length (promises w') = length (promises w) /\
    (undone w s -> registered w' s a) /\ (forall p b, registered w p b -> registered w' p b) /\
    (forall p, undone w' p <-> undone w p) /\ (forall r, r <> s -> promises w' !! r = promises w !! r).
Proof.
  intros Hi Ha Hx Hk Hu Hs. destruct (inv_kind _ _ _ _ Hi a x Ha) as (Hv & _). rewrite Hk in Hv.
  destruct (Hv s1) as [H1 _]; [by left|]. destruct (Hv s2) as [H2 _]; [by right; left|].
  assert (s < length (promises w))%nat as [c Hc]%lookup_lt_is_Some by (by destruct Hs as [->| ->]).
  rewrite (bind_Ok _ _ _ _ _ (isDone_eq s w c Hc)). destruct (mIsDone c) eqn:Hd.
  - exists w. split; [|split; [done|split; [done|split; [done|split; [|done]]]]].
    + destruct fuel as [|m]; [lia|]. cbn [Promise.tryRun]. unfold tryRunBody, loadAction.
      unfold mbind at 1, M_bind at 1. rewrite Ha, Hk. by apply biRelay_early.
    + intros (c' & Hc' & Hd'). congruence.
  - assert (s ∈ suppliers (kind x)) as Hss by (rewrite Hk; cbn; set_solver).
    destruct (addAction_push (tryRun fuel) B F E w s a x Hi Ha Hss) as (w' & E' & Hi' & Hm & Ha' & Hr & Hreg & Hun & Hfr);
      [by exists c|].
    exists w'. split; [done|split; [done|split; [done|split; [|done]]]].
    pose proof (moves_length _ _ _ (Hm 0%nat)). destruct (decide (length (promises w) < length (promises w'))%nat); [|lia].
    destruct (lookup_lt_is_Some_2 (promises w') (length (promises w))) as [d Hd']; [lia|].
    rewrite Hfr in Hd'; [by apply lookup_lt_Some in Hd'; lia|]. apply lookup_lt_Some in Hc. lia.
Qed.

(** The consumer is new, there is nothing on it to run. *)
Definition fresh (w : world) (q : nat) : Prop :=
  exists c, promises w !! q = Some c /\ mIsDone c = false /\ mActions c = [].

Lemma andJoin_done ex w q s1 s2 :
  quiet w -> fresh w q -> done w s1 -> done w s2 ->
  exists w', andJoin null call compose fuel ex q s1 s2 w = (Ok q, w') /\ quiet w' /\
    length (promises w') = length (promises w) /\
    (forall r, r <> q -> promises w' !! r = promises w !! r).
Proof.
  intros Hi (c & Hq & Hd & Hl) (c1 & H1 & D1) (c2 & H2 & D2). unfold andJoin.
  rewrite (bind_Ok _ _ _ _ _ (isDone_eq s1 w c1 H1)), (bind_Ok _ _ _ _ _ (isDone_eq s2 w c2 H2)), D1, D2.
  cbn [negb orb]. rewrite bind_assoc, (bind_Ok _ _ _ _ _ (getException_eq s1 w c1 H1)).
  assert (forall f, (forall c, mIsDone (f c) = true /\ mActions (f c) = mActions c) ->
    exists w', (c ← load q; if mIsDone c then mret tt else update q f) w = (Ok tt, w') /\ quiet w' /\
    length (promises w') = length (promises w) /\
    (forall r, r <> q -> promises w' !! r = promises w !! r)) as Hwrite.
  { intros f Hf. destruct (write_fresh w q c f Hi Hq Hd Hl Hf) as (w' & E & Hi' & Hlen).
    exists w'. split; [done|split; [done|split; [done|]]].
    rewrite (bind_loadp _ _ _ _ Hq), Hd, (update_eq _ _ _ _ Hq) in E. injection E as <-.
    intros r Hr. cbn. by rewrite list_lookup_insert_ne. }
  destruct (mException c1) as [e|].
  - destruct (Hwrite (with_exception (Some (toCompletionException e)))) as (w' & E & H); [done|].
    rewrite (bind_Ok _ _ _ _ _ E). by exists w'.
  - rewrite bind_assoc, (bind_Ok _ _ _ _ _ (getException_eq s2 w c2 H2)). destruct (mException c2) as [e|].
    + destruct (Hwrite (with_exception (Some (toCompletionException e)))) as (w' & E & H); [done|].
      rewrite (bind_Ok _ _ _ _ _ E). by exists w'.
    + destruct (Hwrite (with_result null)) as (w' & E & H); [done|].
      rewrite (bind_Ok _ _ _ _ _ E). by exists w'.
Qed.

Lemma andJoin_wait ex w q s1 s2 :
  quiet w -> (q < length (promises w))%nat -> undone w s1 \/ undone w s2 ->
  Forall (fun s => (s < length (promises w))%nat /\ (rank s < rank q)%nat) [s1; s2] ->
  exists w', andJoin null call compose fuel ex q s1 s2 w = (Ok q, w') /\ quiet w' /\
    length (promises w') = S (length (promises w)) /\
    (forall r, (r < length (promises w))%nat -> r <> s1 -> r <> s2 -> promises w' !! r = promises w !! r).
Proof.
  intros Hi Hq Hu Hs. pose proof Hs as [[H1 R1] [[H2 R2] _]%Forall_cons]%Forall_cons. unfold andJoin.
  apply lookup_lt_is_Some in H1 as [c1 C1], H2 as [c2 C2].
  rewrite (bind_Ok _ _ _ _ _ (isDone_eq s1 w c1 C1)), (bind_Ok _ _ _ _ _ (isDone_eq s2 w c2 C2)).
  assert (negb (mIsDone c1) || negb (mIsDone c2) = true) as ->.
  { destruct Hu as [(c & Hc & Hd)|(c & Hc & Hd)]; [assert (c = c1) as <- by congruence|
      assert (c = c2) as <- by congruence]; rewrite Hd; [done|apply orb_true_r]. }
  rewrite bind_assoc. destruct (newPromise_ok ex w Hi) as [Hi0 Hm0]. set (w0 := set_promises _ w) in *.
  assert (newPromise null ex w = (Ok (length (promises w)), w0)) as E0 by done. mstep E0.
  assert (length (promises w0) = S (length (promises w))) as Hlen by (unfold w0; cbn; rewrite length_app; cbn; lia).
  assert (forall r, (r < length (promises w))%nat -> promises w0 !! r = promises w !! r) as Hold.
  { intros r Hr. unfold w0. cbn. by rewrite lookup_app_l. }
  assert (forall s, undone w s -> undone w0 s) as Hu0.
  { intros s (c & Hc & Hd). exists c. split; [|done]. rewrite Hold; [done|by eapply lookup_lt_Some]. }
  rewrite bind_assoc. destruct (newAction_ok [] [] [] w0 (BiRelayAction s1 s2 q) None Hi0)
    as (w1 & E1 & Hi1 & _ & Ha1 & Hp1).
  { split; [|split; [change (q < length (promises w0))%nat; lia|split; [done|done]]]. cbn [kind suppliers consumer]. intros s Hss.
    rewrite Forall_forall in Hs. destruct (Hs s); [set_solver|]. lia. }
  rewrite (bind_Ok _ _ _ _ _ E1). set (a := length (actions w0)) in *.
  assert (undone w1 s1 \/ undone w1 s2) as Hu1.
  { unfold undone. rewrite Hp1. destruct Hu as [H|H]; [left|right]; by apply Hu0. }
  destruct (add_half [] [a] [a] w1 a _ s1 q s1 s2 Hi1 Ha1) as
    (w2 & E2 & Hi2 & Ha2 & Hl2 & Hr2 & Hreg2 & Hun2 & Hf2); [done|done|done|by left|].
  rewrite <- Ha2 in Ha1.
  destruct (add_half [] [a] [a] w2 a _ s2 q s1 s2 Hi2 Ha1) as
    (w3 & E3 & Hi3 & Ha3 & Hl3 & Hr3 & Hreg3 & Hun3 & Hf3); [done|done|by rewrite !Hun2|by right|].
  rewrite <- Ha3 in Ha1.
  match goal with |- context [(?m ≫= fun _ => mret q) w1] => assert (m w1 = (Ok tt, w3)) as E end.
  { etransitivity; [symmetry; apply bind_assoc|]. rewrite (bind_Ok _ _ _ _ _ E2). exact E3. }
  mstep E. exists w3. split; [done|]. split; [|split; [rewrite Hl3, Hl2, Hp1; exact Hlen|]].
  2: { intros r Hr H1 H2. rewrite Hf3, Hf2, Hp1 by done. by apply Hold. }
  eapply inv_less; [|exact Ha1| |done].
  - eapply added_wait; [exact Hi3|exact Ha1|]. cbn [kind suppliers].
    intros s [->|[->|[]%not_elem_of_nil]%elem_of_cons]%elem_of_cons Hus.
    + apply Hreg3, Hr2. by apply Hun2, Hun3.
    + by apply Hr3, Hun3.
  - intros _. destruct Hu1 as [H|H]; [exists s1|exists s2]; (split; [cbn; set_solver|]); left;
      by apply Hun3, Hun2.
Qed.

Lemma andJoin_ok ex w q s1 s2 :
  quiet w -> fresh w q ->
  Forall (fun s => (s < length (promises w))%nat /\ (rank s < rank q)%nat) [s1; s2] ->
  exists w', andJoin null call compose fuel ex q s1 s2 w = (Ok q, w') /\ quiet w' /\
    (length (promises w) <= length (promises w') <= S (length (promises w)))%nat /\
    (forall r, (r < length (promises w))%nat -> r ∉ [q; s1; s2] -> promises w' !! r = promises w !! r).
Proof.
  intros Hi Hq Hs. pose proof Hs as [[H1 _] [[H2 _] _]%Forall_cons]%Forall_cons.
  apply lookup_lt_is_Some in H1 as [c1 C1], H2 as [c2 C2].
  destruct (mIsDone c1) eqn:D1, (mIsDone c2) eqn:D2.
  1: { destruct (andJoin_done ex w q s1 s2 Hi Hq) as (w' & E & Hi' & Hl & Hf); [by exists c1|by exists c2|].
       exists w'. split; [done|split; [done|split; [lia|]]]. intros r _ Hr. apply Hf. set_solver. }
  all: destruct (andJoin_wait ex w q s1 s2 Hi) as (w' & E & Hi' & Hl & Hf);
    [destruct Hq as (c & Hq & _); by eapply lookup_lt_Some
    |first [by left; exists c1|by right; exists c2]|done|];
    exists w'; (split; [done|split; [done|split; [lia|]]]); intros r Hr Hne; apply Hf; set_solver.
Qed.

(** The tree over the promises [ps], which come before the new ones; of these, numbered from [lo]
    to [hi], the later ones are below the earlier ones. *)
Section tree.
Context (ex : option Executor) (ps : list nat) (lo hi : nat).
Context (Hps : Forall (fun p => (p < lo)%nat) ps).
Context (Hbelow : forall p q, p ∈ ps -> (lo <= q < hi)%nat -> (rank p < rank q)%nat).
Context (Hdesc : forall q q', (lo <= q)%nat -> (q < q' < hi)%nat -> (rank q' < rank q)%nat).

(** How many promises a tree makes at most. *)
Definition tree_size (start last : nat) : nat := if decide (start = last) then 2 else 2 * (last - start).

Definition tree_post (start last : nat) (w w' : world) : Prop := quiet w' /\
  (length (promises w) < length (promises w') <= length (promises w) + tree_size start last)%nat /\
  (forall p, (p < length (promises w))%nat -> p ∉ ps -> promises w' !! p = promises w !! p).

(** A supplier of a node: a promise of [ps] or the root of a tree. *)
Definition leaf_or_root (s : nat) (m : nat) (w w' : world) : Prop :=
  quiet w' /\ (length (promises w) <= length (promises w') <= length (promises w) + m)%nat /\
  (forall p, (p < length (promises w))%nat -> p ∉ ps -> promises w' !! p = promises w !! p) /\
  ((s ∈ ps /\ (s < lo)%nat) \/ (length (promises w) <= s < length (promises w'))%nat).

Lemma leaf_ok i w : quiet w -> (i < length ps)%nat ->
  exists s, mjoin ((Some <$> ps) !! i) = Some s /\ leaf_or_root s 0 w w.
Proof.
  intros Hi [s Hs]%lookup_lt_is_Some. exists s. rewrite list_lookup_fmap, Hs. split; [done|].
  split; [done|split; [lia|split; [done|left]]].
  split; [by eapply list_elem_of_lookup_2|]. rewrite Forall_forall in Hps. apply Hps.
  by eapply list_elem_of_lookup_2.
Qed.

(** What a node needs to know of its suppliers. *)
Lemma supplier_ok s m q w w' :
  leaf_or_root s m w w' -> (lo <= q < length (promises w))%nat -> (length (promises w') <= hi)%nat ->
  (s < length (promises w'))%nat /\ (rank s < rank q)%nat /\ s <> q.
Proof.
  intros (_ & Hl & _ & [[Hs Hlt]|Hs]) Hq Hhi.
  - split; [lia|split; [apply Hbelow; [done|lia]|lia]].
  - split; [lia|split; [apply Hdesc; lia|lia]].
Qed.

Lemma fresh_above q : (lo <= q)%nat -> q ∉ ps.
Proof. intros Hq Hin. rewrite Forall_forall in Hps. specialize (Hps q Hin). lia. Qed.

(** The promises from [i] to [j]: one of them, or the root of a tree. *)
Definition tree_ok (depth : nat) : Prop := forall start last w,
  quiet w -> (lo <= length (promises w))%nat -> (length (promises w) + tree_size start last <= hi)%nat ->
  (start <= last < length ps)%nat -> (last - start < depth)%nat ->
  exists w', andTree null call compose fuel depth ex (Some <$> ps) start last w =
      (Ok (length (promises w)), w') /\ tree_post start last w w'.

Lemma subtree_ok {P : Prop} (d : Decision P) depth i j k w :
  tree_ok depth -> (P <-> i = j) -> (i = j -> k = i) -> quiet w -> (lo <= length (promises w))%nat ->
  (length (promises w) + 2 * (j - i) <= hi)%nat -> (i <= j < length ps)%nat -> (i <> j -> j - i < depth)%nat ->
  exists s w', (if d then mret (mjoin ((Some <$> ps) !! k))
    else s ← andTree null call compose fuel depth ex (Some <$> ps) i j; mret (Some s)) w =
      (Ok (Some s), w') /\ leaf_or_root s (2 * (j - i)) w w'.
Proof.
  intros IH HP Hk Hi Hlo Hhi Hij Hdepth. destruct d as [Hd|Hd].
  - apply HP in Hd. rewrite (Hk Hd). destruct (leaf_ok i w Hi) as (s & E & H); [lia|]. exists s, w.
    split; [by rewrite E|]. by replace (2 * (j - i))%nat with 0%nat by lia.
  - rewrite HP in Hd. assert (tree_size i j = 2 * (j - i))%nat as Hts by (unfold tree_size; by rewrite decide_False).
    destruct (IH i j w Hi) as (w2 & E & Hi2 & Hl2 & Hf2); [lia..|].
    rewrite (bind_Ok _ _ _ _ _ E). do 2 eexists. split; [done|].
    split; [done|split; [lia|split; [done|right; lia]]].
Qed.

Lemma andTree_ok depth : tree_ok depth.
Proof.
  induction depth as [|depth IH]; intros start last w Hi Hlo Hhi Hrange Hdepth; [lia|].
  cbn [andTree]. set (q := length (promises w)) in *. destruct (newPromise_ok ex w Hi) as [Hi1 _].
  pose proof (newPromise_lookup ex w) as Hq1. set (w1 := set_promises _ w) in *.
  assert (newPromise null ex w = (Ok q, w1)) as E1 by done. mstep E1. cbv zeta.
  assert (length (promises w1) = S q) as Hlen1 by (unfold w1; cbn; rewrite length_app; cbn; lia).
  assert (forall p, (p < q)%nat -> promises w1 !! p = promises w !! p) as Hold.
  { intros p Hp. unfold w1. cbn. by rewrite lookup_app_l. }
  set (mid := ((start + last) / 2)%nat).
  assert (start <= mid /\ mid <= last /\ (start = mid -> last = start \/ last = S start) /\
    (start <> mid -> start < mid < last))%nat as (Hm1 & Hm2 & Hm3 & Hm4).
  { pose proof (Nat.div_mod (start + last) 2 ltac:(lia)).
    pose proof (Nat.mod_upper_bound (start + last) 2 ltac:(lia)). lia. }
  clearbody mid w1.
  assert (2 * (last - start) <= tree_size start last /\ 2 <= tree_size start last)%nat as [Hts1 Hts2]
    by (unfold tree_size; case_decide; lia).
  destruct (subtree_ok (decide (start = mid)) depth start mid start w1 IH) as (s1 & w2 & E2 & Hs1); [done|done|done|lia..|].
  mstep E2. pose proof Hs1 as (Hi2 & Hl2 & Hf2 & _).
  destruct (supplier_ok s1 _ q _ _ Hs1) as (V1 & R1 & N1); [lia..|].
  assert (exists s2 w3, (if decide (start = last) then mret (Some s1)
      else if decide (last = S mid) then mret (mjoin ((Some <$> ps) !! last))
      else s ← andTree null call compose fuel depth ex (Some <$> ps) (S mid) last; mret (Some s)) w2 =
        (Ok (Some s2), w3) /\ quiet w3 /\ (s2 < length (promises w3))%nat /\ (rank s2 < rank q)%nat /\ s2 <> q /\
      (length (promises w2) <= length (promises w3) <= length (promises w2) + 2 * (last - S mid))%nat /\
      (forall p, (p < length (promises w2))%nat -> p ∉ ps -> promises w3 !! p = promises w2 !! p) /\
      (s2 = s1 \/ s2 ∈ ps \/ length (promises w2) <= s2)%nat) as (s2 & w3 & E3 & Hi3 & V2 & R2 & N2 & Hl3 & Hf3 & Hw3).
  { destruct (decide (start = last)) as [Hsl|Hsl].
    - exists s1, w2. split; [done|split; [done|split; [done|split; [done|split; [done|split; [lia|split; [done|by left]]]]]]].
    - destruct (subtree_ok (decide (last = S mid)) depth (S mid) last last w2 IH) as (s2 & w3 & E3 & Hs2);
        [naive_solver lia|done|done|lia..|].
      destruct (supplier_ok s2 _ q _ _ Hs2) as (V2 & R2 & N2); [destruct Hs2 as (_ & H & _); lia..|].
      destruct Hs2 as (Hi3 & Hl3 & Hf3 & H3). exists s2, w3.
      split; [done|split; [done|split; [done|split; [done|split; [done|split; [done|split; [done|]]]]]]].
      right. destruct H3 as [[? _]|[? _]]; auto. }
  mstep E3. assert (q ∉ ps) as Hqps by (by apply fresh_above).
  destruct (andJoin_ok ex w3 q s1 s2 Hi3) as (w4 & E4 & Hi4 & Hl4 & Hf4).
  { exists (mkPromise null None false [] ex). rewrite Hf3, Hf2 by (done || lia). done. }
  { repeat constructor; lia. }
  exists w4. split; [done|]. split; [done|split; [lia|]].
  intros p Hp Hpps. destruct Hs1 as (_ & _ & _ & H1).
  assert (p <> s1) as Hp1 by (intros ->; destruct H1 as [[? _]|[? _]]; [done|lia]).
  assert (p <> s2) as Hp2 by (intros ->; destruct Hw3 as [?|[?|?]]; [done|done|lia]).
  rewrite Hf4; [|lia|]. { by rewrite Hf3, Hf2, Hold by (done || lia). }
  rewrite !not_elem_of_cons. split; [lia|split; [done|split; [done|apply not_elem_of_nil]]].
Qed.
End tree.

(** The promises of a tree, above [ps], the later ones below the earlier ones. *)
Definition may_grow (w : world) (ps : list nat) : Prop :=
  let lo := length (promises w) in
  let hi := (lo + 2 * length ps)%nat in
  (forall p q, p ∈ ps -> (lo <= q < hi)%nat -> (rank p < rank q)%nat) /\
  (forall q q', (lo <= q)%nat -> (q < q' < hi)%nat -> (rank q' < rank q)%nat).

Lemma allOf_ok ex ps w :
  quiet w -> may_join w ps -> may_grow w ps ->
  exists w', allOf null call compose fuel ex (Some <$> ps) w = (Ok (length (promises w)), w') /\ quiet w'.
Proof.
  intros Hi Hps [Hbelow Hdesc]. unfold allOf. destruct (decide (ps = [])) as [->|Hne].
  - cbn [fmap list_fmap]. destruct (newPromise_ok ex w Hi) as [Hi1 _].
    pose proof (newPromise_lookup ex w) as Hq. set (q := length (promises w)) in *.
    set (w1 := set_promises _ w) in *. assert (newPromise null ex w = (Ok q, w1)) as E1 by done. mstep E1.
    destruct (completes_ok [] [] q (with_result null) w1 false true) as (b & w2 & E2 & Hi2 & _);
      [done|done|by eapply lookup_lt_Some|apply none_busy|].
    assert (complete (tryRun fuel) q null w1 = (Ok b, w2)) as E by exact E2. mstep E. by exists w2.
  - assert (forall A (x y : A), match Some <$> ps with [] => x | _ => y end = y) as -> by (by destruct ps).
    assert (0 < length ps)%nat by (destruct ps; [done|cbn; lia]). rewrite length_fmap.
    destruct (andTree_ok ex ps (length (promises w)) (length (promises w) + 2 * length ps)%nat Hps Hbelow Hdesc
      (S (length ps)) 0%nat (length ps - 1)%nat w Hi) as (w' & E & Hi' & _); [lia| |lia|lia|by exists w'].
    unfold tree_size. case_decide; lia.
Qed.

(** A request in order with [rank]: its promises are there and complete in the order of the ranks,
    an executor is given where one is needed. *)
Definition asks (w : world) (r : @request V) : Prop :=
  match r with
  | New _ | RunPending => True
  | Complete p _ | Cancel p => (p < length (promises w))%nat
  | CompleteExceptionally p e => (p < length (promises w))%nat /\ e <> None
  | Follow p s => (p < length (promises w))%nat /\
      exists s', s = Some s' /\ (s' < length (promises w))%nat /\ (rank s' < rank p)%nat
  | ThenApply p ex f | ThenApplyBi p ex f | ThenCompose p ex f | ThenComposeBi p ex f
  | ThenAccept p ex f | ThenAcceptBi p ex f | CatchException p ex f
  | CatchExceptionConsumer p ex f => may_depend w p ex f
  | ThenRun p ex f => exists f', f = Some f' /\ may_depend w p ex f'
  | AllOf _ ps => exists qs, ps = Some <$> qs /\ may_join w qs /\ may_grow w qs
  | AnyOf _ ps => exists qs, ps = Some <$> qs /\ may_join w qs /\
      Forall (fun p => (rank p < rank (length (promises w)))%nat) qs
  end.

Lemma perform_ok r w :
  quiet w -> asks w r -> exists w', perform null call compose fuel r w = (Ok tt, w') /\ quiet w'.
Proof.
  intros Hi Ha.
  assert (forall {A} (m : M world A), (exists a w', m w = (Ok a, w') /\ quiet w') ->
    exists w', (m;; mret tt) w = (Ok tt, w') /\ quiet w') as Hdone.
  { intros A m (a & w' & E & H). mstep E. by exists w'. }
  assert (forall p ex f k, may_depend w p ex f ->
    (forall q, suppliers (k q) = [p] /\ consumer (k q) = q /\ function (k q) = Some f) ->
    exists a w', dependent null call compose fuel p ex k w = (Ok a, w') /\ quiet w') as Hdep.
  { intros p ex f k Hd Hk. destruct (dependent_ok p ex f k w Hi Hd Hk) as (w' & E & H). by do 2 eexists. }
  destruct r; cbn [perform asks] in *; try apply Hdone.
  - do 2 eexists. split; [reflexivity|]. by apply newPromise_ok.
  - destruct (completes_ok [] [] p (with_result v) w false true) as (b & w' & E & Hi' & _);
      [done|done|done|apply none_busy|].
    exists b, w'. done.
  - destruct Ha as [Hp He]. destruct e as [e|]; [|done].
    destruct (completes_ok [] [] p (with_exception (Some e)) w false true) as (b & w' & E & Hi' & _);
      [done|done|done|apply none_busy|].
    exists b, w'. done.
  - destruct Ha as (Hp & s & -> & Hs & Hr).
    destruct (completeWith_ok fuel (tryRun fuel) (tryRun_ok fuel) [] [] w p s Hi Hp Hs Hr)
      as (w' & E & Hi' & _); [apply none_busy|lia|by exists true, w'].
  - destruct (cancel_ok p w Hi Ha) as (b & w' & E & Hi'). by exists b, w'.
  - by eapply Hdep; [exact Ha|].
  - by eapply Hdep; [exact Ha|].
  - by eapply Hdep; [exact Ha|].
  - by eapply Hdep; [exact Ha|].
  - by eapply Hdep; [exact Ha|].
  - by eapply Hdep; [exact Ha|].
  - destruct Ha as (f' & -> & Ha). unfold thenRun. destruct executor as [ex|]; [|by destruct Ha as (_ & ? & _)].
    by eapply (Hdep p (Some ex) f' (fun q => RunAction p q f')).
  - by eapply Hdep; [exact Ha|].
  - by eapply Hdep; [exact Ha|].
  - destruct Ha as (qs & -> & Hq & Hg). destruct (allOf_ok executor qs w Hi Hq Hg) as (w' & E & H). eauto.
  - destruct Ha as (qs & -> & Hq & Hr). destruct (anyOf_ok executor qs w Hi Hq Hr) as (w' & E & H). eauto.
  - by apply runPending_ok.
Qed.

(** ** Sessions *)

Fixpoint well_asked (w : world) (rs : list (@request V)) : Prop :=
  match rs with
  | [] => True
  | r :: rs => asks w r /\ well_asked (exec (perform null call compose fuel r) w) rs
  end.

(** What completes once the promises that are done are: the consumer of an action whose suppliers
    do, and, where the action follows the promise its function returned, that one too. *)
Inductive completes (w : world) : nat -> Prop :=
  | completes_now p : done w p -> completes w p
  | completes_after a x :
      actions w !! a = Some x -> (forall s, s ∈ suppliers (kind x) -> completes w s) ->
      (composes (kind x) = true -> forall b y u, actions w !! b = Some y ->
        kind y = RelayAction u (consumer (kind x)) -> completes w u) ->
      completes w (consumer (kind x)).

Lemma start_quiet : quiet start.
Proof. by split; intros *; rewrite ?lookup_nil; try done; intros []%not_elem_of_nil. Qed.

Lemma session_quiet rs : forall w, quiet w -> well_asked w rs -> quiet (session null call compose fuel rs w).
Proof.
  induction rs as [|r rs IH]; intros w Hi Ha; [done|]. destruct Ha as [Ha Has]. apply IH; [|done].
  destruct (perform_ok r w Hi Ha) as (w' & E & Hi'). unfold exec. by rewrite E.
Qed.

Lemma well_asked_app rs1 r rs2 w :
  well_asked w (rs1 ++ r :: rs2) ->
  well_asked w rs1 /\ asks (session null call compose fuel rs1 w) r.
Proof.
  revert w. induction rs1 as [|r1 rs1 IH]; intros w; cbn; [by intros [? _]|].
  intros [H1 H2]. destruct (IH _ H2). done.
Qed.

(** With nothing left to the executors, what should have completed has. *)
Lemma completes_done w p : quiet w -> pending w = [] -> completes w p -> done w p.
Proof.
  intros Hi Hpend H.
  assert (forall a x, actions w !! a = Some x -> (forall s, s ∈ suppliers (kind x) -> done w s) ->
    done w (consumer (kind x)) \/ composes (kind x) = true /\
      exists b y u, actions w !! b = Some y /\ kind y = RelayAction u (consumer (kind x))) as Hact.
  { intros a x Ha Hs. destruct (mClaim x) eqn:Hx.
    - destruct (inv_worked _ _ _ _ Hi a x Ha Hx) as [Hp|Hw]; [apply not_elem_of_nil| |exact Hw].
      rewrite Hpend in Hp. by apply not_elem_of_nil in Hp.
    - destruct (inv_held _ _ _ _ Hi a x Ha Hx) as (s & Hss & [(c & Hc & Hd)|[[]%not_elem_of_nil _]]);
        [apply not_elem_of_nil|].
      destruct (Hs s Hss) as (c' & Hc' & Hd'). congruence. }
  induction H as [|a x Ha _ IHs _ IHu]; [done|].
  destruct (Hact a x Ha IHs) as [H|(Hc & b & y & u & Hb & Hy)]; [done|].
  specialize (IHu Hc b y u Hb Hy). destruct (Hact b y Hb) as [H|[Hc' _]]; rewrite Hy in *; [|done|done].
  intros s ->%list_elem_of_singleton. done.
Qed.

(** C19: requests in order with the ranks, of functions that keep to them, each
    end without an error, an exception or a dangling iterator, however deep their completions
    nest; and once the executors have run what they were given, every promise that depends only on
    promises that are done is done. *)
Theorem promises_complete rs :
  well_asked start rs ->
  (forall rs1 r rs2, rs = rs1 ++ r :: rs2 ->
    fst (perform null call compose fuel r (session null call compose fuel rs1 start)) = Ok tt) /\
  (pending (session null call compose fuel rs start) = [] ->
    forall p, completes (session null call compose fuel rs start) p ->
      done (session null call compose fuel rs start) p).
Proof.
  intros Ha. split.
  - intros rs1 r rs2 ->. destruct (well_asked_app _ _ _ _ Ha) as [Ha1 Hr].
    destruct (perform_ok r _ (session_quiet rs1 start start_quiet Ha1) Hr) as (w' & E & _). by rewrite E.
  - intros Hp p. apply completes_done; [|done]. apply session_quiet; [apply start_quiet|done].
Qed.
End requests.
End completion.

(** *** An example: functions that complete, fail and compose *)

Definition idle_call (f : nat) (v : Z) (e : option exception) : M (@world Z) (answer Z) := mret (Returns v).
Definition idle_compose (f : nat) (v : Z) (e : option exception) : M (@world Z) (answer (option nat)) :=
  mret (Returns None).

(** Function 1 completes promise 1 with what it gets, function 3 throws, the others return what
    they get; the composing function returns promise 0. *)
Definition busy_call (f : nat) (v : Z) (e : option exception) : M (@world Z) (answer Z) :=
  if decide (f = 1%nat) then
    l ← gets promises;
    if decide (1 < length l)%nat then
      complete (tryRun 0 idle_call idle_compose 22) 1 v;; mret (Returns v)
    else mret (Returns v)
  else if decide (f = 3%nat) then mret ThrowsStd
  else mret (Returns v).
Definition compose_source (f : nat) (v : Z) (e : option exception) : M (@world Z) (answer (option nat)) :=
  l ← gets promises;
  mret (Returns (if decide (0 < length l)%nat then Some 0%nat else None)).

Definition example_rank (p : nat) : nat := nth p [0; 2; 1; 3; 4; 9; 8; 7; 6; 5]%nat 0%nat.
Definition example_level (f : nat) : nat := nth f [3; 1; 4; 5]%nat 9%nat.

Definition example_requests : list (@request Z) :=
  [New None; New None; ThenApply 0 (Some SYNCHRONOUS_EXECUTOR) 1;
   ThenApply 1 (Some (Asynchronous 7)) 0; ThenCompose 3 (Some SYNCHRONOUS_EXECUTOR) 2;
   AllOf None [Some 2%nat; Some 4%nat]; Complete 0 42; RunPending].

Lemma example_rank_top p : (example_rank p < 10)%nat.
Proof. unfold example_rank. do 10 (destruct p as [|p]; [cbn; lia|]). destruct p; cbn; lia. Qed.

Lemma idle_call_ok f v e B F w :
  inv example_rank example_level B F [] w -> (forall b, b ∈ B -> (example_rank b < example_level f)%nat) ->
  exists x w', idle_call f v e w = (Ok x, w') /\ inv example_rank example_level B F [] w' /\
    moves example_rank (example_level f) w w'.
Proof. intros Hi _. exists (Returns v), w. split; [done|split; [done|apply moves_preorder]]. Qed.

Lemma idle_compose_ok f v e B F w :
  inv example_rank example_level B F [] w -> (forall b, b ∈ B -> (example_rank b < example_level f)%nat) ->
  exists x w', idle_compose f v e w = (Ok x, w') /\ inv example_rank example_level B F [] w' /\
    moves example_rank (example_level f) w w' /\
    forall u, x = Returns (Some u) -> (u < length (promises w'))%nat /\ (example_rank u < example_level f)%nat.
Proof. intros Hi _. exists (Returns None), w. split; [done|split; [done|split; [apply moves_preorder|done]]]. Qed.

Lemma busy_call_ok f v e B F w :
  inv example_rank example_level B F [] w -> (forall b, b ∈ B -> (example_rank b < example_level f)%nat) ->
  exists x w', busy_call f v e w = (Ok x, w') /\ inv example_rank example_level B F [] w' /\
    moves example_rank (example_level f) w w'.
Proof.
  intros Hi HB.
  unfold busy_call. destruct (decide (f = 1%nat)) as [->|].
  - rewrite bind_gets. destruct (decide (1 < length (promises w))%nat) as [Hl|].
    2: { exists (Returns v), w. split; [done|split; [done|apply moves_preorder]]. }
    destruct (completes_ok 0 idle_call idle_compose example_rank 10 example_level example_rank_top
      idle_call_ok idle_compose_ok 22 ltac:(lia) B F 1 (with_result v) w false true) as (b & w' & E & Hi' & Hm).
    + done.
    + done.
    + done.
    + intros b Hb. specialize (HB b Hb). cbn in HB |- *. lia.
    + assert (complete (tryRun 0 idle_call idle_compose 22) 1 v w = (Ok b, w')) as E' by exact E.
      rewrite (bind_Ok _ _ _ _ _ E'). exists (Returns v), w'. split; [done|split; [done|]].
      apply moves_le with (example_rank 1); [cbn; lia|done].
  - destruct (decide (f = 3%nat)) as [->|].
    + exists ThrowsStd, w. split; [done|split; [done|apply moves_preorder]].
    + exists (Returns v), w. split; [done|split; [done|apply moves_preorder]].
Qed.

Lemma compose_source_ok f v e B F w :
  inv example_rank example_level B F [] w -> (forall b, b ∈ B -> (example_rank b < example_level f)%nat) ->
  exists x w', compose_source f v e w = (Ok x, w') /\ inv example_rank example_level B F [] w' /\
    moves example_rank (example_level f) w w' /\
    forall u, x = Returns (Some u) -> (u < length (promises w'))%nat /\ (example_rank u < example_level f)%nat.
Proof.
  intros Hi _. eexists _, w. split; [reflexivity|split; [done|split; [apply moves_preorder|]]].
  intros u [= E]. case_decide as Hl; [|done]. injection E as <-. split; [done|].
  unfold example_level. do 4 (destruct f as [|f]; [cbn; lia|]). cbn. destruct f; cbn; lia.
Qed.

Lemma example_tree (w : @world Z) :
  length (promises w) = 5%nat -> asks example_rank example_level w (AllOf None [Some 2%nat; Some 4%nat]).
Proof.
  intros Hl. exists [2%nat; 4%nat]. split; [done|split].
  { unfold may_join. rewrite Hl. repeat constructor. }
  unfold may_grow. rewrite Hl. cbn [length]. split.
  - intros p q Hp Hq. assert (q = 5 \/ q = 6 \/ q = 7 \/ q = 8)%nat as Hq' by lia.
    assert (p = 2 \/ p = 4)%nat as Hp' by set_solver.
    destruct Hp' as [->| ->], Hq' as [->|[->|[->| ->]]]; cbn; lia.
  - intros q q' Hq Hq'. assert (q = 5 \/ q = 6 \/ q = 7 \/ q = 8)%nat as H by lia.
    assert (q' = 6 \/ q' = 7 \/ q' = 8)%nat as H' by lia.
    destruct H as [->|[->|[->| ->]]], H' as [->|[->| ->]]; cbn; lia.
Qed.

Lemma example_asked :
  well_asked 0 busy_call compose_source example_rank example_level 22 start example_requests.
Proof.
  refine (conj I (conj I (conj _ (conj _ (conj _ (conj _ (conj _ (conj I I)))))))).
  4: { apply example_tree. vm_compute. reflexivity. }
  all: vm_compute; repeat split; try discriminate; lia.
Qed.

Lemma promises_complete_witness :
  fst (perform 0 busy_call compose_source 22 (Complete 0 42)
    (session 0 busy_call compose_source 22 (take 6 example_requests) start)) = Ok tt /\
  (pending (session 0 busy_call compose_source 22 example_requests start) = [] ->
    forall p, completes (session 0 busy_call compose_source 22 example_requests start) p ->
      done (session 0 busy_call compose_source 22 example_requests start) p) /\
  pending (session 0 busy_call compose_source 22 example_requests start) = [] /\
  mIsDone <$> promises (session 0 busy_call compose_source 22 example_requests start) =
    [true; true; true; true; true; true; false].
Proof.
  destruct (promises_complete 0 busy_call compose_source example_rank 10 example_level example_rank_top
    busy_call_ok compose_source_ok 22 ltac:(lia) example_requests example_asked) as [H1 H2].
  split; [|split; [exact H2|split; vm_compute; reflexivity]].
  apply (H1 (take 6 example_requests) (Complete 0 42) [RunPending]). reflexivity.
Defined.

End Completion.
