(* ===== verification/Packages.v ===== *)
(** * content/pm/PackageManagerService.cpp: the manifests of the installed packages

    The package manager reads a manifest per package and answers which service a component is.  An
    XML document is the tree the vendored parser makes of it; how that parser reads numbers and
    truth values is the class [XMLValues].  Strings of a manifest are lists of characters without
    a zero.  A [ServiceInfo] holds its [ApplicationInfo] by value: an application element changes
    it only before the services it contains are made, and the services of an earlier application
    element are dropped. *)

From S2P Require Import Prelude HashMaps Strings.
From stdpp Require Import gmap fin_maps.
Open Scope Z_scope.

Import CString Str.

(** A string of a manifest, as a [String] object. *)
Definition str (l : list Z) : String := Some l.

(** The package and the class. *)
(* content/ComponentName.h:110-111 ComponentName *)
Definition ComponentName : Type := list Z * list Z.

(* content/pm/ApplicationInfo.h:38-55 ApplicationInfo *)
Record ApplicationInfo := mkApplicationInfo {
  ai_packageName : list Z;
  ai_processName : option (list Z);
  ai_enabled : bool;
}.

(* content/pm/ComponentInfo.h:40-62 ComponentInfo *)
Record ServiceInfo := mkServiceInfo {
  name : list Z;
  packageName : list Z;
  applicationInfo : ApplicationInfo;
  processName : list Z;
  enabled : bool;
  flags : Z;
}.

(* content/pm/PackageInfo.h:42-66 PackageInfo *)
Record PackageInfo := mkPackageInfo {
  pi_packageName : list Z;
  versionCode : Z;
  versionName : list Z;
  pi_applicationInfo : ApplicationInfo;
  pi_services : option (list ServiceInfo);
}.

(* content/pm/ServiceInfo.h:39-39 ServiceInfo::FLAG_AUTO_START *)
Definition FLAG_AUTO_START : Z := 1.
(* content/pm/ServiceInfo.h:44-44 ServiceInfo::FLAG_SYSTEM_SERVICE *)
Definition FLAG_SYSTEM_SERVICE : Z := 0x40000000.

(* content/pm/ServiceInfo.h:52-54 ServiceInfo::hasFlag *)
Definition hasFlag (si : ServiceInfo) (flag : Z) : bool := Z.land (flags si) flag =? flag.

(* content/pm/ComponentInfo.h:67-69 ComponentInfo::isEnabled *)
Definition isEnabled (si : ServiceInfo) : bool := enabled si && ai_enabled (applicationInfo si).

(** What the service manager and the processes ask of the package manager. *)
Class PackageManager := { resolve : ComponentName -> option ServiceInfo }.

(** ** Documents *)

Inductive XMLElement := mkElement {
  Name : list Z;
  attributes : list (list Z * list Z);
  children : list XMLElement;
}.

Class XMLValues := { BoolValue : list Z -> bool; IntValue : list Z -> Z }.

Definition FindAttribute (e : XMLElement) (n : string) : option (list Z) :=
  snd <$> head (filter (fun a => fst a = chars n) (attributes e)).

Definition named (n : string) (e : XMLElement) : bool := bool_decide (Name e = chars n).

Module PackageManagerService.
Section service.
Context {values : XMLValues} `{!IterationOrder (list Z) PackageInfo}.

Definition value_of (s : sp) : option (list Z) := match s with Some l => l | None => None end.

(** The name relative to the package: [.Class] or [package.Class]. *)
(* content/pm/PackageManagerService.cpp:230-242 PackageManagerService::parseService *)
Definition parseName (pkg value : list Z) : result (option (list Z)) :=
  b ← startsWith_chars (str value) (Some (chars "." ++ [0]));
  if b : bool then s ← substring_from (str value) 1; Ok (value_of s)
  else
    b ← startsWith (str value) (Some (str pkg));
    if b : bool then s ← substring_from (str value) (length (str pkg) + 1); Ok (value_of s)
    else Ok None.

(* content/pm/PackageManagerService.cpp:224-271 PackageManagerService::parseService *)
Definition parseService (ai : ApplicationInfo) (serviceNode : XMLElement) : result (option ServiceInfo) :=
  n ← match FindAttribute serviceNode "mindroid:name" with
      | Some value => parseName (ai_packageName ai) value
      | None => Ok None
      end;
  let process := default (ai_packageName ai) (FindAttribute serviceNode "mindroid:process") in
  let on := from_option BoolValue true (FindAttribute serviceNode "mindroid:enabled") in
  let autostart := from_option BoolValue false (FindAttribute serviceNode "mindroid:autostart") in
  match n with
  | None | Some [] => Ok None
  | Some n => Ok (Some (mkServiceInfo n (ai_packageName ai) ai process on
      (if autostart : bool then FLAG_AUTO_START else 0)))
  end.

(* content/pm/PackageManagerService.cpp:211-219 PackageManagerService::parseApplication *)
Fixpoint parseServices (ai : ApplicationInfo) (es : list XMLElement) : result (list ServiceInfo) :=
  match es with
  | [] => Ok []
  | e :: es =>
      if named "service" e then
        si ← parseService ai e;
        sis ← parseServices ai es;
        Ok (match si with Some si => si :: sis | None => sis end)
      else parseServices ai es
  end.

(** The application with its changes, and its services. *)
(* content/pm/PackageManagerService.cpp:199-222 PackageManagerService::parseApplication *)
Definition parseApplication (ai : ApplicationInfo) (applicationNode : XMLElement) :
    result (ApplicationInfo * list ServiceInfo) :=
  let process := match FindAttribute applicationNode "process" with
                 | Some v => Some v | None => ai_processName ai end in
  let on := from_option BoolValue (ai_enabled ai) (FindAttribute applicationNode "enabled") in
  let ai := mkApplicationInfo (ai_packageName ai) process on in
  sis ← parseServices ai (children applicationNode);
  Ok (ai, sis).

(* content/pm/PackageManagerService.cpp:181-187 PackageManagerService::parseManifest *)
Fixpoint parseApplications (ai : ApplicationInfo) (sis : option (list ServiceInfo)) (es : list XMLElement) :
    result (ApplicationInfo * option (list ServiceInfo)) :=
  match es with
  | [] => Ok (ai, sis)
  | e :: es =>
      if named "application" e then
        x ← parseApplication ai e;
        parseApplications (fst x) (Some (snd x)) es
      else parseApplications ai sis es
  end.

(** A file that is no XML document has no root; [rootNode] is the manifest element. *)
(* content/pm/PackageManagerService.cpp:147-197 PackageManagerService::parseManifest *)
Definition parseManifest (doc : option (list XMLElement)) : result (option PackageInfo) :=
  match doc ≫= fun es => head (filter (fun e => Is_true (named "manifest" e)) es) with
  | None => Ok None
  | Some rootNode =>
      match FindAttribute rootNode "package" with
      | None | Some [] => Ok None
      | Some pkg =>
          let code := from_option (fun v => i32 (IntValue v)) 0 (FindAttribute rootNode "mindroid:versionCode") in
          let version := default [] (FindAttribute rootNode "mindroid:versionName") in
          x ← parseApplications (mkApplicationInfo pkg None true) None (children rootNode);
          Ok (Some (mkPackageInfo pkg code version (fst x) (snd x)))
      end
  end.

(* content/pm/PackageManagerService.h:85-86 PackageManagerService *)
Record PackageManagerService := mkService {
  mPackages : gmap (list Z) PackageInfo;
  mComponents : gmap ComponentName ServiceInfo;
}.

(* content/pm/PackageManagerService.h:39-42 PackageManagerService::PackageManagerService *)
Definition empty : PackageManagerService := mkService ∅ ∅.

(* content/pm/PackageManagerService.cpp:54-55 PackageManagerService::onCreate *)
Definition add_service (cs : gmap ComponentName ServiceInfo) (si : ServiceInfo) :
    gmap ComponentName ServiceInfo :=
  <[(packageName si, name si) := si]> cs.

(** The manifests of the directory, in the order in which it lists them.  A manifest without an
    application has no list of services. *)
(* content/pm/PackageManagerService.cpp:44-59 PackageManagerService::onCreate *)
Fixpoint onCreate (docs : list (option (list XMLElement))) (s : PackageManagerService) :
    result PackageManagerService :=
  match docs with
  | [] => Ok s
  | doc :: docs =>
      pi ← parseManifest doc;
      match pi with
      | None => onCreate docs s
      | Some pi =>
          sis ← deref (pi_services pi);
          onCreate docs (mkService (<[pi_packageName pi := pi]> (mPackages s))
            (foldl add_service (mComponents s) sis))
      end
  end.

(* content/pm/PackageManagerService.cpp:135-145 PackageManagerService::resolveService *)
Definition resolveService (s : PackageManagerService) (component : ComponentName) : option ServiceInfo :=
  mComponents s !! component.

(* content/pm/PackageManager.h:48-48 PackageManager::GET_SERVICES *)
Definition GET_SERVICES : Z := 4.

(** The values of [mPackages], in the order of its iterator. *)
Definition packages (s : PackageManagerService) : list PackageInfo := snd <$> entries (mPackages s).

(* content/pm/PackageManagerService.cpp:120-133 PackageManagerService::getInstalledPackages *)
Definition getInstalledPackages (s : PackageManagerService) (flags : Z) : option (list PackageInfo) :=
  if Z.land flags GET_SERVICES =? GET_SERVICES then
    if decide (packages s = []) then None else Some (packages s)
  else None.

(** The components [onStartCommand] starts or stops; [p] is what it looks for. *)
(* content/pm/PackageManagerService.cpp:64-114 PackageManagerService::onStartCommand *)
Definition applications (p : ServiceInfo -> bool) (s : PackageManagerService) : list ComponentName :=
  pi ← default [] (getInstalledPackages s GET_SERVICES);
  si ← filter (fun si => Is_true (p si)) (default [] (pi_services pi));
  [(packageName si, name si)].

(* content/pm/PackageManagerService.cpp:79-84 PackageManagerService::onStartCommand *)
Definition started : PackageManagerService -> list ComponentName :=
  applications (fun si => isEnabled si && hasFlag si FLAG_AUTO_START).
(* content/pm/PackageManagerService.cpp:101-105 PackageManagerService::onStartCommand *)
Definition shut_down : PackageManagerService -> list ComponentName := applications isEnabled.

(** What the others ask of it. *)
Definition manager (s : PackageManagerService) : PackageManager := {| resolve := resolveService s |}.

End service.
(** ** What a component resolves to *)

Section resolution.
Context {values : XMLValues}.

(** The packages of the documents that have a manifest with a name. *)
Fixpoint parsed (docs : list (option (list XMLElement))) : result (list PackageInfo) :=
  match docs with
  | [] => Ok []
  | doc :: docs => pi ← parseManifest doc; pis ← parsed docs; Ok (option_list pi ++ pis)
  end.

Definition declared (pis : list PackageInfo) : list ServiceInfo := pis ≫= fun pi => default [] (pi_services pi).
Definition component (si : ServiceInfo) : ComponentName := (packageName si, name si).

Lemma add_services cs sis c :
  foldl add_service cs sis !! c =
    match last (filter (fun si => component si = c) sis) with Some si => Some si | None => cs !! c end.
Proof.
  induction sis as [|si sis IH] using rev_ind; [done|].
  rewrite foldl_app, filter_app. cbn [foldl]. unfold add_service at 1.
  destruct (decide (component si = c)) as [<-|Hne].
  - rewrite filter_cons_True, filter_nil, last_snoc by done. apply lookup_insert_eq.
  - rewrite filter_cons_False, filter_nil, app_nil_r by done. rewrite lookup_insert_ne; [exact IH|done].
Qed.

Lemma onCreate_components docs s s' :
  onCreate docs s = Ok s' ->
  exists pis, parsed docs = Ok pis /\ mComponents s' = foldl add_service (mComponents s) (declared pis).
Proof.
  revert s. induction docs as [|doc docs IH]; intros s; cbn [onCreate parsed]; [intros [= ->]; by exists []|].
  intros (pi & -> & Hrest)%result_bind_Ok. destruct pi as [pi|].
  - apply result_bind_Ok in Hrest as (sis & Hs & Hrest). destruct (IH _ Hrest) as (pis & -> & E).
    exists (pi :: pis). split; [done|]. rewrite E. cbn. destruct (pi_services pi); [|done].
    injection Hs as ->. by rewrite <- foldl_app.
  - destruct (IH _ Hrest) as (pis & -> & E). by exists pis.
Qed.

(** once the manifests are read, a component resolves to the service that
    the last of them declares for it, in the order of the documents and of the elements in each,
    and to none if none does. *)
Theorem resolve_declared docs s c :
  onCreate docs empty = Ok s ->
  exists pis, parsed docs = Ok pis /\
    resolveService s c = last (filter (fun si => component si = c) (declared pis)).
Proof.
  intros H. destruct (onCreate_components docs empty s H) as (pis & E & Hc). exists pis. split; [done|].
  unfold resolveService. rewrite Hc, add_services. cbn. rewrite lookup_empty. by case_match.
Qed.

(** [.Class], [package.Class], or nothing of this package. *)
Lemma parseName_ok pkg v :
  clean pkg -> clean v ->
  parseName pkg v =
    if decide ([46] `prefix_of` v) then Ok (Some (tail v))
    else if decide (pkg `prefix_of` v) then
      if decide (v = pkg) then Throw IndexOutOfBoundsException
      else Ok (Some (drop (S (List.length pkg)) v))
    else Ok None.
Proof.
  intros Hp Hv. unfold parseName, str, value_of.
  assert (startsWith_chars (Some v) (Some (chars "." ++ [0])) = startsWith (Some v) (Some (Some [46]))) as -> by done.
  rewrite !startsWith_ok by (done || decided). cbn [mbind result_bind].
  case_bool_decide as H1; [rewrite decide_True by done|rewrite decide_False by done].
  { destruct H1 as [n ->]. rewrite substring_from_ok; [done|]. cbn. lia. }
  case_bool_decide as H2; [rewrite decide_True by done|by rewrite decide_False by done].
  destruct H2 as [n ->]. unfold length, default, id. cbn [from_option].
  destruct n as [|c n].
  - rewrite app_nil_r, decide_True by done. unfold substring_from, length, default, id. cbn [from_option].
    by rewrite (proj2 (Z.ltb_lt _ _)) by lia.
  - rewrite decide_False by (intros H; apply (f_equal List.length) in H; rewrite length_app in H; cbn in H; lia).
    rewrite substring_from_ok by (rewrite length_app; cbn; lia).
    by replace (Z.to_nat (Z.of_nat (List.length pkg) + 1)) with (S (List.length pkg)) by lia.
Qed.

(** A service is named by [.Class] or by [package.Class], and gets the package's process, the
    enabled state and the flags of its element. *)
Lemma parseService_ok ai e n v :
  clean (ai_packageName ai) -> clean v -> n <> [] -> FindAttribute e "mindroid:name" = Some v ->
  v = chars "." ++ n \/ (~ [46] `prefix_of` v /\ v = ai_packageName ai ++ chars "." ++ n) ->
  parseService ai e = Ok (Some (mkServiceInfo n (ai_packageName ai) ai
    (default (ai_packageName ai) (FindAttribute e "mindroid:process"))
    (from_option BoolValue true (FindAttribute e "mindroid:enabled"))
    (if from_option BoolValue false (FindAttribute e "mindroid:autostart") then FLAG_AUTO_START else 0))).
Proof.
  intros Hp Hv Hn He H. unfold parseService. rewrite He, parseName_ok by done.
  assert (exists k, (if decide ([46] `prefix_of` v) then Ok (Some (tail v))
    else if decide (ai_packageName ai `prefix_of` v) then
      if decide (v = ai_packageName ai) then Throw IndexOutOfBoundsException
      else Ok (Some (drop (S (List.length (ai_packageName ai))) v))
    else Ok None) = Ok (Some k) /\ k = n) as (k & -> & ->).
  { destruct H as [->|[H1 E]].
    - rewrite decide_True by (by apply prefix_app_r). by eexists.
    - rewrite decide_False by done. subst v. rewrite decide_True by (by apply prefix_app_r).
      rewrite decide_False by (intros H; apply (f_equal List.length) in H; rewrite length_app in H; cbn in H; lia).
      eexists. split; [done|]. rewrite drop_app_ge by lia.
      by replace (S (List.length (ai_packageName ai)) - List.length (ai_packageName ai))%nat with 1%nat by lia. }
  cbn [mbind result_bind]. by destruct n.
Qed.

(** A manifest that names a service by its package alone is an exception, one without an
    application a null pointer. *)
Lemma parseService_package ai e :
  clean (ai_packageName ai) -> ~ [46] `prefix_of` ai_packageName ai ->
  FindAttribute e "mindroid:name" = Some (ai_packageName ai) ->
  parseService ai e = Throw IndexOutOfBoundsException.
Proof.
  intros Hp Hd He. unfold parseService. rewrite He, parseName_ok by done.
  by rewrite decide_False, decide_True, decide_True by done.
Qed.

Lemma manifest_without_application pkg root docs s :
  FindAttribute root "package" = Some pkg -> pkg <> [] -> named "manifest" root = true ->
  Forall (fun e => named "application" e = false) (children root) ->
  onCreate (Some [root] :: docs) s = Undef.
Proof.
  intros Hp Hne Hn Ha. cbn [onCreate]. unfold parseManifest. cbn [mbind option_bind].
  rewrite filter_cons_True by (by rewrite Hn). cbn [head]. rewrite Hp. destruct pkg as [|c pkg]; [done|].
  assert (forall ai sis, parseApplications ai sis (children root) = Ok (ai, sis)) as ->; [|done].
  intros ai sis. induction Ha as [|e es He _ IH]; [done|]. cbn [parseApplications]. by rewrite He.
Qed.
End resolution.

(** *** An example *)

#[local] Instance example_values : XMLValues :=
  {| BoolValue := fun l => bool_decide (l = chars "true"); IntValue := fun _ => 0 |}.

Definition service_element (n : string) : XMLElement :=
  mkElement (chars "service") [(chars "mindroid:name", chars n); (chars "mindroid:autostart", chars "true")] [].
Definition manifest (pkg : string) (ns : list string) : option (list XMLElement) :=
  Some [mkElement (chars "manifest") [(chars "package", chars pkg)]
    [mkElement (chars "application") [] (service_element <$> ns)]].

Definition example_docs : list (option (list XMLElement)) :=
  [manifest "a" [".A"; "a.B"; "other.C"]; None; manifest "b" [".A"]].

Lemma resolve_declared_witness :
  exists s, onCreate example_docs empty = Ok s /\
    started s = [(chars "b", chars "A"); (chars "a", chars "A"); (chars "a", chars "B")] /\
    exists pis, parsed example_docs = Ok pis /\
      resolveService s (chars "a", chars "B") =
        last (filter (fun si => component si = (chars "a", chars "B")) (declared pis)).
Proof.
  eexists. split; [vm_compute; reflexivity|split; [vm_compute; reflexivity|]].
  apply resolve_declared. vm_compute. reflexivity.
Defined.

End PackageManagerService.
