(* ===== verification/Services.v ===== *)
(** * os/ServiceManager.cpp, os/Process.cpp: services and the processes that run them

    The service manager keeps a table of service records and one of process records.  It runs on
    its own thread and tells the processes, threads too, what to do by one-way binder calls:
    messages on the process' queue.  A process answers through a callback, a message on the
    manager's queue.  A third thread, the process manager's, stops processes that are no longer
    needed.  Queues are first in, first out: all messages are sent for now, and [MessageQueues]
    delivers messages of equal times in the order they were sent.

    Records and promises are objects of the store [world]; a process is an object with its queue
    and its services.  [ServiceManager.step] interleaves the clients and the threads, one message
    at a time.  An intent is a value: it is assumed that the application makes one for each
    request. *)

From S2P Require Import Prelude HashMaps Strings Packages.
From stdpp Require Import gmap fin_maps.
Open Scope Z_scope.

(** The classes of services there are. *)
Class Classes := { instantiates : list Z -> bool }.

(** The component and the extras the service manager reads. *)
(* content/Intent.h:680-682 Intent *)
Record Intent := mkIntent {
  getComponent : ComponentName;
  systemService : bool;
  nameExtra : option (list Z);
  processExtra : option (list Z);
}.

(** The messages a process gets; a callback is a number. *)
(* os/IProcess.h:110-114 Process::Stub *)
Inductive ProcessMessage :=
  | MSG_CREATE_SERVICE (intent : Intent) (callback : nat)
  | MSG_START_SERVICE (intent : Intent) (flags startId : Z) (callback : nat)
  | MSG_STOP_SERVICE (intent : Intent) (callback : option nat)
  | MSG_BIND_SERVICE (intent : Intent) (conn : nat) (flags : Z) (callback : nat)
  | MSG_UNBIND_SERVICE (intent : Intent) (callback : option nat).

(** Requests to the service manager. *)
(* os/IServiceManager.h:113-118 ServiceManager::Stub *)
Inductive request :=
  | MSG_START (service : Intent)
  | MSG_STOP (service : Intent)
  | MSG_BIND (service : Intent) (conn : nat) (flags : Z) (callback : nat)
  | MSG_UNBIND (service : Intent) (conn : nat)
  | MSG_START_SYSTEM (service : Intent)
  | MSG_STOP_SYSTEM (service : Intent).

(** What a promise of the service manager is completed with. *)
Inductive reply := Started (component : option ComponentName) | Answer (b : bool).

(** The listeners behind the callbacks: those the service manager makes, with what they capture,
    and that of a client that binds to a service. *)
(* os/ServiceManager.cpp:484-516 ServiceManager::startService *)
Inductive OnResultListener :=
  | OnCreated (mService : Intent)
  | OnStarted (mComponentName : ComponentName) (mPromise : nat)
  | OnStopped (mPromise : nat)
  | OnBound.

(** What happens to the instance of a service. *)
Inductive lifecycle := Created | StartCommand (startId : Z) | BoundTo | Unbound | Destroyed.

(* os/Process.h:70-76 Process *)
Record Process := mkProcess {
  mName : list Z;
  mServices : gset ComponentName;
  mQueue : list ProcessMessage;
  mQuitting : bool;
}.

(* os/ServiceManager.h:68-70 ServiceManager::ProcessRecord *)
Record ProcessRecord := mkProcessRecord {
  pr_name : list Z;
  process : nat;
  services : gmap ComponentName nat;
}.

(* os/ServiceManager.h:82-87 ServiceManager::ServiceRecord *)
Record ServiceRecord := mkServiceRecord {
  sr_name : list Z;
  processRecord : nat;
  sr_systemService : bool;
  alive : bool;
  running : bool;
  serviceConnections : list nat;
}.

(** The service manager's queue: requests, and results for its callbacks. *)
Inductive ManagerMessage := Request (r : request) | Result (callback : nat) (result : bool).

(** The fields of the service manager ([mServices] is [mRecords] here), of the process manager, and the
    objects.  [stopping]: the processes the process manager has to stop, and the one it is stopping;
    [bound]: the results clients got from their callbacks. *)
(* os/ServiceManager.h:160-167 ServiceManager *)
Record world := mkWorld {
  mProcesses : gmap (list Z) nat;
  mRecords : gmap ComponentName nat;
  mServiceCallbacks : list nat;
  mStartId : Z;
  pm_mProcesses : gmap (list Z) nat;
  pm_mHandler : list nat;
  stopping : option nat;
  mHandler : list ManagerMessage;
  processes : list Process;
  processRecords : list ProcessRecord;
  serviceRecords : list ServiceRecord;
  listeners : list OnResultListener;
  promises : list (option reply);
  bound : list (nat * bool);
  events : list (nat * ComponentName * lifecycle);
}.

(** ** The store *)

Section store.

Definition set_tables (ps : gmap (list Z) nat) (rs : gmap ComponentName nat) (w : world) : world :=
  mkWorld ps rs (mServiceCallbacks w) (mStartId w) (pm_mProcesses w) (pm_mHandler w) (stopping w) (mHandler w)
    (processes w) (processRecords w) (serviceRecords w) (listeners w) (promises w) (bound w) (events w).
Definition set_callbacks (l : list nat) (w : world) : world :=
  mkWorld (mProcesses w) (mRecords w) l (mStartId w) (pm_mProcesses w) (pm_mHandler w) (stopping w) (mHandler w)
    (processes w) (processRecords w) (serviceRecords w) (listeners w) (promises w) (bound w) (events w).
Definition set_startId (i : Z) (w : world) : world :=
  mkWorld (mProcesses w) (mRecords w) (mServiceCallbacks w) i (pm_mProcesses w) (pm_mHandler w) (stopping w) (mHandler w)
    (processes w) (processRecords w) (serviceRecords w) (listeners w) (promises w) (bound w) (events w).
Definition set_pm (ps : gmap (list Z) nat) (h : list nat) (st : option nat) (w : world) : world :=
  mkWorld (mProcesses w) (mRecords w) (mServiceCallbacks w) (mStartId w) ps h st (mHandler w)
    (processes w) (processRecords w) (serviceRecords w) (listeners w) (promises w) (bound w) (events w).
Definition set_mHandler (h : list ManagerMessage) (w : world) : world :=
  mkWorld (mProcesses w) (mRecords w) (mServiceCallbacks w) (mStartId w) (pm_mProcesses w) (pm_mHandler w) (stopping w) h
    (processes w) (processRecords w) (serviceRecords w) (listeners w) (promises w) (bound w) (events w).
Definition set_processes (l : list Process) (w : world) : world :=
  mkWorld (mProcesses w) (mRecords w) (mServiceCallbacks w) (mStartId w) (pm_mProcesses w) (pm_mHandler w) (stopping w) (mHandler w)
    l (processRecords w) (serviceRecords w) (listeners w) (promises w) (bound w) (events w).
Definition set_records (ps : list ProcessRecord) (ss : list ServiceRecord) (w : world) : world :=
  mkWorld (mProcesses w) (mRecords w) (mServiceCallbacks w) (mStartId w) (pm_mProcesses w) (pm_mHandler w) (stopping w) (mHandler w)
    (processes w) ps ss (listeners w) (promises w) (bound w) (events w).
Definition set_answers (ls : list OnResultListener) (ps : list (option reply)) (b : list (nat * bool)) (w : world) : world :=
  mkWorld (mProcesses w) (mRecords w) (mServiceCallbacks w) (mStartId w) (pm_mProcesses w) (pm_mHandler w) (stopping w) (mHandler w)
    (processes w) (processRecords w) (serviceRecords w) ls ps b (events w).
Definition set_events (l : list (nat * ComponentName * lifecycle)) (w : world) : world :=
  mkWorld (mProcesses w) (mRecords w) (mServiceCallbacks w) (mStartId w) (pm_mProcesses w) (pm_mHandler w) (stopping w) (mHandler w)
    (processes w) (processRecords w) (serviceRecords w) (listeners w) (promises w) (bound w) l.

(** [*p]: the object behind a pointer. *)
Definition deref {A} (f : world -> list A) (i : nat) : M world A := fun w =>
  match f w !! i with Some a => (Ok a, w) | None => (Undef, w) end.

Definition update_process (i : nat) (f : Process -> Process) : M world unit :=
  p ← deref processes i; modify (fun w => set_processes (<[i := f p]> (processes w)) w).
Definition update_processRecord (i : nat) (f : ProcessRecord -> ProcessRecord) : M world unit :=
  r ← deref processRecords i;
  modify (fun w => set_records (<[i := f r]> (processRecords w)) (serviceRecords w) w).
Definition update_serviceRecord (i : nat) (f : ServiceRecord -> ServiceRecord) : M world unit :=
  r ← deref serviceRecords i;
  modify (fun w => set_records (processRecords w) (<[i := f r]> (serviceRecords w)) w).

End store.

(** [new Promise()], [new Promise(v)], [complete]. *)
Definition newPromise (v : option reply) : M world nat := fun w =>
  (Ok (length (promises w)), set_answers (listeners w) (promises w ++ [v]) (bound w) w).
Definition complete (p : nat) (v : reply) : M world unit :=
  o ← deref promises p;
  match o with
  | Some _ => mret tt
  | None => modify (fun w => set_answers (listeners w) (<[p := Some v]> (promises w)) (bound w) w)
  end.

(** A callback the service manager waits for. *)
Definition newCallback (l : OnResultListener) : M world nat := fun w =>
  (Ok (length (listeners w)),
   set_callbacks (mServiceCallbacks w ++ [length (listeners w)])
     (set_answers (listeners w ++ [l]) (promises w) (bound w) w)).

(** [ArrayList::remove] of the first equal element. *)
Fixpoint remove_first (x : nat) (l : list nat) : list nat :=
  match l with [] => [] | y :: l => if decide (x = y) then l else y :: remove_first x l end.

Definition occurs (p : nat) (c : ComponentName) (e : lifecycle) : M world unit :=
  modify (fun w => set_events (events w ++ [(p, c, e)]) w).

(** [sendResult]: a message to the thread that made the callback, the service manager's or a
    client's. *)
(* os/IRemoteCallback.cpp:38-40 RemoteCallback::Stub::Proxy::sendResult *)
Definition sendResult (callback : nat) (result : bool) : M world unit :=
  l ← deref listeners callback;
  match l with
  | OnBound => modify (fun w => set_answers (listeners w) (promises w) (bound w ++ [(callback, result)]) w)
  | _ => modify (fun w => set_mHandler (mHandler w ++ [Result callback result]) w)
  end.

(** The name of a class as [Class::forName] takes it. *)
Definition className (c : ComponentName) : list Z := fst c ++ CString.chars "::" ++ snd c.

(** ** Processes *)

Module ProcessImpl.
Section process.
Context `{!Classes} `{!PackageManager}.

Definition set_services (s : gset ComponentName) (p : Process) : Process :=
  mkProcess (mName p) s (mQueue p) (mQuitting p).
Definition set_queue (q : list ProcessMessage) (p : Process) : Process :=
  mkProcess (mName p) (mServices p) q (mQuitting p).

(** A one-way call: a message on the queue of the process, refused once it quits. *)
(* os/IProcess.cpp:79-128 Process::Stub::Proxy *)
Definition send (p : nat) (m : ProcessMessage) : M world unit :=
  c ← deref processes p;
  if mQuitting c then throw RemoteException else update_process p (fun c => set_queue (mQueue c ++ [m]) c).

Definition has_service (p : nat) (c : ComponentName) : M world bool :=
  x ← deref processes p; mret (bool_decide (c ∈ mServices x)).

(** Whether [newInstance] makes a service; the callback learns it. *)
(* os/Process.cpp:102-128 Process::ProcessImpl::createService *)
Definition creates (intent : Intent) : bool :=
  let c := getComponent intent in
  if systemService intent then instantiates (className c)
  else match resolve c with
       | Some serviceInfo => isEnabled serviceInfo && instantiates (className c)
       | None => false
       end.

(* os/Process.cpp:97-145 Process::ProcessImpl::createService *)
Definition createService (p : nat) (intent : Intent) (callback : nat) : M world unit :=
  let c := getComponent intent in
  (if creates intent then
    occurs p c Created;;
    update_process p (fun x => set_services ({[c]} ∪ mServices x) x)
  else mret tt);;
  sendResult callback (creates intent).

(* os/Process.cpp:147-163 Process::ProcessImpl::startService *)
Definition startService (p : nat) (intent : Intent) (flags startId : Z) (callback : nat) : M world unit :=
  b ← has_service p (getComponent intent);
  (if b : bool then occurs p (getComponent intent) (StartCommand startId) else mret tt);;
  sendResult callback b.

Definition answer (callback : option nat) (b : bool) : M world unit :=
  match callback with Some callback => sendResult callback b | None => mret tt end.

(** The connections the service leaves open are unbound by requests of its own. *)
(* os/Process.cpp:165-195 Process::ProcessImpl::stopService *)
Definition stopService (p : nat) (intent : Intent) (callback : option nat) : M world unit :=
  let c := getComponent intent in
  b ← has_service p c;
  (if b : bool then
    occurs p c Destroyed;;
    update_process p (fun x => set_services (mServices x ∖ {[c]}) x)
  else mret tt);;
  answer callback b.

(* os/Process.cpp:197-214 Process::ProcessImpl::bindService *)
Definition bindService (p : nat) (intent : Intent) (conn : nat) (flags : Z) (callback : nat) : M world unit :=
  b ← has_service p (getComponent intent);
  (if b : bool then occurs p (getComponent intent) BoundTo else mret tt);;
  sendResult callback b.

(* os/Process.cpp:216-238 Process::ProcessImpl::unbindService *)
Definition unbindService (p : nat) (intent : Intent) (callback : option nat) : M world unit :=
  b ← has_service p (getComponent intent);
  (if b : bool then occurs p (getComponent intent) Unbound else mret tt);;
  answer callback b.

(* os/IProcess.cpp:29-77 Process::Stub::onTransact *)
Definition onTransact (p : nat) (m : ProcessMessage) : M world unit :=
  match m with
  | MSG_CREATE_SERVICE intent callback => createService p intent callback
  | MSG_START_SERVICE intent flags startId callback => startService p intent flags startId callback
  | MSG_STOP_SERVICE intent callback => stopService p intent callback
  | MSG_BIND_SERVICE intent conn flags callback => bindService p intent conn flags callback
  | MSG_UNBIND_SERVICE intent callback => unbindService p intent callback
  end.

(** The thread of a process takes the next message. *)
Definition loop (p : nat) : M world unit :=
  x ← deref processes p;
  match mQueue x with
  | [] => mret tt
  | m :: q => update_process p (set_queue q);; onTransact p m
  end.

(** An intent with nothing but a component. *)
Definition intent_of (c : ComponentName) : Intent := mkIntent c false None None.

Fixpoint stop_all (p : nat) (cs : list ComponentName) : M world unit :=
  match cs with
  | [] => mret tt
  | c :: cs => send p (MSG_STOP_SERVICE (intent_of c) None);; stop_all p cs
  end.

(** The first half of [stop], up to the wait for the services. *)
(* os/Process.cpp:51-73 Process::stop *)
Definition stop (p : nat) : M world unit :=
  x ← deref processes p;
  rethrow_as (fun e => bool_decide (e = RemoteException)) RuntimeException (stop_all p (elements (mServices x))).

(** The second half, when the services are gone or the time is up: the queue drops what is left. *)
(* os/Process.cpp:75-85 Process::stop *)
Definition quit (p : nat) : M world unit :=
  update_process p (fun x => mkProcess (mName x) (mServices x) [] true).
End process.
End ProcessImpl.

(** ** The process manager *)

Module ProcessManager.

(* os/Process.cpp:35-49 Process::Process *)
Definition newProcess (name : list Z) : M world nat := fun w =>
  (Ok (length (processes w)), set_processes (processes w ++ [mkProcess name ∅ [] false]) w).

(* os/ServiceManager.cpp:63-74 ServiceManager::ProcessManager::startProcess *)
Definition startProcess (name : list Z) : M world nat :=
  ps ← gets pm_mProcesses;
  match ps !! name with
  | None =>
      p ← newProcess name;
      modify (fun w => set_pm (<[name := p]> (pm_mProcesses w)) (pm_mHandler w) (stopping w) w);;
      mret p
  | Some p => mret p
  end.

(* os/ServiceManager.cpp:76-88 ServiceManager::ProcessManager::stopProcess *)
Definition stopProcess (name : list Z) : M world bool :=
  ps ← gets pm_mProcesses;
  modify (fun w => set_pm (delete name (pm_mProcesses w)) (pm_mHandler w) (stopping w) w);;
  match ps !! name with
  | Some p => modify (fun w => set_pm (pm_mProcesses w) (pm_mHandler w ++ [p]) (stopping w) w);; mret true
  | None => mret false
  end.
End ProcessManager.

(** ** The service manager *)

Module ServiceManager.
Section manager.
Context `{!Classes} `{!PackageManager}.

(** A pointer that must not be null. *)
Definition unwrap {A} (o : option A) : M world A :=
  match o with Some a => mret a | None => undefined end.

(** [try { ... } catch (const RemoteException& e) { throw RuntimeException("System failure", e); }] *)
Definition or_failure {A} (m : M world A) : M world A :=
  rethrow_as (fun e => bool_decide (e = RemoteException)) RuntimeException m.

(* os/ServiceManager.cpp:107-111 ServiceManager::ProcessRecord::ProcessRecord *)
Definition newProcessRecord (name : list Z) (p : nat) : M world nat := fun w =>
  (Ok (length (processRecords w)),
   set_records (processRecords w ++ [mkProcessRecord name p ∅]) (serviceRecords w) w).

(* os/ServiceManager.cpp:133-140 ServiceManager::ServiceRecord::ServiceRecord *)
Definition newServiceRecord (name : list Z) (i : nat) (system : bool) : M world nat := fun w =>
  (Ok (length (serviceRecords w)),
   set_records (processRecords w) (serviceRecords w ++ [mkServiceRecord name i system false false []]) w).

(* os/ServiceManager.cpp:113-115 ServiceManager::ProcessRecord::addService *)
Definition addService (c : ComponentName) (r : nat) (pr : ProcessRecord) : ProcessRecord :=
  mkProcessRecord (pr_name pr) (process pr) (<[c := r]> (services pr)).
(* os/ServiceManager.cpp:117-119 ServiceManager::ProcessRecord::removeService *)
Definition removeService (c : ComponentName) (pr : ProcessRecord) : ProcessRecord :=
  mkProcessRecord (pr_name pr) (process pr) (delete c (services pr)).
(* os/ServiceManager.cpp:125-127 ServiceManager::ProcessRecord::containsService *)
Definition containsService (c : ComponentName) (pr : ProcessRecord) : bool :=
  bool_decide (is_Some (services pr !! c)).
(* os/ServiceManager.cpp:129-131 ServiceManager::ProcessRecord::numServices *)
Definition numServices (pr : ProcessRecord) : nat := size (services pr).

Definition set_state (alive running : bool) (sr : ServiceRecord) : ServiceRecord :=
  mkServiceRecord (sr_name sr) (processRecord sr) (sr_systemService sr) alive running (serviceConnections sr).
(* os/ServiceManager.cpp:142-144 ServiceManager::ServiceRecord::addServiceConnection *)
Definition addServiceConnection (conn : nat) (sr : ServiceRecord) : ServiceRecord :=
  mkServiceRecord (sr_name sr) (processRecord sr) (sr_systemService sr) (alive sr) (running sr)
    (serviceConnections sr ++ [conn]).
(* os/ServiceManager.cpp:146-148 ServiceManager::ServiceRecord::removeServiceConnection *)
Definition removeServiceConnection (conn : nat) (sr : ServiceRecord) : ServiceRecord :=
  mkServiceRecord (sr_name sr) (processRecord sr) (sr_systemService sr) (alive sr) (running sr)
    (remove_first conn (serviceConnections sr)).
(* os/ServiceManager.cpp:150-152 ServiceManager::ServiceRecord::getNumServiceConnections *)
Definition getNumServiceConnections (sr : ServiceRecord) : nat := length (serviceConnections sr).
(* os/ServiceManager.cpp:154-156 ServiceManager::ServiceRecord::hasServiceConnection *)
Definition hasServiceConnection (conn : nat) (sr : ServiceRecord) : bool :=
  bool_decide (conn ∈ serviceConnections sr).

(* os/ServiceManager.cpp:356-369 ServiceManager::prepareProcess *)
Definition prepareProcess (name : list Z) : M world nat :=
  ps ← gets mProcesses;
  match ps !! name with
  | Some i => pr ← deref processRecords i; mret (process pr)
  | None =>
      p ← ProcessManager.startProcess name;
      i ← newProcessRecord name p;
      modify (fun w => set_tables (<[name := i]> (mProcesses w)) (mRecords w) w);;
      mret p
  end.

(** The names of the record and of the process for an intent, [None] for a component no package
    declares. *)
(* os/ServiceManager.cpp:372-400 ServiceManager::prepareService *)
Definition serviceInfo (service : Intent) : option (option (list Z) * option (list Z)) :=
  if systemService service then Some (nameExtra service, processExtra service)
  else (fun si => (Some (className (packageName si, name si)), Some (processName si)))
       <$> resolve (getComponent service).

(** A record for a component that has none. *)
(* os/ServiceManager.cpp:406-422 ServiceManager::prepareService *)
Definition newRecord (service : Intent) (info : option (list Z) * option (list Z)) : M world nat :=
  let c := getComponent service in
  n ← unwrap (snd info);
  prepareProcess n;;
  ps ← gets mProcesses;
  i ← unwrap (ps !! n);
  nm ← unwrap (fst info);
  r ← newServiceRecord nm i (systemService service);
  modify (fun w => set_tables (mProcesses w) (<[c := r]> (mRecords w)) w);;
  pr ← deref processRecords i;
  (if containsService c pr then mret tt else update_processRecord i (addService c r));;
  mret r.

(* os/ServiceManager.cpp:371-474 ServiceManager::prepareService *)
Definition prepareService (service : Intent) : M world bool :=
  match serviceInfo service with
  | None => mret false
  | Some info =>
      rs ← gets mRecords;
      r ← match rs !! getComponent service with
          | None => newRecord service info
          | Some r => mret r
          end;
      sr ← deref serviceRecords r;
      if alive sr then mret true
      else
        update_serviceRecord r (set_state true (running sr));;
        pr ← deref processRecords (processRecord sr);
        callback ← newCallback (OnCreated service);
        or_failure (ProcessImpl.send (process pr) (MSG_CREATE_SERVICE service callback));;
        mret true
  end.

(* os/ServiceManager.cpp:476-528 ServiceManager::startService *)
Definition startService (service : Intent) : M world nat :=
  let c := getComponent service in
  b ← prepareService service;
  if negb b then newPromise (Some (Started None))
  else
    rs ← gets mRecords;
    r ← unwrap (rs !! c);
    update_serviceRecord r (fun sr => set_state (alive sr) true sr);;
    promise ← newPromise None;
    callback ← newCallback (OnStarted c promise);
    sr ← deref serviceRecords r;
    pr ← deref processRecords (processRecord sr);
    startId ← gets mStartId;
    modify (fun w => set_startId (i32 (mStartId w + 1)) w);;
    or_failure (ProcessImpl.send (process pr) (MSG_START_SERVICE service 0 startId callback));;
    mret promise.

(** Forgets a record, and stops its process if that has no service left. *)
(* os/ServiceManager.cpp:533-551 ServiceManager::cleanupService *)
Definition forget (c : ComponentName) (r : nat) : M world unit :=
  sr ← deref serviceRecords r;
  update_serviceRecord r (set_state false false);;
  modify (fun w => set_tables (mProcesses w) (delete c (mRecords w)) w);;
  update_processRecord (processRecord sr) (removeService c);;
  pr ← deref processRecords (processRecord sr);
  if decide (numServices pr = 0%nat) then
    ProcessManager.stopProcess (pr_name pr);;
    modify (fun w => set_tables (delete (pr_name pr) (mProcesses w)) (mRecords w) w)
  else mret tt.

(* os/ServiceManager.cpp:530-558 ServiceManager::cleanupService *)
Definition cleanupService (service : Intent) : M world bool :=
  rs ← gets mRecords;
  match rs !! getComponent service with
  | Some r => forget (getComponent service) r;; mret true
  | None => mret false
  end.

(* os/ServiceManager.cpp:208-280 ServiceManager::ServiceManagerImpl::stopService *)
Definition stopService (service : Intent) : M world nat :=
  let c := getComponent service in
  rs ← gets mRecords;
  match rs !! c with
  | Some r =>
      sr ← deref serviceRecords r;
      pr ← deref processRecords (processRecord sr);
      if negb (alive sr) then newPromise (Some (Answer false))
      else if negb (bool_decide (getNumServiceConnections sr = 0%nat)) then newPromise (Some (Answer false))
      else
        promise ← newPromise None;
        callback ← newCallback (OnStopped promise);
        or_failure (ProcessImpl.send (process pr) (MSG_STOP_SERVICE service (Some callback)));;
        forget c r;;
        mret promise
  | None => newPromise (Some (Answer false))
  end.

(** [putExtra(SYSTEM_SERVICE, b)]. *)
Definition putSystemService (b : bool) (i : Intent) : Intent :=
  mkIntent (getComponent i) b (nameExtra i) (processExtra i).

(* os/ServiceManager.cpp:282-308 ServiceManager::ServiceManagerImpl::bindService *)
Definition bindService (intent : Intent) (conn : nat) (flags : Z) (callback : nat) : M world nat :=
  let intent := putSystemService false intent in
  b ← prepareService intent;
  if negb b then newPromise (Some (Answer false))
  else
    rs ← gets mRecords;
    match rs !! getComponent intent with
    | Some r =>
        sr ← deref serviceRecords r;
        (if negb (hasServiceConnection conn sr) then
          update_serviceRecord r (addServiceConnection conn);;
          pr ← deref processRecords (processRecord sr);
          or_failure (ProcessImpl.send (process pr) (MSG_BIND_SERVICE intent conn flags callback))
        else mret tt);;
        newPromise (Some (Answer true))
    | None => newPromise (Some (Answer false))
    end.

(** A request through the static [sServiceManager] is a message like any other. *)
(* os/IServiceManager.cpp:79-83 ServiceManager::Stub::Proxy::stopService *)
Definition request_stop (service : Intent) : M world unit :=
  modify (fun w => set_mHandler (mHandler w ++ [Request (MSG_STOP service)]) w).

(* os/ServiceManager.cpp:310-338 ServiceManager::ServiceManagerImpl::unbindService *)
Definition unbindService (service : Intent) (conn : nat) (callback : option nat) : M world unit :=
  rs ← gets mRecords;
  match rs !! getComponent service with
  | Some r =>
      sr ← deref serviceRecords r;
      pr ← deref processRecords (processRecord sr);
      or_failure (ProcessImpl.send (process pr) (MSG_UNBIND_SERVICE service callback));;
      update_serviceRecord r (removeServiceConnection conn);;
      sr ← deref serviceRecords r;
      if decide (getNumServiceConnections sr = 0%nat) then or_failure (request_stop service) else mret tt
  | None => mret tt
  end.

(* os/ServiceManager.cpp:340-349 ServiceManager::ServiceManagerImpl::startSystemService *)
Definition startSystemService (service : Intent) : M world nat :=
  let c := getComponent service in
  startService (mkIntent c true (Some (default (snd c) (nameExtra service)))
                  (Some (default (fst c) (processExtra service)))).

(* os/ServiceManager.cpp:351-354 ServiceManager::ServiceManagerImpl::stopSystemService *)
Definition stopSystemService (service : Intent) : M world nat := stopService (putSystemService true service).

(** A request is answered with the promise of the handler; [MSG_UNBIND] has none, and loses the
    callback it was sent with. *)
(* os/IServiceManager.cpp:27-71 ServiceManager::Stub::onTransact *)
Definition onTransact (r : request) : M world (option nat) :=
  match r with
  | MSG_START service => Some <$> startService (putSystemService false service)
  | MSG_STOP service => Some <$> stopService service
  | MSG_BIND service conn flags callback => Some <$> bindService service conn flags callback
  | MSG_UNBIND service conn => unbindService service conn None;; mret None
  | MSG_START_SYSTEM service => Some <$> startSystemService service
  | MSG_STOP_SYSTEM service => Some <$> stopSystemService service
  end.

(** The listeners of [prepareService] (440-457), [startService] (495-508) and [stopService]
    (232-245). *)
(* os/ServiceManager.cpp:439-457 OnResultListener::onResult *)
Definition onResult (callback : nat) (result : bool) : M world unit :=
  l ← deref listeners callback;
  match l with
  | OnCreated service => if result then mret tt else cleanupService service;; mret tt
  | OnStarted c promise => complete promise (Started (Some c))
  | OnStopped promise => complete promise (Answer result)
  | OnBound => mret tt
  end;;
  modify (fun w => set_callbacks (remove_first callback (mServiceCallbacks w)) w).

(** The thread of the service manager takes the next message. *)
Definition loop : M world unit :=
  q ← gets mHandler;
  match q with
  | [] => mret tt
  | Request r :: q => modify (set_mHandler q);; onTransact r;; mret tt
  | Result callback result :: q => modify (set_mHandler q);; onResult callback result
  end.

(** The thread of the process manager takes the next process to stop, then waits for it. *)
(* os/ServiceManager.cpp:81-83 ServiceManager::ProcessManager::stopProcess *)
Definition stop_next : M world unit :=
  h ← gets pm_mHandler;
  match h with
  | [] => mret tt
  | p :: h =>
      modify (fun w => set_pm (pm_mProcesses w) h (Some p) w);;
      ProcessImpl.stop p
  end.

Definition stop_done (p : nat) : M world unit :=
  ProcessImpl.quit p;; modify (fun w => set_pm (pm_mProcesses w) (pm_mHandler w) None w).

(** What runs next: a client makes a callback, or a request; a thread takes its next message; the
    process manager ends its wait for a process when the services are gone or the time is up. *)
Inductive step : world -> world -> Prop :=
  | step_callback w : step w (set_answers (listeners w ++ [OnBound]) (promises w) (bound w) w)
  | step_request r w :
      match r with MSG_BIND _ _ _ cb => listeners w !! cb = Some OnBound | _ => True end ->
      step w (set_mHandler (mHandler w ++ [Request r]) w)
  | step_manager w : step w (exec loop w)
  | step_process p w : step w (exec (ProcessImpl.loop p) w)
  | step_stop w : stopping w = None -> step w (exec stop_next w)
  | step_quit p P (timeout : bool) w :
      stopping w = Some p -> processes w !! p = Some P -> mServices P = ∅ \/ timeout = true ->
      step w (exec (stop_done p) w).
End manager.

Definition new_world : world := mkWorld ∅ ∅ [] 0 ∅ [] None [] [] [] [] [] [] [] [].
End ServiceManager.
