(* ===== verification/ServiceLifecycles.v ===== *)
(** * The life of a service, over [Services]

    The invariant of [ServiceManager.step]: the tables of the service manager and of the process
    manager agree, messages name listeners that fit them, a queue never creates a service twice,
    and every promise still open has its callback under way.  From it: no thread fails
    ([services_safe]), what an instance of a service sees ([service_lifecycle]), and that requests
    are answered ([services_answered]) unless a process quits too early ([early_quit]). *)

From S2P Require Import Prelude HashMaps Strings Packages Services.
From stdpp Require Import gmap fin_maps.
Open Scope Z_scope.

Import ServiceManager.

(** ** What a call does: it returns, and the state afterwards *)

Definition wp {A} (m : M world A) (Q : A -> world -> Prop) (w : world) : Prop :=
  match m w with (Ok a, w') => Q a w' | _ => False end.

Section wp_rules.
Context {A B : Type}.
Implicit Types (m : M world A) (Q : A -> world -> Prop).

Lemma wp_bind m (k : A -> M world B) R w : wp m (fun a => wp (k a) R) w -> wp (m ≫= k) R w.
Proof. unfold wp, mbind, M_bind. by destruct (m w) as [[] ?]. Qed.

Lemma wp_ret (a : A) Q w : Q a w -> wp (mret a) Q w.
Proof. done. Qed.

Lemma wp_gets (f : world -> A) Q w : Q (f w) w -> wp (gets f) Q w.
Proof. done. Qed.

Lemma wp_modify f (Q : unit -> world -> Prop) w : Q tt (f w) -> wp (modify f) Q w.
Proof. done. Qed.

Lemma wp_deref (f : world -> list A) i a Q w : f w !! i = Some a -> Q a w -> wp (deref f i) Q w.
Proof. unfold wp, deref. by intros ->. Qed.

Lemma wp_unwrap (o : option A) a Q w : o = Some a -> Q a w -> wp (unwrap o) Q w.
Proof. by intros ->. Qed.

Lemma wp_fmap m (f : A -> B) R w : wp m (fun a => R (f a)) w -> wp (f <$> m) R w.
Proof. unfold wp, fmap, M_fmap, mbind, M_bind. by destruct (m w) as [[] ?]. Qed.

Lemma wp_failure m Q w : wp m Q w -> wp (or_failure m) Q w.
Proof. unfold wp, or_failure, rethrow_as. by destruct (m w) as [[] ?]. Qed.

Lemma wp_mono m Q Q' w : wp m Q w -> (forall a w', Q a w' -> Q' a w') -> wp m Q' w.
Proof. unfold wp. destruct (m w) as [[] ?]; naive_solver. Qed.

Lemma wp_outcome m Q w : wp m Q w -> exists a, outcome m w = Ok a /\ Q a (exec m w).
Proof. unfold wp, outcome, exec. destruct (m w) as [[] ?]; naive_solver. Qed.
End wp_rules.

Lemma wp_update_record r f sr (Q : unit -> world -> Prop) w :
  serviceRecords w !! r = Some sr ->
  Q tt (set_records (processRecords w) (<[r := f sr]> (serviceRecords w)) w) ->
  wp (update_serviceRecord r f) Q w.
Proof. intros E H. eapply wp_bind, wp_deref; [exact E|]. by apply wp_modify. Qed.

Lemma wp_update_processRecord i f pr (Q : unit -> world -> Prop) w :
  processRecords w !! i = Some pr ->
  Q tt (set_records (<[i := f pr]> (processRecords w)) (serviceRecords w) w) ->
  wp (update_processRecord i f) Q w.
Proof. intros E H. eapply wp_bind, wp_deref; [exact E|]. by apply wp_modify. Qed.

Lemma wp_update_process p f P (Q : unit -> world -> Prop) w :
  processes w !! p = Some P -> Q tt (set_processes (<[p := f P]> (processes w)) w) ->
  wp (update_process p f) Q w.
Proof. intros E H. eapply wp_bind, wp_deref; [exact E|]. by apply wp_modify. Qed.

(** A message on the queue of a process. *)
Definition pushed (m : ProcessMessage) (P : Process) : Process :=
  ProcessImpl.set_queue (mQueue P ++ [m]) P.
Definition sent (p : nat) (m : ProcessMessage) (w : world) : world :=
  set_processes (alter (pushed m) p (processes w)) w.

Lemma wp_send p m P (Q : unit -> world -> Prop) w :
  processes w !! p = Some P -> mQuitting P = false -> Q tt (sent p m w) ->
  wp (ProcessImpl.send p m) Q w.
Proof.
  intros E Eq HQ. eapply wp_bind, wp_deref; [exact E|]. rewrite Eq.
  eapply wp_update_process; [exact E|]. unfold sent in HQ.
  rewrite list_insert_alter. erewrite list_alter_ext; [exact HQ| |done].
  intros x Hx. rewrite E in Hx. by simplify_eq.
Qed.

(** ** The tables

    The invariant is a predicate on the fields it is about, so that a step that leaves them alone
    keeps it by conversion.  Of a process it needs the name and whether it quits. *)

Definition view (P : Process) : list Z * bool := (mName P, mQuitting P).

Section tables.
Context (mp : gmap (list Z) nat) (mr : gmap ComponentName nat)
  (pm : gmap (list Z) nat) (pmh : list nat) (st : option nat)
  (pv : list (list Z * bool)) (prs : list ProcessRecord) (srs : list ServiceRecord).

(** The record [r] of the component [c] lives in the process record [i]. *)
Definition located (c : ComponentName) (r i : nat) : Prop :=
  mr !! c = Some r /\ exists sr, srs !! r = Some sr /\ alive sr = true /\ processRecord sr = i.

(** [idle]: a process that has no services in the middle of a call. *)
Record tables_ok (idle : option (list Z)) : Prop := {
  t_record c r : mr !! c = Some r ->
    exists i pr, located c r i /\ prs !! i = Some pr /\ mp !! pr_name pr = Some i /\ services pr !! c = Some r;
  t_inj c c' r : mr !! c = Some r -> mr !! c' = Some r -> c = c';
  t_process n i : mp !! n = Some i ->
    exists pr, prs !! i = Some pr /\ pr_name pr = n /\ pm !! n = Some (process pr) /\
      (services pr = ∅ -> idle = Some n) /\
      forall c r, services pr !! c = Some r -> located c r i;
  t_pm n p : pm !! n = Some p ->
    is_Some (mp !! n) /\ pv !! p = Some (n, false) /\ p ∉ option_list st ++ pmh;
  t_stopping : NoDup (option_list st ++ pmh) /\
    forall p, p ∈ option_list st ++ pmh -> exists n, pv !! p = Some (n, false);
}.
End tables.

Definition tables (w : world) : Prop :=
  tables_ok (mProcesses w) (mRecords w) (pm_mProcesses w) (pm_mHandler w) (stopping w)
    (view <$> processes w) (processRecords w) (serviceRecords w) None.

Section tables_lemmas.
Context {mp : gmap (list Z) nat} {mr : gmap ComponentName nat}
  {pm : gmap (list Z) nat} {pmh : list nat} {st : option nat}
  {pv : list (list Z * bool)} {prs : list ProcessRecord} {srs : list ServiceRecord}.

Lemma located_grow c r i srs' : located mr srs c r i -> located mr (srs ++ srs') c r i.
Proof. intros [? (sr & H & ?)]. split; [done|]. exists sr. split; [|done]. by apply lookup_app_l_Some. Qed.

Lemma located_det c r i r' i' : located mr srs c r i -> located mr srs c r' i' -> r = r' /\ i = i'.
Proof. intros [? (? & ? & ? & <-)] [? (? & ? & ? & <-)]. split; congruence. Qed.

(** A process record for a new process. *)
Lemma tables_new_process n :
  tables_ok mp mr pm pmh st pv prs srs None -> mp !! n = None ->
  tables_ok (<[n := length prs]> mp) mr (<[n := length pv]> pm) pmh st (pv ++ [(n, false)])
    (prs ++ [mkProcessRecord n (length pv) ∅]) srs (Some n).
Proof.
  intros [T1 T2 T3 T4 [T5 T6]] Hn. split.
  - intros c r Hc. destruct (T1 c r Hc) as (i & pr & L & Hi & Hm & Hs). exists i, pr. split; [done|].
    split; [by apply lookup_app_l_Some|]. split; [|done]. rewrite lookup_insert_ne; [done|congruence].
  - done.
  - intros m i. destruct (decide (n = m)) as [<-|E].
    + rewrite lookup_insert_eq. intros [= <-]. exists (mkProcessRecord n (length pv) ∅).
      split; [by rewrite list_lookup_middle|]. rewrite lookup_insert_eq. naive_solver.
    + rewrite lookup_insert_ne by done. intros Hm. destruct (T3 m i Hm) as (pr & Hi & <- & Hp & He & Hs).
      exists pr. rewrite lookup_insert_ne by done. split; [by apply lookup_app_l_Some|].
      split; [done|]. split; [done|]. split; [intros Hem; by specialize (He Hem)|done].
  - intros m p. destruct (decide (n = m)) as [<-|E].
    + rewrite !lookup_insert_eq. intros [= <-]. split; [done|]. split; [by rewrite list_lookup_middle|].
      intros Hin. destruct (T6 _ Hin) as [? Hl]. apply lookup_lt_Some in Hl. lia.
    + rewrite !lookup_insert_ne by done. intros Hm. destruct (T4 m p Hm) as (? & ? & ?).
      split; [done|]. split; [by apply lookup_app_l_Some|done].
  - split; [done|]. intros p Hp. destruct (T6 p Hp) as [m Hm]. exists m. by apply lookup_app_l_Some.
Qed.

(** A record for a component in a process there is. *)
Lemma tables_add c n i pr sr idle :
  tables_ok mp mr pm pmh st pv prs srs idle -> idle = None \/ idle = Some n ->
  mr !! c = None -> mp !! n = Some i -> prs !! i = Some pr ->
  alive sr = true -> processRecord sr = i ->
  tables_ok mp (<[c := length srs]> mr) pm pmh st pv
    (<[i := addService c (length srs) pr]> prs) (srs ++ [sr]) None.
Proof.
  intros [T1 T2 T3 T4 T5] Hidle Hc Hn Hi Ha Hsr.
  assert (located (<[c := length srs]> mr) (srs ++ [sr]) c (length srs) i) as Lc.
  { split; [by rewrite lookup_insert_eq|]. exists sr. by rewrite list_lookup_middle. }
  assert (forall c' r' j, located mr srs c' r' j -> located (<[c := length srs]> mr) (srs ++ [sr]) c' r' j) as Lo.
  { intros c' r' j L. apply (located_grow _ _ _ [sr]) in L as [L ?]. split; [|done].
    rewrite lookup_insert_ne; [done|congruence]. }
  destruct (T3 n i Hn) as (pr' & Hi' & Hpn & Hp & _ & Hs). simplify_eq.
  split.
  - intros c' r'. destruct (decide (c = c')) as [<-|E].
    + rewrite lookup_insert_eq. intros [= <-]. eexists _, _. split; [exact Lc|].
      rewrite list_lookup_insert_eq by (by eapply lookup_lt_Some). split; [done|]. cbn.
      by rewrite lookup_insert_eq.
    + rewrite lookup_insert_ne by done. intros Hc'.
      destruct (T1 c' r' Hc') as (j & prj & L & Hj & Hm & Hsj).
      destruct (decide (processRecord sr = j)) as [<-|Ej].
      * simplify_eq. eexists _, _. split; [by apply Lo|].
        rewrite list_lookup_insert_eq by (by eapply lookup_lt_Some). split; [done|]. cbn.
        by rewrite lookup_insert_ne.
      * exists j, prj. split; [by apply Lo|]. by rewrite list_lookup_insert_ne.
  - intros c1 c2 r. assert (forall c' r', mr !! c' = Some r' -> r' <> length srs) as Hf.
    { intros c' r' Hc' ->. destruct (T1 c' _ Hc') as (? & ? & [_ (? & Hl & _)] & _).
      apply lookup_lt_Some in Hl. lia. }
    destruct (decide (c = c1)) as [<-|E1], (decide (c = c2)) as [<-|E2]; [done| | |];
      rewrite ?lookup_insert_eq, ?lookup_insert_ne by done; intros H1 H2; simplify_eq.
    + by apply Hf in H2.
    + by apply Hf in H1.
    + by eapply T2.
  - intros m j Hm. destruct (decide (processRecord sr = j)) as [<-|Ej].
    + destruct (T3 m _ Hm) as (pr' & Hi' & Hpn & Hp' & _ & _). simplify_eq.
      eexists. rewrite list_lookup_insert_eq by (by eapply lookup_lt_Some). split; [done|].
      cbn. split; [done|]. split; [done|]. split; [intros He; by apply insert_non_empty in He|].
      intros c' r'. destruct (decide (c = c')) as [<-|E].
      * rewrite lookup_insert_eq. by intros [= <-].
      * rewrite lookup_insert_ne by done. intros ?. by apply Lo, Hs.
    + destruct (T3 m j Hm) as (pr' & Hi' & Hpn & Hp' & He & Hs'). exists pr'.
      rewrite list_lookup_insert_ne by done. split; [done|]. split; [done|]. split; [done|].
      split; [|intros; by apply Lo, Hs'].
      intros Hem. specialize (He Hem). destruct Hidle; [congruence|]. simplify_eq. congruence.
  - done.
  - done.
Qed.

(** A change of a record that keeps it alive and in its process. *)
Lemma tables_alter r sr sr' idle :
  tables_ok mp mr pm pmh st pv prs srs idle -> srs !! r = Some sr ->
  alive sr' = alive sr -> processRecord sr' = processRecord sr ->
  tables_ok mp mr pm pmh st pv prs (<[r := sr']> srs) idle.
Proof.
  intros [T1 T2 T3 T4 T5] Hr Ha Hp.
  assert (forall c r' i, located mr srs c r' i -> located mr (<[r := sr']> srs) c r' i) as Lo.
  { intros c r' i [H (x & Hx & Hax & <-)]. split; [done|]. destruct (decide (r = r')) as [<-|E].
    - exists sr'. rewrite list_lookup_insert_eq by (by eapply lookup_lt_Some). simplify_eq. split_and!; congruence.
    - exists x. by rewrite list_lookup_insert_ne. }
  split; [| done | | done | done].
  - intros c r' Hc. destruct (T1 c r' Hc) as (i & pr & L & ?). exists i, pr. split; [by apply Lo|done].
  - intros n i Hn. destruct (T3 n i Hn) as (pr & ? & ? & ? & ? & Hs). exists pr.
    split_and!; try done. intros. by apply Lo, Hs.
Qed.

(** A record is forgotten. *)
Lemma tables_remove c r sr pr :
  tables_ok mp mr pm pmh st pv prs srs None ->
  mr !! c = Some r -> srs !! r = Some sr -> prs !! processRecord sr = Some pr ->
  tables_ok mp (delete c mr) pm pmh st pv
    (<[processRecord sr := removeService c pr]> prs) (<[r := set_state false false sr]> srs)
    (Some (pr_name pr)) /\ mp !! pr_name pr = Some (processRecord sr).
Proof.
  intros [T1 T2 T3 T4 T5] Hc Hr Hi.
  destruct (T1 c r Hc) as (i & pr' & [_ (sr' & Hr' & _ & Hsr)] & Hi' & Hm & Hs). simplify_eq.
  split; [|done].
  assert (forall c' r' j, c <> c' -> located mr srs c' r' j ->
            located (delete c mr) (<[r := set_state false false sr]> srs) c' r' j) as Lo.
  { intros c' r' j E [Hc' (x & Hx & ? & ?)]. split; [by rewrite lookup_delete_ne|].
    exists x. rewrite list_lookup_insert_ne; [done|]. intros <-. by destruct E; eapply T2. }
  split; [| | | done | done].
  - intros c' r'. destruct (decide (c = c')) as [<-|E]; [by rewrite lookup_delete_eq|].
    rewrite lookup_delete_ne by done. intros Hc'.
    destruct (T1 c' r' Hc') as (j & prj & L & Hj & Hmj & Hsj).
    destruct (decide (processRecord sr = j)) as [<-|Ej].
    + simplify_eq. eexists _, _. split; [by apply Lo|].
      rewrite list_lookup_insert_eq by (by eapply lookup_lt_Some). split; [done|]. cbn.
      by rewrite lookup_delete_ne.
    + exists j, prj. split; [by apply Lo|]. by rewrite list_lookup_insert_ne.
  - intros c1 c2 r'. rewrite !lookup_delete_Some. intros [_ H1] [_ H2]. by eapply T2.
  - intros m j Hmj. destruct (T3 m j Hmj) as (prj & Hj & Hn & Hp & He & Hsj).
    destruct (decide (processRecord sr = j)) as [<-|Ej].
    + simplify_eq. eexists. rewrite list_lookup_insert_eq by (by eapply lookup_lt_Some). split; [done|].
      cbn. split; [done|]. split; [done|]. split; [done|].
      intros c' r'. rewrite lookup_delete_Some. intros [E Hc']. by apply Lo, Hsj.
    + exists prj. rewrite list_lookup_insert_ne by done. split; [done|]. split; [done|]. split; [done|].
      split; [by intros Hem; specialize (He Hem)|].
      intros c' r' Hc'. specialize (Hsj c' r' Hc') as L. apply Lo; [|done]. intros <-.
      destruct L as [Hc2 (x & Hx & _ & Hxp)]. simplify_eq.
Qed.

Lemma tables_busy n i pr :
  tables_ok mp mr pm pmh st pv prs srs (Some n) ->
  mp !! n = Some i -> prs !! i = Some pr -> services pr <> ∅ ->
  tables_ok mp mr pm pmh st pv prs srs None.
Proof.
  intros [T1 T2 T3 T4 T5] Hn Hi Hs. split; [done | done | | done | done].
  intros m j Hm. destruct (T3 m j Hm) as (prj & Hj & Hnj & Hp & He & Hsj). exists prj.
  split_and!; try done. intros Hem. specialize (He Hem). simplify_eq.
Qed.

(** A process without services is handed to the process manager. *)
Lemma tables_stop n i pr :
  tables_ok mp mr pm pmh st pv prs srs (Some n) ->
  mp !! n = Some i -> prs !! i = Some pr -> services pr = ∅ ->
  tables_ok (delete n mp) mr (delete n pm) (pmh ++ [process pr]) st pv prs srs None /\
  pm !! n = Some (process pr).
Proof.
  intros [T1 T2 T3 T4 [T5 T6]] Hn Hi Hs.
  destruct (T3 n i Hn) as (pr' & Hi' & Hpn & Hp & _ & _). simplify_eq. split; [|done].
  destruct (T4 _ _ Hp) as (_ & Hpv & Hnew).
  split.
  - intros c r Hc. destruct (T1 c r Hc) as (j & prj & L & Hj & Hm & Hsj). exists j, prj.
    split; [done|]. split; [done|]. split; [|done]. rewrite lookup_delete_ne; [done|].
    intros E. rewrite E in Hn. simplify_eq. by rewrite Hs in Hsj.
  - done.
  - intros m j. rewrite lookup_delete_Some. intros [E Hm].
    destruct (T3 m j Hm) as (prj & Hj & Hnj & Hpj & He & Hsj). exists prj.
    rewrite lookup_delete_ne by done. split_and!; try done. intros Hem. specialize (He Hem). congruence.
  - intros m p. rewrite lookup_delete_Some. intros [E Hm]. destruct (T4 m p Hm) as (? & Hv & Hni).
    rewrite lookup_delete_ne by done. split; [done|]. split; [done|].
    rewrite app_assoc. rewrite elem_of_app, list_elem_of_singleton. intros [?| ->]; [done|]. congruence.
  - rewrite app_assoc. split.
    + apply NoDup_app. split_and!; [done| |by apply NoDup_singleton].
      intros p Hp1 ->%list_elem_of_singleton. done.
    + intros p. rewrite elem_of_app, list_elem_of_singleton. intros [?| ->]; [by apply T6|].
      by eexists.
Qed.

(** The process manager turns to the next process, and is done with it. *)
Lemma tables_stop_next p h :
  st = None -> pmh = p :: h ->
  tables_ok mp mr pm pmh st pv prs srs None -> tables_ok mp mr pm h (Some p) pv prs srs None.
Proof. intros -> ->. intros [T1 T2 T3 T4 T5]. by split. Qed.

Lemma tables_stop_done p n :
  st = Some p -> pv !! p = Some (n, false) ->
  tables_ok mp mr pm pmh st pv prs srs None -> tables_ok mp mr pm pmh None (<[p := (n, true)]> pv) prs srs None.
Proof.
  intros -> Hp [T1 T2 T3 T4 [T5 T6]]. cbn in T5. apply NoDup_cons in T5 as [Hnin Hnd]. split; [done..| |].
  - intros m q Hm. destruct (T4 m q Hm) as (? & Hv & Hq). cbn in Hq. apply not_elem_of_cons in Hq as [E Hq].
    split; [done|]. by rewrite list_lookup_insert_ne.
  - split; [done|]. intros q Hq. cbn in Hq. rewrite list_lookup_insert_ne by (intros ->; done).
    apply T6. cbn. apply list_elem_of_further, Hq.
Qed.
End tables_lemmas.

(** ** The messages *)

(** The promise a listener completes. *)
Definition target (l : OnResultListener) : option nat :=
  match l with OnStarted _ p | OnStopped p => Some p | OnCreated _ | OnBound => None end.

Definition callbacks (m : ProcessMessage) : list nat :=
  match m with
  | MSG_CREATE_SERVICE _ cb | MSG_START_SERVICE _ _ _ cb | MSG_BIND_SERVICE _ _ _ cb => [cb]
  | MSG_STOP_SERVICE _ o | MSG_UNBIND_SERVICE _ o => option_list o
  end.

(** The callback is on its way to a process or back. *)
Definition in_flight (procs : list Process) (mh : list ManagerMessage) (cb : nat) : Prop :=
  (exists p P m, procs !! p = Some P /\ m ∈ mQueue P /\ cb ∈ callbacks m) \/ exists b, Result cb b ∈ mh.

Section messages.
Context {classes : Classes} {packages : PackageManager}.

(** A message fits the listener of its callback; what is created has been looked up. *)
Definition msg_ok (ls : list OnResultListener) (m : ProcessMessage) : Prop :=
  match m with
  | MSG_CREATE_SERVICE i cb =>
      ls !! cb = Some (OnCreated i) /\ (systemService i = false -> is_Some (resolve (getComponent i)))
  | MSG_START_SERVICE _ _ _ cb => exists c p, ls !! cb = Some (OnStarted c p)
  | MSG_STOP_SERVICE _ None => True
  | MSG_STOP_SERVICE _ (Some cb) => exists p, ls !! cb = Some (OnStopped p)
  | MSG_BIND_SERVICE _ _ _ cb => ls !! cb = Some OnBound
  | MSG_UNBIND_SERVICE _ o => o = None
  end.

Definition mgr_ok (ls : list OnResultListener) (m : ManagerMessage) : Prop :=
  match m with
  | Request (MSG_BIND _ _ _ cb) => ls !! cb = Some OnBound
  | Request _ => True
  | Result cb b =>
      match ls !! cb with
      | Some (OnCreated i) =>
          b = ProcessImpl.creates i /\ (systemService i = false -> is_Some (resolve (getComponent i)))
      | Some (OnStarted _ _) | Some (OnStopped _) => True
      | Some OnBound | None => False
      end
  end.

(** [owed]: a promise whose callback is not sent yet, in the middle of a call. *)
Record messages_ok (ls : list OnResultListener) (ps : list (option reply)) (procs : list Process)
    (mh : list ManagerMessage) (owed : option nat) : Prop := {
  m_process p P m : procs !! p = Some P -> m ∈ mQueue P -> msg_ok ls m;
  m_manager m : m ∈ mh -> mgr_ok ls m;
  m_target cb l p : ls !! cb = Some l -> target l = Some p -> (p < length ps)%nat;
  m_quit p P : procs !! p = Some P -> mQuitting P = true -> mQueue P = [];
  m_open p : ps !! p = Some None -> owed = Some p \/
    exists cb l, ls !! cb = Some l /\ target l = Some p /\
      (in_flight procs mh cb \/ exists q Q, procs !! q = Some Q /\ mQuitting Q = true);
}.

Lemma msg_ok_grow ls l m : msg_ok ls m -> msg_ok (ls ++ [l]) m.
Proof.
  destruct m as [? cb|? ? ? cb|? [cb|]|? ? ? cb|? ?]; cbn; try done.
  - intros [? ?]. split; [by apply lookup_app_l_Some|done].
  - intros (c & p & ?). exists c, p. by apply lookup_app_l_Some.
  - intros (p & ?). exists p. by apply lookup_app_l_Some.
  - intros ?. by apply lookup_app_l_Some.
Qed.

Lemma mgr_ok_grow ls l m : mgr_ok ls m -> mgr_ok (ls ++ [l]) m.
Proof.
  destruct m as [[]|cb b]; cbn; try done.
  - intros ?. by apply lookup_app_l_Some.
  - destruct (ls !! cb) as [x|] eqn:E; [|done]. by rewrite (lookup_app_l_Some _ _ _ _ E).
Qed.

Context {ls : list OnResultListener} {ps : list (option reply)} {procs : list Process}
  {mh : list ManagerMessage}.

Lemma in_flight_mono procs' mh' cb :
  (forall p P, procs !! p = Some P -> exists P', procs' !! p = Some P' /\ mQueue P ⊆ mQueue P') ->
  mh ⊆ mh' -> in_flight procs mh cb -> in_flight procs' mh' cb.
Proof.
  intros Hp Hm [(p & P & m & HP & Hin & Hcb)|[b Hb]].
  - left. destruct (Hp p P HP) as (P' & ? & Hq). exists p, P', m. split_and!; [done|by apply Hq|done].
  - right. exists b. by apply Hm.
Qed.

(** A pushed message only adds to what is in flight. *)
Lemma pushed_lookup m p p' P :
  procs !! p' = Some P -> exists P', alter (pushed m) p procs !! p' = Some P' /\ mQueue P ⊆ mQueue P' /\
    mQuitting P' = mQuitting P.
Proof.
  intros HP. destruct (decide (p = p')) as [<-|E].
  - exists (pushed m P). rewrite list_lookup_alter_eq, HP. cbn. split_and!; [done|set_solver|done].
  - exists P. rewrite list_lookup_alter_ne by done. split_and!; done.
Qed.

Lemma pushed_inv m p p' P' :
  alter (pushed m) p procs !! p' = Some P' ->
  exists P, procs !! p' = Some P /\ mServices P' = mServices P /\ mQuitting P' = mQuitting P /\
    mName P' = mName P /\ mQueue P' = mQueue P ++ (if decide (p = p') then [m] else []).
Proof.
  destruct (decide (p = p')) as [<-|E].
  - rewrite list_lookup_alter_eq. intros (P & -> & HP)%fmap_Some. exists P. by rewrite HP.
  - rewrite list_lookup_alter_ne by done. intros ?. exists P'. by rewrite app_nil_r.
Qed.

Lemma messages_send p P m o :
  messages_ok ls ps procs mh o -> procs !! p = Some P -> mQuitting P = false -> msg_ok ls m ->
  messages_ok ls ps (alter (pushed m) p procs) mh o.
Proof.
  intros [M1 M2 M3 M4 M5] HP HQ Hm. split.
  - intros p' P' m' HP' Hin. apply pushed_inv in HP' as (P0 & HP0 & _ & _ & _ & Eq). rewrite Eq in Hin.
    apply elem_of_app in Hin as [Hin|Hin]; [by eapply M1|].
    case_decide; [|by apply not_elem_of_nil in Hin]. apply list_elem_of_singleton in Hin as ->. done.
  - done.
  - done.
  - intros p' P' HP' Hq. apply pushed_inv in HP' as (P0 & HP0 & _ & Hq0 & _ & Eq). rewrite Eq.
    case_decide as E; [subst; simplify_eq; congruence|]. rewrite app_nil_r. eapply M4; [done|congruence].
  - intros q Hq. destruct (M5 q Hq) as [?|(cb & l & ? & ? & [Hf|(x & X & HX & HqX)])]; [by left| |];
      right; exists cb, l; split_and!; [done..| |done|done|].
    + left. eapply in_flight_mono; [|done|exact Hf]. intros p0 P0 HP0.
      destruct (pushed_lookup m p p0 P0 HP0) as (P' & ? & ? & _). by exists P'.
    + right. destruct (pushed_lookup m p x X HX) as (X' & ? & _ & Eq).
      exists x, X'. split; [done|congruence].
Qed.

Lemma messages_listener l ps' o :
  messages_ok ls ps procs mh None ->
  target l = None /\ ps' = ps /\ o = None \/ target l = Some (length ps) /\ ps' = ps ++ [None] /\ o = Some (length ps) ->
  messages_ok (ls ++ [l]) ps' procs mh o.
Proof.
  intros [M1 M2 M3 M4 M5] Hl. split; [| | |done|].
  - intros. by eapply msg_ok_grow, M1.
  - intros. by apply mgr_ok_grow, M2.
  - intros cb l' p [Hx|[_ Hx]]%lookup_app_Some Htl.
    + specialize (M3 _ _ _ Hx Htl). destruct Hl as [(_ & -> & _)|(_ & -> & _)]; rewrite ?length_app; lia.
    + apply list_lookup_singleton_Some in Hx as [_ <-].
      destruct Hl as [(? & -> & _)|(? & -> & _)]; simplify_eq. rewrite length_app. cbn. lia.
  - assert (forall p, ps !! p = Some None -> exists cb l', (ls ++ [l]) !! cb = Some l' /\ target l' = Some p /\
      (in_flight procs mh cb \/ exists q Q, procs !! q = Some Q /\ mQuitting Q = true)) as Ho.
    { intros p Hp. destruct (M5 p Hp) as [?|(cb & l' & ? & ?)]; [done|]. exists cb, l'.
      split; [by apply lookup_app_l_Some|done]. }
    intros p Hp. destruct Hl as [(_ & -> & ->)|(_ & -> & ->)]; [right; by apply Ho|].
    apply lookup_app_Some in Hp as [Hp|[Hle Hp]]; [right; by apply Ho|].
    apply list_lookup_singleton_Some in Hp as [Hp _]. left. f_equal. lia.
Qed.

(** The callback is sent. *)
Lemma messages_paid cb l p :
  messages_ok ls ps procs mh (Some p) -> ls !! cb = Some l -> target l = Some p -> in_flight procs mh cb ->
  messages_ok ls ps procs mh None.
Proof.
  intros [M1 M2 M3 M4 M5] Hcb Hl Hf. split; [done..|].
  intros q Hq. right. destruct (M5 q Hq) as [[= <-]|?]; [|done]. exists cb, l. by split_and!; [..|left].
Qed.

(** A promise answered at once. *)
Lemma messages_answered v :
  messages_ok ls ps procs mh None -> messages_ok ls (ps ++ [Some v]) procs mh None.
Proof.
  intros [M1 M2 M3 M4 M5]. split; [done|done| |done|].
  - intros cb l p Hcb Hl. specialize (M3 _ _ _ Hcb Hl). rewrite length_app. lia.
  - intros p Hp. apply M5. apply lookup_app_Some in Hp as [Hp|[_ Hp]]; [done|].
    by apply list_lookup_singleton_Some in Hp as [_ ?].
Qed.

(** A new process. *)
Lemma messages_process n :
  messages_ok ls ps procs mh None -> messages_ok ls ps (procs ++ [mkProcess n ∅ [] false]) mh None.
Proof.
  intros [M1 M2 M3 M4 M5]. split; [|done|done| |].
  - intros p P m [HP|[_ HP]]%lookup_app_Some; [by eapply M1|].
    apply list_lookup_singleton_Some in HP as [_ <-]. cbn. intros ?%not_elem_of_nil. done.
  - intros p P [HP|[_ HP]]%lookup_app_Some; [by eapply M4|].
    by apply list_lookup_singleton_Some in HP as [_ <-].
  - intros p Hp. destruct (M5 p Hp) as [?|(cb & l & ? & ? & [Hf|(q & Q & ? & ?)])]; [done| |];
      right; exists cb, l; split_and!; [done..| |done|done|].
    + left. eapply in_flight_mono; [|done|exact Hf]. intros q Q HQ. exists Q.
      split; [by apply lookup_app_l_Some|done].
    + right. exists q, Q. split; [by apply lookup_app_l_Some|done].
Qed.

Lemma messages_request r :
  messages_ok ls ps procs mh None -> mgr_ok ls (Request r) ->
  messages_ok ls ps procs (mh ++ [Request r]) None.
Proof.
  intros [M1 M2 M3 M4 M5] Hr. split; [done| |done|done|].
  - intros m [Hm|Hm]%elem_of_app; [by apply M2|]. by apply list_elem_of_singleton in Hm as ->.
  - intros p Hp. destruct (M5 p Hp) as [?|(cb & l & ? & ? & [Hf|?])]; [done| |]; right; exists cb, l;
      split_and!; [done..| |done|done|by right].
    left. eapply in_flight_mono; [| |exact Hf]; [intros q Q HQ; by exists Q|set_solver].
Qed.

(** The service manager takes a request. *)
Lemma messages_take r mh' :
  messages_ok ls ps procs mh None -> mh = Request r :: mh' -> messages_ok ls ps procs mh' None.
Proof.
  intros [M1 M2 M3 M4 M5] ->. split; [done| |done|done|].
  - intros m Hm. apply M2. by apply list_elem_of_further.
  - intros p Hp. destruct (M5 p Hp) as [?|(cb & l & ? & ? & [[?|[b Hb]]|?])]; [done| | |];
      right; exists cb, l; split_and!; [done..| |done|done| |done|done|by right].
    + left. by left.
    + left. right. exists b. apply elem_of_cons in Hb as [?|?]; [done|done].
Qed.

(** The service manager takes a result, and completes the promise if it is for one. *)
Lemma messages_result cb b mh' l ps' :
  messages_ok ls ps procs mh None -> mh = Result cb b :: mh' -> ls !! cb = Some l ->
  length ps' = length ps ->
  (forall p, ps' !! p = Some None -> ps !! p = Some None /\ target l <> Some p) ->
  messages_ok ls ps' procs mh' None.
Proof.
  intros [M1 M2 M3 M4 M5] -> Hcb Hlen Hps. split; [done| | |done|].
  - intros m Hm. apply M2. by apply list_elem_of_further.
  - intros. rewrite Hlen. by eapply M3.
  - intros p [Hp Ht]%Hps. destruct (M5 p Hp) as [?|(cb' & l' & ? & ? & [[?|[b' Hb]]|?])]; [done| | |];
      right; exists cb', l'; split_and!; [done..| |done|done| |done|done|by right].
    + left. by left.
    + left. right. exists b'. apply elem_of_cons in Hb as [Hb|?]; [|done]. simplify_eq.
Qed.

(** A process takes a message and sends the result of its callback. *)
Lemma messages_handle p P m q P' rs :
  messages_ok ls ps procs mh None -> procs !! p = Some P -> mQueue P = m :: q ->
  mQueue P' = q -> mQuitting P' = mQuitting P ->
  (forall x, x ∈ rs -> exists cb b, x = Result cb b /\ mgr_ok ls x) ->
  (forall cb, cb ∈ callbacks m -> ls !! cb = Some OnBound \/ exists b, Result cb b ∈ rs) ->
  messages_ok ls ps (<[p := P']> procs) (mh ++ rs) None.
Proof.
  intros [M1 M2 M3 M4 M5] HP Hq Hq' HQ Hrs Hcbs.
  assert (p < length procs)%nat as Hp by (by eapply lookup_lt_Some). split.
  - intros x X m' [(<- & <- & _)|[E HX]]%list_lookup_insert_Some Hm; [|by eapply M1].
    eapply M1; [exact HP|]. rewrite Hq, <- Hq'. by apply list_elem_of_further.
  - intros x [Hx|Hx]%elem_of_app; [by apply M2|]. by destruct (Hrs x Hx) as (? & ? & ? & ?).
  - done.
  - intros x X [(<- & <- & _)|[E HX]]%list_lookup_insert_Some Hqu; [|by eapply M4].
    rewrite HQ in Hqu. specialize (M4 _ _ HP Hqu). congruence.
  - intros y Hy. destruct (M5 y Hy) as [?|(cb & l & Hl & Ht & [[(x & X & m' & HX & Hm & Hc)|[b Hb]]|(x & X & HX & HqX)])];
      [done|..]; right; exists cb, l; (split; [done|]); (split; [done|]).
    + destruct (decide (x = p)) as [->|E].
      * simplify_eq. rewrite Hq in Hm. apply elem_of_cons in Hm as [->|Hm].
        -- destruct (Hcbs cb Hc) as [Hbnd|[b Hb]]; [simplify_eq; done|].
           left. right. exists b. apply elem_of_app. by right.
        -- left. left. exists p, P', m'. by rewrite list_lookup_insert_eq.
      * left. left. exists x, X, m'. by rewrite list_lookup_insert_ne.
    + left. right. exists b. apply elem_of_app. by left.
    + right. destruct (decide (x = p)) as [->|E].
      * simplify_eq. exists p, P'. rewrite list_lookup_insert_eq by done. split; [done|congruence].
      * exists x, X. by rewrite list_lookup_insert_ne.
Qed.

(** A process quits. *)
Lemma messages_quit p P :
  messages_ok ls ps procs mh None -> procs !! p = Some P ->
  messages_ok ls ps (<[p := mkProcess (mName P) (mServices P) [] true]> procs) mh None.
Proof.
  intros [M1 M2 M3 M4 M5] HP.
  assert (p < length procs)%nat as Hp by (by eapply lookup_lt_Some). split.
  - intros x X m' [(<- & <- & _)|[E HX]]%list_lookup_insert_Some Hm; [|by eapply M1].
    by apply not_elem_of_nil in Hm.
  - done.
  - done.
  - intros x X [(<- & <- & _)|[E HX]]%list_lookup_insert_Some Hqu; [done|by eapply M4].
  - intros y Hy. destruct (M5 y Hy) as [?|(cb & l & Hl & Ht & _)]; [done|]. right. exists cb, l.
    split; [done|]. split; [done|]. right. eexists p, _. by rewrite list_lookup_insert_eq.
Qed.
End messages.

(** ** The life of an instance *)

(** Whether the process has an instance of the component after the events; [None] if one was
    created over another, or told something without being there. *)
Definition live (p : nat) (c : ComponentName) (b : option bool) (e : nat * ComponentName * lifecycle) : option bool :=
  let '(q, d, k) := e in
  if decide (q = p /\ d = c) then
    match k, b with
    | Created, Some false => Some true
    | (StartCommand _ | BoundTo | Unbound), Some true => Some true
    | Destroyed, Some true => Some false
    | _, _ => None
    end
  else b.
Definition phase (evs : list (nat * ComponentName * lifecycle)) (p : nat) (c : ComponentName) : option bool :=
  foldl (live p c) (Some false) evs.

Section discipline.
Context {classes : Classes} {packages : PackageManager}.

(** Whether a process will have an instance once it has handled its queue; [None] if it would
    create one over another. *)
Definition advance (c : ComponentName) (b : option bool) (m : ProcessMessage) : option bool :=
  match m, b with
  | MSG_CREATE_SERVICE i _, Some b =>
      if decide (getComponent i = c) then if b then None else Some (instantiates (className c)) else Some b
  | MSG_STOP_SERVICE i _, Some b => if decide (getComponent i = c) then Some false else Some b
  | _, b => b
  end.
Definition future (c : ComponentName) (P : Process) : option bool :=
  foldl (advance c) (Some (bool_decide (c ∈ mServices P))) (mQueue P).

(** A component a process record lacks will be gone from the process. *)
Record discipline_ok (mp : gmap (list Z) nat) (prs : list ProcessRecord) (procs : list Process)
    (evs : list (nat * ComponentName * lifecycle)) : Prop := {
  d_phase p c : phase evs p c =
    Some (match procs !! p with Some P => bool_decide (c ∈ mServices P) | None => false end);
  d_future p P c : procs !! p = Some P -> mQuitting P = false ->
    exists b, future c P = Some b /\ (b = true -> instantiates (className c) = true);
  d_tables n i pr P c : mp !! n = Some i -> prs !! i = Some pr -> procs !! process pr = Some P ->
    services pr !! c = None -> future c P = Some false;
}.

Lemma future_pushed c m P : future c (pushed m P) = advance c (future c P) m.
Proof. unfold future, pushed. cbn. by rewrite foldl_app. Qed.

Lemma phase_snoc evs e p c : phase (evs ++ [e]) p c = live p c (phase evs p c) e.
Proof. unfold phase. by rewrite foldl_app. Qed.

Lemma live_other p c b q d k : ~ (q = p /\ d = c) -> live p c b (q, d, k) = b.
Proof. intros H. unfold live. by rewrite decide_False. Qed.

Lemma advance_other c b m :
  (forall i cb, m <> MSG_CREATE_SERVICE i cb \/ getComponent i <> c) ->
  (forall i o, m <> MSG_STOP_SERVICE i o \/ getComponent i <> c) -> advance c b m = b.
Proof.
  destruct m, b; cbn; try done; intros Hc Hs; (rewrite decide_False; [done|]);
    [by edestruct Hc|by edestruct Hs].
Qed.

Context {mp : gmap (list Z) nat} {prs : list ProcessRecord} {procs : list Process}
  {evs : list (nat * ComponentName * lifecycle)}.

(** A push that leaves the future alone, a creation, a stop. *)
Lemma discipline_push p m :
  discipline_ok mp prs procs evs ->
  (forall P c, procs !! p = Some P -> advance c (future c P) m = future c P \/ advance c (future c P) m = Some false) ->
  discipline_ok mp prs (alter (pushed m) p procs) evs.
Proof.
  intros [D1 D2 D3] Hm. split.
  - intros q c. rewrite D1. destruct (decide (p = q)) as [<-|E].
    + rewrite list_lookup_alter_eq. by destruct (procs !! p).
    + by rewrite list_lookup_alter_ne.
  - intros q Q c. destruct (decide (p = q)) as [<-|E].
    + rewrite list_lookup_alter_eq. intros (P & HP & ->)%fmap_Some Hq. rewrite future_pushed.
      destruct (Hm P c HP) as [-> | ->]; [by eapply D2|by exists false].
    + rewrite list_lookup_alter_ne by done. by eapply D2.
  - intros n i pr Q c Hn Hi. destruct (decide (p = process pr)) as [->|E].
    + rewrite list_lookup_alter_eq. intros (P & HP & ->)%fmap_Some Hc. rewrite future_pushed.
      destruct (Hm P c HP) as [-> | ->]; [by eapply D3|done].
    + rewrite list_lookup_alter_ne by done. by eapply D3.
Qed.

(** The component is added to the process record that is to create it. *)
Lemma discipline_create n i pr intent cb r :
  discipline_ok mp prs procs evs -> mp !! n = Some i -> prs !! i = Some pr ->
  (forall n' i' pr', mp !! n' = Some i' -> prs !! i' = Some pr' -> process pr' = process pr -> i' = i) ->
  services pr !! getComponent intent = None ->
  discipline_ok mp (<[i := addService (getComponent intent) r pr]> prs)
    (alter (pushed (MSG_CREATE_SERVICE intent cb)) (process pr) procs) evs.
Proof.
  intros [D1 D2 D3] Hn Hi Hu Hc. set (c0 := getComponent intent) in *.
  assert (forall c P, procs !! process pr = Some P ->
    advance c (future c P) (MSG_CREATE_SERVICE intent cb) = if decide (c0 = c) then Some (instantiates (className c)) else future c P) as Ha.
  { intros c P HP. cbn. fold c0. destruct (decide (c0 = c)) as [<-|E].
    - by rewrite (D3 _ _ _ _ _ Hn Hi HP Hc).
    - by destruct (future c P). }
  split.
  - intros q c. rewrite D1. destruct (decide (process pr = q)) as [<-|E].
    + rewrite list_lookup_alter_eq. by destruct (procs !! process pr).
    + by rewrite list_lookup_alter_ne.
  - intros q Q c. destruct (decide (process pr = q)) as [<-|E].
    + rewrite list_lookup_alter_eq. intros (P & HP & ->)%fmap_Some Hq. rewrite future_pushed, Ha by done.
      case_decide; [by eexists|by eapply D2].
    + rewrite list_lookup_alter_ne by done. by eapply D2.
  - intros n' i' pr' Q c Hn' [(<- & <- & _)|[E Hi']]%list_lookup_insert_Some.
    + cbn. rewrite list_lookup_alter_eq. intros (P & HP & ->)%fmap_Some. rewrite future_pushed, Ha by done.
      rewrite lookup_insert_None. intros [Hs E]. rewrite decide_False by done. by eapply D3.
    + destruct (decide (process pr' = process pr)) as [E'|E']; [by destruct E; symmetry; eapply Hu|].
      rewrite list_lookup_alter_ne by done. by eapply D3.
Qed.

(** A component whose future is settled is removed from its process record. *)
Lemma discipline_remove i pr c :
  discipline_ok mp prs procs evs -> prs !! i = Some pr ->
  (forall P, procs !! process pr = Some P -> future c P = Some false) ->
  discipline_ok mp (<[i := removeService c pr]> prs) procs evs.
Proof.
  intros [D1 D2 D3] Hi Hc. split; [done|done|].
  intros n j pr' P d Hn [(<- & <- & _)|[E Hj]]%list_lookup_insert_Some; [|by eapply D3].
  cbn. intros HP [<-|?]%lookup_delete_None; [by apply Hc|by eapply D3].
Qed.

Lemma discipline_delete n : discipline_ok mp prs procs evs -> discipline_ok (delete n mp) prs procs evs.
Proof.
  intros [D1 D2 D3]. split; [done|done|]. intros m i pr P c [_ Hm]%lookup_delete_Some. by eapply D3.
Qed.

(** A new process starts empty. *)
Lemma discipline_process n i :
  discipline_ok mp prs procs evs -> i = length prs ->
  (forall m j, mp !! m = Some j -> exists pr, prs !! j = Some pr /\ (process pr < length procs)%nat) ->
  discipline_ok (<[n := i]> mp) (prs ++ [mkProcessRecord n (length procs) ∅])
    (procs ++ [mkProcess n ∅ [] false]) evs.
Proof.
  intros [D1 D2 D3] -> Hp. split.
  - intros p c. rewrite D1. destruct (procs !! p) as [P|] eqn:E.
    + by rewrite (lookup_app_l_Some _ _ _ _ E).
    + apply lookup_ge_None in E. rewrite lookup_app_r by done.
      by destruct (p - length procs)%nat as [|[]].
  - intros p P c [HP|[_ HP]]%lookup_app_Some; [by eapply D2|].
    apply list_lookup_singleton_Some in HP as [_ <-]. intros _. by exists false.
  - intros m j pr P c [[<- <-]|[E Hm]]%lookup_insert_Some Hj HP Hc.
    + rewrite list_lookup_middle in Hj by done. simplify_eq. cbn in HP.
      rewrite list_lookup_middle in HP by done. by simplify_eq.
    + destruct (Hp m j Hm) as (pr' & Hj' & Hlt). rewrite (lookup_app_l_Some _ _ _ _ Hj') in Hj. simplify_eq.
      rewrite lookup_app_l in HP by done. by eapply D3.
Qed.

(** A process handles a message. *)
Lemma discipline_handle p P P' es :
  discipline_ok mp prs procs evs -> procs !! p = Some P -> mQuitting P' = mQuitting P ->
  (mQuitting P = false -> forall c, future c P' = future c P) ->
  (forall c, phase (evs ++ es) p c = Some (bool_decide (c ∈ mServices P'))) ->
  (forall q c, q <> p -> phase (evs ++ es) q c = phase evs q c) ->
  (forall n pr i, mp !! n = Some i -> prs !! i = Some pr -> process pr = p -> mQuitting P = false) ->
  discipline_ok mp prs (<[p := P']> procs) (evs ++ es).
Proof.
  intros [D1 D2 D3] HP Hq Hf He Ho Hm. assert (p < length procs)%nat by (by eapply lookup_lt_Some). split.
  - intros q c. destruct (decide (q = p)) as [->|E].
    + by rewrite He, list_lookup_insert_eq.
    + by rewrite Ho, D1, list_lookup_insert_ne.
  - intros q Q c [(<- & <- & _)|[E HQ]]%list_lookup_insert_Some HqQ; [|by eapply D2].
    rewrite Hq in HqQ. rewrite (Hf HqQ). by eapply D2.
  - intros n i pr Q c Hn Hi [(E & <- & _)|[E HQ]]%list_lookup_insert_Some Hc; [|by eapply D3].
    rewrite (Hf (Hm _ _ _ Hn Hi (eq_sym E))). eapply D3; [done..|congruence|done].
Qed.
End discipline.

(** ** The invariant *)

(** What the messages under way can still cause, in messages. *)
Definition weight (m : ManagerMessage) : nat :=
  match m with
  | Result _ _ => 1
  | Request (MSG_STOP _) | Request (MSG_STOP_SYSTEM _) => 3
  | Request (MSG_UNBIND _ _) => 6
  | Request _ => 5
  end.
Definition pending (P : Process) : nat := 2 * length (mQueue P).
Definition cost (w : world) : nat :=
  sum_list_with pending (processes w) + sum_list_with weight (mHandler w).

Lemma sum_insert {A} (f : A -> nat) l i x y :
  l !! i = Some x -> (sum_list_with f (<[i := y]> l) + f x = sum_list_with f l + f y)%nat.
Proof.
  intros Hi. rewrite <- (take_drop_middle l i x Hi) at 2.
  rewrite insert_take_drop by (by eapply lookup_lt_Some).
  rewrite !sum_list_with_app. cbn. lia.
Qed.

Lemma view_pushed m (p : nat) (procs : list Process) : view <$> alter (pushed m) p procs = view <$> procs.
Proof.
  rewrite (list_fmap_alter view (pushed m) id) by (apply Forall_true; done).
  apply list_alter_id. done.
Qed.

Lemma cost_pushed m (p : nat) (procs : list Process) :
  (sum_list_with pending (alter (pushed m) p procs) <= sum_list_with pending procs + 2)%nat.
Proof.
  destruct (procs !! p) as [P|] eqn:HP.
  - assert (alter (pushed m) p procs = <[p := pushed m P]> procs) as ->.
    { rewrite list_insert_alter. apply list_alter_ext; [|done]. intros x Hx. congruence. }
    pose proof (sum_insert pending procs p P (pushed m P) HP) as Hs.
    unfold pending in *. cbn [pushed ProcessImpl.set_queue mQueue] in Hs. rewrite length_app in Hs. cbn [length] in Hs. lia.
  - rewrite list_alter_ext with (g := id) (k := procs); [|congruence|done]. rewrite list_alter_id; [lia|done].
Qed.

Section invariant.
Context {classes : Classes} {packages : PackageManager}.

(** No package declares a service it disables. *)
Definition all_enabled : Prop := forall c si, resolve c = Some si -> isEnabled si = true.

Record inv (idle : option (list Z)) (w : world) : Prop := {
  i_tables : tables_ok (mProcesses w) (mRecords w) (pm_mProcesses w) (pm_mHandler w) (stopping w)
    (view <$> processes w) (processRecords w) (serviceRecords w) idle;
  i_messages : messages_ok (listeners w) (promises w) (processes w) (mHandler w) None;
  i_discipline : all_enabled ->
    discipline_ok (mProcesses w) (processRecords w) (processes w) (events w);
}.

Lemma creates_enabled i :
  all_enabled -> (systemService i = false -> is_Some (resolve (getComponent i))) ->
  ProcessImpl.creates i = instantiates (className (getComponent i)).
Proof.
  intros He Hr. unfold ProcessImpl.creates. destruct (systemService i); [done|].
  destruct (Hr eq_refl) as [si Hsi]. by rewrite Hsi, (He _ _ Hsi).
Qed.

(** The record of a component, its process record and its process. *)
Lemma find_record idle w c r :
  inv idle w -> mRecords w !! c = Some r ->
  exists sr pr P, serviceRecords w !! r = Some sr /\ alive sr = true /\
    processRecords w !! processRecord sr = Some pr /\ mProcesses w !! pr_name pr = Some (processRecord sr) /\
    processes w !! process pr = Some P /\ mQuitting P = false /\ services pr !! c = Some r.
Proof.
  intros [[T1 _ T3 T4 _] _ _] Hc. destruct (T1 c r Hc) as (i & pr & [_ (sr & Hr & Ha & <-)] & Hi & Hm & Hs).
  destruct (T3 _ _ Hm) as (pr' & Hi' & _ & Hp & _). simplify_eq.
  destruct (T4 _ _ Hp) as (_ & Hv & _). apply list_lookup_fmap_Some in Hv as (P & HPv & HP). injection HPv as _ HQ.
  exists sr, pr, P. split_and!; done.
Qed.

Lemma find_process idle w n i :
  inv idle w -> mProcesses w !! n = Some i ->
  exists pr P, processRecords w !! i = Some pr /\ pr_name pr = n /\
    processes w !! process pr = Some P /\ mQuitting P = false /\
    (forall c, mRecords w !! c = None -> services pr !! c = None) /\
    (forall m j pr', mProcesses w !! m = Some j -> processRecords w !! j = Some pr' ->
       process pr' = process pr -> j = i).
Proof.
  intros [[T1 _ T3 T4 _] _ _] Hn. destruct (T3 n i Hn) as (pr & Hi & Hpn & Hp & _ & Hs).
  destruct (T4 _ _ Hp) as (_ & Hv & _). pose proof Hv as Hv'.
  apply list_lookup_fmap_Some in Hv as (P & HPv & HP). injection HPv as Hn' HQ.
  exists pr, P. split_and!; try done.
  - intros c Hc. destruct (services pr !! c) as [r|] eqn:E; [|done].
    destruct (Hs _ _ E) as [Hc' _]. congruence.
  - intros m j pr' Hm Hj Heq. destruct (T3 m j Hm) as (pr2 & Hj2 & Hpn2 & Hp2 & _ & _). simplify_eq.
    destruct (T4 _ _ Hp2) as (_ & Hv2 & _). rewrite Heq, Hv' in Hv2. simplify_eq. congruence.
Qed.

(** ** Preparing a process and a service *)

Definition ready (n : list Z) (w w' : world) : Prop :=
  (inv None w' \/ inv (Some n) w') /\ is_Some (mProcesses w' !! n) /\
  mRecords w' = mRecords w /\ serviceRecords w' = serviceRecords w /\ listeners w' = listeners w /\
  promises w' = promises w /\ mHandler w' = mHandler w /\ cost w' = cost w.

Lemma prepareProcess_ok n w : inv None w -> wp (prepareProcess n) (fun _ w' => ready n w w') w.
Proof.
  intros I. unfold prepareProcess. apply wp_bind, wp_gets.
  destruct (mProcesses w !! n) as [i|] eqn:Hn.
  - destruct (find_process _ _ _ _ I Hn) as (pr & P & Hi & _). eapply wp_bind, wp_deref; [exact Hi|].
    apply wp_ret. unfold ready. rewrite Hn. naive_solver.
  - pose proof I as [T Ms D]. pose proof T as [_ _ T3 T4 _].
    assert (pm_mProcesses w !! n = None) as Hpm.
    { destruct (pm_mProcesses w !! n) as [p|] eqn:E; [|done]. destruct (T4 _ _ E) as [[? ?] _]. congruence. }
    unfold ProcessManager.startProcess. apply wp_bind, wp_bind, wp_gets. rewrite Hpm.
    unfold wp; cbn. split; [right; split; cbn|].
    + rewrite fmap_app. pose proof (tables_new_process n T Hn) as T'. by rewrite length_fmap in T'.
    + by apply messages_process.
    + intros He. specialize (D He). apply discipline_process; [done|done|].
      intros m j Hm. destruct (find_process _ _ _ _ I Hm) as (pr & P & ? & _ & HP & _).
      exists pr. split; [done|]. by eapply lookup_lt_Some.
    + split; [eexists; apply lookup_insert_eq|]. split_and!; [done..|]. unfold cost. cbn.
      rewrite sum_list_with_app. cbn. lia.
Qed.

Definition extras_ok (i : Intent) : Prop :=
  systemService i = true -> is_Some (nameExtra i) /\ is_Some (processExtra i).

(** The world after [prepareService] made a record and asked for the instance. *)
Lemma create_ok w i n j pr P sr idle :
  inv idle w -> idle = None \/ idle = Some n ->
  mRecords w !! getComponent i = None -> mProcesses w !! n = Some j -> processRecords w !! j = Some pr ->
  processes w !! process pr = Some P -> alive sr = true -> processRecord sr = j ->
  (systemService i = false -> is_Some (resolve (getComponent i))) ->
  inv None
    (sent (process pr) (MSG_CREATE_SERVICE i (length (listeners w)))
      (set_callbacks (mServiceCallbacks w ++ [length (listeners w)])
        (set_answers (listeners w ++ [OnCreated i]) (promises w) (bound w)
          (set_records (<[j := addService (getComponent i) (length (serviceRecords w)) pr]> (processRecords w))
             (serviceRecords w ++ [sr])
             (set_tables (mProcesses w) (<[getComponent i := length (serviceRecords w)]> (mRecords w)) w))))).
Proof.
  intros I Hidle Hc Hn Hj HP Ha Hsr Hr.
  destruct (find_process _ _ _ _ I Hn) as (pr' & P' & Hj' & _ & HP' & HQ & Hs & Hu). simplify_eq.
  pose proof I as [T Ms D]. split; cbn.
  - rewrite view_pushed. by eapply tables_add.
  - apply (messages_send _ P); [|done|done|].
    { apply (messages_listener _ _ _ Ms). by left. }
    cbn. split; [by rewrite list_lookup_middle|done].
  - intros He. eapply discipline_create; [by apply D|done|done|done|by apply Hs].
Qed.

Definition keeps_listeners (w w' : world) : Prop :=
  forall cb l, listeners w !! cb = Some l -> listeners w' !! cb = Some l.

(** What a call of the service manager leaves: the invariant, at most [k] more messages' worth of
    work, and the listeners. *)
Definition grows (k : nat) (w w' : world) : Prop :=
  inv None w' /\ (cost w' <= cost w + k)%nat /\ keeps_listeners w w'.

Lemma grows_trans k1 k2 k w1 w2 w3 :
  grows k1 w1 w2 -> grows k2 w2 w3 -> (k1 + k2 <= k)%nat -> grows k w1 w3.
Proof. intros (_ & ? & L1) (? & ? & L2) ?. split; [done|]. split; [lia|]. intros cb l ?. by apply L2, L1. Qed.

Lemma grows_refl k w : inv None w -> grows k w w.
Proof. intros ?. split; [done|]. split; [lia|]. by intros cb l. Qed.

Lemma cost_sent p m w : (cost (sent p m w) <= cost w + 2)%nat.
Proof. unfold cost, sent. cbn. pose proof (cost_pushed m p (processes w)). lia. Qed.

Lemma serviceInfo_some service info :
  extras_ok service -> serviceInfo service = Some info ->
  exists nm n, info = (Some nm, Some n).
Proof.
  intros Hx. unfold serviceInfo. destruct (systemService service) eqn:E.
  - destruct (Hx E) as [[nm Hnm] [n Hn]]. rewrite Hnm, Hn. intros [= <-]. by eexists _, _.
  - intros (si & _ & ->)%fmap_Some. by eexists _, _.
Qed.

Lemma serviceInfo_resolved service info :
  serviceInfo service = Some info -> systemService service = false -> is_Some (resolve (getComponent service)).
Proof. unfold serviceInfo. intros E Hs. rewrite Hs in E. apply fmap_Some in E as (si & -> & _). done. Qed.

Lemma prepareService_ok service w :
  inv None w -> extras_ok service ->
  wp (prepareService service) (fun b w' =>
    grows 2 w w' /\ (b = true -> is_Some (mRecords w' !! getComponent service))) w.
Proof.
  intros I Hx. unfold prepareService. destruct (serviceInfo service) as [info|] eqn:Ei.
  2: { apply wp_ret. by split; [apply grows_refl|]. }
  pose proof (serviceInfo_resolved _ _ Ei) as Hres.
  destruct (serviceInfo_some _ _ Hx Ei) as (nm & n & ->).
  apply wp_bind, wp_gets. destruct (mRecords w !! getComponent service) as [r|] eqn:Hc.
  - destruct (find_record _ _ _ _ I Hc) as (sr & pr & P & Hr & Ha & _).
    apply wp_bind, wp_ret. eapply wp_bind, wp_deref; [exact Hr|]. rewrite Ha. apply wp_ret.
    split; [by apply grows_refl|]. intros _. by exists r.
  - unfold newRecord. do 2 apply wp_bind. cbn [fst snd unwrap]. apply wp_ret, wp_bind.
    eapply wp_mono; [by apply prepareProcess_ok|]. intros p1 w1 (I1 & [i Hn] & Er & Es & El & Ep & Eh & Ec).
    assert (exists idle, inv idle w1 /\ (idle = None \/ idle = Some n)) as (idle & I1' & Hidle).
    { destruct I1; [by exists None; split; [|left]|by exists (Some n); split; [|right]]. }
    rewrite <- Er in Hc.
    destruct (find_process _ _ _ _ I1' Hn) as (pr & P & Hi & Hpn & HP & HQ & Hs & _).
    apply wp_bind, wp_gets, wp_bind. rewrite Hn. apply wp_ret, wp_bind, wp_ret.
    apply wp_bind. unfold newServiceRecord at 1. unfold wp at 1. apply wp_bind, wp_modify.
    eapply wp_bind, wp_deref; [exact Hi|].
    assert (containsService (getComponent service) pr = false) as ->.
    { apply bool_decide_eq_false. rewrite (Hs _ Hc). by intros []. }
    apply wp_bind. eapply wp_update_processRecord; [exact Hi|]. apply wp_ret.
    eapply wp_bind, wp_deref; [cbn; by apply list_lookup_middle|]. cbn [alive].
    apply wp_bind. eapply wp_update_record; [cbn; by apply list_lookup_middle|].
    eapply wp_bind, wp_deref; [cbn; rewrite list_lookup_insert_eq; [done|by eapply lookup_lt_Some]|].
    apply wp_bind. unfold newCallback, wp at 1. apply wp_bind, wp_failure.
    eapply wp_send; [exact HP|done|]. apply wp_ret.
    cbn [processRecords serviceRecords set_records set_tables].
    rewrite insert_app_r_alt, Nat.sub_diag by done. cbn [list_insert insert].
    set (sr1 := set_state _ _ _).
    split.
    + split; [|split].
      * eapply (create_ok w1 service n i pr P sr1 idle); try done.
      * eapply Nat.le_trans; [apply cost_sent|]. unfold cost in *. cbn. lia.
      * intros cb l Hcb. cbn. rewrite El. by apply lookup_app_l_Some.
    + intros _. cbn. rewrite lookup_insert_eq. done.
Qed.

(** A promise answered at once. *)
Lemma replied_ok v w : inv None w -> wp (newPromise (Some v)) (fun _ w' => grows 0 w w') w.
Proof.
  intros [T Ms D]. unfold wp, newPromise. split; [split; cbn; [done|by apply messages_answered|done]|].
  split; [unfold cost; cbn; lia|by intros cb l].
Qed.

(** A promise, its callback, and the message to the process that answers it. *)
Lemma ask_ok w p P m l cs k :
  inv None w -> processes w !! p = Some P -> mQuitting P = false ->
  target l = Some (length (promises w)) -> msg_ok (listeners w ++ [l]) m -> length (listeners w) ∈ callbacks m ->
  (forall P c, processes w !! p = Some P -> advance c (future c P) m = future c P \/ advance c (future c P) m = Some false) ->
  grows 2 w (sent p m (set_startId k (set_callbacks cs
     (set_answers (listeners w ++ [l]) (promises w ++ [None]) (bound w) w)))).
Proof.
  intros [T Ms D] HP HQ Ht Hm Hcb Ha. split; [split; cbn|split].
  - by rewrite view_pushed.
  - apply (messages_paid (length (listeners w)) l (length (promises w))); [|by apply list_lookup_middle|done|].
    + apply (messages_send _ P); [|done..]. apply (messages_listener _ _ _ Ms). by right.
    + left. exists p, (pushed m P), m. rewrite list_lookup_alter_eq, HP. split_and!; [done|cbn; set_solver|done].
  - intros He. apply discipline_push; [by apply D|done].
  - eapply Nat.le_trans; [apply cost_sent|]. done.
  - intros cb x Hx. cbn. by apply lookup_app_l_Some.
Qed.

(** A message that has no callback of the manager's. *)
Lemma tell_ok w p P m :
  inv None w -> processes w !! p = Some P -> mQuitting P = false -> msg_ok (listeners w) m ->
  (forall P c, processes w !! p = Some P -> advance c (future c P) m = future c P \/ advance c (future c P) m = Some false) ->
  grows 2 w (sent p m w).
Proof.
  intros [T Ms D] HP HQ Hm Ha. split; [split; cbn|split; [apply cost_sent|by intros cb l]].
  - by rewrite view_pushed.
  - by apply (messages_send _ P).
  - intros He. apply discipline_push; [by apply D|done].
Qed.

(** A change of a record that keeps it alive. *)
Lemma record_ok w c r f sr :
  inv None w -> mRecords w !! c = Some r -> serviceRecords w !! r = Some sr ->
  alive (f sr) = alive sr -> processRecord (f sr) = processRecord sr ->
  grows 0 w (set_records (processRecords w) (<[r := f sr]> (serviceRecords w)) w).
Proof.
  intros [T Ms D] Hc Hr Ha Hp. split; [split; cbn; [|done|done]|split; [unfold cost; cbn; lia|by intros cb l]].
  by eapply tables_alter.
Qed.

Lemma startService_ok service w :
  inv None w -> extras_ok service -> wp (startService service) (fun _ w' => grows 4 w w') w.
Proof.
  intros I Hx. unfold startService. apply wp_bind.
  eapply wp_mono; [by apply prepareService_ok|]. intros b w1 [G Hb]. cbn beta. pose proof G as [I1 _].
  destruct b; cbn [negb].
  2: { eapply wp_mono; [by apply replied_ok|]. intros p w2 G2. eapply grows_trans; [exact G|exact G2|lia]. }
  destruct (Hb eq_refl) as [r Hc]. destruct (find_record _ _ _ _ I1 Hc) as (sr & pr & P & Hr & Ha & Hi & _ & HP & HQ & _).
  apply wp_bind, wp_gets, wp_bind. rewrite Hc. apply wp_ret, wp_bind.
  eapply wp_update_record; [exact Hr|].
  pose proof (record_ok w1 _ r (fun sr => set_state (alive sr) true sr) sr I1 Hc Hr eq_refl eq_refl) as G2.
  set (w2 := set_records _ _ _) in *. pose proof G2 as [I2 _].
  apply wp_bind. unfold newPromise, newCallback, wp at 1. apply wp_bind. unfold wp at 1.
  eapply wp_bind, wp_deref; [cbn; rewrite list_lookup_insert_eq; [done|by eapply lookup_lt_Some]|].
  eapply wp_bind, wp_deref; [cbn; exact Hi|]. apply wp_bind, wp_gets, wp_bind, wp_modify, wp_bind, wp_failure.
  eapply wp_send; [exact HP|done|]. apply wp_ret.
  eapply grows_trans; [exact G| |]; [eapply grows_trans; [exact G2| |]|].
  - eapply (ask_ok w2 _ P); [done|done|done|done| | |].
    + cbn. eexists _, _. by apply list_lookup_middle.
    + cbn. by apply list_elem_of_singleton.
    + intros P' c _. left. by destruct (future c P').
  - reflexivity.
  - reflexivity.
Qed.

(** A record whose process will not have the component is forgotten. *)
Lemma forget_ok w c r sr pr :
  inv None w -> mRecords w !! c = Some r -> serviceRecords w !! r = Some sr ->
  processRecords w !! processRecord sr = Some pr ->
  (all_enabled -> forall P, processes w !! process pr = Some P -> future c P = Some false) ->
  wp (forget c r) (fun _ w' => grows 0 w w') w.
Proof.
  intros I Hc Hr Hi Hf. pose proof I as [T Ms D]. unfold forget.
  eapply wp_bind, wp_deref; [exact Hr|]. apply wp_bind. eapply wp_update_record; [exact Hr|].
  apply wp_bind, wp_modify, wp_bind. eapply wp_update_processRecord; [exact Hi|].
  assert (processRecord sr < length (processRecords w))%nat by (by eapply lookup_lt_Some).
  eapply wp_bind, wp_deref; [cbn; by rewrite list_lookup_insert_eq|].
  destruct (tables_remove c r sr pr T Hc Hr Hi) as [T1 Hn].
  set (prs' := <[processRecord sr := removeService c pr]> (processRecords w)) in *.
  assert (prs' !! processRecord sr = Some (removeService c pr)) as Hi' by (by apply list_lookup_insert_eq).
  assert (all_enabled -> discipline_ok (mProcesses w) prs' (processes w) (events w)) as D1.
  { intros He. apply discipline_remove; [by apply D|done|by apply Hf]. }
  case_decide as Hz.
  - destruct (tables_stop _ _ _ T1 Hn Hi' (map_size_empty_inv _ Hz)) as [T2 Hpm].
    unfold ProcessManager.stopProcess. apply wp_bind, wp_bind, wp_gets, wp_bind, wp_modify. cbn [pr_name removeService].
    cbn [pm_mProcesses]. cbn [pr_name removeService process] in T2, Hpm. cbn.
    match goal with |- context [pm_mProcesses w !! ?x] => replace (pm_mProcesses w !! x) with (Some (process pr)) end.
    unfold wp; cbn. split; [split; cbn|split; [unfold cost; cbn; lia|by intros cb l]]; [done|done|].
    intros He. by apply discipline_delete, D1.
  - apply wp_ret. split; [split; cbn|split; [unfold cost; cbn; lia|by intros cb l]]; [|done|done].
    eapply tables_busy; [done..|]. intros E. destruct Hz. unfold numServices. rewrite E. apply map_size_empty.
Qed.

(** A stop settles the future of its component, and leaves the others alone. *)
Lemma advance_stop c P i o idle w p :
  inv idle w -> all_enabled -> processes w !! p = Some P -> mQuitting P = false ->
  advance c (future c P) (MSG_STOP_SERVICE i o) = (if decide (getComponent i = c) then Some false else future c P).
Proof.
  intros [_ _ D] He HP HQ. destruct (d_future _ _ _ _ (D He) _ _ c HP HQ) as (b & Hb & _). cbn. by rewrite Hb.
Qed.

Lemma advance_keeps c b m :
  match m with MSG_CREATE_SERVICE _ _ => false | _ => true end = true ->
  advance c b m = b \/ advance c b m = Some false.
Proof. destruct m, b; cbn; try case_decide; eauto; done. Qed.

Lemma stopService_ok service w : inv None w -> wp (stopService service) (fun _ w' => grows 2 w w') w.
Proof.
  intros I. unfold stopService. apply wp_bind, wp_gets.
  assert (wp (newPromise (Some (Answer false))) (fun _ w' => grows 2 w w') w) as Hno.
  { eapply wp_mono; [by apply replied_ok|]. intros p w' G.
    eapply grows_trans; [by apply (grows_refl 0)|exact G|lia]. }
  destruct (mRecords w !! getComponent service) as [r|] eqn:Hc; [|done].
  destruct (find_record _ _ _ _ I Hc) as (sr & pr & P & Hr & Ha & Hi & Hm & HP & HQ & Hs).
  eapply wp_bind, wp_deref; [exact Hr|]. eapply wp_bind, wp_deref; [exact Hi|].
  rewrite Ha. cbn [negb]. case_bool_decide; cbn [negb]; [|done].
  apply wp_bind. unfold newPromise, newCallback, wp at 1. apply wp_bind. unfold wp at 1.
  apply wp_bind, wp_failure. eapply wp_send; [exact HP|done|]. apply wp_bind.
  set (m := MSG_STOP_SERVICE _ _).
  assert (grows 2 w (sent (process pr) m (set_startId (mStartId w) (set_callbacks (mServiceCallbacks w ++ [length (listeners w)])
     (set_answers (listeners w ++ [OnStopped (length (promises w))]) (promises w ++ [None]) (bound w) w))))) as G1.
  { eapply (ask_ok w _ P m (OnStopped (length (promises w)))); [done|done|done|done| | |].
    - cbn. eexists. by apply list_lookup_middle.
    - cbn. by apply list_elem_of_singleton.
    - intros P' c _. by apply advance_keeps. }
  pose proof G1 as [I1 _]. eapply wp_mono.
  - eapply (forget_ok _ _ r sr pr I1); [exact Hc|exact Hr|exact Hi|].
    intros He P'. cbn. rewrite list_lookup_alter_eq, HP. cbn. intros [= <-]. rewrite future_pushed.
    unfold m. rewrite (advance_stop _ _ _ _ None w (process pr)) by done. by rewrite decide_True.
  - intros [] w' G2. apply wp_ret. eapply grows_trans; [exact G1|exact G2|lia].
Qed.

Lemma bindService_ok intent conn flags callback w :
  inv None w -> listeners w !! callback = Some OnBound ->
  wp (bindService intent conn flags callback) (fun _ w' => grows 4 w w') w.
Proof.
  intros I Hb. unfold bindService. apply wp_bind. eapply wp_mono.
  { apply prepareService_ok; [done|]. by intros ?. }
  intros b w1 [G Hp]. cbn beta. pose proof G as (I1 & _ & L).
  assert (forall v k w2, grows k w w2 -> (k <= 4)%nat -> wp (newPromise (Some v)) (fun _ w' => grows 4 w w') w2) as Hno.
  { intros v k w2 G2 Hk. pose proof G2 as [I2 _]. eapply wp_mono; [by apply replied_ok|]. intros p w' G3.
    eapply grows_trans; [exact G2|exact G3|lia]. }
  destruct b; cbn [negb]; [|eapply Hno; [exact G|lia]].
  destruct (Hp eq_refl) as [r Hc]. apply wp_bind, wp_gets. rewrite Hc.
  destruct (find_record _ _ _ _ I1 Hc) as (sr & pr & P & Hr & Ha & Hi & Hm & HP & HQ & Hs).
  eapply wp_bind, wp_deref; [exact Hr|]. apply wp_bind.
  destruct (hasServiceConnection conn sr); cbn [negb].
  { apply wp_ret. eapply Hno; [exact G|lia]. }
  apply wp_bind. eapply wp_update_record; [exact Hr|].
  pose proof (record_ok w1 _ r (addServiceConnection conn) sr I1 Hc Hr eq_refl eq_refl) as G2.
  set (w2 := set_records _ _ _) in *. pose proof G2 as [I2 _].
  eapply wp_bind, wp_deref; [exact Hi|]. apply wp_failure. eapply wp_send; [exact HP|done|].
  eapply (Hno _ 4%nat); [|lia]. apply (grows_trans 2 2 4 w w1); [exact G| |lia].
  apply (grows_trans 0 2 2 w1 w2); [exact G2| |lia]. eapply (tell_ok w2 _ P); [done|done|done|by apply L|].
  intros P' c _. by apply advance_keeps.
Qed.

Lemma request_ok r w :
  inv None w -> mgr_ok (listeners w) (Request r) ->
  grows (weight (Request r)) w (set_mHandler (mHandler w ++ [Request r]) w).
Proof.
  intros [T Ms D] Hr. split; [split; cbn; [done|by apply messages_request|done]|split; [|by intros cb l]].
  unfold cost. cbn [mHandler set_mHandler processes]. rewrite sum_list_with_app. cbn [sum_list_with]. lia.
Qed.

Lemma unbindService_ok service conn w :
  inv None w -> wp (unbindService service conn None) (fun _ w' => grows 5 w w') w.
Proof.
  intros I. unfold unbindService. apply wp_bind, wp_gets.
  destruct (mRecords w !! getComponent service) as [r|] eqn:Hc; [|by apply wp_ret, grows_refl].
  destruct (find_record _ _ _ _ I Hc) as (sr & pr & P & Hr & Ha & Hi & Hm & HP & HQ & Hs).
  eapply wp_bind, wp_deref; [exact Hr|]. eapply wp_bind, wp_deref; [exact Hi|].
  apply wp_bind, wp_failure. eapply wp_send; [exact HP|done|]. set (m := MSG_UNBIND_SERVICE _ _).
  assert (grows 2 w (sent (process pr) m w)) as G1.
  { eapply (tell_ok w _ P m); [done|done|done|done|]. intros P' c _. by apply advance_keeps. }
  pose proof G1 as [I1 _]. apply wp_bind. eapply wp_update_record; [exact Hr|].
  pose proof (record_ok _ _ r (removeServiceConnection conn) sr I1 Hc Hr eq_refl eq_refl) as G2.
  set (w2 := set_records _ _ _) in *. pose proof G2 as [I2 _].
  eapply wp_bind, wp_deref; [cbn; rewrite list_lookup_insert_eq; [done|by eapply lookup_lt_Some]|].
  case_decide.
  - apply wp_failure, wp_modify. eapply (grows_trans 2 3 5); [exact G1| |lia].
    apply (grows_trans 0 3 3 _ w2); [exact G2|by apply request_ok|lia].
  - apply wp_ret. eapply grows_trans; [exact G1|exact G2|lia].
Qed.

(** The extras [startSystemService] puts are there. *)
Lemma onTransact_ok r w :
  inv None w -> mgr_ok (listeners w) (Request r) ->
  wp (ServiceManager.onTransact r) (fun _ w' => grows (weight (Request r) - 1) w w') w.
Proof.
  intros I Hr. destruct r as [s|s|s conn flags cb|s conn|s|s]; cbn [ServiceManager.onTransact weight Nat.sub].
  - apply wp_fmap, startService_ok; [done|]. by intros ?.
  - by apply wp_fmap, stopService_ok.
  - by apply wp_fmap, bindService_ok.
  - apply wp_bind. eapply wp_mono; [by apply unbindService_ok|]. by intros [] w' G.
  - apply wp_fmap, startService_ok; [done|]. by intros _.
  - by apply wp_fmap, stopService_ok.
Qed.

Lemma cleanupService_ok service w :
  inv None w -> (all_enabled -> instantiates (className (getComponent service)) = false) ->
  wp (cleanupService service) (fun _ w' => grows 0 w w') w.
Proof.
  intros I Hf. unfold cleanupService. apply wp_bind, wp_gets.
  destruct (mRecords w !! getComponent service) as [r|] eqn:Hc; [|by apply wp_ret, grows_refl].
  destruct (find_record _ _ _ _ I Hc) as (sr & pr & P & Hr & Ha & Hi & Hm & HP & HQ & Hs).
  apply wp_bind. eapply wp_mono.
  - eapply (forget_ok _ _ r sr pr I); [exact Hc|exact Hr|exact Hi|].
    intros He P' HP'. simplify_eq. destruct (d_future _ _ _ _ (i_discipline _ _ I He) _ _ (getComponent service) HP HQ) as (b & Hb & Hinst).
    rewrite Hb. destruct b; [|done]. rewrite (Hf He) in Hinst. by specialize (Hinst eq_refl).
  - intros [] w' G. by apply wp_ret.
Qed.

(** ** The thread of the service manager *)

Lemma complete_ok p v (Q : unit -> world -> Prop) w :
  (p < length (promises w))%nat ->
  (forall ps', length ps' = length (promises w) ->
     (forall q, ps' !! q = Some None -> promises w !! q = Some None /\ q <> p) ->
     Q tt (set_answers (listeners w) ps' (bound w) w)) ->
  wp (complete p v) Q w.
Proof.
  intros [o Ho]%lookup_lt_is_Some HQ. unfold complete. eapply wp_bind, wp_deref; [exact Ho|].
  destruct o as [r|].
  - apply wp_ret. specialize (HQ (promises w) eq_refl). destruct w. apply HQ. intros q Hq. split; [done|].
    intros ->. cbn in *. congruence.
  - apply wp_modify, HQ; [apply length_insert|]. intros q [(_ & ? & _)|[E ?]]%list_lookup_insert_Some; [done|].
    split; [done|congruence].
Qed.

(** A step of a thread: nothing to do, or one message less. *)
Definition progress (idle : Prop) (w w' : world) : Prop :=
  inv None w' /\ (idle /\ w' = w \/ ~ idle /\ (cost w' < cost w)%nat).

Lemma onResult_ok cb b mh w :
  inv None w -> mHandler w = Result cb b :: mh ->
  wp (onResult cb b) (fun _ w' => inv None w' /\ (cost w' < cost w)%nat) (set_mHandler mh w).
Proof.
  intros I Hq. pose proof I as [T Ms D].
  assert (mgr_ok (listeners w) (Result cb b)) as Hm.
  { eapply m_manager; [exact Ms|]. rewrite Hq. by left. }
  cbn in Hm. destruct (listeners w !! cb) as [l|] eqn:Hl; [|done].
  assert (cost (set_mHandler mh w) + 1 = cost w)%nat as Ec.
  { unfold cost. rewrite Hq. cbn. lia. }
  assert (forall ps' (cs : list nat), length ps' = length (promises w) ->
    (forall p, ps' !! p = Some None -> promises w !! p = Some None /\ target l <> Some p) ->
    inv None (set_answers (listeners w) ps' (bound w) (set_mHandler mh w))) as Hi.
  { intros ps' cs Hlen Hps. split; cbn; [done| |done]. by eapply messages_result. }
  unfold onResult. eapply wp_bind, wp_deref; [exact Hl|]. apply wp_bind.
  destruct l as [service|c p|p|]; [| | |done].
  - specialize (Hi (promises w) [] eq_refl). destruct b.
    + apply wp_ret, wp_modify. split; [|cbn in *; unfold cost in *; cbn in *; lia].
      destruct Hi as [T' M' D']; [by intros p Hp|]. by split.
    + apply wp_bind. eapply wp_mono.
      * apply cleanupService_ok.
        -- destruct Hi as [T' M' D']; [by intros p Hp|]. by split.
        -- intros He. destruct Hm as [Hb Hr]. by rewrite <- creates_enabled, <- Hb.
      * intros b w' ([T' M' D'] & Hc & _). apply wp_ret, wp_modify. split; [by split|].
        unfold cost in *; cbn in *; lia.
  - apply complete_ok; [by eapply m_target|]. intros ps' Hlen Hps. apply wp_modify.
    destruct (Hi ps' [] Hlen) as [T' M' D'].
    { intros q [? ?]%Hps. split; [done|]. cbn. congruence. }
    split; [by split|]. unfold cost in *; cbn in *; lia.
  - apply complete_ok; [by eapply m_target|]. intros ps' Hlen Hps. apply wp_modify.
    destruct (Hi ps' [] Hlen) as [T' M' D'].
    { intros q [? ?]%Hps. split; [done|]. cbn. congruence. }
    split; [by split|]. unfold cost in *; cbn in *; lia.
Qed.

Lemma loop_ok w : inv None w -> wp ServiceManager.loop (fun _ w' => progress (mHandler w = []) w w') w.
Proof.
  intros I. pose proof I as [T Ms D]. unfold ServiceManager.loop. apply wp_bind, wp_gets.
  destruct (mHandler w) as [|[r|cb b] mh] eqn:Hq.
  - apply wp_ret. split; [done|]. by left.
  - assert (inv None (set_mHandler mh w)) as I1.
    { split; cbn; [done| |done]. by eapply messages_take. }
    assert (mgr_ok (listeners w) (Request r)) as Hm.
    { eapply m_manager; [exact Ms|]. by left. }
    apply wp_bind, wp_modify, wp_bind. eapply wp_mono; [by apply (onTransact_ok _ _ I1)|].
    intros x w' (I2 & Hc & _). apply wp_ret. split; [done|]. right. split; [done|].
    unfold cost in *. rewrite Hq. cbn in *. destruct r; cbn in *; lia.
  - apply wp_bind, wp_modify. eapply wp_mono; [by apply onResult_ok|]. intros [] w' [? ?].
    split; [done|]. by right.
Qed.

(** ** The thread of a process *)

Lemma handle_ok w w' p P m q P' rs es :
  inv None w -> processes w !! p = Some P -> mQueue P = m :: q -> mQueue P' = q -> view P' = view P ->
  processes w' = <[p := P']> (processes w) -> mHandler w' = mHandler w ++ rs -> events w' = events w ++ es ->
  set_events [] (set_mHandler [] (set_processes [] (set_answers [] [] [] w'))) =
    set_events [] (set_mHandler [] (set_processes [] (set_answers [] [] [] w))) ->
  listeners w' = listeners w -> promises w' = promises w ->
  (length rs <= 1)%nat ->
  (forall x, x ∈ rs -> exists cb b, x = Result cb b /\ mgr_ok (listeners w) x) ->
  (forall cb, cb ∈ callbacks m -> listeners w !! cb = Some OnBound \/ exists b, Result cb b ∈ rs) ->
  (all_enabled -> forall c, advance c (Some (bool_decide (c ∈ mServices P))) m <> None ->
     advance c (Some (bool_decide (c ∈ mServices P))) m = Some (bool_decide (c ∈ mServices P')) /\
     foldl (live p c) (Some (bool_decide (c ∈ mServices P))) es = Some (bool_decide (c ∈ mServices P'))) ->
  (forall x c k, (x, c, k) ∈ es -> x = p) ->
  inv None w' /\ (cost w' < cost w)%nat.
Proof.
  intros I HP Hq Hq' Hv Ep Eh Ee Er El Eps Hlen Hrs Hcb Ha Hes. pose proof I as [T Ms D].
  injection Er as E1 E2 E3 E4 E5 E6 E7 E8 E9. injection Hv as Hn HQ. split.
  - split.
    + rewrite E1, E2, E5, E6, E7, E8, E9, Ep, list_fmap_insert.
      rewrite list_insert_id; [done|]. rewrite list_lookup_fmap, HP. cbn. unfold view. by rewrite Hn, HQ.
    + rewrite El, Eps, Ep, Eh. by eapply messages_handle.
    + intros He. specialize (D He). rewrite E1, E8, Ep, Ee.
      assert (mQuitting P = false) as HQP.
      { destruct (mQuitting P) eqn:HQ2; [|done]. pose proof (m_quit _ _ _ _ _ Ms _ _ HP HQ2). congruence. }
      assert (forall c, advance c (Some (bool_decide (c ∈ mServices P))) m <> None) as Hne.
      { intros c Hn'. destruct (d_future _ _ _ _ D _ _ c HP HQP) as (b & Hb & _). unfold future in Hb.
        rewrite Hq in Hb. cbn [foldl] in Hb. rewrite Hn' in Hb. clear -Hb. exfalso.
        induction q as [|x q IH]; cbn in Hb; [done|]. apply IH. destruct x; exact Hb. }
      eapply discipline_handle; [done|exact HP|done| | | |done].
      * intros _ c. unfold future. rewrite Hq, Hq'. cbn [foldl]. by destruct (Ha He c (Hne c)) as [-> _].
      * intros c. unfold phase. rewrite foldl_app. fold (phase (events w) p c).
        rewrite (d_phase _ _ _ _ D), HP. by apply Ha.
      * intros x c E. unfold phase. rewrite foldl_app. generalize (foldl (live x c) (Some false) (events w)).
        clear -Hes E. induction es as [|[[y d] k] es IH]; intros b; [done|]. cbn [foldl].
        rewrite live_other; [apply IH|].
        -- intros ? ? ? ?. eapply Hes. by right.
        -- intros [-> _]. destruct E. eapply Hes. by left.
  - unfold cost. rewrite Ep, Eh, sum_list_with_app.
    pose proof (sum_insert pending _ _ _ P' HP) as Hs. unfold pending in *. rewrite Hq, Hq' in Hs. cbn [length] in Hs.
    assert (sum_list_with weight rs <= 1)%nat; [|lia].
    destruct rs as [|x [|]]; cbn in *; [lia| |lia]. destruct (Hrs x) as (? & ? & -> & _); [by left|cbn; lia].
Qed.

Lemma wp_sendResult cb b l (Q : unit -> world -> Prop) w :
  listeners w !! cb = Some l ->
  (l = OnBound -> Q tt (set_answers (listeners w) (promises w) (bound w ++ [(cb, b)]) w)) ->
  (l <> OnBound -> Q tt (set_mHandler (mHandler w ++ [Result cb b]) w)) ->
  wp (sendResult cb b) Q w.
Proof.
  intros Hl H1 H2. unfold sendResult. eapply wp_bind, wp_deref; [exact Hl|].
  destruct l; (apply wp_modify; (by apply H1) || (by apply H2)).
Qed.

Lemma wp_has_service p c P (Q : bool -> world -> Prop) w :
  processes w !! p = Some P -> Q (bool_decide (c ∈ mServices P)) w -> wp (ProcessImpl.has_service p c) Q w.
Proof. intros HP HQ. unfold ProcessImpl.has_service. eapply wp_bind, wp_deref; [exact HP|]. by apply wp_ret. Qed.

Lemma live_same (p : nat) (c c' : ComponentName) k b b' :
  (c = c' -> live p c (Some b) (p, c, k) = Some b') -> (c <> c' -> b = b') ->
  live p c' (Some b) (p, c, k) = Some b'.
Proof.
  intros He Hn. destruct (decide (c = c')) as [<-|E]; [by apply He|].
  rewrite live_other, Hn by (done || by intros [_ ?]). done.
Qed.

(** The events of a message about a component that is there, or is not. *)
Lemma events_ok (p : nat) (S : gset ComponentName) (c c' : ComponentName) (k : lifecycle) (b : bool) :
  b = bool_decide (c ∈ S) -> live p c (Some true) (p, c, k) = Some true ->
  foldl (live p c') (Some (bool_decide (c' ∈ S))) (if b : bool then [(p, c, k)] else []) = Some (bool_decide (c' ∈ S)).
Proof.
  intros -> Hk. destruct (bool_decide (c ∈ S)) eqn:Hc; [|done]. cbn [foldl]. apply live_same; [|done].
  intros <-. by rewrite Hc.
Qed.

Lemma createService_ok w p P i cb q :
  inv None w -> processes w !! p = Some P -> mQueue P = MSG_CREATE_SERVICE i cb :: q ->
  wp (ProcessImpl.createService p i cb) (fun _ w' => inv None w' /\ (cost w' < cost w)%nat)
    (set_processes (<[p := ProcessImpl.set_queue q P]> (processes w)) w).
Proof.
  intros I HP Hq. pose proof I as [_ Ms _].
  destruct (m_process _ _ _ _ _ Ms p P (MSG_CREATE_SERVICE i cb) HP) as [Hl Hr]; [rewrite Hq; by left|].
  assert (p < length (processes w))%nat as Hlt by (by eapply lookup_lt_Some).
  unfold ProcessImpl.createService. apply wp_bind.
  set (c0 := getComponent i) in *.
  eapply (wp_mono _ (fun _ w' =>
    w' = set_events (events w ++ (if ProcessImpl.creates i then [(p, c0, Created)] else []))
          (set_processes (<[p := mkProcess (mName P) (if ProcessImpl.creates i then {[c0]} ∪ mServices P else mServices P)
             q (mQuitting P)]> (processes w)) w))).
  - destruct (ProcessImpl.creates i).
    + apply wp_bind, wp_modify. eapply wp_update_process; [cbn; by rewrite list_lookup_insert_eq|].
      cbn. by rewrite list_insert_insert_eq.
    + apply wp_ret. rewrite app_nil_r. by destruct w.
  - intros [] w1 ->. eapply wp_sendResult; [exact Hl|done|]. intros _.
    set (P' := mkProcess _ _ _ _).
    eapply (handle_ok w _ p P _ q P' [Result cb (ProcessImpl.creates i)]); try done; try reflexivity.
    + intros x ->%list_elem_of_singleton. eexists _, _. split; [done|]. cbn. by rewrite Hl.
    + intros x ->%list_elem_of_singleton. right. eexists. by apply list_elem_of_singleton.
    + intros He c Hne. unfold P'. cbn in Hne |- *. fold c0 in Hne |- *.
      rewrite (creates_enabled i He Hr). fold c0.
      case_decide as E.
      * subst c. case_bool_decide as Hc; [done|]. destruct (instantiates (className c0)).
        -- split; [by rewrite bool_decide_eq_true_2 by set_solver|]. cbn [foldl]. unfold live.
           rewrite decide_True by done. by rewrite bool_decide_eq_true_2 by set_solver.
        -- split; [by rewrite bool_decide_eq_false_2|]. cbn. by rewrite bool_decide_eq_false_2.
      * assert (bool_decide (c ∈ (if instantiates (className c0) then {[c0]} ∪ mServices P else mServices P)) = bool_decide (c ∈ mServices P)) as ->.
        { apply bool_decide_ext. destruct (instantiates _); set_solver. }
        split; [done|]. destruct (instantiates _); [|done]. cbn [foldl]. rewrite live_other; [done|]. by intros [_ ?].
    + intros x c k. destruct (ProcessImpl.creates i); [|by intros ?%not_elem_of_nil]. by intros [= <- _ _]%list_elem_of_singleton.
Qed.

(** A message that tells an instance something. *)
Lemma tells_ok w p P m q c k cb (b : bool) l :
  inv None w -> processes w !! p = Some P -> mQueue P = m :: q ->
  b = bool_decide (c ∈ mServices P) -> live p c (Some true) (p, c, k) = Some true ->
  callbacks m = [cb] -> listeners w !! cb = Some l ->
  match l with OnCreated _ => False | _ => True end ->
  match m with MSG_CREATE_SERVICE _ _ | MSG_STOP_SERVICE _ _ => False | _ => True end ->
  wp ((if b then occurs p c k else mret tt);; sendResult cb b)
    (fun _ w' => inv None w' /\ (cost w' < cost w)%nat)
    (set_processes (<[p := ProcessImpl.set_queue q P]> (processes w)) w).
Proof.
  intros I HP Hq Hb Hk Hcb Hl Hlk Hm. apply wp_bind.
  eapply (wp_mono _ (fun _ w' =>
    w' = set_events (events w ++ (if b then [(p, c, k)] else []))
          (set_processes (<[p := ProcessImpl.set_queue q P]> (processes w)) w))).
  { destruct b; [by apply wp_modify|]. apply wp_ret. rewrite app_nil_r. by destruct w. }
  intros [] w1 ->. assert (forall w' rs, processes w' = <[p := ProcessImpl.set_queue q P]> (processes w) ->
    mHandler w' = mHandler w ++ rs -> events w' = events w ++ (if b then [(p, c, k)] else []) ->
    set_events [] (set_mHandler [] (set_processes [] (set_answers [] [] [] w'))) =
      set_events [] (set_mHandler [] (set_processes [] (set_answers [] [] [] w))) ->
    listeners w' = listeners w -> promises w' = promises w ->
    rs = [] /\ l = OnBound \/ rs = [Result cb b] /\ l <> OnBound -> inv None w' /\ (cost w' < cost w)%nat) as Hok.
  { intros w' rs Ep Eh Ee Er El Eps Hrs.
    eapply (handle_ok w w' p P m q _ rs _ I HP Hq _ _ Ep Eh Ee Er El Eps); [| | | |].
    - destruct Hrs as [[-> _]|[-> _]]; cbn; lia.
    - destruct Hrs as [[-> _]|[-> Hn]]; [by intros ? ?%not_elem_of_nil|]. intros x ->%list_elem_of_singleton.
      eexists _, _. split; [done|]. cbn. rewrite Hl. by destruct l.
    - rewrite Hcb. intros x ->%list_elem_of_singleton. destruct Hrs as [[_ ->]|[-> _]]; [by left|].
      right. exists b. by apply list_elem_of_singleton.
    - intros _ c' _. cbn [mServices ProcessImpl.set_queue]. split; [by destruct m|]. by apply events_ok.
    - intros x c' k'. destruct b; [|by intros ?%not_elem_of_nil]. by intros [= <- _ _]%list_elem_of_singleton. 
    Unshelve. all: done. }
  eapply wp_sendResult; [exact Hl| |].
  - intros ->. eapply (Hok _ []); try reflexivity; [cbn; by rewrite app_nil_r|by left].
  - intros Hn. eapply (Hok _ [Result cb b]); try reflexivity. by right.
Qed.

Lemma stopped_ok w p P i o q :
  inv None w -> processes w !! p = Some P -> mQueue P = MSG_STOP_SERVICE i o :: q ->
  wp (ProcessImpl.stopService p i o) (fun _ w' => inv None w' /\ (cost w' < cost w)%nat)
    (set_processes (<[p := ProcessImpl.set_queue q P]> (processes w)) w).
Proof.
  intros I HP Hq. pose proof I as [_ Ms _].
  pose proof (m_process _ _ _ _ _ Ms p P (MSG_STOP_SERVICE i o) HP) as Hm. rewrite Hq in Hm. specialize (Hm (list_elem_of_here _ _)).
  assert (p < length (processes w))%nat as Hlt by (by eapply lookup_lt_Some).
  unfold ProcessImpl.stopService. set (c0 := getComponent i).
  apply wp_bind. eapply wp_has_service; [cbn; by rewrite list_lookup_insert_eq|]. cbn [mServices ProcessImpl.set_queue].
  set (b := bool_decide (c0 ∈ mServices P)). apply wp_bind.
  set (P' := mkProcess (mName P) (mServices P ∖ {[c0]}) q (mQuitting P)).
  eapply (wp_mono _ (fun _ w' =>
    w' = set_events (events w ++ (if b then [(p, c0, Destroyed)] else []))
          (set_processes (<[p := P']> (processes w)) w))).
  - unfold P'. destruct b eqn:Hb.
    + apply wp_bind, wp_modify. eapply wp_update_process; [cbn; by rewrite list_lookup_insert_eq|].
      cbn. by rewrite list_insert_insert_eq.
    + apply wp_ret. rewrite app_nil_r. apply bool_decide_eq_false_1 in Hb.
      assert (mServices P ∖ {[c0]} = mServices P) as -> by set_solver. by destruct w.
  - intros [] w1 ->. assert (forall w' rs, processes w' = <[p := P']> (processes w) ->
      mHandler w' = mHandler w ++ rs -> events w' = events w ++ (if b then [(p, c0, Destroyed)] else []) ->
      set_events [] (set_mHandler [] (set_processes [] (set_answers [] [] [] w'))) =
        set_events [] (set_mHandler [] (set_processes [] (set_answers [] [] [] w))) ->
      listeners w' = listeners w -> promises w' = promises w ->
      rs = match o with Some cb => [Result cb b] | None => [] end -> inv None w' /\ (cost w' < cost w)%nat) as Hok.
    { intros w' rs Ep Eh Ee Er El Eps ->.
      eapply (handle_ok w w' p P _ q P' _ _ I HP Hq eq_refl eq_refl Ep Eh Ee Er El Eps).
      - destruct o; cbn; lia.
      - destruct o as [cb|]; [|by intros ? ?%not_elem_of_nil]. intros x ->%list_elem_of_singleton.
        eexists _, _. split; [done|]. cbn. destruct Hm as [y ->]. done.
      - destruct o as [cb|]; cbn; [|by intros ? ?%not_elem_of_nil]. intros x ->%list_elem_of_singleton.
        right. exists b. by apply list_elem_of_singleton.
      - intros _ c _. unfold P'. cbn. fold c0. case_decide as E.
        + subst c. rewrite (bool_decide_eq_false_2 (c0 ∈ _)) by set_solver. split; [done|].
          fold b. destruct b; [|done]. cbn. by rewrite decide_True.
        + assert (bool_decide (c ∈ mServices P ∖ {[c0]}) = bool_decide (c ∈ mServices P)) as ->.
          { apply bool_decide_ext. set_solver. }
          split; [done|]. destruct b; [|done]. cbn [foldl]. rewrite live_other; [done|]. by intros [_ ?].
      - intros x c k. destruct b; [|by intros ?%not_elem_of_nil]. by intros [= <- _ _]%list_elem_of_singleton. }
    destruct o as [cb|].
    + destruct Hm as [y Hy]. cbn [ProcessImpl.answer]. eapply wp_sendResult; [exact Hy|done|].
      intros _. by eapply (Hok _ [Result cb b]).
    + apply wp_ret. eapply (Hok _ []); try reflexivity. cbn. by rewrite app_nil_r.
Qed.

(** The thread of a process takes a message. *)
Lemma process_loop_ok w p P :
  inv None w -> processes w !! p = Some P ->
  wp (ProcessImpl.loop p) (fun _ w' => progress (mQueue P = []) w w') w.
Proof.
  intros I HP. unfold ProcessImpl.loop. eapply wp_bind, wp_deref; [exact HP|].
  destruct (mQueue P) as [|m q] eqn:Hq; [apply wp_ret; split; [done|by left]|].
  apply wp_bind. eapply wp_update_process; [exact HP|]. pose proof I as [_ Ms _].
  pose proof (m_process _ _ _ _ _ Ms p P m HP) as Hm. rewrite Hq in Hm. specialize (Hm (list_elem_of_here _ _)).
  assert (p < length (processes w))%nat as Hlt by (by eapply lookup_lt_Some).
  assert (forall i, wp (ProcessImpl.has_service p (getComponent i))
    (fun b w' => w' = set_processes (<[p := ProcessImpl.set_queue q P]> (processes w)) w /\
       b = bool_decide (getComponent i ∈ mServices P)) (set_processes (<[p := ProcessImpl.set_queue q P]> (processes w)) w)) as Hs.
  { intros i. eapply wp_has_service; [cbn; by rewrite list_lookup_insert_eq|]. by split. }
  eapply (wp_mono _ (fun _ w' => inv None w' /\ (cost w' < cost w)%nat)).
  2: { intros [] w' [? ?]. split; [done|]. by right. }
  destruct m as [i cb|i fl sid cb|i o|i conn fl cb|i o]; cbn [ProcessImpl.onTransact].
  - by eapply createService_ok.
  - apply wp_bind. eapply wp_mono; [apply Hs|]. intros b w1 [-> Hb]. destruct Hm as (c & y & Hl).
    eapply (tells_ok w p P _ q _ _ cb b _ I HP Hq Hb); try done. unfold live. by rewrite decide_True.
  - by eapply stopped_ok.
  - apply wp_bind. eapply wp_mono; [apply Hs|]. intros b w1 [-> Hb].
    eapply (tells_ok w p P _ q _ _ cb b _ I HP Hq Hb); try done. unfold live. by rewrite decide_True.
  - cbn in Hm. subst o. apply wp_bind. eapply wp_mono; [apply Hs|]. intros b w1 [-> Hb].
    apply wp_bind. eapply (wp_mono _ (fun _ w' =>
      w' = set_events (events w ++ (if b then [(p, getComponent i, Unbound)] else []))
          (set_processes (<[p := ProcessImpl.set_queue q P]> (processes w)) w))).
    { destruct b; [by apply wp_modify|]. apply wp_ret. rewrite app_nil_r. by destruct w. }
    intros [] w1 ->. apply wp_ret.
    eapply (handle_ok w _ p P _ q (ProcessImpl.set_queue q P) [] (if b then [(p, getComponent i, Unbound)] else []) I HP Hq);
      try reflexivity.
    + cbn. by rewrite app_nil_r.
    + cbn. lia.
    + by intros ? ?%not_elem_of_nil.
    + by intros ? ?%not_elem_of_nil.
    + intros _ c _. split; [done|]. apply events_ok; [done|]. unfold live. by rewrite decide_True.
    + intros x c k. destruct b; [|by intros ?%not_elem_of_nil]. by intros [= <- _ _]%list_elem_of_singleton.
Qed.

(** ** The process manager *)

Lemma stop_all_ok w p P cs :
  inv None w -> processes w !! p = Some P -> mQuitting P = false ->
  wp (ProcessImpl.stop_all p cs) (fun _ w' => inv None w' /\ (cost w' <= cost w + 2 * length cs)%nat) w.
Proof.
  revert w P. induction cs as [|c cs IH]; intros w P I HP HQ; cbn [ProcessImpl.stop_all].
  - apply wp_ret. split; [done|cbn; lia].
  - apply wp_bind. eapply wp_send; [exact HP|done|].
    assert (grows 2 w (sent p (MSG_STOP_SERVICE (ProcessImpl.intent_of c) None) w)) as (I1 & Hc & _).
    { eapply tell_ok; [done|exact HP|done|done|]. intros P' d _. by apply advance_keeps. }
    eapply wp_mono; [eapply (IH _ (pushed _ P)); [done| |done]|].
    + cbn. by rewrite list_lookup_alter_eq, HP.
    + intros [] w' [? ?]. split; [done|]. cbn in *. lia.
Qed.

Lemma stop_next_ok w :
  inv None w -> stopping w = None -> wp stop_next (fun _ w' => inv None w') w.
Proof.
  intros I Hs. pose proof I as [T Ms D]. unfold stop_next. apply wp_bind, wp_gets.
  destruct (pm_mHandler w) as [|p h] eqn:Hh; [by apply wp_ret|].
  apply wp_bind, wp_modify. set (w1 := set_pm _ _ _ _).
  assert (inv None w1) as I1.
  { split; cbn; [|done|done]. eapply tables_stop_next; [exact Hs|reflexivity|exact T]. }
  assert (exists P, processes w !! p = Some P /\ mQuitting P = false) as (P & HP & HQ).
  { destruct T as [_ _ _ _ [_ T6]]. destruct (T6 p) as [n Hn]; [rewrite Hs; by left|].
    apply list_lookup_fmap_Some in Hn as (P & Hv & HP). injection Hv as _ HQ. by exists P. }
  unfold ProcessImpl.stop. eapply wp_bind, wp_deref; [exact HP|]. apply wp_failure.
  eapply wp_mono; [by eapply (stop_all_ok w1 p P)|]. by intros [] w' [? _].
Qed.

Lemma stop_done_ok w p :
  inv None w -> stopping w = Some p -> wp (stop_done p) (fun _ w' => inv None w' /\ (cost w' <= cost w)%nat) w.
Proof.
  intros I Hs. pose proof I as [T Ms D]. unfold stop_done, ProcessImpl.quit.
  assert (exists P, processes w !! p = Some P /\ mQuitting P = false /\ forall n, pm_mProcesses w !! n <> Some p) as (P & HP & HQ & Hpm).
  { destruct T as [_ _ _ T4 [_ T6]]. destruct (T6 p) as [n Hn]; [rewrite Hs; by left|].
    apply list_lookup_fmap_Some in Hn as (P & Hv & HP). injection Hv as _ HQ. exists P. split_and!; [done|done|].
    intros m Hm. destruct (T4 m p Hm) as (_ & _ & Hni). apply Hni. rewrite Hs. by left. }
  apply wp_bind. eapply wp_update_process; [exact HP|]. apply wp_modify. split.
  - split; cbn.
    + rewrite list_fmap_insert. cbn. unfold view at 1. cbn. eapply tables_stop_done; [exact Hs| |exact T].
      rewrite list_lookup_fmap, HP. cbn. unfold view. by rewrite HQ.
    + by apply messages_quit.
    + intros He. specialize (D He). rewrite <- (app_nil_r (events w)). destruct D as [D1 D2 D3]. 
      assert (p < length (processes w))%nat as Hlt by (by eapply lookup_lt_Some). split.
      * intros q c. rewrite app_nil_r, D1. destruct (decide (p = q)) as [<-|E].
        -- by rewrite HP, list_lookup_insert_eq.
        -- by rewrite list_lookup_insert_ne.
      * intros q Q c [(_ & <- & _)|[E HQ']]%list_lookup_insert_Some; [done|by eapply D2].
      * intros n i pr Q c Hn Hi [(E & <- & _)|[E HQ']]%list_lookup_insert_Some; [|by eapply D3].
        exfalso. destruct T as [_ _ T3 _ _]. destruct (T3 n i Hn) as (pr' & Hi' & _ & Hp & _). simplify_eq.
        by eapply Hpm.
  - unfold cost. cbn [processes mHandler set_pm set_processes].
    pose proof (sum_insert pending _ _ _ (mkProcess (mName P) (mServices P) [] true) HP) as Hc.
    change (pending (mkProcess _ _ [] true)) with 0%nat in Hc. lia.
Qed.

(** ** Every interleaving *)

Lemma inv_new : inv None new_world.
Proof.
  split; cbn.
  - split; [done..|]. split; [apply NoDup_nil_2|]. by intros p ?%not_elem_of_nil.
  - split; try done. by intros m ?%not_elem_of_nil.
  - intros _. by split.
Qed.

Lemma step_inv w w' : step w w' -> inv None w -> inv None w'.
Proof.
  destruct 1 as [w|r w Hr|w|p w|w Hs|p P t w Hs HP Ht]; intros I.
  - destruct I as [T Ms D]. split; cbn; [done| |done]. apply (messages_listener _ _ _ Ms). by left.
  - apply request_ok; [done|]. by destruct r.
  - destruct (wp_outcome _ _ _ (loop_ok w I)) as (? & _ & ? & _). done.
  - destruct (processes w !! p) as [P|] eqn:HP.
    + destruct (wp_outcome _ _ _ (process_loop_ok w p P I HP)) as (? & _ & ? & _). done.
    + unfold exec, ProcessImpl.loop, mbind, M_bind, deref. by rewrite HP.
  - by destruct (wp_outcome _ _ _ (stop_next_ok w I Hs)) as (? & _ & ?).
  - by destruct (wp_outcome _ _ _ (stop_done_ok w p I Hs)) as (? & _ & ? & _).
Qed.

Lemma service_steps_inv w w' : rtc step w w' -> inv None w -> inv None w'.
Proof. induction 1; [done|]. intros ?. by eauto using step_inv. Qed.

Lemma reachable_inv w : rtc step new_world w -> inv None w.
Proof. intros Hw. by apply (service_steps_inv _ _ Hw), inv_new. Qed.

(** A thread of the service manager or of a process takes a message. *)
Inductive work : world -> world -> Prop :=
  | work_manager w : mHandler w <> [] -> work w (exec ServiceManager.loop w)
  | work_process p P w : processes w !! p = Some P -> mQueue P <> [] -> work w (exec (ProcessImpl.loop p) w).

Lemma work_inv w w' : work w w' -> inv None w -> inv None w' /\ (cost w' < cost w)%nat.
Proof.
  destruct 1 as [w Hq|p P w HP Hq]; intros I.
  - destruct (wp_outcome _ _ _ (loop_ok w I)) as (? & _ & ? & [[? _]|[_ ?]]); [done|done].
  - destruct (wp_outcome _ _ _ (process_loop_ok w p P I HP)) as (? & _ & ? & [[? _]|[_ ?]]); [done|done].
Qed.

End invariant.

(** ** Properties *)

Section properties.
Context {classes : Classes} {packages : PackageManager}.

(** C21: No thread fails.  However clients, processes and timeouts interleave, the service manager
    handles its next message, a process its next one, and the process manager stops a process
    and lets go of it without an exception and without a null pointer: no process is told
    anything after it quit. *)
Theorem services_safe w :
  rtc step new_world w ->
  outcome ServiceManager.loop w = Ok tt /\
  (forall p P, processes w !! p = Some P -> outcome (ProcessImpl.loop p) w = Ok tt) /\
  (stopping w = None -> outcome stop_next w = Ok tt) /\
  (forall p, stopping w = Some p -> outcome (stop_done p) w = Ok tt).
Proof.
  intros I%reachable_inv. split_and!.
  - by destruct (wp_outcome _ _ _ (loop_ok w I)) as ([] & ? & _).
  - intros p P HP. by destruct (wp_outcome _ _ _ (process_loop_ok w p P I HP)) as ([] & ? & _).
  - intros Hs. by destruct (wp_outcome _ _ _ (stop_next_ok w I Hs)) as ([] & ? & _).
  - intros p Hs. by destruct (wp_outcome _ _ _ (stop_done_ok w p I Hs)) as ([] & ? & _).
Qed.

(** The tables agree.  The record of a component names a process record that has the
    component, is registered under the process' name, and whose process is the process manager's
    process of that name, which neither quits nor waits to be stopped.  A registered process has
    a service: the last one to go takes its process along. *)
Theorem services_consistent w :
  rtc step new_world w ->
  (forall c r, mRecords w !! c = Some r -> exists sr pr P,
     serviceRecords w !! r = Some sr /\ alive sr = true /\ processRecords w !! processRecord sr = Some pr /\
     services pr !! c = Some r /\ mProcesses w !! pr_name pr = Some (processRecord sr) /\
     pm_mProcesses w !! pr_name pr = Some (process pr) /\ processes w !! process pr = Some P /\
     mName P = pr_name pr /\ mQuitting P = false /\ process pr ∉ option_list (stopping w) ++ pm_mHandler w) /\
  (forall n i, mProcesses w !! n = Some i -> exists pr,
     processRecords w !! i = Some pr /\ services pr <> ∅ /\
     forall c r, services pr !! c = Some r -> mRecords w !! c = Some r).
Proof.
  intros I%reachable_inv. pose proof I as [[T1 _ T3 T4 _] _ _]. split.
  - intros c r Hc. destruct (find_record _ _ _ _ I Hc) as (sr & pr & P & Hr & Ha & Hi & Hm & HP & HQ & Hs).
    destruct (T3 _ _ Hm) as (pr' & Hi' & _ & Hp & _). simplify_eq. destruct (T4 _ _ Hp) as (_ & Hv & Hni).
    apply list_lookup_fmap_Some in Hv as (P' & Hv & HP'). simplify_eq. injection Hv as Hn _.
    exists sr, pr, P. split_and!; done.
  - intros n i Hn. destruct (T3 n i Hn) as (pr & Hi & _ & _ & He & Hs). exists pr. split_and!; [done| |].
    + intros E. by specialize (He E).
    + intros c r Hc. by destruct (Hs c r Hc).
Qed.

(** C22: What an instance of a service sees.  If no package declares a service it disables, then
    in every process and for every component the calls follow the order of a service's life:
    [onCreate], then any starts, binds and unbinds, then [onDestroy], and only then another
    [onCreate]; and the process has an instance between the two. *)
Theorem service_lifecycle w p c :
  all_enabled -> rtc step new_world w ->
  phase (events w) p c =
    Some (match processes w !! p with Some P => bool_decide (c ∈ mServices P) | None => false end).
Proof. intros He I%reachable_inv. apply (d_phase _ _ _ _ (i_discipline _ _ I He)). Qed.

(** C23: Requests are answered.  From every state, the service manager and the processes run out
    of messages whatever their order; if by then no process has quit, every promise of the
    service manager is completed. *)
Theorem services_answered w :
  rtc step new_world w ->
  Acc (flip work) w /\
  forall w', rtc work w w' -> (forall w'', ~ work w' w'') ->
    Forall (fun P => mQuitting P = false) (processes w') -> Forall is_Some (promises w').
Proof.
  intros I%reachable_inv. split.
  - remember (cost w) as n eqn:E. revert w E I. induction (lt_wf n) as [n _ IH]. intros w -> I.
    constructor. intros w' Hw. destruct (work_inv _ _ Hw I) as [I' Hc]. by eapply IH.
  - intros w' Hw Hend HQ. assert (inv None w') as [_ Ms _].
    { clear Hend HQ. induction Hw as [|x y z Hxy _ IH]; [done|]. apply IH. by destruct (work_inv _ _ Hxy I). }
    apply Forall_lookup. intros p [v|] Hp; [done|].
    destruct (m_open _ _ _ _ _ Ms p Hp) as [?|(cb & l & _ & _ & [[(q & P & m & HP & Hm & _)|[b Hb]]|(q & Q & HQ1 & HQ2)])];
      [done|..]; exfalso.
    + eapply Hend. eapply (work_process q P); [done|]. intros E. rewrite E in Hm. by apply not_elem_of_nil in Hm.
    + eapply Hend. apply work_manager. intros E. rewrite E in Hb. by apply not_elem_of_nil in Hb.
    + rewrite Forall_lookup in HQ. specialize (HQ _ _ HQ1). congruence.
Qed.
End properties.

(** ** Runs *)

Inductive move := Ask (r : request) | Manage | Work (p : nat) | StopNext | StopDone (p : nat).

Section runs.
Context {classes : Classes} {packages : PackageManager}.

Definition make (m : move) (w : world) : world :=
  match m with
  | Ask r => set_mHandler (mHandler w ++ [Request r]) w
  | Manage => exec ServiceManager.loop w
  | Work p => exec (ProcessImpl.loop p) w
  | StopNext => exec stop_next w
  | StopDone p => exec (stop_done p) w
  end.

(** A process is only let go of when its services are gone. *)
Definition enabled_move (m : move) (w : world) : bool :=
  match m with
  | Ask (MSG_BIND _ _ _ _) => false
  | StopNext => bool_decide (stopping w = None)
  | StopDone p =>
      bool_decide (stopping w = Some p) &&
      match processes w !! p with Some P => bool_decide (mServices P = ∅) | None => false end
  | _ => true
  end.

Fixpoint play (ms : list move) (w : world) : option world :=
  match ms with
  | [] => Some w
  | m :: ms => if enabled_move m w then play ms (make m w) else None
  end.

Lemma play_steps ms w w' : play ms w = Some w' -> rtc step w w'.
Proof.
  revert w. induction ms as [|m ms IH]; intros w; cbn; [by intros [= ->]|].
  destruct (enabled_move m w) eqn:E; [|done]. intros H. eapply rtc_l; [|by apply IH].
  destruct m as [r| |p| |p]; cbn in *.
  - apply step_request. by destruct r.
  - apply step_manager.
  - apply step_process.
  - apply bool_decide_eq_true_1 in E. by apply step_stop.
  - apply andb_prop in E as [E1%bool_decide_eq_true_1 E2].
    destruct (processes w !! p) as [P|] eqn:HP; [|done]. apply bool_decide_eq_true_1 in E2.
    eapply (step_quit p P false); [done|done|by left].
Qed.

Lemma idle_no_work w w' :
  mHandler w = [] -> Forall (fun P => mQueue P = []) (processes w) -> ~ work w w'.
Proof.
  intros Hm Hp. rewrite Forall_lookup in Hp. destruct 1 as [w Hq|p P w HP Hq]; [done|].
  by destruct Hq; eapply Hp.
Qed.
End runs.

(** A component and an intent for it. *)
Definition demo : ComponentName := (CString.chars "app", CString.chars "Demo").
Definition other : ComponentName := (CString.chars "app", CString.chars "Other").
Definition intent (c : ComponentName) : Intent := mkIntent c false None None.

(** Everything can be made; [demo] is declared, but disabled. *)
Definition all_classes : Classes := {| instantiates := fun _ => true |}.
Definition no_packages : PackageManager := {| resolve := fun _ => None |}.
Definition disabled : PackageManager :=
  {| resolve := fun c => if decide (c = demo) then
       Some (mkServiceInfo (snd demo) (fst demo) (mkApplicationInfo (fst demo) None true) (fst demo) false 0)
     else None |}.

(** A system service is started, told so, and stopped. *)
Definition demo_run : list move :=
  [Ask (MSG_START_SYSTEM (intent demo)); Manage; Work 0; Work 0; Manage; Manage;
   Ask (MSG_STOP_SYSTEM (intent demo)); Manage; Work 0; Manage].
Definition demo_world : world :=
  default new_world (@play all_classes no_packages demo_run new_world).

Lemma demo_reached : rtc (@step all_classes no_packages) new_world demo_world.
Proof. apply (play_steps demo_run). vm_compute. reflexivity. Qed.

Lemma services_safe_witness :
  rtc (@step all_classes no_packages) new_world demo_world /\
  outcome (@ServiceManager.loop no_packages) demo_world = Ok tt.
Proof. split; [exact demo_reached|]. exact (proj1 (@services_safe all_classes no_packages demo_world demo_reached)). Defined.

Definition demo_alive : world := default new_world (@play all_classes no_packages (take 4 demo_run) new_world).
Lemma alive_reached : rtc (@step all_classes no_packages) new_world demo_alive.
Proof. apply (play_steps (take 4 demo_run)). vm_compute. reflexivity. Qed.

Lemma services_consistent_witness :
  mRecords demo_alive !! demo = Some 0%nat /\
  exists sr, serviceRecords demo_alive !! 0%nat = Some sr /\ alive sr = true.
Proof.
  split; [vm_compute; reflexivity|].
  destruct (@services_consistent all_classes no_packages demo_alive alive_reached) as [Hc _].
  destruct (Hc demo 0%nat) as (sr & pr & P & Hr & Ha & _); [vm_compute; reflexivity|].
  exists sr. split; [exact Hr|exact Ha].
Defined.

Lemma service_lifecycle_witness :
  events demo_world = [(0%nat, demo, Created); (0%nat, demo, StartCommand 0); (0%nat, demo, Destroyed)] /\
  phase (events demo_world) 0 demo = Some false.
Proof.
  split; [vm_compute; reflexivity|].
  assert (@all_enabled no_packages) as He by (intros c si Hc; discriminate Hc).
  etransitivity; [exact (@service_lifecycle all_classes no_packages demo_world 0 demo He demo_reached)|].
  vm_compute. reflexivity.
Defined.

Lemma services_answered_witness :
  promises demo_world = [Some (Started (Some demo)); Some (Answer true)] /\ Forall is_Some (promises demo_world).
Proof.
  split; [vm_compute; reflexivity|].
  refine (proj2 (@services_answered all_classes no_packages demo_world demo_reached) demo_world _ _ _).
  - exact (rtc_refl _ _).
  - intros w''. apply idle_no_work; [vm_compute; reflexivity|]. vm_compute. repeat constructor.
  - vm_compute. repeat constructor.
Defined.

(** A process can quit before it begins.  A service that is started and stopped at once, before
    its process has taken a message, leaves a process without services; the process manager sees
    nothing to wait for and quits it, the messages are dropped, and neither promise is ever
    completed: nothing is left to do for any thread. *)
Theorem early_quit `{!Classes} `{!PackageManager} :
  exists w, rtc step new_world w /\ promises w = [None; None] /\ events w = [] /\
    mHandler w = [] /\ pm_mHandler w = [] /\ stopping w = None /\
    Forall (fun P => mQueue P = []) (processes w).
Proof.
  set (run := [Ask (MSG_START_SYSTEM (intent demo)); Ask (MSG_STOP_SYSTEM (intent demo)); Manage; Manage; StopNext; StopDone 0]).
  destruct (play run new_world) as [w|] eqn:Hw; [|exfalso; vm_compute in Hw; discriminate Hw].
  exists w. split; [by apply (play_steps run)|]. vm_compute in Hw. injection Hw as <-.
  split_and!; try reflexivity. repeat constructor.
Qed.

(** A failure that arrives late hits the wrong service.  The start of a disabled service is
    followed by its stop and by a start of the same component as a system service; the failure of
    the first instance then removes the record of the second, and the next start creates another
    instance over the one that runs, which is never told to stop. *)
Theorem stale_failure :
  exists w, rtc (@step all_classes disabled) new_world w /\
    filter (fun e => fst e = (1%nat, demo)) (events w) =
      [(1%nat, demo, Created); (1%nat, demo, StartCommand 2); (1%nat, demo, Created); (1%nat, demo, StartCommand 3)] /\
    phase (events w) 1 demo = None.
Proof.
  set (run := [Ask (MSG_START (intent demo)); Ask (MSG_STOP (intent demo)); Ask (MSG_START_SYSTEM (intent other));
    Ask (MSG_START_SYSTEM (intent demo)); Manage; Manage; Manage; Manage; Work 0; Manage;
    Work 1; Work 1; Work 1; Work 1; Ask (MSG_START_SYSTEM (intent demo)); Manage; Manage; Manage; Manage; Manage; Work 1; Work 1]).
  destruct (@play all_classes disabled run new_world) as [w|] eqn:Hw; [|exfalso; vm_compute in Hw; discriminate Hw].
  exists w. split; [by apply (play_steps run)|]. vm_compute in Hw. injection Hw as <-.
  split; vm_compute; reflexivity.
Qed.
