(* ===== verification/Preferences.v ===== *)
(** * app/SharedPreferencesImpl.cpp: preferences kept in an XML file

    The map of preferences, the editor that changes it, and how it is written to a file and read
    back.  A document is a tree; how the vendored library prints and reads numbers and texts are
    the classes [XMLValues] and [XMLFiles].  Strings are lists of characters without a zero.

    The disk holds two files, the preferences and their backup.  Every call of the operating
    system that changes it is a step recorded in [seen], and can fail.  When the power goes, a file
    that is written but not synced can be lost, and so can the changes made to the directory since
    that was last synced. *)

From S2P Require Import Prelude HashMaps Strings Numbers Packages.
From stdpp Require Import gmap fin_maps fin_map_dom.
Open Scope Z_scope.

Import CString.

(** ** Values *)

Module Variant.

(** The alternatives an editor puts; a set is not shared with its caller. *)
(* util/Variant.h:33-53 Variant *)
Inductive Variant :=
  | Bool (b : bool)
  | Int (z : Z)
  | Long (z : Z)
  | Float (bits : Z)
  | String (s : list Z)
  | StringSet (s : gset (list Z)).

(** [==] on the bits of two floats. *)
Definition is_nan (b : Z) : bool := 0x7F800000 <? Z.land b 0x7FFFFFFF.
Definition float_eq (a b : Z) : bool :=
  negb (is_nan a) && negb (is_nan b) &&
  ((a =? b) || (Z.land a 0x7FFFFFFF =? 0) && (Z.land b 0x7FFFFFFF =? 0)).

(** Sets are compared as objects: a set is equal to no other one. *)
(* util/Variant.cpp:57-111 Variant::equals *)
Definition equals (v w : Variant) : bool :=
  match v, w with
  | Bool a, Bool b => Bool.eqb a b
  | Int a, Int b | Long a, Long b => a =? b
  | Float a, Float b => float_eq a b
  | String a, String b => bool_decide (a = b)
  | _, _ => false
  end.
End Variant.
Import Variant.

(** ** Documents *)

Inductive XMLNode :=
  | Declaration
  | Text (t : list Z)
  | Element (name : list Z) (attributes : list (list Z * list Z)) (children : list XMLNode).

(** What the printer and the parser do with numbers and with the document: [reread d] is what
    [LoadFile] gives for a file that holds the printed [d]; [overwritten] is what is in a file
    when a document is written over another one without truncating it. *)
Class XMLFiles := {
  ofInt : Z -> list Z;
  ofFloat : Z -> list Z;
  FloatValue : list Z -> Z;
  reread : list XMLNode -> option (list XMLNode);
  overwritten : option (list XMLNode) -> list XMLNode -> option (list XMLNode);
}.

Definition attribute (n : string) (l : list (list Z * list Z)) : option (list Z) :=
  snd <$> head (filter (fun a => fst a = chars n) l).

(** [FirstChild()->Value()]. *)
Definition firstValue (l : list XMLNode) : option (list Z) :=
  match l with
  | [] => None
  | Text t :: _ => Some t
  | Element n _ _ :: _ => Some n
  | Declaration :: _ => Some []
  end.

Module Preferences.
Section preferences.
Context {values : XMLValues} {files : XMLFiles}
  `{!IterationOrder (list Z) Variant} `{!IterationOrder (list Z) (option Variant)}.

Definition Preferences : Type := gmap (list Z) Variant.

(** ** Writing and reading the map *)

Definition text_element (s : list Z) : XMLNode := Element (chars "string") [] [Text s].

(* app/SharedPreferencesImpl.cpp:410-467 SharedPreferencesImpl::writeValue *)
Definition writeValue (name : list Z) (value : Variant) : XMLNode :=
  let n := (chars "name", name) in
  match value with
  | Bool b => Element (chars "boolean") [n; (chars "value", chars (if b then "true" else "false"))] []
  | Int z => Element (chars "int") [n; (chars "value", ofInt (i32 z))] []
  | Long z => Element (chars "long") [n; (chars "value", ofInt (i32 z))] []
  | Float z => Element (chars "float") [n; (chars "value", ofFloat z)] []
  | String s => Element (chars "string") [n] [Text s]
  | StringSet s => Element (chars "set") [n] (text_element <$> elements s)
  end.

(* app/SharedPreferencesImpl.cpp:392-405 SharedPreferencesImpl::writeMap *)
Definition document (map : Preferences) : list XMLNode :=
  [Declaration; Element (chars "map") [] ((fun kv => writeValue (fst kv) (snd kv)) <$> entries map)].

Definition with_value (f : list Z -> Variant) (l : list (list Z * list Z)) (map : Preferences) : Preferences :=
  match attribute "name" l, attribute "value" l with
  | Some name, Some value => <[name := f value]> map
  | _, _ => map
  end.

(* app/SharedPreferencesImpl.cpp:334-340 SharedPreferencesImpl::parseBoolean *)
Definition parseBoolean := with_value (fun v => Bool (BoolValue v)).
(* app/SharedPreferencesImpl.cpp:342-348 SharedPreferencesImpl::parseInt *)
Definition parseInt := with_value (fun v => Int (i32 (IntValue v))).
(* app/SharedPreferencesImpl.cpp:350-356 SharedPreferencesImpl::parseLong *)
Definition parseLong := with_value (fun v => Long (IntValue v)).
(* app/SharedPreferencesImpl.cpp:358-364 SharedPreferencesImpl::parseFloat *)
Definition parseFloat := with_value (fun v => Float (FloatValue v)).

(* app/SharedPreferencesImpl.cpp:366-373 SharedPreferencesImpl::parseString *)
Definition parseString (l : list (list Z * list Z)) (cs : list XMLNode) (map : Preferences) : Preferences :=
  match attribute "name" l with
  | Some name => <[name := String (default [] (firstValue cs))]> map
  | None => map
  end.

(* app/SharedPreferencesImpl.cpp:380-387 SharedPreferencesImpl::parseStringSet *)
Definition parseStrings (cs : list XMLNode) : gset (list Z) :=
  foldl (fun s c => match c with
    | Element n _ cs => if decide (n = chars "string") then
        match firstValue cs with Some v => {[v]} ∪ s | None => s end else s
    | _ => s end) ∅ cs.

(* app/SharedPreferencesImpl.cpp:375-390 SharedPreferencesImpl::parseStringSet *)
Definition parseStringSet (l : list (list Z * list Z)) (cs : list XMLNode) (map : Preferences) : Preferences :=
  match attribute "name" l with
  | Some name => <[name := StringSet (parseStrings cs)]> map
  | None => map
  end.

(* app/SharedPreferencesImpl.cpp:315-327 SharedPreferencesImpl::readMap *)
Definition parseElement (map : Preferences) (e : XMLNode) : Preferences :=
  match e with
  | Element n l cs =>
      if decide (n = chars "boolean") then parseBoolean l map
      else if decide (n = chars "int") then parseInt l map
      else if decide (n = chars "long") then parseLong l map
      else if decide (n = chars "float") then parseFloat l map
      else if decide (n = chars "string") then parseString l cs map
      else if decide (n = chars "set") then parseStringSet l cs map
      else map
  | _ => map
  end.

(** The children of the first element named [map]. *)
Fixpoint root (d : list XMLNode) : option (list XMLNode) :=
  match d with
  | [] => None
  | Element n _ cs :: d => if decide (n = chars "map") then Some cs else root d
  | _ :: d => root d
  end.

(** [doc]: what [LoadFile] made of the file. *)
(* app/SharedPreferencesImpl.cpp:304-332 SharedPreferencesImpl::readMap *)
Definition readMap (doc : option (list XMLNode)) : option Preferences :=
  doc ← doc; foldl parseElement ∅ <$> root doc.

(** ** The disk *)

(** [text]: the document in a file, [None] if it holds something else, such as a part of one;
    [synced]: the bytes are on the disk. *)
Record content := mkContent { text : option (list XMLNode); synced : bool }.

(** The two names in the directory of the preferences, with the numbers of the files behind them. *)
Record dir := mkDir { file : option nat; backup : option nat }.
Inductive dirop := Create (n : nat) | UnlinkFile | UnlinkBackup | ToBackup | FromBackup.

Definition apply_op (d : dir) (o : dirop) : dir :=
  match o with
  | Create n => mkDir (Some n) (backup d)
  | UnlinkFile => mkDir None (backup d)
  | UnlinkBackup => mkDir (file d) None
  | ToBackup => match file d with Some n => mkDir None (Some n) | None => d end
  | FromBackup => match backup d with Some n => mkDir (Some n) None | None => d end
  end.

(** The directory as it is on the disk, the changes made to it since it was last synced, the files,
    and the number of the next one. *)
Record disk := mkDisk { stable : dir; ops : list dirop; inodes : nat -> content; next : nat }.

Definition current (d : disk) : dir := foldl apply_op (stable d) (ops d).
Definition mFile (d : disk) : option content := inodes d <$> file (current d).
Definition mBackupFile (d : disk) : option content := inodes d <$> backup (current d).

(** [seen]: the disks there were up to now. *)
Record fs := mkFs { now : disk; seen : list disk }.

Definition set_disk (d : disk) : M fs unit := modify (fun s => mkFs d (seen s ++ [d])).

Definition change (o : dirop) (d : disk) : disk := mkDisk (stable d) (ops d ++ [o]) (inodes d) (next d).
Definition upd (f : nat -> content) (n : nat) (c : content) : nat -> content := fun m => if (m =? n)%nat then c else f m.
Definition fill (n : nat) (c : content) (d : disk) : disk := mkDisk (stable d) (ops d) (upd (inodes d) n c) (next d).

(** Which calls of the operating system fail. *)
Record faults := mkFaults {
  rename_fails : bool;
  remove_fails : bool;
  open_fails : bool;
  write_fails : bool;
  sync_fails : bool;
  fsync_fails : bool;
  unlink_fails : bool;
  cleanup_fails : bool;
  dirsync_fails : bool;
}.

(* io/File.cpp:89-91 File::remove *)
Definition remove_file (fails : bool) : M fs bool :=
  d ← gets now;
  match file (current d) with
  | Some _ => if fails then mret false else set_disk (change UnlinkFile d);; mret true
  | None => mret false
  end.
(* io/File.cpp:89-91 File::remove *)
Definition remove_backup (fails : bool) : M fs bool :=
  d ← gets now;
  match backup (current d) with
  | Some _ => if fails then mret false else set_disk (change UnlinkBackup d);; mret true
  | None => mret false
  end.

(** [mFile->renameTo(mBackupFile)] and back: the target is replaced. *)
(* io/File.cpp:245-247 File::renameTo *)
Definition rename_to_backup (fails : bool) : M fs bool :=
  d ← gets now;
  match file (current d) with
  | Some _ => if fails then mret false else set_disk (change ToBackup d);; mret true
  | None => mret false
  end.
(* io/File.cpp:245-247 File::renameTo *)
Definition rename_from_backup (fails : bool) : M fs bool :=
  d ← gets now;
  match backup (current d) with
  | Some _ => if fails then mret false else set_disk (change FromBackup d);; mret true
  | None => mret false
  end.

(** [open] with [O_CREAT]: a file that is there is not truncated; its number and what it held. *)
Definition open_file : M fs (nat * option (option (list XMLNode))) :=
  d ← gets now;
  match file (current d) with
  | Some n => mret (n, Some (text (inodes d n)))
  | None =>
      let n := next d in
      set_disk (mkDisk (stable d) (ops d ++ [Create n]) (upd (inodes d) n (mkContent None false)) (S n));;
      mret (n, None)
  end.

(** The file is opened, printed to, flushed and synced; only the opening is checked. *)
(* ../tinyxml2/tinyxml2.cpp:1567-1588 XMLDocument::SaveFile *)
Definition SaveFile (x : faults) (doc : list XMLNode) : M fs bool :=
  if open_fails x then mret false
  else
    '(n, old) ← open_file;
    let whole := match old with None => Some doc | Some c => overwritten c doc end in
    d ← gets now; set_disk (fill n (mkContent None false) d);;
    (if write_fails x then mret tt
     else d ← gets now; set_disk (fill n (mkContent whole false) d);;
          if sync_fails x then mret tt
          else d ← gets now; set_disk (fill n (mkContent whole true) d));;
    mret true.

(* app/SharedPreferencesImpl.cpp:392-408 SharedPreferencesImpl::writeMap *)
Definition writeMap (x : faults) (map : Preferences) : M fs bool := SaveFile x (document map).

(** [fsync] of the file; [no_sync] is the bit [MODE_NO_SYNC] of [mMode].  The pointer object that the
    message of a failure passes for [%s] is turned into characters: [Log::w] calls [String::format],
    which passes every argument through [toValue] (lang/String.h:225-228, 276-278). *)
(* app/SharedPreferencesImpl.cpp:469-482 SharedPreferencesImpl::fsync *)
Definition fsync (no_sync : bool) (fails : bool) : M fs bool :=
  d ← gets now;
  if no_sync then mret true
  else match file (current d) with
       | Some n => if fails then mret false else set_disk (fill n (mkContent (text (inodes d n)) true) d);; mret true
       | None => mret false
       end.

(** The same of the directory: its changes are on the disk then. *)
(* app/SharedPreferencesImpl.cpp:469-482 SharedPreferencesImpl::fsync *)
Definition fsync_dir (no_sync : bool) (fails : bool) : M fs bool :=
  d ← gets now;
  if no_sync then mret true
  else if fails then mret false
  else set_disk (mkDisk (current d) [] (inodes d) (next d));; mret true.

(* app/SharedPreferencesImpl.cpp:237-248 SharedPreferencesImpl::storeSharedPrefs *)
Definition make_backup (x : faults) : M fs bool :=
  d ← gets now;
  match file (current d), backup (current d) with
  | None, _ => mret true
  | Some _, None => rename_to_backup (rename_fails x)
  | Some _, Some _ => remove_file (remove_fails x);; mret true
  end.

(* app/SharedPreferencesImpl.cpp:236-270 SharedPreferencesImpl::storeSharedPrefs *)
Definition storeSharedPrefs (no_sync : bool) (x : faults) (map : Preferences) : M fs bool :=
  b ← make_backup x;
  if negb b then mret false
  else
    written ← writeMap x map;
    if written : bool then
      fsync no_sync (fsync_fails x);;
      remove_backup (unlink_fails x);;
      fsync_dir no_sync (dirsync_fails x);;
      mret true
    else
      remove_file (cleanup_fails x);;
      fsync_dir no_sync (dirsync_fails x);;
      mret false.

(* app/SharedPreferencesImpl.cpp:209-234 SharedPreferencesImpl::loadSharedPrefs *)
Definition loadSharedPrefs (x : faults) : M fs Preferences :=
  d ← gets now;
  match backup (current d) with
  | Some _ => remove_file (remove_fails x);; rename_from_backup (rename_fails x);; mret tt
  | None => mret tt
  end;;
  d ← gets now;
  mret (default ∅ (c ← mFile d; readMap (text c ≫= reread))).

(** ** The editor *)

Record Editor := mkEditor { mModifications : gmap (list Z) (option Variant); mClearMap : bool }.

(* app/SharedPreferencesImpl.h:62-66 EditorImpl::EditorImpl *)
Definition edit : Editor := mkEditor ∅ false.

Definition put (key : list Z) (value : option Variant) (e : Editor) : Editor :=
  mkEditor (<[key := value]> (mModifications e)) (mClearMap e).
(* app/SharedPreferencesImpl.h:68-72 EditorImpl::putString *)
Definition putString (key : list Z) (value : option (list Z)) : Editor -> Editor := put key (String <$> value).
(* app/SharedPreferencesImpl.h:74-78 EditorImpl::putStringSet *)
Definition putStringSet (key : list Z) (value : option (gset (list Z))) : Editor -> Editor :=
  put key (StringSet <$> value).
(* app/SharedPreferencesImpl.h:80-84 EditorImpl::putInt *)
Definition putInt (key : list Z) (value : Z) : Editor -> Editor := put key (Some (Int value)).
(* app/SharedPreferencesImpl.h:86-90 EditorImpl::putLong *)
Definition putLong (key : list Z) (value : Z) : Editor -> Editor := put key (Some (Long value)).
(* app/SharedPreferencesImpl.h:92-96 EditorImpl::putFloat *)
Definition putFloat (key : list Z) (value : Z) : Editor -> Editor := put key (Some (Float value)).
(* app/SharedPreferencesImpl.h:98-102 EditorImpl::putBoolean *)
Definition putBoolean (key : list Z) (value : bool) : Editor -> Editor := put key (Some (Bool value)).
(* app/SharedPreferencesImpl.h:104-108 EditorImpl::remove *)
Definition remove (key : list Z) : Editor -> Editor := put key None.
(* app/SharedPreferencesImpl.h:110-114 EditorImpl::clear *)
Definition clear (e : Editor) : Editor := mkEditor (mModifications e) true.

(** ** The preferences *)

Record SharedPreferencesImpl := mkPreferences {
  mMap : Preferences;
  mListeners : gset nat;
  disks : fs;
  told : list (nat * option (list Z));
}.

(* app/SharedPreferencesImpl.cpp:56-67 SharedPreferencesImpl::getString *)
Definition getString (p : SharedPreferencesImpl) (key : list Z) (defValue : option (list Z)) : option (list Z) :=
  match mMap p !! key with Some (String s) => Some s | _ => defValue end.
(* app/SharedPreferencesImpl.cpp:69-80 SharedPreferencesImpl::getStringSet *)
Definition getStringSet (p : SharedPreferencesImpl) (key : list Z) (defValues : option (gset (list Z))) :
    option (gset (list Z)) :=
  match mMap p !! key with Some (StringSet s) => Some s | _ => defValues end.
(* app/SharedPreferencesImpl.cpp:82-93 SharedPreferencesImpl::getInt *)
Definition getInt (p : SharedPreferencesImpl) (key : list Z) (defValue : Z) : Z :=
  match mMap p !! key with Some (Int z) => z | _ => defValue end.
(* app/SharedPreferencesImpl.cpp:95-106 SharedPreferencesImpl::getLong *)
Definition getLong (p : SharedPreferencesImpl) (key : list Z) (defValue : Z) : Z :=
  match mMap p !! key with Some (Long z) => z | _ => defValue end.
(* app/SharedPreferencesImpl.cpp:108-119 SharedPreferencesImpl::getFloat *)
Definition getFloat (p : SharedPreferencesImpl) (key : list Z) (defValue : Z) : Z :=
  match mMap p !! key with Some (Float z) => z | _ => defValue end.
(* app/SharedPreferencesImpl.cpp:121-132 SharedPreferencesImpl::getBoolean *)
Definition getBoolean (p : SharedPreferencesImpl) (key : list Z) (defValue : bool) : bool :=
  match mMap p !! key with Some (Bool b) => b | _ => defValue end.
(* app/SharedPreferencesImpl.h:50-53 SharedPreferencesImpl::contains *)
Definition contains (p : SharedPreferencesImpl) (key : list Z) : bool := bool_decide (is_Some (mMap p !! key)).
(* app/SharedPreferencesImpl.cpp:51-54 SharedPreferencesImpl::getAll *)
Definition getAll (p : SharedPreferencesImpl) : Preferences := mMap p.

(** [None]: no modification; the key is reported to the listeners otherwise. *)
(* app/SharedPreferencesImpl.cpp:157-171 EditorImpl::commit *)
Definition modified (map : Preferences) (k : list Z) (v : option Variant) : option Preferences :=
  match v with
  | None => if decide (is_Some (map !! k)) then Some (delete k map) else None
  | Some v =>
      match map !! k with
      | Some existingValue => if equals existingValue v then None else Some (<[k := v]> map)
      | None => Some (<[k := v]> map)
      end
  end.

(* app/SharedPreferencesImpl.cpp:152-177 EditorImpl::commit *)
Fixpoint apply_all (l : list (list Z * option Variant)) (map : Preferences) (keys : list (list Z)) :
    Preferences * list (list Z) :=
  match l with
  | [] => (map, keys)
  | (k, v) :: l =>
      match modified map k v with
      | Some map => apply_all l map (keys ++ [k])
      | None => apply_all l map keys
      end
  end.

(** A listener that is gone answers with [RemoteException]. *)
(* app/SharedPreferencesImpl.cpp:276-286 SharedPreferencesImpl::notifySharedPreferenceChangeListeners *)
Definition notify (gone : nat -> bool) (key : option (list Z)) (p : SharedPreferencesImpl) : SharedPreferencesImpl :=
  mkPreferences (mMap p) (filter (fun l => gone l = false) (mListeners p)) (disks p)
    (told p ++ ((fun l => (l, key)) <$> filter (fun l => gone l = false) (elements (mListeners p)))).

(* app/SharedPreferencesImpl.cpp:272-298 SharedPreferencesImpl::notifySharedPreferenceChangeListeners *)
Definition notifySharedPreferenceChangeListeners (gone : nat -> bool) (keys : list (list Z))
    (p : SharedPreferencesImpl) : SharedPreferencesImpl :=
  notify gone None (foldl (fun p k => notify gone (Some k) p) p keys).

(* app/SharedPreferencesImpl.cpp:144-187 EditorImpl::commit *)
Definition commit_map (no_sync : bool) (x : faults) (gone : nat -> bool) (e : Editor) (p : SharedPreferencesImpl) :
    result bool * SharedPreferencesImpl :=
  let cleared := mClearMap e && negb (bool_decide (mMap p = ∅)) in
  let map := if mClearMap e then ∅ else mMap p in
  let '(map, keys) := apply_all (entries (mModifications e)) map [] in
  let p := mkPreferences map (mListeners p) (disks p) (told p) in
  if cleared || negb (bool_decide (keys = [])) then
    let '(r, d) := storeSharedPrefs no_sync x map (disks p) in
    let p := mkPreferences map (mListeners p) d (told p) in
    match r with
    | Ok true => if decide (mListeners p = ∅) then (r, p)
                 else (r, notifySharedPreferenceChangeListeners gone keys p)
    | _ => (r, p)
    end
  else (Ok false, p).

(** The editor is empty afterwards. *)
(* app/SharedPreferencesImpl.cpp:134-190 EditorImpl::commit *)
Definition commit (no_sync : bool) (x : faults) (gone : nat -> bool) (e : Editor) (p : SharedPreferencesImpl) :
    result bool * Editor * SharedPreferencesImpl :=
  let '(r, p) := commit_map no_sync x gone e p in (r, mkEditor ∅ false, p).

(* app/SharedPreferencesImpl.cpp:192-200 SharedPreferencesImpl::registerOnSharedPreferenceChangeListener *)
Definition registerOnSharedPreferenceChangeListener (l : option nat) (p : SharedPreferencesImpl) : SharedPreferencesImpl :=
  match l with
  | Some l => mkPreferences (mMap p) ({[l]} ∪ mListeners p) (disks p) (told p)
  | None => p
  end.
(* app/SharedPreferencesImpl.cpp:202-207 SharedPreferencesImpl::unregisterOnSharedPreferenceChangeListener *)
Definition unregisterOnSharedPreferenceChangeListener (l : option nat) (p : SharedPreferencesImpl) : SharedPreferencesImpl :=
  match l with
  | Some l => mkPreferences (mMap p) (mListeners p ∖ {[l]}) (disks p) (told p)
  | None => p
  end.

(* app/SharedPreferencesImpl.cpp:41-49 SharedPreferencesImpl::SharedPreferencesImpl *)
Definition open (x : faults) (d : disk) : result SharedPreferencesImpl :=
  let '(r, s) := loadSharedPrefs x (mkFs d []) in
  m ← r; Ok (mkPreferences m ∅ s []).
End preferences.
End Preferences.

(** ** Reading back what was written *)

Module RoundTrip.
Import Preferences.

(** White space, and nothing else. *)
Definition blank (t : list Z) : bool := forallb (fun c => bool_decide (c ∈ [32; 9; 10; 11; 12; 13])) t.

(** A document as the parser sees it: texts of white space are not there. *)
Fixpoint strip (n : XMLNode) : list XMLNode :=
  match n with
  | Text t => if blank t then [] else [Text t]
  | Element n l cs => [Element n l (flat_map strip cs)]
  | Declaration => [Declaration]
  end.

Section laws.
Context {values : XMLValues} {files : XMLFiles} `{!IterationOrder (list Z) Variant}.

(** What the vendored library promises for a document whose characters it can represent. *)
Record XMLLaws (printable : list XMLNode -> Prop) : Prop := {
  read_true : BoolValue (chars "true") = true;
  read_false : BoolValue (chars "false") = false;
  read_int z : - 2 ^ 31 <= z < 2 ^ 31 -> IntValue (ofInt z) = z;
  read_document d : printable d -> reread d = Some (flat_map strip d);
}.

(** What is left of a value. *)
Definition kept (v : Variant) : Variant :=
  match v with
  | Bool b => Bool b
  | Int z => Int (i32 z)
  | Long z => Long (i32 z)
  | Float z => Float (FloatValue (ofFloat z))
  | String s => String (if blank s then [] else s)
  | StringSet s => StringSet (filter (fun t => blank t = false) s)
  end.

(** What reading back a map gives. *)
Definition readback (map : Preferences) : Preferences := default ∅ (readMap (reread (document map))).

Lemma attribute_name v l : attribute "name" ((chars "name", v) :: l) = Some v.
Proof. unfold attribute. by rewrite filter_cons_True. Qed.

Lemma attribute_value n v l : attribute "value" ((chars "name", n) :: (chars "value", v) :: l) = Some v.
Proof. unfold attribute. by rewrite filter_cons_False, filter_cons_True by (done || decided). Qed.

Lemma with_value_eq f n v map :
  with_value f [(chars "name", n); (chars "value", v)] map = <[n := f v]> map.
Proof. unfold with_value. by rewrite attribute_name, attribute_value. Qed.

Lemma parseStrings_eq l :
  parseStrings (flat_map strip (text_element <$> l)) = list_to_set (filter (fun t => blank t = false) l).
Proof.
  unfold parseStrings. rewrite <- (left_id_L ∅ (∪) (list_to_set _)). generalize (∅ : gset (list Z)).
  induction l as [|t l IH]; intros s; [cbn; set_solver|].
  cbn [fmap list_fmap flat_map text_element strip foldl app]. rewrite decide_True by done.
  destruct (blank t) eqn:E; cbn [firstValue].
  - rewrite IH, filter_cons_False by congruence. done.
  - rewrite IH, filter_cons_True by done. cbn. set_solver.
Qed.

Lemma i32_i32 z : i32 (i32 z) = i32 z.
Proof. apply i32_id, i32_range. Qed.

Context (printable : list XMLNode -> Prop) (laws : XMLLaws printable).

(** An element read back. *)
Lemma parse_written map k v :
  exists e, strip (writeValue k v) = [e] /\ parseElement map e = <[k := kept v]> map.
Proof.
  destruct v as [b|z|z|z|s|s]; (eexists; split; [reflexivity|]); cbn [parseElement];
    repeat (rewrite decide_False by decided); rewrite decide_True by done.
  - unfold parseBoolean. rewrite with_value_eq. by destruct b; rewrite ?(read_true _ laws), ?(read_false _ laws).
  - unfold parseInt. rewrite with_value_eq, (read_int _ laws) by apply i32_range. by rewrite i32_i32.
  - unfold parseLong. by rewrite with_value_eq, (read_int _ laws) by apply i32_range.
  - unfold parseFloat. by rewrite with_value_eq.
  - unfold parseString. rewrite attribute_name. cbn [kept flat_map]. cbn [strip]. by destruct (blank s).
  - unfold parseStringSet. rewrite attribute_name, parseStrings_eq. done.
Qed.

Lemma parse_all l map :
  foldl parseElement map (flat_map strip ((fun kv => writeValue (fst kv) (snd kv)) <$> l)) =
  foldl (fun m kv => <[fst kv := kept (snd kv)]> m) map l.
Proof.
  revert map. induction l as [|[k v] l IH]; intros map; [done|]. cbn [fmap list_fmap flat_map fst snd foldl].
  destruct (parse_written map k v) as (e & -> & He). cbn [app foldl]. by rewrite He.
Qed.

Lemma foldl_insert (l : list (list Z * Variant)) (m' : gmap (list Z) Variant) :
  NoDup l.*1 -> (forall k, k ∈ l.*1 -> m' !! k = None) ->
  foldl (fun m kv => <[fst kv := kept (snd kv)]> m) m' l = (kept <$> list_to_map l) ∪ m'.
Proof.
  revert m'. induction l as [|[k v] l IH]; intros m' Hl Hm; cbn in *.
  - by rewrite fmap_empty, (left_id_L ∅ (∪)).
  - apply NoDup_cons in Hl as [Hk Hl]. rewrite IH; [|done|].
    + rewrite fmap_insert. apply map_eq. intros j. rewrite !lookup_union.
      assert (list_to_map (M := gmap (list Z) Variant) l !! k = None) as Hn by by apply not_elem_of_list_to_map_1.
      destruct (decide (k = j)) as [<-|E].
      * rewrite !lookup_insert_eq, lookup_fmap, Hn, (Hm k) by (by left). done.
      * by rewrite !lookup_insert_ne.
    + intros j Hj. rewrite lookup_insert_ne; [|by intros ->]. apply Hm. by apply list_elem_of_further.
Qed.

(** What the next start reads is what was written, but for this: a long keeps its low
    32 bits, a float what its six decimals say, a string of white space becomes empty, and a set
    loses its strings of white space, the empty one among them.  All keys are there, and no
    others. *)
Theorem prefs_roundtrip map :
  printable (document map) -> readback map = kept <$> map.
Proof.
  intros Hp. unfold readback. rewrite (read_document _ laws _ Hp). unfold readMap, document.
  cbn [flat_map strip app mbind option_bind]. cbn [root]. rewrite decide_True by done. cbn [fmap option_fmap option_map default].
  cbn [from_option]. rewrite parse_all, (foldl_insert _ ∅).
  - rewrite (right_id_L ∅ (∪)). unfold id. f_equal. rewrite <- (list_to_map_to_list map) at 2.
    apply list_to_map_proper; [|apply entries_perm]. rewrite entries_perm. apply NoDup_fst_map_to_list.
  - rewrite entries_perm. apply NoDup_fst_map_to_list.
  - intros k _. apply lookup_empty.
Qed.
End laws.
End RoundTrip.

(** ** Crashes *)

Module Crashes.
Import Preferences RoundTrip.
Section crashes.
Context {values : XMLValues} {files : XMLFiles}
  `{!IterationOrder (list Z) Variant}.

(** What the next start reads from a disk. *)
Definition no_faults : faults := mkFaults false false false false false false false false false.
Definition recovered (d : disk) : Preferences :=
  match outcome (loadSharedPrefs no_faults) (mkFs d []) with Ok m => m | _ => ∅ end.

(** Which changes of a directory survive a power loss: the first ones, if the file system keeps
    their order as journalling ones do; any of them, which is all that [fsync] promises. *)
Definition survive (ordered : bool) (os' os : list dirop) : Prop :=
  if ordered then os' `prefix_of` os else os' `sublist_of` os.

(** A power loss: a file that is not synced may hold anything, and the directory is as it was last
    synced but for the changes that survive. *)
Definition content_lost (c c' : content) : Prop := c' = c \/ synced c = false /\ text c' = None.
Definition lost (ordered : bool) (d d' : disk) : Prop :=
  exists os, survive ordered os (ops d) /\ stable d' = foldl apply_op (stable d) os /\ ops d' = [] /\
    forall n, content_lost (inodes d n) (inodes d' n).

(** Everything is on the disk. *)
Definition durable (d : disk) : Prop :=
  ops d = [] /\
  forall n, file (stable d) = Some n \/ backup (stable d) = Some n -> synced (inodes d n) = true /\ (n < next d)%nat.

Definition read_content (c : option content) : Preferences := default ∅ (c ← c; readMap (text c ≫= reread)).

#[local] Arguments current : simpl never.

Lemma current_change o d : current (change o d) = apply_op (current d) o.
Proof. unfold current, change. cbn. by rewrite foldl_app. Qed.

Lemma recovered_eq d :
  recovered d = read_content (match mBackupFile d with Some c => Some c | None => mFile d end).
Proof.
  unfold recovered, outcome, loadSharedPrefs, remove_file, rename_from_backup, set_disk, mFile, mBackupFile.
  unfold gets, modify, mret, M_ret, mbind, M_bind. destruct (current d) as [f b] eqn:E. cbn. rewrite E. destruct b as [n|]; cbn.
  - destruct f as [m|]; rewrite E; cbn; rewrite ?current_change, ?E; cbn; by rewrite !current_change, ?E.
  - by rewrite E.
Qed.

(** What a disk may be while preferences are stored: for each part of the changes of the directory
    that survives, the backup has the old preferences, or there is none and the file has the old
    ones or the new ones. *)
Definition holds (map : Preferences) (old : Preferences) (i : nat -> content) (D : dir) : Prop :=
  match backup D, file D with
  | Some n, _ => synced (i n) = true /\ read_content (Some (i n)) = old
  | None, Some n =>
      synced (i n) = true /\ (read_content (Some (i n)) = old \/ text (i n) = Some (document map)) \/
      old = ∅ /\ (text (i n) = None \/ text (i n) = Some (document map))
  | None, None => old = ∅
  end.
Definition middle (map : Preferences) (old : Preferences) (d : disk) : Prop :=
  forall os, os `prefix_of` ops d -> holds map old (inodes d) (foldl apply_op (stable d) os).

Lemma content_kept c c' : synced c = true -> content_lost c c' -> c' = c.
Proof. intros Hs [|[? _]]; congruence. Qed.

Lemma middle_recovered map old d d' :
  middle map old d -> lost true d d' -> recovered d' = old \/ recovered d' = readback map.
Proof.
  intros Hm (os & Hp & Es & Eo & Hi). specialize (Hm os Hp). rewrite recovered_eq. unfold mBackupFile, mFile, current.
  rewrite Eo, Es. cbn [foldl]. unfold holds in Hm. destruct (foldl apply_op (stable d) os) as [f b]. cbn [backup file] in *.
  destruct b as [n|]; cbn.
  - destruct Hm as [Hs <-]. left. by rewrite (content_kept _ _ Hs (Hi n)).
  - destruct f as [n|]; cbn; [|left; by rewrite Hm].
    destruct Hm as [[Hs H]|[-> H]].
    + rewrite (content_kept _ _ Hs (Hi n)). destruct H as [H|H]; [by left|right]. unfold read_content, readback. cbn. by rewrite H.
    + destruct (Hi n) as [->|[_ E]].
      * destruct H as [H|H]; [left|right]; unfold read_content, readback; cbn; by rewrite H.
      * left. unfold read_content. cbn. by rewrite E.
Qed.

Ltac run_store :=
  unfold exec, outcome, storeSharedPrefs, writeMap, SaveFile, open_file, make_backup, fsync, fsync_dir, remove_file, remove_backup,
    rename_to_backup, set_disk, gets, modify, mret, M_ret, mbind, M_bind, undefined, change, fill, current; cbn.

Ltac crash_points :=
  repeat (let H := fresh in intros H; apply elem_of_cons in H as [->|H]; [|revert H]);
  [..|intros []%not_elem_of_nil].

Lemma prefix_nil_inv {A} (l : list A) : l `prefix_of` [] -> l = [].
Proof. intros [k E]. by apply eq_sym, app_eq_nil in E as [-> _]. Qed.

Lemma prefix_cons_cases {A} (x : A) l k : l `prefix_of` x :: k -> l = [] \/ exists l', l = x :: l' /\ l' `prefix_of` k.
Proof. intros [m E]. destruct l as [|y l]; [by left|right]. injection E as -> ->. exists l. split; [done|]. by exists m. Qed.

Ltac surviving H :=
  first [apply prefix_nil_inv in H as ->
        |apply prefix_cons_cases in H as [->|(? & -> & H)]; [|surviving H]].

Ltac settled :=
  unfold holds, upd; cbn; rewrite ?Nat.eqb_refl; repeat rewrite (proj2 (Nat.eqb_neq _ _)) by lia; cbn; by auto 6.

Lemma store_middle no_sync x map d d1 :
  durable d -> write_fails x = false -> sync_fails x = false ->
  (is_Some (mFile d) -> is_Some (mBackupFile d) -> remove_fails x = false) ->
  d1 ∈ d :: seen (exec (storeSharedPrefs no_sync x map) (mkFs d [])) -> middle map (recovered d) d1.
Proof.
  intros [Ho Hd] Hw Hs Hr. rewrite recovered_eq. destruct x as [rf mf opf wf sf ff uf cf df]. cbn in Hw, Hs, Hr. subst wf sf.
  unfold mFile, mBackupFile, current in *.
  destruct d as [[f b] o ino nx]. cbn in Ho, Hd, Hr. subst o. cbn in *.
  assert (forall n, f = Some n -> synced (ino n) = true /\ (n < nx)%nat) as Hf by (intros n ->; auto).
  assert (forall n, b = Some n -> synced (ino n) = true /\ (n < nx)%nat) as Hb by (intros n ->; auto). clear Hd.
  destruct f as [f|], b as [b|]; [rewrite Hr by done|clear Hr..]; try (destruct (Hf f eq_refl) as [Hf1 Hf2]); try (destruct (Hb b eq_refl) as [Hb1 Hb2]).
  - destruct opf, no_sync, ff, uf, cf, df; run_store; crash_points; intros os Hos; cbn in Hos; surviving Hos; settled.
  - destruct rf, opf, no_sync, ff, uf, cf, df; run_store; crash_points; intros os Hos; cbn in Hos; surviving Hos; settled.
  - destruct opf, no_sync, ff, uf, cf, df; run_store; crash_points; intros os Hos; cbn in Hos; surviving Hos; settled.
  - destruct opf, no_sync, ff, uf, cf, df; run_store; crash_points; intros os Hos; cbn in Hos; surviving Hos; settled.
Qed.

(** C34: Writing the preferences is atomic on a file system that keeps the order of the changes made to a directory.
    Whatever calls of the operating system fail, as long as the new file is written whole and synced, a crash or a power loss
    at any point leaves a disk from which the next start reads the preferences as they were or as they are written, nothing
    in between; the changes of the directory that were not synced may be lost from any point on.  It assumes that what
    was there is on the disk, and that the old file can be removed where a backup is there already. *)
Theorem prefs_crash_safe no_sync x map d d1 d2 :
  durable d -> write_fails x = false -> sync_fails x = false ->
  (is_Some (mFile d) -> is_Some (mBackupFile d) -> remove_fails x = false) ->
  d1 ∈ d :: seen (exec (storeSharedPrefs no_sync x map) (mkFs d [])) -> lost true d1 d2 ->
  recovered d2 = recovered d \/ recovered d2 = readback map.
Proof.
  intros Hd Hw Hs Hr Hin. apply middle_recovered. by eapply store_middle.
Qed.

Ltac ran E :=
  do 6 (run_store; rewrite ?foldl_app, ?E; cbn);
  first [discriminate | intros _; eexists; split; [reflexivity|split; [reflexivity|by unfold upd; rewrite ?Nat.eqb_refl]]].

(** The preferences have been written. *)
Definition stored (map : Preferences) (d : disk) : Prop :=
  exists n, stable d = mkDir (Some n) None /\ ops d = [] /\ inodes d n = mkContent (Some (document map)) true.

Lemma stored_recovered ordered map d d' : stored map d -> lost ordered d d' -> recovered d' = readback map.
Proof.
  intros (n & Es & Eo & Ei) (os & Hp & Es' & Eo' & Hi). rewrite Eo in Hp.
  assert (os = []) as -> by (destruct ordered; cbn in Hp; [by apply prefix_nil_inv|by apply sublist_nil_r]).
  rewrite recovered_eq. unfold mBackupFile, mFile, current. rewrite Eo', Es', Es. cbn.
  rewrite (content_kept (inodes d n) (inodes d' n)) by (done || by rewrite Ei). by rewrite Ei.
Qed.

(** C35: What a commit reports as written is there after the next start: where syncing is not switched off, the
    new file is written whole and synced, as is its directory, and the old files can be removed, a store that returns true leaves a disk from which
    the next start reads the preferences that were stored, also after a power loss, in whatever order a file system
    writes directories. *)
Theorem prefs_durable ordered x map d d2 :
  write_fails x = false -> sync_fails x = false -> unlink_fails x = false -> dirsync_fails x = false ->
  (is_Some (mFile d) -> is_Some (mBackupFile d) -> remove_fails x = false) ->
  outcome (storeSharedPrefs false x map) (mkFs d []) = Ok true ->
  lost ordered (now (exec (storeSharedPrefs false x map) (mkFs d []))) d2 ->
  recovered d2 = readback map.
Proof.
  intros Hw Hs Hu Hy Hr Ho. apply stored_recovered.
  destruct x as [rf mf opf wf sf ff uf cf df]. cbn in Hw, Hs, Hr, Hu, Hy. subst wf sf uf df. unfold mFile, mBackupFile, current in Hr.
  destruct d as [st o ino nx]. cbn in Hr. destruct (foldl apply_op st o) as [f b] eqn:E. revert Ho. unfold stored.
  destruct f as [f|], b as [b|]; cbn in Hr; [rewrite Hr by done|clear Hr..].
  - destruct opf, ff, cf; ran E.
  - destruct rf, opf, ff, cf; ran E.
  - destruct opf, ff, cf; ran E.
  - destruct opf, ff, cf; ran E.
Qed.

(** Where the changes of a directory may reach the disk in any order, as [fsync] allows, a power loss can lose everything: the
    backup is removed before the directory is synced, and its removal may survive where the new file does not. *)
Theorem unordered_unlink no_sync map c :
  let d := mkDisk (mkDir (Some 0%nat) None) [] (fun _ => mkContent (Some c) true) 1 in
  exists d1 d2, d1 ∈ seen (exec (storeSharedPrefs no_sync no_faults map) (mkFs d [])) /\ lost false d1 d2 /\ recovered d2 = ∅.
Proof.
  intros d. set (i := upd (upd (upd (upd (inodes d) 1 (mkContent None false)) 1 (mkContent None false)) 1
    (mkContent (Some (document map)) false)) 1 (mkContent (Some (document map)) true)).
  set (i' := if no_sync then i else upd i 1 (mkContent (Some (document map)) true)).
  exists (mkDisk (stable d) [ToBackup; Create 1; UnlinkBackup] i' 2), (mkDisk (mkDir None None) [] i' 2).
  split; [|split].
  - subst i'. destruct no_sync; run_store; set_solver.
  - exists [ToBackup; UnlinkBackup]. split; [cbn; repeat constructor|]. split; [done|]. split; [done|]. by left.
  - by rewrite recovered_eq.
Qed.

(** A commit that reports success can be undone by the next start: if the backup
    cannot be removed, storing returns true, and the next start restores the backup over the file
    that was just written. *)
Theorem backup_outlives no_sync map c :
  let x := mkFaults false false false false false false true false false in
  let d := mkDisk (mkDir (Some 0%nat) None) [] (fun _ => c) 1 in
  outcome (storeSharedPrefs no_sync x map) (mkFs d []) = Ok true /\
  recovered (now (exec (storeSharedPrefs no_sync x map) (mkFs d []))) = recovered d.
Proof. by destruct no_sync. Qed.

(** A write that is cut short loses everything: the errors of printing are not checked, so
    storing returns true and removes the backup, and the next start finds neither the old
    preferences nor the new ones. *)
Theorem full_disk_loses no_sync map c :
  let x := mkFaults false false false true false false false false false in
  let d := mkDisk (mkDir (Some 0%nat) None) [] (fun _ => c) 1 in
  outcome (storeSharedPrefs no_sync x map) (mkFs d []) = Ok true /\
  recovered (now (exec (storeSharedPrefs no_sync x map) (mkFs d []))) = ∅.
Proof. by destruct no_sync. Qed.

(** What [fsync] returns is not looked at: if the directory cannot be synced, storing returns true,
    and a power loss can bring the old preferences back. *)
Theorem sync_ignored map c :
  let x := mkFaults false false false false false false false false true in
  let d := mkDisk (mkDir (Some 0%nat) None) [] (fun _ => mkContent (Some c) true) 1 in
  outcome (storeSharedPrefs false x map) (mkFs d []) = Ok true /\
  exists d2, lost true (now (exec (storeSharedPrefs false x map) (mkFs d []))) d2 /\ recovered d2 = recovered d.
Proof.
  intros x d. split; [done|]. set (w := now _). exists (mkDisk (stable d) [] (inodes w) (next w)).
  split; [|by rewrite !recovered_eq]. exists []. split; [by exists [ToBackup; Create 1; UnlinkBackup]|].
  split; [done|]. split; [done|]. by left.
Qed.
End crashes.
End Crashes.

(** ** Committing an editor *)

Module Commits.
Import Preferences.
Section commits.
Context {values : XMLValues} {files : XMLFiles}
  `{!IterationOrder (list Z) Variant} `{!IterationOrder (list Z) (option Variant)}.

(** What becomes of a value when the editor has [v] for its key; a value equal to the new one
    stays. *)
Definition new_value (old : option Variant) (v : option Variant) : option Variant :=
  match v, old with
  | None, _ => None
  | Some v, Some o => if equals o v then Some o else Some v
  | Some v, None => Some v
  end.

Lemma modified_lookup map k v :
  default map (modified map k v) !! k = new_value (map !! k) v /\
  (forall j, j <> k -> default map (modified map k v) !! j = map !! j).
Proof.
  unfold modified, new_value. destruct v as [v|].
  - destruct (map !! k) as [o|] eqn:E.
    + destruct (equals o v); cbn; [done|]. split; [apply lookup_insert_eq|]. intros j ?. by apply lookup_insert_ne.
    + cbn. split; [apply lookup_insert_eq|]. intros j ?. by apply lookup_insert_ne.
  - case_decide as Hs; cbn.
    + split; [apply lookup_delete_eq|]. intros j ?. by apply lookup_delete_ne.
    + split; [by apply eq_None_not_Some|done].
Qed.

Lemma apply_all_lookup l map keys k :
  NoDup l.*1 ->
  fst (apply_all l map keys) !! k =
    match (list_to_map l : gmap (list Z) (option Variant)) !! k with
    | Some v => new_value (map !! k) v
    | None => map !! k
    end.
Proof.
  revert map keys. induction l as [|[j v] l IH]; intros map keys; [done|].
  intros [Hj Hl]%NoDup_cons. cbn [apply_all list_to_map foldr fst snd uncurry].
  destruct (modified_lookup map j v) as [Hv Ho].
  assert (fst (match modified map j v with Some map => apply_all l map (keys ++ [j]) | None => apply_all l map keys end) !! k =
    match (list_to_map l : gmap (list Z) (option Variant)) !! k with
    | Some v' => new_value (default map (modified map j v) !! k) v'
    | None => default map (modified map j v) !! k end) as E.
  { destruct (modified map j v); by apply IH. }
  rewrite E. destruct (decide (j = k)) as [<-|Hne].
  - rewrite lookup_insert_eq. rewrite (not_elem_of_list_to_map_1 l j) by done. done.
  - rewrite lookup_insert_ne by done. by rewrite (Ho k) by congruence.
Qed.

(** Whether a change of the editor modifies the map. *)
Definition modifies (old v : option Variant) : bool :=
  match v, old with
  | None, Some _ | Some _, None => true
  | None, None => false
  | Some v, Some o => negb (equals o v)
  end.

Lemma modified_modifies map k v : modified map k v <> None <-> modifies (map !! k) v = true.
Proof.
  unfold modified, modifies. destruct v as [v|], (map !! k) as [o|]; [|done| |].
  - by destruct (equals o v).
  - by rewrite decide_True by done.
  - rewrite decide_False by (by intros [? ?]). done.
Qed.

Lemma filter_ext_elem {A} (P Q : A -> Prop) `{!forall x, Decision (P x), !forall x, Decision (Q x)} (l : list A) :
  (forall x, x ∈ l -> P x <-> Q x) -> filter P l = filter Q l.
Proof.
  induction l as [|x l IH]; intros Hl; [done|]. rewrite !filter_cons. rewrite IH by (intros y Hy; apply Hl; by right).
  specialize (Hl x ltac:(by left)). repeat case_decide; tauto || done.
Qed.

Lemma apply_all_keys l map keys :
  NoDup l.*1 -> snd (apply_all l map keys) = keys ++ (filter (fun kv => modifies (map !! kv.1) kv.2 = true) l).*1.
Proof.
  revert map keys. induction l as [|[k v] l IH]; intros map keys; [by rewrite app_nil_r|]. intros [Hk Hl]%NoDup_cons.
  cbn [apply_all]. rewrite filter_cons. cbn [fst snd]. pose proof (modified_modifies map k v) as Hm.
  destruct (modified_lookup map k v) as [_ Ho].
  assert (filter (fun kv => modifies (default map (modified map k v) !! kv.1) kv.2 = true) l =
    filter (fun kv => modifies (map !! kv.1) kv.2 = true) l) as Ef.
  { apply filter_ext_elem. intros [j w] Hj. cbn [fst snd]. rewrite Ho; [done|].
    intros ->. apply Hk. by apply (list_elem_of_fmap_2 fst) in Hj. }
  destruct (modified map k v) as [m|].
  - rewrite decide_True by (by apply Hm). rewrite IH by done. cbn in Ef. rewrite Ef. by rewrite <- app_assoc.
  - rewrite decide_False by (intros H; by apply Hm in H). rewrite IH by done. done.
Qed.

Lemma apply_all_idle l map : snd (apply_all l map []) = [] -> fst (apply_all l map []) = map.
Proof.
  assert (forall l map keys, snd (apply_all l map keys) = [] -> fst (apply_all l map keys) = map /\ keys = []) as H; [|by apply H].
  clear. induction l as [|[k v] l IH]; intros map keys; [done|]. cbn [apply_all].
  destruct (modified map k v) as [m|]; [|apply IH]. intros Hk. destruct (IH _ _ Hk) as [_ He]. by destruct keys.
Qed.

Lemma foldl_notify gone keys p :
  let p' := foldl (fun p k => notify gone (Some k) p) p keys in mMap p' = mMap p /\ disks p' = disks p.
Proof.
  revert p. induction keys as [|k keys IH]; intros p; [done|]. cbn [foldl].
  destruct (IH (notify gone (Some k) p)) as [-> ->]. done.
Qed.

(** Whether a commit has anything to do. *)
Definition touched (e : Editor) (map : Preferences) : bool :=
  mClearMap e && negb (bool_decide (map = ∅)) ||
  bool_decide (map_Exists (fun k v => modifies ((if mClearMap e then ∅ else map) !! k) v = true) (mModifications e)).

Lemma touched_eq e map :
  touched e map = mClearMap e && negb (bool_decide (map = ∅)) ||
    negb (bool_decide (snd (apply_all (entries (mModifications e)) (if mClearMap e then ∅ else map) []) = [])).
Proof.
  unfold touched. f_equal. rewrite apply_all_keys by (rewrite entries_perm; apply NoDup_fst_map_to_list). cbn [app].
  rewrite <- bool_decide_not. apply bool_decide_ext. set (base := if mClearMap e then ∅ else map).
  rewrite map_Exists_to_list, Exists_exists. split.
  - intros ([k v] & Hin & Hv) Hn. apply fmap_nil_inv in Hn. assert ((k, v) ∈ ([] : list (list Z * option Variant))) as H; [|by apply not_elem_of_nil in H].
    rewrite <- Hn. apply list_elem_of_filter. split; [done|]. by rewrite entries_perm.
  - intros Hn. destruct (filter _ _) as [|[k v] l] eqn:E; [done|].
    assert ((k, v) ∈ filter (fun kv => modifies (base !! kv.1) kv.2 = true) (entries (mModifications e))) as H by (rewrite E; by left).
    apply list_elem_of_filter in H as [Hv Hin]. exists (k, v). split; [by rewrite <- entries_perm|done].
Qed.

(** C36: A commit applies the editor's changes to the map and empties the editor: after a clear nothing else stays, a
    removed key is gone, a put key has its value (or keeps one that is equal), the other keys are
    as they were.  If nothing was modified - no value was cleared, removed or changed - it returns false, touches
    no file and tells no listener; otherwise the new map is stored, and the result is that of the store. *)
Theorem commit_applies no_sync x gone e p :
  let '(r, e', p') := commit no_sync x gone e p in
  e' = edit /\
  (forall k, mMap p' !! k =
     let old := if mClearMap e then None else mMap p !! k in
     match mModifications e !! k with Some v => new_value old v | None => old end) /\
  if touched e (mMap p) then (r, disks p') = storeSharedPrefs no_sync x (mMap p') (disks p) else r = Ok false /\ p' = p.
Proof.
  unfold commit, commit_map. rewrite touched_eq. set (base := if mClearMap e then ∅ else mMap p).
  pose proof (apply_all_idle (entries (mModifications e)) base) as Hidle.
  destruct (apply_all (entries (mModifications e)) base []) as [map keys] eqn:E. cbn [fst snd] in Hidle |- *.
  assert (forall k, map !! k = let old := if mClearMap e then None else mMap p !! k in
     match mModifications e !! k with Some v => new_value old v | None => old end) as Hmap.
  { intros k. replace map with (fst (apply_all (entries (mModifications e)) base [])) by by rewrite E.
    rewrite apply_all_lookup by (rewrite entries_perm; apply NoDup_fst_map_to_list).
    rewrite (list_to_map_proper (entries (mModifications e)) (map_to_list (mModifications e)));
      [|rewrite entries_perm; apply NoDup_fst_map_to_list|apply entries_perm].
    rewrite list_to_map_to_list. unfold base. by destruct (mClearMap e). }
  destruct (mClearMap e && negb (bool_decide (mMap p = ∅)) || negb (bool_decide (keys = []))) eqn:Hm.
  - cbn [disks]. destruct (storeSharedPrefs no_sync x map (disks p)) as [r d] eqn:Hs.
    destruct r as [[]| | |]; try (split; [done|split; [exact Hmap|cbn; by rewrite Hs]]).
    cbn [mListeners]. case_decide; [split; [done|split; [exact Hmap|cbn; by rewrite Hs]]|].
    unfold notifySharedPreferenceChangeListeners. set (p0 := mkPreferences _ _ _ _).
    destruct (foldl_notify gone keys p0) as [Em Ed]. cbn [notify mMap disks]. rewrite Em, Ed.
    split; [done|split; [exact Hmap|cbn; by rewrite Hs]].
  - split; [done|]. split; [exact Hmap|]. split; [done|].
    apply orb_false_elim in Hm as [Hc Hk]. apply negb_false_iff, bool_decide_eq_true_1 in Hk.
    rewrite (Hidle Hk). unfold base. destruct (mClearMap e); [|by destruct p].
    cbn in Hc. apply negb_false_iff, bool_decide_eq_true_1 in Hc. rewrite <- Hc. by destruct p.
Qed.
End commits.
End Commits.

(** *** An example *)

Module PreferencesExample.
Import Preferences RoundTrip Crashes.

Definition printed (z : Z) : list Z := default [] (Str.valueOf_int32 z).
Definition parsed (l : list Z) : Z :=
  match Numbers.Integer_valueOf (Some (Some l)) with Ok z => z | _ => 0 end.

#[local] Instance example_values : XMLValues :=
  {| BoolValue := fun l => bool_decide (l = chars "true"); IntValue := parsed |}.
#[local] Instance example_files : XMLFiles :=
  {| ofInt := printed; ofFloat := printed; FloatValue := parsed;
     reread := fun d => Some (flat_map strip d); overwritten := fun _ _ => None |}.

Lemma example_laws : XMLLaws (fun _ => True).
Proof.
  split; [by vm_compute|by vm_compute| |done].
  intros z Hz. change (parsed (printed z) = z). unfold parsed, printed.
  destruct (Numbers.integer_roundtrip z) as (_ & _ & Hr). specialize (Hr Hz).
  destruct (Str.valueOf_int32 z) as [l|] eqn:E; [|discriminate E].
  exact (f_equal (fun r => match r with Ok z => z | _ => 0 end) Hr).
Qed.

Definition example_map : Preferences :=
  {[ chars "count" := Int (-7); chars "big" := Long (2 ^ 32 + 5); chars "name" := String (chars "M");
     chars "tags" := StringSet {[ chars "a"; [] ]} ]}.

Lemma prefs_roundtrip_witness :
  readback example_map = kept <$> example_map /\
  (kept <$> example_map) !! chars "big" = Some (Long 5) /\
  (kept <$> example_map) !! chars "tags" = Some (StringSet {[ chars "a" ]}).
Proof.
  split; [exact (prefs_roundtrip (fun _ => True) example_laws example_map I)|].
  split; vm_compute; reflexivity.
Defined.

(** The second commit finds the file of the first; renaming fails or not. *)
Definition example_disk : disk := mkDisk (mkDir (Some 0%nat) None) [] (fun _ => mkContent (Some (document ∅)) true) 1.

Lemma example_durable : durable example_disk.
Proof. split; [done|]. intros n [[= <-]|[=]]. split; [reflexivity|apply Nat.lt_0_succ]. Qed.

(** The new file is there, and nothing of it is on the disk. *)
Definition example_middle : disk :=
  mkDisk (mkDir (Some 0%nat) None) [ToBackup; Create 1]
    (upd (inodes example_disk) 1 (mkContent None false)) 2.

Lemma example_seen : example_middle ∈ example_disk :: seen (exec (storeSharedPrefs false no_faults example_map) (mkFs example_disk [])).
Proof. right. right. left. Qed.

Lemma example_lost : lost true example_middle (mkDisk (mkDir None (Some 0%nat)) [] (inodes example_middle) 2).
Proof. exists [ToBackup]. split; [by exists [Create 1]|]. split; [done|]. split; [done|]. by left. Qed.

Lemma prefs_crash_safe_witness :
  recovered (mkDisk (mkDir None (Some 0%nat)) [] (inodes example_middle) 2) = recovered example_disk \/
  recovered (mkDisk (mkDir None (Some 0%nat)) [] (inodes example_middle) 2) = readback example_map.
Proof.
  exact (prefs_crash_safe false no_faults example_map example_disk _ _ example_durable eq_refl eq_refl
    (fun _ _ => eq_refl) example_seen example_lost).
Defined.

Lemma prefs_durable_witness :
  let s := exec (storeSharedPrefs false no_faults example_map) (mkFs example_disk []) in
  outcome (storeSharedPrefs false no_faults example_map) (mkFs example_disk []) = Ok true /\
  recovered (now s) = readback example_map.
Proof.
  split; [reflexivity|].
  apply (prefs_durable false no_faults example_map example_disk); [reflexivity..|reflexivity|].
  exists []. split; [apply sublist_nil_l|]. split; [reflexivity|]. split; [reflexivity|]. left. reflexivity.
Defined.
End PreferencesExample.
