(* ===== verification/Configurations.v ===== *)
(** * runtime/system/ServiceDiscoveryConfigurationReader.cpp: nodes, plugins and services

    The configuration of a network of nodes: which plugins a node loads, and which services it
    announces under which numbers.  The document is the tree of [Packages]; how the vendored parser
    reads an unsigned number is the class [XMLUnsigned].

    A node is shared between the table of nodes and its services, which read its number only: a
    service keeps the number.  The services of a node change through the table of nodes only. *)

From S2P Require Import Prelude Strings Numbers URIs Packages.
From stdpp Require Import gmap fin_maps.
Open Scope Z_scope.

Import CString.

Class XMLUnsigned := { UnsignedValue : list Z -> Z }.

Module Configuration.

(* runtime/system/ServiceDiscoveryConfigurationReader.h:60-63 Configuration::Server *)
Record Server := mkServer { uri : list Z }.

(* runtime/system/ServiceDiscoveryConfigurationReader.h:52-58 Configuration::Plugin *)
Record Plugin := mkPlugin { scheme : list Z; clazz : list Z; server : option Server }.

(** [node] is the number of the node. *)
(* runtime/system/ServiceDiscoveryConfigurationReader.h:65-71 Configuration::Service *)
Record Service := mkService {
  node : Z;
  id : Z;
  name : list Z;
  announcements : gmap (list Z) (list Z);
}.

(* runtime/system/ServiceDiscoveryConfigurationReader.h:45-50 Configuration::Node *)
Record Node := mkNode {
  node_id : Z;
  plugins : gmap (list Z) Plugin;
  node_services : gmap (list Z) Service;
}.

(* runtime/system/ServiceDiscoveryConfigurationReader.h:73-74 Configuration *)
Record Configuration := mkConfiguration {
  nodes : gmap Z Node;
  services : gmap (list Z) Service;
}.

Section reader.
Context {values : XMLValues} {numbers : XMLUnsigned}.

(** An attribute that is there and not empty. *)
Definition given_attribute (e : XMLElement) (n : string) : option (list Z) :=
  match FindAttribute e n with Some [] | None => None | Some l => Some l end.

(* runtime/system/ServiceDiscoveryConfigurationReader.cpp:130-142 ServiceDiscoveryConfigurationReader::parseServer *)
Definition parseServer (e : XMLElement) : option Server := mkServer <$> given_attribute e "uri".

(** The last server element counts. *)
(* runtime/system/ServiceDiscoveryConfigurationReader.cpp:120-125 ServiceDiscoveryConfigurationReader::parsePlugin *)
Definition add_server (s : option Server) (e : XMLElement) : option Server :=
  if named "server" e then parseServer e else s.

(* runtime/system/ServiceDiscoveryConfigurationReader.cpp:104-128 ServiceDiscoveryConfigurationReader::parsePlugin *)
Definition parsePlugin (e : XMLElement) : option Plugin :=
  match given_attribute e "scheme", given_attribute e "class" with
  | Some scheme, Some clazz => Some (mkPlugin scheme clazz (foldl add_server None (children e)))
  | _, _ => None
  end.

(* runtime/system/ServiceDiscoveryConfigurationReader.cpp:91-99 ServiceDiscoveryConfigurationReader::parseNode *)
Definition add_plugin (ps : gmap (list Z) Plugin) (e : XMLElement) : gmap (list Z) Plugin :=
  if named "plugin" e then
    match parsePlugin e with Some p => <[scheme p := p]> ps | None => ps end
  else ps.

(** Without the attribute the number has no value: the member is not initialised. *)
(* runtime/system/ServiceDiscoveryConfigurationReader.cpp:79-102 ServiceDiscoveryConfigurationReader::parseNode *)
Definition parseNode (e : XMLElement) : result (option Node) :=
  match FindAttribute e "id" with
  | None => Undef
  | Some v =>
      let i := u32 (UnsignedValue v) in
      if i =? 0 then Ok None
      else Ok (Some (mkNode i (foldl add_plugin ∅ (children e)) ∅))
  end.

(* runtime/system/ServiceDiscoveryConfigurationReader.cpp:67-77 ServiceDiscoveryConfigurationReader::parseNodes *)
Fixpoint parseNodes (es : list XMLElement) (c : Configuration) : result Configuration :=
  match es with
  | [] => Ok c
  | e :: es =>
      if named "node" e then
        n ← parseNode e;
        parseNodes es match n with
                      | Some n => mkConfiguration (<[node_id n := n]> (nodes c)) (services c)
                      | None => c
                      end
      else parseNodes es c
  end.

(* runtime/system/ServiceDiscoveryConfigurationReader.cpp:205-221 ServiceDiscoveryConfigurationReader::parseAnnouncement *)
Definition parseAnnouncement (e : XMLElement) : result (option URI.URI) :=
  match given_attribute e "interfaceDescriptor" with
  | None => Ok None
  | Some l =>
      match URI.create (Some (Some l)) with
      | Ok u => Ok (Some u)
      | Throw IllegalArgumentException => Ok None
      | Throw x => Throw x
      | Undef => Undef
      | Diverge => Diverge
      end
  end.

(** A string that is a key of a map or an argument of a formatted text: a null pointer is
    dereferenced. *)
Definition characters (s : Str.sp) : result (list Z) := s ← deref s; p ← deref (Str.c_str s); cstring p.

(* runtime/system/ServiceDiscoveryConfigurationReader.cpp:192-200 ServiceDiscoveryConfigurationReader::parseService *)
Fixpoint parseAnnouncements (es : list XMLElement) (m : gmap (list Z) (list Z)) :
    result (gmap (list Z) (list Z)) :=
  match es with
  | [] => Ok m
  | e :: es =>
      if named "announcement" e then
        u ← parseAnnouncement e;
        match u with
        | None => parseAnnouncements es m
        | Some u =>
            k ← characters (URI.mScheme u);
            v ← characters (URI.mString u);
            parseAnnouncements es (<[k := v]> m)
        end
      else parseAnnouncements es m
  end.

(** [node]: the node the service is given to. *)
(* runtime/system/ServiceDiscoveryConfigurationReader.cpp:177-203 ServiceDiscoveryConfigurationReader::parseService *)
Definition parseService (node : Z) (e : XMLElement) : result (option Service) :=
  let i := from_option (fun v => i32 (IntValue v)) (-1) (FindAttribute e "id") in
  match given_attribute e "name" with
  | None => Ok None
  | Some n =>
      if i <? 0 then Ok None
      else m ← parseAnnouncements (children e) ∅; Ok (Some (mkService node i n m))
  end.

Definition add_node_service (s : Service) (n : Node) : Node :=
  mkNode (node_id n) (plugins n) (<[name s := s]> (node_services n)).

(** [node->services] and [configuration->services] get the service. *)
(* runtime/system/ServiceDiscoveryConfigurationReader.cpp:168-172 ServiceDiscoveryConfigurationReader::parseServiceDiscoveryNode *)
Definition add_service (key : Z) (s : Service) (c : Configuration) : Configuration :=
  mkConfiguration (alter (add_node_service s) key (nodes c)) (<[name s := s]> (services c)).

(* runtime/system/ServiceDiscoveryConfigurationReader.cpp:163-174 ServiceDiscoveryConfigurationReader::parseServiceDiscoveryNode *)
Fixpoint parseServices (key node : Z) (es : list XMLElement) (c : Configuration) : result Configuration :=
  match es with
  | [] => Ok c
  | e :: es =>
      if named "service" e then
        s ← parseService node e;
        parseServices key node es match s with Some s => add_service key s c | None => c end
      else parseServices key node es c
  end.

(* runtime/system/ServiceDiscoveryConfigurationReader.cpp:153-175 ServiceDiscoveryConfigurationReader::parseServiceDiscoveryNode *)
Definition parseServiceDiscoveryNode (e : XMLElement) (c : Configuration) : result Configuration :=
  let nodeId := from_option (fun v => u32 (UnsignedValue v)) 0 (FindAttribute e "id") in
  match nodes c !! nodeId with
  | None => Ok c
  | Some n => parseServices nodeId (node_id n) (children e) c
  end.

(* runtime/system/ServiceDiscoveryConfigurationReader.cpp:144-151 ServiceDiscoveryConfigurationReader::parseServiceDiscovery *)
Fixpoint parseServiceDiscovery (es : list XMLElement) (c : Configuration) : result Configuration :=
  match es with
  | [] => Ok c
  | e :: es =>
      if named "node" e then c ← parseServiceDiscoveryNode e c; parseServiceDiscovery es c
      else parseServiceDiscovery es c
  end.

(* runtime/system/ServiceDiscoveryConfigurationReader.cpp:55-61 ServiceDiscoveryConfigurationReader::read *)
Fixpoint parseRoot (es : list XMLElement) (c : Configuration) : result Configuration :=
  match es with
  | [] => Ok c
  | e :: es =>
      c ← (if named "nodes" e then parseNodes (children e) c
           else if named "serviceDiscovery" e then parseServiceDiscovery (children e) c
           else Ok c);
      parseRoot es c
  end.

(** [doc]: what [LoadFile] made of the file. *)
(* runtime/system/ServiceDiscoveryConfigurationReader.cpp:45-65 ServiceDiscoveryConfigurationReader::read *)
Definition read (doc : option (list XMLElement)) : result (option Configuration) :=
  match doc ≫= fun es => head (filter (fun e => Is_true (named "runtime" e)) es) with
  | None => Ok None
  | Some root => c ← parseRoot (children root) (mkConfiguration ∅ ∅); Ok (Some c)
  end.

(** ** What the reader makes *)

(** A table of services has them under their names; their numbers are not negative. *)
Definition named_services (m : gmap (list Z) Service) : Prop :=
  map_Forall (fun k s => name s = k /\ k <> [] /\ 0 <= id s < 2 ^ 31) m.

(** Nodes are kept under their numbers, which are not 0, with the services that name them. *)
Record configuration_ok (c : Configuration) : Prop := {
  ok_nodes : map_Forall (fun k n => node_id n = k /\ 0 < k < 2 ^ 32) (nodes c);
  ok_node_services : map_Forall (fun k n =>
    named_services (node_services n) /\ map_Forall (fun _ s => node s = k) (node_services n)) (nodes c);
  ok_services : named_services (services c);
  ok_known : map_Forall (fun _ s => is_Some (nodes c !! node s)) (services c);
}.

(** Every service of the network is the one its node has under that name. *)
Definition announced (c : Configuration) : Prop :=
  map_Forall (fun k s => (n ← nodes c !! node s; node_services n !! k) = Some s) (services c).

Lemma parseNode_ok e n :
  parseNode e = Ok (Some n) -> 0 < node_id n < 2 ^ 32 /\ node_services n = ∅.
Proof.
  unfold parseNode. destruct (FindAttribute e "id"); [|done]. destruct (Z.eqb_spec (u32 (UnsignedValue l)) 0); [done|].
  intros [= <-]. pose proof (u32_range (UnsignedValue l)). cbn. split; [lia|done].
Qed.

Lemma configured_service_ok k e s :
  parseService k e = Ok (Some s) -> node s = k /\ name s <> [] /\ 0 <= id s < 2 ^ 31.
Proof.
  unfold parseService, given_attribute. set (i := from_option _ _ _).
  assert (i < 2 ^ 31) as Hi.
  { subst i. destruct (FindAttribute e "id") as [v|]; [|done]. cbn [from_option]. pose proof (i32_range (IntValue v)). lia. }
  destruct (FindAttribute e "name") as [[|c l]|]; try done.
  destruct (Z.ltb_spec i 0); [done|]. intros (m & _ & [= <-])%result_bind_Ok. cbn. split_and!; [done|done|lia|lia].
Qed.

Lemma named_insert m s :
  named_services m -> name s <> [] -> 0 <= id s < 2 ^ 31 -> named_services (<[name s := s]> m).
Proof. intros Hm Hn Hi. by apply map_Forall_insert_2. Qed.

Lemma add_node_ok n c :
  configuration_ok c -> 0 < node_id n < 2 ^ 32 -> node_services n = ∅ ->
  configuration_ok (mkConfiguration (<[node_id n := n]> (nodes c)) (services c)).
Proof.
  intros [H1 H2 H3 H4] Hi He. split; cbn; [by apply map_Forall_insert_2| |done|].
  - apply map_Forall_insert_2; [|done]. rewrite He. split; apply map_Forall_empty.
  - intros k s Hs. destruct (H4 k s Hs) as [n' Hn].
    destruct (decide (node s = node_id n)) as [->|]; [by rewrite lookup_insert_eq|by rewrite lookup_insert_ne].
Qed.

Lemma add_service_ok key s c :
  configuration_ok c -> is_Some (nodes c !! key) -> node s = key -> name s <> [] -> 0 <= id s < 2 ^ 31 ->
  configuration_ok (add_service key s c).
Proof.
  intros [H1 H2 H3 H4] Hk Hs Hn Hi. unfold add_service. split; cbn [nodes services].
  - intros k n. rewrite lookup_alter_Some. intros [(-> & m & Hm & ->)|[_ Hm]]; [|by apply H1]. by apply (H1 k m).
  - intros k n. rewrite lookup_alter_Some. intros [(-> & m & Hm & ->)|[_ Hm]]; [|by apply H2].
    destruct (H2 k m Hm) as [Ha Hb]. cbn. split; [by apply named_insert|by apply map_Forall_insert_2].
  - by apply named_insert.
  - assert (forall k, is_Some (nodes c !! k) -> is_Some (alter (add_node_service s) key (nodes c) !! k)) as Hm.
    { intros k [n Hn']. destruct (decide (k = key)) as [->|]; [|by rewrite lookup_alter_ne].
      rewrite lookup_alter_eq, Hn'. by eexists. }
    intros k t. rewrite lookup_insert_Some. intros [[_ <-]|[_ Ht]]; apply Hm; [by rewrite Hs|by apply (H4 k)].
Qed.

Lemma add_service_announced key s c :
  announced c -> is_Some (nodes c !! key) -> node s = key -> announced (add_service key s c).
Proof.
  intros Ha [n Hn] Hs k t. cbn. destruct (decide (name s = k)) as [<-|Hk].
  - rewrite lookup_insert_eq. intros [= <-]. rewrite Hs, lookup_alter_eq, Hn. cbn. by rewrite lookup_insert_eq.
  - rewrite lookup_insert_ne by done. intros Ht. pose proof (Ha k t Ht) as E. cbn beta in E.
    destruct (decide (node t = key)) as [Et|Et]; [|by rewrite lookup_alter_ne by done].
    rewrite Et, lookup_alter_eq. rewrite Et in E. destruct (nodes c !! key); [|done]. cbn in *.
    by rewrite lookup_insert_ne.
Qed.

Lemma parseNodes_ok es c c' : configuration_ok c -> parseNodes es c = Ok c' -> configuration_ok c'.
Proof.
  revert c. induction es as [|e es IH]; intros c Hc; cbn [parseNodes]; [by intros [= <-]|].
  destruct (named "node" e); [|by apply IH]. intros (n & Hn & H)%result_bind_Ok. revert H. apply IH.
  destruct n as [n|]; [|done]. destruct (parseNode_ok _ _ Hn). by apply add_node_ok.
Qed.

(** The services of a node leave the nodes where they are. *)
Lemma parseServices_ok key k es c c' :
  configuration_ok c -> is_Some (nodes c !! key) -> k = key -> parseServices key k es c = Ok c' ->
  configuration_ok c' /\ (announced c -> announced c').
Proof.
  intros Hc Hk ->. revert c Hc Hk. induction es as [|e es IH]; intros c Hc Hk; cbn [parseServices]; [by intros [= <-]|].
  destruct (named "service" e); [|by apply IH]. intros (s & Hs & H)%result_bind_Ok.
  destruct s as [s|]; [|by apply (IH c)]. destruct (configured_service_ok _ _ _ Hs) as (Ek & Hn & Hi).
  destruct (IH (add_service key s c)) as [H1 H2]; [by apply add_service_ok| |done|].
  - cbn. rewrite lookup_alter_eq. destruct Hk as [n ->]. by eexists.
  - split; [done|]. intros Ha. apply H2. by apply add_service_announced.
Qed.

Lemma parseServiceDiscovery_ok es c c' :
  configuration_ok c -> parseServiceDiscovery es c = Ok c' ->
  configuration_ok c' /\ (announced c -> announced c').
Proof.
  revert c. induction es as [|e es IH]; intros c Hc; cbn [parseServiceDiscovery]; [by intros [= <-]|].
  destruct (named "node" e); [|by apply IH]. intros (c1 & H1 & H)%result_bind_Ok. unfold parseServiceDiscoveryNode in H1.
  destruct (nodes c !! _) as [n|] eqn:En; [|injection H1 as <-; by apply (IH c)].
  apply parseServices_ok in H1 as [Hc1 Ha1]; [|done|by rewrite En|by apply (ok_nodes c Hc _ _ En)..].
  destruct (IH c1 Hc1 H) as [Hc' Ha']. split; [done|]. intros Ha. by apply Ha', Ha1.
Qed.

Lemma parseRoot_app es es' c : parseRoot (es ++ es') c = c1 ← parseRoot es c; parseRoot es' c1.
Proof.
  revert c. induction es as [|e es IH]; intros c; [done|]. cbn [app parseRoot].
  destruct (if named "nodes" e then _ else _) as [c1| | |]; try done. apply IH.
Qed.

Lemma parseRoot_ok es c c' : configuration_ok c -> parseRoot es c = Ok c' -> configuration_ok c'.
Proof.
  revert c. induction es as [|e es IH]; intros c Hc; cbn [parseRoot]; [by intros [= <-]|].
  intros (c1 & H1 & H)%result_bind_Ok. apply (IH c1); [|done].
  destruct (named "nodes" e); [by eapply parseNodes_ok|].
  destruct (named "serviceDiscovery" e); [|by injection H1 as <-]. by apply (parseServiceDiscovery_ok (children e) c).
Qed.

Lemma parseNodes_services es c c' : parseNodes es c = Ok c' -> services c' = services c.
Proof.
  revert c. induction es as [|e es IH]; intros c; cbn [parseNodes]; [by intros [= <-]|].
  destruct (named "node" e); [|by apply IH]. intros (n & Hn & H)%result_bind_Ok. apply IH in H as ->. by destruct n.
Qed.

Lemma root_services es c c' :
  Forall (fun e => named "serviceDiscovery" e = false) es -> parseRoot es c = Ok c' -> services c' = services c.
Proof.
  intros H. revert c. induction H as [|e es He _ IH]; intros c; cbn [parseRoot]; [by intros [= <-]|].
  rewrite He. intros (c1 & H1 & ->%IH)%result_bind_Ok.
  destruct (named "nodes" e); [by apply parseNodes_services in H1|by injection H1 as <-].
Qed.

Lemma root_announced es c c' :
  Forall (fun e => named "nodes" e = false) es -> configuration_ok c -> announced c -> parseRoot es c = Ok c' ->
  announced c'.
Proof.
  intros H. revert c. induction H as [|e es He _ IH]; intros c Hc Ha; cbn [parseRoot]; [by intros [= <-]|].
  rewrite He. destruct (named "serviceDiscovery" e).
  - intros (c1 & H1 & Hr)%result_bind_Ok. destruct (parseServiceDiscovery_ok _ _ _ Hc H1) as [Hc1 Ha1].
    by apply (IH c1); [|apply Ha1|].
  - intros (c1 & [= <-] & Hr)%result_bind_Ok. by apply (IH c).
Qed.

Lemma empty_ok : configuration_ok (mkConfiguration ∅ ∅).
Proof. split; apply map_Forall_empty. Qed.

Lemma configuration_read doc c : read doc = Ok (Some c) -> configuration_ok c.
Proof.
  unfold read. destruct (doc ≫= _) as [root|]; [|done].
  intros (c1 & H & [= ->])%result_bind_Ok. by eapply parseRoot_ok; [apply empty_ok|].
Qed.

Definition runtime_root (doc : option (list XMLElement)) : option XMLElement :=
  doc ≫= fun es => head (filter (fun e => Is_true (named "runtime" e)) es).

Lemma read_announced doc c root ns ds :
  read doc = Ok (Some c) -> runtime_root doc = Some root -> children root = ns ++ ds ->
  Forall (fun e => named "serviceDiscovery" e = false) ns -> Forall (fun e => named "nodes" e = false) ds ->
  announced c.
Proof.
  unfold read. fold (runtime_root doc). intros Hread Hroot E Hns Hds. rewrite Hroot in Hread.
  apply result_bind_Ok in Hread as (c1 & H & [= ->]).
  rewrite E, parseRoot_app in H. apply result_bind_Ok in H as (c1 & H1 & H2).
  apply (root_announced ds c1); [done|by eapply parseRoot_ok; [apply empty_ok|]| |done].
  intros k s. rewrite (root_services _ _ _ Hns H1). cbn. by rewrite lookup_empty.
Qed.

(** C33: Whatever the document says, a configuration that is read has its nodes
    and services under their own numbers and names, no node is 0, no name is empty, no number is
    negative and every service belongs to a node that is known; where the nodes come before the
    services, every service of the network is one its node has. *)
Theorem configuration_sound doc c :
  read doc = Ok (Some c) ->
  configuration_ok c /\
  forall root ns ds, runtime_root doc = Some root -> children root = ns ++ ds ->
    Forall (fun e => named "serviceDiscovery" e = false) ns -> Forall (fun e => named "nodes" e = false) ds ->
    announced c.
Proof. intros H. split; [by eapply configuration_read|]. intros root ns ds. by apply read_announced. Qed.
End reader.

(** ** A network of two nodes *)

#[local] Instance example_values : XMLValues :=
  {| BoolValue := fun l => bool_decide (l = chars "true");
     IntValue := fun l => match Numbers.Integer_valueOf (Some (Some l)) with Ok z => z | _ => 0 end |}.
#[local] Instance example_numbers : XMLUnsigned := {| UnsignedValue := IntValue |}.

Definition el (n : string) (attributes : list (string * string)) (es : list XMLElement) : XMLElement :=
  mkElement (chars n) ((fun a => (chars (fst a), chars (snd a))) <$> attributes) es.

Definition example_nodes : list XMLElement :=
  [el "nodes" []
    [el "node" [("id", "1")] [el "plugin" [("scheme", "mindroid"); ("class", "mindroid::Mindroid")]
       [el "server" [("uri", "tcp://127.0.0.1:1234")] []]];
     el "node" [("id", "2")] []]].
Definition example_services : list XMLElement :=
  [el "serviceDiscovery" []
    [el "node" [("id", "1")] [el "service" [("id", "7"); ("name", "echo")]
       [el "announcement" [("interfaceDescriptor", "mindroid://interfaces/examples/IEcho")] []]];
     el "node" [("id", "3")] [el "service" [("id", "9"); ("name", "lost")] []]]].

Definition example_doc : option (list XMLElement) := Some [el "runtime" [] (example_nodes ++ example_services)].
Definition example : Configuration :=
  match read example_doc with Ok (Some c) => c | _ => mkConfiguration ∅ ∅ end.

Definition example_root : XMLElement := el "runtime" [] (example_nodes ++ example_services).

Lemma example_announced : announced example.
Proof.
  apply (read_announced example_doc example example_root example_nodes example_services);
    first [decided | vm_compute; reflexivity].
Qed.

Lemma configuration_sound_witness :
  (id <$> services example !! chars "echo") = Some 7 /\ services example !! chars "lost" = None /\
  configuration_ok example /\ announced example.
Proof.
  split; [vm_compute; reflexivity|]. split; [vm_compute; reflexivity|].
  destruct (configuration_sound example_doc example) as [H1 H2]; [vm_compute; reflexivity|]. split; [exact H1|].
  apply (H2 example_root example_nodes example_services eq_refl eq_refl); decided.
Defined.
End Configuration.
