(* ===== verification/Runtimes.v ===== *)
(** * runtime/system/Runtime.cpp, os/Binder.cpp: the binders of a node

    Every binder of a node has a number, 64 bits with the number of the node in the upper half, and
    once an interface is attached a URI, [scheme://node.id].  The runtime finds it by either, finds
    services by name, and makes proxies for the services of other nodes from the configuration.

    Binders are objects in a store.  The maps of the runtime hold weak pointers, [mServices] strong
    ones.  When the last strong pointer goes, a binder is [Dead]: weak pointers give [nullptr], and
    its destructor, which unregisters it, is a step of its own that other threads can get in front
    of.  Plugins are the application's: the class [Plugins] is what the runtime asks them. *)

From S2P Require Import Prelude Strings Numbers URIs Packages Configurations.
From stdpp Require Import gmap fin_maps fin_map_dom.
Open Scope Z_scope.

Import CString Str.
Import Configuration(characters).

(** Where a binder is in its life; [Gone] after its destructor. *)
Inductive life := Alive | Dead | Gone.
#[export] Instance life_eq_dec : EqDecision life.
Proof. solve_decision. Defined.

Module Runtime.

(* os/Binder.h:237-242 Binder *)
Record Binder := mkBinder {
  mId : Z;
  mUri : option URI.URI;
  mDescriptor : sp;
  status : life;
}.

(* os/Binder.h:289-293 Binder::Proxy *)
Record Proxy := mkProxy {
  mProxyId : Z;
  proxy_id : Z;
  proxy_descriptor : list Z;
  proxy_uri : URI.URI;
}.

(** [sp<IBinder>]: a binder of this node, or a proxy. *)
Inductive IBinder := Local (b : nat) | Remote (p : Proxy).

(** [getStub scheme binder] is what the plugin of the scheme makes for a binder. *)
Class Plugins := { getStub : list Z -> nat -> option nat }.

(* runtime/system/Runtime.h:121-131 Runtime *)
Record Runtime := mkRuntime {
  mNodeId : Z;
  mConfiguration : option Configuration.Configuration;
  mPlugins : gset (list Z);
  mBinderIds : gmap Z (option nat);
  mBinderUris : gmap (list Z) (option nat);
  mServices : gmap (list Z) nat;
  mNameResolutionCache : gmap (list Z) URI.URI;
  mBinderIdGenerator : Z;
  mProxyIdGenerator : Z;
  mIds : gset Z;
  binders : list Binder;
}.

Definition set_ids (ids : gset Z) (by_id : gmap Z (option nat)) (r : Runtime) : Runtime :=
  mkRuntime (mNodeId r) (mConfiguration r) (mPlugins r) by_id (mBinderUris r) (mServices r)
    (mNameResolutionCache r) (mBinderIdGenerator r) (mProxyIdGenerator r) ids (binders r).
Definition set_uris (f : gmap (list Z) (option nat) -> gmap (list Z) (option nat)) (r : Runtime) : Runtime :=
  mkRuntime (mNodeId r) (mConfiguration r) (mPlugins r) (mBinderIds r) (f (mBinderUris r)) (mServices r)
    (mNameResolutionCache r) (mBinderIdGenerator r) (mProxyIdGenerator r) (mIds r) (binders r).
Definition set_services (f : gmap (list Z) nat -> gmap (list Z) nat) (r : Runtime) : Runtime :=
  mkRuntime (mNodeId r) (mConfiguration r) (mPlugins r) (mBinderIds r) (mBinderUris r) (f (mServices r))
    (mNameResolutionCache r) (mBinderIdGenerator r) (mProxyIdGenerator r) (mIds r) (binders r).
Definition set_cache (k : list Z) (u : URI.URI) (r : Runtime) : Runtime :=
  mkRuntime (mNodeId r) (mConfiguration r) (mPlugins r) (mBinderIds r) (mBinderUris r) (mServices r)
    (<[k := u]> (mNameResolutionCache r)) (mBinderIdGenerator r) (mProxyIdGenerator r) (mIds r) (binders r).
Definition set_generators (b p : Z) (r : Runtime) : Runtime :=
  mkRuntime (mNodeId r) (mConfiguration r) (mPlugins r) (mBinderIds r) (mBinderUris r) (mServices r)
    (mNameResolutionCache r) b p (mIds r) (binders r).
Definition set_binders (f : list Binder -> list Binder) (r : Runtime) : Runtime :=
  mkRuntime (mNodeId r) (mConfiguration r) (mPlugins r) (mBinderIds r) (mBinderUris r) (mServices r)
    (mNameResolutionCache r) (mBinderIdGenerator r) (mProxyIdGenerator r) (mIds r) (f (binders r)).

Section runtime.
Context {plugins : Plugins}.

Definition lift {A} (x : result A) : M Runtime A := fun r => (x, r).

Definition binder (b : nat) : M Runtime Binder :=
  r ← get_state; match binders r !! b with Some o => mret o | None => undefined end.
Definition update (b : nat) (o : Binder) : M Runtime unit := modify (set_binders (<[b := o]>)).

(** The maps of weak pointers are made from the templates of [HashMap] whose [get] inserts the key
    it does not find, with a null pointer: an entry that [containsKey] sees from then on. *)
(* util/HashMap.h:70-77 HashMap::get *)
Definition get_id (id : Z) : M Runtime (option nat) :=
  r ← get_state;
  match mBinderIds r !! id with
  | Some b => mret b
  | None => put_state (set_ids (mIds r) (<[id := None]> (mBinderIds r)) r);; mret None
  end.

(* util/HashMap.h:497-504 HashMap::get *)
Definition get_uri (key : list Z) : M Runtime (option nat) :=
  r ← get_state;
  match mBinderUris r !! key with
  | Some b => mret b
  | None => put_state (set_uris (<[key := None]>) r);; mret None
  end.

(** A [wp] gives the object while it lives. *)
Definition promote (b : option nat) : M Runtime (option nat) :=
  match b with
  | None => mret None
  | Some b => o ← binder b; mret (if decide (status o = Alive) then Some b else None)
  end.

(** Text of a number, and of [node.id]. *)
Definition node_of (id : Z) : Z := u32 (Z.land (Z.shiftr id 32) 0xFFFFFFFF).
Definition low (id : Z) : Z := Z.land id 0xFFFFFFFF.
Definition global (node id : Z) : Z := Z.lor (Z.shiftl node 32) (low id).
Definition authority_text (id : Z) : list Z := decimal (node_of id) ++ chars "." ++ decimal (low id).

(* os/Binder.h:127-129 Binder::getId *)
Definition getId (o : Binder) : Z := low (mId o).

Definition MINDROID_SCHEME : list Z := chars "mindroid".

(** ** The numbers *)

(* runtime/system/Runtime.cpp:155-157 Runtime::attachBinder *)
Fixpoint next_id (fuel : nat) : M Runtime Z :=
  match fuel with
  | O => diverge
  | S fuel =>
      r ← get_state;
      let n := mBinderIdGenerator r in
      put_state (set_generators (i32 (n + 1)) (mProxyIdGenerator r) r);;
      let id := global (mNodeId r) n in
      if decide (id ∈ mIds r) then next_id fuel else mret id
  end.

(** The loop ends after as many numbers as are taken: see [attach_fresh]. *)
(* runtime/system/Runtime.cpp:149-165 Runtime::attachBinder *)
Definition attachBinder (b : nat) : M Runtime Z :=
  r ← get_state;
  id ← next_id (S (size (mIds r)));
  r ← get_state;
  (match mBinderIds r !! id with
   | None => put_state (set_ids ({[id]} ∪ mIds r) (<[id := Some b]> (mBinderIds r)) r)
   | Some _ => mret tt
   end);;
  mret id.

(** The plugin's [attachBinder] is not modelled. *)
(* runtime/system/Runtime.cpp:167-185 Runtime::attachBinder *)
Definition attachBinder_uri (uri : option URI.URI) (b : nat) : M Runtime unit :=
  match uri with
  | None => throw NullPointerException
  | Some uri =>
      o ← binder b;
      match mUri o with
      | None => throw IllegalArgumentException
      | Some _ =>
          k ← lift (characters (URI.mString uri));
          r ← get_state;
          match mBinderUris r !! k with
          | None => modify (set_uris (<[k := Some b]>))
          | Some _ => mret tt
          end
      end
  end.

(* runtime/system/Runtime.cpp:187-198 Runtime::detachBinder *)
Definition detachBinder (id : Z) (uri : option URI.URI) : M Runtime unit :=
  modify (fun r => set_ids (mIds r ∖ {[id]}) (delete id (mBinderIds r)) r);;
  match uri with
  | None => mret tt
  | Some uri => k ← lift (characters (URI.mString uri)); modify (set_uris (delete k))
  end.

(** [64-bit] arithmetic: the number of the node is put over what [id] has in its upper half. *)
(* runtime/system/Runtime.cpp:200-213 Runtime::getBinder *)
Definition getBinder (id : Z) : M Runtime (option nat) :=
  r ← get_state;
  let nodeId := node_of id in
  if (nodeId =? 0) || (mNodeId r =? nodeId)
  then b ← get_id (Z.lor (Z.shiftl (mNodeId r) 32) id); promote b
  else mret None.

(** ** Binders *)

(** The three constructors differ in the thread the binder works on. *)
(* os/Binder.cpp:35-41 Binder::Binder *)
Definition new_binder : M Runtime nat :=
  r ← get_state;
  let b := List.length (binders r) in
  put_state (set_binders (fun l => l ++ [mkBinder 0 None None Alive]) r);;
  id ← attachBinder b;
  update b (mkBinder id None None Alive);;
  mret b.

(** The copy has the number of the original, but no entry of its own. *)
(* os/Binder.cpp:59-67 Binder::Binder *)
Definition copy_binder (b : nat) : M Runtime nat :=
  o ← binder b;
  r ← get_state;
  put_state (set_binders (fun l => l ++ [mkBinder (mId o) None None Alive]) r);;
  mret (List.length (binders r)).

(** The last strong pointer is dropped. *)
Definition release (b : nat) : M Runtime unit :=
  o ← binder b;
  if decide (status o = Alive) then update b (mkBinder (mId o) (mUri o) (mDescriptor o) Dead) else undefined.

(* os/Binder.cpp:69-71 Binder::~Binder *)
Definition destroy (b : nat) : M Runtime unit :=
  o ← binder b;
  if decide (status o = Dead) then
    detachBinder (mId o) (mUri o);;
    update b (mkBinder (mId o) (mUri o) (mDescriptor o) Gone)
  else undefined.

(** What the [try] block makes: the URI of the interface, or that there is none. *)
(* os/Binder.cpp:79-85 Binder::attachInterface *)
Definition interface_uri (id : Z) (descriptor : sp) : result URI.URI :=
  uri ← URI.of_spec descriptor;
  match URI.mScheme uri with
  | None => Throw URISyntaxException
  | Some s => URI.of_parts (Some s) (Some (Some (authority_text id))) None None None
  end.

(** [mUri] is assigned before the runtime is told. *)
(* os/Binder.cpp:73-91 Binder::attachInterface *)
Definition attachInterface (b : nat) (descriptor : sp) : M Runtime unit :=
  o ← binder b;
  update b (mkBinder (mId o) (mUri o) descriptor (status o));;
  match interface_uri (mId o) descriptor with
  | Ok u =>
      update b (mkBinder (mId o) (Some u) descriptor (status o));;
      attachBinder_uri (Some u) b
  | Throw URISyntaxException => mret tt
  | x => lift (x ≫= fun _ => Ok tt)
  end.

(* os/Binder.cpp:191-194 Binder::setId *)
Definition setId (b : nat) (id : Z) : M Runtime unit :=
  o ← binder b;
  update b (mkBinder id (mUri o) (mDescriptor o) (status o));;
  u ← lift (deref (mUri o));
  s ← lift (characters (URI.mScheme u));
  u ← lift (URI.create (Some (Some (s ++ chars "://" ++ authority_text id))));
  update b (mkBinder id (Some u) (mDescriptor o) (status o)).

(** ** Services *)

Definition configured (r : Runtime) (authority : list Z) : option Configuration.Service :=
  c ← mConfiguration r;
  n ← Configuration.nodes c !! mNodeId r;
  Configuration.node_services n !! authority.

(** A service of the configuration gets the number it has there. *)
(* runtime/system/Runtime.cpp:289-297 Runtime::addService *)
Definition renumber (b : nat) (s : Configuration.Service) : M Runtime unit :=
  o ← binder b;
  r ← get_state;
  let oldId := global (mNodeId r) (getId o) in
  let newId := global (mNodeId r) (Configuration.id s) in
  modify (fun r => set_ids (mIds r ∖ {[oldId]}) (delete oldId (mBinderIds r)) r);;
  u ← lift (deref (mUri o));
  k ← lift (characters (URI.mString u));
  modify (set_uris (delete k));;
  setId b newId;;
  modify (fun r => set_ids ({[newId]} ∪ mIds r) (<[newId := Some b]> (mBinderIds r)) r);;
  o ← binder b;
  u ← lift (deref (mUri o));
  k ← lift (characters (URI.mString u));
  modify (set_uris (<[k := Some b]>)).

(** [service] is an object of class [Binder]: proxies throw [IllegalArgumentException]. *)
(* runtime/system/Runtime.cpp:271-306 Runtime::addService *)
Definition addService (uri : option URI.URI) (service : option nat) : M Runtime unit :=
  match uri, service with
  | Some uri, Some b =>
      o ← binder b;
      match mUri o with
      | None => throw IllegalArgumentException
      | Some u =>
          same ← lift (match URI.mScheme uri with
                       | None => Ok false
                       | Some s => equals s (URI.mScheme u)
                       end);
          throw_if (negb same) IllegalArgumentException;;
          k ← lift (characters (URI.mString uri));
          r ← get_state;
          match mServices r !! k with
          | Some _ => mret tt
          | None =>
              (match mConfiguration r with
               | None => mret tt
               | Some c =>
                   match Configuration.nodes c !! mNodeId r with
                   | None => mret tt
                   | Some n =>
                       a ← lift (characters (URI.mAuthority uri));
                       match Configuration.node_services n !! a with
                       | Some s => renumber b s
                       | None => mret tt
                       end
                   end
               end);;
              modify (set_services (<[k := b]>))
          end
      end
  | _, _ => throw NullPointerException
  end.

Definition low_id (r : Runtime) (b : nat) : option Z := getId <$> binders r !! b.

(* runtime/system/Runtime.cpp:308-319 Runtime::removeService *)
Definition removeService (service : option nat) : M Runtime unit :=
  match service with
  | None => mret tt
  | Some b => modify (fun r => set_services (filter (fun kv => low_id r (snd kv) <> low_id r b)) r)
  end.

(** ** Proxies *)

Definition part (l : list sp) (i : nat) : result Z := s ← deref (l !! i); Numbers.Integer_valueOf s.

(** [%u.%u] of the authority, as one number. *)
(* os/Binder.cpp:207-217 Proxy::Proxy *)
Definition parse_id (uri : URI.URI) : result Z :=
  a ← deref (URI.mAuthority uri);
  parts ← split_chars a (URI.lit ".");
  if decide (List.length parts = 2%nat) then
    match n ← part parts 0; i ← part parts 1; Ok (Z.lor (u64 (Z.shiftl n 32)) (low (u64 i))) with
    | Throw NumberFormatException => Throw IllegalArgumentException
    | x => x
    end
  else Throw IllegalArgumentException.

(** The value of the first pair with the key [if]. *)
(* os/Binder.cpp:221-236 Proxy::Proxy *)
Fixpoint find_interface (ps : list sp) : result (option (list Z)) :=
  match ps with
  | [] => Ok None
  | kv :: ps =>
      kv ← deref kv;
      j ← indexOf_chars kv (URI.lit "=");
      if 0 <=? j then
        k ← substring kv 0 j; k ← deref k; key ← trim k;
        v ← substring_from kv (j + 1); v ← deref v; value ← trim v;
        b ← equals_chars key (URI.lit "if");
        if b : bool then value ← characters (Some value); Ok (Some value)
        else find_interface ps
      else find_interface ps
  end.

(* os/Binder.cpp:218-240 Proxy::Proxy *)
Definition parse_descriptor (uri : URI.URI) : result (list Z) :=
  value ← (match URI.mPath uri with
           | None => Ok None
           | Some path =>
               if isEmpty path then Ok None
               else p ← substring_from path 1; p ← deref p;
                    pairs ← split_chars p (URI.lit ",");
                    find_interface pairs
           end);
  match value with
  | None => Throw IllegalArgumentException
  | Some value =>
      s ← characters (URI.mScheme uri);
      match URI.mQuery uri with
      | None => Ok (s ++ chars "://interfaces/" ++ value)
      | Some q => q ← characters (Some q); Ok (s ++ chars "://interfaces/" ++ value ++ chars "?" ++ q)
      end
  end.

(* os/Binder.cpp:202-242 Proxy::Proxy *)
Definition new_proxy (uri : option URI.URI) : result Proxy :=
  match uri with
  | None => Throw IllegalArgumentException
  | Some uri =>
      id ← parse_id uri;
      d ← parse_descriptor uri;
      s ← characters (URI.mScheme uri);
      a ← characters (URI.mAuthority uri);
      u ← URI.create (Some (Some (s ++ chars "://" ++ a)));
      Ok (mkProxy 0 id d u)
  end.

(** The plugin's [attachProxy] is not modelled. *)
(* runtime/system/Runtime.cpp:363-377 Runtime::attachProxy *)
Definition attachProxy : M Runtime Z :=
  r ← get_state;
  put_state (set_generators (mBinderIdGenerator r) (i32 (mProxyIdGenerator r + 1)) r);;
  mret (u64 (mProxyIdGenerator r)).

(* os/Binder.cpp:196-200 Proxy::create *)
Definition create_proxy (uri : option URI.URI) : M Runtime Proxy :=
  p ← lift (new_proxy uri);
  i ← attachProxy;
  mret (mkProxy i (proxy_id p) (proxy_descriptor p) (proxy_uri p)).

(** [catch (const Exception& e) { return nullptr; }] *)
Definition or_null {A} (m : M Runtime (option A)) : M Runtime (option A) := fun r =>
  match m r with
  | (Throw StdOutOfRange, r') => (Throw StdOutOfRange, r')
  | (Throw _, r') => (Ok None, r')
  | x => x
  end.

(** The URI of a service of another node: [scheme://node.id/if=interface?query]. *)
(* runtime/system/Runtime.cpp:529-530 Runtime::getProxy *)
Definition service_uri (uri : URI.URI) (s : Configuration.Service) : result URI.URI :=
  k ← characters (URI.mScheme uri);
  interfaceDescriptor ← URI.of_spec (Some <$> Configuration.announcements s !! k);
  path ← deref (URI.mPath interfaceDescriptor);
  path ← substring_from path 1;
  path ← characters path;
  URI.of_parts (URI.mScheme uri)
    (Some (Some (decimal (Configuration.node s) ++ chars "." ++ decimal (Configuration.id s))))
    (Some (Some (chars "/if=" ++ path))) (URI.mQuery interfaceDescriptor) None.

(* runtime/system/Runtime.cpp:513-540 Runtime::getProxy *)
Definition getProxy (uri : URI.URI) : M Runtime (option Proxy) :=
  key ← lift (characters (URI.mString uri));
  r ← get_state;
  match mNameResolutionCache r !! key with
  | Some proxyUri => p ← create_proxy (Some proxyUri); mret (Some p)
  | None =>
      match mConfiguration r with
      | None => mret None
      | Some c =>
          a ← lift (characters (URI.mAuthority uri));
          match Configuration.services c !! a with
          | None => mret None
          | Some service =>
              or_null (
                proxyUri ← lift (service_uri uri service);
                p ← create_proxy (Some proxyUri);
                modify (set_cache key proxyUri);;
                mret (Some p))
          end
      end
  end.

(** ** Finding binders and services *)

(** The stub a plugin makes for a binder, kept in one of the tables. *)
Definition stub (scheme : list Z) (b : nat) (keep : nat -> M Runtime unit) : M Runtime (option nat) :=
  r ← get_state;
  if decide (scheme ∈ mPlugins r) then
    match getStub scheme b with
    | Some x => keep x;; mret (Some x)
    | None => mret None
    end
  else mret None.

(* runtime/system/Runtime.cpp:231-262 Runtime::getBinder *)
Definition find_binder (scheme authority : list Z) : M Runtime (option nat) :=
  let key := scheme ++ chars "://" ++ authority in
  b ← get_uri key;
  b ← promote b;
  match b with
  | Some b => mret (Some b)
  | None =>
      modify (set_uris (delete key));;
      if decide (scheme = MINDROID_SCHEME) then mret None
      else
        b ← get_uri (MINDROID_SCHEME ++ chars "://" ++ authority);
        b ← promote b;
        match b with
        | Some b => stub scheme b (fun x => modify (set_uris (<[key := Some x]>)))
        | None => mret None
        end
  end.

(** The number of the node in the authority. *)
(* runtime/system/Runtime.cpp:218-229 Runtime::getBinder *)
Definition parse_node (uri : URI.URI) : result Z :=
  a ← deref (URI.mAuthority uri);
  parts ← split_chars a (URI.lit ".");
  if decide (List.length parts = 2%nat) then
    match part parts 0 with
    | Ok n => Ok (u32 n)
    | Throw NumberFormatException => Throw IllegalArgumentException
    | x => x
    end
  else Throw IllegalArgumentException.

(* runtime/system/Runtime.cpp:215-269 Runtime::getBinder *)
Definition getBinder_uri (uri : option URI.URI) : M Runtime (option IBinder) :=
  match uri with
  | None => mret None
  | Some uri =>
      nodeId ← lift (parse_node uri);
      r ← get_state;
      if mNodeId r =? nodeId then
        s ← lift (characters (URI.mScheme uri));
        a ← lift (characters (URI.mAuthority uri));
        b ← find_binder s a;
        mret (Local <$> b)
      else p ← create_proxy (Some uri); mret (Some (Remote p))
  end.

(* runtime/system/Runtime.cpp:327-337 Runtime::getService *)
Definition with_scheme (uri : URI.URI) : result URI.URI :=
  match URI.mScheme uri with
  | Some _ => Ok uri
  | None => URI.of_components (Some (Some MINDROID_SCHEME)) (URI.mUserInfo uri) (URI.mHost uri) (URI.mPort uri)
              (URI.mPath uri) (URI.mQuery uri) (URI.mFragment uri)
  end.

(* runtime/system/Runtime.cpp:321-361 Runtime::getService *)
Definition getService (uri : option URI.URI) : M Runtime (option IBinder) :=
  match uri with
  | None => throw NullPointerException
  | Some uri =>
      serviceUri ← lift (with_scheme uri);
      k ← lift (characters (URI.mString serviceUri));
      r ← get_state;
      match mServices r !! k with
      | Some b => mret (Some (Local b))
      | None =>
          a ← lift (characters (URI.mAuthority serviceUri));
          match mServices r !! (MINDROID_SCHEME ++ chars "://" ++ a) with
          | Some b =>
              s ← lift (characters (URI.mScheme serviceUri));
              x ← stub s b (fun x => modify (set_services (<[k := x]>)));
              mret (Local <$> x)
          | None => p ← getProxy serviceUri; mret (Remote <$> p)
          end
      end
  end.

(** ** The start *)

(** The numbers of the services of this node are reserved. *)
(* runtime/system/Runtime.cpp:74-86 Runtime::Runtime *)
Definition reserved (nodeId : Z) (c : Configuration.Configuration) : gset Z :=
  list_to_set ((fun kv => global nodeId (Configuration.id (snd kv))) <$>
    filter (fun kv => Configuration.node (snd kv) = nodeId) (map_to_list (Configuration.services c))).

(** Plugins whose classes exist: [has_class]. *)
(* runtime/system/Runtime.cpp:61-72 Runtime::Runtime *)
Definition loaded (has_class : list Z -> bool) (n : Configuration.Node) : gset (list Z) :=
  dom (filter (fun kv => Is_true (has_class (Configuration.clazz (snd kv)))) (Configuration.plugins n)).

(** [configuration]: what the reader made of the file, if it is given and can be read. *)
(* runtime/system/Runtime.cpp:38-88 Runtime::Runtime *)
Definition new_runtime (has_class : list Z -> bool) (nodeId : Z) (configuration : option Configuration.Configuration) :
    result Runtime :=
  if nodeId =? 0 then Throw IllegalArgumentException
  else
    let r := mkRuntime nodeId configuration ∅ ∅ ∅ ∅ ∅ 1 1 ∅ [] in
    match configuration with
    | None => Ok r
    | Some c =>
        match Configuration.nodes c !! nodeId with
        | None => Ok r
        | Some n => Ok (mkRuntime nodeId configuration (loaded has_class n) ∅ ∅ ∅ ∅ 1 1 (reserved nodeId c) [])
        end
    end.

(** ** Identity *)

(** [i]: the number of [other], if it is an [IBinder]. *)
(* os/Binder.cpp:170-179 Binder::equals *)
Definition equals_binder (o : Binder) (same : bool) (other : option (option Z)) : bool :=
  match other with
  | None => false
  | Some i => same || match i with Some i => getId o =? i | None => false end
  end.

(** Little-endian bytes. *)
(* os/Binder.cpp:181-189 Binder::hashCode *)
Definition hashCode (o : Binder) : Z :=
  foldl (fun hash i => u64 (31 * hash + Z.shiftr (getId o) (8 * i) mod 2 ^ 8)) 0 [0; 1; 2; 3; 4; 5; 6; 7].
(** ** Numbers and texts *)

Lemma low_spec i : low i = i mod 2 ^ 32.
Proof. unfold low. change 0xFFFFFFFF with (Z.ones 32). by apply Z.land_ones. Qed.

Lemma low_range i : 0 <= low i < 2 ^ 32.
Proof. rewrite low_spec. apply Z.mod_pos_bound. lia. Qed.

Lemma low_id_small i : 0 <= i < 2 ^ 32 -> low i = i.
Proof. intros H. rewrite low_spec. by apply Z.mod_small. Qed.

(** The halves do not overlap. *)
Lemma over_low n i : 0 <= i < 2 ^ 32 -> Z.lor (Z.shiftl n 32) i = n * 2 ^ 32 + i.
Proof.
  intros Hi. rewrite Z.shiftl_mul_pow2 by lia. assert (Z.land (n * 2 ^ 32) i = 0) as E; [|by rewrite Z.add_nocarry_lxor, Z.lxor_lor by done].
  apply Z.bits_inj'. intros k Hk.
  rewrite Z.land_spec, Z.bits_0. destruct (Z.ltb_spec k 32).
  - by rewrite Z.mul_pow2_bits_low by lia.
  - rewrite (Z.bits_above_log2 i k), andb_false_r; [done|lia|].
    destruct (decide (i = 0)) as [->|]; [cbn; lia|]. assert (Z.log2 i < 32); [apply Z.log2_lt_pow2; lia|lia].
Qed.

Lemma global_eq n i : global n i = n * 2 ^ 32 + i mod 2 ^ 32.
Proof. unfold global. rewrite over_low by apply low_range. by rewrite low_spec. Qed.

Lemma node_of_div id : 0 <= id < 2 ^ 64 -> node_of id = id / 2 ^ 32.
Proof.
  intros H. unfold node_of. change (Z.land ?x 0xFFFFFFFF) with (low x).
  rewrite Z.shiftr_div_pow2, low_spec by lia. assert (0 <= id / 2 ^ 32 < 2 ^ 32).
  { split; [apply Z.div_pos; lia|apply Z.div_lt_upper_bound; lia]. }
  rewrite Z.mod_small by lia. by apply u32_id.
Qed.

Lemma global_range n i : 0 <= n < 2 ^ 32 -> 0 <= global n i < 2 ^ 64.
Proof. intros Hn. rewrite global_eq. pose proof (Z.mod_pos_bound i (2 ^ 32)). lia. Qed.

Lemma node_of_global n i : 0 <= n < 2 ^ 32 -> node_of (global n i) = n.
Proof.
  intros Hn. rewrite node_of_div by by apply global_range. rewrite global_eq.
  pose proof (Z.mod_pos_bound i (2 ^ 32)). rewrite Z.div_add_l, Z.div_small by lia. lia.
Qed.

Lemma low_global n i : low (global n i) = low i.
Proof. rewrite !low_spec, global_eq, Z.add_comm, Z.mod_add, Z.mod_mod by lia. done. Qed.

Lemma global_low n i : global n (low i) = global n i.
Proof. unfold global. f_equal. by rewrite !low_spec, Z.mod_mod. Qed.

Lemma global_halves n id : 0 <= id < 2 ^ 64 -> node_of id = n -> global n (low id) = id.
Proof.
  intros H <-. rewrite node_of_div, global_low, global_eq by done. pose proof (Z.div_mod id (2 ^ 32)). lia.
Qed.

Lemma global_inj n i j : global n i = global n j -> low i = low j.
Proof. intros E%(f_equal low). by rewrite !low_global in E. Qed.

Lemma node_of_range id : 0 <= node_of id < 2 ^ 32.
Proof. apply u32_range. Qed.

Definition dotted (n i : Z) : list Z := decimal n ++ chars "." ++ decimal i.

Lemma authority_dotted id : authority_text id = dotted (node_of id) (low id).
Proof. done. Qed.

Section dotted.
Context (n i : Z) (Hn : 0 <= n < 2 ^ 32) (Hi : 0 <= i < 2 ^ 32).

Lemma dotted_chars c : c ∈ dotted n i -> Numbers.is_digit c \/ c = 46.
Proof.
  unfold dotted. rewrite !elem_of_app. intros [H|[H|H]].
  - left. destruct (Numbers.decimal_digits n) as [Hd _]; [lia|]. by eapply Forall_forall in Hd.
  - right. by apply list_elem_of_singleton in H.
  - left. destruct (Numbers.decimal_digits i) as [Hd _]; [lia|]. by eapply Forall_forall in Hd.
Qed.

Lemma dotted_free c : c < 46 \/ c = 47 \/ 57 < c -> c ∉ dotted n i.
Proof. intros Hc H%dotted_chars. unfold Numbers.is_digit in H. lia. Qed.

Lemma dotted_clean : clean (dotted n i).
Proof. apply dotted_free. lia. Qed.

Lemma dotted_ascii : ascii (dotted n i).
Proof. apply Forall_forall. intros c H%dotted_chars. unfold Numbers.is_digit in H. lia. Qed.

Lemma dotted_avoids set :
  Forall (fun c => c < 46 \/ c = 47 \/ 57 < c) (chars set) -> URI.avoids set (dotted n i).
Proof. intros H. apply Forall_forall. intros c Hc Hs. eapply Forall_forall in H; [|done]. by apply dotted_free in Hc. Qed.

Lemma dotted_length : Z.of_nat (List.length (dotted n i)) <= 41.
Proof.
  unfold dotted. rewrite !length_app. pose proof (Numbers.decimal_length n ltac:(lia)). pose proof (Numbers.decimal_length i ltac:(lia)).
  change (List.length (chars ".")) with 1%nat. lia.
Qed.

Lemma dotted_nonempty : dotted n i <> [].
Proof. unfold dotted. by destruct (decimal n). Qed.

(** Split at the dot, and read back. *)
Lemma dotted_split : split_chars (Some (dotted n i)) (URI.lit ".") = Ok [Some (Some (decimal n)); Some (Some (decimal i))].
Proof.
  apply (split_two 46).
  - done.
  - apply dotted_clean.
  - pose proof dotted_length as H. change (Z.of_nat (List.length (dotted n i)) < 2 ^ 63). lia.
  - apply Numbers.decimal_avoids; lia.
  - apply Numbers.decimal_avoids; lia.
  - destruct (Numbers.decimal_digits i) as (_ & H & _); [lia|done].
Qed.

Lemma valueOf_decimal k : 0 <= k < 2 ^ 32 -> Numbers.Integer_valueOf (Some (Some (decimal k))) = Ok (i32 k).
Proof.
  intros Hk. unfold Numbers.Integer_valueOf, Numbers.Integer_valueOf_radix.
  rewrite Numbers.parse_printed by lia. unfold Numbers.clamp. by rewrite Z.min_l, Z.max_r by lia.
Qed.
End dotted.

Lemma dotted_inj n i n' i' :
  0 <= n < 2 ^ 32 -> 0 <= i < 2 ^ 32 -> 0 <= n' < 2 ^ 32 -> 0 <= i' < 2 ^ 32 ->
  dotted n i = dotted n' i' -> n = n' /\ i = i'.
Proof.
  intros Hn Hi Hn' Hi' E. unfold dotted in E. apply (first_unique 46) in E as [E1 E2]; [|apply Numbers.decimal_avoids; lia..].
  apply Numbers.decimal_inj in E1; [|lia..]. by apply Numbers.decimal_inj in E2; [|lia..].
Qed.

Lemma i32_mod z : i32 z mod 2 ^ 32 = z mod 2 ^ 32.
Proof. apply (signed_mod 32 z). lia. Qed.

Lemma u32_i32 k : 0 <= k < 2 ^ 32 -> u32 (i32 k) = k.
Proof.
  intros Hk. unfold u32. rewrite i32_mod. by apply Z.mod_small.
Qed.

Lemma shifted_i32 k : 0 <= k < 2 ^ 32 -> u64 (Z.shiftl (i32 k) 32) = k * 2 ^ 32.
Proof.
  intros Hk. rewrite Z.shiftl_mul_pow2 by lia. unfold u64. change (2 ^ 64) with (2 ^ 32 * 2 ^ 32).
  rewrite Z.mul_mod_distr_r by lia. f_equal. by apply u32_i32.
Qed.

Lemma low_i32 k : 0 <= k < 2 ^ 32 -> low (u64 (i32 k)) = k.
Proof.
  intros Hk. rewrite low_spec. unfold u64. rewrite <- Znumtheory.Zmod_div_mod; [by apply u32_i32|lia|lia|].
  by exists (2 ^ 32).
Qed.

(** ** The URI of a binder *)

Definition scheme_ok (s : list Z) : Prop := URI.avoids ":/?#" s /\ clean s /\ Z.of_nat (List.length s) < 2 ^ 62.
Definition prefix_text (s : list Z) : list Z := s ++ chars "://".
Definition binder_text (s : list Z) (id : Z) : list Z := s ++ chars "://" ++ authority_text id.

#[export] Instance scheme_ok_dec s : Decision (scheme_ok s).
Proof. unfold scheme_ok. apply _. Defined.

Record binder_uri (s : list Z) (id : Z) (u : URI.URI) : Prop := {
  uri_string : URI.mString u = Some (Some (binder_text s id));
  uri_scheme : URI.mScheme u = Some (Some s);
  uri_authority : URI.mAuthority u = Some (Some (authority_text id));
}.

Lemma characters_clean l : clean l -> characters (Some (Some l)) = Ok l.
Proof. intros H. unfold characters. cbn. by apply cstring_clean. Qed.

Section uri.
Context (s : list Z) (id : Z) (Hs : scheme_ok s) (Hid : 0 <= id < 2 ^ 64).

Let Hn : 0 <= node_of id < 2 ^ 32 := node_of_range id.
Let Hi : 0 <= low id < 2 ^ 32 := low_range id.

Lemma binder_text_clean : clean (binder_text s id).
Proof.
  unfold binder_text. rewrite !clean_app. destruct Hs as (_ & ? & _). split; [done|].
  split; [decided|by apply dotted_clean].
Qed.

Lemma binder_uri_parts :
  exists u, URI.of_parts (Some (Some s)) (Some (Some (authority_text id))) None None None = Ok u /\
    URI.create (Some (Some (binder_text s id))) = Ok u /\ binder_uri s id u /\ URI.mPath u = Some (Some []).
Proof.
  destruct Hs as (Ha & Hc & Hl).
  assert (URI.text (Some s) (Some (authority_text id)) [] None None = binder_text s id) as Et.
  { unfold URI.text, URI.specific_text, URI.tail_text, binder_text. cbn [URI.opt].
    rewrite !app_nil_r, <- !app_assoc. done. }
  destruct (URI.of_parts_ok (Some s) (Some (authority_text id)) [] None None) as (u & E1 & E2 & E3 & E4 & E5 & E6 & _).
  - split; [done| |by split; [constructor|left]|done|by left|done|by rewrite Et; unfold binder_text; destruct s].
    split; [by apply dotted_nonempty|apply dotted_avoids; [done|done|decided]].
  - split; [done|]. split; [by apply dotted_clean|]. split; [apply clean_nil|done].
  - by apply dotted_ascii.
  - rewrite Et. unfold binder_text. rewrite !length_app. pose proof (dotted_length _ _ Hn Hi) as H.
    rewrite authority_dotted. change (List.length (chars "://")) with 3%nat. lia.
  - rewrite Et in *. exists u. split; [|split; [|split; [by split|exact E6]]].
    + by rewrite URI.of_parts_no_path.
    + unfold URI.create. unfold URI.some_string in E2. by rewrite E2.
Qed.

Lemma binder_uri_made :
  exists u, URI.of_parts (Some (Some s)) (Some (Some (authority_text id))) None None None = Ok u /\
    URI.create (Some (Some (binder_text s id))) = Ok u /\ binder_uri s id u.
Proof. destruct binder_uri_parts as (u & ? & ? & ? & _). by exists u. Qed.

Lemma authority_split :
  split_chars (Some (authority_text id)) (URI.lit ".") =
  Ok [Some (Some (decimal (node_of id))); Some (Some (decimal (low id)))].
Proof. by apply dotted_split. Qed.

Lemma binder_uri_key u : binder_uri s id u -> characters (URI.mString u) = Ok (binder_text s id).
Proof. intros []. rewrite uri_string0. apply characters_clean, binder_text_clean. Qed.

(** The number of the node and the whole number in the authority. *)
Lemma parse_node_ok u : URI.mAuthority u = Some (Some (authority_text id)) -> parse_node u = Ok (node_of id).
Proof.
  intros E. unfold parse_node. rewrite E. cbn [deref mbind result_bind]. rewrite authority_split.
  cbn [mbind result_bind]. rewrite decide_True by done. unfold part. cbn [lookup list_lookup deref mbind result_bind].
  rewrite valueOf_decimal by done. f_equal. by apply u32_i32.
Qed.

Lemma parse_id_ok u : URI.mAuthority u = Some (Some (authority_text id)) -> parse_id u = Ok id.
Proof.
  intros E. unfold parse_id. rewrite E. cbn [deref mbind result_bind]. rewrite authority_split.
  cbn [mbind result_bind]. rewrite decide_True by done. unfold part. cbn [lookup list_lookup deref mbind result_bind].
  rewrite !valueOf_decimal by done. cbn [mbind result_bind]. rewrite low_i32, shifted_i32 by done.
  f_equal. etransitivity; [|by apply (global_halves (node_of id) id)]. unfold global.
  by rewrite (low_id_small (low id)), Z.shiftl_mul_pow2 by done.
Qed.
End uri.

Lemma binder_text_inj s id s' id' :
  scheme_ok s -> scheme_ok s' -> 0 <= id < 2 ^ 64 -> 0 <= id' < 2 ^ 64 ->
  binder_text s id = binder_text s' id' -> s = s' /\ id = id'.
Proof.
  intros (Hs & _) (Hs' & _) Hid Hid' E. unfold binder_text in E.
  apply (first_unique 58) in E as [-> E]; [|by eapply URI.avoids_spec; [done|decided]..]. split; [done|].
  injection E as E. rewrite !authority_dotted in E.
  apply dotted_inj in E as [En Ei]; [|apply node_of_range || apply low_range..].
  rewrite <- (global_halves (node_of id) id), <- (global_halves (node_of id') id') by done. by rewrite En, Ei.
Qed.

(** A binder gets the scheme of the interface's descriptor. *)
Lemma interface_uri_ok id l u :
  0 <= id < 2 ^ 64 -> clean l -> Z.of_nat (List.length l) < 2 ^ 62 -> interface_uri id (Some (Some l)) = Ok u ->
  exists s, scheme_ok s /\ binder_uri s id u.
Proof.
  intros Hid Hl H62. unfold interface_uri. intros (d & Hd & H)%result_bind_Ok.
  destruct (URI.mScheme d) as [s|] eqn:Es; [|done].
  destruct (URI.parse_scheme l false d s) as (a & rest & -> & -> & Ha); [done|lia|done|done|].
  apply clean_app in Hl as [Hca _]. rewrite length_app in H62.
  assert (scheme_ok a) as Hok by (split; [done|split; [done|lia]]).
  destruct (binder_uri_made a id Hok) as (u' & E & _ & Hu). pose proof (eq_trans (eq_sym E) H) as [= <-]. by exists a.
Qed.

(** ** The next number *)

Definition id_at (r : Runtime) (k : nat) : Z := global (mNodeId r) (mBinderIdGenerator r + Z.of_nat k).

Lemma low_i32_step z k : low (i32 (z + 1) + k) = low (z + (k + 1)).
Proof.
  rewrite !low_spec, <- Zplus_mod_idemp_l, i32_mod. rewrite Zplus_mod_idemp_l. f_equal. lia.
Qed.

Lemma id_at_next r k : id_at (set_generators (i32 (mBinderIdGenerator r + 1)) (mProxyIdGenerator r) r) k = id_at r (S k).
Proof.
  unfold id_at. cbn. rewrite <- global_low, low_i32_step, global_low. do 2 f_equal. lia.
Qed.

Lemma id_at_inj r j k : Z.of_nat j < 2 ^ 32 -> Z.of_nat k < 2 ^ 32 -> id_at r j = id_at r k -> j = k.
Proof.
  intros Hj Hk E%global_inj. rewrite !low_spec in E. set (g := mBinderIdGenerator r) in E.
  assert (Z.of_nat j mod 2 ^ 32 = Z.of_nat k mod 2 ^ 32) as E'.
  { replace (Z.of_nat j) with (g + Z.of_nat j - g) by lia. replace (Z.of_nat k) with (g + Z.of_nat k - g) by lia.
    rewrite <- Zminus_mod_idemp_l, E, Zminus_mod_idemp_l. done. }
  rewrite !Z.mod_small in E' by lia. lia.
Qed.

(** The loop finds the first number that is not taken, if its fuel reaches that far. *)
Lemma next_id_spec fuel r :
  (exists k g, (k < fuel)%nat /\ (forall j, (j < k)%nat -> id_at r j ∈ mIds r) /\ id_at r k ∉ mIds r /\
    next_id fuel r = (Ok (id_at r k), set_generators g (mProxyIdGenerator r) r)) \/
  (forall j, (j < fuel)%nat -> id_at r j ∈ mIds r) /\ outcome (next_id fuel) r = Diverge.
Proof.
  revert r. induction fuel as [|fuel IH]; intros r.
  { right. split; [lia|done]. }
  cbn [next_id]. set (r' := set_generators (i32 (mBinderIdGenerator r + 1)) (mProxyIdGenerator r) r).
  assert (forall k, id_at r' k = id_at r (S k)) as Hat by apply id_at_next.
  change (global (mNodeId r) (mBinderIdGenerator r)) with (global (mNodeId r) (mBinderIdGenerator r)).
  assert (id_at r 0 = global (mNodeId r) (mBinderIdGenerator r)) as E0.
  { unfold id_at. f_equal. lia. }
  unfold outcome, get_state, put_state. unfold mbind, M_bind. fold r'. rewrite <- E0.
  destruct (decide (id_at r 0 ∈ mIds r)) as [Hin|Hout].
  - destruct (IH r') as [(k & g & Hk & Hlow & Hfree & E)|[Hall E]].
    + left. exists (S k), g. rewrite <- Hat. split; [lia|]. split; [|split; [done|]].
      * intros [|j] Hj; [done|]. rewrite <- Hat. apply Hlow. lia.
      * rewrite E. done.
    + right. split; [|done]. intros [|j] Hj; [done|]. rewrite <- Hat. apply Hall. lia.
  - left. exists 0%nat, (i32 (mBinderIdGenerator r + 1)). split; [lia|]. split; [lia|]. by split.
Qed.

(** [n + 1] different numbers do not fit in a set of [n]. *)
Lemma too_many r n :
  Z.of_nat n < 2 ^ 32 -> (forall j, (j < S n)%nat -> id_at r j ∈ mIds r) -> (S n <= size (mIds r))%nat.
Proof.
  intros Hn H. assert (list_to_set (id_at r <$> seq 0 (S n)) ⊆ mIds r) as Hsub%subseteq_size.
  { intros x. rewrite elem_of_list_to_set, list_elem_of_fmap. intros (j & -> & Hj%elem_of_seq). apply H. lia. }
  rewrite size_list_to_set in Hsub.
  - by rewrite length_fmap, length_seq in Hsub.
  - apply NoDup_fmap_2_strong; [|apply NoDup_seq]. intros j k Hj%elem_of_seq Hk%elem_of_seq.
    apply id_at_inj; lia.
Qed.

Definition room (r : Runtime) : Prop := Z.of_nat (size (mIds r)) < 2 ^ 32.

Lemma bind_get_state {S A} (f : S -> M S A) s : (get_state ≫= f) s = f s s.
Proof. done. Qed.

Lemma binder_ok b o r : binders r !! b = Some o -> binder b r = (Ok o, r).
Proof. intros H. unfold binder. by rewrite bind_get_state, H. Qed.

Lemma promote_ok b o r :
  binders r !! b = Some o -> promote (Some b) r = (Ok (if decide (status o = Alive) then Some b else None), r).
Proof. intros H. unfold promote. by rewrite (bind_Ok _ _ _ _ _ (binder_ok _ _ _ H)). Qed.

Lemma promote_none r : promote None r = (Ok None, r).
Proof. done. Qed.

(** A number that is in the table is looked up with or without its node. *)
Lemma getBinder_ok r i id b :
  node_of i = 0 \/ node_of i = mNodeId r -> Z.lor (Z.shiftl (mNodeId r) 32) i = id -> mBinderIds r !! id = Some b ->
  getBinder i r = promote b r.
Proof.
  intros Hi <- Hb. unfold getBinder. rewrite bind_get_state.
  assert ((node_of i =? 0) || (mNodeId r =? node_of i) = true) as ->.
  { destruct Hi as [-> | ->]; [done|]. by rewrite Z.eqb_refl, orb_true_r. }
  unfold get_id. by rewrite bind_assoc, bind_get_state, Hb.
Qed.

Section numbers.
Context (r : Runtime) (id : Z) (Hn : 0 <= mNodeId r < 2 ^ 32) (Hid : 0 <= id < 2 ^ 64) (En : node_of id = mNodeId r).

Lemma whole_key : Z.lor (Z.shiftl (mNodeId r) 32) id = id.
Proof. rewrite <- (global_halves (mNodeId r) id) by done. unfold global. by rewrite Z.lor_assoc, Z.lor_diag. Qed.

Lemma getBinder_whole b : mBinderIds r !! id = Some b -> getBinder id r = promote b r.
Proof. apply getBinder_ok; [by right|apply whole_key]. Qed.

Lemma getBinder_low b : mBinderIds r !! id = Some b -> getBinder (low id) r = promote b r.
Proof.
  assert (0 <= low id < 2 ^ 32) as Hl by apply low_range. apply getBinder_ok.
  - left. rewrite node_of_div by lia. apply Z.div_small. lia.
  - etransitivity; [|by apply (global_halves (mNodeId r) id)]. unfold global. by rewrite (low_id_small (low id)).
Qed.

(** A number that is not there is not found, but it is there afterwards. *)
Lemma getBinder_absent :
  mBinderIds r !! id = None -> getBinder id r = (Ok None, set_ids (mIds r) (<[id := None]> (mBinderIds r)) r).
Proof.
  intros H. unfold getBinder. rewrite bind_get_state, En, Z.eqb_refl, orb_true_r, whole_key.
  unfold get_id. by rewrite bind_assoc, bind_get_state, H.
Qed.
End numbers.

(** The binder is registered under the number it gets, or every number the search tries is taken. *)
Lemma attachBinder_cases b r :
  0 <= mNodeId r < 2 ^ 32 -> dom (mBinderIds r) ⊆ mIds r ->
  (exists k g, let id := id_at r k in (forall j, (j < k)%nat -> id_at r j ∈ mIds r) /\ id ∉ mIds r /\
    attachBinder b r = (Ok id, set_ids ({[id]} ∪ mIds r) (<[id := Some b]> (mBinderIds r))
                                 (set_generators g (mProxyIdGenerator r) r))) \/
  (forall j, (j < S (size (mIds r)))%nat -> id_at r j ∈ mIds r) /\ outcome (attachBinder b) r = Diverge.
Proof.
  intros Hn Hd. destruct (next_id_spec (S (size (mIds r))) r) as [(k & g & _ & Hlow & Hfree & E)|[Hall E]].
  - left. exists k, g. intros id. split; [done|]. split; [done|]. unfold attachBinder. rewrite bind_get_state.
    mstep E. rewrite bind_get_state. cbn [mBinderIds set_generators].
    assert (mBinderIds r !! id = None) as E'; [|by fold id; rewrite E'].
    apply not_elem_of_dom. intros H. by apply Hfree, Hd.
  - right. split; [done|]. unfold attachBinder, outcome in *. rewrite bind_get_state. unfold mbind at 1, M_bind at 1.
    destruct (next_id _ r) as [x r']. cbn in E. by rewrite E.
Qed.

(** As long as fewer than 2^32 numbers are taken a binder gets one: the search ends,
    with the first number from the generator on that is not taken, however often the generator has
    wrapped around, and the binder is found under it, its own node's or without a node. *)
Theorem attach_fresh b o r :
  0 < mNodeId r < 2 ^ 32 -> room r -> dom (mBinderIds r) ⊆ mIds r ->
  binders r !! b = Some o -> status o = Alive ->
  exists k r', let id := id_at r k in
    attachBinder b r = (Ok id, r') /\ id ∉ mIds r /\ (forall j, (j < k)%nat -> id_at r j ∈ mIds r) /\
    node_of id = mNodeId r /\ mIds r' = {[id]} ∪ mIds r /\
    getBinder id r' = (Ok (Some b), r') /\ getBinder (low id) r' = (Ok (Some b), r').
Proof.
  intros Hn Hr Hd Hb Ho. destruct (attachBinder_cases b r ltac:(lia) Hd) as [(k & g & Hlow & Hfree & E)|[H _]].
  2: { apply too_many in H; [lia|done]. }
  exists k. eexists. intros id. split; [exact E|]. split; [done|]. split; [done|].
  assert (node_of id = mNodeId r) as En by (apply node_of_global; lia). split; [done|]. split; [done|].
  assert (0 <= id < 2 ^ 64) as Hid by (apply global_range; lia).
  rewrite (getBinder_whole _ id) with (b := Some b), (getBinder_low _ id) with (b := Some b) by (done || apply lookup_insert_eq).
  rewrite (promote_ok b o) by done. by rewrite decide_True.
Qed.

End runtime.
End Runtime.
