(* ===== verification/Registries.v ===== *)
(** * What the runtime owes the binders of its node

    The invariant of [Runtimes] under every interleaving of the calls that keep to what the runtime
    relies on, and what follows from it: binders are found, numbers are not given twice, and the name
    of a service leads to the same binder on another node.  [stale_destructor] and the examples after
    it are what happens where a caller does not keep to it. *)

From S2P Require Import Prelude Strings Numbers URIs Packages Configurations Runtimes.
From stdpp Require Import gmap fin_maps fin_map_dom.
Open Scope Z_scope.

Import CString Str Runtime.
Import Configuration(characters).

Module Registry.
Section registry.
Context {plugins : Plugins} {values : XMLValues} {numbers : XMLUnsigned}.

(** ** Every interleaving of the calls

    The life of a node: its threads make binders, attach interfaces, add and remove services, look
    binders and services up, and drop binders, whose destructors run some time later. *)

Definition existing (r : Runtime) (b : nat) (o : Binder) : Prop := binders r !! b = Some o /\ status o <> Gone.

Definition fits (d : sp) : Prop :=
  match d with Some (Some l) => clean l /\ Z.of_nat (List.length l) < 2 ^ 62 | _ => False end.

(** A call of the runtime by a thread of the node, or what becomes of a binder. *)
Inductive call :=
  | New
  | Attach (b : nat) (descriptor : sp)
  | Add (uri : option URI.URI) (service : option nat)
  | Remove (service : option nat)
  | Number (id : Z)
  | Find (uri : option URI.URI)
  | Get (uri : option URI.URI)
  | Copy (b : nat)
  | Release (b : nat)
  | Destroy (b : nat).

Definition run (c : call) : M Runtime unit :=
  match c with
  | New => new_binder;; mret tt
  | Attach b d => attachInterface b d
  | Add uri b => addService uri b
  | Remove b => removeService b
  | Number id => getBinder id;; mret tt
  | Find uri => getBinder_uri uri;; mret tt
  | Get uri => getService uri;; mret tt
  | Copy b => copy_binder b;; mret tt
  | Release b => release b
  | Destroy b => destroy b
  end.

Definition alive (r : Runtime) (b : nat) : Prop := exists o, binders r !! b = Some o /\ status o = Alive.

(** What the runtime relies on without checking it: interfaces are attached to binders that live, and
    to each of them once; a service of the configuration is added only when no other binder that
    still exists has its number; copies are not made; and nobody has looked for a number before it is
    given to a binder, nor for a URI before a binder has it, so that no null pointer is left in the
    place ([getBinder] leaves one for a number, and for the URI with the scheme mindroid when another
    scheme is asked for).  [stale_destructor], [copy_detaches] and [asked_too_early] are what happens
    otherwise.  That a binder in the table of services is not released is no promise of the callers:
    the table has a strong pointer. *)
Definition careful (c : call) (r : Runtime) : Prop :=
  match c with
  | New => dom (mBinderIds r) ⊆ mIds r
  | Attach b d =>
      exists o, binders r !! b = Some o /\ status o = Alive /\ mUri o = None /\ fits d /\
        forall u k, interface_uri (mId o) d = Ok u -> characters (URI.mString u) = Ok k -> mBinderUris r !! k <> Some None
  | Add (Some uri) (Some b) =>
      alive r b /\
      forall a s b' o', characters (URI.mAuthority uri) = Ok a -> configured r a = Some s ->
        existing r b' o' -> mId o' = global (mNodeId r) (Configuration.id s) -> b' = b
  | Copy _ => False
  | Release b => forall k, mServices r !! k <> Some b
  | _ => True
  end.

(** The call comes back, with an exception or without. *)
Definition returned {A} (x : result A) : Prop := match x with Ok _ | Throw _ => True | _ => False end.

Inductive step (r : Runtime) : Runtime -> Prop :=
  | step_call c x r' : careful c r -> run c r = (x, r') -> returned x -> step r r'.

Record inv (r : Runtime) : Prop := {
  inv_node : 0 < mNodeId r < 2 ^ 32;
  inv_id : forall b o, existing r b o ->
    0 <= mId o < 2 ^ 64 /\ node_of (mId o) = mNodeId r /\ mBinderIds r !! mId o = Some (Some b);
  inv_by_id : forall id b, mBinderIds r !! id = Some (Some b) -> id ∈ mIds r /\ exists o, existing r b o /\ mId o = id;
  inv_uri : forall b o u, existing r b o -> mUri o = Some u ->
    exists s, scheme_ok s /\ binder_uri s (mId o) u /\
      (status o = Alive -> mBinderUris r !! binder_text s (mId o) = Some (Some b));
  inv_by_uri : forall k b, mBinderUris r !! k = Some (Some b) ->
    exists o u s, existing r b o /\ mUri o = Some u /\ scheme_ok s /\ binder_uri s (mId o) u /\
      k = binder_text s (mId o);
  inv_service : forall k b, mServices r !! k = Some b -> exists o, binders r !! b = Some o /\ status o = Alive;
}.

Lemma same_id r b o b' o' : inv r -> existing r b o -> existing r b' o' -> mId o = mId o' -> b = b'.
Proof.
  intros Hr Hb Hb' E. destruct (inv_id r Hr b o Hb) as (_ & _ & H).
  destruct (inv_id r Hr b' o' Hb') as (_ & _ & H'). rewrite E in H. congruence.
Qed.

Lemma same_key r b o s b' o' s' u u' :
  inv r -> existing r b o -> existing r b' o' -> mUri o = Some u -> mUri o' = Some u' ->
  scheme_ok s -> scheme_ok s' -> binder_text s (mId o) = binder_text s' (mId o') -> b = b'.
Proof.
  intros Hr Hb Hb' _ _ Hs Hs' E. apply (same_id r b o b' o'); [done..|].
  destruct (inv_id r Hr b o Hb) as (? & _ & _). destruct (inv_id r Hr b' o' Hb') as (? & _ & _).
  by apply binder_text_inj in E as [_ E].
Qed.

(** Only the cache and the generators are different. *)
Record quiet (r r' : Runtime) : Prop := {
  quiet_node : mNodeId r' = mNodeId r;
  quiet_ids : mBinderIds r' = mBinderIds r;
  quiet_uris : mBinderUris r' = mBinderUris r;
  quiet_services : mServices r' = mServices r;
  quiet_taken : mIds r' = mIds r;
  quiet_binders : binders r' = binders r;
}.

Lemma quiet_refl r : quiet r r.
Proof. by split. Qed.

Lemma quiet_existing r r' b o : quiet r r' -> existing r' b o <-> existing r b o.
Proof. intros []. unfold existing. by rewrite quiet_binders0. Qed.

Lemma inv_quiet r r' : quiet r r' -> inv r -> inv r'.
Proof.
  intros Hq [H1 H2 H3 H4 H5 H6]. pose proof (fun b o => quiet_existing r r' b o Hq) as He. destruct Hq as [E1 E2 E3 E4 E5 E6].
  split.
  - by rewrite E1.
  - intros b o Hb%He. rewrite E1, E2. by apply H2.
  - intros id b. rewrite E2, E5. intros H. destruct (H3 id b H) as (? & o & ? & ?). split; [done|]. exists o. by rewrite He.
  - intros b o u Hb%He Hu. rewrite E3. by apply (H4 b).
  - intros k b. rewrite E3. intros H. destruct (H5 k b H) as (o & u & s & ? & ?). exists o, u, s. by rewrite He.
  - intros k b. rewrite E4, E6. apply H6.
Qed.

(** *** New binders *)

(** An object that is new, or has changed, beside others that have not. *)
Definition others (r r' : Runtime) (b : nat) : Prop := forall x, x <> b -> binders r' !! x = binders r !! x.

Lemma existing_others r r' b o' x o :
  others r r' b -> binders r' !! b = Some o' -> existing r' x o ->
  (x = b /\ o = o') \/ (x <> b /\ existing r x o).
Proof.
  intros Ho Hb [Hx Hs]. destruct (decide (x = b)) as [->|Hne]; [left; split; [done|congruence]|right].
  split; [done|]. split; [|done]. by rewrite <- (Ho x).
Qed.

Lemma others_existing r r' b x o : others r r' b -> x <> b -> existing r x o -> existing r' x o.
Proof. intros Ho Hne [Hx Hs]. split; [|done]. by rewrite (Ho x). Qed.

Lemma new_binder_ok x r r' :
  inv r -> dom (mBinderIds r) ⊆ mIds r -> new_binder r = (x, r') -> returned x ->
  exists b id g, x = Ok b /\ b = List.length (binders r) /\ id ∉ mIds r /\ 0 <= id < 2 ^ 64 /\ node_of id = mNodeId r /\
    r' = set_binders (fun _ => binders r ++ [mkBinder id None None Alive])
           (set_ids ({[id]} ∪ mIds r) (<[id := Some b]> (mBinderIds r)) (set_generators g (mProxyIdGenerator r) r)).
Proof.
  intros Hr Hdom. pose proof (inv_node r Hr) as Hn. unfold new_binder. rewrite bind_get_state.
  set (l := List.length (binders r)).
  set (r1 := set_binders (fun l => l ++ [mkBinder 0 None None Alive]) r).
  change ((attachBinder l ≫= fun id => update l (mkBinder id None None Alive) ≫= fun _ => mret l) r1 = (x, r') -> returned x ->
    exists b id g, x = Ok b /\ b = l /\ id ∉ mIds r /\ 0 <= id < 2 ^ 64 /\ node_of id = mNodeId r /\
    r' = set_binders (fun _ => binders r ++ [mkBinder id None None Alive])
           (set_ids ({[id]} ∪ mIds r) (<[id := Some b]> (mBinderIds r)) (set_generators g (mProxyIdGenerator r) r))).
  destruct (attachBinder_cases l r1) as [(k & g & _ & Hfree & E)|[_ E]]; [cbn; lia|done| |].
  - mstep E. intros [= <- <-] _. exists l, (id_at r1 k), g. do 3 (split; [done|]).
    split; [apply global_range; cbn; lia|]. split; [apply node_of_global; cbn; lia|].
    unfold set_binders, set_ids, set_generators. cbn. f_equal. unfold l.
    by rewrite insert_app_r_alt, Nat.sub_diag by lia.
  - unfold outcome in E. unfold mbind, M_bind. destruct (attachBinder l r1) as [y r2]. cbn in E. rewrite E. by intros [= <- _].
Qed.

Lemma registry_new x r r' :
  inv r -> dom (mBinderIds r) ⊆ mIds r -> new_binder r = (x, r') -> returned x -> inv r'.
Proof.
  intros Hr Hdom H Hx. destruct (new_binder_ok x r r' Hr Hdom H Hx) as (b0 & id & g & -> & -> & Hfree & Hid & En & ->). clear H Hx.
  set (b := List.length (binders r)). set (o := mkBinder id None None Alive).
  set (r' := set_binders _ _).
  assert (binders r' !! b = Some o) as Hb by (cbn; by apply list_lookup_middle).
  assert (others r r' b) as Ho.
  { intros x Hx. cbn. destruct (decide (x < b)%nat); [by apply lookup_app_l|].
    rewrite !lookup_ge_None_2; [done|lia|]. rewrite length_app. cbn. lia. }
  assert (forall x o', existing r x o' -> existing r' x o') as Hex.
  { intros x o' He. apply (others_existing r r' b); [done| |done]. intros ->. destruct He as [He _].
    apply lookup_lt_Some in He. lia. }
  pose proof Hr as [H1 H2 H3 H4 H5 H6]. split.
  - done.
  - intros x o' He. apply (existing_others r r' b o x o' Ho Hb) in He as [[-> ->]|[Hx He]].
    + cbn. rewrite lookup_insert_eq. done.
    + destruct (H2 x o' He) as (? & ? & Hi). split; [done|]. split; [done|]. cbn.
      rewrite lookup_insert_ne; [done|]. intros E. apply Hfree. rewrite E. by apply (H3 _ x).
  - intros i x. cbn. rewrite lookup_insert_Some. intros [[<- [= <-]]|[Hne Hi]].
    + split; [set_solver|]. by exists o.
    + destruct (H3 i x Hi) as (? & o' & He & ?). split; [set_solver|]. exists o'. by auto.
  - intros x o' u He Hu. apply (existing_others r r' b o x o' Ho Hb) in He as [[-> ->]|[Hx He]]; [done|].
    by apply (H4 x).
  - intros k x Hk. destruct (H5 k x Hk) as (o' & u & s & He & ?). exists o', u, s. by auto.
  - intros k x Hk. destruct (H6 k x Hk) as (o' & He & ?). exists o'. split; [|done]. rewrite Ho; [done|].
    intros ->. apply lookup_lt_Some in He. lia.
Qed.

(** *** Interfaces *)

Lemma attach_binder_uri b o u s r :
  binders r !! b = Some o -> mUri o = Some u -> scheme_ok s -> binder_uri s (mId o) u ->
  mBinderUris r !! binder_text s (mId o) = None ->
  attachBinder_uri (Some u) b r = (Ok tt, set_uris (<[binder_text s (mId o) := Some b]>) r).
Proof.
  intros Hb Hu Hs Hbu Hk. unfold attachBinder_uri. mstep (binder_ok b o r Hb). rewrite Hu.
  assert (lift (characters (URI.mString u)) r = (Ok (binder_text s (mId o)), r)) as E.
  { unfold lift. by rewrite (binder_uri_key s (mId o) Hs u). }
  mstep E. rewrite bind_get_state. by rewrite Hk.
Qed.

Lemma set_binders_twice b o o' r : set_binders (<[b := o']>) (set_binders (<[b := o]>) r) = set_binders (<[b := o']>) r.
Proof. unfold set_binders. cbn. by rewrite list_insert_insert_eq. Qed.

Lemma bind_update {A} b o (f : unit -> M Runtime A) r : (update b o ≫= f) r = f tt (set_binders (<[b := o]>) r).
Proof. done. Qed.

(** The descriptor is kept; then there is no URI, or one with the scheme of the descriptor. *)
Lemma attachInterface_ok b o d r x r' :
  inv r -> existing r b o -> mUri o = None -> fits d ->
  (forall u k, interface_uri (mId o) d = Ok u -> characters (URI.mString u) = Ok k -> mBinderUris r !! k <> Some None) ->
  attachInterface b d r = (x, r') ->
  r' = set_binders (<[b := mkBinder (mId o) None d (status o)]>) r \/
  exists s u, scheme_ok s /\ binder_uri s (mId o) u /\
    r' = set_uris (<[binder_text s (mId o) := Some b]>)
           (set_binders (<[b := mkBinder (mId o) (Some u) d (status o)]>) r).
Proof.
  intros Hr He Hu Hd Hnull. pose proof He as [Hb Hst]. unfold attachInterface. mstep (binder_ok b o r Hb).
  set (o1 := mkBinder (mId o) (mUri o) d (status o)).
  set (r1 := set_binders (<[b := o1]>) r).
  rewrite bind_update. fold r1.
  destruct (inv_id r Hr b o He) as (Hid & _).
  destruct (interface_uri (mId o) d) as [u|e| |] eqn:E.
  - assert (exists s, scheme_ok s /\ binder_uri s (mId o) u) as (s & Hs & Hbu).
    { destruct d as [[l|]|]; [|done..]. destruct Hd as [Hl H62]. by apply (interface_uri_ok (mId o) l). }
    set (o2 := mkBinder (mId o) (Some u) d (status o)).
    rewrite bind_update. fold o2.
    assert (set_binders (<[b := o2]>) r1 = set_binders (<[b := o2]>) r) as ->.
    { unfold r1, set_binders. cbn. by rewrite list_insert_insert_eq. }
    assert (binders (set_binders (<[b := o2]>) r) !! b = Some o2) as Hb2.
    { cbn. apply list_lookup_insert_eq. by eapply lookup_lt_Some. }
    rewrite (attach_binder_uri b o2 u s _ Hb2 eq_refl Hs Hbu).
    + intros [= _ <-]. right. by exists s, u.
    + cbn. destruct (mBinderUris r !! _) as [[y|]|] eqn:Ek; [| |done].
      2: { destruct (Hnull u _ eq_refl (binder_uri_key s (mId o) Hs u Hbu) Ek). }
      destruct (inv_by_uri r Hr _ y Ek) as (o' & u' & s' & He' & Hu' & Hs' & _ & Et).
      assert (b = y) as <-; [|destruct He', He; congruence].
      apply (same_id r b o y o'); [done..|]. destruct (inv_id r Hr y o' He') as (? & _).
      by apply binder_text_inj in Et as [_ ?].
  - intros H. left. assert (r' = r1) as -> by (by destruct e; injection H as _ <-). unfold r1, o1. by rewrite Hu.
  - intros [= _ <-]. left. unfold r1, o1. by rewrite Hu.
  - intros [= _ <-]. left. unfold r1, o1. by rewrite Hu.
Qed.

(** A binder that keeps its number: its URI stays as it is or is new, and it lives on or is in no
    table of services. *)
Lemma inv_update r r' b o o' :
  inv r -> existing r b o -> binders r' !! b = Some o' -> others r r' b -> mId o' = mId o -> status o' <> Gone ->
  mNodeId r' = mNodeId r -> mBinderIds r' = mBinderIds r -> mIds r' = mIds r -> mServices r' = mServices r ->
  status o' = Alive \/ (forall k, mServices r !! k <> Some b) ->
  (mUri o' = mUri o /\ (status o' = Alive -> status o = Alive) /\ mBinderUris r' = mBinderUris r) \/
  (exists s u, mUri o = None /\ mUri o' = Some u /\ scheme_ok s /\ binder_uri s (mId o) u /\
    mBinderUris r' = <[binder_text s (mId o) := Some b]> (mBinderUris r)) ->
  inv r'.
Proof.
  intros Hr He Hb Ho Eid Hst En Eb Ei Es Hal HU. pose proof Hr as [H1 H2 H3 H4 H5 H6].
  assert (existing r' b o') as He' by by split.
  assert (forall x y, x <> b -> existing r x y -> existing r' x y) as Hex by (intros x y; by apply others_existing).
  assert (forall x y, existing r' x y -> x = b /\ y = o' \/ x <> b /\ existing r x y) as Hcase
    by (intros x y; by apply existing_others).
  split.
  - by rewrite En.
  - intros x y [[-> ->]|[Hx Hy]]%Hcase; rewrite En, Eb; [rewrite Eid|]; by apply H2.
  - intros i x. rewrite Eb, Ei. intros Hx. destruct (H3 i x Hx) as (Hi & y & Hy & <-). split; [done|].
    destruct (decide (x = b)) as [->|Hne]; [|exists y; by auto]. exists o'. split; [done|].
    destruct Hy as [Hy _], He as [He _]. congruence.
  - intros x y u [[-> ->]|[Hx Hy]]%Hcase Hu.
    + rewrite Eid. destruct HU as [(E1 & E2 & ->)|(s & u' & E1 & E2 & Hs & Hbu & ->)].
      * rewrite E1 in Hu. destruct (H4 b o u He Hu) as (s & ? & ? & Hk). exists s. by auto.
      * exists s. rewrite E2 in Hu. injection Hu as <-. split; [done|]. split; [done|]. intros _. apply lookup_insert_eq.
    + destruct (H4 x y u Hy Hu) as (s & Hs & Hbu & Hk). exists s. split; [done|]. split; [done|]. intros Ha.
      destruct HU as [(E1 & E2 & ->)|(s' & u' & E1 & E2 & Hs' & _ & ->)]; [by apply Hk|].
      rewrite lookup_insert_ne; [by apply Hk|]. intros E. apply Hx. symmetry.
      apply (same_id r b o x y); [done..|]. destruct (H2 b o He) as (? & _). destruct (H2 x y Hy) as (? & _).
      by apply binder_text_inj in E as [_ ?].
  - assert (forall k x, mBinderUris r !! k = Some (Some x) -> exists y u s,
      existing r' x y /\ mUri y = Some u /\ scheme_ok s /\ binder_uri s (mId y) u /\ k = binder_text s (mId y)) as Hold.
    { intros k x Hk. destruct (H5 k x Hk) as (y & u & s & Hy & Hu & Hs & Hbu & Et).
      destruct (decide (x = b)) as [->|Hne]; [|exists y, u, s; by auto].
      assert (y = o) as -> by (destruct Hy as [Hy _], He as [He _]; congruence).
      destruct HU as [(E1 & _)|(? & ? & E1 & _)]; [|congruence].
      exists o', u, s. rewrite Eid, E1. by auto. }
    intros k x. destruct HU as [(E1 & E2 & ->)|(s & u & E1 & E2 & Hs & Hbu & ->)]; [by apply Hold|].
    rewrite lookup_insert_Some. intros [[<- [= <-]]|[_ Hk]]; [|by apply Hold].
    exists o', u, s. rewrite Eid. by auto.
  - intros k x. rewrite Es. intros Hk. destruct (H6 k x Hk) as (y & Hy & Ha).
    destruct (decide (x = b)) as [->|Hne]; [|exists y; by rewrite Ho].
    exists o'. split; [done|]. destruct Hal as [Hal|Hal]; [done|]. by destruct (Hal k).
Qed.

Lemma binders_update b o r : is_Some (binders r !! b) -> binders (set_binders (<[b := o]>) r) !! b = Some o.
Proof. intros [? H]. cbn. apply list_lookup_insert_eq. by eapply lookup_lt_Some. Qed.

Lemma others_update b o r : others r (set_binders (<[b := o]>) r) b.
Proof. intros x Hx. cbn. by apply list_lookup_insert_ne. Qed.

Lemma inv_attach b o d r x r' :
  inv r -> binders r !! b = Some o -> status o = Alive -> mUri o = None -> fits d ->
  (forall u k, interface_uri (mId o) d = Ok u -> characters (URI.mString u) = Ok k -> mBinderUris r !! k <> Some None) ->
  attachInterface b d r = (x, r') -> inv r'.
Proof.
  intros Hr Hb Ha Hu Hd Hnull H. assert (existing r b o) as He by (split; [done|by rewrite Ha]).
  destruct (attachInterface_ok b o d r x r' Hr He Hu Hd Hnull H) as [->|(s & u & Hs & Hbu & ->)].
  - apply (inv_update r _ b o (mkBinder (mId o) None d (status o))); try done.
    + apply binders_update. by rewrite Hb.
    + apply others_update.
    + by apply He.
    + by left.
    + left. by rewrite Hu.
  - apply (inv_update r _ b o (mkBinder (mId o) (Some u) d (status o))); try done.
    + apply binders_update. by rewrite Hb.
    + apply others_update.
    + by apply He.
    + by left.
    + right. by exists s, u.
Qed.

Lemma inv_release b r x r' :
  inv r -> (forall k, mServices r !! k <> Some b) -> release b r = (x, r') -> inv r'.
Proof.
  intros Hr Hk. unfold release, binder. rewrite bind_assoc, bind_get_state.
  destruct (binders r !! b) as [o|] eqn:Hb; [|by intros [= _ <-]]. rewrite bind_ret.
  destruct (decide (status o = Alive)) as [Ha|]; [|by intros [= _ <-]]. intros [= _ <-].
  apply (inv_update r _ b o (mkBinder (mId o) (mUri o) (mDescriptor o) Dead)); try done.
  - by split; [|rewrite Ha].
  - apply binders_update. by rewrite Hb.
  - apply others_update.
  - by right.
  - by left.
Qed.

(** *** Destructors *)

Lemma inv_destroy b r res r' : inv r -> destroy b r = (res, r') -> inv r'.
Proof.
  intros Hr. unfold destroy, binder. rewrite bind_assoc, bind_get_state.
  destruct (binders r !! b) as [o|] eqn:Hb; [|by intros [= _ <-]]. rewrite bind_ret.
  destruct (decide (status o = Dead)) as [Hd|]; [|by intros [= _ <-]].
  assert (existing r b o) as He by by split; [|rewrite Hd].
  set (o' := mkBinder (mId o) (mUri o) (mDescriptor o) Gone).
  assert (detachBinder (mId o) (mUri o) r =
    (Ok tt, set_uris (fun m => match mUri o with
                               | Some u => delete (match characters (URI.mString u) with Ok k => k | _ => [] end) m
                               | None => m end)
              (set_ids (mIds r ∖ {[mId o]}) (delete (mId o) (mBinderIds r)) r))) as E.
  { unfold detachBinder. rewrite bind_modify. destruct (mUri o) as [u|] eqn:Hu; [|done].
    destruct (inv_uri r Hr b o u He Hu) as (s & Hs & Hbu & _). unfold lift.
    by rewrite (binder_uri_key s (mId o) Hs u Hbu). }
  mstep E. clear E. intros [= _ <-]. set (r' := set_binders _ _).
  assert (binders r' !! b = Some o') as Hb' by (by apply binders_update; exists o).
  assert (others r r' b) as Ho by (intros x Hx; by apply list_lookup_insert_ne).
  assert (forall x y, x <> b -> existing r x y -> existing r' x y) as Hex by (intros x y; by apply others_existing).
  assert (forall x y, existing r' x y -> x <> b /\ existing r x y) as Hcase.
  { intros x y Hy. destruct (existing_others r r' b o' x y Ho Hb' Hy) as [[-> ->]|?]; [by destruct Hy|done]. }
  assert (forall x y, x <> b -> existing r x y -> mId o <> mId y) as Hid.
  { intros x y Hx Hy E. apply Hx. symmetry. by apply (same_id r b o x y). }
  assert (forall x y s s', x <> b -> existing r x y -> scheme_ok s -> scheme_ok s' ->
    binder_text s (mId o) <> binder_text s' (mId y)) as Hkey.
  { intros x y s s' Hx Hy Hs Hs' E. apply (Hid x y Hx Hy). destruct (inv_id r Hr b o He) as (? & _).
    destruct (inv_id r Hr x y Hy) as (? & _). by apply binder_text_inj in E as [_ ?]. }
  pose proof Hr as [H1 H2 H3 H4 H5 H6]. split.
  - done.
  - intros x y [Hx Hy]%Hcase. destruct (H2 x y Hy) as (? & ? & ?). split; [done|]. split; [done|]. cbn.
    rewrite lookup_delete_ne; [done|by apply (Hid x)].
  - intros i x. cbn. rewrite lookup_delete_Some. intros [Hne Hi]. destruct (H3 i x Hi) as (? & y & Hy & <-).
    split; [set_solver|]. exists y. split; [|done]. apply Hex; [|done]. intros ->.
    destruct Hy as [Hy _], He as [He _]. congruence.
  - intros x y u [Hx Hy]%Hcase Hu. destruct (H4 x y u Hy Hu) as (s & Hs & Hbu & Hk). exists s. split; [done|]. split; [done|].
    intros Ha. cbn. destruct (mUri o) as [v|] eqn:Hv; [|by apply Hk].
    destruct (H4 b o v He Hv) as (s' & Hs' & Hbv & _). rewrite (binder_uri_key s' (mId o) Hs' v Hbv).
    rewrite lookup_delete_ne; [by apply Hk|by apply (Hkey x)].
  - intros k x. cbn. intros Hk. assert (x <> b /\ mBinderUris r !! k = Some (Some x)) as [Hx Hk'].
    { destruct (mUri o) as [v|] eqn:Hv.
      - destruct (H4 b o v He Hv) as (s' & Hs' & Hbv & _). rewrite (binder_uri_key s' (mId o) Hs' v Hbv) in Hk.
        apply lookup_delete_Some in Hk as [Hne Hk]. split; [|done]. intros ->.
        destruct (H5 k b Hk) as (y & u & s & Hy & Hu & Hs & Hbu & ->).
        assert (y = o) as -> by (destruct Hy as [Hy _]; congruence). assert (u = v) as -> by congruence.
        destruct Hbu as [E _ _], Hbv as [E' _ _]. apply Hne. rewrite E in E'. congruence.
      - split; [|done]. intros ->. destruct (H5 k b Hk) as (y & u & s & Hy & Hu & _).
        assert (y = o) as -> by (destruct Hy as [Hy _]; congruence). congruence. }
    destruct (H5 k x Hk') as (y & u & s & Hy & ?). exists y, u, s. by auto.
  - intros k x Hk. destruct (H6 k x Hk) as (y & Hy & Ha). exists y. split; [|done]. rewrite Ho; [done|].
    intros ->. congruence.
Qed.

(** *** Services *)

Lemma lift_Ok {A B} (x : result A) a (f : A -> M Runtime B) r : x = Ok a -> (lift x ≫= f) r = f a r.
Proof. by intros ->. Qed.

Lemma scheme_characters s id u : scheme_ok s -> binder_uri s id u -> characters (URI.mScheme u) = Ok s.
Proof. intros (_ & Hc & _) [_ E _]. rewrite E. by apply characters_clean. Qed.

Lemma setId_ok b o u s id r :
  binders r !! b = Some o -> mUri o = Some u -> scheme_ok s -> binder_uri s (mId o) u ->
  exists u', binder_uri s id u' /\
    setId b id r = (Ok tt, set_binders (<[b := mkBinder id (Some u') (mDescriptor o) (status o)]>) r).
Proof.
  intros Hb Hu Hs Hbu. destruct (binder_uri_made s id Hs) as (u' & _ & E & Hbu'). exists u'. split; [done|].
  unfold setId. mstep (binder_ok b o r Hb). rewrite bind_update.
  rewrite (lift_Ok _ u) by by rewrite Hu. rewrite (lift_Ok _ s) by by apply (scheme_characters s (mId o)).
  rewrite (lift_Ok _ u') by exact E. unfold update, modify, set_binders. cbn. by rewrite list_insert_insert_eq.
Qed.

(** A service of the configuration leaves its old number and URI for those of the configuration. *)
Lemma renumber_ok b o u s c r :
  existing r b o -> inv r -> mUri o = Some u -> scheme_ok s -> binder_uri s (mId o) u ->
  let newId := global (mNodeId r) (Configuration.id c) in
  exists u', binder_uri s newId u' /\
    renumber b c r =
      (Ok tt, set_uris (fun m => <[binder_text s newId := Some b]> (delete (binder_text s (mId o)) m))
                (set_binders (<[b := mkBinder newId (Some u') (mDescriptor o) (status o)]>)
                   (set_ids ({[newId]} ∪ (mIds r ∖ {[mId o]}))
                      (<[newId := Some b]> (delete (mId o) (mBinderIds r))) r))).
Proof.
  intros He Hr Hu Hs Hbu newId. pose proof He as [Hb _]. destruct (inv_id r Hr b o He) as (Hid & En & _).
  unfold renumber. mstep (binder_ok b o r Hb). rewrite bind_get_state. fold newId. unfold getId.
  rewrite (global_halves (mNodeId r) (mId o)) by done. rewrite bind_modify.
  rewrite (lift_Ok _ u) by by rewrite Hu.
  rewrite (lift_Ok _ (binder_text s (mId o))) by by apply binder_uri_key.
  rewrite bind_modify. set (r1 := set_uris (delete _) _).
  destruct (setId_ok b o u s newId r1) as (u' & Hbu' & E); [done..|]. exists u'. split; [done|].
  mstep E. rewrite bind_modify. set (o' := mkBinder newId _ _ _). set (r2 := set_ids _ _ _).
  assert (binders r2 !! b = Some o') as Hb2 by (apply list_lookup_insert_eq; by eapply lookup_lt_Some).
  mstep (binder_ok b o' r2 Hb2). rewrite (lift_Ok _ u') by done.
  rewrite (lift_Ok _ (binder_text s newId)) by by apply binder_uri_key. done.
Qed.

Lemma inv_renumber b o o' u' s r r' :
  inv r -> existing r b o -> status o = Alive -> scheme_ok s ->
  (forall u, mUri o = Some u -> binder_uri s (mId o) u) ->
  let newId := mId o' in
  0 <= newId < 2 ^ 64 -> node_of newId = mNodeId r -> status o' = Alive ->
  mUri o' = Some u' -> binder_uri s newId u' ->
  (forall x y, existing r x y -> mId y = newId -> x = b) ->
  mNodeId r' = mNodeId r -> mIds r' = {[newId]} ∪ (mIds r ∖ {[mId o]}) ->
  mBinderIds r' = <[newId := Some b]> (delete (mId o) (mBinderIds r)) ->
  mBinderUris r' = <[binder_text s newId := Some b]> (delete (binder_text s (mId o)) (mBinderUris r)) ->
  mServices r' = mServices r -> binders r' !! b = Some o' -> others r r' b -> inv r'.
Proof.
  intros Hr He Ha Hs Hu newId Hid En Ha' Hu' Hbu' Hfree E1 E2 E3 E4 E5 Hb' Ho.
  assert (existing r' b o') as He' by (split; [done|by rewrite Ha']).
  assert (forall x y, x <> b -> existing r x y -> existing r' x y) as Hex by (intros x y; by apply others_existing).
  assert (forall x y, existing r' x y -> x = b /\ y = o' \/ x <> b /\ existing r x y) as Hcase
    by (intros x y; by apply existing_others).
  assert (forall x y, x <> b -> existing r x y -> newId <> mId y /\ mId o <> mId y) as Hne.
  { intros x y Hx Hy. split; intros E; apply Hx; [by apply (Hfree x y)|]. symmetry. by apply (same_id r b o x y). }
  destruct (inv_id r Hr b o He) as (Hold & _ & _).
  pose proof Hr as [H1 H2 H3 H4 H5 H6].
  assert (forall x y s', x <> b -> existing r x y -> scheme_ok s' ->
    binder_text s newId <> binder_text s' (mId y) /\ binder_text s (mId o) <> binder_text s' (mId y)) as Hkey.
  { intros x y s' Hx Hy Hs'. destruct (Hne x y Hx Hy) as [Hn1 Hn2]. destruct (H2 x y Hy) as (? & _).
    split; intros E; apply binder_text_inj in E as [_ E]; done. }
  split.
  - by rewrite E1.
  - intros x y [[-> ->]|[Hx Hy]]%Hcase; rewrite E1, E3.
    + split; [done|]. split; [done|]. apply lookup_insert_eq.
    + destruct (H2 x y Hy) as (? & ? & ?). split; [done|]. split; [done|]. destruct (Hne x y Hx Hy).
      by rewrite lookup_insert_ne, lookup_delete_ne.
  - intros i x. rewrite E2, E3, lookup_insert_Some, lookup_delete_Some.
    intros [[<- [= <-]]|(_ & Hni & Hi)]; [split; [set_solver|by exists o']|].
    destruct (H3 i x Hi) as (? & y & Hy & <-). split; [set_solver|]. exists y. split; [|done]. apply Hex; [|done].
    intros ->. destruct Hy as [Hy _], He as [He _]. congruence.
  - intros x y v [[-> ->]|[Hx Hy]]%Hcase Hv.
    + exists s. rewrite Hu' in Hv. injection Hv as <-. split; [done|]. split; [done|]. intros _. rewrite E4. apply lookup_insert_eq.
    + destruct (H4 x y v Hy Hv) as (s' & Hs' & Hbv & Hk). exists s'. split; [done|]. split; [done|]. intros Hal.
      rewrite E4. destruct (Hkey x y s' Hx Hy Hs'). rewrite lookup_insert_ne, lookup_delete_ne by done. by apply Hk.
  - intros k x. rewrite E4, lookup_insert_Some, lookup_delete_Some. intros [[<- [= <-]]|(_ & Hnk & Hk)]; [by exists o', u', s|].
    destruct (H5 k x Hk) as (y & v & s' & Hy & Hv & Hs' & Hbv & ->).
    exists y, v, s'. split; [|done]. apply Hex; [|done]. intros ->.
    assert (y = o) as -> by (destruct Hy as [Hy _], He as [He _]; congruence). apply Hnk.
    pose proof (Hu v Hv) as [E _ _]. destruct Hbv as [E' _ _]. rewrite E in E'. congruence.
  - intros k x. rewrite E5. intros Hk. destruct (H6 k x Hk) as (y & Hy & Hal).
    destruct (decide (x = b)) as [->|Hx]; [by exists o'|exists y; by rewrite Ho].
Qed.

Lemma inv_set_services f r :
  (forall k b, f (mServices r) !! k = Some b ->
    mServices r !! k = Some b \/ exists o, binders r !! b = Some o /\ status o = Alive) ->
  inv r -> inv (set_services f r).
Proof.
  intros Hf [H1 H2 H3 H4 H5 H6]. split; [done..|]. intros k b Hk. destruct (Hf k b Hk) as [H|H]; [by apply (H6 k)|done].
Qed.

Lemma registry_remove b r x r' : inv r -> removeService b r = (x, r') -> inv r'.
Proof.
  intros Hr. destruct b as [b|]; [|by intros [= _ <-]]. intros [= _ <-]. apply inv_set_services; [|done].
  intros k y [H _]%map_lookup_filter_Some. by left.
Qed.

(** Where a part of a call throws, nothing is changed after it. *)
Lemma throw_if_cases {A} c e (f : unit -> M Runtime A) r x r' :
  (throw_if c e ≫= f) r = (x, r') -> r' = r \/ (c = false /\ f tt r = (x, r')).
Proof. destruct c; [intros [= _ <-]; by left|by right]. Qed.

Lemma lift_cases {A B} (y : result A) (f : A -> M Runtime B) r x r' :
  (lift y ≫= f) r = (x, r') -> r' = r \/ exists a, y = Ok a /\ f a r = (x, r').
Proof. destruct y as [a|e| |]; [right; by exists a|intros [= _ <-]; by left..]. Qed.

(** What [addService] did. *)
Lemma addService_ok uri b o r x r' :
  inv r -> binders r !! b = Some o -> status o = Alive ->
  addService (Some uri) (Some b) r = (x, r') ->
  r' = r \/
  exists k u s, characters (URI.mString uri) = Ok k /\ mServices r !! k = None /\ mUri o = Some u /\
    scheme_ok s /\ binder_uri s (mId o) u /\
    (r' = set_services (<[k := b]>) r \/
     exists a c u', let newId := global (mNodeId r) (Configuration.id c) in
       characters (URI.mAuthority uri) = Ok a /\ configured r a = Some c /\ binder_uri s newId u' /\
       r' = set_services (<[k := b]>)
              (set_uris (fun m => <[binder_text s newId := Some b]> (delete (binder_text s (mId o)) m))
                (set_binders (<[b := mkBinder newId (Some u') (mDescriptor o) (status o)]>)
                   (set_ids ({[newId]} ∪ (mIds r ∖ {[mId o]}))
                      (<[newId := Some b]> (delete (mId o) (mBinderIds r))) r)))).
Proof.
  intros Hr Hb Ha. assert (existing r b o) as He by (split; [done|by rewrite Ha]).
  unfold addService. mstep (binder_ok b o r Hb). destruct (mUri o) as [u|] eqn:Hu; [|intros [= _ <-]; by left].
  destruct (inv_uri r Hr b o u He Hu) as (s & Hs & Hbu & _).
  intros [->|(same & _ & H)]%lift_cases; [by left|]. apply throw_if_cases in H as [->|[_ H]]; [by left|].
  apply lift_cases in H as [->|(k & Hk & H)]; [by left|].
  rewrite bind_get_state in H. destruct (mServices r !! k) eqn:Ek; [left; by injection H|].
  unfold configured. destruct (mConfiguration r) as [cf|].
  2: { right. exists k, u, s. do 5 (split; [done|]). left. by injection H. }
  cbn [mbind option_bind]. destruct (Configuration.nodes cf !! mNodeId r) as [n|].
  2: { right. exists k, u, s. do 5 (split; [done|]). left. by injection H. }
  rewrite bind_assoc in H. apply lift_cases in H as [->|(a & Hauth & H)]; [by left|].
  right. exists k, u, s. do 5 (split; [done|]).
  destruct (Configuration.node_services n !! a) as [c|] eqn:Ec; [|left; by injection H].
  right. destruct (renumber_ok b o u s c r He Hr Hu Hs Hbu) as (u' & Hbu' & E).
  rewrite (bind_Ok _ _ _ _ _ E) in H. injection H as _ <-. by exists a, c, u'.
Qed.

Lemma inv_add uri b o r x r' :
  inv r -> binders r !! b = Some o -> status o = Alive ->
  (forall a s b' o', characters (URI.mAuthority uri) = Ok a -> configured r a = Some s ->
    existing r b' o' -> mId o' = global (mNodeId r) (Configuration.id s) -> b' = b) ->
  addService (Some uri) (Some b) r = (x, r') -> inv r'.
Proof.
  intros Hr Hb Ha Hfree H. assert (existing r b o) as He by (split; [done|by rewrite Ha]).
  destruct (addService_ok uri b o r x r' Hr Hb Ha H) as [->|(k & u & s & _ & _ & Hu & Hs & Hbu & HU)]; [done|].
  destruct HU as [->|(a & c & u' & Hauth & Hc & Hbu' & ->)].
  - apply inv_set_services; [|done]. intros k' y. rewrite lookup_insert_Some. intros [[_ <-]|[_ ?]]; [right; by exists o|by left].
  - pose proof (inv_node r Hr) as Hn. set (newId := global (mNodeId r) (Configuration.id c)) in *.
    set (o' := mkBinder newId (Some u') (mDescriptor o) (status o)). set (r1 := set_uris _ _).
    assert (binders r1 !! b = Some o') as Hb1 by (apply list_lookup_insert_eq; by eapply lookup_lt_Some).
    assert (inv r1) as Hr1.
    { apply (inv_renumber b o o' u' s r r1); try done.
      - intros v Hv. congruence.
      - apply global_range. lia.
      - apply node_of_global. lia.
      - intros y z Hy Ez. by apply (Hfree a c y z).
      - intros y Hy. cbn. by apply list_lookup_insert_ne. }
    apply inv_set_services; [|done]. intros k' y. rewrite lookup_insert_Some. intros [[_ <-]|[_ ?]]; [right; by exists o'|by left].
Qed.

(** *** Lookups *)

(** A call that leaves everything but the cache and the generators as it is. *)
Definition keeps {A} (m : M Runtime A) : Prop := forall r x r', m r = (x, r') -> quiet r r'.

Lemma keeps_bind {A B} (m : M Runtime A) (f : A -> M Runtime B) :
  keeps m -> (forall a, keeps (f a)) -> keeps (m ≫= f).
Proof.
  intros Hm Hf r x r'. unfold mbind, M_bind. destruct (m r) as [y r1] eqn:E. apply Hm in E.
  destruct y as [a|e| |]; intros H; try (by injection H as _ <-). apply Hf in H. destruct E, H. split; congruence.
Qed.

Lemma keeps_lift {A} (x : result A) : keeps (lift x).
Proof. intros r y r' [= _ <-]. apply quiet_refl. Qed.
Lemma keeps_ret {A} (a : A) : keeps (mret a).
Proof. intros r y r' [= _ <-]. apply quiet_refl. Qed.
Lemma keeps_get : keeps get_state.
Proof. intros r y r' [= _ <-]. apply quiet_refl. Qed.
Lemma keeps_or_null {A} (m : M Runtime (option A)) : keeps m -> keeps (or_null m).
Proof.
  intros Hm r x r'. unfold or_null. destruct (m r) as [y r1] eqn:E. apply Hm in E.
  destruct y as [a|e| |]; [|destruct e|..]; by intros [= _ <-].
Qed.
Lemma keeps_cache k u : keeps (modify (set_cache k u)).
Proof. by intros r x r' [= _ <-]. Qed.
Lemma keeps_attachProxy : keeps attachProxy.
Proof. by intros r x r' [= _ <-]. Qed.

Create HintDb keeps.
#[local] Hint Resolve @keeps_lift @keeps_ret keeps_get @keeps_or_null keeps_cache keeps_attachProxy : keeps.

Ltac keeps := repeat first
  [ lazymatch goal with |- forall _, _ => intro end
  | solve [eauto with keeps]
  | apply keeps_bind
  | apply keeps_or_null
  | case_match ].

Lemma create_proxy_quiet u : keeps (create_proxy u).
Proof. unfold create_proxy. keeps. Qed.
#[local] Hint Resolve create_proxy_quiet : keeps.

Lemma getProxy_quiet u : keeps (getProxy u).
Proof. unfold getProxy. keeps. Qed.

Lemma inv_delete_key k r :
  inv r -> (forall b o, mBinderUris r !! k = Some (Some b) -> existing r b o -> status o <> Alive) ->
  inv (set_uris (delete k) r).
Proof.
  intros [H1 H2 H3 H4 H5 H6] Hk. split; [done..| | |done].
  - intros b o u He Hu. destruct (H4 b o u He Hu) as (s & Hs & Hbu & Ha). exists s. split; [done|]. split; [done|].
    intros Hal. cbn. rewrite lookup_delete_ne; [by apply Ha|]. intros ->. by apply (Hk b o); [apply Ha| |].
  - intros k' b. cbn. rewrite lookup_delete_Some. intros [_ H]. by apply (H5 k' b).
Qed.

(** The null pointers that lookups leave. *)
Lemma inv_null_uri k r : inv r -> mBinderUris r !! k = None -> inv (set_uris (<[k := None]>) r).
Proof.
  intros [H1 H2 H3 H4 H5 H6] Hk. split; [done..| | |done].
  - intros b o u He Hu. destruct (H4 b o u He Hu) as (s & Hs & Hbu & Ha). exists s. split; [done|]. split; [done|].
    intros Hal. cbn. rewrite lookup_insert_ne; [by apply Ha|]. intros ->. by rewrite (Ha Hal) in Hk.
  - intros k' b. cbn. rewrite lookup_insert_Some. intros [[_ [=]]|[_ H]]. by apply (H5 k' b).
Qed.

Lemma inv_null_id id r : inv r -> mBinderIds r !! id = None -> inv (set_ids (mIds r) (<[id := None]> (mBinderIds r)) r).
Proof.
  intros [H1 H2 H3 H4 H5 H6] Hk. split; [done| | |done..].
  - intros b o He. destruct (H2 b o He) as (? & ? & Hi). split; [done|]. split; [done|]. cbn.
    rewrite lookup_insert_ne; [done|]. intros ->. congruence.
  - intros i b. cbn. rewrite lookup_insert_Some. intros [[_ [=]]|[_ H]]. by apply (H3 i b).
Qed.

(** A key of the table of URIs gives the binder, while it lives. *)
Lemma promote_uri k r :
  inv r -> exists x r', (get_uri k ≫= promote) r = (Ok x, r') /\ inv r' /\ mNodeId r' = mNodeId r /\
    match x with
    | Some b => r' = r /\ mBinderUris r !! k = Some (Some b) /\ alive r b
    | None => forall b o, mBinderUris r' !! k = Some (Some b) -> existing r' b o -> status o <> Alive
    end.
Proof.
  intros Hr. unfold get_uri. rewrite bind_assoc, bind_get_state. destruct (mBinderUris r !! k) as [[b|]|] eqn:E.
  - destruct (inv_by_uri r Hr k b E) as (o & _ & _ & [Hb _] & _).
    exists (if decide (status o = Alive) then Some b else None), r. split; [by apply promote_ok|]. split; [done|]. split; [done|].
    destruct (decide (status o = Alive)) as [Ha|Ha]; [do 2 (split; [done|]); by exists o|].
    intros b' o' E' [Hb' _]. assert (b' = b) as -> by congruence. congruence.
  - exists None, r. split; [done|]. split; [done|]. split; [done|]. intros b' o'. by rewrite E.
  - exists None, (set_uris (<[k := None]>) r). split; [done|]. split; [by apply inv_null_uri|]. split; [done|].
    intros b' o'. cbn. by rewrite lookup_insert_eq.
Qed.

Lemma inv_number id r x r' : inv r -> getBinder id r = (x, r') -> inv r'.
Proof.
  intros Hr. unfold getBinder. rewrite bind_get_state. case_match; [|by intros [= _ <-]].
  unfold get_id. rewrite bind_assoc, bind_get_state. destruct (mBinderIds r !! _) as [[b|]|] eqn:E.
  - unfold promote, binder. rewrite bind_ret, bind_assoc, bind_get_state.
    destruct (binders r !! b); [|by intros [= _ <-]]. rewrite bind_ret. by intros [= _ <-].
  - by intros [= _ <-].
  - intros [= _ <-]. by apply inv_null_id.
Qed.

Section no_stubs.
Context (no_stubs : forall s b, getStub s b = None).

Lemma stub_none s b keep r : stub s b keep r = (Ok None, r).
Proof. unfold stub. rewrite bind_get_state, no_stubs. by case_decide. Qed.

Lemma inv_find_binder s a r x r' : inv r -> find_binder s a r = (x, r') -> inv r'.
Proof.
  intros Hr. unfold find_binder. rewrite <- bind_assoc. set (k := s ++ _).
  destruct (promote_uri k r Hr) as (y & r0 & E & Hr0 & _ & Hy). mstep E. destruct y as [b|]; [by intros [= _ <-]|].
  rewrite bind_modify. pose proof (inv_delete_key k r0 Hr0 Hy) as Hr1. set (r1 := set_uris _ r0) in *.
  case_decide; [by intros [= _ <-]|]. rewrite <- bind_assoc.
  destruct (promote_uri (MINDROID_SCHEME ++ chars "://" ++ a) r1 Hr1) as (z & r2 & Ez & Hr2 & _). mstep Ez.
  destruct z as [b|]; [|by intros [= _ <-]]. rewrite stub_none. by intros [= _ <-].
Qed.

Lemma inv_find uri r x r' : inv r -> getBinder_uri uri r = (x, r') -> inv r'.
Proof.
  intros Hr. unfold getBinder_uri. destruct uri as [u|]; [|by intros [= _ <-]].
  intros [->|(n & _ & H)]%lift_cases; [done|]. rewrite bind_get_state in H. destruct (mNodeId r =? n).
  - apply lift_cases in H as [->|(s & _ & H)]; [done|]. apply lift_cases in H as [->|(a & _ & H)]; [done|].
    revert H. unfold mbind, M_bind. destruct (find_binder s a r) as [y r1] eqn:E. apply inv_find_binder in E; [|done].
    by destruct y; intros [= _ <-].
  - revert H. unfold mbind, M_bind. destruct (create_proxy (Some u) r) as [y r1] eqn:E. apply create_proxy_quiet in E.
    destruct y; intros [= _ <-]; by apply (inv_quiet r).
Qed.

Lemma inv_get uri r x r' : inv r -> getService uri r = (x, r') -> inv r'.
Proof.
  intros Hr. unfold getService. destruct uri as [u|]; [|by intros [= _ <-]].
  intros [->|(v & _ & H)]%lift_cases; [done|]. apply lift_cases in H as [->|(k & _ & H)]; [done|].
  rewrite bind_get_state in H. destruct (mServices r !! k); [by injection H as _ <-|].
  apply lift_cases in H as [->|(a & _ & H)]; [done|]. destruct (mServices r !! _).
  - apply lift_cases in H as [->|(s & _ & H)]; [done|].
    rewrite (bind_Ok _ _ _ _ _ (stub_none _ _ _ _)) in H. by injection H as _ <-.
  - revert H. unfold mbind, M_bind. destruct (getProxy v r) as [y r1] eqn:E. apply getProxy_quiet in E.
    destruct y; intros [= _ <-]; by apply (inv_quiet r).
Qed.

(** What a call gives is not looked at. *)
Lemma bind_tt {A} (m : M Runtime A) r x r' :
  (m;; mret tt) r = (x, r') -> exists y, m r = (y, r') /\ (returned x -> returned y).
Proof.
  unfold mbind, M_bind. destruct (m r) as [y r1]. intros H. exists y. destruct y; injection H as <- <-; done.
Qed.

Lemma registry_step r r' : inv r -> step r r' -> inv r'.
Proof.
  intros Hr [c x r1 Hc H Hx]. destruct c as [|b d|[uri|] [b|]|b|id|uri|uri|b|b|b]; cbn in Hc, H.
  - apply bind_tt in H as (y & H & Hy). by eapply registry_new, Hy.
  - destruct Hc as (o & Hb & Ha & Hu & Hd & Hnull). by eapply inv_attach.
  - destruct Hc as [(o & Hb & Ha) Hfree]. by eapply inv_add.
  - by injection H as _ <-.
  - by injection H as _ <-.
  - by injection H as _ <-.
  - by eapply registry_remove.
  - apply bind_tt in H as (y & H & _). by eapply inv_number.
  - apply bind_tt in H as (y & H & _). by eapply inv_find.
  - apply bind_tt in H as (y & H & _). by eapply inv_get.
  - done.
  - by eapply inv_release.
  - by eapply inv_destroy.
Qed.

Lemma registry_start has_class n c r : 0 < n < 2 ^ 32 -> new_runtime has_class n c = Ok r -> inv r.
Proof.
  intros Hn. unfold new_runtime. rewrite (proj2 (Z.eqb_neq n 0)) by lia.
  assert (forall c ps ids, inv (mkRuntime n c ps ∅ ∅ ∅ ∅ 1 1 ids [])) as H.
  { intros c' ps ids. split; [done|by intros ? ? []| |by intros ? ? ? []| |];
      intros ? ? H; cbn [mBinderIds mBinderUris mServices] in H; by rewrite lookup_empty in H. }
  destruct c as [c|]; [|intros [= <-]; apply H]. destruct (Configuration.nodes c !! n); intros [= <-]; apply H.
Qed.

Definition reachable (n : Z) (c : option Configuration.Configuration) (r : Runtime) : Prop :=
  0 < n < 2 ^ 32 /\ exists has_class r0, new_runtime has_class n c = Ok r0 /\ rtc step r0 r.

Lemma registry_reachable n c r : reachable n c r -> inv r.
Proof.
  intros (Hn & has_class & r0 & H0 & Hs). assert (inv r0) as Hi by by eapply registry_start. clear H0.
  induction Hs as [|r0 r1 r Hst _ IH]; [done|]. apply IH. by eapply registry_step.
Qed.

(** Any URI with the text of the binder's finds it. *)
Lemma found_by_uri r b o u s v :
  inv r -> binders r !! b = Some o -> status o = Alive -> mUri o = Some u -> binder_uri s (mId o) u ->
  binder_uri s (mId o) v -> getBinder_uri (Some v) r = (Ok (Some (Local b)), r).
Proof.
  intros Hr Hb Ha Hu [_ Es _] Hv. assert (existing r b o) as He by (split; [done|by rewrite Ha]).
  destruct (inv_id r Hr b o He) as (Hid & En & _). destruct (inv_uri r Hr b o u He Hu) as (s' & Hs' & [_ Es' _] & Hk).
  assert (s' = s) as -> by congruence. pose proof Hv as [_ _ Ev].
  unfold getBinder_uri. rewrite (lift_Ok _ (node_of (mId o))) by by apply parse_node_ok.
  rewrite bind_get_state, En, Z.eqb_refl. rewrite (lift_Ok _ s) by by apply (scheme_characters s (mId o)).
  rewrite (lift_Ok _ (authority_text (mId o))).
  2: { rewrite Ev. apply characters_clean. apply dotted_clean; [apply node_of_range|apply low_range]. }
  unfold find_binder, get_uri. rewrite !bind_assoc, bind_get_state.
  change (s ++ chars "://" ++ authority_text (mId o)) with (binder_text s (mId o)).
  rewrite (Hk Ha), bind_ret, bind_assoc, (bind_Ok _ _ _ _ _ (promote_ok b o r Hb)). by rewrite decide_True.
Qed.

(** C25: As long as the callers of the runtime are [careful], whatever the order of their calls,
    those that throw included, a binder that lives is found under its number, with and without the
    node, and under its URI once it has one, no other binder that lives has its number, and nothing
    else is found under a number.  Careful callers attach an interface to a living binder only once,
    with a descriptor without NUL of less than 2^62 characters, add a service of the configuration
    only when no other binder that still exists has its number, make no copies of binders, and do not
    look for a number before a binder is given it, nor for [scheme://node.id] in a scheme other than
    mindroid before the binder has its URI; and the plugins make no stubs.  Without that it does not
    hold: see [stale_destructor], [copy_detaches] and [asked_too_early]. *)
Theorem binders_found n c r :
  reachable n c r ->
  (forall b o, binders r !! b = Some o -> status o = Alive ->
    getBinder (mId o) r = (Ok (Some b), r) /\ getBinder (getId o) r = (Ok (Some b), r) /\
    (forall u, mUri o = Some u -> getBinder_uri (Some u) r = (Ok (Some (Local b)), r)) /\
    (forall b' o', binders r !! b' = Some o' -> status o' = Alive -> mId o' = mId o -> b' = b)) /\
  (forall id b r', 0 <= id < 2 ^ 64 -> node_of id = mNodeId r -> getBinder id r = (Ok (Some b), r') ->
    exists o, binders r !! b = Some o /\ status o = Alive /\ mId o = id).
Proof.
  intros Hr%registry_reachable. pose proof (inv_node r Hr) as Hnode. split.
  - intros b o Hb Ha. assert (existing r b o) as He by (split; [done|by rewrite Ha]).
    destruct (inv_id r Hr b o He) as (Hid & En & Ei).
    assert (promote (Some b) r = (Ok (Some b), r)) as Ep by (rewrite (promote_ok b o) by done; by rewrite decide_True).
    unfold getId. rewrite (getBinder_whole r (mId o)) with (b := Some b), (getBinder_low r (mId o)) with (b := Some b), Ep
      by (done || lia).
    do 2 (split; [done|]). split.
    + intros u Hu. destruct (inv_uri r Hr b o u He Hu) as (s & Hs' & Hbu & Hk). by apply (found_by_uri r b o u s u).
    + intros b' o' Hb' Ha' E. apply (same_id r b' o' b o); [done|by split; [|rewrite Ha']|done|done].
  - intros id b r' Hid En.
    destruct (mBinderIds r !! id) as [[x|]|] eqn:E; [|by rewrite (getBinder_whole r id) with (b := None) by (done || lia)|
      by rewrite getBinder_absent by (done || lia)].
    destruct (inv_by_id r Hr id x E) as (_ & o & [Hb _] & <-).
    rewrite (getBinder_whole r (mId o)) with (b := Some x), (promote_ok x o) by (done || lia). case_decide as Ha; [|done]. intros [= <- _]. by exists o.
Qed.
End no_stubs.

(** ** From a name to the binder on another node *)

(** The descriptor a service announces: [scheme://interfaces/name?query]. *)
Definition interface_text (s n : list Z) (q : option (list Z)) : list Z :=
  URI.text (Some s) (Some (chars "interfaces")) (chars "/" ++ n) q None.

Definition name_ok (n : list Z) : Prop :=
  n <> [] /\ clean n /\ ascii n /\ URI.avoids "?#," n /\ Forall (fun c => is_space c = false) n.
#[local] Instance name_ok_dec n : Decision (name_ok n).
Proof. unfold name_ok, ascii. apply _. Defined.

Definition announcement_ok (s n : list Z) (q : option (list Z)) : Prop :=
  scheme_ok s /\ name_ok n /\ URI.option_all clean q /\ URI.option_all (URI.avoids "#") q /\
  Z.of_nat (List.length (interface_text s n q)) < 2 ^ 61.
#[local] Existing Instances URI.option_all_dec URI.avoids_dec.
#[local] Instance announcement_ok_dec s n q : Decision (announcement_ok s n q).
Proof. unfold announcement_ok. apply _. Defined.

Lemma trim_none l : ascii l -> Forall (fun c => is_space c = false) l -> trim (Some l) = Ok (Some l).
Proof.
  intros Ha Hs. destruct (trim_ok l Ha) as (pre & m & post & E & -> & Hp & _).
  assert (pre = [] /\ post = []) as [-> ->]; [|cbn in E; by rewrite app_nil_r in E; subst].
  rewrite E, !Forall_app in Hs. destruct Hs as (H1 & _ & H3). apply Forall_app in Hp as [H2 H4].
  split; [destruct pre as [|c pre]|destruct post as [|c post]]; [done| |done|].
  - apply Forall_cons_1 in H1 as [H1 _]. apply Forall_cons_1 in H2 as [H2 _]. congruence.
  - apply Forall_cons_1 in H3 as [H3 _]. apply Forall_cons_1 in H4 as [H4 _]. congruence.
Qed.

Section announcement.
Context (s n : list Z) (q : option (list Z)) (Hok : announcement_ok s n q).

Lemma interface_text_eq :
  interface_text s n q = s ++ chars "://interfaces/" ++ n ++ URI.opt (cons URI.QUESTION) q.
Proof.
  unfold interface_text, URI.text, URI.specific_text, URI.tail_text. cbn [URI.opt]. rewrite app_nil_r, <- !app_assoc. done.
Qed.

(** A URI with the scheme, the query and a path like the interface's, as the constructors make it. *)
Lemma interface_parts (auth pre : list Z) :
  auth <> [] -> URI.avoids "/?#" auth -> clean auth -> ascii auth -> chars "/" `prefix_of` pre ->
  URI.avoids "?#" pre -> clean pre -> Z.of_nat (List.length auth) + Z.of_nat (List.length pre) <= 100 ->
  exists u, URI.of_parts (Some (Some s)) (Some (Some auth)) (Some (Some (pre ++ n))) (Some <$> q) None = Ok u /\
    URI.of_spec (Some (Some (URI.text (Some s) (Some auth) (pre ++ n) q None))) = Ok u /\
    URI.mScheme u = Some (Some s) /\ URI.mAuthority u = Some (Some auth) /\ URI.mPath u = Some (Some (pre ++ n)) /\
    URI.mQuery u = Some <$> q.
Proof.
  intros Hne Hav Hc Hasc Hp Hpa Hpc Hl. destruct Hok as ((Hs1 & Hs2 & Hs3) & (Hn1 & Hn2 & Hn3 & Hn4 & _) & Hq1 & Hq2 & Hlen).
  destruct (URI.of_parts_ok (Some s) (Some auth) (pre ++ n) q None) as (u & E1 & E2 & _ & E4 & E5 & E6 & E7 & _).
  - split; [done|done| |done|by left|done|by destruct s].
    split; [|right; by apply prefix_app_r]. apply Forall_app. split; [done|].
    eapply Forall_impl; [exact Hn4|]. intros c Hc' Hin. apply Hc'. clear -Hin.
    change (c ∈ chars "?#") in Hin. change (c ∈ chars "?#" ++ [44]). apply elem_of_app. by left.
  - split; [done|]. split; [done|]. split; [by apply clean_app|done].
  - done.
  - rewrite interface_text_eq in Hlen. unfold URI.text, URI.specific_text, URI.tail_text. cbn [URI.opt].
    rewrite !length_app in *. change (List.length [URI.COLON]) with 1%nat. change (List.length (chars "//")) with 2%nat.
    change (List.length (chars "://interfaces/")) with 14%nat in Hlen. change (List.length (@nil Z)) with 0%nat. lia.
  - exists u. by destruct q.
Qed.

(** The proxy of the URI the runtime makes for the service. *)
Lemma new_proxy_ok node i u :
  0 <= node < 2 ^ 32 -> 0 <= i < 2 ^ 31 ->
  URI.mScheme u = Some (Some s) -> URI.mAuthority u = Some (Some (dotted node i)) ->
  URI.mPath u = Some (Some (chars "/if=" ++ n)) -> URI.mQuery u = Some <$> q ->
  exists v, new_proxy (Some u) = Ok (mkProxy 0 (global node i) (interface_text s n q) v) /\
    binder_uri s (global node i) v.
Proof.
  intros Hnode Hi Es Ea Ep Eq. destruct Hok as (Hs & (Hn1 & Hn2 & Hn3 & Hn4 & Hn5) & Hq1 & _ & Hlen).
  assert (authority_text (global node i) = dotted node i) as Et.
  { rewrite authority_dotted, node_of_global, low_global, low_id_small by lia. done. }
  unfold new_proxy. rewrite (parse_id_ok (global node i)); [cbn [mbind result_bind]|apply global_range; lia|by rewrite Et].
  assert (parse_descriptor u = Ok (interface_text s n q)) as ->.
  { unfold parse_descriptor. rewrite Ep. change (isEmpty (Some (chars "/if=" ++ n))) with false. cbn iota.
    rewrite substring_from_ok by (rewrite length_app; cbn; lia).
    change (drop (Z.to_nat 1) (chars "/if=" ++ n)) with (chars "if=" ++ n). cbn [mbind result_bind deref].
    assert (44 ∉ chars "if=" ++ n) as Hcomma.
    { rewrite elem_of_app. intros [H|H]; [revert H; decided|]. eapply URI.avoids_spec; [exact Hn4| |exact H]. decided. }
    assert (Z.of_nat (List.length (chars "if=" ++ n)) < 2 ^ 62) as Hl.
    { rewrite interface_text_eq in Hlen. rewrite !length_app in *. cbn [List.length] in *.
      change (List.length (chars "if=")) with 3%nat. lia. }
    assert (clean (chars "if=" ++ n)) as Hc by (apply clean_app; split; [decided|done]).
    change (URI.lit ",") with (Some [44; 0]). rewrite split_one by (done || lia). cbn [mbind result_bind].
    cbn [find_interface deref mbind result_bind].
    assert (indexOf_chars (Some (chars "if=" ++ n)) (URI.lit "=") = Ok 2) as ->.
    { change (URI.lit "=") with (Some ([61] ++ [0])). unfold indexOf_chars. cbn [c_str fmap option_fmap option_map].
      rewrite strstr_clean by (done || decided). done. }
    cbn [mbind result_bind Z.leb Z.compare].
    rewrite substring_ok by (rewrite ?length_app; cbn [List.length]; change (List.length (chars "if=")) with 3%nat; lia).
    change (slice (chars "if=" ++ n) 0 2) with (chars "if"). cbn [mbind result_bind deref].
    rewrite (trim_none (chars "if")) by decided. cbn [mbind result_bind].
    rewrite substring_from_ok by (rewrite ?length_app; change (List.length (chars "if=")) with 3%nat; lia).
    change (drop (Z.to_nat (2 + 1)) (chars "if=" ++ n)) with n. cbn [mbind result_bind deref].
    rewrite trim_none by done. cbn [mbind result_bind].
    assert (equals_chars (Some (chars "if")) (URI.lit "if") = Ok true) as -> by done. cbn [mbind result_bind].
    rewrite characters_clean by done. cbn [mbind result_bind]. rewrite Es, characters_clean by apply Hs.
    cbn [mbind result_bind]. rewrite Eq, interface_text_eq. destruct q as [t|]; cbn [fmap option_fmap option_map URI.opt].
    - rewrite characters_clean by done. done.
    - by rewrite app_nil_r. }
  cbn [mbind result_bind]. rewrite Es, characters_clean by apply Hs. cbn [mbind result_bind].
  rewrite Ea, characters_clean by (apply dotted_clean; lia). cbn [mbind result_bind].
  destruct (binder_uri_made s (global node i) Hs) as (v & _ & Ev & Hv). exists v. split; [|done].
  unfold binder_text in Ev. rewrite Et in Ev. by rewrite Ev.
Qed.
End announcement.

(** The name of a service: [scheme://name]. *)
Record service_name (uri : URI.URI) (s a k : list Z) : Prop := {
  name_scheme : URI.mScheme uri = Some (Some s);
  name_authority : URI.mAuthority uri = Some (Some a);
  name_string : URI.mString uri = Some (Some k);
  name_clean : clean a /\ clean k;
}.

Lemma service_uri_ok s n q uri a k c :
  announcement_ok s n q -> service_name uri s a k ->
  Configuration.announcements c !! s = Some (interface_text s n q) ->
  0 <= Configuration.node c < 2 ^ 32 -> 0 <= Configuration.id c < 2 ^ 31 ->
  exists u, service_uri uri c = Ok u /\ URI.mScheme u = Some (Some s) /\
    URI.mAuthority u = Some (Some (dotted (Configuration.node c) (Configuration.id c))) /\
    URI.mPath u = Some (Some (chars "/if=" ++ n)) /\ URI.mQuery u = Some <$> q.
Proof.
  intros Hok [Es _ _ _] Ha Hnode Hi. pose proof Hok as ((_ & Hs & _) & (_ & Hn & _) & _).
  unfold service_uri. rewrite Es, characters_clean by done. cbn [mbind result_bind]. rewrite Ha.
  destruct (interface_parts s n q Hok (chars "interfaces") (chars "/")) as (d & _ & Ed & _ & _ & Ep & Eq);
    [done|decided|decided|decided|by exists []|decided|decided|cbn; lia|].
  unfold interface_text. change (Some <$> Some ?t) with (Some (Some t)). rewrite Ed. cbn [mbind result_bind].
  rewrite Ep. cbn [deref mbind result_bind]. rewrite substring_from_ok by (rewrite length_app; cbn; lia).
  change (drop (Z.to_nat 1) (chars "/" ++ n)) with n. cbn [mbind result_bind]. rewrite characters_clean by done.
  cbn [mbind result_bind]. rewrite Eq.
  destruct (interface_parts s n q Hok (dotted (Configuration.node c) (Configuration.id c)) (chars "/if="))
    as (u & Eu & _ & E1 & E2 & E3 & E4).
  - by apply dotted_nonempty.
  - apply dotted_avoids; [done|lia|decided].
  - apply dotted_clean; lia.
  - apply dotted_ascii; lia.
  - by exists (chars "if=").
  - decided.
  - decided.
  - pose proof (dotted_length (Configuration.node c) (Configuration.id c)). change (List.length (chars "/if=")) with 4%nat. lia.
  - exists u. split; [exact Eu|]. by split_and!.
Qed.

(** A service of another node, by name. *)
Lemma getService_remote s n q uri a k c cf r :
  announcement_ok s n q -> service_name uri s a k ->
  mConfiguration r = Some cf -> Configuration.services cf !! a = Some c ->
  Configuration.announcements c !! s = Some (interface_text s n q) ->
  0 <= Configuration.node c < 2 ^ 32 -> 0 <= Configuration.id c < 2 ^ 31 ->
  mServices r !! k = None -> mServices r !! (MINDROID_SCHEME ++ chars "://" ++ a) = None ->
  mNameResolutionCache r !! k = None ->
  let id := global (Configuration.node c) (Configuration.id c) in
  exists p r', getService (Some uri) r = (Ok (Some (Remote p)), r') /\ proxy_id p = id /\
    proxy_descriptor p = interface_text s n q /\ binder_uri s id (proxy_uri p).
Proof.
  intros Hok Hname Hcf Hc Ha Hnode Hi H1 H2 H3 id. pose proof Hname as [Es Ea Ek [Hca Hck]].
  destruct (service_uri_ok s n q uri a k c Hok Hname Ha Hnode Hi) as (u & Eu & Eu1 & Eu2 & Eu3 & Eu4).
  destruct (new_proxy_ok s n q Hok _ _ u Hnode Hi Eu1 Eu2 Eu3 Eu4) as (v & Ev & Hv).
  unfold getService. rewrite (lift_Ok _ uri) by (unfold with_scheme; by rewrite Es).
  rewrite (lift_Ok _ k) by (rewrite Ek; by apply characters_clean). rewrite bind_get_state, H1.
  rewrite (lift_Ok _ a) by (rewrite Ea; by apply characters_clean). rewrite H2.
  assert (exists p r', getProxy uri r = (Ok (Some p), r') /\ proxy_id p = id /\
    proxy_descriptor p = interface_text s n q /\ proxy_uri p = v) as (p & r' & E & Ep1 & Ep2 & Ep3).
  { unfold getProxy. rewrite (lift_Ok _ k) by (rewrite Ek; by apply characters_clean).
    rewrite bind_get_state, H3, Hcf. rewrite (lift_Ok _ a) by (rewrite Ea; by apply characters_clean). rewrite Hc.
    unfold or_null. rewrite (lift_Ok _ u) by done. unfold create_proxy. rewrite bind_assoc.
    rewrite (lift_Ok _ _ _ r Ev). by eexists _, _. }
  mstep E. eexists p, r'. split; [done|]. split; [done|]. split; [done|]. by rewrite Ep3.
Qed.

Lemma addService_configured uri s a k b o u c cf node r :
  service_name uri s a k -> inv r -> existing r b o -> mUri o = Some u -> URI.mScheme u = Some (Some s) ->
  mConfiguration r = Some cf -> Configuration.nodes cf !! mNodeId r = Some node ->
  Configuration.node_services node !! a = Some c -> mServices r !! k = None ->
  exists r' o' u', addService (Some uri) (Some b) r = (Ok tt, r') /\ binders r' !! b = Some o' /\
    status o' = status o /\ mId o' = global (mNodeId r) (Configuration.id c) /\ mUri o' = Some u' /\
    binder_uri s (mId o') u' /\ mServices r' !! k = Some b.
Proof.
  intros [Es Ea Ek [Hca Hck]] Hr He Hu Hs Hcf Hn Hc Hk. pose proof He as [Hb _].
  destruct (inv_uri r Hr b o u He Hu) as (s' & Hs' & Hbu & _). assert (s' = s) as -> by (destruct Hbu; congruence).
  destruct (renumber_ok b o u s c r He Hr Hu Hs' Hbu) as (u' & Hbu' & E).
  set (o' := mkBinder _ (Some u') _ _) in E. set (r1 := set_uris _ _) in E.
  exists (set_services (<[k := b]>) r1), o', u'. split.
  - unfold addService. mstep (binder_ok b o r Hb). rewrite Hu, Es, Hs.
    rewrite (lift_Ok _ true).
    2: { rewrite string_equals_ok by apply Hs'. by rewrite bool_decide_true. }
    cbn [negb]. rewrite throw_if_false by done.
    rewrite (lift_Ok _ k) by (rewrite Ek; by apply characters_clean). rewrite bind_get_state, Hk, Hcf, Hn, bind_assoc.
    rewrite (lift_Ok _ a) by (rewrite Ea; by apply characters_clean). rewrite Hc. by mstep E.
  - split; [apply list_lookup_insert_eq; by eapply lookup_lt_Some|]. do 4 (split; [done|]). apply lookup_insert_eq.
Qed.

Section reached.
Context (no_stubs : forall s b, getStub s b = None).

(** C26: Two nodes have the configuration that was read from the same document, in which every node has
    its services, as it has when the nodes come before the services; the server is the node of the service, its callers are [careful], and a
    living binder with an interface of the service's scheme is added under the service's name, which
    is not taken, while no other binder that still exists has the service's number.  Then the name
    finds that binder from the other node: the proxy [getService] makes, where the client has neither
    a service nor a cached URI for the name, has the number the configuration gives and the descriptor
    the service announces for the scheme, [scheme://interfaces/name] with or without a query, and the
    proxy's URI, looked up on the server, is that of the binder itself.  Plugins make no stubs; the
    announced name is of ASCII characters other than spaces, commas, [?] and [#]. *)
Theorem service_reached doc cf a c s n q k uri (client server : Runtime) b o u :
  Configuration.read doc = Ok (Some cf) -> Configuration.announced cf ->
  Configuration.services cf !! a = Some c -> Configuration.announcements c !! s = Some (interface_text s n q) ->
  announcement_ok s n q -> service_name uri s a k ->
  mConfiguration client = Some cf -> mServices client !! k = None ->
  mServices client !! (MINDROID_SCHEME ++ chars "://" ++ a) = None -> mNameResolutionCache client !! k = None ->
  reachable (Configuration.node c) (Some cf) server -> mNodeId server = Configuration.node c ->
  mConfiguration server = Some cf -> mServices server !! k = None ->
  binders server !! b = Some o -> status o = Alive -> mUri o = Some u -> URI.mScheme u = Some (Some s) ->
  let id := global (Configuration.node c) (Configuration.id c) in
  (forall b' o', existing server b' o' -> mId o' = id -> b' = b) ->
  exists p client' server',
    getService (Some uri) client = (Ok (Some (Remote p)), client') /\
    proxy_id p = id /\ proxy_descriptor p = interface_text s n q /\
    addService (Some uri) (Some b) server = (Ok tt, server') /\
    getBinder_uri (Some (proxy_uri p)) server' = (Ok (Some (Local b)), server').
Proof.
  intros Hread Hann Hc Hd Hok Hname Hcf H1 H2 H3 Hreach Hnode Hcfs Hk Hb Ha Hu Hs id Hfree.
  destruct (Configuration.configuration_read doc cf Hread) as [On Ons Os Ok'].
  destruct (Os a c Hc) as (_ & _ & Hid). destruct (Ok' a c Hc) as [node Hn].
  destruct (On _ _ Hn) as [_ Hrange]. pose proof (Hann a c Hc) as E. cbn beta in E. rewrite Hn in E. cbn in E.
  destruct (getService_remote s n q uri a k c cf client) as (p & client' & Ep & E1 & E2 & E3); [done|done|done|done|done|lia|done..|].
  pose proof (registry_reachable no_stubs _ _ _ Hreach) as Hr.
  assert (existing server b o) as He by (split; [done|by rewrite Ha]).
  destruct (addService_configured uri s a k b o u c cf node server) as (server' & o' & u' & Es & Hb' & Ha' & Ei & Hu' & Hbu' & _);
    try done; [by rewrite Hnode|].
  exists p, client', server'. do 4 (split; [done|]).
  assert (inv server') as Hr'.
  { apply (inv_add uri b o server (Ok tt)); [done..| |done]. intros a' c' x y Ea' Hc' Hx Hy. apply (Hfree x y Hx).
    destruct Hname as [_ Eauth _ [Hca _]]. rewrite Eauth, characters_clean in Ea' by done. injection Ea' as <-.
    unfold configured in Hc'. rewrite Hcfs in Hc'. cbn [mbind option_bind] in Hc'. rewrite Hnode, Hn in Hc'. cbn in Hc'.
    assert (c' = c) as -> by congruence. by rewrite Hy, Hnode. }
  apply (found_by_uri server' b o' u' s); [done|done|by rewrite Ha'|done|done|]. by rewrite Ei, Hnode.
Qed.
End reached.

(** ** Numbers that two binders have *)

(** A destructor gives back the number its binder has even if another binder has it
    by now: the other one, alive as it is, is no longer found under its number, which is free for
    the next binder. *)
Theorem stale_destructor b b' o o' r r' :
  b <> b' -> binders r !! b = Some o -> status o = Dead -> binders r !! b' = Some o' -> status o' = Alive ->
  mId o' = mId o -> 0 < mNodeId r < 2 ^ 32 -> 0 <= mId o < 2 ^ 64 -> node_of (mId o) = mNodeId r ->
  destroy b r = (Ok tt, r') ->
  binders r' !! b' = Some o' /\ fst (getBinder (mId o') r') = Ok None /\ mId o' ∉ mIds r'.
Proof.
  intros Hne Hb Hd Hb' Ha E Hn Hid En. unfold destroy. mstep (binder_ok b o r Hb). rewrite decide_True by done.
  assert (forall x r1, detachBinder (mId o) (mUri o) r = (x, r1) ->
    mNodeId r1 = mNodeId r /\ binders r1 = binders r /\ mBinderIds r1 = delete (mId o) (mBinderIds r) /\
    mIds r1 = mIds r ∖ {[mId o]}) as Hdet.
  { intros x r1. unfold detachBinder. rewrite bind_modify. destruct (mUri o) as [u|]; [|by intros [= _ <-]].
    unfold lift. destruct (characters (URI.mString u)); by intros [= _ <-]. }
  unfold mbind at 1, M_bind at 1. destruct (detachBinder (mId o) (mUri o) r) as [x r1].
  destruct (Hdet x r1 eq_refl) as (E1 & E2 & E3 & E4). destruct x; [|done..].
  set (o1 := mkBinder (mId o) (mUri o) (mDescriptor o) Gone). intros [= <-].
  split; [cbn; by rewrite list_lookup_insert_ne, E2|]. rewrite E. split; [|cbn; set_solver].
  rewrite getBinder_absent; [done|done|by cbn; rewrite E1|]. cbn. by rewrite E3, lookup_delete_eq.
Qed.
(** ** Null pointers in the tables *)

Lemma get_absent key r :
  mBinderUris r !! key = None -> (get_uri key ≫= promote) r = (Ok None, set_uris (<[key := None]>) r).
Proof. intros H. unfold get_uri. by rewrite bind_assoc, bind_get_state, H. Qed.

Lemma get_null key r : mBinderUris r !! key = Some None -> (get_uri key ≫= promote) r = (Ok None, r).
Proof. intros H. unfold get_uri. by rewrite bind_assoc, bind_get_state, H. Qed.

Lemma find_other s a r :
  s <> MINDROID_SCHEME -> mBinderUris r !! (s ++ chars "://" ++ a) = None ->
  mBinderUris r !! (MINDROID_SCHEME ++ chars "://" ++ a) = None ->
  exists r0, find_binder s a r = (Ok None, r0) /\ mNodeId r0 = mNodeId r /\ binders r0 = binders r /\
    mBinderUris r0 !! (MINDROID_SCHEME ++ chars "://" ++ a) = Some None.
Proof.
  intros Hne Hk Hm. unfold find_binder. rewrite <- bind_assoc, (bind_Ok _ _ _ _ _ (get_absent _ _ Hk)).
  rewrite bind_modify, decide_False by done. set (r1 := set_uris _ _).
  assert (mBinderUris r1 !! (MINDROID_SCHEME ++ chars "://" ++ a) = None) as H1.
  { change (mBinderUris r1) with (delete (s ++ chars "://" ++ a) (<[s ++ chars "://" ++ a := None]> (mBinderUris r))).
    destruct (decide (MINDROID_SCHEME ++ chars "://" ++ a = s ++ chars "://" ++ a)) as [E|Hn]; [rewrite E; apply lookup_delete_eq|].
    by rewrite lookup_delete_ne, lookup_insert_ne. }
  rewrite <- bind_assoc, (bind_Ok _ _ _ _ _ (get_absent _ _ H1)). eexists. split; [reflexivity|]. do 2 (split; [done|]).
  apply lookup_insert_eq.
Qed.

Lemma find_null a r :
  mBinderUris r !! (MINDROID_SCHEME ++ chars "://" ++ a) = Some None ->
  find_binder MINDROID_SCHEME a r = (Ok None, set_uris (delete (MINDROID_SCHEME ++ chars "://" ++ a)) r).
Proof.
  intros H. unfold find_binder. rewrite <- bind_assoc, (bind_Ok _ _ _ _ _ (get_null _ _ H)).
  by rewrite bind_modify, decide_True.
Qed.

(** C24: Somebody asks for the URI of a binder that has no URI yet, with a scheme other than
    mindroid, as the server of [Transactions] does with whatever another node sends.  The answer is
    that there is no such binder, but the lookup leaves a null pointer under [mindroid://node.id];
    when the binder attaches its interface, the runtime takes that for a binder and does not enter
    it: alive and with its URI as it is, it is not found by it. *)
Theorem asked_too_early b o d u v s r :
  binders r !! b = Some o -> 0 <= mId o < 2 ^ 64 -> node_of (mId o) = mNodeId r ->
  interface_uri (mId o) d = Ok u -> binder_uri MINDROID_SCHEME (mId o) u ->
  URI.mScheme v = Some (Some s) -> URI.mAuthority v = Some (Some (authority_text (mId o))) ->
  clean s -> s <> MINDROID_SCHEME ->
  mBinderUris r !! binder_text s (mId o) = None -> mBinderUris r !! binder_text MINDROID_SCHEME (mId o) = None ->
  let r1 := exec (getBinder_uri (Some v)) r in
  let r2 := exec (attachInterface b d) r1 in
  outcome (getBinder_uri (Some v)) r = Ok None /\ outcome (attachInterface b d) r1 = Ok tt /\
  binders r2 !! b = Some (mkBinder (mId o) (Some u) d (status o)) /\ outcome (getBinder_uri (Some u)) r2 = Ok None.
Proof.
  intros Hb Hid En Eu Hu Hs Ha Hc Hne Hk Hm r1 r2. set (key := binder_text MINDROID_SCHEME (mId o)) in *.
  assert (scheme_ok MINDROID_SCHEME) as Hms by decided.
  assert (clean (authority_text (mId o))) as Hca by (apply dotted_clean; [apply node_of_range|apply low_range]).
  assert (exists r0, getBinder_uri (Some v) r = (Ok None, r0) /\ mNodeId r0 = mNodeId r /\ binders r0 = binders r /\
    mBinderUris r0 !! key = Some None) as (r0 & E & E1 & E2 & E3).
  { destruct (find_other s (authority_text (mId o)) r) as (r0 & E & ?); [done..|]. exists r0. split; [|done].
    unfold getBinder_uri. rewrite (lift_Ok _ (node_of (mId o))) by by apply parse_node_ok.
    rewrite bind_get_state, En, Z.eqb_refl. rewrite (lift_Ok _ s) by (rewrite Hs; by apply characters_clean).
    rewrite (lift_Ok _ (authority_text (mId o))) by (rewrite Ha; by apply characters_clean). by mstep E. }
  assert (r1 = r0) as -> by (unfold r1, exec; by rewrite E). unfold outcome at 1. rewrite E. split; [done|].
  set (o2 := mkBinder (mId o) (Some u) d (status o)).
  assert (attachInterface b d r0 = (Ok tt, set_binders (<[b := o2]>) r0)) as Ea.
  { unfold attachInterface. rewrite <- E2 in Hb. mstep (binder_ok b o r0 Hb). rewrite bind_update, Eu, bind_update.
    rewrite set_binders_twice. fold o2. unfold attachBinder_uri.
    assert (binders (set_binders (<[b := o2]>) r0) !! b = Some o2) as Hb2 by (apply binders_update; by exists o).
    mstep (binder_ok b o2 _ Hb2). cbn [mUri o2].
    rewrite (lift_Ok _ key) by by apply (binder_uri_key MINDROID_SCHEME). rewrite bind_get_state. cbn [mBinderUris set_binders].
    by rewrite E3. }
  assert (r2 = set_binders (<[b := o2]>) r0) as -> by (unfold r2, exec; by rewrite Ea).
  unfold outcome at 1. rewrite Ea. split; [done|]. split; [apply binders_update; rewrite E2; by exists o|].
  unfold outcome, getBinder_uri. destruct Hu as [_ Eus Eua]. set (r4 := set_binders _ r0).
  rewrite (lift_Ok _ (node_of (mId o))) by by apply parse_node_ok. rewrite bind_get_state.
  change (mNodeId r4) with (mNodeId r0). rewrite E1, En, Z.eqb_refl.
  rewrite (lift_Ok _ MINDROID_SCHEME) by (rewrite Eus; apply characters_clean; decided).
  rewrite (lift_Ok _ (authority_text (mId o))) by (rewrite Eua; by apply characters_clean).
  by rewrite (bind_Ok _ _ _ _ _ (find_null (authority_text (mId o)) r4 E3)).
Qed.
End registry.
End Registry.

(** ** Two nodes *)

Module RuntimeExample.
Import Registry.

(** The plugin of the repository makes no stubs. *)
(* runtime/system/Mindroid.h:68-70 Mindroid::getStub *)
Definition mindroid_getStub (scheme : list Z) (b : nat) : option nat := None.
#[local] Instance no_stub : Plugins := {| getStub := mindroid_getStub |}.
#[local] Existing Instances Configuration.example_values Configuration.example_numbers.

Definition start (n : Z) : Runtime :=
  match new_runtime (fun _ => true) n (Some Configuration.example) with
  | Ok r => r
  | _ => mkRuntime 0 None ∅ ∅ ∅ ∅ ∅ 0 0 ∅ []
  end.
Definition uri (t : string) : URI.URI := match URI.of_spec (Some (Some (chars t))) with Ok u => u | _ => URI.blank end.
Definition echo : URI.URI := uri "mindroid://echo".
Definition descriptor : sp := Some (Some (chars "mindroid://interfaces/examples/IEcho")).

Definition server1 : Runtime := exec new_binder (start 1).
Definition server : Runtime := exec (attachInterface 0 descriptor) server1.

Lemma server_reachable : reachable 1 (Some Configuration.example) server.
Proof.
  split; [lia|]. exists (fun _ => true), (start 1). split; [vm_compute; reflexivity|].
  apply (rtc_l _ _ server1); [apply (step_call _ New (Ok tt)); [|vm_compute; reflexivity|done]|].
  { assert (mBinderIds (start 1) = ∅) as E by (vm_compute; reflexivity). cbn [careful]. rewrite E, dom_empty. apply empty_subseteq. }
  apply (rtc_l _ _ server); [|apply rtc_refl].
  apply (step_call _ (Attach 0 descriptor) (Ok tt)); [|vm_compute; reflexivity|done].
  exists (mkBinder (global 1 1) None None Alive). split; [vm_compute; reflexivity|]. do 2 (split; [done|]). split; [split; decided|].
  intros u k _ _. assert (mBinderUris server1 = ∅) as -> by (vm_compute; reflexivity). by rewrite lookup_empty.
Defined.

Lemma attach_fresh_witness :
  let r := start 1 in let r1 := set_binders (fun _ => [mkBinder 0 None None Alive]) r in
  exists k r', let id := id_at r1 k in
    attachBinder 0 r1 = (Ok id, r') /\ id ∉ mIds r1 /\ (forall j, (j < k)%nat -> id_at r1 j ∈ mIds r1) /\
    node_of id = mNodeId r1 /\ mIds r' = {[id]} ∪ mIds r1 /\
    getBinder id r' = (Ok (Some 0%nat), r') /\ getBinder (low id) r' = (Ok (Some 0%nat), r').
Proof. intros r r1. apply (attach_fresh 0 (mkBinder 0 None None Alive) r1); first [decided | reflexivity]. Defined.

Definition binder_at (r : Runtime) (b : nat) : Binder := default (mkBinder 0 None None Gone) (binders r !! b).
Definition echo_binder : Binder := Eval vm_compute in binder_at server 0.
Definition echo_uri : URI.URI := Eval vm_compute in uri "mindroid://1.1".

Lemma binders_found_witness :
  binders server !! 0%nat = Some echo_binder /\ mUri echo_binder = Some echo_uri /\ getId echo_binder = 1 /\
  getBinder_uri (Some echo_uri) server = (Ok (Some (Local 0)), server).
Proof.
  assert (binders server !! 0%nat = Some echo_binder) as Hb by (vm_compute; reflexivity).
  split; [exact Hb|]. split; [reflexivity|]. split; [reflexivity|].
  exact (proj1 (proj2 (proj2 (proj1 (binders_found (fun _ _ => eq_refl) 1 _ server server_reachable) 0%nat
    echo_binder Hb eq_refl))) echo_uri eq_refl).
Defined.

Definition echo_service : Configuration.Service :=
  Eval vm_compute in default (Configuration.mkService 0 0 [] ∅) (Configuration.services Configuration.example !! chars "echo").

Lemma service_reached_witness :
  exists p client' server',
    getService (Some echo) (start 2) = (Ok (Some (Remote p)), client') /\
    proxy_id p = global 1 7 /\ proxy_descriptor p = interface_text (chars "mindroid") (chars "examples/IEcho") None /\
    addService (Some echo) (Some 0%nat) server = (Ok tt, server') /\
    getBinder_uri (Some (proxy_uri p)) server' = (Ok (Some (Local 0)), server').
Proof.
  refine (service_reached (fun _ _ => eq_refl) Configuration.example_doc Configuration.example (chars "echo")
    echo_service (chars "mindroid") (chars "examples/IEcho") None (chars "mindroid://echo") echo (start 2) server 0
    echo_binder echo_uri _ _ _ _ _ _ _ _ _ _ server_reachable _ _ _ _ _ _ _ _).
  5: decided.
  2: exact Configuration.example_announced.
  4: split; [vm_compute; reflexivity..|split; decided].
  all: try (vm_compute; reflexivity).
  intros b' o' [Hb _] _. destruct b' as [|b']; [done|]. exfalso.
  assert (List.length (binders server) = 1%nat) as Hl by (vm_compute; reflexivity).
  apply lookup_lt_Some in Hb. lia.
Defined.

(** The service is removed and its binder dropped; before the destructor runs, a new binder takes the
    name. *)
Definition replaced : Runtime :=
  exec (addService (Some echo) (Some 0%nat);; removeService (Some 0%nat);; release 0;;
        b ← new_binder; attachInterface b descriptor;; addService (Some echo) (Some b)) server.
Lemma stale_destructor_witness :
  let r' := exec (destroy 0) replaced in
  getService (Some echo) r' = (Ok (Some (Local 1)), r') /\
  binders r' !! 1%nat = Some (binder_at replaced 1) /\
  fst (getBinder (mId (binder_at replaced 1)) r') = Ok None /\ mId (binder_at replaced 1) ∉ mIds r'.
Proof.
  intros r'. split; [vm_compute; reflexivity|].
  apply (stale_destructor 0 1 (binder_at replaced 0) (binder_at replaced 1) replaced r');
    first [decided | vm_compute; reflexivity].
Defined.

(** A copy takes its original with it. *)
Lemma copy_detaches :
  let r := exec (b ← copy_binder 0; release b;; destroy b) server in
  status (binder_at r 0) = Alive /\ getBinder (global 1 1) server = (Ok (Some 0%nat), server) /\
  fst (getBinder (global 1 1) r) = Ok None.
Proof. by vm_compute. Qed.

(** Another node asks for the echo server before it attaches its interface. *)
Lemma asked_too_early_witness :
  let early := exec (getBinder_uri (Some (uri "xmpp://1.1"))) server1 in
  let late := exec (attachInterface 0 descriptor) early in
  getBinder_uri (Some echo_uri) server = (Ok (Some (Local 0)), server) /\
  binders late !! 0%nat = Some echo_binder /\ outcome (getBinder_uri (Some echo_uri)) late = Ok None.
Proof.
  intros early late. split; [vm_compute; reflexivity|].
  destruct (asked_too_early 0 (mkBinder (global 1 1) None None Alive) descriptor echo_uri (uri "xmpp://1.1") (chars "xmpp") server1)
    as (_ & _ & Hb & Hu); [vm_compute; reflexivity|decided|vm_compute; reflexivity..|split; vm_compute; reflexivity
      |vm_compute; reflexivity|vm_compute; reflexivity|decided|decided|vm_compute; reflexivity|vm_compute; reflexivity|].
  split; [exact Hb|exact Hu].
Defined.

(** The number 7 is reserved for the service, until it has been destroyed for the first time. *)
Lemma reserved_reused :
  let r := exec (addService (Some echo) (Some 0%nat);; removeService (Some 0%nat);; release 0;; destroy 0) server in
  let r7 := set_generators 7 1 r in
  global 1 7 ∈ mIds server /\ global 1 7 ∉ mIds r /\ outcome (attachBinder 1) r7 = Ok (global 1 7).
Proof. split; [decided|]. split; [decided|]. by vm_compute. Qed.
End RuntimeExample.
