(* ===== verification/SocketStreams.v ===== *)
(** * net/Socket.cpp: the byte streams of a connected socket

    The streams read and write through the operating system, which may take or deliver fewer bytes
    than it is asked to: [Kernel] is what its calls answer and [Connected] what POSIX says of them
    while a connection stands.  The streams implement the interfaces of [Streams] over every such
    kernel. *)

From S2P Require Import Prelude ByteArrays Streams.
Open Scope Z_scope.

Module Kernels.
Import ByteArray.

(** The answers of the operating system: of [send], for the bytes sent so far and those offered, and of
    [recv], for the bytes that are still to come and the room for them.  A negative answer is an
    error. *)
Class Kernel := {
  send : list Z -> list Z -> Z;
  recv : list Z -> Z -> Z;
}.

(** A blocking [send] takes at least one byte; a blocking [recv] delivers at least one byte and answers 0
    at the end of the stream. *)
Class Connected `{Kernel} := {
  send_takes : forall done bs, bs <> [] -> 0 < send done bs <= zlen bs;
  recv_gives : forall bs n, 0 < n -> bs <> [] -> 0 < recv bs n <= Z.min n (zlen bs);
  recv_end : forall n, 0 < n -> recv [] n = 0;
}.
End Kernels.

Module SocketOutputStream.
Import Kernels Bytes ByteArray Streams.

Section SocketOutputStream.
Context `{Kernel}.

(** What [getFd] answers, -1 for a closed socket, and the bytes handed to the connection. *)
(* net/Socket.h:335-365 SocketOutputStream *)
Record SocketOutputStream := mkOut {
  getFd : Z;
  sent : list Z;
}.

Definition set_sent (bs : list Z) (o : SocketOutputStream) : SocketOutputStream := mkOut (getFd o) bs.

(** A call that takes nothing is repeated with the same bytes: it takes nothing for ever. *)
(* net/Socket.cpp:311-329 SocketOutputStream::write *)
Definition write_byte (b : Z) : M (heap * SocketOutputStream) unit :=
  o ← this id;
  throw_if (getFd o =? -1) IOException;;
  let rc := send (sent o) [u8 b] in
  throw_if (rc <? 0) IOException;;
  if rc =? 0 then diverge else update (set_sent (sent o ++ [u8 b])).

(* net/Socket.cpp:346-359 SocketOutputStream::write (loop) *)
Fixpoint sendLoop (fuel : nat) (b : nat) (offset count : Z) : M (heap * SocketOutputStream) unit :=
  match fuel with
  | O => diverge
  | Datatypes.S fuel =>
      bs ← onHeap (readRaw b offset count);
      done ← this sent;
      let rc := send done bs in
      throw_if (rc <? 0) IOException;;
      update (set_sent (done ++ take (Z.to_nat rc) bs));;
      let offset := u64 (offset + rc) in
      let count := u64 (count - rc) in
      if 0 <? count then sendLoop fuel b offset count else mret tt
  end.

(** Each call takes at least one byte: [count] calls are enough. *)
(* net/Socket.cpp:331-360 SocketOutputStream::write *)
Definition write_array (buffer : option nat) (offset count : Z) : M (heap * SocketOutputStream) unit :=
  match buffer with
  | None => throw NullPointerException
  | Some b =>
      n ← onHeap (size b);
      throw_if (n <? u64 (offset + count)) IndexOutOfBoundsException;;
      fd ← this getFd;
      throw_if (fd =? -1) IOException;;
      if count =? 0 then mret tt else sendLoop (Z.to_nat count) b offset count
  end.

(** [OutputStream::flush] does nothing. *)
#[export] Instance ops : OutputStream SocketOutputStream :=
  {| Streams.write_array := write_array; Streams.write_byte := write_byte; Streams.flush := mret tt |}.
End SocketOutputStream.

Section spec.
Context `{Connected}.

Lemma sendLoop_ok fuel b bs : forall h fd done off n,
  h !! b = Some bs -> zlen bs < MAX -> 0 <= off -> 0 < n -> off + n <= zlen bs -> (Z.to_nat n <= fuel)%nat ->
  sendLoop fuel b off n (h, mkOut fd done) = (Ok tt, (h, mkOut fd (done ++ slice off n bs))).
Proof.
  induction fuel as [|fuel IH]; intros h fd done off n Hb Hm Ho Hn Hl Hf; [lia|]. unfold MAX in Hm. cbn [sendLoop].
  mstep (onHeap_read _ (h, mkOut fd done) _ (readRaw_eq _ _ _ off n Hb Ho ltac:(lia) Hl)).
  unfold this. rewrite bind_gets. cbn [snd sent].
  assert (zlen (slice off n bs) = n) as Hz by (apply zlen_slice; lia).
  destruct (send_takes done (slice off n bs)) as [Hpos Hle].
  { intros E. rewrite E in Hz. unfold zlen in Hz. cbn in Hz. lia. }
  set (rc := send done (slice off n bs)) in *. rewrite throw_if_false by (apply Z.ltb_ge; lia).
  unfold update. rewrite bind_modify. cbn [fst snd set_sent getFd]. rewrite Hz in Hle.
  unfold set_sent.
  rewrite !u64_id, take_slice by lia. cbn [getFd]. destruct (Z.ltb_spec 0 (n - rc)).
  - rewrite IH by (done || (unfold MAX; lia)). do 3 f_equal. rewrite <- app_assoc. f_equal.
    rewrite <- slice_app by lia. f_equal. lia.
  - by replace rc with n by lia.
Qed.

#[export] Program Instance spec : OutputStreamSpec SocketOutputStream :=
  {| ovalid _ o := getFd o <> -1 /\ Forall is_byte (sent o); sink _ o := sent o; oowned _ _ := False |}.
Next Obligation.
  intros h [fd done] b bs off n [Hfd Hby] Hb _ Hbs Hsz Ho Hn Hl Hm. cbn in Hfd, Hby, Hm. unfold MAX in *.
  exists h, (mkOut fd (done ++ slice off n bs)). split.
  - cbn. unfold write_array. mstep (onHeap_read _ (h, mkOut fd done) _ (size_eq _ _ _ Hb)).
    rewrite throw_if_false by (apply Z.ltb_ge; rewrite u64_id; lia). unfold this. rewrite bind_gets. cbn [snd getFd].
    rewrite throw_if_false by (by apply Z.eqb_neq). destruct (Z.eqb_spec n 0) as [->|].
    + change (slice off 0 bs) with (@nil Z). by rewrite app_nil_r.
    + apply sendLoop_ok; [done|unfold MAX; lia|lia..].
  - split; [|split; [done|apply preserves_refl]].
    split; [done|]. cbn. apply Forall_app. split; [done|by apply slice_bytes].
Qed.
Next Obligation.
  intros h [fd done] v [Hfd Hby] _. cbn in Hfd, Hby. exists h, (mkOut fd (done ++ [u8 v])). split.
  - cbn. unfold write_byte, this. rewrite bind_gets. cbn [id snd getFd sent].
    rewrite throw_if_false by (by apply Z.eqb_neq).
    destruct (send_takes done [u8 v]) as [Hpos _]; [done|]. rewrite throw_if_false by (apply Z.ltb_ge; lia).
    by destruct (Z.eqb_spec (send done [u8 v]) 0); [lia|].
  - split; [|split; [done|apply preserves_refl]].
    split; [done|]. cbn. apply Forall_app. split; [done|by repeat constructor; apply u8_range].
Qed.
Next Obligation. intros h o Hv _. exists h, o. do 3 (split; [done|]). apply preserves_refl. Qed.
Next Obligation. done. Qed.
Next Obligation. done. Qed.
End spec.
End SocketOutputStream.

Module SocketInputStream.
Import Kernels Bytes ByteArray Streams.

Section SocketInputStream.
Context `{Kernel}.

(** [getFd] as above, and the bytes of the connection that are still to be read. *)
(* net/Socket.h:302-333 SocketInputStream *)
Record SocketInputStream := mkIn {
  getFd : Z;
  coming : list Z;
}.

(** The bytes [recv] stores. *)
Definition receive (n : Z) : M (heap * SocketInputStream) (Z * list Z) :=
  i ← this id;
  throw_if (getFd i =? -1) IOException;;
  let rc := recv (coming i) n in
  throw_if (rc <? 0) IOException;;
  update (fun i => mkIn (getFd i) (drop (Z.to_nat rc) (coming i)));;
  mret (rc, take (Z.to_nat rc) (coming i)).

(* net/Socket.cpp:272-274 SocketInputStream::available *)
Definition available : M (heap * SocketInputStream) Z := mret 0.

(* net/Socket.cpp:276-289 SocketInputStream::read *)
Definition read_byte : M (heap * SocketInputStream) Z :=
  '(rc, bs) ← receive 1;
  mret (match bs with [data] => if rc =? 1 then data else -1 | _ => -1 end).

(* net/Socket.cpp:291-309 SocketInputStream::read *)
Definition read_array (buffer : option nat) (offset count : Z) : M (heap * SocketInputStream) Z :=
  match buffer with
  | None => throw NullPointerException
  | Some b =>
      n ← onHeap (size b);
      throw_if (n <? u64 (offset + count)) IndexOutOfBoundsException;;
      '(rc, bs) ← receive count;
      onHeap (writeRaw b offset bs);;
      mret (if negb (rc =? 0) then rc else -1)
  end.

#[export] Instance ops : InputStream SocketInputStream :=
  {| Streams.read_array := read_array; Streams.read_byte := read_byte; Streams.available := available;
     Streams.skip := skip_default read_array |}.
End SocketInputStream.

Section spec.
Context `{Connected}.

Definition valid (i : SocketInputStream) : Prop := getFd i <> -1 /\ Forall is_byte (coming i).

(** At the end of the stream nothing is stored, otherwise at least one byte. *)
Lemma receive_ok h i n :
  valid i -> 0 < n ->
  exists rc, receive n (h, i) = (Ok (rc, take (Z.to_nat rc) (coming i)), (h, mkIn (getFd i) (drop (Z.to_nat rc) (coming i)))) /\
    valid (mkIn (getFd i) (drop (Z.to_nat rc) (coming i))) /\
    (coming i = [] /\ rc = 0 \/ coming i <> [] /\ 0 < rc <= n /\ rc <= zlen (coming i)).
Proof.
  intros [Hfd Hby] Hn. exists (recv (coming i) n). unfold receive, this. rewrite bind_gets. cbn [id snd].
  rewrite throw_if_false by (by apply Z.eqb_neq).
  assert (coming i = [] /\ recv (coming i) n = 0 \/
    coming i <> [] /\ 0 < recv (coming i) n <= n /\ recv (coming i) n <= zlen (coming i)) as Hc.
  { destruct (coming i) eqn:E; [left; by rewrite recv_end by done|right]. split; [done|].
    destruct (recv_gives (coming i) n Hn); [by rewrite E|]. rewrite E in *. lia. }
  rewrite throw_if_false by (apply Z.ltb_ge; lia). split; [done|]. split; [|done].
  split; [done|by apply Forall_drop].
Qed.

#[export] Program Instance spec : InputStreamSpec SocketInputStream :=
  {| ivalid _ i := valid i; rest _ i := coming i; iowned _ _ := False; iwrites _ _ := False |}.
Next Obligation. done. Qed.
Next Obligation. by intros h i [_ Hby]. Qed.
Next Obligation.
  intros h i b bs off n Hv Hb _ Hsz Ho Hn Hl. unfold MAX in Hsz.
  destruct (receive_ok h i n Hv Hn) as (rc & Hrun & Hv' & Hc).
  assert (zlen (take (Z.to_nat rc) (coming i)) = rc) as Hz.
  { unfold zlen in *. rewrite length_take. destruct Hc as [[-> ->]|Hc]; cbn; lia. }
  set (h' := <[b := splice off (take (Z.to_nat rc) (coming i)) bs]> h).
  exists (if negb (rc =? 0) then rc else -1), h', (mkIn (getFd i) (drop (Z.to_nat rc) (coming i))). split.
  { cbn. unfold read_array. mstep (onHeap_read _ (h, i) _ (size_eq _ _ _ Hb)).
    rewrite throw_if_false by (apply Z.ltb_ge; rewrite u64_id; lia). mstep Hrun.
    erewrite bind_Ok; [|apply onHeap_eq; cbn [fst]; apply writeRaw_eq; [exact Hb|lia|rewrite Hz; lia]]. done. }
  split; [done|]. split; [|split].
  - cbn [coming]. destruct Hc as [[Hnil ->]|(Hne & Hr & Hle)].
    + left. rewrite Hnil in *. cbn [Z.eqb negb]. do 3 (split; [done|]).
      assert (h' !! b = Some (splice off [] bs)) as -> by by eapply heap_lookup_eq.
      f_equal. unfold splice. cbn [app length]. rewrite Nat.add_0_r. apply take_drop.
    + right. destruct (Z.eqb_spec rc 0); [lia|]. cbn [negb]. do 3 (split; [done|]). by eapply heap_lookup_eq.
  - intros c cs Hc' Hl'. split; [|tauto]. unfold h'. rewrite heap_lookup_ne; [done|]. intros ->. tauto.
  - split; [|done]. unfold h'. apply Nat.eq_le_incl. symmetry. apply length_insert.
Qed.
Next Obligation.
  intros h i Hv. destruct (receive_ok h i 1 Hv) as (rc & Hrun & Hv' & Hc); [lia|].
  eexists _, _, _. split; [cbn; unfold read_byte; mstep Hrun; reflexivity|]. split; [done|].
  cbn [coming]. split; [|split; [apply preserves_refl|by split]].
  destruct Hc as [[Hnil ->]|(Hne & Hr & Hle)]; [by rewrite Hnil|].
  assert (rc = 1) as -> by lia. by destruct (coming i).
Qed.
Next Obligation. intros h i _. exists 0. split; [done|]. split; [lia|apply zlen_nonneg]. Qed.
Next Obligation. done. Qed.
Next Obligation. done. Qed.
End spec.
End SocketInputStream.
