(* ===== verification/RemoteMessages.v ===== *)
(** * runtime/system/Mindroid.cpp: the messages between the nodes

    [Mindroid::Message] and its encoding, written with the data streams of [DataStreams] over any
    stream that keeps its promises: what [write] appends, [newMessage] reads, and whatever another
    node sends, [newMessage] returns a message or throws. *)

From S2P Require Import Prelude ByteArrays Streams DataStreams SocketStreams.
Open Scope Z_scope.

Module RemoteMessage.
Import Bytes ByteArray Streams.

Definition MESSAGE_TYPE_TRANSACTION : Z := 1.
Definition MESSAGE_TYPE_EXCEPTION_TRANSACTION : Z := 2.
Definition MAX_MESSAGE_SIZE : Z := 64 * 1024 * 1024.

(* runtime/system/Mindroid.h:117-122 Mindroid::Message *)
Record Message := mkMessage {
  type : Z;
  uri : option (list Z);
  transactionId : Z;
  what : Z;
  data : nat;
  size : Z;
}.

(* runtime/system/Mindroid.h:101-103 Mindroid::Message::newMessage *)
Definition newTransaction (uri : option (list Z)) (transactionId what : Z) (data : nat) (size : Z) : Message :=
  mkMessage MESSAGE_TYPE_TRANSACTION uri transactionId what data size.

(* runtime/system/Mindroid.h:105-111 Mindroid::Message::newExceptionMessage *)
Definition newExceptionMessage (uri : option (list Z)) (transactionId what : Z) (data : nat) : M heap Message :=
  n ← ByteArray.size data;
  mret (mkMessage MESSAGE_TYPE_EXCEPTION_TRANSACTION uri transactionId what data n).

Section write.
Context {S : Type} `{OutputStream S}.
Import DataOutputStream.

(** The text of the exception is well defined, though the URI, an [sp<String>], is given for [%s]:
    [String::format] is a template that passes every argument through [toValue], which makes the
    characters of it (lang/String.h:225-228, 276-278).  So it is in [newMessage]. *)
(* runtime/system/Mindroid.cpp:202-216 Mindroid::Message::write *)
Definition write (m : Message) : M (heap * DataOutputStream S) unit :=
  throw_if ((size m <? 0) || (MAX_MESSAGE_SIZE <? size m)) IOException;;
  writeInt (type m);;
  writeUTF (uri m);;
  writeInt (transactionId m);;
  writeInt (what m);;
  writeInt (i32 (size m));;
  write_array (Some (data m)) 0 (size m);;
  (if negb (type m =? MESSAGE_TYPE_TRANSACTION) then writeInt 0 else mret tt);;
  flush.
End write.

Section read.
Context {S : Type} `{InputStream S}.
Import DataInputStream.

(* runtime/system/Mindroid.cpp:180-200 Mindroid::Message::newMessage *)
Definition newMessage : M (heap * DataInputStream S) Message :=
  type ← readInt;
  uri ← readUTF;
  transactionId ← readInt;
  what ← readInt;
  size ← readInt;
  throw_if ((size <? 0) || (MAX_MESSAGE_SIZE <? size)) IOException;;
  data ← onHeap (ByteArray.new size);
  readFully (Some data) 0 size;;
  if type =? MESSAGE_TYPE_TRANSACTION then mret (mkMessage type (Some uri) transactionId what data size)
  else
    exceptionCount ← readInt;
    (if 0 <? exceptionCount then readUTF;; mret tt else mret tt);;
    mret (mkMessage type (Some uri) transactionId what data size).
End read.

(** ** The encoding *)

(** The parts of a message before its data, and what follows. *)
Definition header (t : Z) (u : list Z) (tid w n : Z) : list DataValues.value :=
  [DataValues.VInt t; DataValues.VUTF u; DataValues.VInt tid; DataValues.VInt w; DataValues.VInt n].
Definition trailer (t : Z) : list DataValues.value :=
  if negb (t =? MESSAGE_TYPE_TRANSACTION) then [DataValues.VInt 0] else [].
Definition encoding (t : Z) (u : list Z) (tid w : Z) (bs : list Z) : list Z :=
  DataValues.encs (header t u tid w (zlen bs)) ++ bs ++ DataValues.encs (trailer t).

Record fields_ok (t : Z) (u : list Z) (tid w : Z) (bs : list Z) : Prop := {
  fo_type : - 2 ^ 31 <= t < 2 ^ 31;
  fo_uri : Forall is_byte u /\ 0 < zlen u < 2 ^ 16;
  fo_id : - 2 ^ 31 <= tid < 2 ^ 31;
  fo_what : - 2 ^ 31 <= w < 2 ^ 31;
  fo_data : Forall is_byte bs /\ zlen bs <= MAX_MESSAGE_SIZE;
}.

(** The message in the store: its first [size] bytes are [bs]. *)
Definition holds (h : heap) (m : Message) (u bs : list Z) : Prop :=
  uri m = Some u /\ size m = zlen bs /\ exists l, h !! data m = Some l /\ Forall is_byte l /\ zlen l < MAX /\
    zlen bs <= zlen l /\ slice 0 (zlen bs) l = bs.

Section write_spec.
Context {S : Type} `{OutputStreamSpec S}.
Import DataOutputStream.

Lemma appends_then m1 m2 xs ys h d :
  appends m1 xs h d ->
  (forall h' d', dvalid h' d' -> dsink h' d' = dsink h d ++ xs -> preserves (downed d) (downed d') h h' ->
    appends m2 ys h' d') ->
  appends (m1;; m2) (xs ++ ys) h d.
Proof.
  intros (h1 & d1 & Hrun1 & Hd1 & Hs1 & Hp1) H2. destruct (H2 h1 d1 Hd1 Hs1 Hp1) as (h2 & d2 & Hrun2 & Hd2 & Hs2 & Hp2).
  exists h2, d2. rewrite (bind_Ok _ _ _ _ _ Hrun1). split; [done|]. split; [done|].
  split; [by rewrite Hs2, Hs1, app_assoc|by eapply preserves_trans].
Qed.

Lemma appends_eq m1 m2 xs h d : m1 (h, d) = m2 (h, d) -> appends m2 xs h d -> appends m1 xs h d.
Proof. intros E (h' & d' & Hrun & ?). exists h', d'. by rewrite E. Qed.

Lemma int_appends v h d :
  dvalid h d -> - 2 ^ 31 <= v < 2 ^ 31 -> zlen (dsink h d) + 4 < MAX ->
  appends (writeInt v) (DataValues.enc (DataValues.VInt v)) h d.
Proof. intros Hd Hv Hm. by apply (DataValues.write_appends (DataValues.VInt v)). Qed.

Lemma flush_appends h d : dvalid h d -> zlen (dsink h d) < MAX -> appends flush [] h d.
Proof.
  intros Hd Hm. destruct (flush_ok h (mOutputStream d) (dv_stream _ _ Hd) Hm) as (h' & o' & Hrun & Hv & Hs & Hp).
  destruct (dvalid_after _ _ _ _ Hd Hv Hp). do 2 eexists. unfold flush. rewrite (out_stream_eq _ _ _ _ _ _ Hrun).
  by rewrite app_nil_r.
Qed.

Lemma encoding_parts t u tid w bs :
  encoding t u tid w bs = DataValues.enc (DataValues.VInt t) ++ DataValues.enc (DataValues.VUTF u) ++
    DataValues.enc (DataValues.VInt tid) ++ DataValues.enc (DataValues.VInt w) ++
    DataValues.enc (DataValues.VInt (zlen bs)) ++ bs ++ DataValues.encs (trailer t) ++ [].
Proof.
  unfold encoding, header. rewrite !DataValues.encs_cons. change (DataValues.encs []) with (@nil Z).
  by rewrite !app_nil_r, <- !app_assoc.
Qed.

Lemma zlen_int v : zlen (DataValues.enc (DataValues.VInt v)) = 4.
Proof. cbn [DataValues.enc]. unfold zlen. by rewrite length_be_split. Qed.

Lemma message_written m u bs h d :
  dvalid h d -> fields_ok (type m) u (transactionId m) (what m) bs -> holds h m u bs -> ~ downed d (data m) ->
  zlen (dsink h d) + zlen (encoding (type m) u (transactionId m) (what m) bs) < MAX ->
  appends (write m) (encoding (type m) u (transactionId m) (what m) bs) h d.
Proof.
  intros Hd [Ht Hu Hi Hw [_ Hbs]] (Eu & En & l & Hl & Hlb & Hlm & Hle & Hsl) Hno Hm. pose proof (zlen_nonneg bs).
  rewrite encoding_parts, !zlen_app, !zlen_int in *. pose proof (zlen_nonneg (DataValues.encs (trailer (type m)))).
  pose proof (zlen_nonneg (DataValues.enc (DataValues.VUTF u))). change (zlen []) with 0 in Hm.
  unfold write, MAX_MESSAGE_SIZE in *. rewrite Eu, En, i32_id by lia.
  eapply appends_eq; [apply throw_if_false; apply orb_false_intro; apply Z.ltb_ge; lia|].
  apply appends_then; [apply int_appends; [done|done|lia]|intros h1 d1 Hd1 Hs1 Hp1]. destruct (Hp1 _ _ Hno Hl) as [Hl1 Hno1].
  assert (zlen (dsink h1 d1) = zlen (dsink h d) + 4) as Hz1 by by rewrite Hs1, zlen_app, zlen_int.
  apply appends_then; [by apply (DataValues.write_appends (DataValues.VUTF u)); [..|lia]|intros h2 d2 Hd2 Hs2 Hp2].
  destruct (Hp2 _ _ Hno1 Hl1) as [Hl2 Hno2].
  assert (zlen (dsink h2 d2) = zlen (dsink h1 d1) + zlen (DataValues.enc (DataValues.VUTF u))) as Hz2 by by rewrite Hs2, zlen_app.
  apply appends_then; [apply int_appends; [done|done|lia]|intros h3 d3 Hd3 Hs3 Hp3]. destruct (Hp3 _ _ Hno2 Hl2) as [Hl3 Hno3].
  assert (zlen (dsink h3 d3) = zlen (dsink h2 d2) + 4) as Hz3 by by rewrite Hs3, zlen_app, zlen_int.
  apply appends_then; [apply int_appends; [done|done|lia]|intros h4 d4 Hd4 Hs4 Hp4]. destruct (Hp4 _ _ Hno3 Hl3) as [Hl4 Hno4].
  assert (zlen (dsink h4 d4) = zlen (dsink h3 d3) + 4) as Hz4 by by rewrite Hs4, zlen_app, zlen_int.
  apply appends_then; [apply int_appends; [done|lia|lia]|intros h5 d5 Hd5 Hs5 Hp5]. destruct (Hp5 _ _ Hno4 Hl4) as [Hl5 Hno5].
  assert (zlen (dsink h5 d5) = zlen (dsink h4 d4) + 4) as Hz5 by by rewrite Hs5, zlen_app, zlen_int.
  apply appends_then; [|intros h6 d6 Hd6 Hs6 Hp6].
  { rewrite <- Hsl at 2. apply (array_appends _ _ _ l); [done|done|intros Ho; apply Hno5; by right|done|done|lia|lia]. }
  assert (zlen (dsink h6 d6) = zlen (dsink h5 d5) + zlen bs) as Hz6 by by rewrite Hs6, zlen_app.
  apply appends_then; [|intros h7 d7 Hd7 Hs7 Hp7; apply flush_appends; [done|rewrite Hs7, zlen_app; lia]].
  unfold trailer in *. destruct (negb (type m =? MESSAGE_TYPE_TRANSACTION)).
  - rewrite DataValues.encs_cons in *. change (DataValues.encs []) with (@nil Z) in *.
    rewrite app_nil_r, zlen_int in *. apply int_appends; [done|lia|lia].
  - exists h6, d6. do 2 (split; [done|]). split; [by rewrite app_nil_r|apply preserves_refl].
Qed.
End write_spec.

(** ** What is read *)

Section read_spec.
Context {S : Type} `{InputStreamSpec S}.
Import DataInputStream DataValues.

(** [m] takes the bytes [xs] off the front of the stream and goes on as [k]; where the stream ends before
    that, it throws. *)
Definition strict_prefix (p xs : list Z) : Prop := exists x ys, xs = p ++ x :: ys.
Definition shorts {A} (m : M (heap * DataInputStream S) A) (xs : list Z) : Prop :=
  forall h d, dvalid h d -> strict_prefix (drest h d) xs -> underflows m h d.
Definition continues {A} (m : M (heap * DataInputStream S) A) (xs : list Z) (k : M (heap * DataInputStream S) A) : Prop :=
  (forall h d tl, dvalid h d -> drest h d = xs ++ tl ->
    exists h' d', m (h, d) = k (h', d') /\ dvalid h' d' /\ drest h' d' = tl /\ preserves (dwrites d) (dwrites d') h h') /\
  shorts m xs.

Lemma strict_prefix_zlen p xs : strict_prefix p xs -> zlen p < zlen xs.
Proof. intros (x & ys & ->). rewrite zlen_app. pose proof (zlen_nonneg ys). unfold zlen in *. cbn. lia. Qed.

Lemma strict_prefix_app p xs ys : strict_prefix p (xs ++ ys) -> strict_prefix p xs \/ exists p', p = xs ++ p' /\ strict_prefix p' ys.
Proof.
  intros (x & zs & E). destruct (decide (length p < length xs)%nat) as [Hl|Hl].
  - left. apply app_eq_inv in E as [(k & -> & E)|(k & -> & _)]; [|rewrite length_app in Hl; lia].
    destruct k as [|y k]; [rewrite app_nil_r in Hl; lia|]. by exists y, k.
  - right. apply app_eq_inv in E as [(k & -> & E)|(k & -> & E)].
    + rewrite length_app in Hl. destruct k; [|cbn in Hl; lia]. exists []. rewrite !app_nil_r. split; [done|].
      cbn in E. exists x, zs. done.
    + exists k. split; [done|]. by exists x, zs.
Qed.

Lemma continues_refl {A} (k : M (heap * DataInputStream S) A) : continues k [] k.
Proof.
  split; [intros h d tl Hd Hr; exists h, d; do 3 (split; [done|]); apply preserves_refl|].
  intros h d _ (x & ys & E). by destruct (drest h d).
Qed.

Lemma continues_shorts {A} (m k : M (heap * DataInputStream S) A) xs ys :
  continues m xs k -> shorts k ys -> shorts m (xs ++ ys).
Proof.
  intros [Hm Hm'] Hk h d Hd Hr. destruct (strict_prefix_app _ _ _ Hr) as [Hp|(p' & Hp & Hs)]; [by apply Hm'|].
  destruct (Hm h d _ Hd Hp) as (h1 & d1 & E1 & Hd1 & Hr1 & Hp1). rewrite <- Hr1 in Hs.
  destruct (Hk h1 d1 Hd1 Hs) as (h2 & d2 & E2 & Hd2 & Hr2 & Hp2). exists h2, d2. rewrite E1, E2.
  do 3 (split; [done|]). by eapply preserves_trans.
Qed.

Lemma continues_trans {A} (m k l : M (heap * DataInputStream S) A) xs ys :
  continues m xs k -> continues k ys l -> continues m (xs ++ ys) l.
Proof.
  intros Hm [Hk Hk']. split; [|by eapply continues_shorts]. destruct Hm as [Hm _].
  intros h d tl Hd Hr. rewrite <- app_assoc in Hr. destruct (Hm h d _ Hd Hr) as (h1 & d1 & E1 & Hd1 & Hr1 & Hp1).
  destruct (Hk h1 d1 _ Hd1 Hr1) as (h2 & d2 & E2 & Hd2 & Hr2 & Hp2). exists h2, d2. rewrite E1, E2.
  do 3 (split; [done|]). by eapply preserves_trans.
Qed.

Lemma continues_bind {A B} (m : M (heap * DataInputStream S) A) (f : A -> M (heap * DataInputStream S) B) xs v :
  reads m xs v -> shorts m xs -> continues (m ≫= f) xs (f v).
Proof.
  intros Hm Hs. split.
  - intros h d tl Hd Hr. destruct (Hm h d tl Hd Hr) as (h' & d' & Hrun & ?). exists h', d'. split; [by mstep Hrun|done].
  - intros h d Hd Hp. apply underflows_bind. auto.
Qed.

Lemma takes_shorts {A} (m : M (heap * DataInputStream S) A) n v xs :
  (forall h d, dvalid h d -> takes m n v h d) -> zlen xs = n -> shorts m xs.
Proof.
  intros Hm <- h d Hd Hp. eapply takes_underflows; [by apply Hm|]. by apply strict_prefix_zlen.
Qed.

Lemma shorts_int v : shorts readInt (enc (VInt v)).
Proof. eapply takes_shorts; [|apply zlen_int]. intros h d Hd. apply takes_map, scratch_takes; [done|lia]. Qed.

(** The array of [n] bytes that is filled from the stream. *)
Lemma shorts_array {A} xs (f : nat -> unit -> M (heap * DataInputStream S) A) :
  zlen xs < MAX ->
  shorts (b ← onHeap (ByteArray.new (zlen xs)); r ← readFully (Some b) 0 (zlen xs); f b r) xs.
Proof.
  intros Hm h d Hd Hp. apply strict_prefix_zlen in Hp. pose proof (zlen_nonneg xs).
  destruct (array_read (zlen xs) h d Hd) as (E & h' & d' & Hd' & Hpr & [(Hle & _)|(_ & Hrun & Hr)]); [lia|lia|].
  exists h', d'. split; [|done]. mstep E. exact (bind_Throw _ _ _ _ _ Hrun).
Qed.

Lemma shorts_UTF u : Forall is_byte u -> 0 < zlen u < 2 ^ 16 -> shorts readUTF (enc (VUTF u)).
Proof.
  intros Hu Hz. cbn [enc]. eapply continues_shorts; [|apply (shorts_array u (fun b _ => onHeap (readRaw b 0 (zlen u)))); unfold MAX; lia].
  apply (continues_bind readUnsignedShort (fun n => b ← onHeap (ByteArray.new n); readFully (Some b) 0 n;; onHeap (readRaw b 0 n))).
  - by apply reads_unsigned_short.
  - eapply takes_shorts; [|unfold zlen; by rewrite length_be_split]. intros h d Hd.
    do 2 apply takes_map. apply scratch_takes; [done|lia].
Qed.

Lemma continues_int {A} v (f : Z -> M (heap * DataInputStream S) A) :
  - 2 ^ 31 <= v < 2 ^ 31 -> continues (readInt ≫= f) (enc (VInt v)) (f v).
Proof.
  intros Hv. apply continues_bind; [|apply shorts_int]. rewrite <- (i32_id v Hv) at 2. apply reads_int.
Qed.

Lemma continues_UTF {A} u (f : list Z -> M (heap * DataInputStream S) A) :
  Forall is_byte u -> 0 < zlen u < 2 ^ 16 -> continues (readUTF ≫= f) (enc (VUTF u)) (f u).
Proof. intros Hu Hz. apply continues_bind; [by apply reads_UTF|by apply shorts_UTF]. Qed.

(** *** The message behind its header *)

Definition tail (m : Message) : M (heap * DataInputStream S) Message :=
  if type m =? MESSAGE_TYPE_TRANSACTION then mret m
  else
    exceptionCount ← readInt;
    (if 0 <? exceptionCount then readUTF;; mret tt else mret tt);;
    mret m.
Definition body (t : Z) (u : list Z) (tid w n : Z) : M (heap * DataInputStream S) Message :=
  throw_if ((n <? 0) || (MAX_MESSAGE_SIZE <? n)) IOException;;
  b ← onHeap (ByteArray.new n);
  readFully (Some b) 0 n;;
  tail (mkMessage t (Some u) tid w b n).

Lemma encs_one v : encs [v] = enc v.
Proof. rewrite encs_cons. change (encs []) with (@nil Z). apply app_nil_r. Qed.

Lemma reads_ret {A} (v : A) : reads (mret v) [] v.
Proof. intros h d tl Hd Hr. exists h, d. do 3 (split; [done|]). apply preserves_refl. Qed.

Lemma tail_continues m : continues (tail m) (encs (trailer (type m))) (mret m).
Proof.
  unfold tail, trailer. destruct (type m =? MESSAGE_TYPE_TRANSACTION); cbn [negb]; [apply continues_refl|].
  rewrite encs_one.
  pose proof (continues_int 0 (fun n => (if 0 <? n then readUTF;; mret tt else mret tt);; mret m) ltac:(lia)) as Hc.
  exact Hc.
Qed.

Lemma body_size n : 0 <= n <= MAX_MESSAGE_SIZE -> (n <? 0) || (MAX_MESSAGE_SIZE <? n) = false.
Proof. intros Hn. apply orb_false_intro; apply Z.ltb_ge; lia. Qed.

Lemma newMessage_header t u tid w bs :
  fields_ok t u tid w bs -> continues newMessage (encs (header t u tid w (zlen bs))) (body t u tid w (zlen bs)).
Proof.
  intros [Ht [Hu Hz] Hi Hw [_ Hbs]]. unfold header. rewrite !encs_cons. change (encs []) with (@nil Z).
  pose proof (zlen_nonneg bs). unfold MAX_MESSAGE_SIZE in *. unfold newMessage.
  eapply continues_trans; [by apply continues_int|]. eapply continues_trans; [by apply continues_UTF|].
  do 2 (eapply continues_trans; [by apply continues_int|]). eapply continues_trans; [apply continues_int; lia|].
  apply continues_refl.
Qed.

(** Where the data is there, what is left is what follows it. *)
Lemma body_array t u tid w bs h d tl :
  dvalid h d -> zlen bs <= MAX_MESSAGE_SIZE -> drest h d = bs ++ tl ->
  exists h' d' b, body t u tid w (zlen bs) (h, d) = tail (mkMessage t (Some u) tid w b (zlen bs)) (h', d') /\
    dvalid h' d' /\ drest h' d' = tl /\ preserves (dwrites d) (dwrites d') h h' /\ h' !! b = Some bs /\ ~ dwrites d' b.
Proof.
  intros Hd Hm Hr. pose proof (zlen_nonneg bs). pose proof (zlen_nonneg tl). unfold body.
  rewrite throw_if_false by (apply body_size; done || lia).
  destruct (array_read (zlen bs) h d Hd) as (E & h1 & d1 & Hd1 & Hp1 & Hres); [unfold MAX, MAX_MESSAGE_SIZE in *; lia|].
  rewrite Hr, zlen_app in Hres. destruct Hres as [(_ & Hrun & Hr1 & Hb & Hno)|(Hlt & _)]; [|lia].
  unfold zlen in Hr1, Hb. rewrite Nat2Z.id in Hr1, Hb. rewrite drop_app_length in Hr1. rewrite take_app_length in Hb.
  exists h1, d1, (length h). split; [mstep E; by mstep Hrun|done].
Qed.

Lemma body_ok t u tid w bs h d tl :
  dvalid h d -> zlen bs <= MAX_MESSAGE_SIZE -> drest h d = bs ++ encs (trailer t) ++ tl ->
  exists h' d' b, body t u tid w (zlen bs) (h, d) = (Ok (mkMessage t (Some u) tid w b (zlen bs)), (h', d')) /\
    dvalid h' d' /\ drest h' d' = tl /\ h' !! b = Some bs.
Proof.
  intros Hd Hm Hr. destruct (body_array t u tid w bs h d _ Hd Hm Hr) as (h1 & d1 & b & -> & Hd1 & Hr1 & _ & Hb & Hno).
  destruct (proj1 (tail_continues (mkMessage t (Some u) tid w b (zlen bs))) h1 d1 tl Hd1 Hr1) as
    (h2 & d2 & -> & Hd2 & Hr2 & Hp2).
  destruct (Hp2 _ _ Hno Hb) as [Hb2 _]. by exists h2, d2, b.
Qed.

Lemma body_shorts t u tid w bs : zlen bs <= MAX_MESSAGE_SIZE -> shorts (body t u tid w (zlen bs)) (bs ++ encs (trailer t)).
Proof.
  intros Hm h d Hd Hp. pose proof (zlen_nonneg bs). destruct (strict_prefix_app _ _ _ Hp) as [Hp'|(p' & Hp' & Hs)].
  - destruct (shorts_array bs (fun b _ => tail (mkMessage t (Some u) tid w b (zlen bs)))
      ltac:(unfold MAX, MAX_MESSAGE_SIZE in *; lia) h d Hd Hp') as (h' & d' & Hrun & ?).
    exists h', d'. split; [|done]. unfold body. by rewrite throw_if_false by (apply body_size; done || lia).
  - destruct (body_array t u tid w bs h d p' Hd Hm Hp') as (h1 & d1 & b & E & Hd1 & Hr1 & Hp1 & _). rewrite <- Hr1 in Hs.
    destruct (proj2 (tail_continues (mkMessage t (Some u) tid w b (zlen bs))) h1 d1 Hd1 Hs) as (h2 & d2 & Hrun & Hd2 & Hr2 & Hp2).
    exists h2, d2. rewrite E. do 3 (split; [done|]). by eapply preserves_trans.
Qed.

(** *** Whatever comes *)

(** A call ends, with a value that fulfils [P] or an [IOException]. *)
Definition ends {A} (m : M (heap * DataInputStream S) A) (P : heap -> DataInputStream S -> A -> Prop) : Prop :=
  forall h d, dvalid h d -> exists r h' d', m (h, d) = (r, (h', d')) /\ dvalid h' d' /\
    preserves (dwrites d) (dwrites d') h h' /\
    (r = Throw EOFException \/ r = Throw IOException \/ exists v, r = Ok v /\ P h' d' v).

Lemma ends_bind {A B} (m : M (heap * DataInputStream S) A) (f : A -> M (heap * DataInputStream S) B) P Q :
  ends m (fun _ _ => P) -> (forall v, P v -> ends (f v) Q) -> ends (m ≫= f) Q.
Proof.
  intros Hm Hf h d Hd. destruct (Hm h d Hd) as (r & h1 & d1 & Hrun & Hd1 & Hp1 & [->|[->|(v & -> & Hv)]]).
  - exists (Throw EOFException), h1, d1. split; [exact (bind_Throw _ _ _ _ _ Hrun)|]. auto.
  - exists (Throw IOException), h1, d1. split; [exact (bind_Throw _ _ _ _ _ Hrun)|]. auto.
  - destruct (Hf v Hv h1 d1 Hd1) as (r & h2 & d2 & Hrun2 & Hd2 & Hp2 & Hr).
    exists r, h2, d2. split; [by mstep Hrun|]. split; [done|]. split; [by eapply preserves_trans|done].
Qed.

Lemma ends_takes {A} (m : M (heap * DataInputStream S) A) n f (P : A -> Prop) :
  (forall h d, dvalid h d -> takes m n f h d) -> (forall bs, P (f bs)) -> ends m (fun _ _ => P).
Proof.
  intros Hm HP h d Hd. destruct (Hm h d Hd) as (h' & d' & Hd' & Hp & [(_ & Hrun & _)|(_ & Hrun & _)]);
    do 3 eexists; (split; [exact Hrun|]); (split; [done|]); (split; [done|]); [right; right; eauto|by left].
Qed.

Lemma ends_int : ends readInt (fun _ _ v => - 2 ^ 31 <= v < 2 ^ 31).
Proof. eapply ends_takes; [intros h d Hd; apply takes_map, scratch_takes; [done|lia]|]. intros bs. apply i32_range. Qed.

Lemma ends_array {A} n (f : nat -> unit -> M (heap * DataInputStream S) A) Q :
  0 <= n < MAX ->
  (forall b bs h d, dvalid h d -> h !! b = Some bs -> zlen bs = n -> ~ dwrites d b ->
    exists r h' d', f b tt (h, d) = (r, (h', d')) /\ dvalid h' d' /\ preserves (dwrites d) (dwrites d') h h' /\
    (r = Throw EOFException \/ r = Throw IOException \/ exists v, r = Ok v /\ Q h' d' v)) ->
  ends (b ← onHeap (ByteArray.new n); r ← readFully (Some b) 0 n; f b r) Q.
Proof.
  intros Hn Hf h d Hd. destruct (array_read n h d Hd Hn) as (E & h1 & d1 & Hd1 & Hp1 & Hres).
  rewrite (bind_Ok _ _ _ _ _ E). destruct Hres as [(Hle & Hrun & _ & Hb & Hno)|(_ & Hrun & _)].
  - destruct (Hf _ _ h1 d1 Hd1 Hb) as (r & h2 & d2 & Hrun2 & Hd2 & Hp2 & Hr); [unfold zlen in *; rewrite length_take; lia|done|].
    exists r, h2, d2. split; [by mstep Hrun|]. split; [done|]. split; [by eapply preserves_trans|done].
  - exists (Throw EOFException), h1, d1. split; [exact (bind_Throw _ _ _ _ _ Hrun)|]. auto.
Qed.

Lemma ends_UTF : ends readUTF (fun _ _ u => zlen u < 2 ^ 16).
Proof.
  apply (ends_bind readUnsignedShort _ (fun n => 0 <= n < 2 ^ 16)).
  - eapply ends_takes; [intros h d Hd; do 2 apply takes_map; apply scratch_takes; [done|lia]|]. intros bs. cbn beta.
    change 65535 with (Z.ones 16). rewrite Z.land_ones by lia. apply Z.mod_pos_bound. lia.
  - intros n Hn. apply (ends_array n (fun b _ => onHeap (readRaw b 0 n))); [unfold MAX; lia|].
    intros b bs h d Hd Hb Hz Hno. exists (Ok bs), h, d. split; [|split; [done|split; [apply preserves_refl|]]].
    + apply onHeap_read. cbn [fst]. rewrite (readRaw_eq _ _ _ 0 n Hb) by lia. by rewrite <- Hz, slice_all.
    + right. right. exists bs. split; [done|lia].
Qed.

(** A message whose data has the size it says. *)
Definition complete (h : heap) (d : DataInputStream S) (m : Message) : Prop :=
  0 <= size m <= MAX_MESSAGE_SIZE /\ (exists bs, h !! data m = Some bs /\ zlen bs = size m) /\ ~ dwrites d (data m).

Lemma ends_tail m h d bs :
  dvalid h d -> 0 <= size m <= MAX_MESSAGE_SIZE -> h !! data m = Some bs -> zlen bs = size m -> ~ dwrites d (data m) ->
  exists r h' d', tail m (h, d) = (r, (h', d')) /\ dvalid h' d' /\ preserves (dwrites d) (dwrites d') h h' /\
    (r = Throw EOFException \/ r = Throw IOException \/ exists v, r = Ok v /\ complete h' d' v).
Proof.
  intros Hd Hs Hb Hz Hno.
  assert (ends (tail m) (fun _ _ v => v = m)) as He.
  { unfold tail. destruct (type m =? MESSAGE_TYPE_TRANSACTION).
    - intros h1 d1 Hd1. exists (Ok m), h1, d1. split; [done|]. split; [done|]. split; [apply preserves_refl|eauto].
    - eapply ends_bind; [apply ends_int|]. intros n _. apply (ends_bind _ _ (fun _ => True)).
      + destruct (0 <? n).
        * eapply ends_bind; [apply ends_UTF|]. intros u _ h1 d1 Hd1. exists (Ok tt), h1, d1.
          split; [done|]. split; [done|]. split; [apply preserves_refl|eauto].
        * intros h1 d1 Hd1. exists (Ok tt), h1, d1. split; [done|]. split; [done|]. split; [apply preserves_refl|eauto].
      + intros [] _ h1 d1 Hd1. exists (Ok m), h1, d1. split; [done|]. split; [done|]. split; [apply preserves_refl|eauto]. }
  destruct (He h d Hd) as (r & h' & d' & Hrun & Hd' & Hp & Hr). exists r, h', d'. do 3 (split; [done|]).
  destruct Hr as [->|[->|(v & -> & ->)]]; [by left|by right; left|]. right. right. exists m. split; [done|].
  destruct (Hp _ _ Hno Hb). split; [done|]. split; [by exists bs|done].
Qed.

Lemma newMessage_ends : ends newMessage complete.
Proof.
  unfold newMessage. eapply ends_bind; [apply ends_int|]. intros t _. eapply ends_bind; [apply ends_UTF|]. intros u _.
  do 3 (eapply ends_bind; [apply ends_int|]; intros ? _). rename v1 into n.
  destruct ((n <? 0) || (MAX_MESSAGE_SIZE <? n)) eqn:Hn.
  { intros h d Hd. exists (Throw IOException), h, d. split; [done|]. split; [done|]. split; [apply preserves_refl|auto]. }
  apply orb_false_elim in Hn as [H1%Z.ltb_ge H2%Z.ltb_ge].
  apply (ends_array n (fun b _ => tail (mkMessage t (Some u) v v0 b n))); [unfold MAX, MAX_MESSAGE_SIZE in *; lia|].
  intros b bs h d Hd Hb Hz Hno. by apply (ends_tail _ _ _ bs).
Qed.
End read_spec.
(** ** The messages of a connection *)

Section connection.
Context {O I : Type} `{OutputStreamSpec O} `{InputStreamSpec I}.

(** C29: [write] appends the encoding of a message to any stream that keeps its promises;
    from any stream with these bytes in front [newMessage] reads a message with the same type, URI,
    identifiers and data and stops behind it, so that messages one after the other are read one after
    the other; from a stream that ends before the message does, it throws [EOFException] and never
    makes a message. *)
Theorem message_roundtrip (h : heap) (d : DataOutputStream.DataOutputStream O) m u bs :
  DataOutputStream.dvalid h d -> fields_ok (type m) u (transactionId m) (what m) bs -> holds h m u bs ->
  ~ DataOutputStream.downed d (data m) ->
  let bytes := encoding (type m) u (transactionId m) (what m) bs in
  zlen (DataOutputStream.dsink h d) + zlen bytes < MAX ->
  (exists h' d', write m (h, d) = (Ok tt, (h', d')) /\ DataOutputStream.dvalid h' d' /\
    DataOutputStream.dsink h' d' = DataOutputStream.dsink h d ++ bytes) /\
  (forall (hi : heap) (i : DataInputStream.DataInputStream I) tl,
    DataInputStream.dvalid hi i -> DataInputStream.drest hi i = bytes ++ tl ->
    exists hi' i' b, newMessage (hi, i) =
        (Ok (mkMessage (type m) (Some u) (transactionId m) (what m) b (zlen bs)), (hi', i')) /\
      DataInputStream.dvalid hi' i' /\ DataInputStream.drest hi' i' = tl /\ hi' !! b = Some bs) /\
  (forall (hi : heap) (i : DataInputStream.DataInputStream I),
    DataInputStream.dvalid hi i -> strict_prefix (DataInputStream.drest hi i) bytes ->
    exists hi' i', newMessage (hi, i) = (Throw EOFException, (hi', i')) /\ DataInputStream.dvalid hi' i').
Proof.
  intros Hd Hf Hh Hno bytes Hm. split; [|split].
  - destruct (message_written m u bs h d Hd Hf Hh Hno Hm) as (h' & d' & ? & ? & ? & _). by exists h', d'.
  - intros hi i tl Hi Hr. unfold bytes, encoding in Hr. rewrite <- app_assoc in Hr.
    destruct (proj1 (newMessage_header _ _ _ _ _ Hf) hi i _ Hi Hr) as (h1 & i1 & -> & Hi1 & Hr1 & _).
    rewrite <- app_assoc in Hr1. apply body_ok; [done|apply (fo_data _ _ _ _ _ Hf)|done].
  - intros hi i Hi Hr.
    destruct (continues_shorts _ _ _ _ (newMessage_header _ _ _ _ _ Hf)
      (body_shorts (type m) u (transactionId m) (what m) bs (proj2 (fo_data _ _ _ _ _ Hf))) hi i Hi Hr)
      as (hi' & i' & ? & ? & _). by exists hi', i'.
Qed.

(** C30: whatever bytes the other node sends, [newMessage] ends: with a message whose data array
    has the size the message says, at most 64 MB, or with an [IOException], that of a size out of
    range (whose text [String::format] makes with the characters of the URI, see [write]) or the
    [EOFException] of a stream that ends too soon; the stream stays valid and no other array is
    touched. *)
Theorem any_bytes (h : heap) (i : DataInputStream.DataInputStream I) :
  DataInputStream.dvalid h i ->
  exists r h' i', newMessage (h, i) = (r, (h', i')) /\ DataInputStream.dvalid h' i' /\
    (forall b bs, h !! b = Some bs -> ~ DataInputStream.dwrites i b -> h' !! b = Some bs) /\
    (r = Throw EOFException \/ r = Throw IOException \/
     exists m bs, r = Ok m /\ h' !! data m = Some bs /\ zlen bs = size m /\ size m <= MAX_MESSAGE_SIZE).
Proof.
  intros Hi. destruct (newMessage_ends h i Hi) as (r & h' & i' & Hrun & Hi' & Hp & Hr).
  exists r, h', i'. do 2 (split; [done|]). split; [intros b bs Hb Hno; by apply (Hp b bs)|].
  destruct Hr as [?|[?|(m & -> & [_ Hs] & (bs & Hb & Hz) & _)]]; [by left|by right; left|].
  right. right. by exists m, bs.
Qed.
End connection.

(** Over a connection that takes up to three bytes at a time and delivers up to two. *)
Definition slow : Kernels.Kernel :=
  Kernels.Build_Kernel (fun _ bs => Z.min 3 (zlen bs)) (fun bs n => Z.min (Z.min 2 n) (zlen bs)).
#[local] Existing Instance slow.
#[local] Instance slow_connected : Kernels.Connected.
Proof.
  split; cbn.
  - intros _ [|b bs] Hne; [done|]. unfold zlen. cbn [length]. lia.
  - intros [|b bs] n Hn Hne; [done|]. unfold zlen. cbn [length]. lia.
  - intros n Hn. unfold zlen. cbn [length]. lia.
Qed.
#[local] Existing Instances SocketOutputStream.ops SocketOutputStream.spec SocketInputStream.ops SocketInputStream.spec.

Definition client_heap : heap := [replicate 8 0; [7; 8; 9; 0]].
Definition client_out : DataOutputStream.DataOutputStream SocketOutputStream.SocketOutputStream :=
  DataOutputStream.mkData (SocketOutputStream.mkOut 5 []) 0.
Definition request : Message := newTransaction (Some [109; 58]) 1 42 1 3.
Definition server_heap : heap := [replicate 8 0].
Definition server_in (bs : list Z) : DataInputStream.DataInputStream SocketInputStream.SocketInputStream :=
  DataInputStream.mkData (SocketInputStream.mkIn 6 bs) 0.

Lemma server_valid bs : Forall is_byte bs -> DataInputStream.dvalid server_heap (server_in bs).
Proof. intros Hb. split; [by split|by intros []|]. by exists (replicate 8 0). Qed.

Lemma message_roundtrip_witness :
  let bytes := encoding 1 [109; 58] 1 42 [7; 8; 9] in
  (exists h' d', write request (client_heap, client_out) = (Ok tt, (h', d')) /\
    SocketOutputStream.sent (DataOutputStream.mOutputStream d') = bytes) /\
  (exists hi' i' b, newMessage (server_heap, server_in (bytes ++ [1; 2])) =
      (Ok (mkMessage 1 (Some [109; 58]) 1 42 b 3), (hi', i')) /\ hi' !! b = Some [7; 8; 9]) /\
  exists hi' i', newMessage (server_heap, server_in (take 20 bytes)) = (Throw EOFException, (hi', i')).
Proof.
  intros bytes.
  destruct (message_roundtrip (I := SocketInputStream.SocketInputStream) client_heap client_out request [109; 58] [7; 8; 9])
    as (Hw & Hr & Hs).
  - split; [by split|by intros []|]. exists (replicate 8 0). split; [done|]. split; [done|]. decided.
  - split; decided.
  - do 2 (split; [done|]). exists [7; 8; 9; 0]. split; [done|]. split; [decided|]. done.
  - by intros [[=]|[]].
  - done.
  - split; [|split].
    + destruct Hw as (h' & d' & Hrun & _ & Hsink). exists h', d'. split; [exact Hrun|exact Hsink].
    + destruct (Hr server_heap (server_in (bytes ++ [1; 2])) [1; 2]) as (hi' & i' & b & Hrun & _ & _ & Hb);
        [apply server_valid; decided|reflexivity|]. exists hi', i', b. split; [exact Hrun|exact Hb].
    + destruct (Hs server_heap (server_in (take 20 bytes))) as (hi' & i' & Hrun & _);
        [apply server_valid; decided|by eexists _, _|]. exists hi', i'. exact Hrun.
Defined.

Lemma any_bytes_witness :
  exists r h' i', newMessage (server_heap, server_in [0; 0; 0; 1; 255; 255]) = (r, (h', i')) /\
    (r = Throw EOFException \/ r = Throw IOException \/
     exists m bs, r = Ok m /\ h' !! data m = Some bs /\ zlen bs = size m /\ size m <= MAX_MESSAGE_SIZE).
Proof.
  destruct (any_bytes server_heap (server_in [0; 0; 0; 1; 255; 255])) as (r & h' & i' & Hrun & _ & _ & Hr);
    [apply server_valid; decided|]. exists r, h', i'. split; [exact Hrun|exact Hr].
Defined.
End RemoteMessage.
