(* ===== verification/Transactions.v ===== *)
(** * runtime/system/Mindroid.cpp: calls from one node to another

    A connection between a client and a server: threads of the client send transactions, the server
    finds the binder each is for in its registry ([Runtimes]), calls it, and sends the answer back
    when the binder has it; the client matches answers to calls by their numbers.  [RemoteMessages]
    is how a message is a sequence of bytes; here a message is on its way as a value.

    The code does not lock [mTransactions]: the threads in [transact], the one that reads from the
    connection and the one of the timers all use it.  So every access to it is two steps, its begin
    and its end, and an access that begins while another one goes on is a race, which is undefined.
    What is proved of every interleaving is proved of those without such a race; [answers_matched]
    says, too, that races happen.  [transact] also puts its stream into the [Bundle] of the connection,
    which is not locked either; the bundle is not modelled. *)

From S2P Require Import Prelude Strings URIs Configurations Runtimes Registries RemoteMessages.
From stdpp Require Import gmap fin_maps.
Open Scope Z_scope.

Module Transaction.
Import CString Str Runtime Registry.

Notation MAX_MESSAGE_SIZE := RemoteMessage.MAX_MESSAGE_SIZE.
Notation MESSAGE_TYPE_TRANSACTION := RemoteMessage.MESSAGE_TYPE_TRANSACTION.
Notation MESSAGE_TYPE_EXCEPTION_TRANSACTION := RemoteMessage.MESSAGE_TYPE_EXCEPTION_TRANSACTION.

(** A message with its data. *)
Record Packet := mkPacket {
  type : Z;
  uri : list Z;
  transactionId : Z;
  what : Z;
  data : list Z;
}.
#[export] Instance packet_eq_dec : EqDecision Packet.
Proof. solve_decision. Defined.

(** What completes the promise of a call: the parcel of the answer, the [RemoteException] of a failed
    call, or the [TimeoutException]. *)
Inductive outcome := Result (bs : list Z) | RemoteFailure | TimedOut.

(** How far [Client::transact] has come. *)
Inductive phase := Created | Registered | Sent | Failed.
#[export] Instance phase_eq_dec : EqDecision phase.
Proof. solve_decision. Defined.

Record Call := mkCall {
  packet : Packet;
  oneway : bool;
  at_ : phase;
  promise : option outcome;
}.

(** What the promise of the binder is completed with, on the server. *)
Inductive answer := Answer (bs : list Z) | Exception.

(** The thread that reads from the connection: it waits for a message, or has one and is about to
    look its number up, to remove the number, to complete the promise, or, in the action of the
    promise, to remove the number. *)
Inductive Reader := Reading | Looking (m : Packet) | Found (m : Packet) (k : nat) | Taken (m : Packet) (k : nat) | Dropping (i : Z).

(** The accesses to [mTransactions]: [put] in [transact], [get] and the two [remove]s of the thread that
    reads, and [remove] in the thread of the timers. *)
Inductive accessor := Put (k : nat) | Look | Take | Drop | Expire.
#[export] Instance accessor_eq_dec : EqDecision accessor.
Proof. solve_decision. Defined.

(** Both ends and what is on its way.  [mPlugin] is whether the pointer is set, [accessing] the access to
    [mTransactions] that goes on, and [timer] the number the thread of the timers is about to remove;
    [answered] is a record of what the server has done. *)
(* runtime/system/Mindroid.h:149-153 Mindroid::Client *)
Record World := mkWorld {
  mPlugin : bool;
  mTransactionIdGenerator : Z;
  mTransactions : gmap Z nat;
  calls : list Call;
  accessing : option accessor;
  reader : Reader;
  timer : option Z;
  requests : list Packet;
  server : Runtime;
  running : list (Packet * IBinder);
  replies : list Packet;
  answered : list (Packet * answer);
}.

Definition set_client (p : bool) (g : Z) (t : gmap Z nat) (cs : list Call) (w : World) : World :=
  mkWorld p g t cs (accessing w) (reader w) (timer w) (requests w) (server w) (running w) (replies w) (answered w).
Definition set_transactions (f : gmap Z nat -> gmap Z nat) (w : World) : World :=
  set_client (mPlugin w) (mTransactionIdGenerator w) (f (mTransactions w)) (calls w) w.
Definition set_call (k : nat) (c : Call) (w : World) : World :=
  set_client (mPlugin w) (mTransactionIdGenerator w) (mTransactions w) (<[k := c]> (calls w)) w.
Definition set_threads (a : option accessor) (r : Reader) (t : option Z) (w : World) : World :=
  mkWorld (mPlugin w) (mTransactionIdGenerator w) (mTransactions w) (calls w) a r t (requests w) (server w) (running w)
    (replies w) (answered w).
Definition set_reader (r : Reader) (w : World) : World := set_threads (accessing w) r (timer w) w.
Definition set_timer (t : option Z) (w : World) : World := set_threads (accessing w) (reader w) t w.
Definition set_accessing (a : option accessor) (w : World) : World := set_threads a (reader w) (timer w) w.
Definition set_requests (ps : list Packet) (w : World) : World :=
  mkWorld (mPlugin w) (mTransactionIdGenerator w) (mTransactions w) (calls w) (accessing w) (reader w) (timer w) ps
    (server w) (running w) (replies w) (answered w).
Definition set_server (r : Runtime) (rs : list (Packet * IBinder)) (w : World) : World :=
  mkWorld (mPlugin w) (mTransactionIdGenerator w) (mTransactions w) (calls w) (accessing w) (reader w) (timer w)
    (requests w) r rs (replies w) (answered w).
Definition set_replies (ps : list Packet) (ans : list (Packet * answer)) (w : World) : World :=
  mkWorld (mPlugin w) (mTransactionIdGenerator w) (mTransactions w) (calls w) (accessing w) (reader w) (timer w)
    (requests w) (server w) (running w) ps ans.

Definition at_phase (x : phase) (c : Call) : Call := mkCall (packet c) (oneway c) x (promise c).
Definition with_outcome (o : outcome) (c : Call) : Call := mkCall (packet c) (oneway c) (at_ c) (Some o).

(** The call of thread [k], which is in phase [x]. *)
Definition in_phase (k : nat) (x : phase) : M World Call :=
  w ← get_state;
  match calls w !! k with
  | Some c => if decide (at_ c = x) then mret c else undefined
  | None => undefined
  end.

(** ** The client *)

(** Completes the promise of a call, if nobody has: the action that [transact] puts on it with [then],
    which removes the number, is then run by the same thread. *)
(* runtime/system/Mindroid.cpp:348-352 Mindroid::Client::transact *)
Definition complete (k : nat) (o : outcome) : M World bool :=
  w ← get_state;
  match calls w !! k with
  | None => undefined
  | Some c =>
      match promise c with
      | Some _ => mret false
      | None => put_state (set_call k (with_outcome o c) w);; mret true
      end
  end.

(* runtime/system/Mindroid.cpp:334-352 Mindroid::Client::transact *)
Definition transact (u : list Z) (wh : Z) (bs : list Z) (ow : bool) : M World nat :=
  w ← get_state;
  let id := mTransactionIdGenerator w in
  let c := mkCall (mkPacket MESSAGE_TYPE_TRANSACTION u id wh bs) ow Created None in
  put_state (set_client (mPlugin w) (i32 (id + 1)) (mTransactions w) (calls w ++ [c]) w);;
  mret (List.length (calls w)).

(** A call that expects no answer is not registered. *)
(* runtime/system/Mindroid.cpp:345-346 Mindroid::Client::transact *)
Definition skip (k : nat) : M World unit :=
  c ← in_phase k Created;
  if oneway c then modify (set_call k (at_phase Registered c)) else undefined.

(* runtime/system/Mindroid.cpp:353-353 Mindroid::Client::transact *)
Definition register (k : nat) : M World unit :=
  c ← in_phase k Created;
  if oneway c then undefined
  else modify (set_call k (at_phase Registered c));; modify (set_transactions (<[transactionId (packet c) := k]>)).

(** The message is read. *)
(* runtime/system/Mindroid.cpp:365-373 Mindroid::Client::onTransact *)
Definition receive : M World unit :=
  w ← get_state;
  match reader w, replies w with
  | Reading, message :: ps => put_state (set_reader (Looking message) (set_replies ps (answered w) w))
  | _, _ => undefined
  end.

(* runtime/system/Mindroid.cpp:375-376 Mindroid::Client::onTransact *)
Definition find_promise : M World unit :=
  w ← get_state;
  match reader w with
  | Looking message =>
      put_state (set_reader (match mTransactions w !! transactionId message with
                             | Some k => Found message k
                             | None => Reading
                             end) w)
  | _ => undefined
  end.

(* runtime/system/Mindroid.cpp:377-377 Mindroid::Client::onTransact *)
Definition take_promise : M World unit :=
  w ← get_state;
  match reader w with
  | Found message k =>
      put_state (set_reader (Taken message k) (set_transactions (delete (transactionId message)) w))
  | _ => undefined
  end.

(** The number that the action of the promise of call [k] removes. *)
Definition number_of (k : nat) : M World Z :=
  w ← get_state;
  match calls w !! k with Some c => mret (transactionId (packet c)) | None => undefined end.

(* runtime/system/Mindroid.cpp:378-382 Mindroid::Client::onTransact *)
Definition deliver : M World unit :=
  w ← get_state;
  match reader w with
  | Taken message k =>
      done ← complete k (if type message =? MESSAGE_TYPE_TRANSACTION then Result (data message) else RemoteFailure);
      i ← number_of k;
      modify (set_reader (if done : bool then Dropping i else Reading))
  | _ => undefined
  end.

(** The thread of the timers completes a promise in time or has nothing to do. *)
(* runtime/system/Mindroid.cpp:349-352 Mindroid::Client::transact *)
Definition timeout (k : nat) : M World bool :=
  w ← get_state;
  match timer w with
  | None =>
      done ← complete k TimedOut;
      if done : bool then i ← number_of k; modify (set_timer (Some i));; mret true else mret false
  | Some _ => undefined
  end.

(** The action of a promise, in the thread that reads and in that of the timers. *)
(* runtime/system/Mindroid.cpp:350-352 Mindroid::Client::transact *)
Definition drop_read : M World unit :=
  w ← get_state;
  match reader w with
  | Dropping i => put_state (set_reader Reading (set_transactions (delete i) w))
  | _ => undefined
  end.
(* runtime/system/Mindroid.cpp:350-352 Mindroid::Client::transact *)
Definition drop_expired : M World unit :=
  w ← get_state;
  match timer w with
  | Some i => put_state (set_timer None (set_transactions (delete i) w))
  | None => undefined
  end.

(** What an access does, and its begin and end. *)
Definition perform (a : accessor) : M World unit :=
  match a with
  | Put k => register k
  | Look => find_promise
  | Take => take_promise
  | Drop => drop_read
  | Expire => drop_expired
  end.
Definition begin_access (a : accessor) : M World unit :=
  w ← get_state;
  match accessing w with
  | Some _ => undefined
  | None => put_state (set_accessing (Some a) w)
  end.
Definition end_access : M World unit :=
  w ← get_state;
  match accessing w with
  | Some a => modify (set_accessing None);; perform a
  | None => undefined
  end.

(** A thread is about to make an access. *)
Definition ready (a : accessor) (w : World) : Prop :=
  match a with
  | Put k => exists c, calls w !! k = Some c /\ at_ c = Created /\ oneway c = false
  | Look => exists m, reader w = Looking m
  | Take => exists m k, reader w = Found m k
  | Drop => exists i, reader w = Dropping i
  | Expire => is_Some (timer w)
  end.

(** The iterator of the map stands on the entry that the action of the promise removes; the loop goes on
    only over promises that are done already. *)
(* runtime/system/Mindroid.cpp:304-309 Mindroid::Client::shutdown *)
Fixpoint completeAll (ks : list nat) : M World unit :=
  match ks with
  | [] => mret tt
  | k :: ks => d ← complete k RemoteFailure; if d : bool then undefined else completeAll ks
  end.

(** [mPlugin->onShutdown] dereferences the pointer that [mPlugin.clear()] sets to null.  The iteration
    is an access to [mTransactions], too. *)
(* runtime/system/Mindroid.cpp:297-322 Mindroid::Client::shutdown *)
Definition shutdown : M World unit :=
  w ← get_state;
  if mPlugin w then
    put_state (set_client false (mTransactionIdGenerator w) (mTransactions w) (calls w) w);;
    match accessing w with
    | None => completeAll (snd <$> map_to_list (mTransactions w))
    | Some _ => undefined
    end
  else undefined.

(** The thread that reads, when it catches an [IOException]. *)
(* runtime/system/io/AbstractClient.cpp:136-142 AbstractClient::Connection::run *)
Definition readFailed : M World unit :=
  w ← get_state;
  match reader w with
  | Reading => shutdown
  | _ => undefined
  end.

(** A message that is too long, like a broken connection, is an [IOException]. *)
(* runtime/system/Mindroid.cpp:355-362 Mindroid::Client::transact *)
Definition send (connected : bool) (k : nat) : M World unit :=
  c ← in_phase k Registered;
  if connected && (Z.of_nat (List.length (data (packet c))) <=? MAX_MESSAGE_SIZE) then
    modify (set_call k (at_phase Sent c));;
    w ← get_state; put_state (set_requests (requests w ++ [packet c]) w)
  else
    modify (set_call k (at_phase Failed c));;
    w ← get_state;
    match accessing w with
    | Some _ => undefined
    | None => modify (set_transactions (delete (transactionId (packet c))));; shutdown;; throw RemoteException
    end.

(** ** The server *)

Definition BINDER_TRANSACTION_FAILURE : list Z := chars "Binder transaction failure".

Section server.
Context {plugins : Plugins}.

(* runtime/system/Mindroid.cpp:248-248 Mindroid::Server::onTransact *)
Definition find (u : list Z) : M Runtime (option IBinder) :=
  v ← lift (URI.create (Some (Some u))); getBinder_uri (Some v).

(** A reply that is too long is an [IOException] in the action of the promise: it is lost. *)
(* runtime/system/Mindroid.cpp:255-259 Mindroid::Server::onTransact *)
Definition reply (p : Packet) (a : answer) : list Packet :=
  match a with
  | Answer bs =>
      if Z.of_nat (List.length bs) <=? MAX_MESSAGE_SIZE
      then [mkPacket MESSAGE_TYPE_TRANSACTION (uri p) (transactionId p) (what p) bs] else []
  | Exception =>
      [mkPacket MESSAGE_TYPE_EXCEPTION_TRANSACTION (uri p) (transactionId p) (what p) BINDER_TRANSACTION_FAILURE]
  end.

(* runtime/system/Mindroid.cpp:253-260 Mindroid::Server::onTransact *)
Definition sendReply (p : Packet) (a : answer) : M World unit :=
  w ← get_state; put_state (set_replies (replies w ++ reply p a) (answered w ++ [(p, a)]) w).

(** [accepted] is whether the binder takes the call: the looper behind it may have ended. *)
(* runtime/system/Mindroid.cpp:243-290 Mindroid::Server::onTransact *)
Definition onRequest (accepted : bool) : M World unit :=
  w ← get_state;
  match requests w with
  | [] => undefined
  | message :: ps =>
      put_state (set_requests ps w);;
      if type message =? MESSAGE_TYPE_TRANSACTION then
        let '(r, s) := find (uri message) (server w) in
        modify (set_server s (running w));;
        match r with
        | Ok (Some b) =>
            if accepted then modify (set_server s (running w ++ [(message, b)])) else sendReply message Exception
        | Ok None | Throw IllegalArgumentException | Throw RemoteException => sendReply message Exception
        | Throw e => throw e
        | Undef => undefined
        | Diverge => diverge
        end
      else mret tt
  end.

(** The binder completes the promise of its [i]-th call. *)
Definition onAnswer (i : nat) (a : answer) : M World unit :=
  w ← get_state;
  match running w !! i with
  | Some (p, _) => put_state (set_server (server w) (delete i (running w)) w);; sendReply p a
  | None => undefined
  end.
End server.

(** ** Looking a binder up for another node *)

Section lookup.
Context {plugins : Plugins} (no_stubs : forall s b, getStub s b = None).

Lemma find_parsed s id r :
  scheme_ok s -> 0 <= id < 2 ^ 64 ->
  exists u, binder_uri s id u /\ URI.mPath u = Some (Some []) /\ find (binder_text s id) r = getBinder_uri (Some u) r.
Proof.
  intros Hs Hid. destruct (binder_uri_parts s id Hs) as (u & _ & E & Hu & Hp). exists u. split; [done|]. split; [done|].
  unfold find. by rewrite (lift_Ok _ u).
Qed.

Lemma find_ends s id r :
  inv r -> scheme_ok s -> 0 <= id < 2 ^ 64 ->
  exists x r', find (binder_text s id) r = (x, r') /\ inv r' /\ ((exists b, x = Ok b) \/ x = Throw IllegalArgumentException).
Proof.
  intros Hr Hs Hid. destruct (find_parsed s id r Hs Hid) as (u & Hu & Hp & ->). pose proof Hu as [_ Es Ea].
  unfold getBinder_uri. rewrite (lift_Ok _ (node_of id)) by by apply parse_node_ok. rewrite bind_get_state.
  destruct (mNodeId r =? node_of id).
  - rewrite (lift_Ok _ s) by by apply (scheme_characters s id).
    rewrite (lift_Ok _ (authority_text id)).
    2: { rewrite Ea. apply characters_clean, dotted_clean; [apply node_of_range|apply low_range]. }
    destruct (find_binder s (authority_text id) r) as [x r'] eqn:E. pose proof (inv_find_binder no_stubs _ _ _ _ _ Hr E) as Hr'.
    assert (exists b, x = Ok b) as [b ->].
    { revert E. unfold find_binder. rewrite <- bind_assoc.
      destruct (promote_uri (s ++ chars "://" ++ authority_text id) r Hr) as (y & r0 & Ey & Hr0 & _ & Hy). mstep Ey.
      destruct y as [y|]; [intros [= <- _]; by eexists|]. rewrite bind_modify. case_decide; [intros [= <- _]; by eexists|].
      rewrite <- bind_assoc. pose proof (inv_delete_key _ r0 Hr0 Hy) as Hr1. set (r1 := set_uris _ r0) in *.
      destruct (promote_uri (MINDROID_SCHEME ++ chars "://" ++ authority_text id) r1 Hr1) as (z & r2 & Ez & _). mstep Ez.
      destruct z; [rewrite stub_none by done|]; intros [= <- _]; by eexists. }
    mstep E. do 2 eexists. split; [reflexivity|]. split; [done|]. left. by eexists.
  - exists (Throw IllegalArgumentException), r. split; [|by split; [|right]]. unfold create_proxy, mbind, M_bind, lift, new_proxy.
    rewrite (parse_id_ok id) by done. cbn [mbind result_bind]. unfold parse_descriptor. by rewrite Hp.
Qed.

(** A binder that lives is found by its URI. *)
Lemma find_alive s id r b o u :
  inv r -> binders r !! b = Some o -> status o = Alive -> mUri o = Some u -> binder_uri s id u -> mId o = id ->
  0 <= id < 2 ^ 64 -> scheme_ok s -> find (binder_text s id) r = (Ok (Some (Local b)), r).
Proof.
  intros Hr Hb Ha Hu Hbu <- Hid Hs. destruct (find_parsed s (mId o) r Hs Hid) as (v & Hv & _ & ->).
  by apply (found_by_uri r b o u s v).
Qed.
End lookup.

(** ** Every interleaving of a connection that stands *)

Section interleavings.
Context {plugins : Plugins}.

(** A step of a thread that has something to do: of one in [transact], of the two that read from the
    connection, of the thread that completes the promise of a binder, or of the timers' thread in the
    middle of its work.  No access to [mTransactions] begins while another one goes on. *)
Inductive move (w : World) : World -> Prop :=
  | move_skip k w' : skip k w = (Ok tt, w') -> move w w'
  | move_send k w' : send true k w = (Ok tt, w') -> move w w'
  | move_receive w' : receive w = (Ok tt, w') -> move w w'
  | move_deliver w' : deliver w = (Ok tt, w') -> move w w'
  | move_begin a w' : ready a w -> begin_access a w = (Ok tt, w') -> move w w'
  | move_end w' : end_access w = (Ok tt, w') -> move w w'
  | move_request accepted w' : onRequest accepted w = (Ok tt, w') -> move w w'
  | move_answer i a w' : onAnswer i a w = (Ok tt, w') -> move w w'.

(** [work] adds what starts the thread of the timers. *)
Inductive work (w : World) : World -> Prop :=
  | work_move w' : move w w' -> work w w'
  | work_timeout k c w' :
      calls w !! k = Some c -> oneway c = false -> timeout k w = (Ok true, w') -> work w w'.

(** New calls for binders of the server, by the URI their proxies have, and whatever else the server does
    with its registry.  The numbers do not wrap around: a connection has fewer than 2^32 calls. *)
Inductive step (w : World) : World -> Prop :=
  | step_work w' : work w w' -> step w w'
  | step_transact s id wh bs ow k w' :
      scheme_ok s -> 0 <= id < 2 ^ 64 -> Z.of_nat (List.length (calls w)) + 1 < 2 ^ 32 ->
      transact (binder_text s id) wh bs ow w = (Ok k, w') -> step w w'
  | step_server r : Registry.step (server w) r -> step w (set_server r (running w) w).

Definition start (r : Runtime) : World := mkWorld true 1 ∅ [] None Reading None [] r [] [] [].
Definition reachable (n : Z) (c : option Configuration.Configuration) (w : World) : Prop :=
  exists r, Registry.reachable n c r /\ rtc step (start r) w.

(** The packets that were written. *)
Definition sent (cs : list Call) : list Packet := packet <$> filter (fun c => at_ c = Sent) cs.
#[local] Arguments sent : simpl never.
Definition number (k : nat) : Z := i32 (1 + Z.of_nat k).

Record call_ok (k : nat) (c : Call) : Prop := {
  ok_type : type (packet c) = MESSAGE_TYPE_TRANSACTION;
  ok_id : transactionId (packet c) = number k;
  ok_uri : exists s id, uri (packet c) = binder_text s id /\ scheme_ok s /\ 0 <= id < 2 ^ 64;
  ok_phase : at_ c <> Failed;
}.

(** The promise of a call holds what the server answered to its packet. *)
Definition matches (ans : list (Packet * answer)) (c : Call) : Prop :=
  match promise c with
  | Some (Result bs) => (packet c, Answer bs) ∈ ans
  | Some RemoteFailure => (packet c, Exception) ∈ ans
  | Some TimedOut | None => True
  end.

(** What the thread that reads has in its hands, and the call it has taken out of the map. *)
Definition in_hand (r : Reader) : list Packet :=
  match r with Looking m | Found m _ | Taken m _ => [m] | Reading | Dropping _ => [] end.
Definition taken (r : Reader) : option nat := match r with Taken _ k => Some k | _ => None end.

(** The call with a number; one that is done. *)
Definition is_call (cs : list Call) (i : Z) (k : nat) : Prop :=
  exists c, cs !! k = Some c /\ transactionId (packet c) = i.
Definition is_done (cs : list Call) (i : Z) : Prop :=
  exists k c, cs !! k = Some c /\ transactionId (packet c) = i /\ promise c <> None.
Definition reader_ok (cs : list Call) (r : Reader) : Prop :=
  match r with
  | Reading | Looking _ => True
  | Found m k | Taken m k => is_call cs (transactionId m) k
  | Dropping i => is_done cs i
  end.
Definition timer_ok (cs : list Call) (t : option Z) : Prop := match t with Some i => is_done cs i | None => True end.
Definition access_ok (w : World) : Prop := match accessing w with Some a => ready a w | None => True end.

Record inv (w : World) : Prop := {
  inv_server : Registry.inv (server w);
  inv_count : Z.of_nat (List.length (calls w)) < 2 ^ 32;
  inv_next : mTransactionIdGenerator w = number (List.length (calls w));
  inv_call : forall k c, calls w !! k = Some c -> call_ok k c;
  inv_map : forall i k, mTransactions w !! i = Some k ->
    exists c, calls w !! k = Some c /\ transactionId (packet c) = i /\ oneway c = false /\ at_ c <> Created;
  inv_pending : forall k c, calls w !! k = Some c -> oneway c = false -> at_ c <> Created -> promise c = None ->
    mTransactions w !! transactionId (packet c) = Some k \/ taken (reader w) = Some k;
  inv_sent : requests w ++ (fst <$> running w) ++ (fst <$> answered w) ≡ₚ sent (calls w);
  inv_replies : forall q, q ∈ in_hand (reader w) ++ replies w -> exists p a, (p, a) ∈ answered w /\ q ∈ reply p a;
  inv_matches : forall k c, calls w !! k = Some c -> matches (answered w) c;
  inv_unread : forall k c a, calls w !! k = Some c -> oneway c = false -> promise c = None ->
    (packet c, a) ∈ answered w -> forall q, q ∈ reply (packet c) a -> q ∈ in_hand (reader w) ++ replies w;
  inv_reader : reader_ok (calls w) (reader w);
  inv_timer : timer_ok (calls w) (timer w);
  inv_access : access_ok w;
}.

Lemma number_inj j k : Z.of_nat j < 2 ^ 32 -> Z.of_nat k < 2 ^ 32 -> number j = number k -> j = k.
Proof.
  intros Hj Hk E. unfold number in E. apply (f_equal (fun z => z mod 2 ^ 32)) in E. rewrite !i32_mod in E.
  apply Nat2Z.inj. destruct (Z.mod_divide (1 + Z.of_nat j - (1 + Z.of_nat k)) (2 ^ 32)) as [[q Hq] _]; [done| |lia].
  rewrite Zminus_mod, E, Z.sub_diag. done.
Qed.

Lemma number_next k : i32 (number k + 1) = number (S k).
Proof.
  assert (forall a b, a mod 2 ^ 32 = b mod 2 ^ 32 -> i32 a = i32 b) as H.
  { intros a b E. unfold i32. by rewrite Zplus_mod, E, <- Zplus_mod. }
  apply H. rewrite Zplus_mod. unfold number. rewrite i32_mod, <- Zplus_mod. f_equal. lia.
Qed.

(** Calls are told apart by their numbers. *)
Lemma same_call w j k c d :
  inv w -> calls w !! j = Some c -> calls w !! k = Some d -> transactionId (packet c) = transactionId (packet d) -> j = k.
Proof.
  intros Hw Hj Hk E. rewrite (ok_id _ _ (inv_call w Hw j c Hj)), (ok_id _ _ (inv_call w Hw k d Hk)) in E.
  pose proof (inv_count w Hw). apply lookup_lt_Some in Hj, Hk. apply number_inj; [lia..|done].
Qed.

Lemma sent_insert cs k c x :
  cs !! k = Some c -> at_ c <> Sent -> sent (<[k := at_phase x c]> cs) ≡ₚ (if decide (x = Sent) then [packet c] else []) ++ sent cs.
Proof.
  intros Hk Hc. unfold sent. rewrite <- (take_drop_middle cs k c Hk) at 2.
  rewrite insert_take_drop by (by eapply lookup_lt_Some).
  rewrite !filter_app, !fmap_app, !filter_cons. cbn [at_ at_phase]. rewrite (decide_False (P := at_ c = Sent)) by done.
  case_decide; [|done]. cbn. solve_Permutation.
Qed.

Lemma sent_outcome cs k c o : cs !! k = Some c -> sent (<[k := with_outcome o c]> cs) = sent cs.
Proof.
  intros Hk. unfold sent. rewrite <- (take_drop_middle cs k c Hk) at 2.
  rewrite insert_take_drop by (by eapply lookup_lt_Some).
  rewrite !filter_app, !fmap_app, !filter_cons. cbn [at_ with_outcome]. by case_decide.
Qed.

Lemma sent_elem cs p : p ∈ sent cs <-> exists k c, cs !! k = Some c /\ at_ c = Sent /\ packet c = p.
Proof.
  unfold sent. rewrite list_elem_of_fmap. split.
  - intros (c & -> & Hc). apply list_elem_of_filter in Hc as [Hs Hc]. apply list_elem_of_lookup in Hc as [k Hk]. by exists k, c.
  - intros (k & c & Hk & Hs & <-). exists c. split; [done|]. apply list_elem_of_filter. split; [done|]. by eapply list_elem_of_lookup_2.
Qed.

(** *** The invariant is kept *)

Definition completed (k : nat) (c : Call) (o : outcome) (w : World) : World := set_call k (with_outcome o c) w.

Lemma complete_cases k o w b w' :
  complete k o w = (Ok b, w') ->
  exists c, calls w !! k = Some c /\ (if b then promise c = None /\ w' = completed k c o w else promise c <> None /\ w' = w).
Proof.
  unfold complete. rewrite bind_get_state. destruct (calls w !! k) as [c|]; [|done].
  intros H. exists c. split; [done|]. by destruct (promise c); injection H as <- <-.
Qed.

Lemma in_phase_inv {A} k x (f : Call -> M World A) w a w' :
  (in_phase k x ≫= f) w = (Ok a, w') -> exists c, calls w !! k = Some c /\ at_ c = x /\ f c w = (Ok a, w').
Proof.
  unfold in_phase. rewrite bind_assoc, bind_get_state. destruct (calls w !! k) as [c|]; [|done]. case_decide; [|done].
  intros H'. by exists c.
Qed.

Ltac call_cases H :=
  cbn in H; apply list_lookup_insert_Some in H as [(<- & <- & _)|(? & H)].

Lemma call_ok_phase k c x : x <> Failed -> call_ok k c -> call_ok k (at_phase x c).
Proof. intros Hx []. by split. Qed.
Lemma call_ok_outcome k c o : call_ok k c -> call_ok k (with_outcome o c).
Proof. intros []. by split. Qed.

(** A call in place of another with the same packet. *)
Lemma is_call_insert cs k c d i j :
  cs !! k = Some c -> packet d = packet c -> is_call cs i j -> is_call (<[k := d]> cs) i j.
Proof.
  intros Hk E (x & Hx & Ex). destruct (decide (j = k)) as [->|Hne].
  - exists d. rewrite list_lookup_insert_eq by (by eapply lookup_lt_Some). split; [done|]. congruence.
  - exists x. by rewrite list_lookup_insert_ne.
Qed.

Lemma is_done_insert cs k c d i :
  cs !! k = Some c -> packet d = packet c -> (promise c <> None -> promise d <> None) -> is_done cs i -> is_done (<[k := d]> cs) i.
Proof.
  intros Hk E Hp (j & x & Hx & Ex & Hd). destruct (decide (j = k)) as [->|Hne].
  - exists k, d. rewrite list_lookup_insert_eq by (by eapply lookup_lt_Some). assert (x = c) as -> by congruence.
    split; [done|]. split; [congruence|]. by apply Hp.
  - exists j, x. by rewrite list_lookup_insert_ne.
Qed.

Lemma insert_ok w k c d :
  calls w !! k = Some c -> packet d = packet c -> (promise c <> None -> promise d <> None) -> inv w ->
  reader_ok (<[k := d]> (calls w)) (reader w) /\ timer_ok (<[k := d]> (calls w)) (timer w).
Proof.
  intros Hk E Hp Hw. pose proof (inv_reader w Hw) as Hr. pose proof (inv_timer w Hw) as Ht. split.
  - destruct (reader w); [done|done|by eapply is_call_insert..|by eapply is_done_insert].
  - unfold timer_ok in *. destruct (timer w); [|done]. by eapply is_done_insert.
Qed.

(** Another access than the change of this call can still be made. *)
Lemma ready_insert w w' k c d a :
  calls w !! k = Some c -> oneway d = oneway c -> (at_ d = at_ c \/ at_ c <> Created \/ oneway c = true) ->
  calls w' = <[k := d]> (calls w) -> reader w' = reader w -> timer w' = timer w -> ready a w -> ready a w'.
Proof.
  intros Hk Eo Ha Ec Er Et. destruct a as [j| | | |]; cbn; rewrite ?Er, ?Et; try done. intros (x & Hx & Hat & Ho). rewrite Ec.
  destruct (decide (j = k)) as [->|Hne]; [|exists x; by rewrite list_lookup_insert_ne].
  exists d. rewrite list_lookup_insert_eq by (by eapply lookup_lt_Some). assert (x = c) as -> by congruence.
  split; [done|]. rewrite Eo. split; [|done]. destruct Ha as [->|[?|?]]; congruence.
Qed.

Lemma inv_transact s id wh bs ow k w w' :
  scheme_ok s -> 0 <= id < 2 ^ 64 -> Z.of_nat (List.length (calls w)) + 1 < 2 ^ 32 ->
  transact (binder_text s id) wh bs ow w = (Ok k, w') -> inv w -> inv w'.
Proof.
  intros Hs Hid Hn H Hw. unfold transact in H. rewrite bind_get_state in H. injection H as _ <-.
  pose proof (inv_next w Hw) as Hg. set (c := mkCall _ _ _ _).
  assert (forall j d, (calls w ++ [c]) !! j = Some d -> calls w !! j = Some d \/ j = List.length (calls w) /\ d = c) as Hc.
  { intros j d [Hj|[Hj Hd]]%lookup_app_Some; [by left|right]. apply list_lookup_singleton_Some in Hd as [? <-].
    split; [lia|done]. }
  assert (forall i, is_done (calls w) i -> is_done (calls w ++ [c]) i) as Hdone.
  { intros i (j & d & Hj & ?). exists j, d. split; [by apply lookup_app_l_Some|done]. }
  destruct Hw. split; cbn.
  - done.
  - rewrite length_app. cbn. lia.
  - rewrite length_app, Hg, Nat.add_1_r. apply number_next.
  - intros j d [Hj|[-> ->]]%Hc; [by apply inv_call0|]. split; cbn; [done|done|by exists s, id|done].
  - intros i j Hi. destruct (inv_map0 i j Hi) as (d & Hd & ?). exists d. split; [by apply lookup_app_l_Some|done].
  - intros j d [Hj|[-> ->]]%Hc; [by apply inv_pending0|done].
  - rewrite inv_sent0. unfold sent. rewrite filter_app, fmap_app. cbn. by rewrite app_nil_r.
  - done.
  - intros j d [Hj|[-> ->]]%Hc; [by apply (inv_matches0 j)|done].
  - intros j d a [Hj|[-> ->]]%Hc; [by apply (inv_unread0 j)|]. intros _ _ Ha.
    assert (packet c ∈ sent (calls w)) as Hin.
    { rewrite <- inv_sent0, !elem_of_app. do 2 right. apply list_elem_of_fmap. by exists (packet c, a). }
    apply sent_elem in Hin as (j & d & Hj & _ & E). pose proof (ok_id _ _ (inv_call0 j d Hj)) as Ei.
    apply lookup_lt_Some in Hj. rewrite E in Ei. cbn in Ei. rewrite Hg in Ei. apply number_inj in Ei; lia.
  - destruct (reader w); [done|done|..|by apply Hdone]; destruct inv_reader0 as (d & Hd & ?);
      exists d; (split; [by apply lookup_app_l_Some|done]).
  - unfold timer_ok in *. destruct (timer w); [by apply Hdone|done].
  - unfold access_ok in *. cbn. destruct (accessing w) as [[j| | | |]|]; try done.
    destruct inv_access0 as (d & Hd & ?). exists d. split; [by apply lookup_app_l_Some|done].
Qed.

(** A message that cannot be written ends in an exception. *)
Lemma send_fails_ok k c w w' :
  (modify (set_call k (at_phase Failed c));; w ← get_state;
   match accessing w with
   | Some _ => undefined
   | None => modify (set_transactions (delete (transactionId (packet c))));; shutdown;; throw RemoteException
   end) w <> (Ok tt, w').
Proof.
  rewrite bind_modify, bind_get_state. case_match; [done|]. rewrite bind_modify. unfold mbind, M_bind.
  by destruct (shutdown _) as [[]].
Qed.

(** A call goes on to its next phase, and may be entered in the map. *)
Lemma inv_registered k c f w :
  calls w !! k = Some c -> at_ c = Created -> inv w ->
  f (mTransactions w) = (if oneway c then mTransactions w else <[transactionId (packet c) := k]> (mTransactions w)) ->
  accessing w = None \/ oneway c = true -> inv (set_transactions f (set_call k (at_phase Registered c) w)).
Proof.
  intros Hk Hc Hw Ef Hacc. set (c1 := at_phase Registered c).
  pose proof (same_call w) as Hsame. specialize (fun j c d => Hsame j k c d Hw).
  destruct (insert_ok w k c c1 Hk eq_refl (fun H => H) Hw) as [Hr Ht].
  pose proof Hw as []. split; cbn; rewrite ?length_insert, ?Ef; try done.
  - intros j d Hj. call_cases Hj; [|by apply inv_call0]. by apply call_ok_phase, inv_call0.
  - intros i j Hi. assert (j <> k -> mTransactions w !! i = Some j -> exists d, <[k:=c1]> (calls w) !! j = Some d /\
      transactionId (packet d) = i /\ oneway d = false /\ at_ d <> Created) as Hold.
    { intros Hne Ho. destruct (inv_map0 i j Ho) as (d & Hd & ?). exists d. by rewrite list_lookup_insert_ne. }
    assert (mTransactions w !! i = Some k -> False) as Hno.
    { intros Ho. destruct (inv_map0 i k Ho) as (d & Hd & _ & _ & Hat). congruence. }
    destruct (oneway c) eqn:Eo; [apply Hold; [by intros ->|done]|].
    apply lookup_insert_Some in Hi as [[<- <-]|[_ Hi]]; [|apply Hold; [by intros ->|done]].
    exists c1. rewrite list_lookup_insert_eq by (by eapply lookup_lt_Some). done.
  - intros j d Hj Ho Hat Hp. call_cases Hj; cbn in *.
    + left. rewrite Ho. apply lookup_insert_eq.
    + destruct (inv_pending0 j d Hj Ho Hat Hp) as [Hi|Hi]; [left|by right]. destruct (oneway c); [done|].
      rewrite lookup_insert_ne; [done|]. intros E. by apply (Hsame j d c) in Hj.
  - unfold c1. rewrite sent_insert, inv_sent0 by (done || congruence). done.
  - intros j d Hj. call_cases Hj; [exact (inv_matches0 k c Hk)|by apply (inv_matches0 j)].
  - intros j d a Hj. call_cases Hj; [exact (inv_unread0 k c a Hk)|by apply (inv_unread0 j)].
  - unfold access_ok in *. cbn. destruct (accessing w) as [a|] eqn:Ea; [|done].
    apply (ready_insert w _ k c c1); try done. destruct Hacc as [?|?]; [congruence|auto].
Qed.

Lemma inv_skip k w w' : skip k w = (Ok tt, w') -> inv w -> inv w'.
Proof.
  intros (c & Hk & Hc & H)%in_phase_inv Hw. destruct (oneway c) eqn:Eo; [|done]. injection H as <-.
  by apply (inv_registered k c (fun m => m)); rewrite ?Eo; auto.
Qed.

Lemma inv_send k w w' : send true k w = (Ok tt, w') -> inv w -> inv w'.
Proof.
  intros (c & Hk & Hc & H)%in_phase_inv Hw. cbn [andb] in H. destruct (_ <=? _); [|by destruct (send_fails_ok k c w w' H)].
  rewrite bind_modify, bind_get_state in H. injection H as <-.
  destruct (insert_ok w k c (at_phase Sent c) Hk eq_refl (fun H => H) Hw) as [Hr Ht].
  pose proof Hw as []. split; cbn; rewrite ?length_insert; try done.
  - intros j d Hj. call_cases Hj; [|by apply inv_call0]. by apply call_ok_phase, inv_call0.
  - intros i j Hi. destruct (inv_map0 i j Hi) as (d & Hj & E & Ho & Hat). destruct (decide (j = k)) as [->|Hne].
    + assert (d = c) as -> by congruence. exists (at_phase Sent c).
      by rewrite list_lookup_insert_eq by (by eapply lookup_lt_Some).
    + exists d. by rewrite list_lookup_insert_ne.
  - intros j d Hj Ho Hat Hp. call_cases Hj; [|by apply inv_pending0]. apply (inv_pending0 k c Hk Ho); [by rewrite Hc|done].
  - rewrite sent_insert by (done || by rewrite Hc). rewrite decide_True, <- inv_sent0 by done.
    rewrite <- app_assoc. cbn. solve_Permutation.
  - intros j d Hj. call_cases Hj; [exact (inv_matches0 k c Hk)|by apply (inv_matches0 j)].
  - intros j d a Hj. call_cases Hj; [exact (inv_unread0 k c a Hk)|by apply (inv_unread0 j)].
  - unfold access_ok in *. cbn. destruct (accessing w) as [a|] eqn:Ea; [|done].
    apply (ready_insert w _ k c (at_phase Sent c)); try done. right. left. by rewrite Hc.
Qed.

Definition outcome_of (a : answer) : outcome := match a with Answer bs => Result bs | Exception => RemoteFailure end.
Lemma reply_outcome p a q :
  q ∈ reply p a -> (if type q =? MESSAGE_TYPE_TRANSACTION then Result (data q) else RemoteFailure) = outcome_of a.
Proof.
  unfold reply. destruct a; [case_match|]; rewrite ?elem_of_nil, ?list_elem_of_singleton; intros E; try done; by rewrite E.
Qed.

Lemma reply_id p a q : q ∈ reply p a -> transactionId q = transactionId p.
Proof. unfold reply. destruct a; [case_match|]; set_solver. Qed.

Lemma answered_sent w p a : inv w -> (p, a) ∈ answered w -> exists k c, calls w !! k = Some c /\ at_ c = Sent /\ packet c = p.
Proof.
  intros Hw Ha. apply sent_elem. rewrite <- (inv_sent w Hw), !elem_of_app. do 2 right. apply list_elem_of_fmap. by exists (p, a).
Qed.

Lemma inv_complete k c o w :
  calls w !! k = Some c -> promise c = None -> matches (answered w) (with_outcome o c) -> inv w -> inv (completed k c o w).
Proof.
  intros Hk Hp Hm Hw. destruct (insert_ok w k c (with_outcome o c) Hk eq_refl) as [Hr Ht]; [done|done|].
  pose proof Hw as []. split; cbn; rewrite ?length_insert; try done.
  - intros j d Hj. call_cases Hj; [|by apply inv_call0]. by apply call_ok_outcome, inv_call0.
  - intros i j Hi. destruct (inv_map0 i j Hi) as (d & Hj & E & Ho & Hat). destruct (decide (j = k)) as [->|Hne].
    + assert (d = c) as -> by congruence. exists (with_outcome o c).
      by rewrite list_lookup_insert_eq by (by eapply lookup_lt_Some).
    + exists d. by rewrite list_lookup_insert_ne.
  - intros j d Hj Ho Hat Hp'. call_cases Hj; [done|by apply inv_pending0].
  - by rewrite sent_outcome.
  - intros j d Hj. call_cases Hj; [done|by apply (inv_matches0 j)].
  - intros j d a Hj. call_cases Hj; [done|by apply (inv_unread0 j)].
  - unfold access_ok in *. cbn. destruct (accessing w) as [a|] eqn:Ea; [|done].
    apply (ready_insert w _ k c (with_outcome o c)); auto.
Qed.

(** Nothing but the positions of the threads and the map has changed, and in the map entries are missing
    at most. *)
Lemma inv_threads m r t a w :
  inv w -> (forall i k, m !! i = Some k -> mTransactions w !! i = Some k) ->
  (forall k c, calls w !! k = Some c -> oneway c = false -> at_ c <> Created -> promise c = None ->
    mTransactions w !! transactionId (packet c) = Some k \/ taken (reader w) = Some k ->
    m !! transactionId (packet c) = Some k \/ taken r = Some k) ->
  (forall q, q ∈ in_hand r -> q ∈ in_hand (reader w)) ->
  (forall k c q, calls w !! k = Some c -> oneway c = false -> at_ c <> Created -> promise c = None ->
    transactionId q = transactionId (packet c) -> q ∈ in_hand (reader w) -> q ∈ in_hand r) ->
  reader_ok (calls w) r -> timer_ok (calls w) t ->
  (match a with Some x => ready x (set_threads a r t w) | None => True end) ->
  inv (set_threads a r t (set_transactions (fun _ => m) w)).
Proof.
  intros Hw Hm Hpen Hr1 Hr2 Hr Ht Ha. pose proof Hw as []. split; cbn; try done.
  - intros i k Hi. by apply inv_map0, Hm.
  - intros k c Hk Ho Hat Hp. by apply Hpen; [..|apply inv_pending0].
  - intros q. rewrite elem_of_app. intros [Hq|Hq]; apply inv_replies0, elem_of_app; auto.
  - intros k c x Hk Ho Hp Hx q Hq. pose proof (inv_unread0 k c x Hk Ho Hp Hx q Hq) as Hin.
    rewrite elem_of_app in *. destruct Hin as [Hin|Hin]; [left|by right].
    destruct (answered_sent w _ _ Hw Hx) as (j & d & Hj & Hs & E).
    assert (j = k) as -> by (apply (same_call w j k d c); [done..|by rewrite E]). assert (d = c) as -> by congruence.
    apply (Hr2 k c q); try done; [by rewrite Hs|by eapply reply_id].
Qed.

(** The number of a call that is done is removed. *)
Lemma done_removed i w : inv w -> is_done (calls w) i ->
  forall k c, calls w !! k = Some c -> promise c = None -> transactionId (packet c) <> i.
Proof.
  intros Hw (j & d & Hj & Ed & Hd) k c Hk Hp E. assert (j = k) as -> by (apply (same_call w j k d c); congruence).
  congruence.
Qed.

Lemma inv_begin a w w' : ready a w -> begin_access a w = (Ok tt, w') -> inv w -> inv w'.
Proof.
  intros Ha. unfold begin_access. rewrite bind_get_state. destruct (accessing w); [done|]. intros [= <-] Hw.
  apply (inv_threads (mTransactions w) (reader w) (timer w) (Some a) w); try done; [apply (inv_reader w Hw)|apply (inv_timer w Hw)].
Qed.

(** An access ends: [w] is what it finds. *)
Lemma inv_perform a w w' : accessing w = None -> perform a w = (Ok tt, w') -> inv w -> inv w'.
Proof.
  intros Hacc H Hw. destruct a as [k| | | |]; cbn in H.
  - apply in_phase_inv in H as (c & Hk & Hc & H). destruct (oneway c) eqn:Eo; [done|]. rewrite bind_modify in H. injection H as <-.
    by apply (inv_registered k c (<[transactionId (packet c) := k]>)); rewrite ?Eo; auto.
  - unfold find_promise in H. rewrite bind_get_state in H. destruct (reader w) as [|m| | |] eqn:Er; try done. injection H as <-.
    pose proof (inv_pending w Hw) as Hpen. rewrite Er in Hpen. cbn in Hpen.
    destruct (mTransactions w !! transactionId m) as [k|] eqn:Ek.
    + destruct (inv_map w Hw _ _ Ek) as (c & Hk & E & _).
      apply (inv_threads (mTransactions w) (Found m k) (timer w) (accessing w) w); rewrite ?Er, ?Hacc; try done.
      * by exists c.
      * apply (inv_timer w Hw).
    + apply (inv_threads (mTransactions w) Reading (timer w) (accessing w) w); rewrite ?Er, ?Hacc; try done.
      * intros q Hq. by apply elem_of_nil in Hq.
      * intros k c q Hk Ho Hat Hp E Hq. apply list_elem_of_singleton in Hq as ->.
        destruct (Hpen k c Hk Ho Hat Hp) as [Hi|Hi]; [|done]. congruence.
      * apply (inv_timer w Hw).
  - unfold take_promise in H. rewrite bind_get_state in H. destruct (reader w) as [| |m k| |] eqn:Er; try done. injection H as <-.
    pose proof (inv_reader w Hw) as Hrd. rewrite Er in Hrd. destruct Hrd as (d & Hd & Ed).
    apply (inv_threads (delete (transactionId m) (mTransactions w)) (Taken m k) (timer w) (accessing w) w); rewrite ?Er, ?Hacc; try done.
    + intros i j [_ Hi]%lookup_delete_Some. done.
    + intros j c Hj Ho Hat Hp [Hi|Hi]; [|done]. destruct (decide (j = k)) as [->|Hne]; [by right|left].
      rewrite lookup_delete_ne; [done|]. intros E. apply Hne. apply (same_call w j k c d); congruence.
    + by exists d.
    + apply (inv_timer w Hw).
  - unfold drop_read in H. rewrite bind_get_state in H. destruct (reader w) as [| | | |i] eqn:Er; try done. injection H as <-.
    pose proof (inv_reader w Hw) as Hi. rewrite Er in Hi.
    apply (inv_threads (delete i (mTransactions w)) Reading (timer w) (accessing w) w); rewrite ?Er, ?Hacc; try done.
    + intros j x [_ Hj]%lookup_delete_Some. done.
    + intros j c Hj Ho Hat Hp [Hx|Hx]; [|done]. left. rewrite lookup_delete_ne; [done|]. by apply not_eq_sym, (done_removed i w Hw Hi j).
    + apply (inv_timer w Hw).
  - unfold drop_expired in H. rewrite bind_get_state in H. destruct (timer w) as [i|] eqn:Et; try done. injection H as <-.
    pose proof (inv_timer w Hw) as Hi. rewrite Et in Hi.
    apply (inv_threads (delete i (mTransactions w)) (reader w) None (accessing w) w); rewrite ?Hacc; try done.
    + intros j x [_ Hj]%lookup_delete_Some. done.
    + intros j c Hj Ho Hat Hp [Hx|Hx]; [left|by right]. rewrite lookup_delete_ne; [done|].
      by apply not_eq_sym, (done_removed i w Hw Hi j).
    + apply (inv_reader w Hw).
Qed.

Lemma inv_idle w : inv w -> inv (set_accessing None w).
Proof. by intros []. Qed.

Lemma inv_end w w' : end_access w = (Ok tt, w') -> inv w -> inv w'.
Proof.
  unfold end_access. rewrite bind_get_state. destruct (accessing w) as [a|]; [|done]. rewrite bind_modify.
  intros H Hw%inv_idle. by apply (inv_perform a (set_accessing None w)).
Qed.

(** While the thread that reads, or that of the timers, makes no access, it goes on beside the others. *)
Lemma ready_reader a w w' :
  calls w' = calls w -> timer w' = timer w -> (reader w = Reading \/ exists m k, reader w = Taken m k) -> ready a w -> ready a w'.
Proof.
  intros Ec Et Hr. destruct a as [k| | | |]; cbn; rewrite ?Ec, ?Et; try done;
    intros Ha; exfalso; destruct Hr as [Hr|(m & k & Hr)]; rewrite Hr in Ha; naive_solver.
Qed.

Lemma inv_receive w w' : receive w = (Ok tt, w') -> inv w -> inv w'.
Proof.
  unfold receive. rewrite bind_get_state. destruct (reader w) eqn:Er; [|done..]. destruct (replies w) as [|q ps] eqn:Hq; [done|].
  intros [= <-] []. rewrite Er in *. split; cbn; try done.
  - intros q' Hq'. apply inv_replies0. cbn. by rewrite Hq.
  - intros k c a Hk Ho Hp Ha q' Hq'. pose proof (inv_unread0 k c a Hk Ho Hp Ha q' Hq') as Hin. cbn in Hin. by rewrite Hq in Hin.
  - unfold access_ok in *. cbn. destruct (accessing w) as [a|]; [|done]. apply (ready_reader a w); auto.
Qed.

Lemma inv_deliver w w' : deliver w = (Ok tt, w') -> inv w -> inv w'.
Proof.
  unfold deliver. rewrite bind_get_state. destruct (reader w) as [| | |q k|] eqn:Er; [done..| |done]. intros H Hw.
  pose proof (inv_reader w Hw) as Hrd. rewrite Er in Hrd. destruct Hrd as (c & Hk & Ec).
  destruct (inv_replies w Hw q) as (p & a & Ha & Hr); [rewrite Er; by left|]. destruct (answered_sent w p a Hw Ha) as (j & d & Hj & Hs & <-). pose proof (reply_id _ _ _ Hr) as Ei.
  assert (j = k) as -> by (apply (same_call w j k d c); congruence). assert (d = c) as -> by congruence.
  rewrite (reply_outcome _ _ _ Hr) in H. set (o := outcome_of a) in *.
  assert (matches (answered w) (with_outcome o c)) as Hm by (unfold matches, o; cbn; by destruct a).
  assert (forall w1 d, inv w1 -> calls w1 !! k = Some d -> packet d = packet c -> promise d <> None -> reader w1 = reader w ->
    forall r, r = Reading \/ r = Dropping (transactionId (packet c)) -> inv (set_reader r w1)) as Hgo.
  { intros w1 d Hw1 Hd Ed Hp Er1 r Hr1. rewrite Er in Er1.
    assert (in_hand r = [] /\ reader_ok (calls w1) r) as [Hin Hok].
    { destruct Hr1 as [->| ->]; [done|]. split; [done|]. exists k, d. by rewrite Ed. }
    apply (inv_threads (mTransactions w1) r (timer w1) (accessing w1) w1); rewrite ?Er1, ?Hin; try done.
    - intros i x Hi Ho Hat Hn [Hx|[= <-]]; [by left|congruence].
    - intros q' Hq'. by apply elem_of_nil in Hq'.
    - intros i x q' Hi Ho Hat Hn E Hq'. apply list_elem_of_singleton in Hq' as ->.
      assert (i = k) as -> by (apply (same_call w1 i k x d); [done..|]; rewrite Ed; congruence). congruence.
    - apply (inv_timer w1 Hw1).
    - pose proof (inv_access w1 Hw1) as Hacc. unfold access_ok in Hacc. destruct (accessing w1) as [b|] eqn:Eb; [|done].
      apply (ready_reader b w1); eauto. }
  destruct (complete k o w) as [[b|e| |] w1] eqn:E; try (by unfold mbind, M_bind in H; rewrite E in H).
  rewrite (bind_Ok _ _ _ _ _ E) in H. apply complete_cases in E as (d & Hd & Hb). assert (d = c) as -> by congruence.
  assert (exists d, calls w1 !! k = Some d /\ packet d = packet c /\ promise d <> None /\ inv w1 /\ reader w1 = reader w)
    as (d & Hd1 & Ed1 & Hp1 & Hw1 & Er1).
  { destruct b; destruct Hb as [Hp ->].
    - exists (with_outcome o c). split; [cbn; apply list_lookup_insert_eq; by eapply lookup_lt_Some|].
      split; [done|]. split; [done|]. split; [by apply inv_complete|done].
    - by exists c. }
  unfold number_of in H. rewrite bind_assoc, bind_get_state, Hd1, bind_ret in H. injection H as <-.
  apply (Hgo w1 d); try done. rewrite Ed1. destruct b; auto.
Qed.

Lemma inv_timeout k w w' : timeout k w = (Ok true, w') -> inv w -> inv w'.
Proof.
  unfold timeout. rewrite bind_get_state. destruct (timer w) as [i|] eqn:Et; [done|]. intros H Hw.
  destruct (complete k TimedOut w) as [[b|e| |] w1] eqn:E; try (by unfold mbind, M_bind in H; rewrite E in H).
  rewrite (bind_Ok _ _ _ _ _ E) in H. apply complete_cases in E as (c & Hk & Hb). destruct b; [|done]. destruct Hb as [Hp ->].
  assert (calls (completed k c TimedOut w) !! k = Some (with_outcome TimedOut c)) as Hk1
    by (cbn; apply list_lookup_insert_eq; by eapply lookup_lt_Some).
  unfold number_of in H. rewrite bind_assoc, bind_get_state, Hk1, bind_ret, bind_modify in H. injection H as <-.
  assert (inv (completed k c TimedOut w)) as Hw1 by by apply inv_complete. set (w1 := completed k c TimedOut w) in *.
  apply (inv_threads (mTransactions w1) (reader w1) (Some (transactionId (packet c))) (accessing w1) w1); try done.
  - apply (inv_reader w1 Hw1).
  - by exists k, (with_outcome TimedOut c).
  - pose proof (inv_access w1 Hw1) as Hacc. unfold access_ok in Hacc. destruct (accessing w1) as [[]|]; try done. by eexists.
Qed.

(** The server, and what is on its way to it and back, have changed: an answer may have been added. *)
Lemma inv_served w w' new :
  inv w -> Registry.inv (server w') ->
  mTransactionIdGenerator w' = mTransactionIdGenerator w -> mTransactions w' = mTransactions w -> calls w' = calls w ->
  accessing w' = accessing w -> reader w' = reader w -> timer w' = timer w ->
  requests w' ++ (fst <$> running w') ++ (fst <$> answered w') ≡ₚ sent (calls w) ->
  answered w' = answered w ++ new -> replies w' = replies w ++ (new ≫= fun x => reply (fst x) (snd x)) -> inv w'.
Proof.
  intros [] Hr Eg Et Ec Eacc Erd Etm Hs Ea Er. split; rewrite ?Eg, ?Et, ?Ec, ?Erd, ?Etm; try done.
  - intros q. rewrite Er, app_assoc, elem_of_app. intros [Hq|Hq].
    + destruct (inv_replies0 q Hq) as (p & a & Ha & Hq'). exists p, a. rewrite Ea, elem_of_app. auto.
    + apply list_elem_of_bind in Hq as ([p a] & Hq & Ha). exists p, a. rewrite Ea, elem_of_app. auto.
  - intros k c Hk. pose proof (inv_matches0 k c Hk) as Hm. unfold matches in *. rewrite Ea. repeat case_match; set_solver.
  - intros k c a Hk Ho Hp. rewrite Ea, Er, elem_of_app. intros [Ha|Ha] q Hq; rewrite app_assoc, elem_of_app;
      [left; by eapply inv_unread0|right].
    apply list_elem_of_bind. by exists (packet c, a).
  - unfold access_ok, ready in *. rewrite Eacc. destruct (accessing w) as [[]|]; by rewrite ?Ec, ?Erd, ?Etm.
Qed.

Section no_stubs.
Context (no_stubs : forall s b, getStub s b = None).

(** A request on its way: the server has a binder for it or answers that there is none. *)
Lemma request_found w p ps :
  inv w -> requests w = p :: ps ->
  type p = MESSAGE_TYPE_TRANSACTION /\
  exists x r, find (uri p) (server w) = (x, r) /\ Registry.inv r /\ ((exists b, x = Ok b) \/ x = Throw IllegalArgumentException).
Proof.
  intros Hw Hp. assert (p ∈ sent (calls w)) as (k & c & Hk & _ & <-)%sent_elem.
  { rewrite <- (inv_sent w Hw), Hp. by left. }
  destruct (inv_call w Hw k c Hk) as [Ht _ (s & id & -> & Hs & Hid) _ _]. split; [done|].
  by apply (find_ends no_stubs s id _ (inv_server w Hw)).
Qed.

Lemma onRequest_cases accepted p ps w :
  inv w -> requests w = p :: ps ->
  exists r, Registry.inv r /\
    (onRequest accepted w = (Ok tt, set_replies (replies w ++ reply p Exception) (answered w ++ [(p, Exception)])
      (set_server r (running w) (set_requests ps w))) \/
     exists b, accepted = true /\ find (uri p) (server w) = (Ok (Some b), r) /\
       onRequest accepted w = (Ok tt, set_server r (running w ++ [(p, b)]) (set_requests ps w))).
Proof.
  intros Hw Hp. destruct (request_found w p ps Hw Hp) as (Ht & x & r & E & Hr & Hx). exists r. split; [done|].
  unfold onRequest. rewrite bind_get_state, Hp. change (?a ;; ?b) with (a ≫= fun _ => b).
  assert (forall (f : unit -> M World unit) s, (put_state s ≫= f) w = f tt s) as -> by done.
  rewrite (proj2 (Z.eqb_eq _ _) Ht), E, bind_modify.
  destruct Hx as [[[b|] ->]| ->]; [|by left..]. destruct accepted; [right|by left]. by exists b.
Qed.

Lemma inv_request accepted w w' : onRequest accepted w = (Ok tt, w') -> inv w -> inv w'.
Proof.
  intros H Hw. destruct (requests w) as [|p ps] eqn:Hp.
  { unfold onRequest in H. by rewrite bind_get_state, Hp in H. }
  pose proof (inv_sent w Hw) as Hs. rewrite Hp in Hs.
  destruct (onRequest_cases accepted p ps w Hw Hp) as (r & Hr & [E|(b & _ & _ & E)]); rewrite E in H; injection H as <-.
  - apply (inv_served w _ [(p, Exception)]); try done. rewrite <- Hs. cbn. rewrite fmap_app. cbn. solve_Permutation.
  - apply (inv_served w _ []); try done; cbn; [|by rewrite app_nil_r..]. rewrite <- Hs, fmap_app. cbn. solve_Permutation.
Qed.

Lemma inv_answer i a w w' : onAnswer i a w = (Ok tt, w') -> inv w -> inv w'.
Proof.
  unfold onAnswer. rewrite bind_get_state. destruct (running w !! i) as [[p b]|] eqn:Hi; [|done]. intros [= <-] Hw.
  apply (inv_served w _ [(p, a)]); try done; [apply (inv_server w Hw)| |by cbn; rewrite app_nil_r]. cbn. rewrite fmap_app. cbn.
  assert ((fst <$> running w) ≡ₚ p :: (fst <$> delete i (running w))) as Hr.
  { change (p :: (fst <$> delete i (running w))) with (fst <$> (p, b) :: delete i (running w)).
    apply fmap_Permutation, delete_Permutation, Hi. }
  rewrite <- (inv_sent w Hw), Hr. solve_Permutation.
Qed.

Lemma inv_work w w' : work w w' -> inv w -> inv w'.
Proof.
  intros [w1 []|k c w1 Hk Ho H];
    [by eapply inv_skip|by eapply inv_send|by eapply inv_receive|by eapply inv_deliver|by eapply inv_begin|by eapply inv_end
    |by eapply inv_request|by eapply inv_answer|by eapply inv_timeout].
Qed.

Lemma world_step w w' : step w w' -> inv w -> inv w'.
Proof.
  intros [w1 H|s id wh bs ow k w1 Hs Hid Hn H|r H] Hw.
  - by eapply inv_work.
  - by eapply inv_transact.
  - apply (inv_served w _ []); [done| |done|done|done|done|done|done|apply (inv_sent w Hw)|by cbn; rewrite app_nil_r..].
    by apply (registry_step no_stubs (server w) r); [apply (inv_server w Hw)|].
Qed.

Lemma world_start r : Registry.inv r -> inv (start r).
Proof. intros Hr. split; cbn; try done. all: try by intros; exfalso; eapply lookup_nil_Some + eapply not_elem_of_nil. Qed.

Lemma world_reachable n c w : reachable n c w -> inv w.
Proof.
  intros (r & Hr & Hs). assert (inv (start r)) as Hi by by eapply world_start, registry_reachable.
  induction Hs as [|w0 w1 w2 Hst _ IH]; [done|]. apply IH. by eapply world_step.
Qed.
End no_stubs.

Lemma sent_nodup w : inv w -> NoDup (sent (calls w)).
Proof.
  intros Hw. assert (NoDup (packet <$> calls w)) as Hn.
  { apply NoDup_alt. intros i j p Hi Hj. apply list_lookup_fmap_Some in Hi as (c & -> & Hi).
    apply list_lookup_fmap_Some in Hj as (d & E & Hj). apply (same_call w i j c d); [done..|by rewrite E]. }
  eapply sublist_NoDup; [exact Hn|]. apply fmap_sublist, sublist_filter.
Qed.

(** C27: Whatever the threads of both nodes, the connection and the timers do, as long as no two
    accesses to the unlocked [mTransactions] overlap, what completes the promise of a call is what the
    server answered to that very call; the server carries out each message once, and every message
    that was written is on its way to the server, in a binder, or answered.  A connection has fewer than
    2^32 calls, whose URIs are those proxies have, the server's callers are [careful], and there are no
    stubs.  Nothing in the code keeps accesses apart: where two threads are about to make one,
    they can overlap, which is undefined. *)
Theorem answers_matched n cf w :
  (forall s b, getStub s b = None) -> reachable n cf w ->
  (forall k c bs, calls w !! k = Some c -> promise c = Some (Result bs) -> (packet c, Answer bs) ∈ answered w) /\
  (forall k c, calls w !! k = Some c -> promise c = Some RemoteFailure -> (packet c, Exception) ∈ answered w) /\
  (forall j k c d, calls w !! j = Some c -> calls w !! k = Some d -> transactionId (packet c) = transactionId (packet d) -> j = k) /\
  NoDup (requests w ++ (fst <$> running w) ++ (fst <$> answered w)) /\
  (forall k c, calls w !! k = Some c -> at_ c = Sent ->
    packet c ∈ requests w ++ (fst <$> running w) ++ (fst <$> answered w)) /\
  (forall a b, a <> b -> accessing w = None -> ready a w -> ready b w ->
    exists w', begin_access a w = (Ok tt, w') /\ move w w' /\ ready b w' /\ fst (begin_access b w') = Undef).
Proof.
  intros no_stubs Hw%world_reachable; [|done]. split_and!.
  - intros k c bs Hk Hp. pose proof (inv_matches w Hw k c Hk) as Hm. unfold matches in Hm. by rewrite Hp in Hm.
  - intros k c Hk Hp. pose proof (inv_matches w Hw k c Hk) as Hm. unfold matches in Hm. by rewrite Hp in Hm.
  - intros j k c d. by apply same_call.
  - rewrite (inv_sent w Hw). by apply sent_nodup.
  - intros k c Hk Hs. rewrite (inv_sent w Hw), sent_elem. by exists k, c.
  - intros a b _ Hacc Ha Hb. exists (set_accessing (Some a) w).
    assert (begin_access a w = (Ok tt, set_accessing (Some a) w)) as E by (unfold begin_access; by rewrite bind_get_state, Hacc).
    split; [done|]. split; [by apply (move_begin w a)|]. split; [by destruct b|done].
Qed.

(** *** Every call ends *)

Definition weight (c : Call) : nat :=
  (match at_ c with Created => 13 | Registered => 11 | Sent | Failed => 0 end +
   match promise c with Some _ => 0 | None => 3 end)%nat.
Definition reader_weight (r : Reader) : nat :=
  match r with Reading => 0 | Looking _ => 7 | Found _ _ => 5 | Taken _ _ => 3 | Dropping _ => 2 end.

(** How much is left to do: ten steps for each message that is on its way, nine for one in a binder, eight
    for an answer that is on its way back. *)
Definition load (w : World) : nat :=
  (sum_list_with weight (calls w) + 10 * List.length (requests w) + 9 * List.length (running w) + 8 * List.length (replies w) +
   reader_weight (reader w) + match timer w with Some _ => 2 | None => 0 end + match accessing w with Some _ => 0 | None => 1 end)%nat.

(** Nothing is on its way, no thread is in the middle of anything; a call that waits is one whose answer is
    too long to be sent. *)
Definition settled (w : World) : Prop :=
  requests w = [] /\ running w = [] /\ replies w = [] /\ reader w = Reading /\ accessing w = None /\
  forall k c, calls w !! k = Some c -> at_ c = Sent /\
    (oneway c = true \/ is_Some (promise c) \/
     exists bs, (packet c, Answer bs) ∈ answered w /\ MAX_MESSAGE_SIZE < Z.of_nat (List.length bs)).

(** No message is too long. *)
Definition fits (w : World) : Prop :=
  Forall (fun c => Z.of_nat (List.length (data (packet c))) <= MAX_MESSAGE_SIZE) (calls w).

Lemma weight_insert cs k c d :
  cs !! k = Some c -> (sum_list_with weight (<[k := d]> cs) + weight c = sum_list_with weight cs + weight d)%nat.
Proof.
  intros Hk. rewrite <- (take_drop_middle cs k c Hk) at 2. rewrite insert_take_drop by (by eapply lookup_lt_Some).
  rewrite !sum_list_with_app. cbn [sum_list_with]. lia.
Qed.

Lemma reply_length p a : (List.length (reply p a) <= 1)%nat.
Proof. unfold reply. destruct a; [case_match|]; cbn; lia. Qed.

Section no_stubs.
Context (no_stubs : forall s b, getStub s b = None).

Lemma load_call k c d w :
  calls w !! k = Some c -> (load (set_call k d w) + weight c = load w + weight d)%nat.
Proof. intros Hk. pose proof (weight_insert _ _ _ d Hk). unfold load. cbn. lia. Qed.

Lemma weight_outcome o c : promise c = None -> weight c = (weight (with_outcome o c) + 3)%nat.
Proof. intros Hp. unfold weight. rewrite Hp. cbn. lia. Qed.
Lemma weight_registered c : at_ c = Created -> weight c = (weight (at_phase Registered c) + 2)%nat.
Proof. intros Hc. unfold weight. rewrite Hc. cbn. lia. Qed.
Lemma weight_sent c : at_ c = Registered -> weight c = (weight (at_phase Sent c) + 11)%nat.
Proof. intros Hc. unfold weight. rewrite Hc. cbn. lia. Qed.

Lemma load_reader r w : (load (set_reader r w) + reader_weight (reader w) = load w + reader_weight r)%nat.
Proof. unfold load. cbn. lia. Qed.
Lemma load_timer i w :
  (load (set_timer (Some i) w) + match timer w with Some _ => 2 | None => 0 end = load w + 2)%nat.
Proof. unfold load. cbn. lia. Qed.

Lemma load_complete k o w b w' :
  complete k o w = (Ok b, w') ->
  exists c, calls w' !! k = Some c /\ reader w' = reader w /\ timer w' = timer w /\ (load w' + (if b then 3 else 0) = load w)%nat.
Proof.
  intros (c & Hk & H)%complete_cases. destruct b; destruct H as [Hp ->]; [|exists c; repeat split; [done|lia]].
  exists (with_outcome o c). split; [cbn; apply list_lookup_insert_eq; by eapply lookup_lt_Some|]. split; [done|]. split; [done|].
  pose proof (load_call k c (with_outcome o c) w Hk) as Hl. pose proof (weight_outcome o c Hp). unfold completed. lia.
Qed.

Lemma bind_complete {A} k o (f : bool -> M World A) w r w' :
  (complete k o ≫= f) w = (Ok r, w') -> exists b w1, complete k o w = (Ok b, w1) /\ f b w1 = (Ok r, w').
Proof. unfold mbind, M_bind. destruct (complete k o w) as [[b|e| |] w1]; intros H; try done. by exists b, w1. Qed.

Lemma load_perform a w w' : perform a w = (Ok tt, w') -> (load w' + 2 <= load w)%nat.
Proof.
  destruct a as [k| | | |]; cbn [perform].
  - intros (c & Hk & Hc & H)%in_phase_inv. destruct (oneway c); [done|]. rewrite bind_modify in H. injection H as <-.
    pose proof (load_call k c (at_phase Registered c) w Hk) as Hl. pose proof (weight_registered c Hc).
    assert (forall f v, load (set_transactions f v) = load v) as -> by done. lia.
  - unfold find_promise. rewrite bind_get_state. destruct (reader w) eqn:Er; try done. intros [= <-].
    unfold load. cbn. rewrite Er. case_match; cbn; lia.
  - unfold take_promise. rewrite bind_get_state. destruct (reader w) eqn:Er; try done. intros [= <-].
    unfold load. cbn. rewrite Er. cbn. lia.
  - unfold drop_read. rewrite bind_get_state. destruct (reader w) eqn:Er; try done. intros [= <-].
    unfold load. cbn. rewrite Er. cbn. lia.
  - unfold drop_expired. rewrite bind_get_state. destruct (timer w) eqn:Et; try done. intros [= <-].
    unfold load. cbn. rewrite Et. cbn. lia.
Qed.

Lemma load_move w w' : inv w -> move w w' -> (load w' < load w)%nat.
Proof.
  intros Hw [k w2 H|k w2 H|w2 H|w2 H|a w2 _ H|w2 H|accepted w2 H|i a w2 H].
  - apply in_phase_inv in H as (c & Hk & Hc & H). destruct (oneway c); [|done]. injection H as <-.
    pose proof (load_call k c (at_phase Registered c) w Hk) as Hl. pose proof (weight_registered c Hc). lia.
  - apply in_phase_inv in H as (c & Hk & Hc & H). cbn [andb] in H.
    destruct (_ <=? _); [|by destruct (send_fails_ok k c w w2 H)]. rewrite bind_modify, bind_get_state in H. injection H as <-.
    pose proof (load_call k c (at_phase Sent c) w Hk) as Hl. pose proof (weight_sent c Hc).
    unfold load in *. cbn [calls requests running replies reader timer accessing set_requests set_call set_client] in *.
    rewrite length_app. cbn [List.length]. lia.
  - unfold receive in H. rewrite bind_get_state in H. destruct (reader w) eqn:Er; try done. destruct (replies w) eqn:Hq; [done|].
    injection H as <-. unfold load. cbn. rewrite Er, Hq. cbn. lia.
  - unfold deliver in H. rewrite bind_get_state in H. destruct (reader w) as [| | |q k|] eqn:Er; try done.
    apply bind_complete in H as (b & w1 & E & H). apply load_complete in E as (c & Hk & Er1 & _ & Hl).
    unfold number_of in H. rewrite bind_assoc, bind_get_state, Hk, bind_ret in H. injection H as <-.
    pose proof (load_reader (if b then Dropping (transactionId (packet c)) else Reading) w1) as Hr. rewrite Er1, Er in Hr.
    destruct b; cbn [reader_weight] in Hr; lia.
  - unfold begin_access in H. rewrite bind_get_state in H. destruct (accessing w) eqn:Ea; [done|]. injection H as <-.
    unfold load. cbn. rewrite Ea. lia.
  - unfold end_access in H. rewrite bind_get_state in H. destruct (accessing w) eqn:Ea; [|done]. rewrite bind_modify in H.
    apply load_perform in H. unfold load in *. cbn in *. rewrite Ea. lia.
  - destruct (requests w) as [|p ps] eqn:Hp; [unfold onRequest in H; by rewrite bind_get_state, Hp in H|].
    destruct (onRequest_cases no_stubs accepted p ps w Hw Hp) as (r & _ & [E|(b & _ & _ & E)]); rewrite E in H; injection H as <-;
      unfold load; cbn; rewrite Hp, length_app; cbn; lia.
  - unfold onAnswer in H. rewrite bind_get_state in H. destruct (running w !! i) as [[p b]|] eqn:Hi; [|done].
    injection H as <-. unfold load. cbn. rewrite length_app, length_delete by done. pose proof (reply_length p a).
    apply lookup_lt_Some in Hi. lia.
Qed.

Lemma load_work w w' : inv w -> work w w' -> (load w' < load w)%nat.
Proof.
  intros Hw [w1 H|k c w1 Hk Ho H]; [by apply load_move|]. unfold timeout in H. rewrite bind_get_state in H.
  destruct (timer w) eqn:Et; [done|]. apply bind_complete in H as (b & w2 & E & H).
  apply load_complete in E as (d & Hd & _ & Et2 & Hl). destruct b; [|done].
  unfold number_of in H. rewrite bind_assoc, bind_get_state, Hd, bind_ret, bind_modify in H. injection H as <-.
  pose proof (load_timer (transactionId (packet d)) w2). rewrite Et2, Et in *. lia.
Qed.

(** What was written, or is about to be, has a size that fits. *)
Lemma packets_move w w' : move w w' -> packet <$> calls w' = packet <$> calls w.
Proof.
  assert (forall (k : nat) c d (cs : list Call), cs !! k = Some c -> packet d = packet c -> packet <$> <[k := d]> cs = packet <$> cs) as Hins.
  { intros k c d cs Hk E. rewrite list_fmap_insert, E. apply list_insert_id. by rewrite list_lookup_fmap, Hk. }
  intros [k w2 H|k w2 H|w2 H|w2 H|a w2 _ H|w2 H|accepted w2 H|i a w2 H].
  - apply in_phase_inv in H as (c & Hk & Hc & H). destruct (oneway c); [|done]. injection H as <-. by apply (Hins k c).
  - apply in_phase_inv in H as (c & Hk & Hc & H). cbn [andb] in H.
    destruct (_ <=? _); [|by destruct (send_fails_ok k c w w2 H)]. rewrite bind_modify, bind_get_state in H. injection H as <-.
    by apply (Hins k c).
  - unfold receive in H. rewrite bind_get_state in H. destruct (reader w), (replies w); try done. by injection H as <-.
  - unfold deliver in H. rewrite bind_get_state in H. destruct (reader w) as [| | |q k|]; try done.
    apply bind_complete in H as (b & w1 & E & H). apply complete_cases in E as (c & Hk & Hb).
    assert (packet <$> calls w1 = packet <$> calls w) as <- by (destruct b; destruct Hb as [_ ->]; [by apply (Hins k c)|done]).
    unfold number_of in H. rewrite bind_assoc, bind_get_state in H. destruct (calls w1 !! k); [|done].
    rewrite bind_ret in H. by injection H as <-.
  - unfold begin_access in H. rewrite bind_get_state in H. destruct (accessing w); [done|]. by injection H as <-.
  - unfold end_access in H. rewrite bind_get_state in H. destruct (accessing w) as [a|]; [|done]. rewrite bind_modify in H.
    destruct a as [k| | | |]; cbn [perform] in H.
    + apply in_phase_inv in H as (c & Hk & Hc & H). destruct (oneway c); [done|]. rewrite bind_modify in H. injection H as <-.
      by apply (Hins k c).
    + unfold find_promise in H. rewrite bind_get_state in H. cbn in H. destruct (reader w); try done. by injection H as <-.
    + unfold take_promise in H. rewrite bind_get_state in H. cbn in H. destruct (reader w); try done. by injection H as <-.
    + unfold drop_read in H. rewrite bind_get_state in H. cbn in H. destruct (reader w); try done. by injection H as <-.
    + unfold drop_expired in H. rewrite bind_get_state in H. cbn in H. destruct (timer w); try done. by injection H as <-.
  - unfold onRequest in H. rewrite bind_get_state in H. destruct (requests w) as [|p ps]; [done|].
    revert H. unfold mbind, M_bind, put_state, modify, sendReply, throw, mret, M_ret. cbn.
    destruct (type p =? MESSAGE_TYPE_TRANSACTION); [|by intros [= <-]]. cbn. destruct (find (uri p) (server w)) as [r s]. cbn.
    destruct r as [[b|]|[]| |]; try destruct accepted; cbn; try done; by intros [= <-].
  - unfold onAnswer in H. rewrite bind_get_state in H. destruct (running w !! i) as [[p b]|]; [|done]. by injection H as <-.
Qed.

Lemma fits_work w w' : work w w' -> fits w -> fits w'.
Proof.
  assert (forall v, fits v <-> Forall (fun p => Z.of_nat (List.length (data p)) <= MAX_MESSAGE_SIZE) (packet <$> calls v)) as Hf
    by (intros v; unfold fits; by rewrite Forall_fmap).
  intros H. rewrite !Hf. enough (packet <$> calls w' = packet <$> calls w) as ->; [done|].
  destruct H as [w1 H|k c w1 Hk Ho H]; [by apply packets_move|]. unfold timeout in H. rewrite bind_get_state in H.
  destruct (timer w); [done|]. apply bind_complete in H as (b & w2 & E & H). destruct b; [|done].
  apply complete_cases in E as (d & Hd & _ & ->). unfold number_of in H. rewrite bind_assoc, bind_get_state in H.
  destruct (calls (completed k d TimedOut w) !! k); [|done]. rewrite bind_ret, bind_modify in H. injection H as <-. cbn.
  rewrite list_fmap_insert. apply list_insert_id. by rewrite list_lookup_fmap, Hd.
Qed.

Lemma in_phase_ok {A} k x c (f : Call -> M World A) w :
  calls w !! k = Some c -> at_ c = x -> (in_phase k x ≫= f) w = f c w.
Proof. intros Hk Hc. unfold in_phase. by rewrite bind_assoc, bind_get_state, Hk, decide_True. Qed.

(** An access that can be made comes to its end. *)
Lemma end_ends w a : inv w -> accessing w = Some a -> exists w', move w w'.
Proof.
  intros Hw Ha. pose proof (inv_access w Hw) as Hr. unfold access_ok in Hr. rewrite Ha in Hr.
  enough (exists w', end_access w = (Ok tt, w')) as [w' E] by (exists w'; by apply move_end).
  unfold end_access. rewrite bind_get_state, Ha, bind_modify. destruct a as [k| | | |]; cbn in Hr; cbn [perform].
  - destruct Hr as (c & Hk & Hc & Ho). unfold register. rewrite (in_phase_ok k Created c) by done. rewrite Ho. by eexists.
  - destruct Hr as [m Hr]. unfold find_promise. rewrite bind_get_state. cbn. rewrite Hr. by eexists.
  - destruct Hr as (m & k & Hr). unfold take_promise. rewrite bind_get_state. cbn. rewrite Hr. by eexists.
  - destruct Hr as [m Hr]. unfold drop_read. rewrite bind_get_state. cbn. rewrite Hr. by eexists.
  - destruct Hr as [i Hr]. unfold drop_expired. rewrite bind_get_state. cbn. rewrite Hr. by eexists.
Qed.

Lemma begin_ends w a : accessing w = None -> ready a w -> exists w', move w w'.
Proof.
  intros Ha Hr. eexists. apply (move_begin w a); [done|]. unfold begin_access. rewrite bind_get_state, Ha. reflexivity.
Qed.

Lemma deliver_ends w m k : inv w -> reader w = Taken m k -> exists w', move w w'.
Proof.
  intros Hw Hr. pose proof (inv_reader w Hw) as Hok. rewrite Hr in Hok. destruct Hok as (c & Hk & _).
  enough (exists w', deliver w = (Ok tt, w')) as [w' E] by (exists w'; by apply move_deliver).
  unfold deliver. rewrite bind_get_state, Hr. set (o := if _ =? _ then _ else _).
  assert (exists b w1 d, complete k o w = (Ok b, w1) /\ calls w1 !! k = Some d) as (b & w1 & d & E & Hd).
  { unfold complete. rewrite bind_get_state, Hk. destruct (promise c); [by eexists _, _, _|].
    eexists _, _, (with_outcome o c). split; [reflexivity|]. cbn. apply list_lookup_insert_eq. by eapply lookup_lt_Some. }
  mstep E. unfold number_of. rewrite bind_assoc, bind_get_state, Hd, bind_ret. by eexists.
Qed.

(** Everybody who does not wait for an access can go on. *)
Lemma move_or_settled w : inv w -> fits w -> (exists w', move w w') \/ settled w.
Proof.
  intros Hw Hfit. destruct (accessing w) as [a|] eqn:Hacc; [left; by eapply end_ends|].
  destruct (decide (Forall (fun c => at_ c = Sent) (calls w))) as [Hall|Hnot].
  2: { left. apply not_Forall_Exists in Hnot; [|apply _]. apply Exists_exists in Hnot as (c & Hin & Hc).
    pose proof (proj1 (Forall_forall _ _) Hfit c Hin) as Hlen. apply list_elem_of_lookup in Hin as [k Hk].
    cbn in Hc. destruct (at_ c) eqn:Hat; [| |done|by destruct (ok_phase _ _ (inv_call w Hw k c Hk))].
    - destruct (oneway c) eqn:Ho; [|apply (begin_ends w (Put k)); [done|by exists c]].
      eexists. apply (move_skip w k). unfold skip. rewrite (in_phase_ok k Created c) by done. rewrite Ho. reflexivity.
    - eexists. apply (move_send w k). unfold send. rewrite (in_phase_ok k Registered c) by done. cbn in Hlen.
      rewrite (proj2 (Z.leb_le _ _) Hlen). reflexivity. }
  destruct (requests w) as [|p ps] eqn:Hp.
  2: { left. destruct (onRequest_cases no_stubs true p ps w Hw Hp) as (r & _ & [E|(b & _ & _ & E)]);
         eexists; by apply (move_request _ true). }
  destruct (running w) as [|[p b] rs] eqn:Hr.
  2: { left. eexists. apply (move_answer _ 0 Exception). unfold onAnswer. rewrite bind_get_state, Hr. reflexivity. }
  destruct (reader w) as [|m|m k|m k|i] eqn:Hrd.
  2: { left. apply (begin_ends w Look); [done|by exists m]. }
  2: { left. apply (begin_ends w Take); [done|by exists m, k]. }
  2: { left. by eapply deliver_ends. }
  2: { left. apply (begin_ends w Drop); [done|by exists i]. }
  destruct (replies w) as [|q qs] eqn:Hq.
  2: { left. eexists. apply move_receive. unfold receive. rewrite bind_get_state, Hrd, Hq. reflexivity. }
  right. do 5 (split; [done|]). intros k c Hk. rewrite Forall_lookup in Hall. pose proof (Hall k c Hk) as Hat. split; [done|].
  destruct (oneway c) eqn:Eo; [by left|right]. destruct (promise c) eqn:Ep; [by left|right].
  assert (packet c ∈ sent (calls w)) as Hin by (apply sent_elem; by exists k, c).
  rewrite <- (inv_sent w Hw), Hp, Hr in Hin. cbn in Hin. apply list_elem_of_fmap in Hin as ([p a] & E & Ha). cbn in E.
  rewrite <- E in Ha. pose proof (inv_unread w Hw k c a Hk Eo Ep Ha) as Hu. rewrite Hq, Hrd in Hu.
  assert (reply (packet c) a = []) as Hnil.
  { destruct (reply (packet c) a) as [|x xs]; [done|]. exfalso. eapply not_elem_of_nil, (Hu x). by left. }
  unfold reply in Hnil. destruct a as [bs|]; [|done]. exists bs. split; [done|].
  by destruct (Z.leb_spec (Z.of_nat (List.length bs)) MAX_MESSAGE_SIZE).
Qed.
End no_stubs.

(** C28: On a connection that stands, the threads that have something to do come to an end, as long
    as no two accesses to the unlocked [mTransactions] overlap: after at most [load w] steps whatever
    the order, the timers included, and until then one of them can go on without such an overlap,
    whatever the others have done.  At the end every call that waits for an answer has one, or has one
    that is longer than a message may be.  No message of a client is that long (64 MB); a connection has
    fewer than 2^32 calls, whose URIs are those proxies have, the server's callers are [careful], its
    binders answer, and there are no stubs. *)
Theorem calls_answered n cf w :
  (forall s b, getStub s b = None) -> reachable n cf w -> fits w ->
  (forall m w', nsteps work m w w' -> (m <= load w)%nat) /\
  (forall w', rtc work w w' -> (exists w'', move w' w'') \/ settled w').
Proof.
  intros no_stubs Hw%world_reachable Hf; [|done]. split.
  - intros m w' Hs. clear Hf. induction Hs as [w|m w1 w2 w3 H _ IH]; [lia|].
    pose proof (load_work no_stubs w1 w2 Hw H). specialize (IH (inv_work no_stubs w1 w2 H Hw)). lia.
  - intros w' Hs. enough (inv w' /\ fits w') as [Hw' Hf'] by by apply move_or_settled.
    induction Hs as [w|w1 w2 w3 H _ IH]; [done|]. apply IH; [by apply (inv_work no_stubs w1 w2)|by apply (fits_work w1)].
Qed.

(** A request with the URI of a binder of the server that lives is handed to that binder and
    to no other, and neither the registry nor anything else changes. *)
Theorem request_reaches n cf w p ps s b o u :
  (forall s b, getStub s b = None) -> reachable n cf w -> requests w = p :: ps ->
  binders (server w) !! b = Some o -> status o = Alive -> mUri o = Some u -> binder_uri s (mId o) u ->
  uri p = binder_text s (mId o) ->
  onRequest true w = (Ok tt, set_server (server w) (running w ++ [(p, Local b)]) (set_requests ps w)).
Proof.
  intros no_stubs Hw%world_reachable Hp Hb Ha Hu Hbu Eu; [|done].
  assert (existing (server w) b o) as He by (split; [done|by rewrite Ha]).
  destruct (Registry.inv_id _ (inv_server w Hw) b o He) as (Hid & _).
  destruct (Registry.inv_uri _ (inv_server w Hw) b o u He Hu) as (s' & Hs & [_ Es' _] & _).
  assert (s' = s) as -> by (destruct Hbu; congruence).
  pose proof (find_alive s (mId o) (server w) b o u (inv_server w Hw) Hb Ha Hu Hbu eq_refl Hid Hs) as E. rewrite <- Eu in E.
  destruct (onRequest_cases no_stubs true p ps w Hw Hp) as (r & _ & [E'|(b' & _ & Ef & E')]); [|congruence].
  unfold onRequest in *. rewrite bind_get_state, Hp in *. destruct (request_found no_stubs w p ps Hw Hp) as (Ht & _).
  assert (forall (f : unit -> M World unit) s, (put_state s ≫= f) w = f tt s) as Hput by done.
  rewrite Hput, (proj2 (Z.eqb_eq _ _) Ht), E in E'. rewrite Hput, (proj2 (Z.eqb_eq _ _) Ht), E. done.
Qed.

End interleavings.
(** ** Where the code fails *)

Section failures.
Context {plugins : Plugins}.

(** A request with a URI that has no authority, which any program that connects may send, makes the
    server dereference a null pointer, whatever it has registered. *)
Theorem bad_uri accepted p ps w u :
  requests w = p :: ps -> type p = MESSAGE_TYPE_TRANSACTION ->
  URI.create (Some (Some (uri p))) = Ok u -> URI.mAuthority u = None ->
  fst (onRequest accepted w) = Undef.
Proof.
  intros Hp Ht Hu Ha. unfold onRequest. rewrite bind_get_state, Hp.
  assert (forall (f : unit -> M World unit) s, (put_state s ≫= f) w = f tt s) as -> by done.
  rewrite (proj2 (Z.eqb_eq _ _) Ht).
  assert (find (uri p) (server w) = (Undef, server w)) as ->; [|done].
  unfold find. rewrite (lift_Ok _ u) by done. unfold getBinder_uri, parse_node. by rewrite Ha.
Qed.

Definition waits (w : World) (k : nat) : Prop := exists c, calls w !! k = Some c /\ promise c = None.

Lemma completeAll_waiting ks w :
  Forall (fun k => is_Some (calls w !! k)) ks -> Exists (waits w) ks -> fst (completeAll ks w) = Undef.
Proof.
  intros Hk He. induction ks as [|k ks IH]; [by apply Exists_nil in He|].
  apply Forall_cons in Hk as [[c Hk] Hks]. cbn [completeAll].
  destruct (complete k RemoteFailure w) as [r w'] eqn:E. unfold complete in E. rewrite bind_get_state, Hk in E.
  destruct (promise c) eqn:Hp; injection E as <- <-.
  - assert (complete k RemoteFailure w = (Ok false, w)) as E by (unfold complete; by rewrite bind_get_state, Hk, Hp).
    mstep E. apply IH; [done|]. apply Exists_cons in He as [(d & Hd & Hn)|He]; [congruence|done].
  - unfold complete. by rewrite bind_assoc, bind_get_state, Hk, Hp.
Qed.

Lemma completeAll_done ks w :
  Forall (fun j => exists d, calls w !! j = Some d /\ promise d <> None) ks -> completeAll ks w = (Ok tt, w).
Proof.
  induction 1 as [|j ks (d & Hd & Hp) _ IH]; [done|]. cbn [completeAll].
  assert (complete j RemoteFailure w = (Ok false, w)) as E.
  { unfold complete. rewrite bind_get_state, Hd. by destruct (promise d). }
  mstep E. exact IH.
Qed.

Lemma shutdown_waiting w :
  map_Forall (fun _ k => is_Some (calls w !! k)) (mTransactions w) ->
  (exists i k, mTransactions w !! i = Some k /\ waits w k) -> fst (shutdown w) = Undef.
Proof.
  intros Hm (i & k & Hi & Hw). unfold shutdown. rewrite bind_get_state. destruct (mPlugin w); [|done].
  destruct (accessing w) eqn:Ha; [done|].
  apply (completeAll_waiting _ (set_client false (mTransactionIdGenerator w) (mTransactions w) (calls w) w)).
  - apply Forall_forall. intros j Hj. apply list_elem_of_fmap in Hj as ([i' j'] & -> & Hj).
    apply elem_of_map_to_list in Hj. by apply (Hm i').
  - apply Exists_exists. exists k. split; [|done]. apply list_elem_of_fmap. exists (i, k). split; [done|]. by apply elem_of_map_to_list.
Qed.

(** C32: When a message cannot be written, because the connection broke or the message is too
    long, and another call waits for its answer or another thread is using [mTransactions],
    [transact] has undefined behaviour: [shutdown] completes the promise of the other call, whose action
    erases the entry the iterator stands on.  With no other call waiting, the caller gets its
    [RemoteException]; but when the thread that waits for the next message catches an [IOException]
    after that, as it does when [shutdown] has the connection closed, it shuts down once more and
    dereferences a null pointer. *)
Theorem connection_lost n cf connected w k c :
  (forall s b, getStub s b = None) -> reachable n cf w -> mPlugin w = true -> calls w !! k = Some c -> at_ c = Registered ->
  connected = false \/ MAX_MESSAGE_SIZE < Z.of_nat (List.length (data (packet c))) ->
  (accessing w <> None -> fst (send connected k w) = Undef) /\
  ((exists j d, j <> k /\ calls w !! j = Some d /\ oneway d = false /\ at_ d <> Created /\ promise d = None /\
      taken (reader w) <> Some j) ->
    fst (send connected k w) = Undef) /\
  (accessing w = None -> reader w = Reading ->
    (forall j d, j <> k -> calls w !! j = Some d -> oneway d = false -> at_ d <> Created -> promise d <> None) ->
    exists w', send connected k w = (Throw RemoteException, w') /\ fst (readFailed w') = Undef).
Proof.
  intros no_stubs Hw%world_reachable Hpl Hk Hc Hlost; [|done].
  set (w0 := set_call k (at_phase Failed c) w). set (w1 := set_transactions (delete (transactionId (packet c))) w0).
  assert (send connected k w = match accessing w with Some _ => undefined w0 | None => (shutdown;; throw RemoteException) w1 end) as Es.
  { unfold send. rewrite (in_phase_ok k Registered c) by done.
    assert (connected && (Z.of_nat (List.length (data (packet c))) <=? MAX_MESSAGE_SIZE) = false) as ->.
    { destruct Hlost as [->|Hl]; [done|]. rewrite (proj2 (Z.leb_gt _ _) Hl). apply andb_false_r. }
    rewrite bind_modify, bind_get_state. fold w0. change (accessing w0) with (accessing w).
    destruct (accessing w); [done|]. by rewrite bind_modify. }
  assert (map_Forall (fun _ j => j <> k /\ exists d, calls w !! j = Some d /\ calls w1 !! j = Some d) (mTransactions w1)) as Hall.
  { intros i j Hi. change (mTransactions w1) with (delete (transactionId (packet c)) (mTransactions w)) in Hi.
    apply lookup_delete_Some in Hi as [Hne Hi]. destruct (inv_map w Hw i j Hi) as (d & Hd & E & _).
    assert (j <> k) as Hjk by (intros ->; congruence). split; [done|]. exists d. split; [done|]. cbn. by rewrite list_lookup_insert_ne. }
  rewrite Es. split; [by destruct (accessing w)|]. split.
  - intros (j & d & Hne & Hj & Ho & Hat & Hp & Ht). destruct (accessing w) eqn:Hacc; [done|].
    assert (fst (shutdown w1) = Undef) as E.
    { apply shutdown_waiting; [intros i x Hi; destruct (Hall i x Hi) as (_ & e & _ & He); by exists e|].
      exists (transactionId (packet d)), j. split.
      - cbn. rewrite lookup_delete_ne; [by destruct (inv_pending w Hw j d)|]. intros E. apply Hne. by apply (same_call w j k d c).
      - exists d. split; [|done]. cbn. by rewrite list_lookup_insert_ne. }
    unfold mbind, M_bind. destruct (shutdown w1) as [r w2]. cbn in E. by subst r.
  - intros Hacc Hr Hdone. rewrite Hacc.
    set (w2 := set_client false (mTransactionIdGenerator w1) (mTransactions w1) (calls w1) w1).
    assert (completeAll (snd <$> map_to_list (mTransactions w1)) w2 = (Ok tt, w2)) as Hks.
    { apply completeAll_done, Forall_forall. intros j ([i j'] & -> & Hi)%list_elem_of_fmap. apply elem_of_map_to_list in Hi. cbn.
      destruct (Hall i j' Hi) as (Hjk & d & Hd & Hd1). exists d. split; [exact Hd1|].
      change (mTransactions w1) with (delete (transactionId (packet c)) (mTransactions w)) in Hi.
      apply lookup_delete_Some in Hi as [_ Hi]. destruct (inv_map w Hw i j' Hi) as (d' & Hd' & _ & Ho & Hat).
      assert (d' = d) as -> by congruence. by apply (Hdone j' d). }
    exists w2. split.
    + assert (shutdown w1 = (Ok tt, w2)) as E; [|by rewrite (bind_Ok _ _ _ _ _ E)].
      unfold shutdown. rewrite bind_get_state. change (mPlugin w1) with (mPlugin w). rewrite Hpl.
      change (accessing w1) with (accessing w). rewrite Hacc. exact Hks.
    + unfold readFailed. rewrite bind_get_state. change (reader w2) with (reader w). rewrite Hr.
      unfold shutdown. by rewrite bind_get_state.
Qed.
End failures.
End Transaction.

(** ** A call of the echo service *)

Module TransactionExample.
Import CString Str Runtime Registry Transaction.
#[local] Instance no_stub : Plugins := {| getStub := RuntimeExample.mindroid_getStub |}.
#[local] Existing Instances Configuration.example_values Configuration.example_numbers.

Lemma no_stubs s b : getStub s b = None.
Proof. done. Qed.

Definition echo_text : list Z := binder_text (chars "mindroid") (global 1 1).
Definition called (n : nat) (w : World) : World := exec (transact echo_text 1 (repeat 7 n) false) w.

(** Two calls; the first is written, carried out and answered. *)
Definition w1 : World := called 1 (start RuntimeExample.server).
Definition w2 : World := called 2 w1.
Definition access (a : accessor) : M World unit := begin_access a;; end_access.
Definition put0 : World := exec (access (Put 0)) w2.
Definition w3 : World := exec (access (Put 1)) put0.
Definition w4 : World := exec (send true 0) w3.
Definition w5 : World := exec (onRequest true) w4.
Definition w6 : World := exec (onAnswer 0 (Answer [8; 9])) w5.
Definition read0 : World := exec receive w6.
Definition read1 : World := exec (access Look) read0.
Definition read2 : World := exec (access Take) read1.
Definition w7 : World := exec deliver read2.

Notation reached := (Transaction.reachable 1 (Some Configuration.example)).

Lemma next w w' : Transaction.step w w' -> reached w -> reached w'.
Proof. intros Hs (r & Hr & Hw). exists r. split; [done|]. by eapply rtc_r. Qed.

Lemma next_move w w' : move w w' -> reached w -> reached w'.
Proof. intros Hm. by apply next, step_work, work_move. Qed.

Lemma called_reachable n w k :
  Z.of_nat (List.length (calls w)) + 1 < 2 ^ 32 ->
  transact echo_text 1 (repeat 7 n) false w = (Ok k, called n w) -> reached w -> reached (called n w).
Proof.
  intros Hc E. apply next. by apply (step_transact _ (chars "mindroid") (global 1 1) 1 (repeat 7 n) false k); [decided|decided|..].
Qed.

Lemma access_reachable a w w' :
  ready a w -> begin_access a w = (Ok tt, set_accessing (Some a) w) -> end_access (set_accessing (Some a) w) = (Ok tt, w') ->
  reached w -> reached w'.
Proof. intros Ha Hb He Hw. apply (next_move (set_accessing (Some a) w)); [by apply move_end|]. by apply (next_move w); [eapply move_begin|]. Qed.

Lemma w2_reachable : reached w2.
Proof.
  apply (called_reachable 2 w1 1); [decided|reflexivity|]. apply (called_reachable 1 _ 0); [decided|reflexivity|].
  exists RuntimeExample.server. split; [apply RuntimeExample.server_reachable|apply rtc_refl].
Qed.
Lemma w3_reachable : reached w3.
Proof.
  apply (access_reachable (Put 1) put0); [|vm_compute; reflexivity..|].
  { eexists. split; [vm_compute; reflexivity|]. by split. }
  apply (access_reachable (Put 0) w2); [|vm_compute; reflexivity..|apply w2_reachable].
  eexists. split; [vm_compute; reflexivity|]. by split.
Qed.
Lemma w4_reachable : reached w4.
Proof. apply (next_move w3); [apply (move_send _ 0); vm_compute; reflexivity|apply w3_reachable]. Qed.
Lemma w7_reachable : reached w7.
Proof.
  apply (next_move read2); [apply move_deliver; vm_compute; reflexivity|].
  apply (access_reachable Take read1); [|vm_compute; reflexivity..|].
  { eexists _, _. vm_compute. reflexivity. }
  apply (access_reachable Look read0); [|vm_compute; reflexivity..|].
  { eexists. vm_compute. reflexivity. }
  apply (next_move w6); [apply move_receive; vm_compute; reflexivity|].
  apply (next_move w5); [apply (move_answer _ 0 (Answer [8; 9])); vm_compute; reflexivity|].
  apply (next_move w4); [apply (move_request _ true); vm_compute; reflexivity|apply w4_reachable].
Qed.

Definition first : Packet := mkPacket 1 echo_text 1 1 [7].

(** Two threads in [transact]: they can be in [put] at the same time. *)
Lemma answers_matched_witness :
  calls w7 !! 0%nat = Some (mkCall first false Sent (Some (Result [8; 9]))) /\ (first, Answer [8; 9]) ∈ answered w7 /\
  exists w', begin_access (Put 0) w2 = (Ok tt, w') /\ move w2 w' /\ ready (Put 1) w' /\ fst (begin_access (Put 1) w') = Undef.
Proof.
  assert (calls w7 !! 0%nat = Some (mkCall first false Sent (Some (Result [8; 9])))) as Hk by (vm_compute; reflexivity).
  split; [exact Hk|]. split; [exact (proj1 (answers_matched 1 _ w7 no_stubs w7_reachable) 0%nat _ _ Hk eq_refl)|].
  destruct (answers_matched 1 _ w2 no_stubs w2_reachable) as (_ & _ & _ & _ & _ & Hrace).
  apply (Hrace (Put 0) (Put 1)); [done|reflexivity| |]; (eexists; split; [vm_compute; reflexivity|by split]).
Defined.

Lemma calls_answered_witness :
  load w3 = 29%nat /\ (forall m w', nsteps work m w3 w' -> (m <= 29)%nat) /\
  (forall w', rtc work w3 w' -> (exists w'', move w' w'') \/ settled w').
Proof.
  split; [vm_compute; reflexivity|].
  apply (calls_answered 1 _ w3 no_stubs w3_reachable).
  repeat constructor; decided.
Defined.

Lemma request_reaches_witness :
  onRequest true w4 = (Ok tt, set_server (server w4) [(first, Local 0)] (set_requests [] w4)).
Proof.
  refine (request_reaches 1 _ w4 first [] (chars "mindroid") 0 RuntimeExample.echo_binder RuntimeExample.echo_uri
    no_stubs w4_reachable _ _ _ _ _ _); try (vm_compute; reflexivity). split; vm_compute; reflexivity.
Defined.

Definition attack : World := set_requests [mkPacket 1 (chars "mindroid:/x") 1 1 []] (start RuntimeExample.server).
Lemma bad_uri_witness : fst (onRequest true attack) = Undef.
Proof. by eapply (bad_uri true _ [] attack); [reflexivity|reflexivity|vm_compute; reflexivity|reflexivity]. Defined.

Definition timed : World := exec (timeout 0) w3.
Definition second : Packet := mkPacket 1 echo_text 2 1 [7; 7].

Lemma connection_lost_witness :
  fst (send false 0 w3) = Undef /\
  exists w', send false 1 timed = (Throw RemoteException, w') /\ fst (readFailed w') = Undef.
Proof.
  split.
  - destruct (connection_lost 1 _ false w3 0 (mkCall first false Registered None) no_stubs w3_reachable) as (_ & H & _);
      [reflexivity|vm_compute; reflexivity|reflexivity|by left|]. apply H.
    exists 1%nat, (mkCall second false Registered None). split; [done|]. split; [vm_compute; reflexivity|].
    do 3 (split; [done|]). done.
  - assert (reached timed) as Hr.
    { apply (next w3); [|apply w3_reachable].
      apply step_work, (work_timeout _ 0 (mkCall first false Registered None)); vm_compute; reflexivity. }
    destruct (connection_lost 1 _ false timed 1 (mkCall second false Registered None) no_stubs Hr) as (_ & _ & H);
      [reflexivity|vm_compute; reflexivity|reflexivity|by left|]. apply H; [reflexivity|reflexivity|].
    intros j d Hj Hd _ _. destruct j as [|[|j]]; [|done|].
    + assert (calls timed !! 0%nat = Some (mkCall first false Registered (Some TimedOut))) as E by (vm_compute; reflexivity).
      rewrite E in Hd. by injection Hd as <-.
    + exfalso. assert (List.length (calls timed) = 2%nat) as Hl by (vm_compute; reflexivity). apply lookup_lt_Some in Hd. lia.
Defined.
End TransactionExample.
