(* ===== verification/FileHandlers.v ===== *)
(** * util/logging/FileHandler.cpp: a log in a rotating set of files

    The handler appends records to the first of a set of files and, when the file is full, renames
    each file to the next one and starts again.  The disk maps the paths of regular files to their
    contents; the directory exists and nobody else changes the files; opening, renaming and removing
    succeed where the file is there.  What a write takes is what the class [Disk] answers.

    [parseFileName] is the text of the [tokens] of its pattern.  [running] is a handler ready to publish,
    with what its files hold; [published] is the effect of one record on them, [log_of] the log without
    a bound on the number of files.  [log_rotates] and [volume_kept] follow a handler from its
    construction. *)

From S2P Require Import Prelude Strings Numbers.
From stdpp Require Import gmap fin_maps.
Open Scope Z_scope.

Module FileHandler.
Import CString Str.

(** [written contents bs] is what [write] answers for a file: how many of the bytes it took, negative for
    an error; [homePath] is the directory of the user in the password file. *)
Class Disk := {
  written : list Z -> list Z -> Z;
  homePath : list Z;
}.

Definition len (l : list Z) : Z := Z.of_nat (List.length l).
Definition separator : list Z := chars "/".
(* io/File.h:60-60 File::separatorChar *)
Definition separatorChar : Z := 47.
(* util/logging/FileHandler.cpp:33-33 FileHandler::CRLF *)
Definition CRLF : list Z := [13; 10].
(* util/logging/FileHandler.h:175-175 FileHandler::DEFAULT_COUNT *)
Definition DEFAULT_COUNT : Z := 1.
(* util/logging/FileHandler.h:176-176 FileHandler::DEFAULT_LIMIT *)
Definition DEFAULT_LIMIT : Z := 0.
(* util/Log.h:66-66 Log::INFO *)
Definition INFO : Z := 2.

(** The file behind [mFd], no file for -1. *)
(* util/logging/FileHandler.h:169-171 FileHandler::Writer *)
Record Writer := mkWriter {
  mFd : option (list Z);
  mSize : Z;
}.

(** [mLock] is whether the pointer is set. *)
(* util/logging/FileHandler.h:182-194 FileHandler *)
Record FileHandler := mkHandler {
  mPattern : sp;
  mAppend : bool;
  mLimit : Z;
  mCount : Z;
  mWriter : option Writer;
  mFiles : list (list Z);
  mBufferSize : Z;
  mFlushSize : Z;
  mDataVolume : Z;
  mDataVolumeLimit : Z;
  mPriority : Z;
  mLock : bool;
}.

(** With the files and the data volume that the preferences hold. *)
Record World := mkWorld {
  handler : FileHandler;
  disk : gmap (list Z) (list Z);
  volume : option Z;
}.

Definition set_disk (f : gmap (list Z) (list Z) -> gmap (list Z) (list Z)) (w : World) : World :=
  mkWorld (handler w) (f (disk w)) (volume w).
Definition set_handler (h : FileHandler) (w : World) : World := mkWorld h (disk w) (volume w).
Definition set_volume (v : Z) (w : World) : World := mkWorld (handler w) (disk w) (Some v).
Definition with_writer (x : option Writer) (h : FileHandler) : FileHandler :=
  mkHandler (mPattern h) (mAppend h) (mLimit h) (mCount h) x (mFiles h) (mBufferSize h) (mFlushSize h) (mDataVolume h)
    (mDataVolumeLimit h) (mPriority h) (mLock h).
Definition with_files (fs : list (list Z)) (h : FileHandler) : FileHandler :=
  mkHandler (mPattern h) (mAppend h) (mLimit h) (mCount h) (mWriter h) fs (mBufferSize h) (mFlushSize h) (mDataVolume h)
    (mDataVolumeLimit h) (mPriority h) (mLock h).
Definition with_sizes (flushed volume : Z) (h : FileHandler) : FileHandler :=
  mkHandler (mPattern h) (mAppend h) (mLimit h) (mCount h) (mWriter h) (mFiles h) (mBufferSize h) flushed volume
    (mDataVolumeLimit h) (mPriority h) (mLock h).

Definition lift {A} (x : result A) : M World A := fun w => (x, w).
Definition this {A} (f : FileHandler -> A) : M World A := gets (fun w => f (handler w)).
Definition update (f : FileHandler -> FileHandler) : M World unit := modify (fun w => set_handler (f (handler w)) w).
Definition file (i : nat) : M World (list Z) := fs ← this mFiles; lift (from_option Ok (Throw IndexOutOfBoundsException) (fs !! i)).

(** ** Files *)

(* io/File.cpp:93-96 File::exists *)
Definition exists_ (f : list Z) : M World bool := gets (fun w => bool_decide (is_Some (disk w !! f))).

(* io/File.cpp:169-176 File::length *)
Definition length_ (f : list Z) : M World Z := gets (fun w => from_option len 0 (disk w !! f)).

(* io/File.cpp:89-91 File::remove *)
Definition remove (f : list Z) : M World unit := modify (set_disk (delete f)).

(* io/File.cpp:245-247 File::renameTo *)
Definition renameTo (f newPath : list Z) : M World unit :=
  modify (set_disk (fun d => match d !! f with Some c => <[newPath := c]> (delete f d) | None => d end)).

(* io/File.cpp:235-243 File::createNewFile *)
Definition createNewFile (f : list Z) : M World unit := modify (set_disk (<[f := []]>)).

Section files.
Context {env : Disk}.

(* util/logging/FileHandler.cpp:291-305 FileHandler::Writer::Writer *)
Definition new_writer (f : list Z) (append : bool) : M World Writer :=
  b ← exists_ f;
  (if b : bool then mret tt else createNewFile f);;
  (if append then mret tt else modify (set_disk (<[f := []]>)));;
  n ← length_ f;
  mret (mkWriter (Some f) n).

(* util/logging/FileHandler.cpp:311-320 FileHandler::Writer::write *)
Definition write (s : list Z) : M World unit :=
  x ← this mWriter;
  match x with
  | None => undefined
  | Some x =>
      match mFd x with
      | None => mret tt
      | Some f =>
          w ← get_state;
          let c := default [] (disk w !! f) in
          let size := written c s in
          if 0 <? size then
            modify (set_disk (<[f := c ++ take (Z.to_nat size) s]>));;
            update (with_writer (Some (mkWriter (Some f) (mSize x + size))))
          else mret tt
      end
  end.

(* util/logging/FileHandler.cpp:337-339 FileHandler::Writer::newLine *)
Definition newLine : M World unit := write CRLF.

(** ** The handler *)

(* util/logging/FileHandler.cpp:209-217 FileHandler::flush *)
Definition flush : M World unit :=
  h ← this id;
  match mWriter h with
  | Some _ => if 0 <? mDataVolumeLimit h then modify (set_volume (mDataVolume h)) else mret tt
  | None => mret tt
  end.

(* util/logging/FileHandler.cpp:200-207 FileHandler::close *)
Definition close : M World unit := flush;; update (with_writer None).

(** Generation [i] is removed, and the one before it becomes generation [i]; then the one before that. *)
(* util/logging/FileHandler.cpp:89-94 FileHandler::findNextGeneration *)
Fixpoint rotate (i : nat) : M World unit :=
  match i with
  | O => mret tt
  | S j =>
      f ← file (S j);
      b ← exists_ f;
      (if b : bool then remove f else mret tt);;
      g ← file j;
      renameTo g f;;
      rotate j
  end.

(* util/logging/FileHandler.cpp:95-95 FileHandler::findNextGeneration *)
Definition open_first : M World unit :=
  f ← file 0;
  a ← this mAppend;
  x ← new_writer f a;
  update (with_writer (Some x)).

(* util/logging/FileHandler.cpp:86-96 FileHandler::findNextGeneration *)
Definition findNextGeneration : M World unit :=
  close;;
  n ← this mCount;
  rotate (Z.to_nat (n - 1));;
  open_first.

(** Each round of the loop looks at the first file. *)
(* util/logging/FileHandler.cpp:222-226 FileHandler::clear *)
Fixpoint clearFirst (n : nat) : M World unit :=
  match n with
  | O => mret tt
  | S n => f ← file 0; b ← exists_ f; (if b : bool then remove f else mret tt);; clearFirst n
  end.

(* util/logging/FileHandler.cpp:219-228 FileHandler::clear *)
Definition clear : M World unit :=
  close;;
  n ← this mCount;
  clearFirst (Z.to_nat n);;
  open_first.

(** [logMessage] is the text of the record. *)
(* util/logging/FileHandler.cpp:230-256 FileHandler::publish *)
Definition publish (priority : Z) (logMessage : list Z) : M World unit :=
  h ← this id;
  if priority <? mPriority h then mret tt else
  let logMessageSize := i32 (len logMessage + len CRLF) in
  if negb (mLock h) then undefined else
  if (0 <? mDataVolumeLimit h) && (mDataVolumeLimit h <? i32 (mDataVolume h + logMessageSize)) then mret tt else
  (if 0 <? mLimit h then
     match mWriter h with
     | None => undefined
     | Some x => if mLimit h <=? i32 (i32 (mSize x) + logMessageSize) then findNextGeneration else mret tt
     end
   else mret tt);;
  write logMessage;;
  newLine;;
  h ← this id;
  let flushed := i32 (mFlushSize h + logMessageSize) in
  update (with_sizes flushed (i32 (mDataVolume h + logMessageSize)));;
  if mBufferSize h <=? flushed then
    flush;; update (fun h => with_sizes 0 (mDataVolume h) h)
  else mret tt.

(** ** Names *)

(** The loop over the [%] of the pattern; where the last character is one, it is looked at for ever. *)
(* util/logging/FileHandler.cpp:111-137 FileHandler::parseFileName *)
Fixpoint parseLoop (fuel : nat) (gen : Z) (value s : String) (curChar : Z) (hasGeneration : bool) :
    result (String * Z * bool) :=
  match fuel with
  | O => Diverge
  | S fuel =>
      nextChar ← indexOf_char_from value 37 curChar;
      if 0 <=? nextChar then
        let nextChar := nextChar + 1 in
        if nextChar <? length value then
          c ← charAt value nextChar;
          if c =? 103 (* g *) then
            s ← append_string_region s (Some value) curChar (nextChar - curChar - 1);
            s ← append s (Some (Some (decimal gen)));
            parseLoop fuel gen value s (nextChar + 1) true
          else if c =? 104 (* h *) then
            s ← append_string_region s (Some value) curChar (nextChar - curChar - 1);
            s ← append s (Some (Some homePath));
            b ← endsWith (Some homePath) (Some (Some separator));
            s ← (if b : bool then Ok s else append s (Some (Some separator)));
            n ← (if nextChar + 1 <? length value then
                   d ← charAt value (nextChar + 1);
                   Ok (if d =? separatorChar then nextChar + 1 else nextChar)
                 else Ok nextChar);
            parseLoop fuel gen value s (n + 1) hasGeneration
          else if c =? 37 (* % *) then
            s ← append_string_region s (Some value) curChar (nextChar - curChar - 1);
            s ← append_chars s (Some [37; 0]);
            parseLoop fuel gen value s (nextChar + 1) hasGeneration
          else
            s ← append_string_region s (Some value) curChar (nextChar - curChar);
            parseLoop fuel gen value s (nextChar + 1) hasGeneration
        else parseLoop fuel gen value s curChar hasGeneration
      else Ok (s, curChar, hasGeneration)
  end.

(** A round that goes on passes at least two characters of the pattern. *)
(* util/logging/FileHandler.cpp:98-146 FileHandler::parseFileName *)
Definition parseFileName (pattern : sp) (count gen : Z) : result (list Z) :=
  p ← deref pattern;
  value ← replace p 47 separatorChar;
  '(s, curChar, hasGeneration) ← parseLoop (S (List.length (default [] value))) gen value (Some []) 0 false;
  s ← append_string_region s (Some value) curChar (length value - curChar);
  s ← (if negb hasGeneration && (1 <? count) then
         s ← append_chars s (Some [46; 0]); append s (Some (Some (decimal gen)))
       else Ok s);
  deref s.

(** The path of a new [File]. *)
(* io/File.cpp:55-59 File::File *)
Definition new_file (path : list Z) : list Z :=
  if negb (bool_decide (path = separator)) && bool_decide (separator `suffix_of` path)
  then take (List.length path - 1) path else path.

(** ** Constructors *)

(** The members of an object before [init]. *)
(* util/logging/FileHandler.h:182-194 FileHandler *)
Definition fresh (lock : bool) : FileHandler := mkHandler None false DEFAULT_LIMIT DEFAULT_COUNT None [] 0 0 0 0 INFO lock.

(* util/logging/FileHandler.cpp:46-60 FileHandler::initProperties *)
Definition initProperties (p : sp) (a : bool) (l c bufferSize dataVolumeLimit : Z) : M World unit :=
  let pattern := match p with None => Some (Some (chars "%h/Mindroid-%g.log")) | Some _ => p end in
  s ← lift (deref pattern);
  if length s =? 0 then throw NullPointerException
  else update (fun h =>
    mkHandler pattern a (if l <? 0 then DEFAULT_LIMIT else l) (if c <? 1 then DEFAULT_COUNT else c) (mWriter h) (mFiles h)
      (if bufferSize <? 0 then 0 else bufferSize) (mFlushSize h) (mDataVolume h) (if dataVolumeLimit <? 0 then 0 else dataVolumeLimit)
      (mPriority h) (mLock h)).

(* util/logging/FileHandler.cpp:63-65 FileHandler::initOutputFiles *)
Fixpoint fileNames (pattern : sp) (count : Z) (n : nat) (generation : Z) : result (list (list Z)) :=
  match n with
  | O => Ok []
  | S n =>
      f ← parseFileName pattern count generation;
      fs ← fileNames pattern count n (generation + 1);
      Ok (new_file f :: fs)
  end.

(* util/logging/FileHandler.cpp:62-76 FileHandler::initOutputFiles *)
Definition initOutputFiles : M World unit :=
  h ← this id;
  fs ← lift (fileNames (mPattern h) (mCount h) (Z.to_nat (mCount h)) 0);
  update (fun h => with_files (mFiles h ++ fs) h);;
  f ← file 0;
  b ← exists_ f;
  n ← length_ f;
  (if b && (negb (mAppend h) || (u64 (mLimit h) <=? n)) then rotate (Z.to_nat (mCount h - 1)) else mret tt);;
  open_first.

(* util/logging/FileHandler.cpp:78-84 FileHandler::initPreferences *)
Definition initPreferences : M World unit :=
  h ← this id;
  if 0 <? mDataVolumeLimit h then
    w ← get_state; update (with_sizes (mFlushSize h) (default 0 (volume w)))
  else mret tt.

(* util/logging/FileHandler.cpp:40-44 FileHandler::init *)
Definition init (pattern : sp) (append : bool) (limit count bufferSize dataVolumeLimit : Z) : M World unit :=
  initProperties pattern append limit count bufferSize dataVolumeLimit;;
  initOutputFiles;;
  initPreferences.

(** The lock is not made. *)
(* util/logging/FileHandler.cpp:36-38 FileHandler::FileHandler *)
Definition new_default : M World unit :=
  update (fun _ => fresh false);; init None false 0 0 0 0.

(* util/logging/FileHandler.cpp:186-198 FileHandler::FileHandler *)
Definition new (pattern : sp) (limit count : Z) (append : bool) (bufferSize dataVolumeLimit : Z) : M World unit :=
  update (fun _ => fresh true);;
  throw_if (match pattern with Some s => length s =? 0 | None => true end) IllegalArgumentException;;
  throw_if ((limit <? 0) || (count <? 1)) IllegalArgumentException;;
  throw_if ((bufferSize <? 0) || (dataVolumeLimit <? 0)) IllegalArgumentException;;
  init pattern append limit count bufferSize dataVolumeLimit.

(* util/logging/FileHandler.cpp:175-184 FileHandler::FileHandler *)
Definition new_append (pattern : sp) (limit count : Z) (append : bool) : M World unit :=
  update (fun _ => fresh true);;
  throw_if (match pattern with Some s => length s =? 0 | None => true end) IllegalArgumentException;;
  throw_if ((limit <? 0) || (count <? 1)) IllegalArgumentException;;
  init pattern append limit count 0 0.

(* util/logging/FileHandler.cpp:156-162 FileHandler::FileHandler *)
Definition new_single (pattern : sp) (append : bool) : M World unit :=
  update (fun _ => fresh true);;
  throw_if (match pattern with Some s => length s =? 0 | None => true end) IllegalArgumentException;;
  init pattern append DEFAULT_LIMIT DEFAULT_COUNT 0 0.

(* util/logging/FileHandler.cpp:164-173 FileHandler::FileHandler *)
Definition new_limited (pattern : sp) (limit count : Z) : M World unit :=
  update (fun _ => fresh true);;
  throw_if (match pattern with Some s => length s =? 0 | None => true end) IllegalArgumentException;;
  throw_if ((limit <? 0) || (count <? 1)) IllegalArgumentException;;
  init pattern false limit count 0 0.

(* util/logging/FileHandler.cpp:148-154 FileHandler::FileHandler *)
Definition new_pattern (pattern : sp) : M World unit :=
  update (fun _ => fresh true);;
  throw_if (match pattern with Some s => length s =? 0 | None => true end) IllegalArgumentException;;
  init pattern false DEFAULT_LIMIT DEFAULT_COUNT 0 0.
(** ** What a pattern stands for *)

Inductive token := Lit (c : Z) | Gen | Home.
#[export] Instance token_eq_dec : EqDecision token.
Proof. solve_decision. Defined.

(** [%g], [%h] with a slash behind it, [%%]; any other character behind a [%] is dropped. *)
Fixpoint tokens (p : list Z) : option (list token) :=
  match p with
  | [] => Some []
  | c :: p =>
      if c =? 37 then
        match p with
        | [] => None
        | d :: p =>
            if d =? 103 then cons Gen <$> tokens p
            else if d =? 104 then
              cons Home <$> match p with e :: q => if e =? separatorChar then tokens q else tokens p | [] => Some [] end
            else cons (Lit 37) <$> tokens p
        end
      else cons (Lit c) <$> tokens p
  end.

(** What stands behind a [%] with [d] after it, and the rest of the pattern. *)
Definition escape (d : Z) (p : list Z) : token * list Z :=
  if d =? 103 then (Gen, p)
  else if d =? 104 then (Home, match p with e :: q => if e =? separatorChar then q else p | [] => [] end)
  else (Lit 37, p).

Lemma tokens_escape d p : tokens (37 :: d :: p) = cons (escape d p).1 <$> tokens (escape d p).2.
Proof.
  cbn [tokens]. unfold escape. rewrite Z.eqb_refl. destruct (d =? 103); [done|]. destruct (d =? 104); [|done].
  destruct p as [|e p]; [done|]. by destruct (e =? separatorChar).
Qed.

Lemma escape_suffix d p : exists k, p = k ++ (escape d p).2.
Proof.
  unfold escape. destruct (d =? 103); [by exists []|]. destruct (d =? 104); [|by exists []].
  destruct p as [|e p]; [by exists []|]. destruct (e =? separatorChar); [by exists [e]|by exists []].
Qed.

Definition home : list Z := homePath ++ (if decide (separator `suffix_of` homePath) then [] else separator).
Definition token_text (gen : Z) (t : token) : list Z :=
  match t with Lit c => [c] | Gen => decimal gen | Home => home end.
Definition name (gen : Z) (ts : list token) : list Z := ts ≫= token_text gen.
Definition has_gen (ts : list token) : bool := bool_decide (Gen ∈ ts).
Definition full_name (count gen : Z) (ts : list token) : list Z :=
  name gen ts ++ (if negb (has_gen ts) && (1 <? count) then chars "." ++ decimal gen else []).

Lemma len_nil : len [] = 0.
Proof. done. Qed.

Lemma len_cons c a : len (c :: a) = 1 + len a.
Proof. unfold len. cbn [List.length]. lia. Qed.

Lemma len_app a b : len (a ++ b) = len a + len b.
Proof. unfold len. rewrite length_app. lia. Qed.

Lemma len_nonneg a : 0 <= len a.
Proof. unfold len. lia. Qed.

Lemma name_app gen ts us : name gen (ts ++ us) = name gen ts ++ name gen us.
Proof. apply bind_app. Qed.

Lemma name_lits gen a : name gen (Lit <$> a) = a.
Proof. unfold name. induction a as [|c a IH]; [done|]. cbn. f_equal. exact IH. Qed.

Lemma has_gen_lits a ts : has_gen ((Lit <$> a) ++ ts) = has_gen ts.
Proof.
  apply bool_decide_ext. rewrite elem_of_app, list_elem_of_fmap. split; [|by right]. by intros [(? & [=] & _)|H].
Qed.

Lemma has_gen_cons t ts : has_gen (t :: ts) = bool_decide (t = Gen) || has_gen ts.
Proof.
  unfold has_gen. destruct (decide (t = Gen)) as [->|Ht].
  - rewrite (bool_decide_true (Gen = Gen)), (bool_decide_true (Gen ∈ Gen :: ts)) by (done || by left). done.
  - rewrite (bool_decide_false (t = Gen)) by done. apply bool_decide_ext. rewrite elem_of_cons. naive_solver.
Qed.

Lemma tokens_lits a m : 37 ∉ a -> tokens (a ++ m) = (fun ts => (Lit <$> a) ++ ts) <$> tokens m.
Proof.
  induction a as [|c a IH]; intros Ha; [cbn; by destruct (tokens m)|]. apply not_elem_of_cons in Ha as [Hc Ha].
  cbn [tokens app]. destruct (Z.eqb_spec c 37); [congruence|]. rewrite IH by done. cbn; by destruct (tokens m).
Qed.

Section pattern.
Context (gen : Z) (Hgen : 0 <= gen < 10 ^ 20) (l : list Z) (Hl : clean l) (Hhome : clean homePath)
  (H63 : len l < 2 ^ 63).

Lemma clean_decimal : clean (decimal gen).
Proof. apply Numbers.decimal_avoids; lia. Qed.

Lemma indexOf_from_ok cur :
  0 <= cur <= len l ->
  indexOf_char_from (Some l) 37 cur = Ok (match find_char 37 (drop (Z.to_nat cur) l) with Some i => cur + i | None => -1 end).
Proof.
  intros Hc. unfold indexOf_char_from. change (length (Some l)) with (len l). destruct (Z.ltb_spec cur (len l)) as [Hlt|Hge].
  - change (c_str (Some l)) with (Some (l ++ [0])). rewrite advance_c_str by (unfold len in *; lia). cbn [mbind result_bind].
    rewrite strchr_clean by by apply clean_drop. cbn [mbind result_bind]. unfold index. f_equal.
    pose proof (find_char_spec 37 (drop (Z.to_nat cur) l)) as H1. pose proof (find_char_spec 37 (drop (Z.to_nat cur) l ++ [0])) as H2.
    destruct (find_char 37 (drop (Z.to_nat cur) l)) as [i|], (find_char 37 (drop (Z.to_nat cur) l ++ [0])) as [j|]; [|exfalso..|done].
    + destruct H1 as (a & b & E1 & -> & Ha), H2 as (a' & b' & E2 & -> & Ha'). rewrite E1, <- app_assoc in E2. cbn in E2.
      apply first_unique in E2 as [-> _]; done.
    + destruct H1 as (a & b & E1 & _). apply H2. rewrite E1. set_solver.
    + destruct H2 as (a & b & E2 & _ & _). apply H1. assert (37 ∈ drop (Z.to_nat cur) l ++ [0]) as Hin by (rewrite E2; set_solver).
      apply elem_of_app in Hin as [?|Hin]; [done|]. by apply list_elem_of_singleton in Hin.
  - rewrite drop_ge by (unfold len in *; lia). done.
Qed.

Lemma region_ok s cur n :
  0 <= cur -> 0 <= n -> cur + n <= len l ->
  append_string_region (Some s) (Some (Some l)) cur n = Ok (Some (s ++ take (Z.to_nat n) (drop (Z.to_nat cur) l))).
Proof.
  intros Hc Hn H. unfold append_string_region. cbn [deref mbind result_bind]. change (length (Some l)) with (len l). change (c_str (Some l)) with (Some (l ++ [0])).
  rewrite u64_id by (unfold len in *; lia). destruct (Z.ltb_spec (len l) (cur + n)); [lia|].
  unfold append_region. destruct (Z.ltb_spec 0 n).
  - rewrite advance_c_str by (unfold len in *; lia). cbn [mbind result_bind]. unfold StringBuffer_2. change (c_str (Some s)) with (Some (s ++ [0])). change (length (Some s)) with (len s).
    rewrite (bytes_c_str s) by (unfold len in *; lia). cbn [mbind result_bind]. rewrite bytes_c_str by (rewrite length_drop; unfold len in *; lia).
    cbn [mbind result_bind]. unfold len. by rewrite Nat2Z.id, take_ge.
  - replace n with 0 by lia. by rewrite app_nil_r.
Qed.

Lemma append_char_ok s c : c <> 0 -> append_chars (Some s) (Some [c; 0]) = Ok (Some (s ++ [c])).
Proof.
  intros Hc. pose proof (string_append_ok s [c]) as H. unfold append in H. cbn [deref mbind result_bind c_str] in H.
  apply H. apply clean_cons. split; [done|apply clean_nil].
Qed.

Lemma charAt_ok i a c b : l = a ++ c :: b -> i = len a -> charAt (Some l) i = Ok c.
Proof. intros E ->. unfold charAt, len. cbn. by rewrite E, Nat2Z.id, list_lookup_middle. Qed.

Lemma separator_ends : endsWith (Some homePath) (Some (Some separator)) = Ok (bool_decide (separator `suffix_of` homePath)).
Proof. apply endsWith_ok; [done|decided]. Qed.

Lemma home_appended {A} s (k : String -> result A) :
  (s ← append (Some s) (Some (Some homePath));
   b ← endsWith (Some homePath) (Some (Some separator));
   s ← (if b : bool then Ok s else append s (Some (Some separator)));
   k s) = k (Some (s ++ home)).
Proof.
  rewrite string_append_ok by done. cbn [mbind result_bind]. rewrite separator_ends. cbn [mbind result_bind]. unfold home.
  case_bool_decide as Hs.
  - by rewrite decide_True, app_nil_r.
  - rewrite decide_False by done. rewrite string_append_ok by decided. by rewrite app_assoc.
Qed.

Lemma slash_skip pre q i :
  l = pre ++ q -> i + 1 = len pre ->
  (if i + 1 <? length (Some l) then d ← charAt (Some l) (i + 1); Ok (if d =? separatorChar then i + 1 else i) else Ok i)
    = Ok (len l - len match q with e :: q' => if e =? separatorChar then q' else q | [] => [] end - 1).
Proof.
  intros E Hi. change (length (Some l)) with (len l). pose proof (len_nonneg pre) as Hp.
  assert (len l = len pre + len q) as -> by (by rewrite E, len_app). rewrite Hi.
  destruct q as [|e q]; rewrite ?len_nil, ?len_cons in *; [|pose proof (len_nonneg q) as Hq].
  - rewrite (proj2 (Z.ltb_ge _ _)) by lia. f_equal. lia.
  - rewrite (proj2 (Z.ltb_lt _ _)) by lia. rewrite (charAt_ok _ pre e q) by done.
    cbn [mbind result_bind]. destruct (e =? separatorChar); rewrite ?len_cons; f_equal; lia.
Qed.

Lemma round_start a b : take (Z.to_nat (len a)) (a ++ b) = a.
Proof. unfold len. by rewrite Nat2Z.id, take_app_length. Qed.

Lemma found_ok pre a b : l = pre ++ a ++ 37 :: b -> 37 ∉ a -> indexOf_char_from (Some l) 37 (len pre) = Ok (len pre + len a).
Proof.
  intros E Ha. rewrite indexOf_from_ok by (rewrite E, len_app; pose proof (len_nonneg pre); pose proof (len_nonneg (a ++ 37 :: b)); lia).
  replace (drop (Z.to_nat (len pre)) l) with (a ++ 37 :: b) by (rewrite E; unfold len; by rewrite Nat2Z.id, drop_app_length).
  pose proof (find_char_spec 37 (a ++ 37 :: b)) as H. destruct (find_char 37 (a ++ 37 :: b)) as [i|]; [|set_solver].
  destruct H as (a' & b' & E' & -> & Ha'). by apply first_unique in E' as [-> _].
Qed.

Lemma prefix_region s pre a b n :
  l = pre ++ a ++ b -> n = len a ->
  append_string_region (Some s) (Some (Some l)) (len pre) n = Ok (Some (s ++ a)).
Proof.
  intros E ->. pose proof (len_nonneg pre). pose proof (len_nonneg a). pose proof (len_nonneg b).
  rewrite region_ok; [|lia|lia|rewrite E, !len_app; lia].
  do 3 f_equal. rewrite E. unfold len at 2. by rewrite Nat2Z.id, drop_app_length, round_start.
Qed.

Lemma parse_round f s pre a d q b :
  l = pre ++ a ++ 37 :: d :: q -> 37 ∉ a ->
  parseLoop (S f) gen (Some l) (Some s) (len pre) b =
    parseLoop f gen (Some l) (Some (s ++ a ++ token_text gen (escape d q).1)) (len l - len (escape d q).2)
      (b || bool_decide ((escape d q).1 = Gen)).
Proof.
  intros E Ha. cbn [parseLoop]. rewrite (found_ok pre a (d :: q)) by done. cbn [mbind result_bind].
  pose proof (len_nonneg pre). pose proof (len_nonneg a). pose proof (len_nonneg q).
  assert (len l = len pre + len a + 2 + len q) as Hlen by (rewrite E, !len_app, !len_cons; lia).
  rewrite (proj2 (Z.leb_le _ _)) by lia. change (length (Some l)) with (len l) at 1.
  rewrite (proj2 (Z.ltb_lt _ _)) by lia.
  rewrite (charAt_ok (len pre + len a + 1) (pre ++ a ++ [37]) d q); [|by rewrite E, <- !app_assoc|rewrite !len_app, len_cons, len_nil; lia].
  cbn [mbind result_bind]. unfold escape. destruct (Z.eqb_spec d 103) as [->|Hd].
  { rewrite (prefix_region s pre a (37 :: 103 :: q)) by (done || lia). cbn [mbind result_bind].
    rewrite string_append_ok by apply clean_decimal. cbn [mbind result_bind fst snd]. rewrite <- app_assoc.
    rewrite bool_decide_true, orb_true_r by done. f_equal. lia. }
  destruct (Z.eqb_spec d 104) as [->|Hd'].
  { rewrite (prefix_region s pre a (37 :: 104 :: q)) by (done || lia). cbn [mbind result_bind].
    rewrite home_appended, (slash_skip (pre ++ a ++ [37; 104]) q); [|by rewrite E, <- !app_assoc|rewrite !len_app, !len_cons, len_nil; lia].
    cbn [mbind result_bind fst snd token_text]. rewrite <- app_assoc, bool_decide_false, orb_false_r by done. f_equal. lia. }
  rewrite bool_decide_false, orb_false_r by done. destruct (Z.eqb_spec d 37) as [->|Hd''].
  { rewrite (prefix_region s pre a (37 :: 37 :: q)) by (done || lia). cbn [mbind result_bind].
    rewrite append_char_ok by done. cbn [mbind result_bind fst snd]. rewrite <- app_assoc. f_equal. lia. }
  rewrite (prefix_region s pre (a ++ [37]) (d :: q)) by (rewrite ?len_app, ?len_cons, ?len_nil, <- ?app_assoc; done || lia).
  cbn [mbind result_bind fst snd token_text]. f_equal. lia.
Qed.

Lemma parseLoop_ok f s pre m b :
  l = pre ++ m ->
  match tokens m with
  | Some ts =>
      (List.length m < f)%nat ->
      exists s' done rest, l = done ++ rest /\ s' ++ rest = s ++ name gen ts /\
        parseLoop f gen (Some l) (Some s) (len pre) b = Ok (Some s', len done, b || has_gen ts)
  | None => parseLoop f gen (Some l) (Some s) (len pre) b = Diverge
  end.
Proof.
  revert s pre m b. induction f as [|f IH]; intros s pre m b E; [by destruct (tokens m); [lia|]|].
  destruct (decide (37 ∈ m)) as [Hm|Hm].
  - apply list_elem_of_split_l in Hm as (a & [|d q] & -> & Ha); rewrite tokens_lits by done.
    + cbn [tokens fmap option_fmap option_map]. rewrite Z.eqb_refl. cbn [parseLoop]. rewrite (found_ok pre a []) by done.
      cbn [mbind result_bind]. pose proof (len_nonneg pre). pose proof (len_nonneg a).
      rewrite (proj2 (Z.leb_le _ _)) by lia. change (length (Some l)) with (len l).
      rewrite (proj2 (Z.ltb_ge (len pre + len a + 1) (len l))) by (rewrite E, !len_app, len_cons, len_nil; lia).
      specialize (IH s pre (a ++ [37]) b E). by rewrite tokens_lits in IH by done.
    + rewrite tokens_escape, (parse_round f s pre a d q b) by done.
      destruct (escape_suffix d q) as [k Hk]. set (t := (escape d q).1) in *. set (m := (escape d q).2) in *.
      assert (l = (pre ++ a ++ 37 :: d :: k) ++ m) as E' by (rewrite E, Hk, <- !app_assoc; cbn; done).
      specialize (IH (s ++ a ++ token_text gen t) _ m (b || bool_decide (t = Gen)) E').
      replace (len l - len m) with (len (pre ++ a ++ 37 :: d :: k)) by (rewrite E', (len_app _ m); lia).
      destruct (tokens m) as [ts|]; cbn [fmap option_fmap option_map]; [|done]. intros Hf.
      destruct IH as (s' & dn & rest & H1 & H2 & H3).
      { rewrite Hk in Hf. rewrite !length_app in Hf. cbn in Hf. rewrite length_app in Hf. lia. }
      exists s', dn, rest. split; [done|]. split.
      * rewrite H2, name_app, name_lits, <- !app_assoc. done.
      * rewrite H3. do 2 f_equal. rewrite <- orb_assoc. f_equal. by rewrite has_gen_lits, has_gen_cons.
  - pose proof (tokens_lits m [] Hm) as Ht. rewrite app_nil_r in Ht. rewrite Ht. cbn [tokens fmap option_fmap option_map].
    intros _. cbn [parseLoop]. rewrite indexOf_from_ok by (rewrite E, len_app; pose proof (len_nonneg pre); pose proof (len_nonneg m); lia).
    replace (drop (Z.to_nat (len pre)) l) with m by (rewrite E; unfold len; by rewrite Nat2Z.id, drop_app_length).
    pose proof (find_char_spec 37 m) as H. destruct (find_char 37 m) as [i|]; [destruct H as (x & y & -> & _); set_solver|].
    cbn [mbind result_bind]. exists s, pre, m. split; [done|]. split; [by rewrite app_nil_r, name_lits|].
    rewrite has_gen_lits. by rewrite orb_false_r.
Qed.
Lemma replace_same : replace (Some l) 47 separatorChar = Ok (Some l).
Proof.
  unfold replace, StringBuffer. change (c_str (Some l)) with (Some (l ++ [0])). change (length (Some l)) with (len l).
  rewrite bytes_c_str by (unfold len; lia). cbn [mbind result_bind option_map]. unfold len. rewrite Nat2Z.id, take_ge by done.
  do 2 f_equal. rewrite <- (map_id l) at 2. apply map_ext. intros c. destruct (Z.eqb_spec c 47); [by subst|done].
Qed.

(** A pattern gives the text of its tokens, with the number behind a dot where several files need one; a pattern whose last
    [%] has nothing after it keeps the program in the loop. *)
Lemma parseFileName_ok count :
  parseFileName (Some (Some l)) count gen =
    match tokens l with Some ts => Ok (full_name count gen ts) | None => Diverge end.
Proof.
  unfold parseFileName. cbn [deref mbind result_bind]. rewrite replace_same. cbn [mbind result_bind default].
  pose proof (parseLoop_ok (S (List.length (id l))) [] [] l false eq_refl) as H. change (len []) with 0 in H.
  destruct (tokens l) as [ts|]; [|by rewrite H].
  destruct H as (s & pre & rest & E & Hs & ->); [unfold id; lia|]. cbn [mbind result_bind]. rewrite orb_false_l.
  change (length (Some l)) with (len l).
  replace rest with (rest ++ []) in E by apply app_nil_r.
  rewrite (prefix_region s pre rest []) by (done || rewrite E, !len_app, len_nil; lia). cbn [mbind result_bind].
  rewrite Hs. unfold full_name. destruct (negb (has_gen ts) && (1 <? count)); cbn [mbind result_bind].
  - rewrite append_char_ok by done. cbn [mbind result_bind]. rewrite string_append_ok by apply clean_decimal.
    cbn [mbind result_bind deref]. by rewrite <- app_assoc.
  - by rewrite app_nil_r.
Qed.
End pattern.

(** *** The names of the generations *)

Lemma name_cons gen t ts : name gen (t :: ts) = token_text gen t ++ name gen ts.
Proof. done. Qed.

Definition gens (ts : list token) : nat := List.length (filter (Gen =.) ts).

Lemma name_length gen ts : List.length (name gen ts) = (List.length (name 0 (filter (Gen ≠.) ts)) + gens ts * List.length (decimal gen))%nat.
Proof.
  unfold gens. induction ts as [|t ts IH]; [done|]. rewrite name_cons, length_app, IH, !filter_cons.
  destruct t as [c| |]; repeat first [rewrite decide_True by done | rewrite decide_False by naive_solver];
    rewrite ?name_cons, ?length_app; cbn [token_text List.length]; lia.
Qed.

Lemma gens_pos ts : Gen ∈ ts -> (0 < gens ts)%nat.
Proof.
  intros (a & b & ->)%list_elem_of_split. unfold gens. rewrite filter_app, length_app, filter_cons, decide_True by done.
  cbn [List.length]. lia.
Qed.

Lemma name_inj i j ts :
  0 <= i < 10 ^ 20 -> 0 <= j < 10 ^ 20 -> has_gen ts = true -> name i ts = name j ts -> i = j.
Proof.
  intros Hi Hj Hg%bool_decide_eq_true E. apply Numbers.decimal_inj; [exact Hi|exact Hj|].
  assert (List.length (decimal i) = List.length (decimal j)) as Hl.
  { apply (f_equal List.length) in E. rewrite (name_length i ts), (name_length j ts) in E.
    pose proof (gens_pos ts Hg). by apply Nat.add_cancel_l, Nat.mul_cancel_l in E; [|lia]. }
  clear Hi Hj. induction ts as [|t ts IH]; [by apply elem_of_nil in Hg|]. rewrite !name_cons in E.
  destruct t as [c| |]; cbn [token_text] in E.
  - apply app_inj_1 in E as [_ E]; [|done]. apply IH; [|done]. by apply elem_of_cons in Hg as [[=]|?].
  - by apply app_inj_1 in E as [E _].
  - apply app_inj_1 in E as [_ E]; [|done]. apply IH; [|done]. by apply elem_of_cons in Hg as [[=]|?].
Qed.

Lemma full_name_inj count i j ts :
  0 <= i < 10 ^ 20 -> 0 <= j < 10 ^ 20 -> 1 < count -> full_name count i ts = full_name count j ts -> i = j.
Proof.
  intros Hi Hj Hc. unfold full_name. rewrite (proj2 (Z.ltb_lt 1 count)), andb_true_r by done.
  destruct (has_gen ts) eqn:Hg; cbn [negb].
  - rewrite !app_nil_r. by apply name_inj.
  - intros E. assert (name i ts = name j ts) as En.
    { unfold has_gen in Hg. apply bool_decide_eq_false in Hg. clear E.
      induction ts as [|t ts IH]; [done|]. rewrite !name_cons. apply not_elem_of_cons in Hg as [Ht Hg].
      f_equal; [by destruct t|by apply IH]. }
    rewrite En in E. apply app_inv_head in E. injection E as E. apply Numbers.decimal_inj; [exact Hi|exact Hj|exact E].
Qed.

(** The pattern names a file, not a directory. *)
Definition names_file (ts : list token) : bool :=
  match last ts with Some (Lit c) => negb (c =? separatorChar) | Some Gen => true | _ => false end.

Lemma new_file_ok p c : c <> separatorChar -> new_file (p ++ [c]) = p ++ [c].
Proof.
  intros Hc. unfold new_file. rewrite (bool_decide_false (separator `suffix_of` _)), andb_false_r; [done|].
  intros [k E]. change separator with [separatorChar] in E. apply app_inj_tail in E as [_ E]. done.
Qed.

Lemma decimal_last gen : 0 <= gen < 10 ^ 20 -> exists p c, decimal gen = p ++ [c] /\ c <> separatorChar.
Proof.
  intros Hg. destruct (Numbers.decimal_digits gen Hg) as (_ & Hne & _). destruct (exists_last Hne) as (p & c & E).
  exists p, c. split; [done|]. intros ->. apply (Numbers.decimal_avoids gen separatorChar Hg); [left; done|]. rewrite E. set_solver.
Qed.

Lemma names_file_ok count gen ts :
  0 <= gen < 10 ^ 20 -> names_file ts = true -> new_file (full_name count gen ts) = full_name count gen ts.
Proof.
  intros Hg Ht. destruct (decimal_last gen Hg) as (p & c & E & Hc). unfold full_name.
  destruct (negb (has_gen ts) && (1 <? count)).
  - rewrite E, !app_assoc. by apply new_file_ok.
  - rewrite app_nil_r. unfold names_file in Ht. destruct (last ts) as [t|] eqn:El; [|done].
    apply last_Some in El as [us ->]. rewrite name_app. rewrite name_cons. change (name gen []) with (@nil Z). rewrite app_nil_r.
    destruct t as [d| |]; cbn [token_text]; [|rewrite E, app_assoc; by apply new_file_ok|done].
    apply negb_true_iff, Z.eqb_neq in Ht. by apply new_file_ok.
Qed.
(** ** Files and rotation *)

(** What the files of the set hold, the newest first. *)
Definition view (fs : list (list Z)) (d : gmap (list Z) (list Z)) : list (option (list Z)) := map (d !!.) fs.

(** The other files are as they were. *)
Definition others (fs : list (list Z)) (d d' : gmap (list Z) (list Z)) : Prop := forall f, f ∉ fs -> d' !! f = d !! f.

#[export] Instance others_preorder fs : PreOrder (others fs).
Proof. split; [by intros d f|]. intros d1 d2 d3 H1 H2 f Hf. by rewrite (H2 f Hf), (H1 f Hf). Qed.

Section view.
Context (fs : list (list Z)) (Hfs : NoDup fs).

Lemma view_lookup d k f : fs !! k = Some f -> view fs d !! k = Some (d !! f).
Proof. intros H. unfold view. by rewrite list_lookup_fmap, H. Qed.

Lemma view_length d : List.length (view fs d) = List.length fs.
Proof. apply length_map. Qed.

Lemma view_update (g : option (list Z) -> option (list Z)) d k f :
  fs !! k = Some f -> view fs (partial_alter g f d) = <[k := g (d !! f)]> (view fs d).
Proof.
  intros Hf. apply list_eq. intros i. unfold view at 1. rewrite list_lookup_fmap.
  destruct (decide (i = k)) as [->|Hi].
  - rewrite Hf, list_lookup_insert_eq by (rewrite view_length; by eapply lookup_lt_Some). cbn [fmap option_fmap option_map].
    by rewrite lookup_partial_alter_eq.
  - rewrite list_lookup_insert_ne by done. unfold view. rewrite list_lookup_fmap. destruct (fs !! i) as [e|] eqn:E; [|done].
    cbn [fmap option_fmap option_map]. f_equal. rewrite lookup_partial_alter_ne; [done|]. intros ->. apply Hi. by eapply NoDup_lookup.
Qed.

Lemma view_insert c d k f : fs !! k = Some f -> view fs (<[f := c]> d) = <[k := Some c]> (view fs d).
Proof. apply (view_update (fun _ => Some c)). Qed.

Lemma others_altered g d k f : fs !! k = Some f -> others fs d (partial_alter g f d).
Proof.
  intros Hf e He. rewrite lookup_partial_alter_ne; [done|]. intros ->. apply He. by eapply list_elem_of_lookup_2.
Qed.

Lemma others_insert c d k f : fs !! k = Some f -> others fs d (<[f := c]> d).
Proof. apply (others_altered (fun _ => Some c)). Qed.

(** Every file up to the [i]th becomes the next one. *)
Definition shifted (i : nat) (v : list (option (list Z))) : list (option (list Z)) :=
  match i with O => v | S _ => None :: take i v ++ drop (S i) v end.

Definition renamed (g f : list Z) (d : gmap (list Z) (list Z)) : gmap (list Z) (list Z) :=
  match d !! g with Some c => <[f := c]> (delete g d) | None => d end.

Lemma renamed_ok j g f d :
  fs !! j = Some g -> fs !! S j = Some f ->
  view fs (renamed g f (delete f d)) = <[S j := d !! g]> (<[j := None]> (view fs d)) /\ others fs d (renamed g f (delete f d)).
Proof.
  intros Hg Hf. assert (f <> g) as Hne by (intros ->; by specialize (NoDup_lookup _ _ _ _ Hfs Hg Hf); lia).
  unfold renamed. rewrite lookup_delete_ne by done. destruct (d !! g) as [c|] eqn:E.
  - split.
    + unfold insert, map_insert, delete at 1 2, map_delete. rewrite (view_update _ _ (S j)), (view_update _ _ j), (view_update _ _ (S j)) by done.
      rewrite (list_insert_insert_ne (view fs d) j (S j)) by lia. by rewrite list_insert_insert_eq.
    + etransitivity; [by apply (others_altered (fun _ => None) _ (S j) f)|].
      etransitivity; [by apply (others_altered (fun _ => None) _ j g)|by apply (others_altered (fun _ => Some c) _ (S j) f)].
  - split; [|by apply (others_altered (fun _ => None) _ (S j) f)].
    unfold delete, map_delete. rewrite (view_update _ _ (S j)) by done. f_equal. symmetry. apply list_insert_id.
    by rewrite (view_lookup _ _ g), E.
Qed.

Lemma shift_step j (v : list (option (list Z))) a :
  v !! j = Some a -> (S j < List.length v)%nat -> shifted j (<[S j := a]> (<[j := None]> v)) = shifted (S j) v.
Proof.
  intros Ha Hj. destruct (lookup_lt_is_Some_2 v (S j) Hj) as [b Hb].
  assert (exists p q, v = p ++ a :: b :: q /\ List.length p = j) as (p & q & -> & <-).
  { exists (take j v), (drop (S (S j)) v). split; [|rewrite length_take; lia].
    rewrite <- (drop_S _ _ _ Hb), <- (drop_S _ _ _ Ha). by rewrite take_drop. }
  clear. rewrite insert_app_r_alt by lia. rewrite Nat.sub_diag. cbn [insert list_insert].
  rewrite insert_app_r_alt by lia. replace (S (List.length p) - List.length p)%nat with 1%nat by lia. cbn [insert list_insert].
  assert (forall x y z, drop (S (List.length p)) (p ++ x :: y :: z) = y :: z) as Hd.
  { intros x y z. rewrite drop_app_ge by lia. by replace (S _ - _)%nat with 1%nat by lia. }
  assert (shifted (S (List.length p)) (p ++ a :: b :: q) = None :: p ++ a :: q) as ->.
  { unfold shifted. f_equal. replace (p ++ a :: b :: q) with ((p ++ [a]) ++ b :: q) by by rewrite <- app_assoc.
    replace (S (List.length p)) with (List.length (p ++ [a])) by (rewrite length_app; cbn; lia).
    rewrite take_app_length. rewrite drop_app_ge by lia. replace (S _ - _)%nat with 1%nat by lia. by rewrite <- app_assoc. }
  unfold shifted. destruct p as [|x p]; [done|]. cbn [List.length]. f_equal.
  change (S (List.length p)) with (List.length (x :: p)). by rewrite take_app_length, Hd.
Qed.
End view.
(** ** The log *)

Lemma file_ok i f w : mFiles (handler w) !! i = Some f -> file i w = (Ok f, w).
Proof. intros H. unfold file, this. rewrite bind_gets. unfold lift. by rewrite H. Qed.

Lemma open_first_ok fs f w :
  mFiles (handler w) = fs -> fs !! 0%nat = Some f ->
  let c := if mAppend (handler w) then default [] (disk w !! f) else [] in
  open_first w = (Ok tt, mkWorld (with_writer (Some (mkWriter (Some f) (len c))) (handler w)) (<[f := c]> (disk w)) (volume w)).
Proof.
  intros Hfs Hf c. unfold open_first. rewrite (bind_Ok _ _ _ _ _ (file_ok 0 f w ltac:(by rewrite Hfs))). cbn beta.
  unfold this. rewrite bind_gets. assert (new_writer f (mAppend (handler w)) w =
    (Ok (mkWriter (Some f) (len c)), set_disk (<[f := c]>) w)) as E; [|by mstep E].
  unfold new_writer, exists_. rewrite bind_gets.
  assert ((if bool_decide (is_Some (disk w !! f)) then mret tt else createNewFile f) w =
    (Ok tt, set_disk (<[f := default [] (disk w !! f)]>) w)) as E1.
  { case_bool_decide as H; [|by apply eq_None_not_Some in H as ->]. destruct H as [x Hx]. rewrite Hx.
    destruct w as [h d0 vo]. unfold set_disk. cbn in *. by rewrite insert_id. }
  mstep E1. subst c. destruct (mAppend (handler w)).
  - rewrite bind_ret. unfold length_. rewrite bind_gets. cbn [set_disk disk]. by rewrite lookup_insert_eq.
  - rewrite bind_modify. unfold length_. rewrite bind_gets. unfold set_disk. cbn [disk handler volume].
    by rewrite insert_insert_eq, lookup_insert_eq.
Qed.

(** The volume is saved. *)
Definition saved (w : World) : World :=
  if 0 <? mDataVolumeLimit (handler w) then set_volume (mDataVolume (handler w)) w else w.

Lemma flush_ok w x : mWriter (handler w) = Some x -> flush w = (Ok tt, saved w).
Proof.
  intros H. unfold flush, this. rewrite bind_gets. unfold id, saved. rewrite H. by destruct (0 <? mDataVolumeLimit (handler w)).
Qed.

Lemma saved_handler w : handler (saved w) = handler w.
Proof. unfold saved. by destruct (0 <? _). Qed.

Lemma saved_disk w : disk (saved w) = disk w.
Proof. unfold saved. by destruct (0 <? _). Qed.

Lemma close_ok w x :
  mWriter (handler w) = Some x -> close w = (Ok tt, set_handler (with_writer None (handler w)) (saved w)).
Proof. intros H. unfold close. mstep (flush_ok w x H). unfold update, modify. by rewrite saved_handler. Qed.

(** A record with the end of its line. *)
Definition line (msg : list Z) : list Z := msg ++ CRLF.

Definition rolls (limit : Z) (t msg : list Z) : bool := (0 <? limit) && (limit <=? len t + len (line msg)).

Lemma line_length msg : len (line msg) = len msg + len CRLF.
Proof. apply len_app. Qed.

Lemma view_head fs d f v t : view fs d = v -> fs !! 0%nat = Some f -> v !! 0%nat = Some (Some t) -> d !! f = Some t.
Proof. intros <- Hf H. rewrite (view_lookup fs d 0 f Hf) in H. by injection H. Qed.

(** What the first file keeps when the log goes on to the next generation. *)
Definition kept (append : bool) (count : nat) (t : list Z) : list Z := if append && (count =? 1)%nat then t else [].

(** What a log in [count] files is after a record. *)
Definition published (limit : Z) (append : bool) (count : nat) (msg : list Z) (v : list (option (list Z))) : list (option (list Z)) :=
  match v with
  | Some t :: older =>
      if rolls limit t msg then Some (kept append count t ++ line msg) :: take (count - 1) v else Some (t ++ line msg) :: older
  | _ => v
  end.

(** Whether the data volume [vol] leaves room for a record. *)
Definition fits (dl vol : Z) (msg : list Z) : bool := negb ((0 <? dl) && (dl <? i32 (vol + len (line msg)))).

(** *** The unbounded log *)

(** A record joins the newest generation, or starts the next one. *)
Definition add (limit : Z) (gens : list (list Z)) (msg : list Z) : list (list Z) :=
  match gens with
  | t :: older => if rolls limit t msg then line msg :: gens else (t ++ line msg) :: older
  | [] => [line msg]
  end.

Definition log_of (limit : Z) (first : list Z) (msgs : list (list Z)) : list (list Z) := foldl (add limit) [first] msgs.

Lemma add_text limit gens msg : concat (reverse (add limit gens msg)) = concat (reverse gens) ++ line msg.
Proof.
  destruct gens as [|t older]; [cbn; by rewrite app_nil_r|]. unfold add. destruct (rolls limit t msg).
  all: rewrite !reverse_cons, !concat_app; cbn [concat]; by rewrite ?app_nil_r, <- ?app_assoc.
Qed.

Lemma adds_text limit gens msgs : concat (reverse (foldl (add limit) gens msgs)) = concat (reverse gens) ++ concat (line <$> msgs).
Proof.
  revert gens. induction msgs as [|m msgs IH]; intros gens; cbn [foldl]; [by rewrite app_nil_r|].
  by rewrite IH, add_text, <- app_assoc.
Qed.

Lemma log_of_text limit first msgs : concat (reverse (log_of limit first msgs)) = first ++ concat (line <$> msgs).
Proof. unfold log_of. rewrite adds_text. cbn. by rewrite app_nil_r. Qed.

(** Below the limit, or a single record. *)
Definition bounded (limit : Z) (msgs : list (list Z)) (g : list Z) : Prop := len g < limit \/ exists m, m ∈ msgs /\ g = line m.

Lemma add_bounded limit msgs gens msg :
  0 < limit -> msg ∈ msgs -> Forall (bounded limit msgs) gens -> Forall (bounded limit msgs) (add limit gens msg).
Proof.
  intros Hl Hm Hg. assert (bounded limit msgs (line msg)) as H by (right; eauto). destruct gens as [|t older]; [by apply Forall_singleton|].
  unfold add, rolls. rewrite (proj2 (Z.ltb_lt _ _) Hl). cbn [andb]. destruct (Z.leb_spec limit (len t + len (line msg))) as [Hle|Hle].
  - by constructor.
  - inversion Hg; subst. constructor; [|done]. left. by rewrite len_app.
Qed.

Lemma log_of_bounded limit first msgs : 0 < limit -> len first < limit -> Forall (bounded limit msgs) (log_of limit first msgs).
Proof.
  intros Hl Hf. unfold log_of. assert (forall ms g, ms ⊆ msgs -> Forall (bounded limit msgs) g -> Forall (bounded limit msgs) (foldl (add limit) g ms)) as H.
  { induction ms as [|m ms IH]; intros g Hs Hg; [done|]. apply IH; [set_solver|]. apply add_bounded; [done|set_solver|done]. }
  apply H; [done|]. apply Forall_singleton. by left.
Qed.

Lemma add_cons limit gens msg : exists t older, add limit gens msg = t :: older.
Proof. destruct gens as [|t older]; cbn; [eauto|]. destruct (rolls limit t msg); eauto. Qed.

(** The files are the newest generations. *)
Lemma published_add limit append count t gens msg older :
  (0 < count)%nat -> (1 < count)%nat \/ append = false ->
  published limit append count msg (take count ((Some <$> t :: gens) ++ older)) = take count ((Some <$> add limit (t :: gens) msg) ++ older).
Proof.
  intros Hc Hone. destruct count as [|n]; [lia|]. cbn [fmap list_fmap app take published add].
  destruct (rolls limit t msg); [|done]. assert (kept append (S n) t = []) as ->.
  { unfold kept. destruct append; [|done]. by destruct Hone as [?|[=]]; destruct n; [lia|]. }
  cbn [app]. change (Some (line msg) :: take n ((Some <$> t :: gens) ++ older)) with (take (S n) (Some (line msg) :: (Some <$> t :: gens) ++ older)).
  cbn [take]. f_equal. replace (S n - 1)%nat with n by lia. change (Some t :: take n ?x) with (take (S n) (Some t :: x)).
  rewrite take_take. by rewrite Nat.min_l by lia.
Qed.

(** ** Publishing *)

Fixpoint publish_all (rs : list (Z * list Z)) : M World unit :=
  match rs with [] => mret tt | r :: rs => publish r.1 r.2;; publish_all rs end.

(** The records that are written. *)
Fixpoint accepted (dl vol : Z) (rs : list (Z * list Z)) : list (list Z) :=
  match rs with
  | [] => []
  | (p, m) :: rs =>
      if (INFO <=? p) && fits dl vol m then m :: accepted dl (i32 (vol + len (line m))) rs else accepted dl vol rs
  end.

(** The data volume afterwards. *)
Fixpoint used (dl vol : Z) (rs : list (Z * list Z)) : Z :=
  match rs with
  | [] => vol
  | (p, m) :: rs => if (INFO <=? p) && fits dl vol m then used dl (i32 (vol + len (line m))) rs else used dl vol rs
  end.

(** A limit of the data volume holds, and all that is written counts. *)
Lemma used_ok dl vol rs :
  0 < dl < 2 ^ 30 -> 0 <= vol <= dl -> Forall (fun r => len (line r.2) < 2 ^ 30) rs ->
  used dl vol rs = vol + len (concat (line <$> accepted dl vol rs)) /\ used dl vol rs <= dl.
Proof.
  intros Hd Hv Hrs. revert vol Hv. induction Hrs as [|[p m] rs Hm Hrs IH]; intros vol Hv.
  { cbn. rewrite len_nil. lia. }
  cbn [used accepted]. cbn [snd] in Hm. pose proof (len_nonneg (line m)). unfold fits.
  rewrite i32_id by lia. rewrite (proj2 (Z.ltb_lt 0 dl)) by lia. cbn [andb].
  destruct (INFO <=? p); [|by apply IH]. destruct (Z.ltb_spec dl (vol + len (line m))); cbn [negb andb]; [by apply IH|].
  destruct (IH (vol + len (line m))) as [E Hle]; [lia|]. rewrite E in *. cbn [fmap list_fmap concat]. rewrite len_app. lia.
Qed.

Section log.
Context (fs : list (list Z)) (Hnd : NoDup fs) (limit : Z) (append : bool) (bs dl : Z) (restored : bool).
Context (Hwritten : forall c s, written c s = len s).

(** A handler that is ready to publish: the log consists of [fs], which hold [v], and [vol] bytes are written; without
    a buffer the preferences know of them, once they have been read. *)
Record running (v : list (option (list Z))) (vol : Z) (w : World) : Prop := {
  run_files : mFiles (handler w) = fs;
  run_count : mCount (handler w) = Z.of_nat (List.length fs);
  run_limit : mLimit (handler w) = limit;
  run_append : mAppend (handler w) = append;
  run_lock : mLock (handler w) = true;
  run_volume : mDataVolumeLimit (handler w) = dl;
  run_used : mDataVolume (handler w) = vol;
  run_buffer : mBufferSize (handler w) = bs;
  run_saved : bs = 0 -> mFlushSize (handler w) = 0 /\ (restored = true -> 0 < dl -> default 0 (volume w) = vol);
  run_priority : mPriority (handler w) = INFO;
  run_view : view fs (disk w) = v;
  run_writer : exists f t, fs !! 0%nat = Some f /\ v !! 0%nat = Some (Some t) /\ mWriter (handler w) = Some (mkWriter (Some f) (len t));
}.

Lemma rotate_ok i w :
  mFiles (handler w) = fs -> (i < List.length fs)%nat ->
  exists d, rotate i w = (Ok tt, set_disk (fun _ => d) w) /\ view fs d = shifted i (view fs (disk w)) /\ others fs (disk w) d.
Proof.
  revert w. induction i as [|j IH]; intros w Hfs Hi.
  { exists (disk w). split; [by destruct w|]. done. }
  destruct (lookup_lt_is_Some_2 fs (S j) Hi) as [f Hf]. destruct (lookup_lt_is_Some_2 fs j ltac:(lia)) as [g Hg].
  destruct (renamed_ok fs Hnd j g f (disk w) Hg Hf) as [Hv Ho].
  set (d1 := renamed g f (delete f (disk w))) in *.
  destruct (IH (set_disk (fun _ => d1) w)) as (d & E & Hv' & Ho'); [done|lia|]. cbn [disk set_disk] in Hv', Ho'.
  exists d. split; [|split; [|by rewrite Ho]].
  - cbn [rotate]. rewrite (bind_Ok _ _ _ _ _ (file_ok (S j) f w ltac:(by rewrite Hfs))). cbn beta.
    change ((exists_ f ≫= ?k) w) with (k (bool_decide (is_Some (disk w !! f))) w). cbn beta.
    assert ((if bool_decide (is_Some (disk w !! f)) then remove f else mret tt) w = (Ok tt, set_disk (delete f) w)) as Er.
    { case_bool_decide as H; [done|]. apply eq_None_not_Some in H. destruct w as [h d0 vo]. unfold set_disk. cbn in *.
      by rewrite delete_id. }
    mstep Er. rewrite (bind_Ok _ _ _ _ _ (file_ok j g (set_disk (delete f) w) ltac:(by rewrite <- Hfs in Hg))). cbn beta.
    exact E.
  - rewrite Hv', Hv. apply shift_step; [by apply view_lookup|by rewrite view_length].
Qed.

Lemma write_file_ok w f n c s :
  mWriter (handler w) = Some (mkWriter (Some f) n) -> disk w !! f = Some c ->
  write s w = (Ok tt, mkWorld (with_writer (Some (mkWriter (Some f) (n + len s))) (handler w)) (<[f := c ++ s]> (disk w)) (volume w)).
Proof.
  intros Hm Hd. unfold write, this. rewrite bind_gets, Hm. cbn [mFd mSize]. unfold get_state. unfold mbind at 1, M_bind at 1.
  rewrite Hd, Hwritten. cbn [default]. unfold id. destruct (Z.ltb_spec 0 (len s)) as [Hs|Hs].
  - rewrite bind_modify. unfold update, modify, set_handler, set_disk. cbn [handler disk volume].
    by replace (take (Z.to_nat (len s)) s) with s by (unfold len; by rewrite Nat2Z.id, take_ge).
  - assert (s = []) as -> by (destruct s; [done|rewrite len_cons in Hs; pose proof (len_nonneg s); lia]).
    rewrite app_nil_r, insert_id, len_nil, Z.add_0_r by done. destruct w as [h d vo]. cbn in *. by destruct h; cbn in *; subst.
Qed.

Lemma running_saved v vol w : running v vol w -> running v vol (saved w).
Proof.
  unfold saved. intros []. destruct (0 <? mDataVolumeLimit (handler w)) eqn:E; [|by split].
  split; try done. cbn. intros Hb. split; [by apply run_saved0|done].
Qed.

(** The next generation: the oldest is gone and the first is new, unless there is only one, to append to. *)
Lemma next_ok v t vol w :
  running v vol w -> v !! 0%nat = Some (Some t) ->
  exists w', findNextGeneration w = (Ok tt, w') /\
    running (Some (kept append (List.length fs) t) :: take (List.length fs - 1) v) vol w' /\ others fs (disk w) (disk w').
Proof.
  intros H Ht. pose proof (running_saved _ _ _ H) as []. pose proof (run_writer _ _ _ H) as (f & t' & Hf & Ht' & Hm).
  rewrite Ht in Ht'. injection Ht' as <-. rewrite saved_disk in *.
  unfold findNextGeneration. mstep (close_ok w _ Hm). unfold this. rewrite bind_gets.
  set (w1 := set_handler _ _). rewrite saved_handler in *. cbn [handler set_handler with_writer mCount w1]. rewrite run_count0.
  pose proof (lookup_lt_Some _ _ _ Hf) as Hlen. replace (Z.to_nat _) with (List.length fs - 1)%nat by lia.
  destruct (rotate_ok (List.length fs - 1) w1) as (d & E & Hv & Ho); [done|lia|]. mstep E.
  change (disk w1) with (disk (saved w)) in *. rewrite saved_disk in *.
  set (w2 := set_disk (fun _ => d) w1).
  pose proof (open_first_ok fs f w2 run_files0 Hf) as Eo. cbv zeta in Eo. eexists. split; [exact Eo|].
  assert (view fs d = shifted (List.length fs - 1) v) as Hv' by by rewrite <- run_view0.
  change (disk w2) with d in *. change (mAppend (handler w2)) with (mAppend (handler w)) in *. rewrite run_append0 in *.
  assert ((if append then default [] (d !! f) else []) = kept append (List.length fs) t) as Hc.
  { unfold kept. destruct append; [|done]. pose proof (view_lookup fs d 0 f Hf) as H0. rewrite Hv' in H0. cbn [andb].
    destruct (List.length fs) as [|[|n]]; cbn in H0 |- *; [lia|rewrite Ht in H0|]; by injection H0 as <-. }
  rewrite Hc in *. split.
  - split; try done.
    + cbn [disk]. rewrite (view_insert fs Hnd _ d 0 f Hf). rewrite Hv'.
      assert (List.length v = List.length fs) as Hl by by rewrite <- run_view0, view_length.
      unfold shifted. destruct (List.length fs - 1)%nat eqn:En.
      * destruct v as [|a [|b v]]; cbn in *; try lia. done.
      * rewrite drop_ge by lia. by rewrite app_nil_r.
    + by exists f, (kept append (List.length fs) t).
  - cbn [disk]. etransitivity; [exact Ho|]. by apply (others_insert fs _ d 0 f).
Qed.

Lemma written_ok t older vol w s :
  running (Some t :: older) vol w ->
  exists w', write s w = (Ok tt, w') /\ running (Some (t ++ s) :: older) vol w' /\ others fs (disk w) (disk w').
Proof.
  intros []. destruct run_writer0 as (f & t' & Hf & [= <-] & Hm).
  assert (disk w !! f = Some t) as Hd by by apply (view_head fs _ f (Some t :: older)).
  eexists. split; [exact (write_file_ok w f _ t s Hm Hd)|]. split.
  - split; try done.
    + cbn [disk]. by rewrite (view_insert fs Hnd _ _ 0 f Hf), run_view0.
    + exists f, (t ++ s). by rewrite len_app.
  - by apply (others_insert fs _ _ 0 f).
Qed.

(** The end of [publish], which counts a record of [n] bytes. *)
Lemma counted_ok v vol w n :
  running v vol w -> 0 <= n < 2 ^ 31 ->
  exists w', (update (with_sizes (i32 (mFlushSize (handler w) + n)) (i32 (mDataVolume (handler w) + n)));;
    if mBufferSize (handler w) <=? i32 (mFlushSize (handler w) + n)
    then flush;; update (fun h => with_sizes 0 (mDataVolume h) h) else mret tt) w = (Ok tt, w') /\
    running v (i32 (vol + n)) w' /\ disk w' = disk w.
Proof.
  intros [] Hn. destruct run_writer0 as (f & t & Hf & Hh & Hm). rewrite run_used0, run_buffer0.
  set (fl := i32 (mFlushSize (handler w) + n)). unfold update. rewrite bind_modify.
  set (w1 := set_handler _ w). destruct (bs <=? fl) eqn:E.
  - mstep (flush_ok w1 _ Hm). eexists. split; [reflexivity|]. unfold modify. rewrite saved_handler.
    split; [|cbn [disk set_handler]; by rewrite saved_disk]. split; try done; cbn [handler disk volume set_handler].
    + intros Hb. split; [done|]. intros _ Hd. unfold saved. cbn [handler set_handler w1 with_sizes mDataVolumeLimit].
      rewrite run_volume0. by rewrite (proj2 (Z.ltb_lt _ _) Hd).
    + by rewrite saved_disk.
    + eauto.
  - exists w1. split; [done|]. split; [|done]. split; try done; [|eauto].
    intros Hb. destruct (run_saved0 Hb) as [Hfl _]. unfold fl in E. rewrite Hfl, i32_id, Hb in E by lia. lia.
Qed.
(** One record: it is filtered, or put behind the text of the first file, which is a new one where the old one is full. *)
Lemma publish_ok v vol w priority msg :
  running v vol w -> 0 <= limit < 2 ^ 30 -> len (line msg) < 2 ^ 30 ->
  (forall t, v !! 0%nat = Some (Some t) -> len t < 2 ^ 30) ->
  let takes := (INFO <=? priority) && fits dl vol msg in
  exists w', publish priority msg w = (Ok tt, w') /\
    running (if takes then published limit append (List.length fs) msg v else v)
      (if takes then i32 (vol + len (line msg)) else vol) w' /\
    others fs (disk w) (disk w').
Proof.
  intros H Hl Hmsg Ht takes. pose proof H as []. destruct run_writer0 as (f & t & Hf & Hh & Hm). specialize (Ht t Hh).
  pose proof (len_nonneg t). pose proof (len_nonneg msg). pose proof (line_length msg) as Hlm. change (len CRLF) with 2 in Hlm.
  subst takes. unfold publish, this. rewrite bind_gets. unfold id. rewrite run_priority0, Z.ltb_antisym.
  destruct (INFO <=? priority); [|by exists w]. cbn [negb andb].
  rewrite run_lock0, run_volume0, run_limit0, run_used0, Hm. cbn [negb andb mSize].
  rewrite <- (len_app msg CRLF). change (msg ++ CRLF) with (line msg). rewrite (i32_id (len (line msg))) by lia.
  unfold fits. destruct ((0 <? dl) && (dl <? i32 (vol + len (line msg)))); [by exists w|]. cbn [negb].
  rewrite (i32_id (len t)), i32_id by lia.
  destruct v as [|v0 older]; [done|]. cbn in Hh. injection Hh as ->. cbn [published].
  set (v1 := if rolls limit t msg then Some (kept append (List.length fs) t) :: take (List.length fs - 1) (Some t :: older) else Some t :: older).
  assert (exists w1, (if 0 <? limit then if limit <=? len t + len (line msg) then findNextGeneration else mret tt else mret tt) w = (Ok tt, w1) /\
    running v1 vol w1 /\ others fs (disk w) (disk w1)) as (w1 & E1 & R1 & O1).
  { unfold v1, rolls. destruct (0 <? limit); [|by exists w]. cbn [andb]. destruct (limit <=? _); [by apply (next_ok (Some t :: older))|by exists w]. }
  mstep E1. assert (exists t1 older1, v1 = Some t1 :: older1 /\ published limit append (List.length fs) msg (Some t :: older) = Some (t1 ++ line msg) :: older1)
    as (t1 & older1 & Ev & Ep).
  { unfold v1. cbn [published]. destruct (rolls limit t msg); eauto. }
  cbn [published] in Ep. rewrite Ep. rewrite Ev in R1.
  destruct (written_ok t1 older1 vol w1 msg R1) as (w2 & E2 & R2 & O2). mstep E2.
  destruct (written_ok (t1 ++ msg) older1 vol w2 CRLF R2) as (w3 & E3 & R3 & O3). unfold newLine. mstep E3.
  rewrite <- app_assoc in R3. rewrite bind_gets. unfold id.
  destruct (counted_ok _ _ w3 (len (line msg)) R3) as (w4 & E4 & R4 & O4); [lia|].
  exists w4. split; [exact E4|]. split; [exact R4|]. rewrite O4. by rewrite O1, O2.
Qed.

Lemma publish_all_ok rs older t gens vol w :
  running (take (List.length fs) ((Some <$> t :: gens) ++ older)) vol w ->
  (1 < List.length fs)%nat \/ append = false -> 0 < limit < 2 ^ 30 -> Forall (fun r => len (line r.2) < 2 ^ 30) rs ->
  len t < 2 ^ 30 ->
  exists w', publish_all rs w = (Ok tt, w') /\
    running (take (List.length fs) ((Some <$> foldl (add limit) (t :: gens) (accepted dl vol rs)) ++ older)) (used dl vol rs) w' /\
    others fs (disk w) (disk w').
Proof.
  intros H Hone Hl Hrs. revert t gens vol w H. induction rs as [|[p m] rs IH]; intros t gens vol w H Ht; [by exists w|].
  inversion Hrs as [|? ? Hm Hrs']; subst. cbn [snd] in Hm. cbn [publish_all fst snd accepted used].
  assert (0 < List.length fs)%nat as Hn by (destruct (run_writer _ _ _ H) as (f & _ & Hf & _); by eapply lookup_lt_Some).
  destruct (publish_ok _ vol w p m H) as (w1 & E1 & R1 & O1); [lia|done| |].
  { intros t0. destruct (List.length fs); [lia|]. by intros [= <-]. }
  mstep E1. cbv zeta in R1. destruct ((INFO <=? p) && fits dl vol m).
  - rewrite published_add in R1 by done. cbn [foldl].
    destruct (add limit (t :: gens) m) as [|t1 g1] eqn:E; [by destruct (add_cons limit (t :: gens) m) as (? & ? & ?); congruence|].
    destruct (IH Hrs' t1 g1 _ w1 R1) as (w2 & E2 & R2 & O2).
    + unfold add, rolls in E. rewrite (proj2 (Z.ltb_lt _ _)) in E by lia. cbn [andb] in E.
      destruct (Z.leb_spec limit (len t + len (line m))); injection E as <- <-; [done|rewrite len_app; lia].
    + exists w2. split; [exact E2|split; [exact R2|by etransitivity]].
  - destruct (IH Hrs' t gens vol w1 R1 Ht) as (w2 & E2 & R2 & O2).
    exists w2. split; [exact E2|split; [exact R2|by etransitivity]].
Qed.

Lemma opened_ok f w pattern vol :
  fs !! 0%nat = Some f ->
  handler w = mkHandler pattern append limit (Z.of_nat (List.length fs)) None fs bs 0 vol dl INFO true ->
  (restored = true -> 0 < dl -> default 0 (volume w) = vol) ->
  exists w', open_first w = (Ok tt, w') /\
    running (<[0%nat := Some (if append then default [] (disk w !! f) else [])]> (view fs (disk w))) vol w' /\
    others fs (disk w) (disk w') /\ volume w' = volume w.
Proof.
  intros Hf Hw Hv. pose proof (open_first_ok fs f w ltac:(by rewrite Hw) Hf) as Eo. cbv zeta in Eo. rewrite Hw in Eo. cbn [mAppend] in Eo.
  set (c := if append then default [] (disk w !! f) else []) in *. eexists. split; [exact Eo|]. split.
  - split; try done.
    + cbn [disk]. by rewrite (view_insert fs Hnd c _ 0 f Hf).
    + exists f, c. split; [done|]. split; [|done]. apply list_lookup_insert_eq. rewrite view_length. by eapply lookup_lt_Some.
  - split; [by apply (others_insert fs c _ 0 f)|done].
Qed.
End log.
(** ** Construction *)

(** The paths of the files, the newest first. *)
Definition names (count : Z) (ts : list token) : list (list Z) := (fun i => full_name count i ts) <$> seqZ 0 count.

Lemma fileNames_ok l ts count n g :
  clean l -> clean homePath -> len l < 2 ^ 63 -> tokens l = Some ts -> names_file ts = true ->
  0 <= g -> g + Z.of_nat n <= 2 ^ 32 ->
  fileNames (Some (Some l)) count n g = Ok ((fun i => full_name count i ts) <$> seqZ g (Z.of_nat n)).
Proof.
  intros Hl Hh H63 Ht Hf. revert g. induction n as [|n IH]; intros g Hg Hn; [done|]. cbn [fileNames].
  rewrite parseFileName_ok, Ht by (done || lia). cbn [mbind result_bind]. rewrite IH by lia. cbn [mbind result_bind].
  rewrite names_file_ok by (done || lia). rewrite (seqZ_cons g) by lia. cbn [fmap list_fmap]. do 4 f_equal; lia.
Qed.

Lemma names_length count ts : 0 <= count -> Z.of_nat (List.length (names count ts)) = count.
Proof. intros H. unfold names. rewrite length_fmap, length_seqZ. lia. Qed.

Lemma names_distinct count ts : 0 < count < 2 ^ 31 -> NoDup (names count ts).
Proof.
  intros Hc. apply NoDup_fmap_2_strong; [|apply NoDup_seqZ]. intros i j Hi%elem_of_seqZ Hj%elem_of_seqZ E.
  destruct (decide (1 < count)) as [H|H]; [|lia]. apply (full_name_inj count i j ts); lia || done.
Qed.

(** What a new handler makes of the files that are there: the text it goes on with, and the generations before it. *)
Definition start (limit : Z) (append : bool) (v : list (option (list Z))) : list Z * list (option (list Z)) :=
  match v with
  | Some t :: older => if append && (len t <? limit) then (t, older) else ([], v)
  | _ => ([], tail v)
  end.

Lemma start_bounded limit append v : 0 < limit -> len (start limit append v).1 < limit.
Proof.
  intros Hl. unfold start. destruct v as [|[t|] older]; [done| |done]. destruct append; [|done]. cbn [andb].
  by destruct (Z.ltb_spec (len t) limit).
Qed.

Lemma start_rotates limit append v t older :
  v = Some t :: older -> append && (len t <? limit) = false -> start limit append v = ([], v).
Proof. intros -> H. cbn [start]. by rewrite H. Qed.

Lemma init_files_ok ts l limit count append bs dl w :
  clean l -> clean homePath -> len l < 2 ^ 63 -> tokens l = Some ts -> names_file ts = true ->
  0 < limit < 2 ^ 31 -> 0 < count < 2 ^ 31 -> 1 < count \/ append = false ->
  handler w = mkHandler (Some (Some l)) append limit count None [] bs 0 0 dl INFO true ->
  exists w', initOutputFiles w = (Ok tt, w') /\
    (let '(first, older) := start limit append (view (names count ts) (disk w)) in
     running (names count ts) limit append bs dl false (take (Z.to_nat count) (Some first :: older)) 0 w') /\
    others (names count ts) (disk w) (disk w') /\ volume w' = volume w.
Proof.
  intros Hl Hh H63 Ht Hf Hlim Hc Hone Hw. unfold initOutputFiles, this. rewrite bind_gets. unfold id. rewrite Hw.
  cbn [mPattern mCount mAppend mLimit]. set (fs := names count ts).
  assert (fileNames (Some (Some l)) count (Z.to_nat count) 0 = Ok fs) as En.
  { rewrite (fileNames_ok l ts) by (done || lia). unfold fs, names. by rewrite Z2Nat.id by lia. }
  rewrite En. unfold lift. unfold mbind at 1, M_bind at 1. unfold update. rewrite bind_modify.
  replace (mFiles (handler w)) with (@nil (list Z)) by by rewrite Hw. cbn [app].
  set (w1 := set_handler _ w). pose proof (names_length count ts ltac:(lia)) as Hlen. fold fs in Hlen.
  pose proof (names_distinct count ts Hc) as Hnd. fold fs in Hnd.
  destruct (lookup_lt_is_Some_2 fs 0) as [f Hf0]; [lia|].
  rewrite (bind_Ok _ _ _ _ _ (file_ok 0 f w1 Hf0)). cbn beta. unfold exists_, length_. rewrite !bind_gets.
  change (disk w1) with (disk w). set (v := view fs (disk w)).
  assert (exists older, v = disk w !! f :: older) as [older Ev].
  { pose proof (view_lookup fs (disk w) 0 f Hf0) as Hv. fold v in Hv. destruct v as [|a older]; [done|]. injection Hv as ->. by exists older. }
  assert (List.length v = Z.to_nat count) as Hlv by (unfold v; rewrite view_length; lia).
  rewrite u64_id by lia.
  match goal with |- context [if ?b then rotate _ else _] => destruct b eqn:Hb end.
  - apply andb_true_iff in Hb as [[t Hd]%bool_decide_eq_true Hb]. rewrite Hd in *. cbn [from_option] in Hb.
    rewrite (start_rotates limit append v t older Ev) by (rewrite Z.ltb_antisym; by destruct append, (limit <=? len t)).
    destruct (rotate_ok fs Hnd (Z.to_nat (count - 1)) w1) as (d & E & Hv & Ho); [done|lia|]. mstep E.
    destruct (opened_ok fs Hnd limit append bs dl false f (set_disk (fun _ => d) w1) (Some (Some l)) 0 Hf0) as (w2 & E2 & R2 & O2 & V2).
    { unfold w1. cbn. rewrite Hw. unfold with_files. cbn. by rewrite Hlen. }
    { done. }
    exists w2. split; [exact E2|]. split; [|split; [by rewrite <- O2|exact V2]].
    change (disk w1) with (disk w) in Hv. fold v in Hv. change (disk (set_disk (fun _ => d) w1)) with d in R2. rewrite Hv in R2.
    pose proof (view_lookup fs d 0 f Hf0) as H0. rewrite Hv in H0.
    replace (take (Z.to_nat count) (Some [] :: v)) with
      (<[0%nat := Some (if append then default [] (d !! f) else [])]> (shifted (Z.to_nat (count - 1)) v)); [exact R2|].
    replace (Z.to_nat count) with (S (Z.to_nat (count - 1))) in * by lia. destruct (Z.to_nat (count - 1)) as [|n] eqn:Ec.
    + destruct Hone as [?| ->]; [lia|]. rewrite Ev in Hlv |- *. by destruct older.
    + injection H0 as <-. cbn [default shifted]. rewrite drop_ge, app_nil_r by lia. by destruct append.
  - rewrite bind_ret. destruct (opened_ok fs Hnd limit append bs dl false f w1 (Some (Some l)) 0 Hf0) as (w2 & E2 & R2 & O2 & V2).
    { unfold w1. cbn. rewrite Hw. unfold with_files. cbn. by rewrite Hlen. }
    { done. }
    exists w2. split; [exact E2|]. split; [|split; [exact O2|exact V2]]. change (disk w1) with (disk w) in *. fold v in R2.
    assert (start limit append v = (if append then default [] (disk w !! f) else [], older)) as ->.
    { rewrite Ev. destruct (disk w !! f) as [t|]; cbn [start]; [|by destruct append].
      rewrite bool_decide_true in Hb by by exists t. cbn [from_option] in Hb. apply orb_false_iff in Hb as [Ha Ht'].
      destruct append; [|done]. rewrite Z.ltb_antisym, Ht'. done. }
    rewrite Ev in R2, Hlv. cbn in R2. by rewrite take_ge by (cbn in Hlv |- *; lia).
Qed.
(** What the volume counts from. *)
Definition volume_at (dl : Z) (w : World) : Z := if 0 <? dl then default 0 (volume w) else 0.

Section new.
Context (Hwritten : forall c s, written c s = len s) (ts : list token) (l : list Z) (limit count : Z) (append : bool) (bs dl : Z).
Context (Hl : clean l) (Hh : clean homePath) (H63 : len l < 2 ^ 63) (Ht : tokens l = Some ts) (Hf : names_file ts = true).
Context (Hlim : 0 < limit < 2 ^ 30) (Hc : 0 < count < 2 ^ 31) (Hone : 1 < count \/ append = false) (Hbs : 0 <= bs) (Hdl : 0 <= dl).
Notation files := (names count ts).

Lemma new_handler_ok w :
  let '(first, older) := start limit append (view files (disk w)) in
  exists w', new (Some (Some l)) limit count append bs dl w = (Ok tt, w') /\
    running files limit append bs dl true (take (Z.to_nat count) (Some first :: older)) (volume_at dl w) w' /\
    others files (disk w) (disk w').
Proof.
  set (h := mkHandler (Some (Some l)) append limit count None [] bs 0 0 dl INFO true).
  destruct (init_files_ok ts l limit count append bs dl (set_handler h w)) as (w' & E & R & O & Hvol); [done|done|done|done|done|lia|done|done|done|].
  cbn [disk set_handler] in R, O. change (volume (set_handler h w)) with (volume w) in Hvol. destruct (start limit append _) as [first older].
  exists (set_handler (with_sizes (mFlushSize (handler w')) (volume_at dl w) (handler w')) w'). split; [|split; [|done]].
  - unfold new, update at 1. rewrite bind_modify.
    assert (0 < len l) as Hne by (destruct l; [by injection Ht as <-|rewrite len_cons; pose proof (len_nonneg l0); lia]).
    change (length (Some l)) with (len l).
    rewrite !throw_if_false; [|by rewrite !(proj2 (Z.ltb_ge _ _)) by lia|by rewrite !(proj2 (Z.ltb_ge _ _)) by lia|by apply Z.eqb_neq; lia].
    assert (initProperties (Some (Some l)) append limit count bs dl (set_handler (fresh true) w) = (Ok tt, set_handler h w)) as Ei.
    { unfold initProperties, lift, mbind at 1, M_bind at 1. cbn [deref]. change (length (Some l)) with (len l).
      rewrite (proj2 (Z.eqb_neq _ _)) by lia. by rewrite !(proj2 (Z.ltb_ge _ _)) by lia. }
    unfold init. mstep Ei. mstep E. unfold initPreferences, this. rewrite bind_gets. unfold id.
    rewrite (run_volume _ _ _ _ _ _ _ _ _ R). unfold volume_at. destruct (0 <? dl); [unfold get_state, update, modify, mbind, M_bind; by rewrite Hvol|].
    destruct R. destruct w' as [h' d' v']. destruct h'. cbn in *. unfold set_handler, with_sizes. cbn. by rewrite run_used0.
  - destruct R. split; try done. cbn [handler set_handler with_sizes mFlushSize volume]. intros Hb. split; [by apply run_saved0|].
    intros _ Hd. unfold volume_at. by rewrite Hvol, (proj2 (Z.ltb_lt _ _) Hd).
Qed.
Lemma log_ok rs w :
  Forall (fun r => len (line r.2) < 2 ^ 30) rs ->
  let '(first, older) := start limit append (view files (disk w)) in
  exists w', (new (Some (Some l)) limit count append bs dl;; publish_all rs) w = (Ok tt, w') /\
    running files limit append bs dl true
      (take (Z.to_nat count) ((Some <$> log_of limit first (accepted dl (volume_at dl w) rs)) ++ older)) (used dl (volume_at dl w) rs) w' /\
    others files (disk w) (disk w').
Proof.
  intros Hrs. pose proof (new_handler_ok w) as H1. pose proof (start_bounded limit append (view files (disk w)) ltac:(lia)) as Hb.
  destruct (start limit append _) as [first older]. cbn [fst] in Hb. destruct H1 as (w1 & E1 & R1 & O1).
  pose proof (names_length count ts ltac:(lia)) as Hn. replace (Z.to_nat count) with (List.length files) in * by lia.
  destruct (publish_all_ok files (names_distinct count ts Hc) limit append bs dl true Hwritten rs older first [] (volume_at dl w) w1)
    as (w2 & E2 & R2 & O2); [exact R1|destruct Hone; [left; lia|by right]|done|done|lia|].
  exists w2. split; [by mstep E1|]. split; [exact R2|by etransitivity].
Qed.
End new.

(** C31: Where files can be opened, renamed and removed and every write takes all of its bytes, and there is a limit (from 1 to
    2^30 - 1 bytes) and more than one file or a handler that does not append, the log that a handler writes is the unbounded log
    of the accepted records, cut into generations, of which the files hold the newest: each is below the limit or a single
    record, together they are every byte in order, and no other file changes.  The pattern parses, ends in the name of
    a file and has no NUL, and records have less than 2^30 bytes.  A single file that is appended to is never cut,
    whatever the limit: see [single_grows]. *)
Theorem log_rotates ts l limit count append bs dl rs w :
  (forall c s, written c s = len s) ->
  clean l -> clean homePath -> len l < 2 ^ 63 -> tokens l = Some ts -> names_file ts = true ->
  0 < limit < 2 ^ 30 -> 0 < count < 2 ^ 31 -> 1 < count \/ append = false -> 0 <= bs -> 0 <= dl ->
  Forall (fun r => len (line r.2) < 2 ^ 30) rs ->
  let '(first, older) := start limit append (view (names count ts) (disk w)) in
  exists w' gens, (new (Some (Some l)) limit count append bs dl;; publish_all rs) w = (Ok tt, w') /\
    view (names count ts) (disk w') = take (Z.to_nat count) ((Some <$> gens) ++ older) /\
    concat (reverse gens) = first ++ concat (line <$> accepted dl (volume_at dl w) rs) /\
    Forall (bounded limit (accepted dl (volume_at dl w) rs)) gens /\
    others (names count ts) (disk w) (disk w').
Proof.
  intros Hwr Hl Hh H63 Ht Hf Hlim Hc Hone Hbs Hdl Hrs.
  pose proof (log_ok Hwr ts l limit count append bs dl Hl Hh H63 Ht Hf Hlim Hc Hone Hbs Hdl rs w Hrs) as H.
  pose proof (start_bounded limit append (view (names count ts) (disk w)) ltac:(lia)) as Hb.
  destruct (start limit append _) as [first older]. cbn [fst] in Hb. destruct H as (w' & E & R & O).
  exists w', (log_of limit first (accepted dl (volume_at dl w) rs)). split; [exact E|]. split; [apply (run_view _ _ _ _ _ _ _ _ _ R)|].
  split; [apply log_of_text|]. split; [apply log_of_bounded; lia|done].
Qed.

(** A limit of the data volume holds over the runs of a program: the volume that the preferences give counts every byte that
    is written, it stays within the limit, and without a buffer the preferences have it for the next run. *)
Theorem volume_kept ts l limit count append dl rs w :
  (forall c s, written c s = len s) ->
  clean l -> clean homePath -> len l < 2 ^ 63 -> tokens l = Some ts -> names_file ts = true ->
  0 < limit < 2 ^ 30 -> 0 < count < 2 ^ 31 -> 1 < count \/ append = false -> 0 < dl < 2 ^ 30 ->
  0 <= default 0 (volume w) <= dl ->
  Forall (fun r => len (line r.2) < 2 ^ 30) rs ->
  exists w', (new (Some (Some l)) limit count append 0 dl;; publish_all rs) w = (Ok tt, w') /\
    default 0 (volume w') = default 0 (volume w) + len (concat (line <$> accepted dl (default 0 (volume w)) rs)) /\
    default 0 (volume w') <= dl.
Proof.
  intros Hwr Hl Hh H63 Ht Hf Hlim Hc Hone Hdl Hv Hrs.
  pose proof (log_ok Hwr ts l limit count append 0 dl Hl Hh H63 Ht Hf Hlim Hc Hone ltac:(lia) ltac:(lia) rs w Hrs) as H.
  destruct (start limit append _) as [first older]. destruct H as (w' & E & R & _). exists w'. split; [exact E|].
  destruct (run_saved _ _ _ _ _ _ _ _ _ R eq_refl) as [_ ->]; [|done|lia].
  unfold volume_at. rewrite (proj2 (Z.ltb_lt 0 dl)) by lia. by apply used_ok.
Qed.

(** ** What the code does not do *)

(** A single file that is appended to is never cut. *)
Lemma published_single limit msg t : published limit true 1 msg [Some t] = [Some (t ++ line msg)].
Proof. unfold published. by destruct (rolls limit t msg). Qed.

(** With a limit of the size, the text of one record after the other. *)
Theorem single_grows f limit bs t vol w priority msg :
  (forall c s, written c s = len s) ->
  running [f] limit true bs 0 true [Some t] vol w -> INFO <= priority -> 0 <= limit < 2 ^ 30 ->
  len t < 2 ^ 30 -> len (line msg) < 2 ^ 30 ->
  exists w', publish priority msg w = (Ok tt, w') /\ disk w' !! f = Some (t ++ line msg).
Proof.
  intros Hwr R Hp Hl Ht Hm. assert (NoDup [f]) as Hnd by apply NoDup_singleton.
  destruct (publish_ok [f] Hnd limit true bs 0 true Hwr _ vol w priority msg R) as (w' & E & R' & _); [done|done|by intros t' [= <-]|].
  exists w'. split; [exact E|]. cbv zeta in R'. rewrite (proj2 (Z.leb_le _ _) Hp) in R'. change (fits 0 vol msg) with true in R'.
  cbn [andb List.length] in R'. rewrite published_single in R'. by injection (run_view _ _ _ _ _ _ _ _ _ R').
Qed.

Lemma clearFirst_ok n f w :
  mFiles (handler w) !! 0%nat = Some f -> clearFirst (S n) w = (Ok tt, set_disk (delete f) w).
Proof.
  assert (forall k w, mFiles (handler w) !! 0%nat = Some f ->
    clearFirst (S k) w = clearFirst k (set_disk (delete f) w)) as step.
  { clear. intros k w Hf. cbn [clearFirst]. rewrite (bind_Ok _ _ _ _ _ (file_ok 0 f w Hf)). cbn beta. unfold exists_. rewrite bind_gets.
    assert ((if bool_decide (is_Some (disk w !! f)) then remove f else mret tt) w = (Ok tt, set_disk (delete f) w)) as Er; [|by mstep Er].
    case_bool_decide as H; [done|]. apply eq_None_not_Some in H. destruct w as [h d vo]. unfold set_disk. cbn in *. by rewrite delete_id. }
  revert w. induction n as [|n IH]; intros w Hf; rewrite step by done; [done|]. rewrite IH by done.
  unfold set_disk. cbn [disk handler volume]. by rewrite delete_delete_eq.
Qed.

(** [clear] empties the first file alone. *)
Theorem clear_first_only fs limit append bs dl restored t older vol w :
  NoDup fs -> running fs limit append bs dl restored (Some t :: older) vol w ->
  exists w', clear w = (Ok tt, w') /\ view fs (disk w') = Some [] :: older.
Proof.
  intros Hnd R. pose proof (running_saved _ _ _ _ _ _ _ _ _ R) as []. destruct (run_writer _ _ _ _ _ _ _ _ _ R) as (f & t' & Hf & [= <-] & Hm).
  rewrite saved_handler in *. unfold clear. mstep (close_ok w _ Hm). set (w1 := set_handler _ _). unfold this. rewrite bind_gets.
  change (mCount (handler w1)) with (mCount (handler w)). rewrite run_count0, Nat2Z.id.
  destruct (List.length fs) as [|n] eqn:En; [by destruct fs|].
  mstep (clearFirst_ok n f w1 ltac:(cbn; by rewrite run_files0)). set (w2 := set_disk (delete f) w1).
  pose proof (open_first_ok fs f w2 run_files0 Hf) as Eo. cbv zeta in Eo. eexists. split; [exact Eo|]. cbn [disk].
  change (disk w2) with (delete f (disk (saved w))). rewrite lookup_delete_eq. cbn [default].
  replace (if mAppend (handler w2) then [] else []) with (@nil Z) by by destruct (mAppend _).
  rewrite insert_delete_eq, (view_insert fs Hnd [] _ 0 f Hf). by rewrite run_view0.
Qed.
End files.
End FileHandler.

(** ** A log in three files *)

Module FileHandlerExample.
Import CString Str FileHandler.
Local Instance disk_env : Disk := { written _ s := len s; homePath := chars "/home/a" }.

Definition pattern : list Z := chars "%h/log-%g.txt".
Definition parsed : list token := Home :: (Lit <$> chars "log-") ++ [Gen] ++ (Lit <$> chars ".txt").

(** The files of an earlier run. *)
Definition before : World :=
  mkWorld (mkHandler None false 0 0 None [] 0 0 0 0 0 false)
    {[ chars "/home/a/log-0.txt" := chars "old"; chars "/home/a/log-1.txt" := chars "older" ]} (Some 4).

Definition records : list (Z * list Z) := [(3, chars "aaaa"); (1, chars "debug"); (3, chars "bbbb"); (4, chars "cccc"); (3, chars "a record beyond")].

Example three_files :
  (let '(x, w) := (new (Some (Some pattern)) 10 3 true 0 0;; publish_all records) before in
   (x, view (names 3 parsed) (disk w))) =
  (Ok tt, [Some (line (chars "a record beyond")); Some (line (chars "cccc")); Some (line (chars "bbbb"))]).
Proof. vm_compute. reflexivity. Qed.

Lemma written_all : forall c s, written c s = len s.
Proof. reflexivity. Qed.

Lemma short_records : Forall (fun r => len (line r.2) < 2 ^ 30) records.
Proof. decided. Qed.

Lemma log_rotates_witness :
  let '(first, older) := start 10 true (view (names 3 parsed) (disk before)) in
  exists w' gens, (new (Some (Some pattern)) 10 3 true 0 0;; publish_all records) before = (Ok tt, w') /\
    view (names 3 parsed) (disk w') = take (Z.to_nat 3) ((Some <$> gens) ++ older) /\
    concat (reverse gens) = first ++ concat (line <$> accepted 0 (volume_at 0 before) records) /\
    Forall (bounded 10 (accepted 0 (volume_at 0 before) records)) gens /\
    others (names 3 parsed) (disk before) (disk w').
Proof.
  apply (log_rotates parsed pattern 10 3 true 0 0 records before written_all); [decided|decided|done|reflexivity|reflexivity|lia|lia|left; lia|lia|lia|].
  exact short_records.
Defined.

Lemma volume_kept_witness :
  exists w', (new (Some (Some pattern)) 10 3 true 0 20;; publish_all records) before = (Ok tt, w') /\
    default 0 (volume w') = default 0 (volume before) + len (concat (line <$> accepted 20 (default 0 (volume before)) records)) /\
    default 0 (volume w') <= 20.
Proof.
  apply (volume_kept parsed pattern 10 3 true 20 records before written_all); [decided|decided|done|reflexivity|reflexivity|lia|lia|left; lia|lia|cbn; lia|].
  exact short_records.
Defined.

(** The records that would go beyond the volume are dropped. *)
Example volume_full :
  accepted 20 4 records = [chars "aaaa"; chars "bbbb"].
Proof. vm_compute. reflexivity. Qed.
End FileHandlerExample.
